(* ===== verification/_CoqProject ===== *)
-Q . S2P
Prelude.v
BitUtils.v
Pod.v
Bytes.v
PortIo.v
Log.v
Uart.v
Rtc.v
Clock.v
Ata.v
Float32.v
Rounding.v
Geometry.v
Font.v
Framebuffer.v
Composite.v
Asm.v
Elf.v
Symbols.v
MemoryTypes.v
Acpi.v
FrameAllocator.v
Paging.v
Pci.v
Virtqueue.v
VirtioDevice.v
VirtioGpu.v
Memory.v
Sharing.v
Isolation.v
MemoryInit.v
LoaderState.v
ObjectLoader.v
Bootloader.v
Boot.v
Linking.v
Heap.v
Process.v
Input.v
Desktop.v
VirtioInput.v
SpinMutex.v
DeferMutex.v
UnitTests.v
Scheduler.v
KernelLoader.v
Shell.v
ShellLocks.v
Idt.v
Vectors.v
ContextSwitch.v
Preemption.v
