(* ===== verification/Prelude.v ===== *)
(** * Rhubarb: a verification library

    Rhubarb is an operating system in Rust: a UEFI bootloader, a kernel that
    links object files at run time, a shell that runs in user mode, answers
    the kernel's permission requests and draws the desktop, and the crates and
    drivers they share. This library is a shallow embedding of it, with the
    theorems that make it correct. Release builds are modelled: integer
    arithmetic wraps, shift amounts are masked, [debug_assert] is off.

    ** Conventions

    A fallible Rust computation is a value of [exec]: [Done] or [Panic]
    ([unwrap], [expect], [assert!], an index out of bounds). [Result] is
    [result]; a state is passed explicitly and returned. A [w]-bit integer is
    a [Z] in [0, 2^w); [⊞], [⊟] and [⊠] are the wrapping operations on [u64]
    and [usize]. A hash map is a [gmap], a deque or vector a list, an array a
    list whose accesses out of range panic. Physical memory is a map from
    (frame, index) to 64-bit words, so page tables of different address
    spaces share what they share in the machine. An [f32] is a number of the
    Standard Library's specification of IEEE 754 with 24 bits. The kernel's
    own mutexes are uncontended, since a kernel path runs to its end with
    interrupts disabled; the locks that it shares with the shell are the
    subject of [ShellLocks].

    ** Files

    Shared: [Prelude] (this file: the panic monad, machine integers, loops,
    the automation [case_if], [exec_inv], [exec_cases]), [BitUtils]
    (crates/bit-utils), [Pod] (crates/pod: the class of types that are read
    from bytes, and that of their encodings), [Bytes] (memory as bytes),
    [PortIo] (drivers/x86-port: drivers as functions of the history of port
    accesses, for any [Hardware]).

    Memory: [MemoryTypes] and [Paging] (crates/memory-types; [FrameAlloc] and
    [FrameAllocLaws] are what the page tables ask of a frame allocator),
    [FrameAllocator] and [Memory] (kernel/src/memory.rs: the bitmap allocator,
    address spaces, kernel mappings, the tracker and memory::init), [Sharing]
    (what the mapping functions write, and kernel mappings in a process),
    [Isolation] (all address spaces together), [MemoryInit] (memory::init as a
    whole), [Heap] (crates/heap, the user-space allocator).

    The object loader: [Elf] (crates/elf), [Symbols] (crate names in mangled
    names), [LoaderState] (objects, sections and the monad of
    kernel/src/loader.rs), [ObjectLoader] (its operations and the boot file
    system of main.rs), [Linking] (what they guarantee), [KernelLoader]
    (loader::init, and the loader as the [Loader] of the scheduler),
    [Bootloader] (bootloader/src/main.rs, and what the kernel makes of it),
    [Boot] (from the firmware's memory map to the frames that the kernel hands
    out).

    Processes: [Process] (crates/process: messages, rings, results),
    [Scheduler] (kernel/src/scheduler.rs and the start-up of main.rs; [Sys] is
    the whole state, the object loader the interface [Loader]),
    [ContextSwitch] (the assembly that saves and resumes a context, and the
    set-up of the FPU), [Idt] (kernel/src/idt.rs: page and protection faults),
    [Vectors] (its table of handlers, and what reaches them), [Preemption]
    (every process as on a processor of its own), [Shell] (the request loop of
    shell/src/shell.rs and its protocol with the kernel), [ShellLocks] (the
    same with the locks of the rings and interrupts between any two steps),
    [SpinMutex] (crates/spin-mutex), [DeferMutex] (crates/defer-mutex),
    [UnitTests] (the tests of several crates, evaluated on the model), [Acpi]
    (kernel/src/acpi.rs, apic.rs, gdt.rs), [Log] (crates/log).

    Drivers: [Pci] (drivers/pci over [Ports]; [ConfigMechanism] is what the
    hardware promises and [Machine] an instance of it), [Virtqueue],
    [VirtioDevice], [VirtioInput] (with the input driver of shell/apps) and
    [VirtioGpu] (drivers/virtio), [Ata] (drivers/ata), [Uart]
    (drivers/uart-16550 and the three loggers), [Rtc] (drivers/rtc), [Clock]
    (drivers/pit, crates/time, kernel/src/tsc.rs), [Input] (crates/input).

    Drawing: [Float32] and [Rounding] (single-precision numbers and the
    comparison of crates/math), [Geometry] (crates/math), [Font],
    [Framebuffer] and [Composite] (crates/framebuffer), [Desktop] (the drawing
    and the pointer of shell/src/shell.rs).

    [Asm]: the disassembler of crates/abi.

    ** What the theorems show

    - Page tables: a tree is well formed ([pt_wf]) when its tables form a tree
      of distinct frames outside the free ones and its entries fit; [view] is
      what a walk finds. map_to is the insertion into that view, errors
      included; set_flags changes exactly its range; translation reads it.
    - Frames and address spaces: the bitmap refines the set of free frames;
      creating, mapping into and dropping an address space, down to the frames
      and translations; a kernel mapping gives a process the kernel's frames
      and changes nothing else; over any sequence of operations on their
      private parts, spaces share only frames of the kernel and no operation is
      seen by another space. In the physical half, which is shared, a grant to
      one process reaches others, and can leave a freed table in the kernel's
      tree. What start-up leaves free, exactly, that the 64 MiB it asks for are
      enough for the kernel's heap, and that a frame in use is memory which
      the firmware called usable.
    - Heap: the hole list refines the set of free bytes; allocation and
      deallocation move exactly one block.
    - Boot and linking: the kernel's segments are placed; the boot file system
      returns the files of the boot volume; an ELF file is read back as it was
      written; the size pass and the loading pass over the sections agree;
      loading ends whatever the objects refer to; a relocation writes the value
      that its type asks for. The bootloader's own pages, objects included, are
      reported as free.
    - Processes: an invariant over all interrupts, page faults and any shell
      (one running process, every other saved, unique ids, the idle process
      present), exact resumption, down to the instructions that save and
      restore the registers, round robin, reclamation on exit; the frame of
      the idle process can not be resumed; where the fault handler means to
      end a process the kernel panics, and so it does on any software interrupt
      of a process but the three system calls and on a 16-bit port access.
      Every process runs as on a processor of its own.
    - Queues and locks: the ring is a bounded FIFO until it is pushed to when
      full; answers of the shell reach the process that asked, until nine
      processes block; with the locks of the rings taken one step at a time the
      protocol is the same, but an interrupt of the shell in the critical
      section of a ring that the kernel needs never returns; mutual exclusion
      in every interleaving; deferring while waiting lets the stress test end,
      spinning does not; a logger is set once.
    - Devices: enumeration equals the nested loops; a push to a virtqueue is
      read back when the device has used it, and a poll returns exactly the
      used events; ATA reads fill the buffer block by block; the clock is read
      exactly in 24-hour mode; a text is sent byte by byte; sleeps program the
      right counts; the waits end.
    - Drawing: the comparison agrees with IEEE 754 on all bit patterns; no
      area, character position or input event makes the drawing code write
      outside its buffers or panic, NaN and infinities included; characters
      get the font's bitmaps; compositing stacks the layers.
    - Disassembler: decoding inverts encoding, never reads outside its input,
      and always moves forward.

    ** Bounds and fuel

    Loops over ranges recurse on their length and loops over lists on the
    list. [iter_loop] is a [for] loop over an iterator: its fuel is one
    more than the number of section or program headers in the file's header.
    [load_fuel] is one more than twice the number of objects: each is loaded at
    most once. [disassemble] takes one more than the length of
    its input, and so does [read_prefixes]. [set_flags] recurses on
    the number of pages of the range. [collect] (draining the device
    iterator), [register_devices] (the same loop at start-up) and [serve] (the
    shell's loop) take fuel: 65536 is the number of functions of 256 buses, one
    more is enough for [register_devices] whatever the ports answer
    ([register_devices_ends]), and one more than the pending requests is enough
    for [serve]. The capability list is walked with fuel. Drawing a character
    takes at most 145 rounds, 9 columns of 16 rows and one more. A wait for
    hardware spins a number of times ([spins]), after which the outcome is
    [Waiting]; the [moves] of a virtio device are one for each look at its
    ring. For these the theorems of termination say when a result is returned.
    The theorems on process ids assume that the 64-bit counter has not wrapped
    ([counter_ok]); those on surfaces that a side has fewer than 2^24 pixels
    (2^22 for compositing), the integers that a single-precision number
    represents exactly.

    ** Hypotheses on code and hardware outside the sources

    [FrameAllocLaws] is proved for the kernel's allocator and for its proxy,
    and [Loader] is implemented by [KernelLoader]; the scheduler's theorems
    hold for every loader. [ConfigMechanism] is the PCI configuration
    mechanism, [MmioApart] says that registers of a device do not overlap,
    [ControlDevice] and [completed] what a virtio device does with a chain.
    Port reads are answered by any [Hardware]; where a theorem needs more it
    says so ([ready_within] for a serial port, [shows] for a clock, [ticking]
    for the time-stamp counter). The demangler, the alphanumeric characters
    beyond ASCII, the addresses of new vectors and boxes, the order of a hash
    map, the answers of CPUID and of the UEFI firmware, and the tables that
    the acpi crate has parsed are arguments. The third-party x86_64 types are
    their documented behaviour ([VirtAddr_new] panics on a non-canonical
    address), and interrupt delivery, [iretq] and the I/O permission map those
    of the processor's manual.

    ** Not modelled

    The build tool (tools/runner), the formatting impls, the log messages,
    the panic handlers and the allocator shim; the kernel's own heap (a
    third-party crate); the segment selectors, which are calls of the x86_64
    crate; the registers of the local
    APIC; [map_dependency], which AUTO_MAP_DEPENDENCIES = false leaves unused;
    the statics of crates/hardware, which are arguments here, and the traits of
    crates/io and crates/fs.

    ** Possible extensions

    The physical half in the invariant of [Isolation], for the grants that are
    confined to mapped pages; the page tables as the memory that the
    instructions of [Preemption] access; processes that inherit the kernel's
    whole table (run_kernel_process). *)

From Stdlib Require Import Lia Btauto.
From stdpp Require Import base numbers list option tactics.

Local Open Scope Z_scope.

(** ** Panics, results and early returns *)

(** A Rust computation either returns a value or panics. *)
Inductive exec (A : Type) : Type :=
  | Done (a : A)
  | Panic.
Arguments Done {A} a.
Arguments Panic {A}.

(** Rust's [Result]. *)
Inductive result (A E : Type) : Type :=
  | Ok (a : A)
  | Err (e : E).
Arguments Ok {A E} a.
Arguments Err {A E} e.

#[export] Instance result_eq_dec {A E} `{EqDecision A, EqDecision E} : EqDecision (result A E).
Proof. solve_decision. Defined.

#[export] Instance exec_ret : MRet exec := fun A a => Done a.
#[export] Instance exec_bind : MBind exec := fun A B f m =>
  match m with Done a => f a | Panic => Panic end.
#[export] Instance exec_fmap : FMap exec := fun A B f m =>
  match m with Done a => Done (f a) | Panic => Panic end.

(** [assert!(b)]. *)
Definition rust_assert (b : bool) : exec unit := if b then Done tt else Panic.

(** [Option::unwrap] and [Option::expect]. *)
Definition unwrap {A} (o : option A) : exec A :=
  match o with Some a => Done a | None => Panic end.

(** [Result::ok]. *)
Definition result_ok {A E} (r : result A E) : option A :=
  match r with Ok a => Some a | Err _ => None end.

(** [Option::ok_or]. *)
Definition ok_or {A E} (o : option A) (e : E) : result A E :=
  match o with Some a => Ok a | None => Err e end.

(** [for i in start..start+n { body }] over a mutable state [S]. *)
Fixpoint for_range {S} (n : nat) (start : Z) (body : Z -> S -> exec S) (s : S) : exec S :=
  match n with
  | O => Done s
  | Datatypes.S n' => s' ← body start s; for_range n' (start + 1) body s'
  end.

(** [for x in xs { body }]. *)
Fixpoint for_each {A S} (xs : list A) (body : A -> S -> exec S) (s : S) : exec S :=
  match xs with
  | [] => Done s
  | x :: xs' => s' ← body x s; for_each xs' body s'
  end.

(** [a[i] = x] on an array or a slice. *)
Definition array_set {A} (l : list A) (i : nat) (x : A) : exec (list A) :=
  _ ← unwrap (l !! i);
  Done (<[i := x]> l).

(** [m?]: an error ends the function with that error. *)
Definition try_bind {A B E} (m : exec (result A E)) (k : A -> exec (result B E)) : exec (result B E) :=
  r ← m;
  match r with
  | Ok a => k a
  | Err e => Done (Err e)
  end.
Notation "x ←? m ; k" := (try_bind m (fun x => k)) (at level 20, m at level 100, k at level 200, only parsing).
Notation "' p ←? m ; k" := (try_bind m (fun p => k))
  (at level 20, p pattern, m at level 100, k at level 200, only parsing).

(** [for a in it { body }] over an iterator's [next]; the body continues with
    [inl] or leaves the loop with [inr]. [None] means that the fuel ran out. *)
Fixpoint iter_loop {I A S R} (next : I -> exec (option A * I)) (body : A -> S -> exec (S + R))
    (fuel : nat) (it : I) (s : S) : exec (option (S + R)) :=
  match fuel with
  | O => Done None
  | Datatypes.S fuel =>
      '(o, it) ← next it;
      match o with
      | None => Done (Some (inl s))
      | Some a =>
          r ← body a s;
          match r with
          | inl s => iter_loop next body fuel it s
          | inr r => Done (Some (inr r))
          end
      end
  end.

(** [Iterator::enumerate]. *)
Definition enumerate_next {I A} (next : I -> exec (option A * I)) (it : I * Z) : exec (option (Z * A) * (I * Z)) :=
  '(o, i) ← next it.1;
  match o with
  | None => Done (None, (i, it.2))
  | Some a => Done (Some (it.2, a), (i, it.2 + 1))
  end.

(** The same loop over the elements of a list. *)
Fixpoint for_ret {A S R} (xs : list A) (body : A -> S -> exec (S + R)) (s : S) : exec (S + R) :=
  match xs with
  | [] => Done (inl s)
  | x :: xs =>
      r ← body x s;
      match r with
      | inl s => for_ret xs body s
      | inr r => Done (inr r)
      end
  end.

(** ** Machine integers: a [w]-bit unsigned integer is a [Z] in [0, 2^w)
    and release builds wrap around on overflow. *)

Definition wrap (w x : Z) : Z := x mod 2 ^ w.

Definition uint_range (w x : Z) : Prop := 0 <= x < 2 ^ w.

Definition wnot (w x : Z) : Z := wrap w (Z.lnot x).
Definition wshl (w x n : Z) : Z := wrap w (Z.shiftl x (n mod w)).
Definition wshr (w x n : Z) : Z := Z.shiftr x (n mod w).

(** [as isize] / [as i64]: reinterpretation of a [w]-bit pattern as signed. *)
Definition as_signed (w x : Z) : Z := if x <? 2 ^ (w - 1) then x else x - 2 ^ w.

Definition checked_add (w a b : Z) : option Z :=
  if a + b <? 2 ^ w then Some (a + b) else None.
Definition checked_sub (w a b : Z) : option Z :=
  if b <=? a then Some (a - b) else None.
Definition saturating_sub (a b : Z) : Z := Z.max 0 (a - b).

(** [usize::div_ceil]. *)
Definition div_ceil (a b : Z) : Z :=
  if a mod b =? 0 then a / b else a / b + 1.

(** [usize::next_multiple_of]. *)
Definition next_multiple_of (w a b : Z) : Z :=
  if a mod b =? 0 then a else wrap w (a + (b - a mod b)).

Fixpoint pos_ctz (p : positive) : Z :=
  match p with
  | xO q => 1 + pos_ctz q
  | _ => 0
  end.

(** [uN::trailing_zeros]. *)
Definition trailing_zeros (w x : Z) : Z :=
  match x with
  | Zpos p => pos_ctz p
  | _ => w
  end.

Declare Scope u64_scope.
Delimit Scope u64_scope with u64.
Notation "x ⊞ y" := (wrap 64 (x + y)) (at level 50, left associativity) : u64_scope.
Notation "x ⊟ y" := (wrap 64 (x - y)) (at level 50, left associativity) : u64_scope.
Notation "x ⊠ y" := (wrap 64 (x * y)) (at level 40, left associativity) : u64_scope.

(** ** Automation *)

Create HintDb rust.
Create Rewrite HintDb rust_bits.

Ltac bool_hyps :=
  repeat match goal with
  | H : (_ && _)%bool = true |- _ => apply andb_prop in H as [??]
  | H : (_ || _)%bool = false |- _ => apply orb_false_elim in H as [??]
  | H : negb _ = true |- _ => apply negb_true_iff in H
  | H : negb _ = false |- _ => apply negb_false_iff in H
  | H : (_ <? _) = true |- _ => apply Z.ltb_lt in H
  | H : (_ <? _) = false |- _ => apply Z.ltb_ge in H
  | H : (_ <=? _) = true |- _ => apply Z.leb_le in H
  | H : (_ <=? _) = false |- _ => apply Z.leb_gt in H
  | H : (_ =? _) = true |- _ => apply Z.eqb_eq in H
  | H : (_ =? _) = false |- _ => apply Z.eqb_neq in H
  end.

(** Case analysis on the conditionals of the goal, with the boolean tests
    reflected into arithmetic facts. *)
Ltac case_if :=
  match goal with
  | |- context [if ?b then _ else _] =>
      let E := fresh "Hif" in destruct b eqn:E; bool_hyps
  end.
Ltac case_if_in H :=
  match type of H with
  | context [if ?b then _ else _] =>
      let E := fresh "Hif" in destruct b eqn:E; bool_hyps
  end.

(** Peels one bind of the panic monad off a hypothesis [m ≫= f = Done r]. *)
Ltac exec_inv H :=
  match type of H with
  | mbind _ ?m = Done _ =>
      let x := fresh "x" in let E := fresh "E" in
      destruct m as [x|] eqn:E; [cbn [mbind exec_bind] in H | discriminate H]
  end.

(** Takes a successful run apart, one bind and one pair at a time. *)
Ltac exec_cases Hr :=
  repeat first
    [ exec_inv Hr
    | match type of Hr with
      | context [match ?x with (_, _) => _ end] => destruct x
      end ].

(** ** Integer and bit lemmas *)

Lemma wrap_range w x : 0 <= w -> uint_range w (wrap w x).
Proof. intros. apply Z.mod_pos_bound. lia. Qed.

Lemma wrap_small w x : uint_range w x -> wrap w x = x.
Proof. apply Z.mod_small. Qed.

Lemma wrap_wrap w x : wrap w (wrap w x) = wrap w x.
Proof. apply Zmod_mod. Qed.

Lemma testbit_wrap w x i : 0 <= w -> 0 <= i ->
  Z.testbit (wrap w x) i = (i <? w) && Z.testbit x i.
Proof.
  intros. unfold wrap. destruct (i <? w) eqn:E; bool_hyps.
  - by rewrite Z.mod_pow2_bits_low by lia.
  - by rewrite Z.mod_pow2_bits_high by lia.
Qed.

Lemma testbit_wnot w x i : 0 <= w -> 0 <= i ->
  Z.testbit (wnot w x) i = (i <? w) && negb (Z.testbit x i).
Proof. intros. unfold wnot. by rewrite testbit_wrap, Z.lnot_spec by lia. Qed.

Lemma testbit_high w x i : uint_range w x -> 0 <= w <= i -> Z.testbit x i = false.
Proof.
  intros Hx Hi. rewrite <-(wrap_small w x Hx), testbit_wrap by lia.
  destruct (i <? w) eqn:E; [bool_hyps; lia|done].
Qed.

Lemma uint_range_bits w x : 0 <= w -> 0 <= x ->
  (forall i, w <= i -> Z.testbit x i = false) -> uint_range w x.
Proof.
  intros Hw Hx Hbits. enough (x = wrap w x) as -> by by apply wrap_range.
  apply Z.bits_inj'. intros i Hi. rewrite testbit_wrap by lia.
  destruct (i <? w) eqn:E; [done|]. bool_hyps. by rewrite Hbits.
Qed.

Lemma uint_range_le v w x : 0 <= v <= w -> uint_range v x -> uint_range w x.
Proof. unfold uint_range. intros. pose proof (Z.pow_le_mono_r 2 v w). lia. Qed.

Lemma land_range w x y : 0 <= w -> uint_range w x -> 0 <= y -> uint_range w (Z.land x y).
Proof.
  intros Hw Hx Hy. apply uint_range_bits; [done| |].
  - apply Z.land_nonneg; unfold uint_range in Hx; lia.
  - intros i Hi. rewrite Z.land_spec, (testbit_high w) by (done || lia). done.
Qed.

Lemma lor_range w x y : 0 <= w -> uint_range w x -> uint_range w y -> uint_range w (Z.lor x y).
Proof.
  intros Hw Hx Hy. apply uint_range_bits; [done| |].
  - apply Z.lor_nonneg; unfold uint_range in *; lia.
  - intros i Hi. rewrite Z.lor_spec, !(testbit_high w) by (done || lia). done.
Qed.

Lemma testbit_pow2 n i : 0 <= n -> Z.testbit (2 ^ n) i = (i =? n).
Proof.
  intros. destruct (i =? n) eqn:E; bool_hyps; subst.
  - by apply Z.pow2_bits_true.
  - by apply Z.pow2_bits_false.
Qed.

Lemma testbit_wshl w x n i : 0 < w -> 0 <= n < w -> 0 <= i ->
  Z.testbit (wshl w x n) i = (i <? w) && (n <=? i) && Z.testbit x (i - n).
Proof.
  intros. unfold wshl. rewrite Z.mod_small, testbit_wrap by lia.
  rewrite Z.shiftl_spec by lia. destruct (n <=? i) eqn:E; bool_hyps; [btauto|].
  rewrite (Z.testbit_neg_r x) by lia. btauto.
Qed.

Lemma wshl_1 w n : 0 <= n < w -> wshl w 1 n = 2 ^ n.
Proof.
  intros. unfold wshl. rewrite (Z.mod_small n) by lia. rewrite Z.shiftl_1_l.
  apply wrap_small. split; [lia|]. apply Z.pow_lt_mono_r; lia.
Qed.

Lemma land_pow2_eq0 x n : 0 <= n -> (Z.land x (2 ^ n) =? 0) = negb (Z.testbit x n).
Proof.
  intros. destruct (Z.testbit x n) eqn:E; cbn.
  - apply Z.eqb_neq. intros H0.
    assert (Z.testbit (Z.land x (2 ^ n)) n = false) as H1 by by rewrite H0, Z.bits_0.
    rewrite Z.land_spec, testbit_pow2, Z.eqb_refl, E in H1 by lia. done.
  - apply Z.eqb_eq, Z.bits_inj'. intros i Hi. rewrite Z.land_spec, testbit_pow2, Z.bits_0 by lia.
    destruct (i =? n) eqn:E'; bool_hyps; subst; [by rewrite E|btauto].
Qed.

Lemma pos_ctz_spec p :
  0 <= pos_ctz p /\ Z.testbit (Zpos p) (pos_ctz p) = true /\
  (forall i, 0 <= i < pos_ctz p -> Z.testbit (Zpos p) i = false).
Proof.
  induction p as [p _|p (IH0 & IH1 & IH2)|]; cbn [pos_ctz]; [split_and!; [done|done|lia]| |split_and!; [done|done|lia]].
  rewrite Pos2Z.inj_xO. split_and!; [lia| |].
  - replace (1 + pos_ctz p) with (Z.succ (pos_ctz p)) by lia.
    by rewrite Z.testbit_even_succ by lia.
  - intros i Hi. destruct (Z.eq_dec i 0) as [->|]; [apply Z.testbit_even_0|].
    replace i with (Z.succ (i - 1)) by lia. rewrite Z.testbit_even_succ by lia. apply IH2. lia.
Qed.

Lemma trailing_zeros_spec w x : 0 < x -> uint_range w x ->
  0 <= trailing_zeros w x < w /\ Z.testbit x (trailing_zeros w x) = true /\
  (forall i, 0 <= i < trailing_zeros w x -> Z.testbit x i = false).
Proof.
  intros Hx Hr. destruct x as [|p|p]; [lia| |lia]. cbn.
  destruct (pos_ctz_spec p) as (H0 & H1 & H2). split_and!; [done| |done|done].
  destruct (Z.lt_ge_cases (pos_ctz p) w) as [|Hge]; [done|].
  destruct (Z.lt_ge_cases w 0).
  { unfold uint_range in Hr. rewrite Z.pow_neg_r in Hr by lia. lia. }
  rewrite (testbit_high w) in H1 by (done || lia). done.
Qed.

Lemma lor_disjoint_add n x y :
  0 <= n -> 0 <= x -> x mod 2 ^ n = 0 -> uint_range n y -> Z.lor x y = x + y.
Proof.
  intros Hn Hx0 Hx Hy. rewrite Z.add_nocarry_lxor, Z.lxor_lor; [done| |].
  all: apply Z.bits_inj'; intros i Hi; rewrite Z.land_spec, Z.bits_0.
  all: destruct (Z.lt_ge_cases i n).
  1,3: rewrite <-(Z.mod_pow2_bits_low x n), Hx, Z.bits_0 by lia; done.
  all: rewrite (testbit_high n y) by (done || lia); btauto.
Qed.

Lemma mod_pow2_bits_eq0 n x i : 0 <= i < n -> x mod 2 ^ n = 0 -> Z.testbit x i = false.
Proof. intros Hi Hx. by rewrite <-(Z.mod_pow2_bits_low x n), Hx, Z.bits_0 by lia. Qed.

(** Masking with [2^n - 1] and with its complement. *)
Lemma land_ones_mod x n : 0 <= n -> Z.land x (2 ^ n - 1) = x mod 2 ^ n.
Proof. intros. rewrite <-Z.land_ones by lia. f_equal. rewrite Z.ones_equiv. lia. Qed.

Lemma land_wnot_ones w x n : 0 <= n <= w -> uint_range w x ->
  Z.land x (wnot w (2 ^ n - 1)) = x - x mod 2 ^ n.
Proof.
  intros Hn Hx. replace (x - x mod 2 ^ n) with (Z.shiftl (Z.shiftr x n) n).
  2:{ rewrite Z.shiftl_mul_pow2, Z.shiftr_div_pow2 by lia. pose proof (Z.div_mod x (2 ^ n)). lia. }
  apply Z.bits_inj'. intros i Hi.
  rewrite Z.land_spec, testbit_wnot, Z.shiftl_spec by lia.
  replace (2 ^ n - 1) with (Z.ones n) by (rewrite Z.ones_equiv; lia).
  rewrite Z.testbit_ones_nonneg by lia. destruct (i <? n) eqn:E; bool_hyps.
  - rewrite (Z.testbit_neg_r _ (i - n)) by lia. btauto.
  - rewrite Z.shiftr_spec by lia. replace (i - n + n) with i by lia.
    destruct (i <? w) eqn:E'; bool_hyps; [btauto|]. rewrite (testbit_high w) by (done || lia). done.
Qed.

Lemma wrap_sub_idemp w x y : wrap w (wrap w x - y) = wrap w (x - y).
Proof. unfold wrap. by rewrite Zminus_mod_idemp_l. Qed.

Lemma wrap_add_idemp w x y : wrap w (wrap w x + y) = wrap w (x + y).
Proof. unfold wrap. by rewrite Zplus_mod_idemp_l. Qed.

Lemma div_ceil_spec a b : 0 <= a -> 0 < b ->
  b * div_ceil a b >= a /\ b * div_ceil a b < a + b.
Proof.
  intros. unfold div_ceil. pose proof (Z.div_mod a b). pose proof (Z.mod_pos_bound a b).
  case_if; nia.
Qed.

(** ** Loop rules *)

Lemma for_range_inv {S} (P : Z -> S -> Prop) body n : forall i s,
  P i s ->
  (forall j t, i <= j < i + Z.of_nat n -> P j t -> exists t', body j t = Done t' /\ P (j + 1) t') ->
  exists s', for_range n i body s = Done s' /\ P (i + Z.of_nat n) s'.
Proof.
  induction n as [|n IH]; intros i s HP Hbody.
  - exists s. by replace (i + Z.of_nat 0) with i by lia.
  - destruct (Hbody i s ltac:(lia) HP) as (s1 & E1 & HP1).
    destruct (IH (i + 1) s1 HP1) as (s2 & E2 & HP2); [intros; apply Hbody; [lia|done]|].
    exists s2. cbn [for_range]. rewrite E1. cbn. split; [done|].
    by replace (i + Z.of_nat (Datatypes.S n)) with (i + 1 + Z.of_nat n) by lia.
Qed.

Lemma for_each_inv {A S} (P : list A -> S -> Prop) body : forall xs done s,
  P done s ->
  (forall d x t, P d t -> x ∈ xs -> exists t', body x t = Done t' /\ P (d ++ [x]) t') ->
  exists s', for_each xs body s = Done s' /\ P (done ++ xs) s'.
Proof.
  induction xs as [|x xs IH]; intros done s HP Hbody; cbn.
  - exists s. by rewrite app_nil_r.
  - destruct (Hbody done x s HP) as (s1 & E1 & HP1); [by left|]. rewrite E1. cbn.
    destruct (IH (done ++ [x]) s1 HP1) as (s2 & E2 & HP2); [intros; apply Hbody; [done|by right]|].
    exists s2. by rewrite <-app_assoc in HP2.
Qed.

(** The same with the position of each element. *)
Lemma for_each_prefix {A S} (P : nat -> S -> Prop) body : forall (xs : list A) n s,
  P n s ->
  (forall i x t, xs !! i = Some x -> P (n + i)%nat t -> exists t', body x t = Done t' /\ P (Datatypes.S (n + i)) t') ->
  exists s', for_each xs body s = Done s' /\ P (n + length xs)%nat s'.
Proof.
  induction xs as [|x xs IH]; intros n s HP Hbody; cbn.
  - exists s. by rewrite Nat.add_0_r.
  - destruct (Hbody 0%nat x s eq_refl) as (s1 & E1 & HP1); [by rewrite Nat.add_0_r|]. rewrite E1. cbn. rewrite Nat.add_0_r in HP1.
    destruct (IH (Datatypes.S n) s1 HP1) as (s2 & E2 & HP2).
    + intros i y t Hi Ht. destruct (Hbody (Datatypes.S i) y t Hi) as (t' & E & HP'); [by rewrite Nat.add_succ_r|].
      exists t'. by rewrite Nat.add_succ_r in HP'.
    + exists s2. by rewrite Nat.add_succ_r.
Qed.

(** A loop ends when a measure of the iterator decreases with every element. *)
Lemma iter_loop_ends {I A S R} (next : I -> exec (option A * I)) (body : A -> S -> exec (S + R)) (measure : I -> nat) :
  (forall it a it', next it = Done (Some a, it') -> (measure it' < measure it)%nat) ->
  forall fuel it s, (measure it < fuel)%nat -> iter_loop next body fuel it s <> Done None.
Proof.
  intros Hdec fuel. induction fuel as [|fuel IH]; intros it s Hf; [lia|]. cbn [iter_loop].
  destruct (next it) as [[[a|] it']|] eqn:E; cbn [mbind exec_bind]; [|done|done].
  specialize (Hdec it a it' E). destruct (body a s) as [[s'|r]|]; cbn; [|done|done].
  apply IH. lia.
Qed.

(** A loop over an iterator that yields [xs] and then stops is the loop over
    [xs]. *)
Inductive yields {I A} (next : I -> exec (option A * I)) : I -> list A -> Prop :=
  | yields_nil it it' : next it = Done (None, it') -> yields next it []
  | yields_cons it it' a xs : next it = Done (Some a, it') -> yields next it' xs -> yields next it (a :: xs).

Lemma iter_loop_yields {I A S R} (next : I -> exec (option A * I)) (body : A -> S -> exec (S + R)) it xs :
  yields next it xs -> forall fuel s, (length xs < fuel)%nat ->
  iter_loop next body fuel it s = (r ← for_ret xs body s; Done (Some r)).
Proof.
  induction 1 as [it it' E|it it' a xs E _ IH]; intros fuel s Hf; destruct fuel as [|fuel]; cbn in Hf; try lia;
    cbn [iter_loop for_ret]; rewrite E; cbn [mbind exec_bind]; [done|].
  destruct (body a s) as [[s'|r]|]; cbn [mbind exec_bind]; [apply IH; lia|done|done].
Qed.

Lemma yields_enumerate {I A} (next : I -> exec (option A * I)) it xs : yields next it xs ->
  forall i, yields (enumerate_next next) (it, i) (zip (seqZ i (Z.of_nat (length xs))) xs).
Proof.
  induction 1 as [it it' E|it it' a xs E _ IH]; intros i.
  - apply yields_nil with (it', i). unfold enumerate_next. cbn. by rewrite E.
  - cbn [length]. rewrite seqZ_cons by lia. cbn [zip zip_with]. apply yields_cons with (it', i + 1).
    + unfold enumerate_next. cbn. by rewrite E.
    + replace (Z.pred (Z.of_nat (Datatypes.S (length xs)))) with (Z.of_nat (length xs)) by lia.
      replace (Z.succ i) with (i + 1) by lia. apply IH.
Qed.

#[export] Hint Resolve wrap_range land_range lor_range : rust.
