(* ===== verification/BitUtils.v ===== *)
(** * crates/bit-utils: the [bit_flags!], [bit_field!] and [bit_range!] macros

    A flags type is the raw [w]-bit integer it wraps; the macro's associated
    constants and operator implementations are functions of the width and of
    the flag's bit number. [bit_range!] is modelled with the shifts it really
    performs (shift amounts are masked to the width, as in a release build),
    and proved equal to the division/remainder reading of a bit slice. *)

From Stdlib Require Import Lia Btauto.
From stdpp Require Import base numbers list option strings tactics.
From S2P Require Import Prelude.

Local Open Scope Z_scope.

(** ** [bit_flags!] *)

(** [pub const $flag_ident: Self = Self(1 << $flag_bit)]. *)
Definition flag (w bit : Z) : Z := wshl w 1 bit.

Definition flags_NONE : Z := 0.

(** [Self(0 $(| 1 << $flag_bit)* )]. *)
Definition flags_ALL (w : Z) (bits : list Z) : Z :=
  fold_left (fun acc b => Z.lor acc (wshl w 1 b)) bits 0.

Definition flags_bits (self : Z) : Z := self.

Definition flags_get (self other : Z) : bool := Z.land self other =? other.

Definition flags_not (w self : Z) : Z := wnot w self.
Definition flags_bitor (self rhs : Z) : Z := Z.lor self rhs.
Definition flags_bitand (self rhs : Z) : Z := Z.land self rhs.
Definition flags_bitxor (self rhs : Z) : Z := Z.lxor self rhs.

(** The body of the generated [Debug::fmt]: the text written for the flags
    declared, in order, as [(name, bit)]. *)
Fixpoint flags_fmt_loop (w self : Z) (first : bool) (decls : list (string * Z)) : string :=
  match decls with
  | [] => ""
  | (name, bit) :: rest =>
      if negb (flags_bitand self (flag w bit) =? flags_NONE) then
        (if first then name else " | " +:+ name) +:+ flags_fmt_loop w self false rest
      else flags_fmt_loop w self first rest
  end.

Definition flags_fmt (w self : Z) (decls : list (string * Z)) : string :=
  if self =? flags_NONE then "NONE" else flags_fmt_loop w self true decls.

(** ** [bit_range!] and [bit_field!] *)

(** [bit_range!(@_done num ; width ; start ; end)]. *)
Definition bit_range_done (w num start end_ : Z) : Z :=
  if start =? end_ then Z.land num (wshl w 1 start)
  else
    let bits := wshr w (wshl w num (saturating_sub w end_)) (saturating_sub w end_) in
    wshr w bits start.

(** [bit_range!(num[start?..end?] as ty?)]; [ty] is the bit width of the
    target type. *)
Definition bit_range (w num : Z) (start end_ ty : option Z) : Z :=
  let s := default 0 start in
  bit_range_done w num s (default (s + default w ty) end_).

(** [bit_range!(num[index])]. *)
Definition bit_test (w num index : Z) : bool := negb (Z.land num (wshl w 1 index) =? 0).

(** The accessor generated for a ranged field of type [u<fw>]. *)
Definition bit_field_range (w fw num start end_ : Z) : Z :=
  wrap fw (bit_range w num (Some start) (Some end_) None).

(** ** Lemmas *)

Lemma flag_pow2 w b : 0 <= b < w -> flag w b = 2 ^ b.
Proof. apply wshl_1. Qed.

Lemma bit_test_spec w num i : 0 <= i < w -> bit_test w num i = Z.testbit num i.
Proof.
  intros. unfold bit_test. rewrite wshl_1, land_pow2_eq0 by lia. apply negb_involutive.
Qed.

Lemma flags_get_flag w self b : 0 <= b < w -> flags_get self (flag w b) = Z.testbit self b.
Proof.
  intros. rewrite flag_pow2 by done. unfold flags_get. apply eq_true_iff_eq.
  rewrite Z.eqb_eq. split.
  - intros H1. assert (Z.testbit (Z.land self (2 ^ b)) b = true) as H2.
    { by rewrite H1, testbit_pow2, Z.eqb_refl by lia. }
    rewrite Z.land_spec in H2. by apply andb_prop in H2 as [??].
  - intros Ht. apply Z.bits_inj'. intros i Hi. rewrite Z.land_spec, testbit_pow2 by lia.
    destruct (i =? b) eqn:E; bool_hyps; subst; [by rewrite Ht|btauto].
Qed.

Lemma bit_range_done_bits w num start end_ i :
  0 < w -> uint_range w num -> 0 <= start < end_ -> end_ <= w -> 0 <= i ->
  Z.testbit (bit_range_done w num start end_) i = (i <? end_ - start) && Z.testbit num (i + start).
Proof.
  intros Hw Hn Hs He Hi. unfold bit_range_done, saturating_sub.
  replace (start =? end_) with false by (symmetry; apply Z.eqb_neq; lia).
  replace (Z.max 0 (w - end_)) with (w - end_) by lia.
  unfold wshr. rewrite (Z.mod_small start), (Z.mod_small (w - end_)) by lia.
  rewrite !Z.shiftr_spec by lia. rewrite testbit_wshl by lia.
  replace (i + start + (w - end_) - (w - end_)) with (i + start) by lia.
  destruct (i <? end_ - start) eqn:E; bool_hyps.
  - rewrite (proj2 (Z.ltb_lt _ _)), (proj2 (Z.leb_le _ _)) by lia. done.
  - rewrite (proj2 (Z.ltb_ge _ _)) by lia. done.
Qed.

(** [bit_range!] on a proper range reads the bit slice as a number. *)
Lemma bit_range_done_spec w num start end_ :
  0 < w -> uint_range w num -> 0 <= start < end_ -> end_ <= w ->
  bit_range_done w num start end_ = (num / 2 ^ start) mod 2 ^ (end_ - start).
Proof.
  intros. apply Z.bits_inj'. intros i Hi. rewrite bit_range_done_bits by done.
  fold (wrap (end_ - start) (num / 2 ^ start)).
  by rewrite testbit_wrap, <-Z.shiftr_div_pow2, Z.shiftr_spec by lia.
Qed.

Lemma flags_ALL_bits w bits : forall acc i, 0 <= i -> Forall (fun b => 0 <= b < w) bits ->
  Z.testbit (fold_left (fun acc b => Z.lor acc (wshl w 1 b)) bits acc) i
  = Z.testbit acc i || existsb (Z.eqb i) bits.
Proof.
  induction bits as [|b bits IH]; intros acc i Hi Hb; cbn; [btauto|].
  inversion_clear Hb. rewrite IH, Z.lor_spec, wshl_1, testbit_pow2 by (done || lia). btauto.
Qed.

(** The text of a set of flags. *)
Example flags_fmt_names :
  flags_ALL 8 [0; 2; 7] = 133 /\ flags_fmt 8 133 [("A", 0); ("B", 2); ("C", 7)] = "A | B | C"%string.
Proof. split; reflexivity. Qed.

#[export] Hint Rewrite bit_test_spec flags_get_flag using lia : rust_bits.

(** ** Properties *)

(** [bit_range!(num[start..end])] on a [w]-bit number with
    [start < end <= w] is exactly bits [start..end] of [num] read as a number,
    so it is smaller than [2^(end-start)] and no masking by the caller is
    needed. *)
Theorem bit_range_slice (w num start end_ : Z) :
  0 < w -> uint_range w num -> 0 <= start < end_ -> end_ <= w ->
  bit_range w num (Some start) (Some end_) None = (num / 2 ^ start) mod 2 ^ (end_ - start).
Proof. intros. unfold bit_range; cbn. by apply bit_range_done_spec. Qed.

Lemma bit_range_slice_witness : bit_range 64 43 (Some 5) (Some 31) None = (43 / 2 ^ 5) mod 2 ^ (31 - 5).
Proof. apply bit_range_slice; unfold uint_range; lia. Defined.

(** [Flags::get(other)] holds exactly when every bit of [other] is set in
    [self]; the generated [ALL] contains exactly the declared bits. *)
Theorem flags_get_subset (w self other i : Z) (bits : list Z) :
  0 <= i < w -> Forall (fun b => 0 <= b < w) bits ->
  (flags_get self other = true <-> (forall j, 0 <= j -> Z.testbit other j = true -> Z.testbit self j = true)) /\
  flags_get (flags_ALL w bits) (flag w i) = existsb (Z.eqb i) bits.
Proof.
  intros Hi Hb. split.
  - unfold flags_get. rewrite Z.eqb_eq. split.
    + intros H j Hj Ho. rewrite <-H, Z.land_spec in Ho. by apply andb_prop in Ho as [??].
    + intros H. apply Z.bits_inj'. intros j Hj. rewrite Z.land_spec.
      destruct (Z.testbit other j) eqn:E; [by rewrite H|btauto].
  - rewrite flags_get_flag by done. unfold flags_ALL.
    rewrite flags_ALL_bits by (done || lia). by rewrite Z.bits_0.
Qed.

Lemma flags_get_subset_witness : flags_get (flags_ALL 8 [0; 2; 7]) (flag 8 2) = existsb (Z.eqb 2) [0; 2; 7].
Proof. apply (flags_get_subset 8 0 0 2 [0; 2; 7]); [lia|repeat constructor; lia]. Defined.
