(* ===== verification/Pod.v ===== *)
(** * crates/pod: plain old data read out of byte slices

    A slice is its address and its bytes; indexing and ranging panic out of
    bounds. A type that can be read from bytes is an instance of [Pod], which
    has its size, its alignment and the little-endian decoding of its
    [repr(C)] layout. [PodEncoding] adds the encoding that the decoding
    inverts, so that clients state round trips against the interface. *)

From Stdlib Require Import Lia.
From stdpp Require Import base numbers list option strings tactics.
From S2P Require Import Prelude.

Local Open Scope Z_scope.

(** ** Slices *)

Record Slice : Type := mkSlice { slice_addr : Z; slice_bytes : list Z }.

Definition slice_len (s : Slice) : Z := Z.of_nat (length (slice_bytes s)).

(** [&s[start..end]], [&s[start..]], [&s[..end]] and [s[i]]. *)
Definition slice_range (s : Slice) (start end_ : Z) : exec Slice :=
  _ ← rust_assert ((start <=? end_) && (end_ <=? slice_len s));
  Done (mkSlice (slice_addr s + start) (take (Z.to_nat (end_ - start)) (drop (Z.to_nat start) (slice_bytes s)))).
Definition slice_from (s : Slice) (start : Z) : exec Slice := slice_range s start (slice_len s).
Definition slice_to (s : Slice) (end_ : Z) : exec Slice := slice_range s 0 end_.
Definition slice_index (s : Slice) (i : Z) : exec Z := unwrap (slice_bytes s !! Z.to_nat i).

(** The bytes of a string literal. *)
Definition str (s : string) : list Z :=
  (fun a => Z.of_nat (Ascii.nat_of_ascii a)) <$> String.list_ascii_of_string s.

(** Bytes as a string. *)
Definition string_of_bytes (l : list Z) : string :=
  String.string_of_list_ascii ((fun b => Ascii.ascii_of_nat (Z.to_nat b)) <$> l).

Definition is_bytes : list Z -> Prop := Forall (uint_range 8).

(** ** Little-endian integers *)

Fixpoint le_combine (bs : list Z) : Z :=
  match bs with
  | [] => 0
  | b :: bs => b + 256 * le_combine bs
  end.

(** [to_ne_bytes] on x86-64, for an integer of [n] bytes. *)
Fixpoint le_split (n : nat) (x : Z) : list Z :=
  match n with
  | O => []
  | S n => x mod 256 :: le_split n (x / 256)
  end.

(** The integer of [n] bytes at an offset of a structure. *)
Definition field (n off : nat) (bs : list Z) : Z := le_combine (take n (drop off bs)).

(** ** [Pod] *)

Class Pod (T : Type) : Type := {
  size_of : Z;
  align_of : Z;
  from_bytes : list Z -> T
}.
Arguments size_of T {_}.
Arguments align_of T {_}.

Definition Pod_u32 : Pod Z := {| size_of := 4; align_of := 4; from_bytes := field 4 0 |}.
Definition Pod_u64 : Pod Z := {| size_of := 8; align_of := 8; from_bytes := field 8 0 |}.

(** [pod::read]: the reference it returns, as the value it points to. *)
Definition pod_read (T : Type) `{Pod T} (bytes : Slice) : exec T :=
  _ ← rust_assert (size_of T <=? slice_len bytes);
  _ ← rust_assert (Z.land (slice_addr bytes) (align_of T - 1) =? 0);
  Done (from_bytes (take (Z.to_nat (size_of T)) (slice_bytes bytes))).

(** The position of the first zero byte. *)
Fixpoint null_index (bs : list Z) : option nat :=
  match bs with
  | [] => None
  | b :: bs => if b =? 0 then Some O else S <$> null_index bs
  end.

Definition read_until_null (input : Slice) : exec Slice :=
  match null_index (slice_bytes input) with
  | Some i => slice_to input (Z.of_nat i)
  | None => Panic
  end.

Definition read_str_bytes (input : Slice) : exec Slice :=
  match null_index (slice_bytes input) with
  | Some i => slice_to input (Z.of_nat i)
  | None => Panic
  end.

(** [core::str::from_utf8(..).is_ok()]: well-formed sequences of one to four
    bytes, without overlong forms, surrogates or values past U+10FFFF. *)
Definition in_range (lo hi b : Z) : bool := (lo <=? b) && (b <=? hi).

Fixpoint utf8_valid (bs : list Z) : bool :=
  match bs with
  | [] => true
  | b0 :: r0 =>
      if b0 <? 0x80 then utf8_valid r0
      else match r0 with
      | [] => false
      | b1 :: r1 =>
          if in_range 0xC2 0xDF b0 then in_range 0x80 0xBF b1 && utf8_valid r1
          else match r1 with
          | [] => false
          | b2 :: r2 =>
              if in_range 0xE0 0xEF b0 then
                in_range (if b0 =? 0xE0 then 0xA0 else 0x80) (if b0 =? 0xED then 0x9F else 0xBF) b1
                && in_range 0x80 0xBF b2 && utf8_valid r2
              else match r2 with
              | [] => false
              | b3 :: r3 =>
                  if in_range 0xF0 0xF4 b0 then
                    in_range (if b0 =? 0xF0 then 0x90 else 0x80) (if b0 =? 0xF4 then 0x8F else 0xBF) b1
                    && in_range 0x80 0xBF b2 && in_range 0x80 0xBF b3 && utf8_valid r3
                  else false
              end
          end
      end
  end.

(** A [str] is its bytes. *)
Definition read_str (input : Slice) : exec (list Z) :=
  s ← read_str_bytes input;
  _ ← rust_assert (utf8_valid (slice_bytes s));
  Done (slice_bytes s).

Definition read_array_unsafe (T : Type) `{Pod T} (input : Slice) : list T :=
  (fun i => from_bytes (take (Z.to_nat (size_of T)) (drop (i * Z.to_nat (size_of T)) (slice_bytes input))))
  <$> seq 0 (Z.to_nat (slice_len input / size_of T)).

Definition read_array (T : Type) `{Pod T} (input : Slice) : exec (list T) :=
  _ ← rust_assert (0 <? size_of T);
  _ ← rust_assert (slice_len input mod size_of T =? 0);
  _ ← rust_assert (Z.land (slice_addr input) (align_of T - 1) =? 0);
  Done (read_array_unsafe T input).

(** ** The encoding that decoding inverts *)

Class PodEncoding (T : Type) `{Pod T} : Type := {
  to_bytes : T -> list Z;
  pod_wf : T -> Prop;
  size_of_pos : 0 < size_of T;
  align_of_pow2 : exists n, 0 <= n /\ align_of T = 2 ^ n;
  to_bytes_length x : pod_wf x -> Z.of_nat (length (to_bytes x)) = size_of T;
  to_bytes_bytes x : pod_wf x -> is_bytes (to_bytes x);
  from_to_bytes x : pod_wf x -> from_bytes (to_bytes x) = x;
  from_bytes_wf bs : is_bytes bs -> Z.of_nat (length bs) = size_of T -> pod_wf (from_bytes bs)
}.

(** ** Lemmas *)

Lemma le_split_length n : forall x, length (le_split n x) = n.
Proof. induction n as [|n IH]; intros x; cbn; [done|by rewrite IH]. Qed.

Lemma le_split_bytes n : forall x, is_bytes (le_split n x).
Proof.
  induction n as [|n IH]; intros x; cbn; constructor; [|by apply IH].
  unfold uint_range. apply Z.mod_pos_bound. lia.
Qed.

Lemma le_combine_split n : forall x, uint_range (8 * Z.of_nat n) x -> le_combine (le_split n x) = x.
Proof.
  induction n as [|n IH]; intros x Hx; cbn [le_split le_combine]; unfold uint_range in *.
  { change (2 ^ (8 * Z.of_nat 0)) with 1 in Hx. lia. }
  replace (8 * Z.of_nat (S n)) with (8 * Z.of_nat n + 8) in Hx by lia.
  rewrite Z.pow_add_r in Hx by lia. change (2 ^ 8) with 256 in Hx.
  rewrite IH.
  - pose proof (Z.div_mod x 256). lia.
  - split; [apply Z.div_pos; lia|apply Z.div_lt_upper_bound; lia].
Qed.

Lemma le_combine_range bs : is_bytes bs -> uint_range (8 * Z.of_nat (length bs)) (le_combine bs).
Proof.
  unfold uint_range. induction 1 as [|b bs Hb _ IH]; cbn [length le_combine]; [by cbn|].
  replace (8 * Z.of_nat (S (length bs))) with (8 * Z.of_nat (length bs) + 8) by lia.
  unfold uint_range in Hb. rewrite Z.pow_add_r by lia. change (2 ^ 8) with 256 in *. lia.
Qed.

Lemma le_split_combine bs : is_bytes bs -> le_split (length bs) (le_combine bs) = bs.
Proof.
  unfold uint_range. induction 1 as [|b bs Hb _ IH]; cbn [length le_split le_combine]; [done|].
  unfold uint_range in Hb. change (2 ^ 8) with 256 in *. f_equal.
  - rewrite (Z.mul_comm 256), Z.mod_add, Z.mod_small; lia.
  - rewrite (Z.mul_comm 256), Z.div_add, Z.div_small, Z.add_0_l; [done|lia|lia].
Qed.

Lemma field_range n off bs : is_bytes bs -> uint_range (8 * Z.of_nat n) (field n off bs).
Proof.
  intros H. unfold field. apply uint_range_le with (8 * Z.of_nat (length (take n (drop off bs)))).
  - rewrite length_take. lia.
  - apply le_combine_range, Forall_take, Forall_drop, H.
Qed.

(** Reading a field of a concatenation of fields. *)
Lemma field_skip n off a b : (length a <= off)%nat -> field n off (a ++ b) = field n (off - length a) b.
Proof. intros H. unfold field. by rewrite drop_app_ge. Qed.

Lemma field_here n x b : uint_range (8 * Z.of_nat n) x -> field n 0 (le_split n x ++ b) = x.
Proof.
  intros H. unfold field. rewrite drop_0, take_app_le by (rewrite le_split_length; lia).
  rewrite take_ge by (rewrite le_split_length; lia). by apply le_combine_split.
Qed.

Lemma field_last n x : uint_range (8 * Z.of_nat n) x -> field n 0 (le_split n x) = x.
Proof. intros H. rewrite <-(app_nil_r (le_split n x)). by apply field_here. Qed.

(** Field selection out of an encoded structure. *)
Ltac pod_field :=
  repeat (rewrite field_skip by (rewrite ?le_split_length; cbn; lia));
  rewrite ?le_split_length; cbn [Nat.sub];
  first [apply field_here | apply field_last]; first [assumption | done].

(** Turns a goal about a structure's encoding into its fields. *)
Ltac pod_wf_fields :=
  repeat match goal with
  | H : _ /\ _ |- _ => destruct H
  end.

Lemma slice_range_ok s a b : 0 <= a <= b -> b <= slice_len s ->
  slice_range s a b = Done (mkSlice (slice_addr s + a) (take (Z.to_nat (b - a)) (drop (Z.to_nat a) (slice_bytes s)))).
Proof.
  intros. unfold slice_range. rewrite (proj2 (Z.leb_le a b)), (proj2 (Z.leb_le b _)) by lia. done.
Qed.

Lemma slice_range_len s a b s' : 0 <= a -> slice_range s a b = Done s' -> slice_len s' = b - a /\ slice_addr s' = slice_addr s + a.
Proof.
  intros Ha. unfold slice_range, rust_assert. case_if; [|done]. cbn. intros [= <-]. unfold slice_len in *. cbn.
  rewrite length_take, length_drop. lia.
Qed.

Lemma align_check addr n : 0 <= n -> (Z.land addr (2 ^ n - 1) =? 0) = (addr mod 2 ^ n =? 0).
Proof. intros. by rewrite land_ones_mod. Qed.

Section encoding.
Context {T : Type} `{PodEncoding T}.

Lemma pod_read_ok s : size_of T <= slice_len s -> slice_addr s mod align_of T = 0 ->
  pod_read T s = Done (from_bytes (take (Z.to_nat (size_of T)) (slice_bytes s))).
Proof.
  intros Hlen Hal. unfold pod_read. rewrite (proj2 (Z.leb_le _ _)) by done. cbn [rust_assert mbind exec_bind].
  destruct align_of_pow2 as (n & Hn & En). rewrite En, align_check, <-En, Hal by done. done.
Qed.

Lemma pod_read_encoded addr x rest : pod_wf x -> addr mod align_of T = 0 ->
  pod_read T (mkSlice addr (to_bytes x ++ rest)) = Done x.
Proof.
  intros Hx Hal. pose proof (to_bytes_length x Hx) as Hl.
  rewrite pod_read_ok; cbn [slice_addr slice_bytes]; [|unfold slice_len; cbn; rewrite length_app; lia|done].
  rewrite <-Hl, Nat2Z.id, take_app_length. by rewrite from_to_bytes.
Qed.

Definition encode_array (xs : list T) : list Z := concat (to_bytes <$> xs).

Lemma encode_array_length xs : Forall pod_wf xs -> Z.of_nat (length (encode_array xs)) = size_of T * Z.of_nat (length xs).
Proof.
  unfold encode_array. induction 1 as [|x xs Hx _ IH]; cbn [fmap list_fmap concat length]; [lia|].
  rewrite length_app, Nat2Z.inj_add, IH, to_bytes_length by done. lia.
Qed.

Lemma encode_array_bytes xs : Forall pod_wf xs -> is_bytes (encode_array xs).
Proof.
  unfold encode_array, is_bytes. induction 1 as [|x xs Hx _ IH]; cbn; [constructor|].
  apply Forall_app. split; [by apply to_bytes_bytes|done].
Qed.

(** The [i]-th element of an encoded array. *)
Lemma encode_array_lookup xs i x rest : Forall pod_wf xs -> xs !! i = Some x ->
  from_bytes (take (Z.to_nat (size_of T)) (drop (i * Z.to_nat (size_of T)) (encode_array xs ++ rest))) = x.
Proof.
  intros Hxs. revert i. induction Hxs as [|y xs Hy _ IH]; intros i Hi; [done|].
  pose proof (to_bytes_length y Hy) as Hl. unfold encode_array in *. cbn [fmap list_fmap concat].
  rewrite <-app_assoc. destruct i as [|i]; cbn in Hi.
  - simplify_eq. rewrite drop_0, <-Hl, Nat2Z.id, take_app_length. by apply from_to_bytes.
  - rewrite drop_app_ge by lia.
    replace (S i * Z.to_nat (size_of T) - length (to_bytes y))%nat with (i * Z.to_nat (size_of T))%nat by lia.
    by apply IH.
Qed.

Lemma read_array_encoded addr xs : Forall pod_wf xs -> addr mod align_of T = 0 ->
  read_array T (mkSlice addr (encode_array xs)) = Done xs.
Proof.
  intros Hxs Hal. pose proof (encode_array_length xs Hxs) as Hl. pose proof size_of_pos as Hpos.
  unfold read_array. rewrite (proj2 (Z.ltb_lt _ _)) by done. unfold slice_len. cbn [rust_assert mbind exec_bind slice_bytes slice_addr].
  rewrite Hl, (Z.mul_comm (size_of T)), Z.mod_mul by lia. cbn [rust_assert mbind exec_bind Z.eqb].
  destruct align_of_pow2 as (n & Hn & En). rewrite En, align_check, <-En, Hal by done. cbn [rust_assert mbind exec_bind Z.eqb].
  f_equal. unfold read_array_unsafe, slice_len. cbn [slice_bytes]. rewrite Hl, (Z.mul_comm (size_of T)), Z.div_mul, Nat2Z.id by lia.
  apply list_eq. intros i. rewrite list_lookup_fmap. destruct (decide (i < length xs)%nat) as [Hi|Hi].
  - destruct (lookup_lt_is_Some_2 xs i Hi) as [x Ex]. rewrite lookup_seq_lt, Ex by done. cbn. f_equal.
    rewrite <-(app_nil_r (encode_array xs)). by apply encode_array_lookup.
  - rewrite lookup_seq_ge, lookup_ge_None_2 by lia. done.
Qed.

(** Whatever is read has the widths of its fields. *)
Lemma pod_read_wf s x : is_bytes (slice_bytes s) -> pod_read T s = Done x -> pod_wf x.
Proof.
  intros Hb Hr. unfold pod_read in Hr. exec_inv Hr. exec_inv Hr. injection Hr as <-.
  apply from_bytes_wf; [by apply Forall_take|]. unfold rust_assert in E. case_if_in E; [|done].
  pose proof size_of_pos. unfold slice_len in *. rewrite length_take. lia.
Qed.

Lemma read_array_wf s xs : is_bytes (slice_bytes s) -> read_array T s = Done xs -> Forall pod_wf xs.
Proof.
  intros Hb Hr. unfold read_array in Hr. exec_inv Hr. exec_inv Hr. exec_inv Hr. injection Hr as <-.
  pose proof size_of_pos as Hp. unfold read_array_unsafe. apply Forall_fmap, Forall_forall. intros i Hi.
  apply in_seq in Hi. cbn. apply from_bytes_wf; [by apply Forall_take, Forall_drop|].
  rewrite length_take, length_drop. pose proof (Z.div_mod (slice_len s) (size_of T)).
  pose proof (Z.mod_pos_bound (slice_len s) (size_of T)). unfold slice_len in *.
  pose proof (Nat2Z.inj_mul i (Z.to_nat (size_of T))). nia.
Qed.
End encoding.

Lemma slice_range_bytes s a b s' : is_bytes (slice_bytes s) -> slice_range s a b = Done s' -> is_bytes (slice_bytes s').
Proof.
  unfold slice_range, rust_assert. intros Hb. case_if; [|done]. cbn. intros [= <-]. cbn. by apply Forall_take, Forall_drop.
Qed.

Lemma null_index_app s rest : Forall (fun b => b <> 0) s -> null_index (s ++ 0 :: rest) = Some (length s).
Proof.
  induction 1 as [|b s Hb _ IH]; cbn; [done|]. rewrite (proj2 (Z.eqb_neq _ _)) by done. by rewrite IH.
Qed.

(** A string followed by its terminator is read back. *)
Lemma read_until_null_str addr s rest : Forall (fun b => b <> 0) s ->
  read_until_null (mkSlice addr (s ++ 0 :: rest)) = Done (mkSlice addr s).
Proof.
  intros Hs. unfold read_until_null. cbn [slice_bytes]. rewrite null_index_app by done. unfold slice_to.
  rewrite slice_range_ok; cbn [slice_bytes slice_addr]; [|lia|unfold slice_len; cbn; rewrite length_app; lia].
  rewrite Z.add_0_r, Z.sub_0_r, Nat2Z.id, drop_0, take_app_length. done.
Qed.

Lemma string_of_str s : string_of_bytes (str s) = s.
Proof.
  unfold string_of_bytes, str. rewrite <-list_fmap_compose. rewrite <-(String.string_of_list_ascii_of_string s) at 2. f_equal.
  rewrite <-(list_fmap_id (String.list_ascii_of_string s)) at 2. apply list_fmap_ext. intros _ a _. cbn.
  by rewrite Nat2Z.id, Ascii.ascii_nat_embedding.
Qed.

Lemma utf8_valid_ascii bs : Forall (uint_range 7) bs -> utf8_valid bs = true.
Proof.
  induction 1 as [|b bs Hb _ IH]; cbn; [done|]. unfold uint_range in Hb.
  rewrite (proj2 (Z.ltb_lt _ _)) by lia. done.
Qed.

(** ** Automation for the encodings of structures *)

Ltac encoding_length := intros ? ?; rewrite ?length_app, ?le_split_length; reflexivity.
Ltac encoding_bytes := intros ? ?; repeat (apply Forall_app; split); apply le_split_bytes.
Ltac encoding_from := intros [] ?; cbn -[le_split field uint_range] in *; pod_wf_fields; f_equal; pod_field.
Ltac encoding_wf_fields :=
  repeat match goal with
  | |- _ /\ _ => split
  | H : is_bytes ?bs |- uint_range _ (field ?n ?off ?bs) => exact (field_range n off bs H)
  end.
Ltac encoding_wf := intros ? ? ?; cbn -[field uint_range]; encoding_wf_fields.

(** A structure of which only the [n] bytes matter, such as a union. *)
Definition Pod_raw (n align : Z) : Pod (list Z) := {| size_of := n; align_of := align; from_bytes bs := bs |}.

Definition Encoding_raw (n align : Z) : 0 < n -> (exists k, 0 <= k /\ align = 2 ^ k) -> @PodEncoding (list Z) (Pod_raw n align).
Proof.
  intros Hn Ha.
  refine (@Build_PodEncoding (list Z) (Pod_raw n align) (fun bs => bs) (fun bs => is_bytes bs /\ Z.of_nat (length bs) = n) Hn Ha _ _ _ _).
  - by intros bs [_ ?].
  - by intros bs [? _].
  - done.
  - by intros bs ? ?.
Defined.
