(* ===== verification/Bytes.v ===== *)
(** * Memory as bytes

    The bytes of a memory by address: those written so far over what was there
    before. The loader's kernel mappings and the buffers of the virtqueues are
    such memories. *)

From Stdlib Require Import Lia.
From stdpp Require Import base numbers option tactics gmap fin_maps list.
From S2P Require Import Prelude Pod.

Local Open Scope Z_scope.

Record Memory_bytes : Type := mkBytes { written : gmap Z Z; initial : Z -> Z }.

Definition read_byte (c : Memory_bytes) (a : Z) : Z := default (initial c a) (written c !! a).

Fixpoint write_bytes (m : gmap Z Z) (a : Z) (bs : list Z) : gmap Z Z :=
  match bs with
  | [] => m
  | b :: bs => write_bytes (<[a := b]> m) (a + 1) bs
  end.

Definition write_memory (c : Memory_bytes) (a : Z) (bs : list Z) : Memory_bytes :=
  mkBytes (write_bytes (written c) a bs) (initial c).

(** [n] bytes from an address. *)
Definition read_memory (c : Memory_bytes) (a : Z) (n : Z) : list Z := read_byte c <$> seqZ a n.

(** The 64-bit word at an address. *)
Definition read_word (c : Memory_bytes) (a : Z) : Z := le_combine (read_memory c a 8).

(** ** Reading after writing *)

Lemma write_bytes_lookup bs : forall m a x,
  write_bytes m a bs !! x = if (a <=? x) && (x <? a + Z.of_nat (length bs)) then bs !! Z.to_nat (x - a) else m !! x.
Proof.
  induction bs as [|b bs IH]; intros m a x; cbn [write_bytes length].
  - case_if; [lia|done].
  - rewrite IH. destruct (decide (x = a)) as [->|Hne].
    + rewrite (proj2 (Z.leb_gt (a + 1) a)), (proj2 (Z.leb_le a a)), (proj2 (Z.ltb_lt a (a + Z.of_nat (S (length bs))))), Z.sub_diag by lia.
      cbn [andb]. by rewrite lookup_insert_eq.
    + rewrite lookup_insert_ne by done. destruct (a <=? x) eqn:E1; bool_hyps.
      * rewrite (proj2 (Z.leb_le (a + 1) x)) by lia. replace (a + 1 + Z.of_nat (length bs)) with (a + Z.of_nat (S (length bs))) by lia.
        destruct (x <? _); [|done]. cbn [andb]. replace (Z.to_nat (x - a)) with (S (Z.to_nat (x - (a + 1)))) by lia. done.
      * rewrite (proj2 (Z.leb_gt (a + 1) x)) by lia. done.
Qed.

Lemma read_write_other c a bs x : (x < a \/ a + Z.of_nat (length bs) <= x) ->
  read_byte (write_memory c a bs) x = read_byte c x.
Proof.
  intros Hx. unfold read_byte. cbn [write_memory written initial]. rewrite write_bytes_lookup. case_if; [lia|done].
Qed.

Lemma read_memory_ext c c' a n : (forall x, a <= x < a + n -> read_byte c' x = read_byte c x) ->
  read_memory c' a n = read_memory c a n.
Proof.
  intros H. apply list_fmap_ext. intros i x Hx%lookup_seqZ. apply H. lia.
Qed.

Lemma read_memory_disjoint c a n b bs : (a + n <= b \/ b + Z.of_nat (length bs) <= a) ->
  read_memory (write_memory c b bs) a n = read_memory c a n.
Proof. intros H. apply read_memory_ext. intros x Hx. apply read_write_other. lia. Qed.

Lemma read_write_memory c a bs : read_memory (write_memory c a bs) a (Z.of_nat (length bs)) = bs.
Proof.
  apply list_eq. intros i. unfold read_memory. rewrite list_lookup_fmap. destruct (decide (i < length bs)%nat) as [Hi|Hi].
  - rewrite lookup_seqZ_lt by lia. cbn [fmap option_fmap option_map]. unfold read_byte. cbn [write_memory written initial].
    rewrite write_bytes_lookup, (proj2 (Z.leb_le a _)), (proj2 (Z.ltb_lt _ (a + Z.of_nat (length bs)))) by lia.
    cbn [andb]. replace (Z.to_nat (a + Z.of_nat i - a)) with i by lia.
    destruct (lookup_lt_is_Some_2 bs i Hi) as [b Eb]. by rewrite Eb.
  - rewrite lookup_seqZ_ge, lookup_ge_None_2 by lia. done.
Qed.

Lemma read_write_word c a v : uint_range 64 v -> read_word (write_memory c a (le_split 8 v)) a = v.
Proof.
  intros Hv. unfold read_word. pose proof (read_write_memory c a (le_split 8 v)) as E. rewrite le_split_length in E.
  change (Z.of_nat 8) with 8 in E. rewrite E. by apply le_combine_split.
Qed.
