(* ===== verification/PortIo.v ===== *)
(** * Port I/O

    The instructions of crates drivers/x86-port (x86_port.rs) and the
    time-stamp counter, for the drivers of the clocks, the serial ports and
    the ATA controller. A driver is a function of the history of port accesses
    to a new history and an outcome; what a read returns is decided by the
    hardware, any function of what happened before it ([Hardware]). So a
    theorem holds for every device, and states what a driver promises by the
    accesses it makes ([emits]). A loop that waits for the hardware spins a
    bounded number of times; when that is not enough the outcome is [Waiting],
    with the accesses made so far. *)

From Stdlib Require Import Lia.
From stdpp Require Import base numbers option tactics list.
From S2P Require Import Prelude.

Local Open Scope Z_scope.

(** ** Accesses *)

Inductive Query : Type := Q8 (port : Z) | Q16 (port : Z) | Q32 (port : Z) | Qtsc.

Inductive Event : Type :=
  | In (q : Query) (v : Z)
  | Out8 (port v : Z)
  | Out16 (port v : Z)
  | Out32 (port v : Z).

#[export] Instance Query_eq_dec : EqDecision Query.
Proof. solve_decision. Defined.
#[export] Instance Event_eq_dec : EqDecision Event.
Proof. solve_decision. Defined.

(** What the machine answers to a read after some history. *)
Class Hardware : Type := answer : list Event -> Query -> Z.

Definition query_width (q : Query) : Z :=
  match q with Q8 _ => 8 | Q16 _ => 16 | Q32 _ => 32 | Qtsc => 64 end.

(** ** Drivers *)

Inductive outcome (A : Type) : Type := Value (a : A) | Panics | Waiting.
Arguments Value {A} a.
Arguments Panics {A}.
Arguments Waiting {A}.

Definition Io (A : Type) : Type := list Event -> list Event * outcome A.

#[export] Instance Io_ret : MRet Io := fun A a h => (h, Value a).
#[export] Instance Io_bind : MBind Io := fun A B f m h =>
  match m h with
  | (h, Value a) => f a h
  | (h, Panics) => (h, Panics)
  | (h, Waiting) => (h, Waiting)
  end.

Definition io_panic {A} : Io A := fun h => (h, Panics).
Definition io_wait {A} : Io A := fun h => (h, Waiting).

(** A computation that may panic but makes no access. *)
Definition io_exec {A} (m : exec A) : Io A := match m with Done a => mret a | Panic => io_panic end.

(** [m?] in a function that returns a [Result]. *)
Definition io_try {A B E} (m : Io (result A E)) (k : A -> Io (result B E)) : Io (result B E) :=
  r ← m;
  match r with Ok a => k a | Err e => mret (Err e) end.

Section hardware.
Context `{Hardware}.

Definition port_read (q : Query) : Io Z := fun h =>
  let v := wrap (query_width q) (answer h q) in (h ++ [In q v], Value v).

Definition read_u8 (port : Z) : Io Z := port_read (Q8 port).
Definition read_u16 (port : Z) : Io Z := port_read (Q16 port).
Definition read_u32 (port : Z) : Io Z := port_read (Q32 port).

(** [core::arch::x86_64::_rdtsc]. *)
Definition rdtsc : Io Z := port_read Qtsc.
End hardware.

Definition write_u8 (port value : Z) : Io unit := fun h => (h ++ [Out8 port value], Value tt).
Definition write_u16 (port value : Z) : Io unit := fun h => (h ++ [Out16 port value], Value tt).
Definition write_u32 (port value : Z) : Io unit := fun h => (h ++ [Out32 port value], Value tt).

(** [while !test() {}]: spins until [test] holds. *)
Fixpoint spin_until (fuel : nat) (test : Io bool) : Io unit :=
  match fuel with
  | O => io_wait
  | S fuel => b ← test; if b : bool then mret tt else spin_until fuel test
  end.

Fixpoint io_each {A} (xs : list A) (body : A -> Io unit) : Io unit :=
  match xs with
  | [] => mret tt
  | x :: xs => _ ← body x; io_each xs body
  end.

(** ** What a driver does *)

(** Whenever [m] returns [a], it has made accesses [es] with [P es a]. *)
Definition emits {A} (m : Io A) (P : list Event -> A -> Prop) : Prop :=
  forall h h' a, m h = (h', Value a) -> exists es, h' = h ++ es /\ P es a.

(** [m] returns from every history. *)
Definition returns {A} (m : Io A) : Prop := forall h, exists h' a, m h = (h', Value a).

Lemma emits_ret {A} (a : A) : emits (mret a) (fun es b => es = [] /\ b = a).
Proof. intros h h' b [= <- <-]. exists []. by rewrite app_nil_r. Qed.

Lemma emits_bind {A B} (m : Io A) (f : A -> Io B) P (Q : list Event -> B -> Prop) (R : A -> list Event -> B -> Prop) :
  emits m P -> (forall a, emits (f a) (R a)) -> (forall a b es1 es2, P es1 a -> R a es2 b -> Q (es1 ++ es2) b) -> emits (m ≫= f) Q.
Proof.
  intros Hm Hf HQ h h' b. unfold mbind, Io_bind. destruct (m h) as [h1 [a| |]] eqn:E; intros Hb; try discriminate.
  destruct (Hm _ _ _ E) as (es1 & -> & HP). destruct (Hf a _ _ _ Hb) as (es2 & -> & HR).
  exists (es1 ++ es2). rewrite app_assoc. eauto.
Qed.

Lemma emits_conseq {A} (m : Io A) (P Q : list Event -> A -> Prop) : emits m P -> (forall es a, P es a -> Q es a) -> emits m Q.
Proof. intros Hm HPQ h h' a E. destruct (Hm _ _ _ E) as (es & -> & HP). eauto. Qed.

Lemma emits_write port v : emits (write_u8 port v) (fun es _ => es = [Out8 port v]).
Proof. intros h h' a [= <- <-]. eauto. Qed.

Lemma emits_read `{Hardware} q : emits (port_read q) (fun es v => es = [In q v] /\ uint_range (query_width q) v).
Proof.
  intros h h' a [= <- <-]. eexists. split; [done|]. split; [done|].
  apply wrap_range. destruct q; cbn; lia.
Qed.

Lemma emits_panic {A} P : emits (A := A) io_panic P.
Proof. intros h h' a Hp. discriminate Hp. Qed.

Lemma emits_wait {A} P : emits (A := A) io_wait P.
Proof. intros h h' a Hp. discriminate Hp. Qed.

Lemma emits_try {A B E} (m : Io (result A E)) (f : A -> Io (result B E)) P (Q : list Event -> result B E -> Prop) (R : A -> list Event -> result B E -> Prop) :
  emits m P -> (forall a, emits (f a) (R a)) -> (forall e es, P es (Err e) -> Q es (Err e)) ->
  (forall a b es1 es2, P es1 (Ok a) -> R a es2 b -> Q (es1 ++ es2) b) -> emits (io_try m f) Q.
Proof.
  intros Hm Hf He HQ. apply emits_bind with P (fun r es b => match r with Ok a => R a es b | Err e => es = [] /\ b = Err e end).
  - exact Hm.
  - intros [a|e]; [apply Hf|apply emits_ret].
  - intros [a|e] b es1 es2 HP HR; [by eapply HQ|]. destruct HR as [-> ->]. rewrite app_nil_r. by apply He.
Qed.

(** The accesses of the rounds of a wait that go on, and of the one that
    ends it. *)
Inductive spun (go stop : list Event -> Prop) : list Event -> Prop :=
  | spun_stop es : stop es -> spun go stop es
  | spun_go es es' : go es -> spun go stop es' -> spun go stop (es ++ es').

Lemma emits_spin fuel test go stop : emits test (fun es (b : bool) => if b then stop es else go es) ->
  emits (spin_until fuel test) (fun es _ => spun go stop es).
Proof.
  intros Ht. induction fuel as [|fuel IH]; [apply emits_wait|]. cbn [spin_until].
  apply emits_bind with (fun es (b : bool) => if b then stop es else go es)
    (fun (b : bool) es (_ : unit) => if b then es = [] else spun go stop es).
  - exact Ht.
  - intros [|]; [|exact IH]. eapply emits_conseq; [apply emits_ret|]. by intros es a [-> _].
  - intros [|] b es1 es2; [intros Hs ->; rewrite app_nil_r; by constructor|]. intros Hg Hs. by constructor.
Qed.

Lemma emits_each {A} (xs : list A) body (P : A -> list Event -> Prop) : (forall x, emits (body x) (fun es _ => P x es)) ->
  emits (io_each xs body) (fun es _ => exists ess, es = concat ess /\ Forall2 P xs ess).
Proof.
  intros Hb. induction xs as [|x xs IH]; cbn [io_each].
  - eapply emits_conseq; [apply emits_ret|]. intros es a [-> _]. exists []. eauto.
  - eapply emits_bind; [apply Hb|intros a; exact IH|]. cbn. intros a b es1 es2 HP (ess & -> & HF). exists (es1 :: ess). eauto.
Qed.

(** A wait ends when the test succeeds after fewer than [fuel] rounds. *)
Fixpoint after {A} (n : nat) (m : Io A) (h : list Event) : list Event :=
  match n with O => h | S n => after n m (m h).1 end.

Lemma spin_returns fuel test n : forall h, (n < fuel)%nat -> (forall k, exists b, (test (after k test h)).2 = Value b) ->
  (test (after n test h)).2 = Value true -> exists h', spin_until fuel test h = (h', Value tt).
Proof.
  revert n. induction fuel as [|fuel IH]; intros n h Hn Hv Ht; [lia|]. cbn [spin_until]. unfold mbind, Io_bind.
  destruct (Hv O) as [b Eb]. cbn in Eb. destruct (test h) as [h1 o] eqn:E. cbn in Eb. subst o. destruct b; [eauto|].
  destruct n as [|n]; [cbn in Ht; rewrite E in Ht; discriminate|].
  apply (IH n); [lia| |].
  - intros k. specialize (Hv (S k)). cbn in Hv. by rewrite E in Hv.
  - cbn in Ht. by rewrite E in Ht.
Qed.

Lemma returns_bind {A B} (m : Io A) (f : A -> Io B) : returns m -> (forall a, returns (f a)) -> returns (m ≫= f).
Proof.
  intros Hm Hf h. destruct (Hm h) as (h1 & a & E). destruct (Hf a h1) as (h2 & b & E2). exists h2, b. unfold mbind, Io_bind. by rewrite E.
Qed.

(** One step of a driver. *)
Lemma io_step {A B} (m : Io A) (f : A -> Io B) h h' a : m h = (h', Value a) -> (m ≫= f) h = f a h'.
Proof. unfold mbind, Io_bind. by intros ->. Qed.

Lemma io_bind_inv {A B} (m : Io A) (f : A -> Io B) h h' b : (m ≫= f) h = (h', Value b) ->
  exists h1 a, m h = (h1, Value a) /\ f a h1 = (h', Value b).
Proof. unfold mbind, Io_bind. destruct (m h) as [h1 [a| |]]; intros E; try discriminate E. eauto. Qed.
