(* ===== verification/Log.v ===== *)
(** * crates/log: the global logger

    Models [log.rs]: the levels, and the installation of the logger.
    [set_logger] is three atomic steps on the words [STATE] and [LOGGER]; a
    call is a program counter, and calls of several threads interleave. The
    macros that format a message expand to a call of the installed logger,
    which is what [get_logger] returns. *)

From Stdlib Require Import Lia.
From stdpp Require Import base numbers option tactics strings gmap relations list.
From S2P Require Import Prelude Pod.

Local Open Scope Z_scope.

(** ** Levels *)

Inductive LogLevel : Type := LevelError | LevelWarn | LevelInfo | LevelDebug | LevelTrace.

#[export] Instance LogLevel_eq_dec : EqDecision LogLevel.
Proof. solve_decision. Defined.

Definition LogLevel_as_str (l : LogLevel) : string :=
  match l with
  | LevelError => "ERROR"
  | LevelWarn => "WARN"
  | LevelInfo => "INFO"
  | LevelDebug => "DEBUG"
  | LevelTrace => "TRACE"
  end.

(** ** Installing a logger *)

Definition UNINITIALIZED : Z := 0.
Definition INITIALIZING : Z := 1.
Definition INITIALIZED : Z := 2.

(** A logger is a reference; [DummyLogger] ignores its messages. *)
Inductive Logger : Type := DummyLogger | UserLogger (id : nat).

Record LogState : Type := mkLogState { STATE : Z; LOGGER : Logger }.

Definition log_init : LogState := mkLogState UNINITIALIZED DummyLogger.

Definition get_logger (s : LogState) : Logger := if negb (STATE s =? INITIALIZED) then DummyLogger else LOGGER s.

(** Where a call of [set_logger] is: before the exchange, behind it, behind
    the write of [LOGGER], in the waiting loop, or returned. *)
Inductive set_pc : Type :=
  | Calling (logger : Logger)
  | Exchanged (logger : Logger)
  | Written (logger : Logger)
  | Spinning
  | SetOk (logger : Logger)
  | SetErr.

(** One atomic step of a call. *)
Definition set_logger_step (s : LogState) (pc : set_pc) : option (LogState * set_pc) :=
  match pc with
  | Calling logger =>
      if STATE s =? UNINITIALIZED then Some (mkLogState INITIALIZING (LOGGER s), Exchanged logger)
      else if STATE s =? INITIALIZING then Some (s, Spinning)
      else Some (s, SetErr)
  | Exchanged logger => Some (mkLogState (STATE s) logger, Written logger)
  | Written logger => Some (mkLogState INITIALIZED (LOGGER s), SetOk logger)
  | Spinning => Some (s, if STATE s =? INITIALIZING then Spinning else SetErr)
  | SetOk _ | SetErr => None
  end.

(** A call that is not interrupted. *)
Fixpoint set_logger_run (fuel : nat) (s : LogState) (pc : set_pc) : LogState * set_pc :=
  match fuel, set_logger_step s pc with
  | S fuel, Some (s, pc) => set_logger_run fuel s pc
  | _, _ => (s, pc)
  end.

Definition set_logger (s : LogState) (logger : Logger) : LogState * set_pc := set_logger_run 3 s (Calling logger).

(** ** Threads *)

Record LogSystem : Type := mkLogSystem { log_words : LogState; log_calls : gmap nat set_pc }.

Inductive log_step : LogSystem -> LogSystem -> Prop :=
  | LogCall t logger s : log_calls s !! t = None -> log_step s (mkLogSystem (log_words s) (<[t := Calling logger]> (log_calls s)))
  | LogStep t pc s w pc' : log_calls s !! t = Some pc -> set_logger_step (log_words s) pc = Some (w, pc') ->
      log_step s (mkLogSystem w (<[t := pc']> (log_calls s))).

Definition log_start : LogSystem := mkLogSystem log_init ∅.

(** The call that claimed the word, and how far it got. *)
Definition claims (pc : set_pc) : bool := match pc with Exchanged _ | Written _ | SetOk _ => true | _ => false end.
Definition claimed_words (pc : set_pc) (w : LogState) : Prop :=
  match pc with
  | Exchanged _ => STATE w = INITIALIZING
  | Written l => STATE w = INITIALIZING /\ LOGGER w = l
  | SetOk l => STATE w = INITIALIZED /\ LOGGER w = l
  | _ => True
  end.

(** At most one call claims the word; while there is none it is free, and the
    words are what that call has made them. *)
Record log_inv (s : LogSystem) : Prop := {
  lg_free : (forall t pc, log_calls s !! t = Some pc -> claims pc = false) -> STATE (log_words s) = UNINITIALIZED;
  lg_claim : forall t pc, log_calls s !! t = Some pc -> claims pc = true -> claimed_words pc (log_words s);
  lg_one : forall t u pc pc', log_calls s !! t = Some pc -> log_calls s !! u = Some pc' -> claims pc = true -> claims pc' = true -> t = u
}.

Lemma log_inv_start : log_inv log_start.
Proof. split; cbn; [done|intros t pc Ht|intros t u pc pc' Ht]; by rewrite lookup_empty in Ht. Qed.

(** A word that is not free has a claimant. *)
Lemma log_claimed s : log_inv s -> STATE (log_words s) <> UNINITIALIZED ->
  exists t pc, log_calls s !! t = Some pc /\ claims pc = true.
Proof.
  intros [Hf _ _] Hs. destruct (decide (map_Exists (fun _ pc => claims pc = true) (log_calls s))) as [(t & pc & H)|Hn]; [eauto|].
  exfalso. apply Hs, Hf. intros t pc Ht. destruct (claims pc) eqn:E; [|done]. exfalso. apply Hn. by exists t, pc.
Qed.

Lemma claims_words s t pc : log_inv s -> log_calls s !! t = Some pc -> claims pc = true -> STATE (log_words s) <> UNINITIALIZED.
Proof.
  intros Hi Ht Hc. pose proof (lg_claim _ Hi t pc Ht Hc) as Hw.
  destruct pc; cbn in *; try discriminate Hc; rewrite ?Hw; try (rewrite (proj1 Hw)); discriminate.
Qed.

(** A call that claims the word, or has just done so, moves on. *)
Lemma log_inv_claimant s t pc w : log_inv s -> claims pc = true -> claimed_words pc w ->
  (forall u pc', u <> t -> log_calls s !! u = Some pc' -> claims pc' = false) -> log_inv (mkLogSystem w (<[t := pc]> (log_calls s))).
Proof.
  intros Hi Hc Hw Hn. split; cbn.
  - intros Hall. specialize (Hall t pc). rewrite lookup_insert_eq in Hall. rewrite Hall in Hc by done. discriminate.
  - intros u pc'. destruct (decide (u = t)) as [->|Hu]; [rewrite lookup_insert_eq; by intros [= <-]|].
    rewrite lookup_insert_ne by done. intros Hl. by rewrite (Hn _ _ Hu Hl).
  - intros u v pcu pcv Hlu Hlv Hcu Hcv. destruct (decide (u = t)) as [->|Hu], (decide (v = t)) as [->|Hv]; [done|..].
    + rewrite lookup_insert_ne in Hlv by done. by rewrite (Hn _ _ Hv Hlv) in Hcv.
    + rewrite lookup_insert_ne in Hlu by done. by rewrite (Hn _ _ Hu Hlu) in Hcu.
    + rewrite lookup_insert_ne in Hlu by done. by rewrite (Hn _ _ Hu Hlu) in Hcu.
Qed.

(** A call that has not claimed the word and does not claim it leaves the
    words alone. *)
Lemma log_inv_other s t pc : log_inv s -> claims pc = false -> (forall pc', log_calls s !! t = Some pc' -> claims pc' = false) ->
  log_inv (mkLogSystem (log_words s) (<[t := pc]> (log_calls s))).
Proof.
  intros [Hf Hw Ho] Hc Hold.
  assert (Hlk : forall u pc', <[t := pc]> (log_calls s) !! u = Some pc' -> claims pc' = true -> log_calls s !! u = Some pc').
  { intros u pc'. destruct (decide (u = t)) as [->|]; [rewrite lookup_insert_eq; intros [= <-]; by rewrite Hc|by rewrite lookup_insert_ne]. }
  split; cbn.
  - intros Hall. apply Hf. intros u pc' Hl. destruct (decide (u = t)) as [->|]; [by apply Hold|].
    apply (Hall u). by rewrite lookup_insert_ne.
  - intros u pc' Hl Hcl. by apply (Hw u); [apply Hlk|].
  - intros u v pcu pcv Hlu Hlv Hcu Hcv. apply (Ho u v pcu pcv); auto.
Qed.

Lemma log_inv_step s s' : log_inv s -> log_step s s' -> log_inv s'.
Proof.
  intros Hi Hst. revert Hi. destruct Hst as [t logger s1 Hn|t pc s1 w pc' Ht Hs]; intros Hi.
  - apply log_inv_other; [done|done|]. intros pc'. rewrite Hn. intros [=].
  - assert (Hrest : claims pc = true -> forall u pc', u <> t -> log_calls s1 !! u = Some pc' -> claims pc' = false).
    { intros Hc u pcu Hu Hl. destruct (claims pcu) eqn:E; [|done]. exfalso. apply Hu. by apply (lg_one _ Hi u t pcu pc). }
    destruct pc; cbn in Hs; try discriminate Hs.
    + destruct (STATE (log_words s1) =? UNINITIALIZED) eqn:E0.
      * injection Hs as <- <-. apply log_inv_claimant; [done|done|done|]. intros u pcu _ Hl.
        destruct (claims pcu) eqn:Ec; [|done]. exfalso. by apply (claims_words _ _ _ Hi Hl Ec), Z.eqb_eq.
      * destruct (STATE (log_words s1) =? INITIALIZING); injection Hs as <- <-; apply log_inv_other; try done;
          intros pc'; rewrite Ht; by intros [= <-].
    + injection Hs as <- <-. apply log_inv_claimant; [done|done| |by apply Hrest]. split; [|done]. apply (lg_claim _ Hi t _ Ht eq_refl).
    + injection Hs as <- <-. apply log_inv_claimant; [done|done| |by apply Hrest]. split; [done|]. apply (lg_claim _ Hi t _ Ht eq_refl).
    + injection Hs as <- <-. apply log_inv_other; [done|by case_match|]. intros pc'. rewrite Ht. by intros [= <-].
Qed.

Lemma log_inv_reachable s s' : log_inv s -> rtc log_step s s' -> log_inv s'.
Proof. intros Hi Hr. induction Hr; [done|]. eauto using log_inv_step. Qed.

(** ** Properties *)

(** The logger is set once: of all calls of [set_logger], in any
    interleaving, at most one returns [Ok], and from then on [get_logger]
    returns its logger; before that it returns the dummy. *)
Theorem logger_set_once s s' t l : rtc log_step log_start s -> rtc log_step s s' -> log_calls s !! t = Some (SetOk l) ->
  get_logger (log_words s') = l /\ forall u l', log_calls s' !! u = Some (SetOk l') -> u = t /\ l' = l.
Proof.
  intros Hr Hr' Ht.
  assert (Ht' : log_calls s' !! t = Some (SetOk l)).
  { revert Ht. clear Hr. induction Hr' as [|s s1 s2 Hs _ IH]; [done|]. intros Ht. apply IH.
    destruct Hs as [u logger s Hn|u pc s w pc' Hu Hs]; cbn; (destruct (decide (u = t)) as [->|]; [|by rewrite lookup_insert_ne]); [by rewrite Hn in Ht|].
    rewrite Ht in Hu. injection Hu as <-. discriminate Hs. }
  pose proof (log_inv_reachable s s' (log_inv_reachable _ _ log_inv_start Hr) Hr') as Hi.
  destruct (lg_claim _ Hi t _ Ht' eq_refl) as [Hst Hl]. split.
  - unfold get_logger. by rewrite Hst.
  - intros u l' Hu. pose proof (lg_one _ Hi u t _ _ Hu Ht' eq_refl eq_refl) as ->. rewrite Hu in Ht'. by injection Ht' as <-.
Qed.

(** Two calls, one after the other. *)
Definition first_set : LogSystem := mkLogSystem (mkLogState INITIALIZED (UserLogger 7)) {[ 0%nat := SetOk (UserLogger 7) ]}.
Definition second_set : LogSystem := mkLogSystem (mkLogState INITIALIZED (UserLogger 7)) {[ 0%nat := SetOk (UserLogger 7); 1%nat := SetErr ]}.

Lemma first_set_reachable : rtc log_step log_start first_set.
Proof.
  eapply rtc_l; [apply (LogCall 0%nat (UserLogger 7)); reflexivity|]. do 3 (eapply rtc_l; [eapply (LogStep 0%nat); reflexivity|]). apply rtc_refl.
Qed.

Lemma second_set_reachable : rtc log_step first_set second_set.
Proof.
  eapply rtc_l; [apply (LogCall 1%nat (UserLogger 9)); reflexivity|]. eapply rtc_l; [eapply (LogStep 1%nat); reflexivity|]. apply rtc_refl.
Qed.

Lemma logger_set_once_witness : get_logger (log_words second_set) = UserLogger 7 /\
  forall u l', log_calls second_set !! u = Some (SetOk l') -> u = 0%nat /\ l' = UserLogger 7.
Proof. apply (logger_set_once first_set second_set 0%nat (UserLogger 7)); [exact first_set_reachable|exact second_set_reachable|reflexivity]. Defined.

(** A call that is not interrupted takes three steps; a later one fails. *)
Example set_logger_twice :
  set_logger log_init (UserLogger 7) = (mkLogState INITIALIZED (UserLogger 7), SetOk (UserLogger 7)) /\
  set_logger (mkLogState INITIALIZED (UserLogger 7)) (UserLogger 9) = (mkLogState INITIALIZED (UserLogger 7), SetErr).
Proof. split; reflexivity. Qed.
