(* ===== verification/Uart.v ===== *)
(** * drivers/uart-16550: serial ports

    Models [uart_16550.rs] over [PortIo], and the loggers of the
    bootloader, the kernel and the shell (bootloader/src/serial.rs,
    kernel/src/serial.rs, shell/src/shell.rs). What a call sends is specified by the accesses it makes: [sent]
    describes those of a string, byte by byte, each byte behind a line status
    that says the port is ready. The locks around the ports are the subject of
    [SpinMutex]; formatted text is a list of bytes. *)

From Stdlib Require Import Lia.
From stdpp Require Import base numbers option tactics strings list.
From S2P Require Import Prelude Pod PortIo Log.

Local Open Scope Z_scope.

(** ** The device *)

Record UartDevice : Type := mkUart { io_port : Z }.

Definition COM1_PORT : Z := 0x3F8.
Definition COM2_PORT : Z := 0x2F8.
Definition INTERRUPT_ENABLE_REGISTER : Z := 1.
Definition FIFO_CONTROL_REGISTER : Z := 2.
Definition LINE_CONTROL_REGISTER : Z := 3.
Definition MODEM_CONTROL_REGISTER : Z := 4.
Definition LINE_STATUS_REGISTER : Z := 5.
Definition LINE_STATUS_OUTPUT_EMPTY : Z := wshl 8 1 5.

Definition COM1 : UartDevice := mkUart COM1_PORT.
Definition COM2 : UartDevice := mkUart COM2_PORT.

(** A register of the device; the port number is a [u16]. *)
Definition uart_register (d : UartDevice) (register : Z) : Z := wrap 16 (io_port d + register).

Definition DLAB : Z := wshl 8 1 7.
Definition WORD_LEN_8BIT : Z := 3.
Definition DIVISOR_LSB : Z := 3.
Definition DIVISOR_MSB : Z := 0.
Definition FIFO_ENABLE : Z := 1.
Definition FIFO_CLEAR_SEND : Z := 4.
Definition FIFO_CLEAR_RECV : Z := 2.
Definition FIFO_INT_LEVEL_14 : Z := 0xC0.
Definition DATA_TERMINAL_READY : Z := 1.
Definition REQUEST_TO_SEND : Z := 2.
Definition PIN_OUT2 : Z := 8.

Definition uart_init (d : UartDevice) : Io unit :=
  _ ← write_u8 (uart_register d INTERRUPT_ENABLE_REGISTER) 0;
  _ ← write_u8 (uart_register d LINE_CONTROL_REGISTER) DLAB;
  _ ← write_u8 (io_port d) DIVISOR_LSB;
  _ ← write_u8 (uart_register d INTERRUPT_ENABLE_REGISTER) DIVISOR_MSB;
  _ ← write_u8 (uart_register d LINE_CONTROL_REGISTER) (Z.land WORD_LEN_8BIT (wnot 8 DLAB));
  _ ← write_u8 (uart_register d FIFO_CONTROL_REGISTER)
        (Z.lor (Z.lor (Z.lor FIFO_ENABLE FIFO_CLEAR_SEND) FIFO_CLEAR_RECV) FIFO_INT_LEVEL_14);
  _ ← write_u8 (uart_register d MODEM_CONTROL_REGISTER) (Z.lor (Z.lor DATA_TERMINAL_READY REQUEST_TO_SEND) PIN_OUT2);
  write_u8 (uart_register d INTERRUPT_ENABLE_REGISTER) 1.

Section uart.
Context `{Hardware} (fuel : nat).

Definition read_line_status (d : UartDevice) : Io Z := read_u8 (uart_register d LINE_STATUS_REGISTER).

Definition line_output_empty (d : UartDevice) : Io bool :=
  v ← read_line_status d;
  mret (Z.land v LINE_STATUS_OUTPUT_EMPTY =? LINE_STATUS_OUTPUT_EMPTY).

Definition try_send (d : UartDevice) (byte : Z) : Io bool :=
  empty ← line_output_empty d;
  if empty : bool then _ ← write_u8 (io_port d) byte; mret true else mret false.

Definition uart_send (d : UartDevice) (byte : Z) : Io unit := spin_until fuel (try_send d byte).

Definition uart_write (d : UartDevice) (byte : Z) : Io unit :=
  if (byte =? 0x08) || (byte =? 0x7F) then
    _ ← uart_send d 0x08;
    _ ← uart_send d 0x20;
    uart_send d 0x08
  else if byte =? 0x0A then
    _ ← uart_send d 0x0D;
    uart_send d 0x0A
  else uart_send d byte.

(** [fmt::Write::write_str], on the bytes of the string. *)
Definition write_str (d : UartDevice) (s : list Z) : Io unit := io_each s (uart_write d).
End uart.

(** ** Loggers *)

Definition ANSI_SGR_RESET : Z := 0.
Definition ANSI_SGR_BOLD : Z := 0.
Definition ANSI_SGR_DIM : Z := 2.
Definition ANSI_SGR_FG_RED : Z := 31.
Definition ANSI_SGR_FG_GREEN : Z := 32.
Definition ANSI_SGR_FG_YELLOW : Z := 33.
Definition ANSI_SGR_FG_BLUE : Z := 34.

Definition level_color_code (level : LogLevel) : Z :=
  match level with
  | LevelError => ANSI_SGR_FG_RED
  | LevelWarn => ANSI_SGR_FG_YELLOW
  | LevelInfo => ANSI_SGR_FG_GREEN
  | LevelDebug => ANSI_SGR_FG_BLUE
  | LevelTrace => ANSI_SGR_DIM
  end.

(** [{}] of a number below 100, [{:<6}] of a string, and the escape sequence
    that selects a rendition. *)
Definition decimal (n : Z) : list Z := if n <? 10 then [0x30 + n] else [0x30 + n / 10; 0x30 + n mod 10].
Definition pad_right (n : nat) (s : list Z) : list Z := s ++ replicate (n - length s) 0x20.
Definition sgr (code : Z) : list Z := 0x1b :: str "[" ++ decimal code ++ str "m".

(** The line the kernel's logger writes to COM1. *)
Definition serial_log_line (level : LogLevel) (target args : list Z) : list Z :=
  let use_bold := bool_decide (level = LevelError) in
  sgr (level_color_code level) ++ pad_right 6 (str (LogLevel_as_str level)) ++ sgr 0 ++ sgr 2 ++ str "[" ++ target ++ str "]" ++ sgr 0 ++
  str " " ++ sgr (if use_bold then ANSI_SGR_BOLD else ANSI_SGR_RESET) ++ args ++ sgr 0 ++ [0x0A].

(** The line the shell's logger writes to COM2. *)
Definition shell_log_line (level : LogLevel) (target args : list Z) : list Z :=
  sgr 2 ++ str "[" ++ target ++ str "] " ++ sgr (level_color_code level) ++ args ++ sgr 0 ++ [0x0A].

(** The line of the bootloader's logger, whose target may be empty. *)
Definition bootloader_log_line (level : LogLevel) (target : list Z) (module_path : option (list Z)) (args : list Z) : list Z :=
  serial_log_line level (match target with [] => default [] module_path | _ => target end) args.

Section loggers.
Context `{Hardware} (fuel : nat).

Definition serial_log (level : LogLevel) (target args : list Z) : Io unit := write_str fuel COM1 (serial_log_line level target args).
Definition shell_log (level : LogLevel) (target args : list Z) : Io unit := write_str fuel COM2 (shell_log_line level target args).
End loggers.

(** ** What is sent *)

(** The bytes that reach the terminal for one byte of text. *)
Definition terminal_bytes (byte : Z) : list Z :=
  if (byte =? 0x08) || (byte =? 0x7F) then [0x08; 0x20; 0x08]
  else if byte =? 0x0A then [0x0D; 0x0A]
  else [byte].

(** The accesses that send [bytes] to [d], and no others: for each byte the
    line status until it says ready, then the byte. *)
Inductive sent (d : UartDevice) : list Z -> list Event -> Prop :=
  | sent_nil : sent d [] []
  | sent_busy bytes es v : Z.testbit v 5 = false -> sent d bytes es ->
      sent d bytes (In (Q8 (uart_register d LINE_STATUS_REGISTER)) v :: es)
  | sent_byte byte bytes es v : Z.testbit v 5 = true -> sent d bytes es ->
      sent d (byte :: bytes) (In (Q8 (uart_register d LINE_STATUS_REGISTER)) v :: Out8 (io_port d) byte :: es).

Lemma sent_app d b1 e1 b2 e2 : sent d b1 e1 -> sent d b2 e2 -> sent d (b1 ++ b2) (e1 ++ e2).
Proof. intros H H2. induction H; cbn; [exact H2|by constructor|by constructor]. Qed.

Lemma line_empty_bit v : (Z.land v LINE_STATUS_OUTPUT_EMPTY =? LINE_STATUS_OUTPUT_EMPTY) = Z.testbit v 5.
Proof.
  change LINE_STATUS_OUTPUT_EMPTY with (2 ^ 5). destruct (Z.testbit v 5) eqn:E.
  - apply Z.eqb_eq. apply Z.bits_inj'. intros n Hn. rewrite Z.land_spec, Z.pow2_bits_eqb by lia.
    destruct (Z.eqb_spec 5 n) as [<-|]; [by rewrite E|apply andb_false_r].
  - apply Z.eqb_neq. intros H. apply (f_equal (fun x => Z.testbit x 5)) in H. rewrite Z.land_spec, E in H. discriminate H.
Qed.

Section specs.
Context `{Hardware}.

Lemma emits_try_send d byte : emits (try_send d byte)
  (fun es (b : bool) => exists v, if b then Z.testbit v 5 = true /\ es = [In (Q8 (uart_register d LINE_STATUS_REGISTER)) v; Out8 (io_port d) byte]
    else Z.testbit v 5 = false /\ es = [In (Q8 (uart_register d LINE_STATUS_REGISTER)) v]).
Proof.
  intros h h' b. unfold try_send, line_output_empty, read_line_status, read_u8, port_read, write_u8, mbind, Io_bind, mret, Io_ret.
  set (v := wrap _ _). rewrite line_empty_bit. destruct (Z.testbit v 5) eqn:E; intros [= <- <-].
  - eexists [_; _]. rewrite <- app_assoc. split; [done|]. eauto.
  - eexists [_]. split; [done|]. eauto.
Qed.

Lemma emits_send fuel d byte : emits (uart_send fuel d byte) (fun es _ => sent d [byte] es).
Proof.
  eapply emits_conseq; [apply (emits_spin _ _
    (fun es => exists v, Z.testbit v 5 = false /\ es = [In (Q8 (uart_register d LINE_STATUS_REGISTER)) v])
    (fun es => exists v, Z.testbit v 5 = true /\ es = [In (Q8 (uart_register d LINE_STATUS_REGISTER)) v; Out8 (io_port d) byte]))|].
  - eapply emits_conseq; [apply emits_try_send|]. by intros es [|] [v Hv]; exists v.
  - intros es a. induction 1 as [es (v & Hv & ->)|es es' (v & Hv & ->) _ IH]; cbn; by repeat constructor.
Qed.

Lemma emits_sent_bind d (m1 m2 : Io unit) b1 b2 : emits m1 (fun es _ => sent d b1 es) -> emits m2 (fun es _ => sent d b2 es) ->
  emits (_ ← m1; m2) (fun es _ => sent d (b1 ++ b2) es).
Proof. intros H1 H2. eapply emits_bind; [exact H1|intros a; exact H2|]. intros a b es1 es2. apply sent_app. Qed.

Lemma emits_uart_write fuel d byte : emits (uart_write fuel d byte) (fun es _ => sent d (terminal_bytes byte) es).
Proof.
  unfold uart_write, terminal_bytes. repeat case_if.
  - apply (emits_sent_bind d _ _ [0x08] [0x20; 0x08]); [apply emits_send|].
    apply (emits_sent_bind d _ _ [0x20] [0x08]); apply emits_send.
  - apply (emits_sent_bind d _ _ [0x0D] [0x0A]); apply emits_send.
  - apply emits_send.
Qed.

(** A port that says ready after fewer than [n] reads of the line status,
    whatever was done before. *)
Definition ready_within (n : nat) (d : UartDevice) : Prop := forall h, exists k, (k < n)%nat /\
  Z.testbit (wrap 8 (answer (after k (read_line_status d) h) (Q8 (uart_register d LINE_STATUS_REGISTER)))) 5 = true.

Lemma try_send_eq d byte h : let v := wrap 8 (answer h (Q8 (uart_register d LINE_STATUS_REGISTER))) in
  try_send d byte h =
    if Z.testbit v 5 then (h ++ [In (Q8 (uart_register d LINE_STATUS_REGISTER)) v; Out8 (io_port d) byte], Value true)
    else (h ++ [In (Q8 (uart_register d LINE_STATUS_REGISTER)) v], Value false).
Proof.
  intros v. unfold try_send, line_output_empty, read_line_status, read_u8, port_read, write_u8, mbind, Io_bind, mret, Io_ret.
  cbn [query_width]. fold v. rewrite line_empty_bit. destruct (Z.testbit v 5); [|done]. by rewrite <- app_assoc.
Qed.

Lemma send_returns n d byte : ready_within n d -> returns (uart_send n d byte).
Proof.
  intros Hr h. destruct (Hr h) as (k & Hk & Hb). clear Hr. unfold uart_send. revert h k Hk Hb.
  induction n as [|n IH]; intros h k Hk Hb; [lia|]. cbn [spin_until]. unfold mbind, Io_bind. rewrite try_send_eq.
  destruct (Z.testbit (wrap 8 (answer h _)) 5) eqn:E; [eexists _, tt; reflexivity|].
  destruct k as [|k]; [cbn [after] in Hb; congruence|]. apply (IH _ k); [lia|exact Hb].
Qed.

Lemma write_returns n d byte : ready_within n d -> returns (uart_write n d byte).
Proof.
  intros Hr. unfold uart_write. repeat case_if; repeat first [apply returns_bind; [by apply send_returns|intros _]|by apply send_returns].
Qed.
End specs.

(** ** Properties *)

(** What [write_str] does to the port: exactly the bytes of the text are sent,
    in order, each after the line status said ready, with a backspace or
    delete as backspace, blank, backspace and a line feed as carriage return
    and line feed. *)
Theorem write_str_sends `{Hardware} fuel d s h h' : write_str fuel d s h = (h', Value tt) ->
  exists es, h' = h ++ es /\ sent d (s ≫= terminal_bytes) es.
Proof.
  intros E. eapply emits_each in E; [|intros x; apply emits_uart_write]. destruct E as (es & -> & ess & -> & HF).
  eexists. split; [done|]. induction HF as [|x es s ess Hx HF IH]; cbn; [constructor|]. by apply sent_app.
Qed.

(** A port that becomes ready after fewer than [n] reads takes any text. *)
Theorem write_str_ends `{Hardware} n d s h : ready_within n d -> exists h', write_str n d s h = (h', Value tt).
Proof.
  intros Hr. unfold write_str. revert h. induction s as [|x s IH]; intros h; cbn [io_each]; [by eexists|].
  destruct (write_returns n d x Hr h) as (h1 & [] & E1). destruct (IH h1) as (h2 & E2). exists h2. unfold mbind, Io_bind. by rewrite E1.
Qed.

(** ** Witnesses *)

(** A port that is busy at every other read of its line status. *)
Definition slow_port : Hardware := fun h q => if Z.of_nat (length h) mod 2 =? 0 then 0 else 0x20.

Lemma write_str_sends_witness : exists es, write_str (H := slow_port) 2 COM1 [0x41; 0x0A] [] = (es, Value tt) /\
  sent COM1 [0x41; 0x0D; 0x0A] es.
Proof.
  eexists. split; [vm_compute; reflexivity|].
  destruct (write_str_sends (H := slow_port) 2 COM1 [0x41; 0x0A] []
    (write_str (H := slow_port) 2 COM1 [0x41; 0x0A] []).1) as (es & E & Hs); [vm_compute; reflexivity|].
  cbn [app] in E. change ([0x41; 0x0A] ≫= terminal_bytes) with [0x41; 0x0D; 0x0A] in Hs. rewrite <- E in Hs. vm_compute in Hs. exact Hs.
Defined.

Lemma slow_port_ready : ready_within (H := slow_port) 2 COM1.
Proof.
  intros h. destruct (decide (Z.of_nat (length h) mod 2 = 0)) as [E|E].
  - exists 1%nat. split; [lia|]. cbn [after]. unfold answer, slow_port at 1. cbn. rewrite length_app. cbn.
    replace (_ mod 2 =? 0) with false; [done|]. symmetry. apply Z.eqb_neq. Z.div_mod_to_equations. lia.
  - exists 0%nat. split; [lia|]. cbn [after]. unfold answer, slow_port.
    rewrite (proj2 (Z.eqb_neq _ _) E). done.
Qed.

Lemma write_str_ends_witness : exists h', write_str (H := slow_port) 2 COM1 (serial_log_line LevelWarn (str "kernel") (str "hello")) [] = (h', Value tt).
Proof. apply write_str_ends. exact slow_port_ready. Defined.

(** A warning of the kernel. *)
Example serial_warning : serial_log_line LevelWarn (str "kernel") (str "hello") =
  [0x1b] ++ str "[33mWARN  " ++ [0x1b] ++ str "[0m" ++ [0x1b] ++ str "[2m[kernel]" ++ [0x1b] ++ str "[0m " ++ [0x1b] ++ str "[0mhello" ++ [0x1b] ++ str "[0m" ++ [0x0A].
Proof. vm_compute. reflexivity. Qed.

(** The accesses of the set-up: the divisor 3 (38400 baud) is written while
    the divisor latch is accessible, and the latch is closed again. *)
Example uart_init_accesses : uart_init COM1 [] =
  ([Out8 0x3F9 0; Out8 0x3FB 0x80; Out8 0x3F8 3; Out8 0x3F9 0; Out8 0x3FB 3; Out8 0x3FA 0xC7; Out8 0x3FC 0x0B; Out8 0x3F9 1], Value tt).
Proof. vm_compute. reflexivity. Qed.
