(* ===== verification/Rtc.v ===== *)
(** * drivers/rtc: the real-time clock

    Models [rtc.rs] over [PortIo]: reading the registers of the CMOS clock
    until two readings agree, the conversion from BCD, and the arithmetic on
    times. [register_of] is what a clock that shows a time of day has in its
    registers, in each of its four formats. *)

From Stdlib Require Import Lia.
From stdpp Require Import base numbers option tactics list.
From S2P Require Import Prelude PortIo.

Local Open Scope Z_scope.

(** ** The driver *)

Definition CMOS_COMMAND_PORT : Z := 0x70.
Definition CMOS_DATA_PORT : Z := 0x71.
Definition CMOS_DISABLE_NMI : Z := wshl 8 1 7.
Definition SECOND_REGISTER : Z := 0x00.
Definition MINUTE_REGISTER : Z := 0x02.
Definition HOUR_REGISTER : Z := 0x04.
Definition DAY_REGISTER : Z := 0x07.
Definition MONTH_REGISTER : Z := 0x08.
Definition YEAR_REGISTER : Z := 0x09.
Definition STATUS_REGISTER_A : Z := 0x0A.
Definition STATUS_REGISTER_B : Z := 0x0B.
Definition FORMAT_24_HOUR_FLAG : Z := wshl 8 1 1.
Definition FORMAT_BINARY_FLAG : Z := wshl 8 1 2.
Definition UPDATE_IN_PROGRESS_FLAG : Z := wshl 8 1 7.
Definition HOUR_PM_FLAG : Z := wshl 8 1 7.

Record Time : Type := mkTime { year : Z; month : Z; day : Z; hour : Z; minute : Z; second : Z }.

#[export] Instance Time_eq_dec : EqDecision Time.
Proof. solve_decision. Defined.

Definition Time_ZERO : Time := mkTime 0 0 0 0 0 0.

Definition convert_bcd (value : Z) : Z := wrap 8 (Z.land value 0x0F + wrap 8 (value / 16 * 10)).

(** What [now_unsynced] makes of the registers it has read. *)
Definition decode_registers (second minute hour day month year format : Z) : Time :=
  let bcd := negb (Z.land format FORMAT_BINARY_FLAG =? FORMAT_BINARY_FLAG) in
  let convert x := if bcd then convert_bcd x else x in
  let hour := if bcd then Z.lor (convert_bcd (Z.land hour 0x7F)) (Z.land hour 0x80) else hour in
  let after_noon := Z.land hour HOUR_PM_FLAG =? HOUR_PM_FLAG in
  let format_24_hour := Z.land hour FORMAT_24_HOUR_FLAG =? FORMAT_24_HOUR_FLAG in
  let hour := if format_24_hour && after_noon then wrap 8 (Z.land hour 0x7F + 12) mod 24 else hour in
  mkTime (convert year) (convert month) (convert day) hour (convert minute) (convert second).

Section rtc.
Context `{Hardware}.

Definition read_cmos (register : Z) : Io Z :=
  _ ← write_u8 CMOS_COMMAND_PORT (Z.lor CMOS_DISABLE_NMI register);
  read_u8 CMOS_DATA_PORT.

Definition now_unsynced : Io Time :=
  second ← read_cmos SECOND_REGISTER;
  minute ← read_cmos MINUTE_REGISTER;
  hour ← read_cmos HOUR_REGISTER;
  day ← read_cmos DAY_REGISTER;
  month ← read_cmos MONTH_REGISTER;
  year ← read_cmos YEAR_REGISTER;
  format ← read_cmos STATUS_REGISTER_B;
  mret (decode_registers second minute hour day month year format).

(** The test of the two waits: no update in progress. *)
Definition update_done : Io bool :=
  v ← read_cmos STATUS_REGISTER_A;
  mret (negb (0 <? Z.land v UPDATE_IN_PROGRESS_FLAG)).

(** [Time::now]: [fuel] bounds the rounds and the spins of each round. *)
Fixpoint now (spins fuel : nat) : Io Time :=
  match fuel with
  | O => io_wait
  | S fuel =>
      _ ← spin_until spins update_done;
      time_1 ← now_unsynced;
      quiet ← update_done;
      if negb quiet then now spins fuel
      else
        time_2 ← now_unsynced;
        if decide (time_1 = time_2) then mret time_1 else now spins fuel
  end.
End rtc.

Definition from_seconds (seconds : Z) : exec Time :=
  if 3600 * 24 <=? seconds then Panic
  else if 3600 <=? seconds then
    Done (mkTime 0 0 0 (wrap 8 (seconds / 3600)) (wrap 8 (seconds / 60)) (wrap 8 (seconds mod 60)))
  else if 60 <=? seconds then Done (mkTime 0 0 0 0 (wrap 8 (seconds / 60)) (wrap 8 (seconds mod 60)))
  else Done (mkTime 0 0 0 0 0 (wrap 8 seconds)).

(** [impl Add for Time]. *)
Definition Time_add (self rhs : Time) : Time :=
  let seconds := wrap 8 (second self + second rhs) in
  let '(minute_1, second_1) := if 60 <=? seconds then (wrap 8 (minute self + 1), wrap 8 (seconds - 60)) else (minute self, seconds) in
  let minutes := wrap 8 (minute_1 + minute rhs) in
  let '(hour_1, minute_2) := if 60 <=? minutes then (wrap 8 (hour self + 1), wrap 8 (minutes - 60)) else (hour self, minutes) in
  let hours := wrap 8 (hour_1 + hour rhs) in
  let '(day_1, hour_2) := if 24 <=? hours then (wrap 8 (day self + 1), wrap 8 (hours - 24)) else (day self, hours) in
  mkTime (year self) (month self) day_1 hour_2 minute_2 second_1.

(** ** What the clock shows *)

(** A time of day and a date of a two-digit year. *)
Record valid_time (t : Time) : Prop := {
  vt_year : 0 <= year t < 100; vt_month : 0 <= month t < 100; vt_day : 0 <= day t < 100;
  vt_hour : 0 <= hour t < 24; vt_minute : 0 <= minute t < 60; vt_second : 0 <= second t < 60
}.

Definition bcd (x : Z) : Z := 16 * (x / 10) + x mod 10.

(** The hour on a 12-hour dial, with the PM flag. *)
Definition dial_hour (h : Z) : Z := (h + 11) mod 12 + 1.

(** The registers of a clock that shows [t]: [encode] is [bcd] or the
    identity. *)
Definition encode (binary : bool) (x : Z) : Z := if binary then x else bcd x.
Definition hour_register (binary hours24 : bool) (h : Z) : Z :=
  if hours24 then encode binary h else encode binary (dial_hour h) + (if 12 <=? h then 0x80 else 0).
Definition format_register (binary hours24 : bool) : Z :=
  (if hours24 then FORMAT_24_HOUR_FLAG else 0) + (if binary then FORMAT_BINARY_FLAG else 0).
Definition register_of (binary hours24 : bool) (t : Time) (register : Z) : Z :=
  if register =? SECOND_REGISTER then encode binary (second t)
  else if register =? MINUTE_REGISTER then encode binary (minute t)
  else if register =? HOUR_REGISTER then hour_register binary hours24 (hour t)
  else if register =? DAY_REGISTER then encode binary (day t)
  else if register =? MONTH_REGISTER then encode binary (month t)
  else if register =? YEAR_REGISTER then encode binary (year t)
  else if register =? STATUS_REGISTER_B then format_register binary hours24
  else 0.

Definition decode_of (r : Z -> Z) : Time :=
  decode_registers (r SECOND_REGISTER) (r MINUTE_REGISTER) (r HOUR_REGISTER) (r DAY_REGISTER) (r MONTH_REGISTER) (r YEAR_REGISTER)
    (r STATUS_REGISTER_B).

(** A statement about all numbers below [n], by computation. *)
Lemma all_below (P : Z -> bool) n : forallb P (seqZ 0 n) = true -> forall x, 0 <= x < n -> P x = true.
Proof. rewrite forallb_forall. intros HP x Hx. apply HP. apply list_elem_of_In, elem_of_seqZ. lia. Qed.

Lemma convert_bcd_correct x : 0 <= x < 100 -> convert_bcd (bcd x) = x.
Proof. intros Hx. apply Z.eqb_eq. revert x Hx. apply (all_below (fun x => convert_bcd (bcd x) =? x)). vm_compute. reflexivity. Qed.

(** The hour the driver reads. *)
Definition hour_read (binary hours24 : bool) (h : Z) : Z :=
  hour (decode_registers 0 0 (hour_register binary hours24 h) 0 0 0 (format_register binary hours24)).

Lemma format_binary binary hours24 : (Z.land (format_register binary hours24) FORMAT_BINARY_FLAG =? FORMAT_BINARY_FLAG) = binary.
Proof. by destruct binary, hours24. Qed.

Lemma decode_register_of binary hours24 t : valid_time t ->
  decode_of (register_of binary hours24 t) =
    mkTime (year t) (month t) (day t) (hour_read binary hours24 (hour t)) (minute t) (second t).
Proof.
  intros [Hy Hm Hd Hh Hmi Hs]. unfold decode_of, register_of, hour_read. cbn [Z.eqb Pos.eqb SECOND_REGISTER MINUTE_REGISTER HOUR_REGISTER
    DAY_REGISTER MONTH_REGISTER YEAR_REGISTER STATUS_REGISTER_B].
  unfold decode_registers. rewrite !format_binary. destruct binary; cbn [negb encode hour]; [done|].
  by rewrite !convert_bcd_correct by lia.
Qed.

(** The hours a 12-hour clock is read correctly at. *)
Definition dial_hour_ok (h : Z) : bool := (1 <=? h) && (h <=? 11) || (12 <? h) && Z.testbit (h - 12) 1.

Lemma hour_read_24 binary h : 0 <= h < 24 -> hour_read binary true h = h.
Proof.
  intros Hh. apply Z.eqb_eq. revert h Hh. apply (all_below (fun h => hour_read binary true h =? h)). destruct binary; vm_compute; reflexivity.
Qed.

Lemma hour_read_12 binary h : 0 <= h < 24 -> (hour_read binary false h =? h) = dial_hour_ok h.
Proof.
  intros Hh. apply eqb_true_iff. revert h Hh. apply (all_below (fun h => eqb (hour_read binary false h =? h) (dial_hour_ok h))).
  destruct binary; vm_compute; reflexivity.
Qed.

(** ** Reading the clock *)

Section reading.
Context `{Hardware}.

(** What a register holds after some history. *)
Definition cmos (h : list Event) (register : Z) : Z :=
  wrap 8 (answer (h ++ [Out8 CMOS_COMMAND_PORT (Z.lor CMOS_DISABLE_NMI register)]) (Q8 CMOS_DATA_PORT)).

(** A clock that keeps showing [t] while it is read. *)
Definition shows (binary hours24 : bool) (t : Time) : Prop :=
  forall h register, 0 <= register <= STATUS_REGISTER_B -> cmos h register = register_of binary hours24 t register.

Lemma read_cmos_eq register h : exists h', read_cmos register h = (h', Value (cmos h register)).
Proof.
  eexists. unfold read_cmos, write_u8, read_u8, port_read, mbind, Io_bind. cbn [query_width]. unfold cmos. reflexivity.
Qed.

Lemma cmos_bind {B} register (f : Z -> Io B) h : exists h', (v ← read_cmos register; f v) h = f (cmos h register) h'.
Proof. destruct (read_cmos_eq register h) as [h' E]. exists h'. unfold mbind, Io_bind. by rewrite E. Qed.

Lemma unsynced_shows binary hours24 t h : shows binary hours24 t ->
  exists h', now_unsynced h = (h', Value (decode_of (register_of binary hours24 t))).
Proof.
  intros Hs. unfold now_unsynced.
  do 7 (match goal with |- context [(v ← read_cmos ?r; @?f v) ?h] => destruct (cmos_bind r f h) as [? ->] end; rewrite Hs by done).
  eexists. reflexivity.
Qed.

Lemma update_shows binary hours24 t h : shows binary hours24 t -> exists h', update_done h = (h', Value true).
Proof.
  intros Hs. unfold update_done. destruct (cmos_bind STATUS_REGISTER_A (fun v => mret (negb (0 <? Z.land v UPDATE_IN_PROGRESS_FLAG))) h) as [h' ->].
  rewrite Hs by done. eexists. reflexivity.
Qed.

Lemma now_shows binary hours24 t spins fuel h : shows binary hours24 t ->
  exists h', now (S spins) (S fuel) h = (h', Value (decode_of (register_of binary hours24 t))).
Proof.
  intros Hs. cbn [now spin_until]. destruct (update_shows _ _ _ h Hs) as [h1 E1]. destruct (unsynced_shows _ _ _ h1 Hs) as [h2 E2].
  destruct (update_shows _ _ _ h2 Hs) as [h3 E3]. destruct (unsynced_shows _ _ _ h3 Hs) as [h4 E4]. exists h4.
  rewrite (io_step _ _ h h1 tt) by exact (io_step _ _ _ _ _ E1). rewrite (io_step _ _ _ _ _ E2), (io_step _ _ _ _ _ E3). cbn [negb].
  rewrite (io_step _ _ _ _ _ E4), decide_True by done. reflexivity.
Qed.
End reading.

(** ** Properties *)

(** A clock in 24-hour mode, binary or BCD, is read exactly: [now] returns
    the time it shows. *)
Theorem now_reads_24_hour_clock `{Hardware} binary t spins fuel h : valid_time t -> shows binary true t ->
  exists h', now (S spins) (S fuel) h = (h', Value t).
Proof.
  intros Hv Hs. destruct (now_shows _ _ _ spins fuel h Hs) as [h' E]. exists h'. rewrite E, decode_register_of by done.
  rewrite hour_read_24 by apply Hv. by destruct t.
Qed.

(** In 12-hour mode the hour is read wrongly at midnight, at noon and at 1, 4,
    5, 8 and 9 in the afternoon: the code tests the 24-hour flag in the hour
    instead of the status register, and takes it as its negation. *)
Theorem now_misreads_12_hour_clock `{Hardware} binary t spins fuel h : valid_time t -> shows binary false t ->
  exists h' t', now (S spins) (S fuel) h = (h', Value t') /\ (t' = t <-> dial_hour_ok (hour t) = true).
Proof.
  intros Hv Hs. destruct (now_shows _ _ _ spins fuel h Hs) as [h' E]. eexists h', _. split; [exact E|].
  rewrite decode_register_of by done. rewrite <- (hour_read_12 binary) by apply Hv. rewrite Z.eqb_eq.
  destruct t as [y mo d ho mi s]; cbn. split; [by intros [= ->]|by intros ->].
Qed.

(** [now] returns a time that it has read twice in a row, with a status in
    between that shows no update in progress. *)
Theorem now_reads_twice `{Hardware} spins fuel : forall h h' t, now spins fuel h = (h', Value t) ->
  exists h1 h2 h3, now_unsynced h1 = (h2, Value t) /\ update_done h2 = (h3, Value true) /\ now_unsynced h3 = (h', Value t).
Proof.
  induction fuel as [|fuel IH]; intros h h' t E; [discriminate E|]. cbn [now] in E.
  apply io_bind_inv in E as (h1 & [] & _ & E). apply io_bind_inv in E as (h2 & t1 & E1 & E).
  apply io_bind_inv in E as (h3 & [|] & E2 & E); cbn [negb] in E; [|by apply IH in E].
  apply io_bind_inv in E as (h4 & t2 & E3 & E). destruct (decide (t1 = t2)) as [->|]; [|by apply IH in E]. injection E as <- <-. eauto 6.
Qed.

(** Seconds since midnight. *)
Definition time_of_day (t : Time) : Z := 3600 * hour t + 60 * minute t + second t.

(** Adding a time of day: the seconds add up, with a day carried; the date of
    the second time is ignored. *)
Theorem Time_add_seconds a b : valid_time a -> valid_time b ->
  86400 * day (Time_add a b) + time_of_day (Time_add a b) = 86400 * day a + time_of_day a + time_of_day b /\
  0 <= time_of_day (Time_add a b) < 86400 /\ 0 <= minute (Time_add a b) < 60 /\ 0 <= second (Time_add a b) < 60.
Proof.
  intros [_ _ Hd Hh Hm Hs] [_ _ _ Hh' Hm' Hs']. unfold Time_add, time_of_day, wrap.
  change (2 ^ 8) with 256. rewrite (Z.mod_small (second a + second b)), (Z.mod_small (minute a + 1)) by lia.
  repeat case_if; cbn [day hour minute second]; bool_hyps; Z.div_mod_to_equations; lia.
Qed.

(** A number of seconds below an hour is converted exactly, from an hour on
    the minutes are not reduced and wrap at 256, and from a day on the
    conversion panics. *)
Theorem from_seconds_exact_below_hour s : 0 <= s ->
  match from_seconds s with
  | Done t => s < 86400 /\ hour t = s / 3600 /\ second t = s mod 60 /\ (time_of_day t = s <-> s < 3600)
  | Panic => 86400 <= s
  end.
Proof.
  intros Hs. unfold from_seconds, time_of_day, wrap. repeat case_if; cbn [hour minute second]; [lia|..]; Z.div_mod_to_equations; lia.
Qed.

(** ** Witnesses *)

(** A clock that always shows [t]. *)
Definition fixed_clock (binary hours24 : bool) (t : Time) : Hardware := fun h _ =>
  match last h with Some (Out8 _ v) => register_of binary hours24 t (Z.land v 0x7F) | _ => 0 end.

Lemma fixed_clock_shows binary hours24 t : (forall register, 0 <= register <= STATUS_REGISTER_B -> 0 <= register_of binary hours24 t register < 256) ->
  shows (H := fixed_clock binary hours24 t) binary hours24 t.
Proof.
  intros Hr h register Hreg. unfold cmos, answer, fixed_clock. rewrite last_snoc.
  replace (Z.land (Z.lor CMOS_DISABLE_NMI register) 0x7F) with register; [apply wrap_small; apply Hr; exact Hreg|].
  symmetry. apply Z.eqb_eq. revert register Hreg Hr.
  intros register Hreg _. apply (all_below (fun r => Z.land (Z.lor CMOS_DISABLE_NMI r) 0x7F =? r) 12); [vm_compute; reflexivity|].
  unfold STATUS_REGISTER_B in Hreg. lia.
Qed.

Definition evening : Time := mkTime 26 2 28 21 59 30.

Lemma evening_registers binary hours24 register : 0 <= register <= STATUS_REGISTER_B -> 0 <= register_of binary hours24 evening register < 256.
Proof.
  intros Hr. assert (E : ((0 <=? register_of binary hours24 evening register) && (register_of binary hours24 evening register <? 256))%bool = true).
  { apply (all_below (fun r => (0 <=? register_of binary hours24 evening r) && (register_of binary hours24 evening r <? 256))%bool 12);
      [destruct binary, hours24; vm_compute; reflexivity|unfold STATUS_REGISTER_B in Hr; lia]. }
  bool_hyps. lia.
Qed.

Lemma now_reads_24_hour_clock_witness : exists h', now (H := fixed_clock false true evening) 1 1 [] = (h', Value evening).
Proof.
  apply (now_reads_24_hour_clock (H := fixed_clock false true evening) false).
  - constructor; cbn; lia.
  - apply fixed_clock_shows. apply evening_registers.
Defined.

(** At 9:59:30 pm the 12-hour clock reads 137 hours. *)
Lemma now_misreads_12_hour_clock_witness : exists h' t', now (H := fixed_clock false false evening) 1 1 [] = (h', Value t') /\
  (t' = evening <-> dial_hour_ok 21 = true).
Proof.
  apply (now_misreads_12_hour_clock (H := fixed_clock false false evening) false evening).
  - constructor; cbn; lia.
  - apply fixed_clock_shows. apply evening_registers.
Defined.

Example evening_misread : (now (H := fixed_clock false false evening) 1 1 []).2 = Value (mkTime 26 2 28 137 59 30).
Proof. vm_compute. reflexivity. Qed.

Lemma now_reads_twice_witness : exists h1 h2 h3 h', now_unsynced (H := fixed_clock true true evening) h1 = (h2, Value evening) /\
  update_done (H := fixed_clock true true evening) h2 = (h3, Value true) /\
  now_unsynced (H := fixed_clock true true evening) h3 = (h', Value evening).
Proof.
  destruct (now_reads_twice (H := fixed_clock true true evening) 1 1 [] (now (H := fixed_clock true true evening) 1 1 []).1 evening)
    as (h1 & h2 & h3 & H1 & H2 & H3); [vm_compute; reflexivity|]. exists h1, h2, h3. eexists. split; [exact H1|split; [exact H2|exact H3]].
Defined.

Lemma Time_add_seconds_witness :
  86400 * day (Time_add evening evening) + time_of_day (Time_add evening evening) = 86400 * 28 + time_of_day evening + time_of_day evening.
Proof. apply (Time_add_seconds evening evening); constructor; cbn; lia. Defined.

Lemma from_seconds_exact_below_hour_witness :
  from_seconds 7325 = Done (mkTime 0 0 0 2 122 5) /\
  match from_seconds 7325 with
  | Done t => 7325 < 86400 /\ hour t = 7325 / 3600 /\ second t = 7325 mod 60 /\ (time_of_day t = 7325 <-> 7325 < 3600)
  | Panic => 86400 <= 7325
  end.
Proof. split; [reflexivity|]. apply (from_seconds_exact_below_hour 7325). lia. Defined.
