(* ===== verification/Clock.v ===== *)
(** * drivers/pit, crates/time and kernel/src/tsc.rs: timers

    Models the one-shot sleep of the programmable interval timer ([pit.rs]),
    the monotonic clock on the time-stamp counter ([time.rs], with the period
    that [hardware.rs] holds as an argument) and the choice of its frequency
    at start-up ([tsc.rs], with what CPUID reports as an argument). A
    [Duration] of the standard library is its number of nanoseconds. *)

From Stdlib Require Import Lia.
From stdpp Require Import base numbers option tactics list.
From S2P Require Import Prelude PortIo.

Local Open Scope Z_scope.
Local Open Scope u64_scope.

(** Integer division of unsigned numbers. *)
Definition udiv (a b : Z) : exec Z := if b =? 0 then Panic else Done (a / b).

(** ** The interval timer *)

Definition PIT_CHANNEL_2_PORT : Z := 0x42.
Definition PIT_COMMAND_REGISTER_PORT : Z := 0x43.
Definition PIT_CHANNEL_2_GATE_PORT : Z := 0x61.
Definition PIT_DEFAULT_FREQUENCY_HZ : Z := 1193182.

Definition pit_frequency (microseconds : Z) : exec Z :=
  per_second ← udiv 1000000 microseconds;
  udiv PIT_DEFAULT_FREQUENCY_HZ per_second.

Definition write_gate (value : Z) : Io unit := write_u8 PIT_CHANNEL_2_GATE_PORT value.
Definition write_channel_2 (value : Z) : Io unit := write_u8 PIT_CHANNEL_2_PORT value.
Definition write_command (value : Z) : Io unit := write_u8 PIT_COMMAND_REGISTER_PORT value.

Section pit.
Context `{Hardware}.

Definition read_gate : Io Z := read_u8 PIT_CHANNEL_2_GATE_PORT.

(** The test of the wait. *)
Definition pit_done : Io bool := v ← read_gate; mret (Z.land v 0x20 =? 0).

Definition pit_sleep (spins : nat) (microseconds : Z) : Io unit :=
  frequency ← io_exec (pit_frequency microseconds);
  prev ← read_gate;
  _ ← write_gate (Z.lor (Z.land prev 0xFD) 0x01);
  _ ← write_command 0xB2;
  _ ← write_channel_2 (wrap 8 frequency);
  _ ← read_u8 0x60;
  _ ← write_channel_2 (wrap 8 (Z.shiftr frequency 8));
  gate ← read_gate;
  let prev := Z.land gate 0xFE in
  _ ← write_gate prev;
  _ ← write_gate (Z.lor prev 0x01);
  spin_until spins pit_done.
End pit.

(** ** Instants *)

Definition FEMTOS_PER_NANO : Z := 1000000.
Definition FEMTOS_PER_MILLI : Z := 1000000000000.
Definition NANOS_PER_SECOND : Z := 1000000000.
Definition Instant_MAX : Z := 2 ^ 64 - 1.

(** [Duration::from_nanos_u128]: the seconds have to fit into a [u64]. *)
Definition from_nanos_u128 (nanos : Z) : exec Z := if 2 ^ 64 <=? nanos / NANOS_PER_SECOND then Panic else Done nanos.

Section instant.
Context (TSC_PERIOD_FS : Z).

Definition checked_duration_since (self earlier : Z) : exec (option Z) :=
  if self <? earlier then Done None
  else
    let femtos := wrap 128 ((self - earlier) * TSC_PERIOD_FS) in
    d ← from_nanos_u128 (femtos / FEMTOS_PER_NANO);
    Done (Some d).

Definition duration_since (self earlier : Z) : exec Z := d ← checked_duration_since self earlier; Done (default 0 d).

Definition checked_add_duration (self duration : Z) : exec (option Z) :=
  let femtos := wrap 128 (duration * FEMTOS_PER_NANO) in
  delta ← udiv femtos TSC_PERIOD_FS;
  let sum := self + wrap 64 delta in
  Done (if sum <? 2 ^ 64 then Some sum else None).

Definition add_duration (self duration : Z) : exec Z := r ← checked_add_duration self duration; Done (default Instant_MAX r).

Context `{Hardware}.

Definition Instant_now : Io Z := rdtsc.
Definition elapsed (self : Z) : Io Z := t ← Instant_now; io_exec (duration_since t self).
End instant.

(** ** The frequency of the counter *)

Record TscInfo : Type := mkTscInfo { nominal_frequency : Z; numerator : Z; denominator : Z; tsc_frequency : option Z }.

(** What CPUID reports: the leaves the code asks for. *)
Record CpuId : Type := mkCpuId {
  has_tsc : option bool; tsc_info : option TscInfo; processor_base_frequency : option Z; hypervisor_frequency : option (option Z)
}.

Definition reported_frequency (cpuid : CpuId) : option Z :=
  match tsc_info cpuid with
  | Some info =>
      if negb (nominal_frequency info =? 0) then tsc_frequency info
      else if negb (numerator info =? 0) && negb (denominator info =? 0) then
        base ← processor_base_frequency cpuid;
        let cpu_base_freq_hz := base ⊠ 1000 in
        let crystal_hz := (cpu_base_freq_hz ⊠ denominator info) / numerator info in
        Some ((crystal_hz ⊠ numerator info) / denominator info)
      else None
  | None => match hypervisor_frequency cpuid with Some f => f | None => None end
  end.

Section tsc.
Context `{Hardware} (spins : nat).

(** The argument of [unwrap_or]: ten milliseconds, counted. *)
Definition guess_frequency : Io Z :=
  start ← rdtsc;
  _ ← pit_sleep spins 10000;
  stop ← rdtsc;
  mret ((stop ⊟ start) / 10).

(** [tsc::init]: the frequency in kHz and the period in femtoseconds. *)
Definition tsc_init (cpuid : CpuId) : Io (Z * Z) :=
  if negb (default false (has_tsc cpuid)) then io_panic
  else
    guess ← guess_frequency;
    let frequency_khz := default guess (reported_frequency cpuid) in
    period_fs ← io_exec (udiv FEMTOS_PER_MILLI frequency_khz);
    t ← Instant_now;
    _ ← elapsed period_fs t;
    mret (frequency_khz, period_fs).
End tsc.

(** ** What the timer is programmed with *)

(** The accesses of a sleep with the count [count]. *)
Definition pit_accesses (count : Z) (es : list Event) : Prop := exists g0 ack g1 wait,
  es = [In (Q8 PIT_CHANNEL_2_GATE_PORT) g0; Out8 PIT_CHANNEL_2_GATE_PORT (Z.lor (Z.land g0 0xFD) 1); Out8 PIT_COMMAND_REGISTER_PORT 0xB2;
        Out8 PIT_CHANNEL_2_PORT (count mod 256); In (Q8 0x60) ack; Out8 PIT_CHANNEL_2_PORT (count / 256);
        In (Q8 PIT_CHANNEL_2_GATE_PORT) g1; Out8 PIT_CHANNEL_2_GATE_PORT (Z.land g1 0xFE);
        Out8 PIT_CHANNEL_2_GATE_PORT (Z.lor (Z.land g1 0xFE) 1)] ++ wait /\
  spun (fun es => exists v, Z.land v 0x20 <> 0 /\ es = [In (Q8 PIT_CHANNEL_2_GATE_PORT) v])
       (fun es => exists v, Z.land v 0x20 = 0 /\ es = [In (Q8 PIT_CHANNEL_2_GATE_PORT) v]) wait.

Lemma emits_pit_done `{Hardware} : emits pit_done (fun es (b : bool) =>
  exists v, if b then Z.land v 0x20 = 0 /\ es = [In (Q8 PIT_CHANNEL_2_GATE_PORT) v] else Z.land v 0x20 <> 0 /\ es = [In (Q8 PIT_CHANNEL_2_GATE_PORT) v]).
Proof.
  intros h h' b. unfold pit_done, read_gate, read_u8, port_read, mbind, Io_bind, mret, Io_ret. cbn [query_width]. intros [= <- <-].
  eexists. split; [done|]. eexists. destruct (_ =? 0) eqn:E; [apply Z.eqb_eq in E|apply Z.eqb_neq in E]; eauto.
Qed.

Lemma emits_pit_wait `{Hardware} spins : emits (spin_until spins pit_done) (fun es _ =>
  spun (fun es => exists v, Z.land v 0x20 <> 0 /\ es = [In (Q8 PIT_CHANNEL_2_GATE_PORT) v])
       (fun es => exists v, Z.land v 0x20 = 0 /\ es = [In (Q8 PIT_CHANNEL_2_GATE_PORT) v]) es).
Proof. apply emits_spin. eapply emits_conseq; [apply emits_pit_done|]. by intros es [|] [v Hv]; exists v. Qed.

Lemma pit_frequency_done us : 0 < us < 2 ^ 16 -> pit_frequency us = Done (PIT_DEFAULT_FREQUENCY_HZ / (1000000 / us)).
Proof.
  intros Hu. unfold pit_frequency, udiv. rewrite (proj2 (Z.eqb_neq us 0)) by lia. cbn [mbind exec_bind].
  rewrite (proj2 (Z.eqb_neq _ 0)); [done|]. assert (0 < 1000000 / us) by (apply Z.div_str_pos; lia). lia.
Qed.

Lemma emits_pit_sleep `{Hardware} spins us : emits (pit_sleep spins us) (fun es _ =>
  exists frequency, pit_frequency us = Done frequency /\ pit_accesses (frequency mod 2 ^ 16) es).
Proof.
  intros h h' [] E. unfold pit_sleep in E. apply io_bind_inv in E as (h0 & frequency & E0 & E).
  unfold io_exec in E0. destruct (pit_frequency us) as [f|] eqn:Ef; [|discriminate E0]. injection E0 as <- <-.
  cbv [read_gate write_gate write_command write_channel_2 read_u8 port_read write_u8 mbind Io_bind query_width] in E.
  apply emits_pit_wait in E as (wait & -> & Hw). rewrite <- !app_assoc. eexists. split; [done|]. exists f. split; [done|].
  eexists _, _, _, wait. split; [|exact Hw]. unfold wrap. rewrite Z.shiftr_div_pow2 by lia.
  replace ((f mod 2 ^ 16) mod 256) with (f mod 2 ^ 8) by (change (2 ^ 8) with 256; change (2 ^ 16) with (256 * 256); Z.div_mod_to_equations; lia).
  replace (f mod 2 ^ 16 / 256) with ((f / 2 ^ 8) mod 2 ^ 8) by (change (2 ^ 8) with 256; change (2 ^ 16) with (256 * 256); Z.div_mod_to_equations; lia).
  reflexivity.
Qed.

(** The count of a sleep of [us] microseconds. *)
Definition pit_count (us : Z) : Z := (PIT_DEFAULT_FREQUENCY_HZ / (1000000 / us)) mod 2 ^ 16.

(** [Duration::as_nanos] fits. *)
Definition duration_ok (d : Z) : Prop := 0 <= d < 2 ^ 64 * NANOS_PER_SECOND.

(** The number of ticks of a duration. *)
Definition ticks (period d : Z) : Z := d * FEMTOS_PER_NANO / period.

Lemma checked_add_eq period self d : 0 < period -> duration_ok d ->
  checked_add_duration period self d = Done (let sum := self + wrap 64 (ticks period d) in if sum <? 2 ^ 64 then Some sum else None).
Proof.
  intros Hp Hd. unfold duration_ok, NANOS_PER_SECOND in Hd. unfold checked_add_duration, udiv. rewrite (proj2 (Z.eqb_neq period 0)) by lia.
  rewrite (wrap_small 128); [done|]. unfold uint_range, FEMTOS_PER_NANO. lia.
Qed.

Lemma checked_since_eq period self earlier : 0 < period <= 10 ^ 15 -> 0 <= earlier -> self < 2 ^ 64 ->
  checked_duration_since period self earlier =
    Done (if self <? earlier then None else Some ((self - earlier) * period / FEMTOS_PER_NANO)).
Proof.
  intros Hp He Hs. unfold checked_duration_since. destruct (Z.ltb_spec self earlier) as [|Hle]; [done|].
  assert (Hb : 0 <= (self - earlier) * period <= (2 ^ 64 - 1) * 10 ^ 15) by nia.
  rewrite (wrap_small 128) by (unfold uint_range; lia). unfold from_nanos_u128.
  destruct (Z.leb_spec (2 ^ 64) ((self - earlier) * period / FEMTOS_PER_NANO / NANOS_PER_SECOND)) as [Hge|]; [|done]. exfalso.
  unfold FEMTOS_PER_NANO, NANOS_PER_SECOND in Hge. Z.div_mod_to_equations. lia.
Qed.

(** ** Properties *)

(** C40: A sleep of 1 to 52631 microseconds programs the counter once, low byte
    first, with a count that is not shorter than the time asked for by more
    than one tick of the timer. *)
Theorem pit_sleep_counts `{Hardware} spins us h h' : 0 < us <= 52631 -> pit_sleep spins us h = (h', Value tt) ->
  (exists es, h' = h ++ es /\ pit_accesses (pit_count us) es) /\
  pit_count us < 2 ^ 16 /\ PIT_DEFAULT_FREQUENCY_HZ * us < (pit_count us + 1) * 1000000.
Proof.
  intros Hu E. apply emits_pit_sleep in E as (es & -> & f & Ef & Hes). rewrite pit_frequency_done in Ef by lia. injection Ef as <-.
  assert (Hq : 19 <= 1000000 / us) by (apply Z.div_le_lower_bound; lia).
  assert (Hqu : (1000000 / us) * us <= 1000000) by (rewrite Z.mul_comm; apply Z.mul_div_le; lia).
  assert (Hc : PIT_DEFAULT_FREQUENCY_HZ / (1000000 / us) < 2 ^ 16).
  { apply Z.div_lt_upper_bound; [lia|]. unfold PIT_DEFAULT_FREQUENCY_HZ. lia. }
  assert (Hlow : PIT_DEFAULT_FREQUENCY_HZ < (1000000 / us) * (PIT_DEFAULT_FREQUENCY_HZ / (1000000 / us) + 1)).
  { rewrite Z.mul_add_distr_l, Z.mul_1_r. pose proof (Z.mod_pos_bound PIT_DEFAULT_FREQUENCY_HZ (1000000 / us) ltac:(lia)).
    pose proof (Z.div_mod PIT_DEFAULT_FREQUENCY_HZ (1000000 / us) ltac:(lia)). lia. }
  assert (H0 : 0 <= PIT_DEFAULT_FREQUENCY_HZ / (1000000 / us)) by (apply Z.div_pos; unfold PIT_DEFAULT_FREQUENCY_HZ; lia).
  unfold pit_count in *. rewrite (Z.mod_small _ _ (conj H0 Hc)) in *. split; [eauto|]. split; [done|].
  set (c := PIT_DEFAULT_FREQUENCY_HZ / (1000000 / us)) in *. nia.
Qed.

(** A longer sleep does not fit the 16-bit counter: its count wraps, and the
    sleep is less than a quarter of the time asked for. *)
Theorem pit_long_sleep_wraps us : 52632 <= us < 2 ^ 16 -> 4 * pit_count us * 1000000 < PIT_DEFAULT_FREQUENCY_HZ * us.
Proof.
  intros Hu. assert (Hq : 15 <= 1000000 / us) by (apply Z.div_le_lower_bound; lia).
  assert (Hq' : 1000000 / us < 19) by (apply Z.div_lt_upper_bound; lia).
  assert (Hqs : 1000000 / us = 15 \/ 1000000 / us = 16 \/ 1000000 / us = 17 \/ 1000000 / us = 18) by lia.
  unfold pit_count, PIT_DEFAULT_FREQUENCY_HZ. destruct Hqs as [->|[->|[->| ->]]]; vm_compute (Z.mul 4 _); lia.
Qed.

(** The duration between an instant and a later one obtained from it by
    adding [d] is [d], up to a tick and a nanosecond. *)
Theorem add_then_since period i d : 0 < period <= 10 ^ 15 -> 0 <= i -> duration_ok d -> i + ticks period d < 2 ^ 64 ->
  exists j d', add_duration period i d = Done j /\ duration_since period j i = Done d' /\
    d' <= d /\ FEMTOS_PER_NANO * d < FEMTOS_PER_NANO * d' + period + FEMTOS_PER_NANO.
Proof.
  intros Hp Hi Hd Hsum. assert (Ht : 0 <= ticks period d) by (apply Z.div_pos; [unfold duration_ok, FEMTOS_PER_NANO in *; lia|lia]).
  exists (i + ticks period d). eexists. unfold add_duration, duration_since. rewrite checked_add_eq by lia || done.
  rewrite (wrap_small 64) by (unfold uint_range; lia). cbv zeta. rewrite (proj2 (Z.ltb_lt (i + ticks period d) (2 ^ 64))) by lia. split; [done|].
  rewrite checked_since_eq by lia. rewrite (proj2 (Z.ltb_ge (i + ticks period d) i)) by lia. split; [done|]. cbn [default].
  replace (i + ticks period d - i) with (ticks period d) by lia. unfold ticks, FEMTOS_PER_NANO.
  pose proof (Z.mul_div_le (d * 1000000) period ltac:(lia)). pose proof (Z.mod_pos_bound (d * 1000000) period ltac:(lia)).
  pose proof (Z.div_mod (d * 1000000) period ltac:(lia)).
  pose proof (Z.div_mod (d * 1000000 / period * period) 1000000 ltac:(lia)).
  pose proof (Z.mod_pos_bound (d * 1000000 / period * period) 1000000 ltac:(lia)). unfold id. lia.
Qed.

(** The time since an instant is never negative: an earlier [self] gives zero. *)
Theorem duration_since_saturates period self earlier : 0 < period <= 10 ^ 15 -> 0 <= self < 2 ^ 64 -> 0 <= earlier < 2 ^ 64 ->
  duration_since period self earlier = Done (Z.max 0 (self - earlier) * period / FEMTOS_PER_NANO).
Proof.
  intros Hp Hs He. unfold duration_since. rewrite checked_since_eq by lia. cbn [mbind exec_bind].
  destruct (Z.ltb_spec self earlier); cbn [default]; [by rewrite Z.max_l by lia|by rewrite Z.max_r by lia].
Qed.

(** [add_duration] is meant to stop at [Instant::MAX], but the number of
    ticks is first cut to 64 bits: a duration of 2^64 ticks adds nothing. *)
Theorem add_duration_cuts_ticks period i d : 0 < period -> duration_ok d -> 0 <= i < 2 ^ 64 -> ticks period d = 2 ^ 64 ->
  add_duration period i d = Done i.
Proof.
  intros Hp Hd Hi Ht. unfold add_duration. rewrite checked_add_eq by done. rewrite Ht. change (wrap 64 (2 ^ 64)) with 0. rewrite Z.add_0_r.
  cbv zeta. by rewrite (proj2 (Z.ltb_lt i (2 ^ 64))) by lia.
Qed.

(** The frequency of the counter: what CPUID reports, or else the ticks of a
    ten millisecond sleep divided by ten; its period in femtoseconds is 10^12
    over it. The sleep is made even when CPUID reports a frequency. *)
Theorem tsc_init_frequency `{Hardware} spins cpuid h h' f p : tsc_init spins cpuid h = (h', Value (f, p)) ->
  has_tsc cpuid = Some true /\ p = FEMTOS_PER_MILLI / f /\ f <> 0 /\
  exists start stop sleep rest, h' = h ++ In Qtsc start :: sleep ++ In Qtsc stop :: rest /\ pit_accesses (pit_count 10000) sleep /\
    f = default (wrap 64 (stop - start) / 10) (reported_frequency cpuid).
Proof.
  intros E. unfold tsc_init in E. destruct (has_tsc cpuid) as [[|]|]; try discriminate E. cbn [default negb] in E. split; [done|].
  apply io_bind_inv in E as (h1 & guess & Eg & E). apply io_bind_inv in E as (h2 & period & Ep & E).
  apply io_bind_inv in E as (h3 & t & Et & E). apply io_bind_inv in E as (h4 & t2 & Ee & E). injection E as <- <- <-.
  unfold guess_frequency in Eg. apply io_bind_inv in Eg as (g1 & start & E1 & Eg). apply io_bind_inv in Eg as (g2 & [] & E2 & Eg).
  apply io_bind_inv in Eg as (g3 & stop & E3 & Eg). injection Eg as <- <-.
  unfold udiv, io_exec in Ep. destruct (Z.eqb_spec (default ((stop ⊟ start) / 10) (reported_frequency cpuid)) 0) as [|Hne]; [discriminate Ep|].
  injection Ep as <- <-. split; [done|]. split; [done|].
  unfold Instant_now in Et. apply emits_read in E1 as (? & -> & -> & _), E3 as (? & -> & -> & _), Et as (? & -> & -> & _).
  apply emits_pit_sleep in E2 as (sleep & -> & fr & Efr & Hs). rewrite pit_frequency_done in Efr by lia. injection Efr as <-.
  apply io_bind_inv in Ee as (h5 & t3 & E5 & Ee). apply emits_read in E5 as (? & -> & -> & _).
  unfold io_exec in Ee. destruct (duration_since _ t3 t) as [el|]; [|discriminate Ee]. injection Ee as <- <-.
  exists start, stop, sleep, [In Qtsc t; In Qtsc t3]. split; [by rewrite <- !app_assoc|]. done.
Qed.

(** ** Witnesses *)

(** A machine whose counter advances by 250000 ticks at every access. *)
Definition steady_machine : Hardware := fun h q => match q with Qtsc => 250000 * Z.of_nat (length h) | _ => 0 end.

Lemma pit_sleep_counts_witness : (exists es, (pit_sleep (H := steady_machine) 1 10000 []).1 = [] ++ es /\ pit_accesses (pit_count 10000) es) /\
  pit_count 10000 < 2 ^ 16 /\ PIT_DEFAULT_FREQUENCY_HZ * 10000 < (pit_count 10000 + 1) * 1000000.
Proof. apply (pit_sleep_counts (H := steady_machine) 1 10000 []); [lia|vm_compute; reflexivity]. Defined.

Lemma pit_long_sleep_wraps_witness : pit_count 60000 = 9037 /\ 4 * pit_count 60000 * 1000000 < PIT_DEFAULT_FREQUENCY_HZ * 60000.
Proof. split; [vm_compute; reflexivity|apply pit_long_sleep_wraps; lia]. Defined.

Lemma add_then_since_witness : exists j d', add_duration 333333 1000 (10 ^ 9) = Done j /\ duration_since 333333 j 1000 = Done d' /\
  d' <= 10 ^ 9 /\ FEMTOS_PER_NANO * 10 ^ 9 < FEMTOS_PER_NANO * d' + 333333 + FEMTOS_PER_NANO.
Proof.
  apply add_then_since; [lia|lia|unfold duration_ok, NANOS_PER_SECOND; lia|].
  apply Z.ltb_lt. vm_compute. reflexivity.
Defined.

Lemma duration_since_saturates_witness : duration_since 333333 1000 5000 = Done (Z.max 0 (1000 - 5000) * 333333 / FEMTOS_PER_NANO).
Proof. apply duration_since_saturates; lia. Defined.

Lemma add_duration_cuts_ticks_witness : add_duration 1000000 5 (2 ^ 64) = Done 5.
Proof.
  apply add_duration_cuts_ticks; [lia|unfold duration_ok, NANOS_PER_SECOND; lia|lia|]. apply Z.eqb_eq. vm_compute. reflexivity.
Defined.

(** A processor that reports no frequency. *)
Definition silent_cpuid : CpuId := mkCpuId (Some true) None None None.

Lemma tsc_init_frequency_witness : exists f p h', tsc_init (H := steady_machine) 1 silent_cpuid [] = (h', Value (f, p)) /\ f = 275000 /\
  p = FEMTOS_PER_MILLI / f /\ exists start stop, f = default (wrap 64 (stop - start) / 10) (reported_frequency silent_cpuid).
Proof.
  destruct (tsc_init_frequency (H := steady_machine) 1 silent_cpuid [] (tsc_init (H := steady_machine) 1 silent_cpuid []).1 275000 3636363)
    as (_ & Hp & _ & start & stop & sleep & rest & _ & _ & Hf); [vm_compute; reflexivity|].
  exists 275000, 3636363. eexists. split; [vm_compute; reflexivity|]. split; [reflexivity|]. split; [exact Hp|]. exists start, stop. exact Hf.
Defined.
