(* ===== verification/Ata.v ===== *)
(** * drivers/ata: programmed I/O on ATA drives

    Models [ata.rs] over [PortIo] and [Clock]: the bus, the selection of a
    drive, commands, identification and the reading of sectors. A method of
    the bus is a computation that changes the bus and may fail with a message
    ([BusM]); the waits end by the clock, after a second. What the driver asks
    of the drive is specified by its accesses ([block_read]). Of [io.rs] the
    errors of a block reader are here. The lock of the buses is the subject of
    [SpinMutex]; the log messages are not modelled. *)

From Stdlib Require Import Lia.
From stdpp Require Import base numbers option tactics strings list.
From S2P Require Import Prelude BitUtils Pod PortIo Clock.

Local Open Scope Z_scope.
Local Open Scope u64_scope.

(** ** The bus *)

Definition SECTOR_SIZE : Z := 512.
Definition DATA_REGISTER_OFFSET : Z := 0.
Definition SECTOR_COUNT_REGISTER_OFFSET : Z := 2.
Definition LBA_LOW_REGISTER_OFFSET : Z := 3.
Definition LBA_MID_REGISTER_OFFSET : Z := 4.
Definition LBA_HIGH_REGISTER_OFFSET : Z := 5.
Definition DRIVE_REGISTER_OFFSET : Z := 6.
Definition STATUS_REGISTER_OFFSET : Z := 7.
Definition COMMAND_REGISTER_OFFSET : Z := 7.
Definition ALT_STATUS_REGISTER_OFFSET : Z := 0.
Definition FLOATING_BUS_STATUS : Z := 0xFF.
Definition READ_COMMAND : Z := 0x20.
Definition IDENTIFY_COMMAND : Z := 0xEC.

Record Bus : Type := mkBus { bus_id : Z; selected_drive : option Z; io_port_base : Z; control_port_base : Z }.

Definition Bus_new (id io_port_base control_port_base : Z) : Bus := mkBus id None io_port_base control_port_base.

(** The static [BUSES]. *)
Definition BUSES : list Bus := [Bus_new 0 0x1F0 0x3F6; Bus_new 1 0x170 0x376].

(** The accessors of the bit field [Status] that the driver uses. *)
Definition Status_error (status : Z) : bool := bit_test 8 status 0.
Definition Status_data_request (status : Z) : bool := bit_test 8 status 3.
Definition Status_busy (status : Z) : bool := bit_test 8 status 7.

Definition io_register (b : Bus) (register : Z) : Z := wrap 16 (io_port_base b + register).

(** Methods of the bus. *)
Definition BusM (A : Type) : Type := Bus -> Io (Bus * result A string).

#[export] Instance BusM_ret : MRet BusM := fun A a b => mret (b, Ok a).
#[export] Instance BusM_bind : MBind BusM := fun A B f m b =>
  '(b, r) ← m b;
  match r with Ok a => f a b | Err e => mret (b, Err e) end.

Definition bus_fail {A} (e : string) : BusM A := fun b => mret (b, Err e).

(** Accesses that depend on the bus but do not change it. *)
Definition bus_io {A} (m : Bus -> Io A) : BusM A := fun b => a ← m b; mret (b, Ok a).

(** [self.selected_drive = Some(drive)]. *)
Definition bus_select (drive : Z) : BusM unit := fun b =>
  mret (mkBus (bus_id b) (Some drive) (io_port_base b) (control_port_base b), Ok tt).

(** The result of a call as a value. *)
Definition attempt {A} (m : BusM A) : BusM (result A string) := fun b => '(b, r) ← m b; mret (b, Ok r).

Section ata.
Context `{Hardware} (period : Z) (spins : nat).

Definition bus_status (b : Bus) : Io Z := read_u8 (wrap 16 (control_port_base b + ALT_STATUS_REGISTER_OFFSET)).
Definition read_data (b : Bus) : Io Z := read_u16 (io_register b DATA_REGISTER_OFFSET).

(** The loop of [Bus::poll]. *)
Fixpoint poll_loop (fuel : nat) (status_check : Z -> bool) (start : Z) (b : Bus) : Io (result unit string) :=
  match fuel with
  | O => io_wait
  | S fuel =>
      s ← bus_status b;
      if status_check s then mret (Ok tt)
      else
        d ← elapsed period start;
        if NANOS_PER_SECOND <? d then mret (Err "poll hangup"%string) else poll_loop fuel status_check start b
  end.

Definition bus_poll (status_check : Z -> bool) : BusM unit := fun b =>
  start ← Instant_now;
  r ← poll_loop spins status_check start b;
  mret (b, r).

(** [while now().duration_since(start) < 400ns {}]. *)
Definition wait_400ns : Io unit :=
  start ← Instant_now;
  spin_until spins (d ← elapsed period start; mret (negb (d <? 400))).

Definition select_drive (drive : Z) : BusM unit :=
  _ ← bus_poll (fun s => negb (Status_busy s));
  _ ← bus_poll (fun s => negb (Status_data_request s));
  b ← bus_io mret;
  if bool_decide (selected_drive b = Some drive) then mret tt
  else
    _ ← bus_select drive;
    _ ← bus_io (fun b => write_u8 (io_register b DRIVE_REGISTER_OFFSET) (Z.lor 0xA0 (wshl 8 drive 4)));
    _ ← bus_io (fun _ => wait_400ns);
    _ ← bus_poll (fun s => negb (Status_busy s));
    bus_poll (fun s => negb (Status_data_request s)).

(** The registers of a command. *)
Definition write_registers (drive block command : Z) (b : Bus) : Io unit :=
  let block_bytes := le_split 4 block in
  _ ← write_u8 (io_register b SECTOR_COUNT_REGISTER_OFFSET) 1;
  _ ← write_u8 (io_register b LBA_LOW_REGISTER_OFFSET) (nth 0 block_bytes 0);
  _ ← write_u8 (io_register b LBA_MID_REGISTER_OFFSET) (nth 1 block_bytes 0);
  _ ← write_u8 (io_register b LBA_HIGH_REGISTER_OFFSET) (nth 2 block_bytes 0);
  _ ← write_u8 (io_register b DRIVE_REGISTER_OFFSET) (Z.lor (nth 3 block_bytes 0) (Z.lor 0xE0 (wshl 8 drive 4)));
  write_u8 (io_register b COMMAND_REGISTER_OFFSET) (wrap 8 command).

Definition ata_command (drive block command : Z) : BusM unit :=
  _ ← bus_io (write_registers drive block command);
  _ ← bus_io (fun _ => wait_400ns);
  _ ← bus_io bus_status;
  _ ← bus_io (fun b => read_u8 (io_register b STATUS_REGISTER_OFFSET));
  s1 ← bus_io bus_status;
  if s1 =? 0 then bus_fail "drive does not exist"
  else
    s2 ← bus_io bus_status;
    if Status_error s2 then bus_fail "failed to write command"
    else
      _ ← bus_poll (fun s => negb (Status_busy s));
      bus_poll Status_data_request.

(** [n] words from the data register. *)
Fixpoint read_data_words (n : nat) (b : Bus) : Io (list Z) :=
  match n with
  | O => mret []
  | S n => w ← read_data b; ws ← read_data_words n b; mret (w :: ws)
  end.

(** [Bus::read]: the bytes that replace the buffer, of [n] words, and the
    verdict of the last status; an error before that leaves the buffer. *)
Definition bus_read (drive block : Z) (n : nat) : BusM (list Z * result unit string) :=
  _ ← select_drive drive;
  _ ← ata_command drive block READ_COMMAND;
  words ← bus_io (read_data_words n);
  s ← bus_io bus_status;
  mret (words ≫= le_split 2, if Status_error s then Err "failed to read bus"%string else Ok tt).

Inductive IdentifyResponse : Type := Pata (words : list Z) | PataPi | Sata | NoDrive.

Definition identify_drive (drive : Z) : BusM IdentifyResponse :=
  s ← bus_io bus_status;
  if s =? FLOATING_BUS_STATUS then mret NoDrive
  else
    _ ← select_drive drive;
    r ← attempt (ata_command drive 0 IDENTIFY_COMMAND);
    match r with
    | Err _ => mret NoDrive
    | Ok _ =>
        mid ← bus_io (fun b => read_u8 (io_register b LBA_MID_REGISTER_OFFSET));
        high ← bus_io (fun b => read_u8 (io_register b LBA_HIGH_REGISTER_OFFSET));
        if (mid =? 0) && (high =? 0) then words ← bus_io (read_data_words 256); mret (Pata words)
        else if (mid =? 0x14) && (high =? 0xEB) then mret PataPi
        else if (mid =? 0x3C) && (high =? 0xC3) then mret Sata
        else bus_fail "unknown device type"
    end.
End ata.

(** ** Drives *)

Record Drive : Type := mkDrive { drive_id : Z; drive_bus : Z; model : list Z; serial : list Z; sector_count : Z }.

(** The characters of some words, most significant byte first, without the
    zeros. *)
Definition word_chars (words : list Z) : list Z :=
  words ≫= fun value => filter (fun c => c <> 0) [wrap 8 (Z.shiftr value 8); wrap 8 value].

(** [str::trim] on characters below 256. *)
Definition is_whitespace (c : Z) : bool := (0x09 <=? c) && (c <=? 0x0D) || (c =? 0x20) || (c =? 0x85) || (c =? 0xA0).
Fixpoint trim_front (s : list Z) : list Z :=
  match s with c :: s' => if is_whitespace c then trim_front s' else s | [] => [] end.
Definition trim (s : list Z) : list Z := reverse (trim_front (reverse (trim_front s))).

(** The words [first..last] of the response. *)
Definition word_range (words : list Z) (first last : nat) : list Z := take (last - first) (drop first words).

Definition identified (bus drive : Z) (buf : list Z) : Drive :=
  let w i := nth i buf 0 in
  let count48 := Z.lor (Z.lor (Z.lor (w 100%nat) (wshl 64 (w 101%nat) 16)) (wshl 64 (w 102%nat) 32)) (wshl 64 (w 103%nat) 48) in
  let count := if count48 =? 0 then Z.lor (w 60%nat) (wshl 64 (w 61%nat) 16) else count48 in
  mkDrive drive bus (trim (word_chars (word_range buf 27 47))) (trim (word_chars (word_range buf 10 20))) (wrap 32 count).

Inductive ReadError : Type :=
  | InvalidBufferLength (length : Z)
  | OffsetPastEnd (offset max_offset : Z)
  | TimedOut
  | OtherError (message : string).

Section drives.
Context `{Hardware} (period : Z) (spins : nat).

(** A method of one of the [BUSES]. *)
Definition with_bus {A} (bus : Z) (m : BusM A) (buses : list Bus) : Io (list Bus * result A string) :=
  b ← io_exec (unwrap (buses !! Z.to_nat bus));
  '(b, r) ← m b;
  mret (<[Z.to_nat bus := b]> buses, r).

Definition Drive_open (bus drive : Z) (buses : list Bus) : Io (list Bus * option Drive) :=
  '(buses, response) ← with_bus bus (identify_drive period spins drive) buses;
  mret (buses, match response with Ok (Pata buf) => Some (identified bus drive buf) | _ => None end).

(** The two loops of [enumerate_drives]. *)
Fixpoint open_all (ids : list (Z * Z)) (buses : list Bus) : Io (list Bus * list Drive) :=
  match ids with
  | [] => mret (buses, [])
  | (bus, disk) :: ids =>
      '(buses, d) ← Drive_open bus disk buses;
      '(buses, drives) ← open_all ids buses;
      mret (buses, option_list d ++ drives)
  end.
Definition enumerate_drives (buses : list Bus) : Io (list Bus * list Drive) := open_all [(0, 0); (0, 1); (1, 0); (1, 1)] buses.

Definition drive_block_size (d : Drive) : Z := SECTOR_SIZE.

(** The loop of [read_blocks] over the blocks from [addend] on. *)
Fixpoint read_loop (n : nat) (d : Drive) (offset addend : Z) (buffer : list Z) (b : Bus) : Io (Bus * (list Z * result unit string)) :=
  match n with
  | O => mret (b, (buffer, Ok tt))
  | S n =>
      let block_start := addend ⊠ SECTOR_SIZE in
      '(b, r) ← bus_read period spins (drive_id d) (wrap 32 (offset ⊞ addend)) (Z.to_nat (SECTOR_SIZE / 2)) b;
      match r with
      | Err e => mret (b, (buffer, Err e))
      | Ok (bytes, verdict) =>
          let buffer := take (Z.to_nat block_start) buffer ++ bytes ++ drop (Z.to_nat (block_start ⊞ SECTOR_SIZE)) buffer in
          match verdict with
          | Err e => mret (b, (buffer, Err e))
          | Ok _ => read_loop n d offset (addend + 1) buffer b
          end
      end
  end.

(** [BlockReader::read_blocks]: the buses, the buffer and the result. *)
Definition read_blocks (d : Drive) (offset : Z) (buffer : list Z) (buses : list Bus) : Io (list Bus * list Z * result Z ReadError) :=
  let len := Z.of_nat (length buffer) in
  if negb (len mod SECTOR_SIZE =? 0) then mret (buses, buffer, Err (InvalidBufferLength len))
  else
    b ← io_exec (unwrap (buses !! Z.to_nat (drive_bus d)));
    '(b, (buffer, r)) ← read_loop (Z.to_nat (len / SECTOR_SIZE)) d offset 0 buffer b;
    mret (<[Z.to_nat (drive_bus d) := b]> buses, buffer, match r with Ok _ => Ok len | Err e => Err (OtherError e) end).
End drives.

(** ** Accesses *)

Definition same_ports (b b' : Bus) : Prop := io_port_base b' = io_port_base b /\ control_port_base b' = control_port_base b.

(** An access that transfers no data and starts no command: a status, the
    clock, or the selection of a drive. *)
Inductive waits (b : Bus) : Event -> Prop :=
  | waits_alt v : waits b (In (Q8 (wrap 16 (control_port_base b + ALT_STATUS_REGISTER_OFFSET))) v)
  | waits_status v : waits b (In (Q8 (io_register b STATUS_REGISTER_OFFSET)) v)
  | waits_clock v : waits b (In Qtsc v)
  | waits_select v : waits b (Out8 (io_register b DRIVE_REGISTER_OFFSET) v).

Definition quiet (b : Bus) (es : list Event) : Prop := Forall (waits b) es.

Lemma waits_same b b' e : same_ports b b' -> waits b' e -> waits b e.
Proof. intros [Hi Hc]. unfold io_register in *. intros []; unfold io_register in *; rewrite ?Hi, ?Hc; constructor. Qed.

Lemma quiet_same b b' es : same_ports b b' -> quiet b' es -> quiet b es.
Proof. intros Hs Hq. eapply Forall_impl; [exact Hq|]. intros e. by apply waits_same. Qed.

Lemma same_ports_trans b b1 b2 : same_ports b b1 -> same_ports b1 b2 -> same_ports b b2.
Proof. unfold same_ports. intros [-> ->] [-> ->]. done. Qed.

Definition bus_emits {A} (m : BusM A) (P : Bus -> list Event -> Bus -> result A string -> Prop) : Prop :=
  forall b, emits (m b) (fun es p => P b es p.1 p.2).

(** A method that only waits. *)
Definition only_waits {A} (m : BusM A) : Prop := bus_emits m (fun b es b' _ => quiet b es /\ same_ports b b').

(** An access that only waits. *)
Definition io_waits {A} (m : Bus -> Io A) : Prop := forall b, emits (m b) (fun es _ => quiet b es).

Section specs.
Context `{Hardware} (period : Z) (spins : nat).

Lemma bus_emits_bind {A B} (m : BusM A) (f : A -> BusM B) P (R : A -> Bus -> list Event -> Bus -> result B string -> Prop) Q :
  bus_emits m P -> (forall a, bus_emits (f a) (R a)) -> (forall b es b' e, P b es b' (Err e) -> Q b es b' (Err e)) ->
  (forall a b es1 b1 es2 b2 r, P b es1 b1 (Ok a) -> R a b1 es2 b2 r -> Q b (es1 ++ es2) b2 r) -> bus_emits (m ≫= f) Q.
Proof.
  intros Hm Hf He HQ b h h' [b2 r] E. unfold mbind at 1, BusM_bind in E. apply io_bind_inv in E as (h1 & [b1 [a|e]] & E1 & E).
  - destruct (Hm b _ _ _ E1) as (es1 & -> & HP). destruct (Hf a b1 _ _ _ E) as (es2 & -> & HR). exists (es1 ++ es2).
    rewrite app_assoc. split; [done|]. by eapply HQ.
  - destruct (Hm b _ _ _ E1) as (es1 & -> & HP). injection E as <- <- <-. exists es1. split; [done|]. by apply He.
Qed.

Lemma bus_emits_io {A} (m : Bus -> Io A) (P : Bus -> list Event -> A -> Prop) : (forall b, emits (m b) (P b)) ->
  bus_emits (bus_io m) (fun b es b' r => b' = b /\ exists a, r = Ok a /\ P b es a).
Proof.
  intros Hm b h h' [b2 r] E. unfold bus_io in E. apply io_bind_inv in E as (h1 & a & E1 & E). injection E as <- <- <-.
  destruct (Hm b _ _ _ E1) as (es & -> & HP). eauto 7.
Qed.

Lemma only_waits_bind {A B} (m : BusM A) (f : A -> BusM B) : only_waits m -> (forall a, only_waits (f a)) -> only_waits (m ≫= f).
Proof.
  intros Hm Hf. eapply (bus_emits_bind m f _ (fun _ b es b' _ => quiet b es /\ same_ports b b')); [exact Hm|exact Hf|done|]. cbn. intros a b es1 b1 es2 b2 r [Hq1 Hs1] [Hq2 Hs2].
  split; [apply Forall_app; split; [done|by eapply quiet_same]|by eapply same_ports_trans].
Qed.

Lemma only_waits_ret {A} (a : A) : only_waits (mret a).
Proof. intros b h h' [b2 r] [= <- <- <-]. exists []. rewrite app_nil_r. repeat split. constructor. Qed.

Lemma only_waits_fail {A} e : only_waits (A := A) (bus_fail e).
Proof. intros b h h' [b2 r] [= <- <- <-]. exists []. rewrite app_nil_r. repeat split. constructor. Qed.

Lemma only_waits_select drive : only_waits (bus_select drive).
Proof. intros b h h' [b2 r] [= <- <- <-]. exists []. rewrite app_nil_r. repeat split. constructor. Qed.

Lemma only_waits_io {A} (m : Bus -> Io A) : io_waits m -> only_waits (bus_io m).
Proof.
  intros Hm b h h' p E. apply (bus_emits_io m (fun b es _ => quiet b es) Hm) in E as (es & -> & Hb & a & Hr & Hq). exists es. rewrite Hb. repeat split; done.
Qed.

Lemma io_waits_ret {A} (f : Bus -> A) : io_waits (fun b => mret (f b)).
Proof. intros b. eapply emits_conseq; [apply emits_ret|]. intros es a [-> _]. constructor. Qed.

Lemma io_waits_bind {A B} (m : Bus -> Io A) (f : A -> Bus -> Io B) : io_waits m -> (forall a, io_waits (f a)) ->
  io_waits (fun b => a ← m b; f a b).
Proof.
  intros Hm Hf b. eapply emits_bind; [apply Hm|intros a; apply Hf|]. cbn. intros a c es1 es2. intros. by apply Forall_app.
Qed.

Lemma io_waits_status : io_waits bus_status.
Proof. intros b. eapply emits_conseq; [apply emits_read|]. intros es a [-> _]. repeat constructor. Qed.

Lemma io_waits_clock : io_waits (fun _ => Instant_now).
Proof. intros b. eapply emits_conseq; [apply emits_read|]. intros es a [-> _]. repeat constructor. Qed.

Lemma io_waits_exec {A} (m : exec A) : io_waits (fun _ => io_exec m).
Proof. destruct m; [apply io_waits_ret|]. intros b. apply emits_panic. Qed.

Lemma io_waits_elapsed start : io_waits (fun _ => elapsed period start).
Proof. apply io_waits_bind; [apply io_waits_clock|intros t; apply io_waits_exec]. Qed.

Lemma io_waits_poll_loop fuel check start : io_waits (poll_loop period fuel check start).
Proof.
  induction fuel as [|fuel IH]; [intros b; apply emits_wait|]. apply io_waits_bind; [apply io_waits_status|]. intros s.
  destruct (check s); [apply io_waits_ret|]. apply (io_waits_bind (fun _ => elapsed period start)); [apply io_waits_elapsed|]. intros d.
  destruct (_ <? _); [apply io_waits_ret|exact IH].
Qed.

Lemma only_waits_poll check : only_waits (bus_poll period spins check).
Proof.
  intros b h h' [b2 r] E. unfold bus_poll in E. apply io_bind_inv in E as (h1 & start & E1 & E). apply io_bind_inv in E as (h2 & r2 & E2 & E).
  injection E as <- <- <-. apply (io_waits_clock b) in E1 as (es1 & -> & Hq1). apply io_waits_poll_loop in E2 as (es2 & -> & Hq2).
  exists (es1 ++ es2). rewrite app_assoc. split; [done|]. split; [by apply Forall_app|done].
Qed.

Lemma io_waits_400ns : io_waits (fun _ => wait_400ns period spins).
Proof.
  apply io_waits_bind; [apply io_waits_clock|]. intros start b.
  eapply emits_conseq; [apply (emits_spin _ _ (quiet b) (quiet b))|].
  - eapply emits_bind; [apply (io_waits_elapsed start b)|intros d; apply emits_ret|]. cbn. intros d c es1 es2 Hq [-> _]. rewrite app_nil_r. by destruct c.
  - intros es a. induction 1; [done|]. by apply Forall_app.
Qed.

Lemma only_waits_select_drive drive : only_waits (select_drive period spins drive).
Proof.
  apply only_waits_bind; [apply only_waits_poll|intros _]. apply only_waits_bind; [apply only_waits_poll|intros _].
  apply only_waits_bind; [apply only_waits_io, (io_waits_ret (fun b => b))|intros b]. case_if; [apply only_waits_ret|].
  apply only_waits_bind; [apply only_waits_select|intros _]. apply only_waits_bind.
  { apply only_waits_io. intros b0. eapply emits_conseq; [apply emits_write|]. intros es a ->. repeat constructor. }
  intros _. apply only_waits_bind; [apply only_waits_io, io_waits_400ns|intros _].
  apply only_waits_bind; [apply only_waits_poll|intros _]. apply only_waits_poll.
Qed.
End specs.

(** ** Commands and sectors *)

(** The accesses that write a command. *)
Definition command_accesses (b : Bus) (drive block command : Z) : list Event :=
  [Out8 (io_register b SECTOR_COUNT_REGISTER_OFFSET) 1;
   Out8 (io_register b LBA_LOW_REGISTER_OFFSET) (block mod 2 ^ 8);
   Out8 (io_register b LBA_MID_REGISTER_OFFSET) (block / 2 ^ 8 mod 2 ^ 8);
   Out8 (io_register b LBA_HIGH_REGISTER_OFFSET) (block / 2 ^ 16 mod 2 ^ 8);
   Out8 (io_register b DRIVE_REGISTER_OFFSET) (Z.lor (block / 2 ^ 24 mod 2 ^ 8) (Z.lor 0xE0 (wshl 8 drive 4)));
   Out8 (io_register b COMMAND_REGISTER_OFFSET) (wrap 8 command)].

(** What the drive makes of the registers of a command: the drive, the
    block and the command. *)
Definition decode_command (es : list Event) : option (Z * Z * Z) :=
  match es with
  | [Out8 _ _; Out8 _ low; Out8 _ mid; Out8 _ high; Out8 _ drive; Out8 _ command] =>
      Some (Z.b2z (Z.testbit drive 4), low + 2 ^ 8 * mid + 2 ^ 16 * high + 2 ^ 24 * (drive mod 2 ^ 4), command)
  | _ => None
  end.

(** One block of [n] words: the command, and then the words, with nothing
    but waits in between, and a last status without the error bit. *)
Definition block_read (b : Bus) (drive block : Z) (n : nat) (bytes : list Z) (es : list Event) : Prop := exists pre mid words st,
  es = pre ++ command_accesses b drive block READ_COMMAND ++ mid ++
    ((fun w => In (Q16 (io_register b DATA_REGISTER_OFFSET)) w) <$> words) ++
    [In (Q8 (wrap 16 (control_port_base b + ALT_STATUS_REGISTER_OFFSET))) st] /\
  quiet b pre /\ quiet b mid /\ length words = n /\ bytes = words ≫= le_split 2 /\ Z.testbit st 0 = false.

(** The sectors from the block [offset + addend] on. *)
Inductive sectors_read (b : Bus) (drive offset : Z) : Z -> list (list Z) -> list Event -> Prop :=
  | sectors_nil addend : sectors_read b drive offset addend [] []
  | sectors_cons addend bytes sectors es1 es2 : block_read b drive (wrap 32 (offset ⊞ addend)) 256 bytes es1 ->
      sectors_read b drive offset (addend + 1) sectors es2 ->
      sectors_read b drive offset addend (bytes :: sectors) (es1 ++ es2).

Lemma command_accesses_same b b' drive block command : same_ports b b' -> command_accesses b' drive block command = command_accesses b drive block command.
Proof. intros [Hi _]. unfold command_accesses, io_register. by rewrite Hi. Qed.

Lemma block_read_same b b' drive block n bytes es : same_ports b b' -> block_read b' drive block n bytes es -> block_read b drive block n bytes es.
Proof.
  intros Hs (pre & mid & words & st & -> & Hp & Hm & Hw & Hb & Hst). exists pre, mid, words, st. rewrite (command_accesses_same _ _ _ _ _ Hs).
  pose proof Hs as [Hi Hc]. unfold io_register. rewrite Hi, Hc. repeat (split; [first [done|by eapply quiet_same]|]). done.
Qed.

Lemma sectors_read_same b b' drive offset addend sectors es : same_ports b b' ->
  sectors_read b' drive offset addend sectors es -> sectors_read b drive offset addend sectors es.
Proof. intros Hs. induction 1; constructor; [by eapply block_read_same|done]. Qed.

Lemma split_4_bytes block : le_split 4 block = [block mod 2 ^ 8; block / 2 ^ 8 mod 2 ^ 8; block / 2 ^ 16 mod 2 ^ 8; block / 2 ^ 24 mod 2 ^ 8].
Proof.
  cbn [le_split]. rewrite !Z.div_div by lia. reflexivity.
Qed.

Lemma words_bytes words : length (words ≫= le_split 2) = (2 * length words)%nat.
Proof. induction words as [|w words IH]; [done|]. cbn [mbind list_bind]. rewrite length_app, IH, le_split_length. cbn [length]. lia. Qed.

Section command_specs.
Context `{Hardware} (period : Z) (spins : nat).

Lemma emits_registers drive block command b : emits (write_registers drive block command b)
  (fun es _ => es = command_accesses b drive block command).
Proof.
  intros h h' [] E. unfold write_registers in E. rewrite split_4_bytes in E. cbn [nth] in E.
  cbv [mbind Io_bind write_u8] in E. rewrite <- !app_assoc in E. injection E as <-. eexists. split; reflexivity.
Qed.

Lemma emits_command drive block command : bus_emits (ata_command period spins drive block command)
  (fun b es b' _ => same_ports b b' /\ exists rest, es = command_accesses b drive block command ++ rest /\ quiet b rest).
Proof.
  eapply (bus_emits_bind _ _ _ (fun _ b es b' _ => quiet b es /\ same_ports b b')).
  - apply (bus_emits_io _ (fun b es _ => es = command_accesses b drive block command)). intros b. apply emits_registers.
  - intros _. apply only_waits_bind; [apply only_waits_io, io_waits_400ns|intros _].
    apply only_waits_bind; [apply only_waits_io, io_waits_status|intros _]. apply only_waits_bind.
    { apply only_waits_io. intros b. eapply emits_conseq; [apply emits_read|]. intros es a [-> _]. repeat constructor. }
    intros _. apply only_waits_bind; [apply only_waits_io, io_waits_status|intros s1]. case_if; [apply only_waits_fail|].
    apply only_waits_bind; [apply only_waits_io, io_waits_status|intros s2]. case_if; [apply only_waits_fail|].
    apply only_waits_bind; [apply only_waits_poll|intros _; apply only_waits_poll].
  - intros b es b' e (_ & a & Ha & _). discriminate Ha.
  - intros a b es1 b1 es2 b2 r (-> & a' & _ & ->) [Hq Hs]. eauto.
Qed.

Lemma emits_words n b : emits (read_data_words n b) (fun es words =>
  es = (fun w => In (Q16 (io_register b DATA_REGISTER_OFFSET)) w) <$> words /\ length words = n).
Proof.
  induction n as [|n IH]; cbn [read_data_words]; [eapply emits_conseq; [apply emits_ret|]; by intros es a [-> ->]|].
  eapply (emits_bind _ _ _ _ (fun w es ws => exists ws', ws = w :: ws' /\
    es = (fun w => In (Q16 (io_register b DATA_REGISTER_OFFSET)) w) <$> ws' /\ length ws' = n)); [apply emits_read| |].
  - intros w. eapply emits_bind; [exact IH|intros ws; apply emits_ret|]. cbn. intros ws ws' es1 es2 [-> Hl] [-> ->].
    rewrite app_nil_r. eauto.
  - cbn. intros w ws es1 es2 [-> _] (ws' & -> & -> & <-). done.
Qed.

(** What [Bus::read] does when it gets as far as the last status. *)
Lemma emits_bus_read drive block n : bus_emits (bus_read period spins drive block n) (fun b es b' r => same_ports b b' /\
  match r with
  | Ok (bytes, verdict) => length bytes = (2 * n)%nat /\ (verdict = Ok tt -> block_read b drive block n bytes es)
  | Err _ => True
  end).
Proof.
  intros b h h' [b' r] E. unfold bus_read, mbind at 1, BusM_bind in E. apply io_bind_inv in E as (h1 & [b1 r1] & E1 & E).
  apply (only_waits_select_drive period spins drive b) in E1 as (pre & -> & Hpre & Hs1). cbn [fst snd] in *.
  destruct r1 as [a|e]; [|injection E as <- <- <-; eauto]. apply io_bind_inv in E as (h2 & [b2 r2] & E2 & E).
  apply (emits_command drive block READ_COMMAND b1) in E2 as (es2 & -> & Hs2 & mid & Hes2 & Hmid). cbn [fst snd] in *.
  rewrite (command_accesses_same _ _ _ _ _ Hs1) in Hes2.
  pose proof (same_ports_trans _ _ _ Hs1 Hs2) as Hs.
  destruct r2 as [a2|e]; [|injection E as <- <- <-; rewrite <- app_assoc; eauto].
  apply io_bind_inv in E as (h3 & [b3 r3] & E3 & E). unfold bus_io in E3. apply io_bind_inv in E3 as (h4 & words & E4 & E3).
  injection E3 as <- <- <-. apply emits_words in E4 as (es4 & -> & -> & Hl). apply io_bind_inv in E as (h5 & [b5 r5] & E5 & E).
  unfold bus_io in E5. apply io_bind_inv in E5 as (h6 & st & E6 & E5). injection E5 as <- <- <-.
  apply emits_read in E6 as (es6 & -> & -> & _). injection E as <- <- <-. rewrite <- !app_assoc. eexists. split; [done|]. split; [done|].
  split.
  { by rewrite words_bytes, Hl. }
  intros Hv. exists pre, mid, words, st. rewrite Hes2.
  pose proof Hs as [Hi Hc]. split; [unfold io_register; rewrite Hi, Hc; by rewrite <- ?app_assoc|].
  split; [done|]. split; [exact (quiet_same _ _ _ Hs1 Hmid)|]. split; [done|]. split; [done|].
  unfold Status_error in Hv. rewrite bit_test_spec in Hv by lia. by destruct (Z.testbit st 0).
Qed.
End command_specs.

(** ** Reading blocks *)

Section blocks.
Context `{Hardware} (period : Z) (spins : nat).

(** A buffer of whole sectors, the first [addend] of which are done. *)
Lemma read_loop_spec d offset n : forall addend done_bytes rest b h h' b' buffer',
  0 <= addend -> Z.of_nat (length done_bytes) = addend * SECTOR_SIZE -> Z.of_nat (length rest) = Z.of_nat n * SECTOR_SIZE ->
  (addend + Z.of_nat n) * SECTOR_SIZE < 2 ^ 64 ->
  read_loop period spins n d offset addend (done_bytes ++ rest) b h = (h', Value (b', (buffer', Ok tt))) ->
  exists sectors es, h' = h ++ es /\ buffer' = done_bytes ++ concat sectors /\ length sectors = n /\
    sectors_read b (drive_id d) offset addend sectors es.
Proof.
  unfold SECTOR_SIZE. induction n as [|n IH]; intros addend done_bytes rest b h h' b' buffer' Ha Hd Hr Hb E.
  { injection E as <- <- <-. destruct rest; [|cbn [length] in Hr; lia]. exists [], []. cbn [concat]. rewrite !app_nil_r. repeat split. constructor. }
  cbn [read_loop] in E. apply io_bind_inv in E as (h1 & [b1 r] & E1 & E).
  apply (emits_bus_read period spins (drive_id d) (wrap 32 (offset ⊞ addend)) (Z.to_nat (SECTOR_SIZE / 2)) b) in E1 as (es1 & -> & Hs & Hr1).
  cbn [fst snd] in *. destruct r as [[bytes verdict]|e]; [|discriminate E]. destruct Hr1 as [Hl Hv].
  destruct verdict as [[]|e]; [|discriminate E]. specialize (Hv eq_refl).
  assert (Hlb : Z.of_nat (length bytes) = 512) by (rewrite Hl; reflexivity).
  unfold SECTOR_SIZE in E. rewrite (wrap_small 64 (addend * 512)) in E by (unfold uint_range; lia).
  rewrite (wrap_small 64 (addend * 512 + 512)) in E by (unfold uint_range; lia).
  replace (Z.to_nat (addend * 512)) with (length done_bytes) in E by lia.
  replace (Z.to_nat (addend * 512 + 512)) with (length done_bytes + length bytes)%nat in E by lia.
  rewrite take_app_length, drop_app_add, app_assoc in E.
  apply IH in E as (sectors & es2 & -> & -> & <- & Hss); [|lia|rewrite length_app; lia|rewrite length_drop; lia|lia].
  exists (bytes :: sectors), (es1 ++ es2). cbn [concat length]. rewrite !app_assoc. repeat split.
  constructor; [exact Hv|]. by eapply sectors_read_same.
Qed.
End blocks.

(** ** Identification *)

(** The words of an identify response that hold the number of sectors. *)
Definition wide_count (buf : list Z) : Z := nth 100 buf 0 + 2 ^ 16 * nth 101 buf 0 + 2 ^ 32 * nth 102 buf 0 + 2 ^ 48 * nth 103 buf 0.
Definition narrow_count (buf : list Z) : Z := nth 60 buf 0 + 2 ^ 16 * nth 61 buf 0.

Lemma lor_shifted a b k : 0 <= a < 2 ^ k -> 0 <= b < 2 ^ 16 -> 0 <= k <= 48 -> Z.lor a (wshl 64 b k) = a + 2 ^ k * b.
Proof.
  intros Ha Hb Hk. assert (Hp : 0 < 2 ^ k <= 2 ^ 48) by (split; [lia|apply Z.pow_le_mono_r; lia]).
  assert (E : wshl 64 b k = 2 ^ k * b).
  { unfold wshl. rewrite (Z.mod_small k) by lia. rewrite Z.shiftl_mul_pow2 by lia. rewrite wrap_small; [lia|]. unfold uint_range. nia. }
  rewrite E, Z.lor_comm, (lor_disjoint_add k); [lia|lia|nia| |done]. rewrite Z.mul_comm, Z.mod_mul by lia. done.
Qed.

Lemma identified_count bus drive buf : Forall (uint_range 16) buf -> length buf = 256%nat ->
  sector_count (identified bus drive buf) = wrap 32 (if wide_count buf =? 0 then narrow_count buf else wide_count buf).
Proof.
  intros Hu Hl. assert (Hw : forall i, (i < 256)%nat -> 0 <= nth i buf 0 < 2 ^ 16).
  { intros i Hi. rewrite Forall_lookup in Hu. destruct (lookup_lt_is_Some_2 buf i) as [w Hw]; [by rewrite Hl|].
    rewrite (nth_lookup_Some _ _ _ _ Hw). by apply (Hu i). }
  pose proof (Hw 100%nat ltac:(lia)). pose proof (Hw 101%nat ltac:(lia)). pose proof (Hw 102%nat ltac:(lia)). pose proof (Hw 103%nat ltac:(lia)).
  pose proof (Hw 60%nat ltac:(lia)). pose proof (Hw 61%nat ltac:(lia)).
  unfold identified, wide_count, narrow_count. cbn [sector_count]. cbv zeta. 
  rewrite (lor_shifted (nth 60 buf 0)), (lor_shifted (nth 100 buf 0) (nth 101 buf 0)) by lia.
  rewrite (lor_shifted (_ + _) (nth 102 buf 0)) by lia. rewrite (lor_shifted (_ + _) (nth 103 buf 0)) by lia. done.
Qed.

Lemma decode_command_accesses b drive block command : 0 <= drive < 2 -> 0 <= block < 2 ^ 28 -> 0 <= command < 256 ->
  decode_command (command_accesses b drive block command) = Some (drive, block, command).
Proof.
  intros Hd Hb Hc. unfold command_accesses, decode_command. rewrite (wrap_small 8 command) by (unfold uint_range; lia).
  assert (Hk : 0 <= block / 2 ^ 24 < 16) by (split; [apply Z.div_pos; lia|apply Z.div_lt_upper_bound; lia]).
  rewrite (Z.mod_small (block / 2 ^ 24)) by lia.
  assert (E : forall d k, 0 <= d < 2 -> 0 <= k < 16 -> Z.lor k (Z.lor 0xE0 (wshl 8 d 4)) = 0xE0 + 16 * d + k).
  { intros d k Hd' Hk'. assert (d = 0 \/ d = 1) as [-> | ->] by lia; (change (wshl 8 0 4) with 0 || change (wshl 8 1 4) with 16);
      rewrite Z.lor_comm; apply (lor_disjoint_add 4); unfold uint_range; cbn; lia || done. }
  rewrite E by lia.
  assert (E1 : Z.b2z (Z.testbit (0xE0 + 16 * drive + block / 2 ^ 24) 4) = drive).
  { rewrite Z.testbit_spec' by lia. change (2 ^ 4) with 16. Z.div_mod_to_equations. lia. }
  assert (E2 : block mod 2 ^ 8 + 2 ^ 8 * (block / 2 ^ 8 mod 2 ^ 8) + 2 ^ 16 * (block / 2 ^ 16 mod 2 ^ 8) +
    2 ^ 24 * ((0xE0 + 16 * drive + block / 2 ^ 24) mod 2 ^ 4) = block).
  { replace ((0xE0 + 16 * drive + block / 2 ^ 24) mod 2 ^ 4) with (block / 2 ^ 24) by (change (2 ^ 4) with 16; Z.div_mod_to_equations; lia).
    change (2 ^ 8) with 256. change (2 ^ 16) with 65536. change (2 ^ 24) with 16777216. Z.div_mod_to_equations; lia. }
  by rewrite E1, E2.
Qed.

Lemma command_accesses_overlap b block command : 0 <= block < 2 ^ 28 ->
  command_accesses b 0 (2 ^ 28 + block) command = command_accesses b 1 block command.
Proof.
  intros Hb.
  unfold command_accesses.
  replace ((2 ^ 28 + block) / 2 ^ 8 mod 2 ^ 8) with (block / 2 ^ 8 mod 2 ^ 8) by (change (2 ^ 28) with 268435456; change (2 ^ 8) with 256; Z.div_mod_to_equations; lia).
  replace ((2 ^ 28 + block) / 2 ^ 16 mod 2 ^ 8) with (block / 2 ^ 16 mod 2 ^ 8)
    by (change (2 ^ 28) with 268435456; change (2 ^ 16) with 65536; change (2 ^ 8) with 256; Z.div_mod_to_equations; lia).
  replace ((2 ^ 28 + block) mod 2 ^ 8) with (block mod 2 ^ 8) by (change (2 ^ 28) with 268435456; change (2 ^ 8) with 256; Z.div_mod_to_equations; lia).
  replace ((2 ^ 28 + block) / 2 ^ 24) with (16 + block / 2 ^ 24) by (change (2 ^ 28) with 268435456; change (2 ^ 24) with 16777216; Z.div_mod_to_equations; lia).
  assert (Hk : 0 <= block / 2 ^ 24 < 16) by (split; [apply Z.div_pos; lia|apply Z.div_lt_upper_bound; lia]).
  rewrite (Z.mod_small (16 + block / 2 ^ 24)), (Z.mod_small (block / 2 ^ 24)) by lia.
  replace (Z.lor (16 + block / 2 ^ 24) (Z.lor 0xE0 (wshl 8 0 4))) with (Z.lor (block / 2 ^ 24) (Z.lor 0xE0 (wshl 8 1 4))); [done|].
  change (Z.lor 0xE0 (wshl 8 0 4)) with 0xE0. change (Z.lor 0xE0 (wshl 8 1 4)) with 0xF0.
  rewrite !(Z.lor_comm (_ + _)), !(Z.lor_comm (block / 2 ^ 24)). change 0xF0 with (Z.lor 0xE0 16) at 1.
  rewrite <- (lor_disjoint_add 4 16 (block / 2 ^ 24)) by (unfold uint_range; lia || done). by rewrite Z.lor_assoc.
Qed.

(** ** Properties *)

(** C34: A successful read fills the buffer with the words of its blocks, in
    order: each block is asked for with its own command, the block number
    taken modulo 2^32, and all of its 256 words are read before the next
    command. *)
Theorem read_blocks_reads `{Hardware} period spins d offset buffer buses h h' buses' buffer' len :
  Z.of_nat (length buffer) < 2 ^ 64 ->
  read_blocks period spins d offset buffer buses h = (h', Value (buses', buffer', Ok len)) ->
  exists b sectors es, buses !! Z.to_nat (drive_bus d) = Some b /\ h' = h ++ es /\ buffer' = concat sectors /\
    len = Z.of_nat (length buffer) /\ len = SECTOR_SIZE * Z.of_nat (length sectors) /\
    sectors_read b (drive_id d) offset 0 sectors es.
Proof.
  intros Hb E. unfold read_blocks in E. destruct (Z.eqb_spec (Z.of_nat (length buffer) mod SECTOR_SIZE) 0) as [Hm|]; [|discriminate E].
  cbn [negb] in E. apply io_bind_inv in E as (h1 & b & E1 & E). destruct (buses !! Z.to_nat (drive_bus d)) as [b0|]; [|discriminate E1].
  injection E1 as <- <-. apply io_bind_inv in E as (h2 & (b2 & buf2 & r) & E2 & E). injection E as <- <- <- Hr.
  destruct r as [[]|e]; [|discriminate Hr]. injection Hr as <-.
  assert (Hl : Z.of_nat (length buffer) = Z.of_nat (Z.to_nat (Z.of_nat (length buffer) / SECTOR_SIZE)) * SECTOR_SIZE).
  { unfold SECTOR_SIZE in *. Z.div_mod_to_equations. lia. }
  apply (read_loop_spec period spins d offset _ 0 [] buffer) in E2 as (sectors & es & -> & -> & Hn & Hs); [|lia|done|exact Hl|lia].
  exists b0, sectors, es. repeat split; [by rewrite Hn; lia|exact Hs].
Qed.

(** The registers of a command address the drive and the block, if the block
    number has 28 bits; with the next bit set, a block of the first drive
    addresses the second. *)
Theorem command_addresses_block b drive block command : 0 <= drive < 2 -> 0 <= block < 2 ^ 28 -> 0 <= command < 256 ->
  decode_command (command_accesses b drive block command) = Some (drive, block, command) /\
  decode_command (command_accesses b 0 (2 ^ 28 + block) command) = Some (1, block, command).
Proof.
  intros Hd Hb Hc. split; [by apply decode_command_accesses|]. rewrite command_accesses_overlap by done. by apply decode_command_accesses.
Qed.

(** A counter that advances by [rate] with every access. *)
Definition ticking `{Hardware} (rate : Z) : Prop :=
  forall h, Z.of_nat (length h) * rate < 2 ^ 64 -> answer h Qtsc = rate * Z.of_nat (length h).

Lemma rdtsc_ticking `{Hardware} rate h : ticking rate -> 0 < rate -> Z.of_nat (length h) * rate < 2 ^ 64 ->
  rdtsc h = (h ++ [In Qtsc (rate * Z.of_nat (length h))], Value (rate * Z.of_nat (length h))).
Proof.
  intros Ht Hr Hl. unfold rdtsc, port_read. cbn [query_width]. rewrite Ht by done. rewrite wrap_small by (unfold uint_range; nia). done.
Qed.

Lemma poll_loop_ends `{Hardware} period rate check b since fuel : forall h, ticking rate -> 0 < period <= 10 ^ 15 -> 0 < rate -> (0 < fuel)%nat ->
  0 <= since <= Z.of_nat (length h) -> (Z.of_nat (length h) + 2 * Z.of_nat fuel) * rate < 2 ^ 64 ->
  (NANOS_PER_SECOND + 1) * FEMTOS_PER_NANO <= (Z.of_nat (length h) + 2 * Z.of_nat fuel - 1 - since) * rate * period ->
  exists h' r, poll_loop period fuel check (rate * since) b h = (h', Value r) /\ (r = Ok tt \/ r = Err "poll hangup"%string) /\
    ((forall v, check v = false) -> r = Err "poll hangup"%string).
Proof.
  induction fuel as [|fuel IH]; intros h Ht Hp Hr Hf Hs Hfit Hlong; [lia|]. cbn [poll_loop].
  set (v := wrap 8 (answer h (Q8 (wrap 16 (control_port_base b + ALT_STATUS_REGISTER_OFFSET))))).
  rewrite (io_step _ _ h (h ++ [In (Q8 (wrap 16 (control_port_base b + ALT_STATUS_REGISTER_OFFSET))) v]) v) by done.
  destruct (check v) eqn:Ec; [by eexists _, _; split; [reflexivity|]; split; [left|intros Hn; rewrite Hn in Ec]|].
  set (h1 := h ++ [_]). assert (Hl1 : Z.of_nat (length h1) = Z.of_nat (length h) + 1) by (unfold h1; rewrite length_app; cbn [length]; lia).
  assert (Et : elapsed period (rate * since) h1 =
    (h1 ++ [In Qtsc (rate * Z.of_nat (length h1))], Value ((Z.of_nat (length h1) - since) * rate * period / FEMTOS_PER_NANO))).
  { unfold elapsed, Instant_now. rewrite (io_step _ _ _ _ _ (rdtsc_ticking rate h1 Ht Hr ltac:(nia))). unfold duration_since.
    rewrite checked_since_eq by nia. cbn [mbind exec_bind io_exec]. rewrite (proj2 (Z.ltb_ge _ _)) by nia. cbn [default]. unfold id.
    replace (rate * Z.of_nat (length h1) - rate * since) with ((Z.of_nat (length h1) - since) * rate) by lia. reflexivity. }
  rewrite (io_step _ _ _ _ _ Et). destruct (Z.ltb_spec NANOS_PER_SECOND ((Z.of_nat (length h1) - since) * rate * period / FEMTOS_PER_NANO)) as [|Hge];
    [by eexists _, _; split; [reflexivity|]; split; [right|]|].
  destruct fuel as [|fuel].
  - exfalso. assert (NANOS_PER_SECOND + 1 <= (Z.of_nat (length h1) - since) * rate * period / FEMTOS_PER_NANO); [|lia].
    apply Z.div_le_lower_bound; [done|]. rewrite Z.mul_comm. etransitivity; [exact Hlong|]. rewrite Hl1. apply Z.eq_le_incl. f_equal. lia.
  - assert (Hl2 : Z.of_nat (length (h1 ++ [In Qtsc (rate * Z.of_nat (length h1))])) = Z.of_nat (length h) + 2)
      by (rewrite length_app, Nat2Z.inj_add, Hl1; cbn [length]; lia).
    apply IH; rewrite ?Hl2; try done; try lia.
Qed.

(** A wait for the drive ends, with success or after a second with an error,
    when the counter advances by [rate] with every access; it is the error
    when the drive never gets ready. *)
Theorem poll_ends `{Hardware} period spins rate check b h :
  ticking rate -> 0 < period <= 10 ^ 15 -> 0 < rate -> (0 < spins)%nat -> (Z.of_nat (length h) + 2 * Z.of_nat spins + 1) * rate < 2 ^ 64 ->
  (NANOS_PER_SECOND + 1) * FEMTOS_PER_NANO <= (2 * Z.of_nat spins - 1) * rate * period ->
  exists h' r, bus_poll period spins check b h = (h', Value (b, r)) /\ (r = Ok tt \/ r = Err "poll hangup"%string) /\
    ((forall v, check v = false) -> r = Err "poll hangup"%string).
Proof.
  intros Ht Hp Hr Hs Hfit Hlong. unfold bus_poll, Instant_now.
  rewrite (io_step _ _ _ _ _ (rdtsc_ticking rate h Ht Hr ltac:(nia))). set (h1 := h ++ [_]).
  assert (Hl1 : Z.of_nat (length h1) = Z.of_nat (length h) + 1) by (unfold h1; rewrite length_app; cbn [length]; lia).
  destruct (poll_loop_ends period rate check b (Z.of_nat (length h)) spins h1 Ht Hp Hr Hs) as (h' & r & E & Hor & Hnever); rewrite ?Hl1; [lia|lia| |].
  - etransitivity; [exact Hlong|]. apply Z.mul_le_mono_nonneg_r; [lia|]. apply Z.mul_le_mono_nonneg_r; lia.
  - exists h', r. rewrite (io_step _ _ _ _ _ E). done.
Qed.

(** A bus without drives: a status with all bits set ends the identification
    after a single access. *)
Theorem floating_bus_is_left_alone `{Hardware} period spins bus drive buses b h : buses !! Z.to_nat bus = Some b ->
  wrap 8 (answer h (Q8 (wrap 16 (control_port_base b + ALT_STATUS_REGISTER_OFFSET)))) = FLOATING_BUS_STATUS ->
  Drive_open period spins bus drive buses h =
    (h ++ [In (Q8 (wrap 16 (control_port_base b + ALT_STATUS_REGISTER_OFFSET))) FLOATING_BUS_STATUS], Value (buses, None)).
Proof.
  intros Hb Ha. unfold Drive_open, with_bus. rewrite Hb.
  assert (E : identify_drive period spins drive b h =
    (h ++ [In (Q8 (wrap 16 (control_port_base b + ALT_STATUS_REGISTER_OFFSET))) FLOATING_BUS_STATUS], Value (b, Ok NoDrive))).
  { assert (E1 : bus_status b h = (h ++ [In (Q8 (wrap 16 (control_port_base b + ALT_STATUS_REGISTER_OFFSET))) FLOATING_BUS_STATUS], Value FLOATING_BUS_STATUS)).
    { unfold bus_status, read_u8, port_read. cbn [query_width]. by rewrite Ha. }
    unfold identify_drive, mbind, BusM_bind, bus_io, mbind, Io_bind. rewrite E1. reflexivity. }
  cbv [mbind Io_bind io_exec unwrap mret Io_ret]. rewrite E. by rewrite list_insert_id.
Qed.

(** ** Witnesses *)

Definition is_command (e : Event) : bool := match e with Out8 p _ => (p =? 0x1F7) | _ => false end.
Definition is_word (e : Event) : bool := match e with In (Q16 _) _ => true | _ => false end.
Definition count (f : Event -> bool) (h : list Event) : Z := Z.of_nat (length (List.filter f h)).

(** A drive that has the words 0, 1, 2, .. and needs no time. *)
Definition simple_drive : Hardware := fun h q =>
  match q with
  | Qtsc => 1000 * Z.of_nat (length h)
  | Q8 _ => if count is_word h <? 256 * count is_command h then 0x48 else 0x40
  | Q16 _ => count is_word h
  | Q32 _ => 0
  end.

Definition example_drive : Drive := mkDrive 0 0 [] [] 1000.

(** The bytes of the first sector: the words 0 to 255. *)
Lemma read_blocks_reads_witness :
  (read_blocks (H := simple_drive) 333333 10 example_drive 5 (replicate 512 0) BUSES []).2 =
    Value (<[0%nat := mkBus 0 (Some 0) 0x1F0 0x3F6]> BUSES, seqZ 0 256 ≫= le_split 2, Ok 512) /\
  exists sectors es, seqZ 0 256 ≫= le_split 2 = concat sectors /\ 512 = SECTOR_SIZE * Z.of_nat (length sectors) /\
    sectors_read (Bus_new 0 0x1F0 0x3F6) 0 5 0 sectors es.
Proof.
  split; [vm_compute; reflexivity|].
  destruct (read_blocks_reads (H := simple_drive) 333333 10 example_drive 5 (replicate 512 0) BUSES []
    (read_blocks (H := simple_drive) 333333 10 example_drive 5 (replicate 512 0) BUSES []).1
    (<[0%nat := mkBus 0 (Some 0) 0x1F0 0x3F6]> BUSES) (seqZ 0 256 ≫= le_split 2) 512)
    as (b & sectors & es & Hb & _ & Hd & _ & Hl & Hs); [vm_compute; reflexivity|vm_compute; reflexivity|].
  injection Hb as <-. exists sectors, es. split; [exact Hd|]. split; [exact Hl|exact Hs].
Defined.

Lemma command_addresses_block_witness :
  decode_command (command_accesses (Bus_new 0 0x1F0 0x3F6) 1 0x1234567 READ_COMMAND) = Some (1, 0x1234567, 0x20) /\
  decode_command (command_accesses (Bus_new 0 0x1F0 0x3F6) 0 (2 ^ 28 + 0x1234567) READ_COMMAND) = Some (1, 0x1234567, 0x20).
Proof. apply command_addresses_block; unfold READ_COMMAND; lia. Defined.

(** A drive that is always busy, with a counter of one tick per access. *)
Definition busy_drive : Hardware := fun h q => match q with Qtsc => Z.of_nat (length h) | _ => 0x80 end.

Lemma poll_ends_witness : exists h' r,
  bus_poll (H := busy_drive) (10 ^ 15) 2 (fun s => negb (Status_busy s)) (Bus_new 0 0x1F0 0x3F6) [] = (h', Value (Bus_new 0 0x1F0 0x3F6, r)) /\
  (r = Ok tt \/ r = Err "poll hangup"%string).
Proof.
  destruct (poll_ends (H := busy_drive) (10 ^ 15) 2 1 (fun s => negb (Status_busy s)) (Bus_new 0 0x1F0 0x3F6) []) as (h' & r & E & Hr & _).
  - intros h _. unfold answer, busy_drive. lia.
  - lia.
  - lia.
  - lia.
  - cbn [length]. lia.
  - unfold NANOS_PER_SECOND, FEMTOS_PER_NANO. lia.
  - exists h', r. split; [exact E|exact Hr].
Defined.

Lemma floating_bus_is_left_alone_witness :
  Drive_open (H := fun _ _ => 0xFF) 333333 10 1 0 BUSES [] = ([In (Q8 0x376) 0xFF], Value (BUSES, None)).
Proof. exact (floating_bus_is_left_alone (H := fun _ _ => 0xFF) 333333 10 1 0 BUSES (Bus_new 1 0x170 0x376) [] eq_refl eq_refl). Defined.

(** The drives of a machine whose first bus has [simple_drive]s. *)
Example enumerate_example : match (enumerate_drives (H := fun h q => match q with Q8 0x376 => 0xFF | Q8 0x1F4 | Q8 0x1F5 => 0 | _ => simple_drive h q end)
    333333 10 BUSES []).2 with
  | Value (_, drives) => map (fun d => (drive_id d, drive_bus d, sector_count d)) drives
  | _ => []
  end = [(0, 0, 0x650064); (1, 0, 0x1650164)].
Proof. vm_compute. reflexivity. Qed.
