(* ===== verification/Float32.v ===== *)
(** * Single-precision numbers

    The [f32] of the drawing code, on the Standard Library's specification of
    IEEE 754 arithmetic ([SpecFloat], here with 24 bits of precision), with the
    conversions of Rust; and the comparison of crates/math/src/math.rs on the
    bits of two numbers. A finite number is an integer multiple of 2^-149, its
    [rank]; comparison, truncation and exact sums are facts about ranks. *)

From Stdlib Require Import Lia SpecFloat.
From stdpp Require Import base numbers option tactics list.
From S2P Require Import Prelude.

Local Open Scope Z_scope.

(** ** Numbers and operations *)

Definition f32 : Type := spec_float.

Definition fzero : f32 := S754_zero false.
Definition fadd : f32 -> f32 -> f32 := SFadd 24 128.
Definition fsub : f32 -> f32 -> f32 := SFsub 24 128.
Definition fmul : f32 -> f32 -> f32 := SFmul 24 128.
Definition fdiv : f32 -> f32 -> f32 := SFdiv 24 128.
Definition fneg : f32 -> f32 := SFopp.
Definition fabs : f32 -> f32 := SFabs.
Definition flt : f32 -> f32 -> bool := SFltb.
Definition fle : f32 -> f32 -> bool := SFleb.
Definition feq : f32 -> f32 -> bool := SFeqb.
Definition is_nan (x : f32) : bool := match x with S754_nan => true | _ => false end.

(** [f32::min], [f32::max]: a NaN is ignored. *)
Definition fmin (x y : f32) : f32 := if is_nan x then y else if is_nan y then x else if flt y x then y else x.
Definition fmax (x y : f32) : f32 := if is_nan x then y else if is_nan y then x else if flt x y then y else x.

(** [f32::clamp]: panics unless [min <= max]. *)
Definition fclamp (x lo hi : f32) : exec f32 :=
  _ ← rust_assert (fle lo hi);
  Done (let x := if flt x lo then lo else x in if flt hi x then hi else x).

(** An integer [as f32], rounded to the nearest. *)
Definition of_int (z : Z) : f32 := binary_normalize 24 128 z 0 false.

(** The integer part, and a number [as usize] and [as i32]: NaN is 0, and what
    does not fit is the nearest number that does. *)
Definition int_part (x : f32) : Z :=
  match x with
  | S754_finite s m e => cond_Zopp s (if 0 <=? e then Zpos m * 2 ^ e else Zpos m / 2 ^ (- e))
  | _ => 0
  end.
Definition to_int (lo hi : Z) (x : f32) : Z :=
  match x with
  | S754_infinity s => if s then lo else hi
  | S754_nan => 0
  | _ => Z.max lo (Z.min hi (int_part x))
  end.
Definition to_usize (x : f32) : Z := to_int 0 (2 ^ 64 - 1) x.
Definition to_i32 (x : f32) : Z := to_int (- 2 ^ 31) (2 ^ 31 - 1) x.

(** The number with some bits, [f32::from_bits]. *)
Definition of_bits (bits : Z) : f32 :=
  let s := Z.testbit bits 31 in
  let e := bits / 2 ^ 23 mod 2 ^ 8 in
  let m := bits mod 2 ^ 23 in
  if e =? 255 then if m =? 0 then S754_infinity s else S754_nan
  else if e =? 0 then match m with Zpos p => S754_finite s p (-149) | _ => S754_zero s end
  else match m + 2 ^ 23 with Zpos p => S754_finite s p (e - 150) | _ => S754_nan end.

(** ** Comparison on bits, crates/math/src/math.rs *)

Definition F32_SIGN_MASK : Z := 0x80000000.
Definition F32_EXP_MASK : Z := 0x7f800000.
Definition CMP_RES_LESS : Z := -1.
Definition CMP_RES_EQUAL : Z := 0.
Definition CMP_RES_GREATER : Z := 1.
Definition CMP_RES_UNORDERED : Z := 1.

(** [__lesf2], on the bits of its arguments. *)
Definition lesf2 (a_rep b_rep : Z) : Z :=
  let abs_mask := F32_SIGN_MASK - 1 in
  let a_abs := Z.land a_rep abs_mask in
  let b_abs := Z.land b_rep abs_mask in
  if (F32_EXP_MASK <? a_abs) || (F32_EXP_MASK <? b_abs) then CMP_RES_UNORDERED
  else if Z.lor a_abs b_abs =? 0 then CMP_RES_EQUAL
  else
    let a_srep := as_signed 32 a_rep in
    let b_srep := as_signed 32 b_rep in
    if 0 <=? Z.land a_srep b_srep then
      if a_srep <? b_srep then CMP_RES_LESS
      else if a_srep =? b_srep then CMP_RES_EQUAL
      else CMP_RES_GREATER
    else if b_srep <? a_srep then CMP_RES_LESS
    else if a_srep =? b_srep then CMP_RES_EQUAL
    else CMP_RES_GREATER.

Definition ltsf2 (a_rep b_rep : Z) : Z := lesf2 a_rep b_rep.

(** ** Ranks *)

Definition valid (x : f32) : Prop := valid_binary 24 128 x = true.

(** The multiple of 2^-149; the infinities are beyond all finite numbers. *)
Definition rank (x : f32) : Z :=
  match x with
  | S754_zero _ | S754_nan => 0
  | S754_infinity s => cond_Zopp s (2 ^ 277)
  | S754_finite s m e => cond_Zopp s (Zpos m * 2 ^ (e + 149))
  end.

Lemma digits_log2 p : Zpos (digits2_pos p) = Z.log2 (Zpos p) + 1.
Proof.
  induction p as [p IH|p IH|]; cbn [digits2_pos]; [| |done].
  - rewrite Pos2Z.inj_succ, IH. change (Zpos p~1) with (2 * Zpos p + 1). rewrite Z.log2_succ_double by lia. lia.
  - rewrite Pos2Z.inj_succ, IH. change (Zpos p~0) with (2 * Zpos p). rewrite Z.log2_double by lia. lia.
Qed.

(** The mantissas and exponents of valid numbers. *)
Lemma bounded_iff m e : bounded 24 128 m e = true <->
  Zpos m < 2 ^ 24 /\ -149 <= e <= 104 /\ (e = -149 \/ 2 ^ 23 <= Zpos m).
Proof.
  unfold bounded, canonical_mantissa, fexp, emin. rewrite andb_true_iff, Z.eqb_eq, Z.leb_le, digits_log2.
  pose proof (Z.log2_spec (Zpos m) eq_refl) as [Hlo Hhi]. pose proof (Z.log2_nonneg (Zpos m)).
  assert (H24 : Zpos m < 2 ^ 24 <-> Z.log2 (Zpos m) < 24) by (apply Z.log2_lt_pow2; lia).
  assert (H23 : 2 ^ 23 <= Zpos m <-> 23 <= Z.log2 (Zpos m)) by (apply Z.log2_le_pow2; lia).
  rewrite H24, H23. lia.
Qed.

(** An exact number is not changed by rounding. *)
Lemma shr_exact n m : SpecFloat.iter_pos shr_1 n (Build_shr_record (Zpos m * 2 ^ Zpos n) false false) = Build_shr_record (Zpos m) false false.
Proof.
  assert (H1 : forall p, shr_1 (Build_shr_record (Zpos p * 2) false false) = Build_shr_record (Zpos p) false false).
  { intros p. replace (Zpos p * 2) with (Zpos p~0) by lia. done. }
  assert (Hn : forall n x, SpecFloat.iter_pos shr_1 n x = Pos.iter shr_1 x n).
  { clear. induction n as [n IH|n IH|]; intros x; cbn [SpecFloat.iter_pos Pos.iter]; rewrite ?IH; [|done..].
    by rewrite <- !Pos.iter_swap. }
  rewrite Hn. revert m. induction n as [|n IH] using Pos.peano_ind; intros m; [apply (H1 m)|].
  rewrite Pos.iter_succ_r. rewrite Pos2Z.inj_succ, Z.pow_succ_r by lia.
  replace (Zpos m * (2 * 2 ^ Zpos n)) with (Zpos (m * 2 ^ n) * 2) by (rewrite Pos2Z.inj_mul, Pos2Z.inj_pow; lia).
  rewrite H1, Pos2Z.inj_mul, Pos2Z.inj_pow. apply IH.
Qed.

Lemma shl_align_le m e e' : e <= e' -> shl_align m e e' = (m, e).
Proof. intros He. unfold shl_align. destruct (e' - e) eqn:E; [done..|lia]. Qed.

Lemma shl_align_gt m e e' : e' <= e -> exists m', shl_align m e e' = (m', e') /\ Zpos m' = Zpos m * 2 ^ (e - e').
Proof.
  intros He. unfold shl_align. destruct (e' - e) as [|p|p] eqn:E; [|lia|].
  - exists m. replace e' with e by lia. by rewrite Z.sub_diag, Z.mul_1_r.
  - exists (Pos.iter xO m p). split; [done|]. replace (e - e') with (Zpos p) by lia. clear.
    induction p as [|p IH] using Pos.peano_ind; [rewrite Z.pow_1_r; cbn [Pos.iter]; lia|].
    rewrite Pos.iter_succ, Pos2Z.inj_succ, Z.pow_succ_r by lia. change (Zpos (Pos.iter xO m p)~0) with (2 * Zpos (Pos.iter xO m p)). lia.
Qed.

Lemma shr_fexp_exact m e n : bounded 24 128 m e = true -> 0 <= n ->
  shr_fexp 24 128 (Zpos m * 2 ^ n) (e - n) loc_Exact = (Build_shr_record (Zpos m) false false, e).
Proof.
  intros Hb Hn. unfold shr_fexp. cbn [shr_record_of_loc].
  assert (Hd : Zdigits2 (Zpos m * 2 ^ n) + (e - n) = Z.log2 (Zpos m) + 1 + e).
  { assert (Hp : 0 < Zpos m * 2 ^ n) by (apply Z.mul_pos_pos; lia). destruct (Zpos m * 2 ^ n) as [|p|p] eqn:E; [lia| |lia].
    cbn [Zdigits2]. rewrite digits_log2, <- E, Z.log2_mul_pow2 by lia. lia. }
  rewrite Hd. assert (Hf : fexp 24 128 (Z.log2 (Zpos m) + 1 + e) = e).
  { unfold bounded, canonical_mantissa in Hb. apply andb_prop in Hb as [Hb _]. apply Z.eqb_eq in Hb. rewrite digits_log2 in Hb. exact Hb. }
  rewrite Hf. replace (e - (e - n)) with n by lia. destruct n as [|n|n]; [|..|lia].
  - cbn [shr]. by rewrite Z.mul_1_r, Z.sub_0_r.
  - cbn [shr]. rewrite shr_exact. f_equal. lia.
Qed.

Lemma round_aux_exact s m e n : bounded 24 128 m e = true -> 0 <= n ->
  binary_round_aux 24 128 s (Zpos m * 2 ^ n) (e - n) loc_Exact = S754_finite s m e.
Proof.
  intros Hb Hn. unfold binary_round_aux. rewrite shr_fexp_exact by done. cbn [shr_m loc_of_shr_record round_nearest_even].
  pose proof (shr_fexp_exact m e 0 Hb ltac:(lia)) as E. rewrite Z.mul_1_r, Z.sub_0_r in E. rewrite E. cbn [shr_m].
  apply bounded_iff in Hb. rewrite (proj2 (Z.leb_le e (128 - 24))) by lia. done.
Qed.

(** Rounding finds the number with the same value, if there is one. *)
Lemma round_exact s p ez m e : bounded 24 128 m e = true -> -149 <= ez -> Zpos p * 2 ^ (ez + 149) = Zpos m * 2 ^ (e + 149) ->
  binary_round 24 128 s p ez = S754_finite s m e.
Proof.
  intros Hb Hez Hv. pose proof Hb as Hb'. apply bounded_iff in Hb' as (Hm & He & Hor).
  assert (Hlog : Z.log2 (Zpos p) + ez = Z.log2 (Zpos m) + e).
  { apply (f_equal Z.log2) in Hv. rewrite !Z.log2_mul_pow2 in Hv by lia. lia. }
  unfold binary_round. rewrite digits_log2. replace (Z.log2 (Zpos p) + 1 + ez) with (Z.log2 (Zpos m) + 1 + e) by lia.
  assert (Hf : fexp 24 128 (Z.log2 (Zpos m) + 1 + e) = e).
  { unfold bounded, canonical_mantissa in Hb. apply andb_prop in Hb as [Hb _]. apply Z.eqb_eq in Hb. rewrite digits_log2 in Hb. exact Hb. }
  rewrite Hf. destruct (Z.le_ge_cases ez e) as [Hle|Hge].
  - rewrite shl_align_le by done. replace (Zpos p) with (Zpos m * 2 ^ (e - ez)).
    + replace ez with (e - (e - ez)) at 2 by lia. apply round_aux_exact; [done|lia].
    + apply (Z.mul_cancel_r _ _ (2 ^ (ez + 149))); [lia|]. rewrite <- Z.mul_assoc, <- Z.pow_add_r by lia. rewrite Hv. do 2 f_equal. lia.
  - destruct (shl_align_gt p ez e Hge) as (p' & -> & Hp'). assert (p' = m) as ->.
    { apply Pos2Z.inj. rewrite Hp'. apply (Z.mul_cancel_r _ _ (2 ^ (e + 149))); [lia|]. rewrite <- Z.mul_assoc, <- Z.pow_add_r by lia.
      rewrite <- Hv. do 2 f_equal. lia. }
    pose proof (round_aux_exact s m e 0 Hb ltac:(lia)) as E. by rewrite Z.mul_1_r, Z.sub_0_r in E.
Qed.

(** The same for a sum of multiples of a power of two. *)
Lemma normalize_exact N ez x : valid x -> -149 <= ez -> N <> 0 -> is_nan x = false -> rank x = N * 2 ^ (ez + 149) ->
  (exists s m e, x = S754_finite s m e) -> binary_normalize 24 128 N ez false = x.
Proof.
  intros Hv Hez HN Hx Hr (s & m & e & ->). cbn [rank] in Hr. assert (0 < 2 ^ (ez + 149)) by lia. assert (0 < 2 ^ (e + 149)).
  { apply bounded_iff in Hv. lia. }
  unfold binary_normalize. destruct N as [|p|p]; [done|..].
  - destruct s; cbn [cond_Zopp] in Hr; [nia|]. apply round_exact; [exact Hv|exact Hez|lia].
  - destruct s; cbn [cond_Zopp] in Hr; [|nia]. apply round_exact; [exact Hv|exact Hez|lia].
Qed.

(** ** Order *)

Lemma valid_finite s m e : valid (S754_finite s m e) -> Zpos m < 2 ^ 24 /\ -149 <= e <= 104 /\ (e = -149 \/ 2 ^ 23 <= Zpos m).
Proof. apply bounded_iff. Qed.

Lemma finite_below m e : Zpos m < 2 ^ 24 -> -149 <= e <= 104 -> 0 < Zpos m * 2 ^ (e + 149) < 2 ^ 277.
Proof.
  intros Hm He. assert (H0 : 0 < 2 ^ (e + 149)) by lia. split; [lia|].
  apply Z.lt_le_trans with (2 ^ 24 * 2 ^ (e + 149)); [nia|]. rewrite <- Z.pow_add_r by lia. apply Z.pow_le_mono_r; lia.
Qed.

Lemma compare_mantissas m1 m2 e1 e2 : Zpos m1 < 2 ^ 24 -> -149 <= e1 -> 2 ^ 23 <= Zpos m2 -> e1 < e2 -> Zpos m1 * 2 ^ (e1 + 149) < Zpos m2 * 2 ^ (e2 + 149).
Proof.
  intros Hm1 He1 Hm2 He. apply Z.lt_le_trans with (2 ^ 24 * 2 ^ (e1 + 149)); [assert (0 < 2 ^ (e1 + 149)) by lia; nia|].
  apply Z.le_trans with (2 ^ 23 * 2 ^ (e2 + 149)); [|assert (0 < 2 ^ (e2 + 149)) by lia; nia].
  rewrite <- !Z.pow_add_r by lia. apply Z.pow_le_mono_r; lia.
Qed.

Lemma compare_magnitudes m1 m2 e1 e2 : bounded 24 128 m1 e1 = true -> bounded 24 128 m2 e2 = true ->
  match e1 ?= e2 with Lt => Lt | Gt => Gt | Eq => Pos.compare_cont Eq m1 m2 end = (Zpos m1 * 2 ^ (e1 + 149) ?= Zpos m2 * 2 ^ (e2 + 149)).
Proof.
  rewrite !bounded_iff. intros (Hm1 & He1 & Ho1) (Hm2 & He2 & Ho2). destruct (Z.compare_spec e1 e2) as [->|Hlt|Hgt].
  - rewrite <- Zmult_compare_compat_r by lia. done.
  - symmetry. apply Z.compare_lt_iff, compare_mantissas; lia.
  - symmetry. apply Z.compare_gt_iff, compare_mantissas; lia.
Qed.

Lemma compare_rank x y : valid x -> valid y -> is_nan x = false -> is_nan y = false -> SFcompare x y = Some (rank x ?= rank y).
Proof.
  intros Hx Hy Nx Ny. assert (Hbig : 0 < 2 ^ 277) by lia.
  destruct x as [sx|sx| |sx mx ex], y as [sy|sy| |sy my ey]; try discriminate; cbn [rank cond_Zopp SFcompare].
  all: try (apply valid_finite in Hx as (Hm1 & He1 & Ho1); pose proof (finite_below _ _ Hm1 He1)).
  all: try (apply valid_finite in Hy as (Hm2 & He2 & Ho2); pose proof (finite_below _ _ Hm2 He2)).
  all: f_equal; try (destruct sx; try destruct sy; cbn [cond_Zopp]; symmetry; first
    [apply Z.compare_lt_iff; lia|apply Z.compare_gt_iff; lia|apply Z.compare_eq_iff; lia|fail]).
  all: try (destruct sy; cbn [cond_Zopp]; symmetry; first [apply Z.compare_lt_iff; lia|apply Z.compare_gt_iff; lia]).
  all: try done.
  assert (E : match ex ?= ey with Lt => Lt | Gt => Gt | Eq => Pos.compare_cont Eq mx my end = (Zpos mx * 2 ^ (ex + 149) ?= Zpos my * 2 ^ (ey + 149)))
    by (apply compare_magnitudes; apply bounded_iff; done).
  destruct sx, sy; cbn [cond_Zopp].
  - transitivity (CompOpp (Zpos mx * 2 ^ (ex + 149) ?= Zpos my * 2 ^ (ey + 149))); [rewrite <- E; by destruct (ex ?= ey)|].
    rewrite <- Z.compare_antisym. by rewrite <- Z.compare_opp.
  - symmetry. apply Z.compare_lt_iff. lia.
  - symmetry. apply Z.compare_gt_iff. lia.
  - exact E.
Qed.

Lemma flt_rank x y : valid x -> valid y -> is_nan x = false -> is_nan y = false -> flt x y = (rank x <? rank y).
Proof. intros. unfold flt, SFltb. rewrite compare_rank by done. unfold Z.ltb. by destruct (_ ?= _). Qed.

Lemma fle_rank x y : valid x -> valid y -> is_nan x = false -> is_nan y = false -> fle x y = (rank x <=? rank y).
Proof. intros. unfold fle, SFleb. rewrite compare_rank by done. unfold Z.leb. by destruct (_ ?= _). Qed.

(** Comparisons that hold involve no NaN. *)
Lemma flt_not_nan x y : flt x y = true -> is_nan x = false /\ is_nan y = false.
Proof. by destruct x, y. Qed.
Lemma fle_not_nan x y : fle x y = true -> is_nan x = false /\ is_nan y = false.
Proof. by destruct x, y. Qed.

Lemma flt_iff x y : valid x -> valid y -> flt x y = true -> rank x < rank y.
Proof. intros Hx Hy H. destruct (flt_not_nan _ _ H). rewrite flt_rank in H by done. by apply Z.ltb_lt. Qed.
Lemma fle_iff x y : valid x -> valid y -> fle x y = true -> rank x <= rank y.
Proof. intros Hx Hy H. destruct (fle_not_nan _ _ H). rewrite fle_rank in H by done. by apply Z.leb_le. Qed.

(** ** Integers *)

Lemma int_number z : Z.abs z < 2 ^ 24 -> z <> 0 -> exists m e, bounded 24 128 m e = true /\ e <= 0 /\
  Zpos m * 2 ^ (e + 149) = Z.abs z * 2 ^ 149 /\ of_int z = S754_finite (z <? 0) m e.
Proof.
  intros Hz H0. pose proof (Z.log2_spec (Z.abs z) ltac:(lia)) as [Hlo Hhi]. set (d := Z.log2 (Z.abs z)) in *.
  assert (Hd : 0 <= d < 24) by (split; [apply Z.log2_nonneg|apply Z.log2_lt_pow2; lia]).
  assert (Hp : 0 < Z.abs z * 2 ^ (23 - d)) by (apply Z.mul_pos_pos; lia). exists (Z.to_pos (Z.abs z * 2 ^ (23 - d))), (d - 23).
  assert (Hpos : Zpos (Z.to_pos (Z.abs z * 2 ^ (23 - d))) = Z.abs z * 2 ^ (23 - d)) by (apply Z2Pos.id; lia).
  assert (Hb : bounded 24 128 (Z.to_pos (Z.abs z * 2 ^ (23 - d))) (d - 23) = true).
  { apply bounded_iff. rewrite Hpos. split; [|split; [lia|right]].
    - replace 24 with (Z.succ d + (23 - d)) by lia. rewrite Z.pow_add_r by lia. apply Z.mul_lt_mono_pos_r; lia.
    - replace 23 with (d + (23 - d)) at 1 by lia. rewrite Z.pow_add_r by lia. apply Z.mul_le_mono_pos_r; lia. }
  assert (Hv : Zpos (Z.to_pos (Z.abs z * 2 ^ (23 - d))) * 2 ^ (d - 23 + 149) = Z.abs z * 2 ^ 149).
  { rewrite Hpos, <- Z.mul_assoc, <- Z.pow_add_r by lia. do 2 f_equal. lia. }
  split; [done|]. split; [lia|]. split; [done|]. unfold of_int, binary_normalize. destruct z as [|p|p]; [done|..].
  - apply round_exact; [done|lia|]. rewrite Hv. done.
  - apply round_exact; [done|lia|]. rewrite Hv. done.
Qed.

Lemma of_int_zero : of_int 0 = fzero.
Proof. done. Qed.

Lemma of_int_valid z : Z.abs z < 2 ^ 24 -> valid (of_int z) /\ is_nan (of_int z) = false /\ rank (of_int z) = z * 2 ^ 149.
Proof.
  intros Hz. destruct (decide (z = 0)) as [->|H0]; [done|]. destruct (int_number z Hz H0) as (m & e & Hb & _ & Hv & ->).
  split; [exact Hb|]. split; [done|]. cbn [rank]. destruct (Z.ltb_spec z 0); cbn [cond_Zopp]; rewrite Hv; lia.
Qed.

Lemma of_int_rank z : Z.abs z < 2 ^ 24 -> rank (of_int z) = z * 2 ^ 149.
Proof. intros Hz. by apply of_int_valid. Qed.

(** Numbers that are finite, and not the negative zero. *)
Definition plain (x : f32) : Prop := valid x /\ match x with S754_finite _ _ _ => True | S754_zero s => s = false | _ => False end.

Lemma of_int_plain z : Z.abs z < 2 ^ 24 -> plain (of_int z).
Proof.
  intros Hz. split; [by apply of_int_valid|]. destruct (decide (z = 0)) as [->|H0]; [done|]. by destruct (int_number z Hz H0) as (m & e & _ & _ & _ & ->).
Qed.

Lemma aligned_value m e ez : -149 <= ez <= e -> Zpos (fst (shl_align m e ez)) * 2 ^ (ez + 149) = Zpos m * 2 ^ (e + 149).
Proof.
  intros He. destruct (shl_align_gt m e ez) as (m' & -> & Hm); [lia|]. cbn [fst]. rewrite Hm, <- Z.mul_assoc, <- Z.pow_add_r by lia. do 2 f_equal. lia.
Qed.

Lemma cond_mul s a b : cond_Zopp s a * b = cond_Zopp s (a * b).
Proof. destruct s; cbn; lia. Qed.

(** Plain numbers are determined by their ranks. *)
Lemma plain_zero x : plain x -> rank x = 0 -> x = fzero.
Proof.
  intros [Hx Px] Hr. destruct x as [s| | |s m e]; try done; [cbn in Px; by subst s|]. apply valid_finite in Hx as (H1 & H2 & _).
  pose proof (finite_below _ _ H1 H2). destruct s; cbn [rank cond_Zopp] in Hr; lia.
Qed.

Lemma plain_rank_inj x y : plain x -> plain y -> rank x = rank y -> x = y.
Proof.
  intros Hx Hy Hr. destruct (decide (rank x = 0)) as [H0|H0].
  { by rewrite (plain_zero x), (plain_zero y) by (done || congruence). }
  destruct Hx as [Hx Px], Hy as [Hy Py]. destruct x as [| | |sx mx ex]; try done. destruct y as [| | |sy my ey]; try done.
  pose proof (valid_finite _ _ _ Hx) as (Hm1 & He1 & Ho1). pose proof (valid_finite _ _ _ Hy) as (Hm2 & He2 & Ho2).
  pose proof (finite_below _ _ Hm1 He1). pose proof (finite_below _ _ Hm2 He2).
  assert (Heq : sx = sy /\ Zpos mx * 2 ^ (ex + 149) = Zpos my * 2 ^ (ey + 149)) by (destruct sx, sy; cbn [rank cond_Zopp] in Hr; split; done || lia).
  destruct Heq as [-> Heq]. destruct (Z.lt_trichotomy ex ey) as [Hlt|[->|Hlt]].
  - pose proof (compare_mantissas mx my ex ey). lia.
  - apply Z.mul_cancel_r in Heq; [by injection Heq as ->|]. lia.
  - pose proof (compare_mantissas my mx ey ex). lia.
Qed.

Lemma normalize_plain N ez z : plain z -> -149 <= ez -> rank z = N * 2 ^ (ez + 149) -> binary_normalize 24 128 N ez false = z.
Proof.
  intros Hz Hez Hr. destruct (decide (N = 0)) as [->|HN]; [symmetry; by apply plain_zero|].
  assert (Hp : 0 < 2 ^ (ez + 149)) by lia. destruct Hz as [Hv Pz].
  destruct z as [s| | |s m e]; try done; [cbn [rank] in Hr; nia|]. apply normalize_exact; [done..|]. eauto.
Qed.

(** A sum, or difference, that is a number is exact. *)
Lemma fadd_exact x y z : plain x -> plain y -> plain z -> rank x + rank y = rank z -> fadd x y = z.
Proof.
  intros Hx Hy Hz Hr. pose proof Hx as [Vx Px]. pose proof Hy as [Vy Py].
  destruct x as [sx| | |sx mx ex]; try done; [cbn in Px; subst sx|]; (destruct y as [sy| | |sy my ey]; try done; [cbn in Py; subst sy|]).
  - by apply plain_rank_inj.
  - by apply plain_rank_inj.
  - change (S754_finite sx mx ex = z). apply plain_rank_inj; [done..|]. cbn [rank] in *. lia.
  - apply valid_finite in Vx as (_ & He1 & _), Vy as (_ & He2 & _). unfold fadd, SFadd. apply normalize_plain; [done|lia|].
    rewrite <- Hr, Z.mul_add_distr_r, !cond_mul, !aligned_value by lia. done.
Qed.

Lemma fsub_exact x y z : plain x -> plain y -> plain z -> rank x - rank y = rank z -> fsub x y = z.
Proof.
  intros Hx Hy Hz Hr. pose proof Hx as [Vx Px]. pose proof Hy as [Vy Py].
  destruct x as [sx| | |sx mx ex]; try done; [cbn in Px; subst sx|]; (destruct y as [sy| | |sy my ey]; try done; [cbn in Py; subst sy|]).
  - by apply plain_rank_inj.
  - change (S754_finite (negb sy) my ey = z). apply plain_rank_inj; [done..|]. rewrite <- Hr. destruct sy; cbn; lia.
  - change (S754_finite sx mx ex = z). apply plain_rank_inj; [done..|]. cbn [rank] in *. lia.
  - apply valid_finite in Vx as (_ & He1 & _), Vy as (_ & He2 & _). unfold fsub, SFsub. apply normalize_plain; [done|lia|].
    rewrite <- Hr, Z.mul_sub_distr_r, !cond_mul, !aligned_value by lia. done.
Qed.

Lemma fadd_int a b : Z.abs a < 2 ^ 24 -> Z.abs b < 2 ^ 24 -> Z.abs (a + b) < 2 ^ 24 -> fadd (of_int a) (of_int b) = of_int (a + b).
Proof.
  intros Ha Hb Hab. apply fadd_exact; [by apply of_int_plain..|]. rewrite !of_int_rank by done. lia.
Qed.

Lemma fsub_int a b : Z.abs a < 2 ^ 24 -> Z.abs b < 2 ^ 24 -> Z.abs (a - b) < 2 ^ 24 -> fsub (of_int a) (of_int b) = of_int (a - b).
Proof.
  intros Ha Hb Hab. apply fsub_exact; [by apply of_int_plain..|]. rewrite !of_int_rank by done. lia.
Qed.

Lemma flt_int a b : Z.abs a < 2 ^ 24 -> Z.abs b < 2 ^ 24 -> flt (of_int a) (of_int b) = (a <? b).
Proof.
  intros Ha Hb. destruct (of_int_valid a Ha) as (Va & Na & Ra), (of_int_valid b Hb) as (Vb & Nb & Rb).
  rewrite flt_rank, Ra, Rb by done. apply eq_true_iff_eq. rewrite !Z.ltb_lt. lia.
Qed.

Lemma fle_int a b : Z.abs a < 2 ^ 24 -> Z.abs b < 2 ^ 24 -> fle (of_int a) (of_int b) = (a <=? b).
Proof.
  intros Ha Hb. destruct (of_int_valid a Ha) as (Va & Na & Ra), (of_int_valid b Hb) as (Vb & Nb & Rb).
  rewrite fle_rank, Ra, Rb by done. apply eq_true_iff_eq. rewrite !Z.leb_le. lia.
Qed.

Lemma fmin_int a b : Z.abs a < 2 ^ 24 -> Z.abs b < 2 ^ 24 -> fmin (of_int a) (of_int b) = of_int (Z.min a b).
Proof.
  intros Ha Hb. destruct (of_int_valid a Ha) as (_ & Na & _), (of_int_valid b Hb) as (_ & Nb & _). unfold fmin. rewrite Na, Nb, flt_int by done.
  destruct (Z.ltb_spec b a); f_equal; lia.
Qed.

Lemma fmax_int a b : Z.abs a < 2 ^ 24 -> Z.abs b < 2 ^ 24 -> fmax (of_int a) (of_int b) = of_int (Z.max a b).
Proof.
  intros Ha Hb. destruct (of_int_valid a Ha) as (_ & Na & _), (of_int_valid b Hb) as (_ & Nb & _). unfold fmax. rewrite Na, Nb, flt_int by done.
  destruct (Z.ltb_spec a b); f_equal; lia.
Qed.

(** ** Truncation *)

(** The integer part of a number that is not negative. *)
Lemma int_part_rank x : valid x -> match x with S754_infinity _ => False | _ => True end -> 0 <= rank x -> int_part x = rank x / 2 ^ 149.
Proof.
  intros Hv Hinf Hr. destruct x as [s|s| |s m e]; try done. destruct s.
  { apply valid_finite in Hv as (H1 & H2 & _). pose proof (finite_below _ _ H1 H2). cbn [rank cond_Zopp] in Hr. lia. }
  apply valid_finite in Hv as (_ & He & _). cbn [rank cond_Zopp int_part]. destruct (Z.leb_spec 0 e).
  - rewrite Z.pow_add_r, Z.mul_assoc, Z.div_mul by lia. done.
  - replace 149 with (- e + (e + 149)) at 2 by lia. rewrite (Z.pow_add_r 2 (- e) (e + 149)) by lia. symmetry. apply Z.div_mul_cancel_r; lia.
Qed.

(** A number between two integers is cut to an index between them. *)
Lemma to_usize_below x lo n : valid x -> 0 <= lo -> n <= 2 ^ 64 -> lo * 2 ^ 149 <= rank x < n * 2 ^ 149 -> is_nan x = false ->
  match x with S754_infinity _ => False | _ => True end -> to_usize x = rank x / 2 ^ 149 /\ lo <= to_usize x < n.
Proof.
  intros Hv Hlo Hn Hr Hx Hinf. assert (E : int_part x = rank x / 2 ^ 149) by (apply int_part_rank; [done|done|nia]).
  assert (Hb : lo <= rank x / 2 ^ 149 < n) by (split; [apply Z.div_le_lower_bound; lia|apply Z.div_lt_upper_bound; lia]).
  assert (Ht : to_usize x = rank x / 2 ^ 149) by (unfold to_usize, to_int; destruct x; try done; rewrite E; lia).
  rewrite Ht. done.
Qed.

Lemma to_usize_int z : Z.abs z < 2 ^ 24 -> to_usize (of_int z) = Z.max 0 z.
Proof.
  intros Hz. destruct (of_int_valid z Hz) as (Vz & Nz & Rz). destruct (of_int_plain z Hz) as [_ Pz].
  destruct (Z.le_gt_cases 0 z) as [H0|H0].
  - destruct (to_usize_below (of_int z) z (z + 1)) as [-> _]; [done|done|lia|lia|done|by destruct (of_int z)|].
    rewrite Rz, Z.div_mul by lia. lia.
  - destruct (int_number z Hz ltac:(lia)) as (m & e & Hb & He & Hv & ->). rewrite (proj2 (Z.ltb_lt z 0)) by lia.
    unfold to_usize, to_int, int_part. cbn [cond_Zopp].
    assert (0 <= (if 0 <=? e then Zpos m * 2 ^ e else Zpos m / 2 ^ (- e))) by (case_if; [lia|apply Z.div_pos; lia]). lia.
Qed.

Lemma int_part_neg x : int_part (fneg x) = - int_part x.
Proof. destruct x as [| | |[] m e]; try done; cbn [fneg SFopp int_part negb cond_Zopp]; lia. Qed.

Lemma to_usize_nat z : 0 <= z < 2 ^ 24 -> to_usize (of_int z) = z.
Proof. intros Hz. rewrite to_usize_int by lia. lia. Qed.

Lemma fneg_int n : Z.abs n < 2 ^ 24 -> n <> 0 -> fneg (of_int n) = of_int (- n).
Proof.
  intros Hn H0. destruct (int_number n Hn H0) as (m & e & Hb & _ & Hv & ->). destruct (of_int_valid (- n)) as (_ & _ & Rn); [lia|].
  apply plain_rank_inj; [by split|by apply of_int_plain; lia|]. rewrite Rn. cbn [fneg SFopp rank]. rewrite Hv.
  destruct (Z.ltb_spec n 0); cbn [negb cond_Zopp]; lia.
Qed.

Lemma int_part_int z : Z.abs z < 2 ^ 24 -> int_part (of_int z) = z.
Proof.
  assert (Hpos : forall z, 0 <= z < 2 ^ 24 -> int_part (of_int z) = z).
  { clear. intros z Hz. destruct (of_int_valid z) as (V & _ & R); [lia|]. destruct (of_int_plain z) as [_ P]; [lia|].
    rewrite int_part_rank; [rewrite R, Z.div_mul; lia|done|by destruct (of_int z)|lia]. }
  intros Hz. destruct (Z.lt_ge_cases z 0) as [Hneg|Hnn]; [|apply Hpos; lia].
  replace z with (- - z) at 1 by lia. rewrite <- fneg_int by lia. rewrite int_part_neg, Hpos by lia. lia.
Qed.

Lemma to_i32_int z : Z.abs z < 2 ^ 24 -> to_i32 (of_int z) = z.
Proof.
  intros Hz. pose proof (int_part_int z Hz) as E. destruct (of_int_plain z Hz) as [_ P]. unfold to_i32, to_int.
  destruct (of_int z); try done; rewrite E; lia.
Qed.

(** ** The comparison on bits *)

(** The rank of the number whose bits, but for the sign, are [m]. *)
Definition bits_rank (m : Z) : Z := if m / 2 ^ 23 =? 0 then m mod 2 ^ 23 else (m mod 2 ^ 23 + 2 ^ 23) * 2 ^ (m / 2 ^ 23 - 1).

Lemma bits_rank_nonneg m : 0 <= m -> 0 <= bits_rank m.
Proof.
  intros Hm. unfold bits_rank. pose proof (Z.mod_pos_bound m (2 ^ 23) eq_refl). destruct (Z.eqb_spec (m / 2 ^ 23) 0); [lia|].
  apply Z.mul_nonneg_nonneg; [lia|]. apply Z.pow_nonneg. lia.
Qed.

Lemma bits_rank_mono m n : 0 <= m < n -> bits_rank m < bits_rank n.
Proof.
  intros [Hm Hn]. unfold bits_rank. pose proof (Z.mod_pos_bound m (2 ^ 23) eq_refl). pose proof (Z.mod_pos_bound n (2 ^ 23) eq_refl).
  pose proof (Z.div_mod m (2 ^ 23) ltac:(lia)). pose proof (Z.div_mod n (2 ^ 23) ltac:(lia)).
  assert (0 <= m / 2 ^ 23) by (apply Z.div_pos; lia). assert (m / 2 ^ 23 <= n / 2 ^ 23) by (apply Z.div_le_mono; lia).
  set (em := m / 2 ^ 23) in *. set (en := n / 2 ^ 23) in *. set (fm := m mod 2 ^ 23) in *. set (fn := n mod 2 ^ 23) in *.
  destruct (Z.eqb_spec em 0) as [Em|Em], (Z.eqb_spec en 0) as [En|En]; [lia|..|lia|].
  - assert (0 < 2 ^ (en - 1)) by lia. nia.
  - assert (Hp : 0 < 2 ^ (em - 1)) by lia. destruct (Z.eq_dec em en) as [He|He]; [rewrite <- He; apply Z.mul_lt_mono_pos_r; lia|].
    apply Z.lt_le_trans with (2 ^ 24 * 2 ^ (em - 1)); [apply Z.mul_lt_mono_pos_r; lia|].
    apply Z.le_trans with (2 ^ 23 * 2 ^ (en - 1)); [|apply Z.mul_le_mono_nonneg_r; lia].
    rewrite <- !Z.pow_add_r by lia. apply Z.pow_le_mono_r; lia.
Qed.

Lemma bits_rank_compare m n : 0 <= m -> 0 <= n -> (bits_rank m ?= bits_rank n) = (m ?= n).
Proof.
  intros Hm Hn. destruct (Z.compare_spec m n) as [->|H|H]; [apply Z.compare_refl|..].
  - apply Z.compare_lt_iff, bits_rank_mono. lia.
  - apply Z.compare_gt_iff, bits_rank_mono. lia.
Qed.

Lemma magnitude_parts a : a mod 2 ^ 31 / 2 ^ 23 = a / 2 ^ 23 mod 2 ^ 8 /\ a mod 2 ^ 31 mod 2 ^ 23 = a mod 2 ^ 23.
Proof.
  change (2 ^ 31) with (2 ^ 23 * 2 ^ 8). rewrite Z.rem_mul_r by lia. rewrite (Z.mul_comm (2 ^ 23)). split.
  - rewrite Z.div_add, Z.div_small by (try apply Z.mod_pos_bound; lia). done.
  - rewrite Z.mod_add, Z.mod_mod by lia. done.
Qed.

(** The number with some bits: whether it is one, its sign and its rank. *)
Lemma of_bits_spec a : 0 <= a < 2 ^ 32 ->
  is_nan (of_bits a) = (F32_EXP_MASK <? a mod 2 ^ 31) /\ valid (of_bits a) /\
  (a mod 2 ^ 31 <= F32_EXP_MASK -> rank (of_bits a) = cond_Zopp (2 ^ 31 <=? a) (bits_rank (a mod 2 ^ 31))).
Proof.
  intros Ha. destruct (magnitude_parts a) as [He Hm]. unfold bits_rank. rewrite He, Hm. unfold of_bits.
  assert (Hs : Z.testbit a 31 = (2 ^ 31 <=? a)).
  { rewrite Z.testbit_eqb by lia. apply eq_true_iff_eq. rewrite Z.eqb_eq, Z.leb_le. Z.div_mod_to_equations. lia. }
  rewrite Hs. pose proof (Z.mod_pos_bound a (2 ^ 23) eq_refl). pose proof (Z.mod_pos_bound (a / 2 ^ 23) (2 ^ 8) eq_refl).
  pose proof (Z.div_mod (a mod 2 ^ 31) (2 ^ 23) ltac:(lia)) as Hd. rewrite He, Hm in Hd. rewrite Hd. clear Hd He Hm Hs.
  set (s := 2 ^ 31 <=? a). set (f := a mod 2 ^ 23) in *. set (e := a / 2 ^ 23 mod 2 ^ 8) in *. clearbody s f e. unfold F32_EXP_MASK.
  destruct (Z.eqb_spec e 255) as [->|H255]; [|destruct (Z.eqb_spec e 0) as [->|Hz]].
  - destruct (Z.eqb_spec f 0) as [->|Hf]; [done|]. split; [symmetry; apply Z.ltb_lt; lia|]. split; [done|lia].
  - replace (2 ^ 23 * 0 + f) with f by lia. replace (0x7f800000 <? f) with false by (symmetry; apply Z.ltb_ge; lia).
    destruct f as [|p|p] eqn:E; [by destruct s|..|lia]. split; [done|]. split; [apply bounded_iff; lia|]. intros _.
    cbn [rank]. f_equal. change (-149 + 149) with 0. lia.
  - destruct (f + 2 ^ 23) as [|p|p] eqn:E; [lia|..|lia].
    replace (0x7f800000 <? 2 ^ 23 * e + f) with false by (symmetry; apply Z.ltb_ge; lia). split; [done|].
    split; [apply bounded_iff; lia|]. intros _. cbn [rank]. replace (e - 150 + 149) with (e - 1) by lia. done.
Qed.

Lemma as_signed_bits a : 0 <= a < 2 ^ 32 -> as_signed 32 a = if 2 ^ 31 <=? a then a mod 2 ^ 31 - 2 ^ 31 else a mod 2 ^ 31.
Proof. intros Ha. unfold as_signed. change (32 - 1) with 31. destruct (Z.ltb_spec a (2 ^ 31)), (Z.leb_spec (2 ^ 31) a); Z.div_mod_to_equations; lia. Qed.

(** How the comparisons of the code report an ordering. *)
Definition cmp_result (c : option comparison) : Z :=
  match c with Some Lt => CMP_RES_LESS | Some Eq => CMP_RES_EQUAL | Some Gt => CMP_RES_GREATER | None => CMP_RES_UNORDERED end.

Lemma compare_cmp_result x y : (if x <? y then CMP_RES_LESS else if x =? y then CMP_RES_EQUAL else CMP_RES_GREATER) = cmp_result (Some (x ?= y)).
Proof.
  unfold Z.ltb. destruct (Z.compare_spec x y) as [->|H|H]; [by rewrite Z.eqb_refl|done|]. by rewrite (proj2 (Z.eqb_neq _ _)) by lia.
Qed.

(** C35: The comparison of math.rs works on the bits of its arguments, as signed
    integers, and turns the result around when both are negative. For all bit
    patterns, the two zeros, the infinities, subnormal numbers and NaNs
    included, it returns what IEEE 754 defines, and 1 when an argument is a
    NaN. *)
Theorem lesf2_compares a b : 0 <= a < 2 ^ 32 -> 0 <= b < 2 ^ 32 -> lesf2 a b = cmp_result (SFcompare (of_bits a) (of_bits b)).
Proof.
  intros Ha Hb. destruct (of_bits_spec a Ha) as (Na & Va & Ra), (of_bits_spec b Hb) as (Nb & Vb & Rb).
  unfold lesf2. cbv zeta. change (F32_SIGN_MASK - 1) with (Z.ones 31). rewrite !Z.land_ones by lia.
  pose proof (Z.mod_pos_bound a (2 ^ 31) eq_refl). pose proof (Z.mod_pos_bound b (2 ^ 31) eq_refl).
  destruct (F32_EXP_MASK <? a mod 2 ^ 31) eqn:Ea; [by destruct (of_bits a)|]. destruct (F32_EXP_MASK <? b mod 2 ^ 31) eqn:Eb.
  { by destruct (of_bits b), (of_bits a) as [[]|[]| |[]]. }
  apply Z.ltb_ge in Ea, Eb. cbn [orb]. rewrite compare_rank, Ra, Rb by done.
  rewrite !as_signed_bits by done. set (x := a mod 2 ^ 31) in *. set (y := b mod 2 ^ 31) in *. clearbody x y.
  pose proof (bits_rank_compare x y ltac:(lia) ltac:(lia)) as C. pose proof (bits_rank_nonneg x ltac:(lia)). pose proof (bits_rank_nonneg y ltac:(lia)).
  destruct (Z.eqb_spec (Z.lor x y) 0) as [E|E].
  { apply Z.lor_eq_0_iff in E as [-> ->]. by destruct (2 ^ 31 <=? a), (2 ^ 31 <=? b). }
  assert (Hxy : 0 < x \/ 0 < y) by (destruct (Z.eq_dec x 0) as [->|]; [|lia]; destruct (Z.eq_dec y 0) as [->|]; [by cbn in E|lia]).
  assert (Hlt : 0 < x \/ 0 < y -> bits_rank x + bits_rank y > 0).
  { intros [Hp|Hp]; [pose proof (bits_rank_mono 0 x ltac:(lia))|pose proof (bits_rank_mono 0 y ltac:(lia))]; change (bits_rank 0) with 0 in *; lia. }
  specialize (Hlt Hxy). destruct (2 ^ 31 <=? a), (2 ^ 31 <=? b); cbn [cond_Zopp].
  - rewrite (proj2 (Z.leb_gt _ _)) by (apply Z.land_neg; lia). rewrite Z.compare_opp.
    rewrite (Z.compare_antisym (bits_rank x)), C, <- Z.compare_antisym.
    rewrite <- compare_cmp_result. destruct (Z.ltb_spec (y - 2 ^ 31) (x - 2 ^ 31)), (Z.ltb_spec y x); try lia.
    destruct (Z.eqb_spec (x - 2 ^ 31) (y - 2 ^ 31)), (Z.eqb_spec y x); lia || done.
  - rewrite (proj2 (Z.leb_le _ _)) by (apply Z.land_nonneg; lia). rewrite (proj2 (Z.ltb_lt _ _)) by lia.
    rewrite (proj2 (Z.compare_lt_iff _ _)) by lia. done.
  - rewrite (proj2 (Z.leb_le _ _)) by (apply Z.land_nonneg; lia). rewrite (proj2 (Z.ltb_ge _ _)), (proj2 (Z.eqb_neq _ _)) by lia.
    rewrite (proj2 (Z.compare_gt_iff _ _)) by lia. done.
  - rewrite (proj2 (Z.leb_le _ _)) by (apply Z.land_nonneg; lia). rewrite C. apply compare_cmp_result.
Qed.

(** -0 and 0; -1 and a subnormal number; a NaN. *)
Lemma lesf2_compares_witness :
  lesf2 0x80000000 0 = CMP_RES_EQUAL /\ lesf2 0xbf800000 1 = CMP_RES_LESS /\ lesf2 0x7fc00000 0 = CMP_RES_UNORDERED.
Proof.
  split; [|split]; (etransitivity; [apply lesf2_compares; lia|by vm_compute]).
Defined.
