(* ===== verification/Rounding.v ===== *)
(** * Rounding of single-precision sums

    A sum is rounded to one of the two numbers around it, so that it is not on
    the other side of any number: enough to bound what the drawing code
    computes from arbitrary coordinates. *)

From Stdlib Require Import Lia SpecFloat.
From stdpp Require Import base numbers option tactics list.
From S2P Require Import Prelude Float32.

Local Open Scope Z_scope.

(** ** Shifting right *)

Lemma shr_1_half m r s : 0 <= m -> shr_m (shr_1 (Build_shr_record m r s)) = m / 2.
Proof.
  intros Hm. destruct m as [|[p|p|]|p]; try done; cbn [shr_1 shr_m].
  - change (Zpos p~1) with (2 * Zpos p + 1). Z.div_mod_to_equations. lia.
  - change (Zpos p~0) with (2 * Zpos p). Z.div_mod_to_equations. lia.
Qed.

Lemma shr_floor n m r s : 0 <= m -> shr_m (SpecFloat.iter_pos shr_1 n (Build_shr_record m r s)) = m / 2 ^ Zpos n.
Proof.
  assert (Hn : forall n x, SpecFloat.iter_pos shr_1 n x = Pos.iter shr_1 x n).
  { clear. induction n as [n IH|n IH|]; intros x; cbn [SpecFloat.iter_pos Pos.iter]; rewrite ?IH; [|done..]. by rewrite <- !Pos.iter_swap. }
  rewrite Hn. clear Hn. revert m r s. induction n as [|n IH] using Pos.peano_ind; intros m r s Hm; [by apply shr_1_half|].
  rewrite Pos.iter_succ_r, Pos2Z.inj_succ, Z.pow_succ_r by lia. pose proof (shr_1_half m r s Hm) as H1.
  destruct (shr_1 (Build_shr_record m r s)) as [m' r' s']. cbn [shr_m] in H1. subst m'.
  rewrite IH by (apply Z.div_pos; lia). by rewrite Z.div_div by lia.
Qed.

(** ** Numbers from a mantissa of at most 24 bits, or 2^24 *)

Definition fexp32 (d : Z) : Z := fexp 24 128 d.

Lemma fexp32_eq d : fexp32 d = Z.max (d - 24) (-149).
Proof. done. Qed.

Lemma log2_digits p : Zdigits2 (Zpos p) = Z.log2 (Zpos p) + 1.
Proof. apply digits_log2. Qed.

Definition magnitude (m e : Z) : Z := m * 2 ^ (e + 149).

(** The end of the rounding: [q] is the mantissa chosen for the exponent [E]. *)
Lemma finish_round s q E : 0 < q <= 2 ^ 24 -> -149 <= E -> (E = -149 \/ 2 ^ 23 <= q) ->
  exists r, (let '(mrs, e) := shr_fexp 24 128 q E loc_Exact in
     match shr_m mrs with Z0 => S754_zero s | Zpos m => if e <=? 128 - 24 then S754_finite s m e else S754_infinity s | _ => S754_nan end) = r /\
  valid r /\ is_nan r = false /\ rank r = cond_Zopp s (Z.min (2 ^ 277) (magnitude q E)).
Proof.
  intros Hq HE Hor. destruct q as [|p|p]; [lia| |lia]. unfold magnitude. eexists. split; [reflexivity|].
  assert (Hgo : forall m e, Zpos m < 2 ^ 24 -> -149 <= e -> (e = -149 \/ 2 ^ 23 <= Zpos m) -> let r := if e <=? 128 - 24 then S754_finite s m e else S754_infinity s in
    valid r /\ is_nan r = false /\ rank r = cond_Zopp s (Z.min (2 ^ 277) (Zpos m * 2 ^ (e + 149)))).
  { intros m e Hm He Ho r. subst r. destruct (Z.leb_spec e (128 - 24)) as [Hle|Hgt].
    - split; [apply bounded_iff; lia|]. split; [done|]. cbn [rank]. pose proof (finite_below m e Hm ltac:(lia)). f_equal. lia.
    - split; [done|]. split; [done|]. cbn [rank]. f_equal. symmetry. apply Z.min_l.
      apply Z.le_trans with (2 ^ 23 * 2 ^ (e + 149)); [|apply Z.mul_le_mono_nonneg_r; lia].
      rewrite <- Z.pow_add_r by lia. apply Z.pow_le_mono_r; lia. }
  unfold shr_fexp. rewrite log2_digits. change (fexp 24 128 (Z.log2 (Zpos p) + 1 + E)) with (fexp32 (Z.log2 (Zpos p) + 1 + E)). rewrite fexp32_eq. cbn [shr_record_of_loc].
  destruct (Z.eq_dec (Zpos p) (2 ^ 24)) as [Heq|Hne].
  - rewrite Heq. change (Z.log2 (2 ^ 24)) with 24. replace (Z.max (24 + 1 + E - 24) (-149) - E) with 1 by lia.
    change (let '(mrs, e) := shr (Build_shr_record (2 ^ 24) false false) E 1 in _) with (if E + 1 <=? 128 - 24 then S754_finite s 8388608 (E + 1) else S754_infinity s).
    replace (2 ^ 24 * 2 ^ (E + 149)) with (Zpos 8388608 * 2 ^ (E + 1 + 149)); [apply Hgo; lia|].
    replace (E + 1 + 149) with (Z.succ (E + 149)) by lia. rewrite Z.pow_succ_r by lia. lia.
  - assert (Hlog : Z.log2 (Zpos p) < 24) by (apply Z.log2_lt_pow2; lia).
    assert (Hsh : Z.max (Z.log2 (Zpos p) + 1 + E - 24) (-149) - E = 0).
    { destruct Hor as [->|H23]; [lia|]. assert (23 <= Z.log2 (Zpos p)) by (apply Z.log2_le_pow2; lia). lia. }
    rewrite Hsh. cbn [shr shr_m]. apply Hgo; lia.
Qed.

(** ** Rounding a magnitude *)

(** What rounding [M] finds: [R], one of the two multiples of [U] around it. *)
Record rounds (M R U F : Z) : Prop := {
  rounds_unit : exists E, -149 <= E /\ U = 2 ^ (E + 149) /\ (E = -149 \/ 2 ^ 23 * U <= F);
  rounds_floor : (U | F) /\ F <= M < F + U;
  rounds_near : R = F \/ (R = F + U /\ F < M)
}.

Lemma round_spec s p ez : -149 <= ez -> exists R U F, rounds (magnitude (Zpos p) ez) R U F /\
  let r := binary_round 24 128 s p ez in valid r /\ is_nan r = false /\ rank r = cond_Zopp s (Z.min (2 ^ 277) R).
Proof.
  intros Hez. set (E := fexp32 (Z.log2 (Zpos p) + 1 + ez)). pose proof (fexp32_eq (Z.log2 (Zpos p) + 1 + ez)) as HE. fold E in HE.
  pose proof (Z.log2_spec (Zpos p) eq_refl) as [Hlo Hhi]. pose proof (Z.log2_nonneg (Zpos p)).
  unfold binary_round. rewrite digits_log2. change (fexp 24 128 (Z.log2 (Zpos p) + 1 + ez)) with E.
  (* the mantissa and exponent after alignment *)
  assert (Hal : exists m e, shl_align p ez E = (m, e) /\ -149 <= e <= E /\ magnitude (Zpos m) e = magnitude (Zpos p) ez /\
     Z.log2 (Zpos m) + e = Z.log2 (Zpos p) + ez).
  { destruct (Z.le_ge_cases ez E) as [Hle|Hge].
    - exists p, ez. rewrite shl_align_le by done. done.
    - destruct (shl_align_gt p ez E Hge) as (m & -> & Hm). exists m, E. unfold magnitude. rewrite Hm, Z.log2_mul_pow2 by lia.
      rewrite <- Z.mul_assoc, <- Z.pow_add_r by lia. split; [done|]. split; [lia|]. split; [do 2 f_equal; lia|lia]. }
  destruct Hal as (m & e & -> & He & HM & Hlog). rewrite <- HM. clear HM. set (n := E - e).
  assert (Hn : fexp32 (Z.log2 (Zpos m) + 1 + e) = E) by (unfold E; f_equal; lia).
  set (q := Zpos m / 2 ^ n). assert (Hpn : 0 < 2 ^ n) by lia. pose proof (Z.div_mod (Zpos m) (2 ^ n) ltac:(lia)) as Hdm. fold q in Hdm.
  pose proof (Z.mod_pos_bound (Zpos m) (2 ^ n) ltac:(lia)) as Hmod. pose proof (Z.log2_spec (Zpos m) eq_refl) as [Hmlo Hmhi].
  assert (Hq24 : q < 2 ^ 24).
  { apply Z.div_lt_upper_bound; [lia|]. rewrite <- Z.pow_add_r by lia. apply Z.lt_le_trans with (1 := Hmhi). apply Z.pow_le_mono_r; lia. }
  assert (Hq23 : E = -149 /\ n = 0 \/ 2 ^ 23 <= q).
  { destruct (Z.eq_dec E (-149)) as [H0|H0]; [left; lia|right]. apply Z.div_le_lower_bound; [lia|].
    rewrite <- Z.pow_add_r by lia. apply Z.le_trans with (2 := Hmlo). apply Z.pow_le_mono_r; lia. }
  assert (Hq0 : 0 < q) by (destruct Hq23 as [[_ H0]|]; [unfold q; rewrite H0, Z.pow_0_r, Z.div_1_r; lia|lia]).
  (* the mantissa that is chosen *)
  assert (Hch : exists q', (q' = q \/ q' = q + 1 /\ q * 2 ^ n < Zpos m) /\
    (let '(mrs, e') := shr_fexp 24 128 (Zpos m) e loc_Exact in (round_nearest_even (shr_m mrs) (loc_of_shr_record mrs), e')) = (q', E)).
  { unfold shr_fexp. rewrite log2_digits. change (fexp 24 128 (Z.log2 (Zpos m) + 1 + e)) with (fexp32 (Z.log2 (Zpos m) + 1 + e)). rewrite Hn. fold n.
    cbn [shr_record_of_loc]. destruct n as [|k|k] eqn:En; [|..|lia].
    - exists q. split; [by left|]. cbn [shr shr_m loc_of_shr_record round_nearest_even]. unfold q. rewrite Z.pow_0_r, Z.div_1_r. f_equal. lia.
    - cbn [shr]. replace (e + Zpos k) with E by lia. destruct (Z.eq_dec (Zpos m mod 2 ^ Zpos k) 0) as [Hz|Hz].
      + exists q. split; [by left|]. destruct q as [|pq|pq] eqn:Eq; [lia| |lia]. rewrite Hdm, Hz, Z.add_0_r, Z.mul_comm, shr_exact. done.
      + pose proof (shr_floor k (Zpos m) false false ltac:(lia)) as Hf. fold q in Hf.
        set (mrs := SpecFloat.iter_pos shr_1 k (Build_shr_record (Zpos m) false false)) in *. rewrite Hf.
        destruct (loc_of_shr_record mrs) as [|[]]; cbn [round_nearest_even]; [..|destruct (Z.even q)|destruct (Z.even q)|]; eexists; (split; [|reflexivity]); lia. }
  destruct Hch as (q' & Hq' & Hshr). unfold binary_round_aux. destruct (shr_fexp 24 128 (Zpos m) e loc_Exact) as [mrs e'].
  injection Hshr as -> ->.
  destruct (finish_round s q' E) as (r & Hr & Hv & Hnan & Hrank); [lia|lia|lia|].
  exists (magnitude q' E), (2 ^ (E + 149)), (magnitude q E). split.
  - assert (Hmag : magnitude (Zpos m) e = q * 2 ^ (E + 149) + Zpos m mod 2 ^ n * 2 ^ (e + 149)).
    { unfold magnitude. replace (E + 149) with (n + (e + 149)) by lia. rewrite (Z.pow_add_r 2 n) by lia. rewrite Hdm at 1. ring. }
    assert (HU : 2 ^ (E + 149) = 2 ^ n * 2 ^ (e + 149)) by (rewrite <- (Z.pow_add_r 2 n) by lia; f_equal; lia).
    assert (0 < 2 ^ (e + 149)) by lia. constructor.
    + exists E. split; [lia|]. split; [done|]. destruct Hq23 as [[HE0 _]|H23]; [by left|right]. unfold magnitude. apply Z.mul_le_mono_nonneg_r; lia.
    + rewrite Hmag. unfold magnitude. split; [apply Z.divide_factor_r|]. rewrite HU. nia.
    + rewrite Hmag. unfold magnitude. destruct Hq' as [->|[-> Hlt]]; [by left|right]. split; [lia|].
      assert (0 < Zpos m mod 2 ^ n) by lia. assert (0 < Zpos m mod 2 ^ n * 2 ^ (e + 149)) by (apply Z.mul_pos_pos; lia). lia.
  - cbv zeta. rewrite <- Hr in Hv, Hnan, Hrank. done.
Qed.

(** ** The result is between the numbers around the exact one *)

(** A number at or above [F] is a multiple of the unit there. *)
Lemma rank_multiple z E F : valid z -> is_nan z = false -> -149 <= E -> (E = -149 \/ 2 ^ 23 * 2 ^ (E + 149) <= F) -> 0 < F -> F <= rank z ->
  (2 ^ (E + 149) | rank z).
Proof.
  intros Hv Hnan HE Hor HF Hz.
  assert (Hle : forall k e, 2 ^ 23 * 2 ^ (E + 149) < 2 ^ k * 2 ^ (e + 149) -> k = 24 -> -149 <= e -> (2 ^ (E + 149) | 2 ^ (e + 149))).
  { intros k e Hlt -> He. rewrite <- !Z.pow_add_r in Hlt by lia. apply Z.pow_lt_mono_r_iff in Hlt; [|lia..].
    exists (2 ^ (e - E)). rewrite <- Z.pow_add_r by lia. f_equal. lia. }
  destruct z as [s|s| |s m e]; try done; [cbn [rank] in Hz; lia|..].
  - destruct s; [cbn [rank cond_Zopp] in Hz; lia|]. change (2 ^ (E + 149) | 2 ^ (128 + 149)). destruct Hor as [->|Hor]; [apply Z.divide_1_l|].
    apply (Hle 24); [|lia..]. apply Z.le_lt_trans with (1 := Hor), Z.le_lt_trans with (1 := Hz). done.
  - apply valid_finite in Hv as (Hm & He & _). destruct s; [cbn [rank cond_Zopp] in Hz; pose proof (finite_below m e Hm He); lia|].
    cbn [rank cond_Zopp] in *. apply Z.divide_mul_r. destruct Hor as [->|Hor]; [apply Z.divide_1_l|].
    apply (Hle 24); [|lia..]. apply Z.le_lt_trans with (1 := Hor), Z.le_lt_trans with (1 := Hz). apply Z.mul_lt_mono_pos_r; lia.
Qed.

Lemma rank_max z : valid z -> - 2 ^ 277 <= rank z <= 2 ^ 277.
Proof.
  intros Hv. destruct z as [s|[]| |s m e]; cbn [rank cond_Zopp]; [lia..|]. apply valid_finite in Hv as (Hm & He & _).
  pose proof (finite_below m e Hm He). destruct s; cbn [cond_Zopp]; lia.
Qed.

Lemma rounds_faithful M R U F z : rounds M R U F -> 0 < M -> valid z -> is_nan z = false ->
  (rank z <= M -> rank z <= Z.min (2 ^ 277) R) /\ (M <= rank z -> Z.min (2 ^ 277) R <= rank z).
Proof.
  intros [(E & HE & HU & Hor) ((k & HF) & HM) Hnear] HM0 Hv Hnan. pose proof (rank_max z Hv) as Hmax. assert (0 < U) by (rewrite HU; lia).
  assert (Hk : 0 <= k) by nia. assert (Hm : 0 < F -> F <= rank z -> exists j, rank z = j * U).
  { intros HF0 Hle. rewrite HU. apply (rank_multiple z E F); try done. by rewrite <- HU. }
  assert (HF0 : 0 < F \/ F = 0 /\ U = 1).
  { destruct (Z.eq_dec k 0) as [->|]; [right|left; nia]. destruct Hor as [->|]; [by subst U F|nia]. }
  split; intros Hle.
  - apply Z.min_glb; [lia|]. destruct (Z.le_gt_cases F (rank z)) as [HFz|HFz]; [|lia]. destruct HF0 as [HF0|[-> ->]]; [|lia].
    destruct (Hm HF0 HFz) as [j Hj]. assert (j = k) as -> by nia. lia.
  - destruct Hnear as [->|[-> Hlt]]; [lia|]. apply Z.min_le_iff. right. destruct HF0 as [HF0|[-> ->]]; [|lia].
    destruct (Hm HF0 ltac:(lia)) as [j Hj]. assert (k < j) by nia. nia.
Qed.

Lemma fneg_spec x : valid x -> valid (fneg x) /\ is_nan (fneg x) = is_nan x /\ rank (fneg x) = - rank x.
Proof. intros Hv. destruct x as [| | |[]]; cbn [fneg SFopp rank]; (split; [exact Hv|]); (split; [done|]); try destruct s; cbn [negb cond_Zopp]; lia. Qed.

(** Rounding a multiple of 2^ez. *)
Lemma normalize_faithful N ez z : -149 <= ez -> valid z -> is_nan z = false -> let r := binary_normalize 24 128 N ez false in
  valid r /\ is_nan r = false /\ (rank z <= N * 2 ^ (ez + 149) -> rank z <= rank r) /\ (N * 2 ^ (ez + 149) <= rank z -> rank r <= rank z).
Proof.
  intros Hez Hv Hnan. assert (Hp : 0 < 2 ^ (ez + 149)) by lia. destruct N as [|p|p]; cbn [binary_normalize]; [cbn [rank]; split; [done|]; split; [done|]; lia|..].
  - destruct (round_spec false p ez Hez) as (R & U & F & HR & Hrv & Hrn & Hrr). cbv zeta. rewrite Hrr. split; [done|]. split; [done|].
    apply (rounds_faithful _ _ _ _ z HR); [apply Z.mul_pos_pos; lia|done..].
  - destruct (round_spec true p ez Hez) as (R & U & F & HR & Hrv & Hrn & Hrr). cbv zeta. rewrite Hrr. split; [done|]. split; [done|].
    destruct (fneg_spec z Hv) as (Hv' & Hn' & Hr'). destruct (rounds_faithful _ _ _ _ (fneg z) HR) as [H1 H2]; [apply Z.mul_pos_pos; lia|done|by rewrite Hn'|].
    rewrite Hr' in H1, H2. unfold magnitude in *. cbn [cond_Zopp]. lia.
Qed.

(** ** Sums and differences *)

Definition finite (x : f32) : Prop := valid x /\ match x with S754_zero _ | S754_finite _ _ _ => True | _ => False end.

Lemma finite_not_nan x : finite x -> is_nan x = false.
Proof. intros [_ Hx]. by destruct x. Qed.

Lemma finite_valid x : finite x -> valid x.
Proof. by intros [Hv _]. Qed.

Lemma plain_finite x : plain x -> finite x.
Proof. intros [Hv Hx]. split; [done|]. by destruct x. Qed.

(** [r] is between the numbers around the number of rank [N]. *)
Definition faithful (r : f32) (N : Z) : Prop :=
  valid r /\ is_nan r = false /\
  forall z, valid z -> is_nan z = false -> (rank z <= N -> rank z <= rank r) /\ (N <= rank z -> rank r <= rank z).

Lemma faithful_self r : valid r -> is_nan r = false -> faithful r (rank r).
Proof. done. Qed.

Lemma fadd_faithful x y : finite x -> finite y -> faithful (fadd x y) (rank x + rank y).
Proof.
  intros Hx Hy. pose proof Hx as [Vx Px]. pose proof Hy as [Vy Py]. destruct x as [sx| | |sx mx ex]; try done; (destruct y as [sy| | |sy my ey]; try done).
  - by destruct sx, sy.
  - change (rank (S754_zero sy)) with 0. rewrite Z.add_0_r. exact (faithful_self (S754_finite sx mx ex) Vx eq_refl).
  - apply valid_finite in Vx as (_ & He1 & _), Vy as (_ & He2 & _). unfold fadd, SFadd.
    assert (Hr : rank (S754_finite sx mx ex) + rank (S754_finite sy my ey) =
      (cond_Zopp sx (Zpos (fst (shl_align mx ex (Z.min ex ey)))) + cond_Zopp sy (Zpos (fst (shl_align my ey (Z.min ex ey))))) * 2 ^ (Z.min ex ey + 149)).
    { rewrite Z.mul_add_distr_r, !cond_mul, !aligned_value by lia. done. }
    rewrite Hr. split; [|split].
    + by apply (normalize_faithful _ _ fzero); [lia|..].
    + by apply (normalize_faithful _ _ fzero); [lia|..].
    + intros z Hz Hn. apply normalize_faithful; [lia|done..].
Qed.

Lemma fsub_faithful x y : finite x -> finite y -> faithful (fsub x y) (rank x - rank y).
Proof.
  intros Hx Hy. pose proof Hx as [Vx Px]. pose proof Hy as [Vy Py]. destruct x as [sx| | |sx mx ex]; try done; (destruct y as [sy| | |sy my ey]; try done).
  - by destruct sx, sy.
  - destruct (fneg_spec (S754_finite sy my ey) Vy) as (Hv & Hn & Hr). change (rank (S754_zero sx)) with 0. rewrite Z.sub_0_l, <- Hr. exact (faithful_self _ Hv Hn).
  - change (rank (S754_zero sy)) with 0. rewrite Z.sub_0_r. exact (faithful_self (S754_finite sx mx ex) Vx eq_refl).
  - apply valid_finite in Vx as (_ & He1 & _), Vy as (_ & He2 & _). unfold fsub, SFsub.
    assert (Hr : rank (S754_finite sx mx ex) - rank (S754_finite sy my ey) =
      (cond_Zopp sx (Zpos (fst (shl_align mx ex (Z.min ex ey)))) - cond_Zopp sy (Zpos (fst (shl_align my ey (Z.min ex ey))))) * 2 ^ (Z.min ex ey + 149)).
    { rewrite Z.mul_sub_distr_r, !cond_mul, !aligned_value by lia. done. }
    rewrite Hr. split; [|split].
    + by apply (normalize_faithful _ _ fzero); [lia|..].
    + by apply (normalize_faithful _ _ fzero); [lia|..].
    + intros z Hz Hn. apply normalize_faithful; [lia|done..].
Qed.

Lemma finite_rank x n : 0 <= n <= 2 ^ 127 -> valid x -> is_nan x = false -> - n * 2 ^ 149 <= rank x <= n * 2 ^ 149 -> finite x.
Proof.
  intros Hn Hv Hnan Hr. split; [done|]. destruct x as [|[]| |]; try done; cbn [rank cond_Zopp] in Hr.
  all: assert (n * 2 ^ 149 <= 2 ^ 127 * 2 ^ 149) by lia; lia.
Qed.

Lemma fadd_valid x y : valid x -> valid y -> valid (fadd x y).
Proof.
  intros Hx Hy. destruct x as [sx|sx| |sx mx ex], y as [sy|sy| |sy my ey]; try done; [by destruct sx, sy|by destruct sx, sy|].
  by apply (fadd_faithful (S754_finite sx mx ex) (S754_finite sy my ey)).
Qed.

Lemma fsub_valid x y : valid x -> valid y -> valid (fsub x y).
Proof.
  intros Hx Hy. destruct x as [sx|sx| |sx mx ex], y as [sy|sy| |sy my ey]; try done; [by destruct sx, sy|by destruct sx, sy|].
  by apply (fsub_faithful (S754_finite sx mx ex) (S754_finite sy my ey)).
Qed.

Lemma fmin_valid x y : valid x -> valid y -> valid (fmin x y).
Proof. unfold fmin. by repeat case_match. Qed.
Lemma fmax_valid x y : valid x -> valid y -> valid (fmax x y).
Proof. unfold fmax. by repeat case_match. Qed.

Lemma of_int_valid_any z : valid (of_int z).
Proof. by apply (normalize_faithful z 0 fzero). Qed.

(** Integers of 32 bits are finite numbers. *)
Lemma of_int_finite z : Z.abs z <= 2 ^ 32 -> finite (of_int z) /\ (0 <= z -> 0 <= rank (of_int z)).
Proof.
  intros Hz. assert (Hf : forall x, valid x -> is_nan x = false -> (rank x <= z * 2 ^ 149 -> rank x <= rank (of_int z)) /\ (z * 2 ^ 149 <= rank x -> rank (of_int z) <= rank x)).
  { intros x Vx Nx. apply (normalize_faithful z 0 x ltac:(lia) Vx Nx). }
  destruct (normalize_faithful z 0 fzero) as (V & N & _); [lia|done|done|]. fold (of_int z) in V, N.
  split; [|intros H0; apply (Hf fzero); [done|done|change (rank fzero) with 0; lia]].
  apply (finite_rank _ (2 ^ 33)); [lia|done|done|].
  assert (R : rank (of_int (2 ^ 33)) = 2 ^ 33 * 2 ^ 149 /\ rank (of_int (- 2 ^ 33)) = - 2 ^ 33 * 2 ^ 149) by (split; by vm_compute).
  destruct R as [R1 R2]. split.
  - rewrite <- R2. apply (Hf (of_int (- 2 ^ 33))); [by vm_compute|done|rewrite R2; lia].
  - rewrite <- R1. apply (Hf (of_int (2 ^ 33))); [by vm_compute|done|rewrite R1; lia].
Qed.

Lemma fabs_spec x : valid x -> valid (fabs x) /\ is_nan (fabs x) = is_nan x /\ rank (fabs x) = Z.abs (rank x).
Proof.
  intros Hv. destruct x as [s|s| |s m e]; cbn [fabs SFabs rank is_nan cond_Zopp]; (split; [exact Hv|]); (split; [done|]); try done.
  - by destruct s.
  - apply valid_finite in Hv as (Hm & He & _). pose proof (finite_below m e Hm He). destruct s; cbn [cond_Zopp]; lia.
Qed.

(** ** Quotients *)

Lemma aux_valid s m e l : 0 <= m -> let E := fexp32 (Zdigits2 m + e) in e <= E -> (m = 0 -> E = -149) ->
  exists r, binary_round_aux 24 128 s m e l = r /\ valid r /\ is_nan r = false /\ exists k, 0 <= k /\ rank r = cond_Zopp s k.
Proof.
  intros Hm E He H0. unfold binary_round_aux, shr_fexp at 1. change (fexp 24 128 (Zdigits2 m + e)) with E. set (n := E - e) in *.
  assert (HE : -149 <= E) by (unfold E; rewrite fexp32_eq; lia).
  assert (Hmrs : exists mrs, shr (shr_record_of_loc m l) e n = (mrs, E) /\ shr_m mrs = m / 2 ^ n).
  { assert (Hl : exists r s, shr_record_of_loc m l = Build_shr_record m r s) by (destruct l as [|[]]; cbn; eauto). destruct Hl as (b1 & b2 & ->).
    destruct n as [|k|k] eqn:En; [|..|lia]; cbn [shr].
    - eexists. split; [f_equal; lia|]. cbn [shr_m]. by rewrite Z.pow_0_r, Z.div_1_r.
    - eexists. split; [f_equal; lia|]. by apply shr_floor. }
  destruct Hmrs as (mrs & -> & Hq). rewrite Hq. set (q := m / 2 ^ n) in *. assert (Hpn : 0 < 2 ^ n) by lia.
  assert (Hqr : 0 <= q < 2 ^ 24 /\ (E = -149 \/ 2 ^ 23 <= q)).
  { destruct m as [|p|p]; [|..|lia].
    - specialize (H0 eq_refl). unfold q. rewrite Z.div_0_l by lia. lia.
    - assert (HEe : E = Z.max (Z.log2 (Zpos p) + 1 + e - 24) (-149)) by (unfold E; by rewrite log2_digits, fexp32_eq).
      assert (Hn : n = E - e) by done. clearbody E n. pose proof (Z.log2_spec (Zpos p) eq_refl) as [Hlo Hhi]. pose proof (Z.log2_nonneg (Zpos p)).
      split; [split; [apply Z.div_pos; lia|]|].
      + apply Z.div_lt_upper_bound; [lia|]. rewrite <- Z.pow_add_r by lia. apply Z.lt_le_trans with (1 := Hhi). apply Z.pow_le_mono_r; lia.
      + destruct (Z.eq_dec E (-149)) as [HE'|HE']; [by left|right]. apply Z.div_le_lower_bound; [lia|].
        rewrite <- Z.pow_add_r by lia. apply Z.le_trans with (2 := Hlo). apply Z.pow_le_mono_r; lia. }
  assert (Hr : exists q', round_nearest_even q (loc_of_shr_record mrs) = q' /\ q <= q' <= q + 1).
  { eexists. split; [reflexivity|]. destruct (loc_of_shr_record mrs) as [|[]]; cbn [round_nearest_even]; [..|]; try destruct (Z.even q); lia. }
  destruct Hr as (q' & -> & Hq'). destruct (Z.eq_dec q' 0) as [->|Hq0].
  - unfold shr_fexp. cbn [shr_record_of_loc]. assert (HE1 : E = -149) by lia. rewrite HE1. exists (S754_zero s). split; [done|]. split; [done|]. split; [done|]. exists 0. split; [lia|by destruct s].
  - destruct (finish_round s q' E) as (r & Hr & Hv & Hn & Hk); [lia|lia|lia|]. exists r. split; [exact Hr|]. split; [done|]. split; [done|].
    exists (Z.min (2 ^ 277) (magnitude q' E)). split; [|done]. apply Z.min_glb; [lia|]. apply Z.mul_nonneg_nonneg; lia.
Qed.

(** The quotient by a positive number keeps the sign. *)
Lemma fdiv_sign x y : finite x -> finite y -> 0 < rank y ->
  valid (fdiv x y) /\ is_nan (fdiv x y) = false /\ (0 <= rank x -> 0 <= rank (fdiv x y)).
Proof.
  intros [Vx Px] [Vy Py] Hy. destruct y as [| | |sy my ey]; try done. destruct x as [sx| | |sx mx ex]; try done.
  assert (sy = false) as ->.
  { destruct sy; [|done]. cbn [rank cond_Zopp] in Hy. apply valid_finite in Vy as (Hm & He & _). pose proof (finite_below my ey Hm He). lia. }
  clear Hy. unfold fdiv, SFdiv, SFdiv_core_binary. set (D := Zdigits2 (Zpos mx) + ex - (Zdigits2 (Zpos my) + ey)).
  change (fexp 24 128 D) with (fexp32 D). set (e := Z.min (fexp32 D) (ex - ey)). set (n := ex - ey - e). assert (Hn : 0 <= n) by lia.
  assert (Hm : match n with 0 => Zpos mx | Zpos _ => Z.shiftl (Zpos mx) n | Zneg _ => 0 end = Zpos mx * 2 ^ n).
  { destruct n as [|k|k] eqn:En; [lia|by rewrite Z.shiftl_mul_pow2 by lia|lia]. }
  rewrite Hm. pose proof (Z_div_mod (Zpos mx * 2 ^ n) (Zpos my) eq_refl) as Hdm. destruct (Z.div_eucl _ _) as [q r]. destruct Hdm as [Hdm Hr].
  assert (0 < 2 ^ n) by lia. assert (Hq : 0 <= q) by nia. assert (HD : D = Z.log2 (Zpos mx) + 1 + ex - (Z.log2 (Zpos my) + 1 + ey)) by (unfold D; by rewrite !log2_digits).
  assert (He : e = Z.min (fexp32 D) (ex - ey)) by done. assert (Hne : n = ex - ey - e) by done. clear Hm. clearbody D e n. rewrite fexp32_eq in He.
  pose proof (Z.log2_spec (Zpos mx) eq_refl) as [Hxlo _]. pose proof (Z.log2_spec (Zpos my) eq_refl) as [_ Hyhi].
  pose proof (Z.log2_nonneg (Zpos mx)). pose proof (Z.log2_nonneg (Zpos my)). set (dx := Z.log2 (Zpos mx)) in *. set (dy := Z.log2 (Zpos my)) in *.
  assert (Hbig : dx + n - (dy + 1) < 0 \/ 2 ^ (dx + n - (dy + 1)) <= q).
  { destruct (Z.lt_ge_cases (dx + n - (dy + 1)) 0) as [Hneg|Hnn]; [by left|right]. apply Z.lt_succ_r.
    apply (Z.mul_lt_mono_pos_l (Zpos my)); [lia|]. apply Z.le_lt_trans with (Zpos mx * 2 ^ n); [|lia].
    apply Z.le_trans with (2 ^ (dy + 1) * 2 ^ (dx + n - (dy + 1))); [apply Z.mul_le_mono_nonneg_r; lia|].
    rewrite <- Z.pow_add_r by lia. replace (dy + 1 + (dx + n - (dy + 1))) with (dx + n) by lia. rewrite Z.pow_add_r by lia. apply Z.mul_le_mono_nonneg_r; lia. }
  destruct (aux_valid (xorb sx false) q e (new_location (Zpos my) r) Hq) as (res & -> & Hv & Hnan & k & Hk & Hrk).
  - rewrite fexp32_eq. destruct (Z.lt_ge_cases (dx + n - (dy + 1)) 0) as [Hneg|Hnn]; [lia|]. destruct Hbig as [Hneg|Hpos]; [lia|].
    assert (0 < 2 ^ (dx + n - (dy + 1))) by lia. destruct q as [|p|p]; [lia| |lia]. rewrite log2_digits.
    assert (dx + n - (dy + 1) <= Z.log2 (Zpos p)) by (apply Z.log2_le_pow2; lia). lia.
  - intros Hq0. rewrite Hq0 in *. rewrite fexp32_eq. change (Zdigits2 0) with 0.
    destruct (Z.lt_ge_cases (dx + n - (dy + 1)) 0); [lia|]. destruct Hbig as [Hneg|Hpos]; [lia|]. assert (0 < 2 ^ (dx + n - (dy + 1))) by lia. lia.
  - split; [done|]. split; [done|]. intros Hx. rewrite Hrk. destruct sx; [|done]. exfalso. apply valid_finite in Vx as (Hmx & Hex & _).
    pose proof (finite_below mx ex Hmx Hex). cbn [rank cond_Zopp] in Hx. lia.
Qed.

Lemma fdiv_valid x y : valid x -> finite y -> 0 < rank y -> valid (fdiv x y).
Proof.
  intros Vx Fy Hy. destruct x as [sx|sx| |sx mx ex].
  1, 4: by apply fdiv_sign; [split|..].
  - destruct Fy as [_ Py]. by destruct y.
  - destruct Fy as [_ Py]. by destruct y.
Qed.

#[global] Arguments fdiv _ _ : simpl never.
#[global] Arguments fadd _ _ : simpl never.
#[global] Arguments fsub _ _ : simpl never.
#[global] Arguments of_int _ : simpl never.
