(* ===== verification/Geometry.v ===== *)
(** * crates/math: axes, points, sizes and areas

    The plane of the drawing code, with single-precision coordinates. An area
    holds its left and upper edges and not its right and lower ones; the
    comparisons of a NaN are all false. *)

From Stdlib Require Import Lia SpecFloat.
From stdpp Require Import base numbers option tactics list.
From S2P Require Import Prelude Float32.

Local Open Scope Z_scope.

(** ** math.rs *)

Inductive Axis : Type := Horizontal | Vertical.

#[export] Instance Axis_eq_dec : EqDecision Axis.
Proof. solve_decision. Defined.

Record Point : Type := mkPoint { px : f32; py : f32 }.
Record Size : Type := mkSize { swidth : f32; sheight : f32 }.

Definition cross (a : Axis) : Axis := match a with Horizontal => Vertical | Vertical => Horizontal end.

Definition pack_point (a : Axis) (axis_value cross_value : f32) : Point :=
  match a with Horizontal => mkPoint axis_value cross_value | Vertical => mkPoint cross_value axis_value end.

Definition pack_size (a : Axis) (axis_value cross_value : f32) : Size :=
  match a with Horizontal => mkSize axis_value cross_value | Vertical => mkSize cross_value axis_value end.

Definition fone : f32 := of_int 1.

(** ** point.rs *)

Definition Point_new (x y : f32) : Point := mkPoint x y.
Definition Point_ORIGIN : Point := Point_new fzero fzero.
Definition Point_ONE_ONE : Point := Point_new fone fone.
Definition Point_splat (value : f32) : Point := Point_new value value.
Definition Point_axis_value (p : Point) (a : Axis) : f32 := match a with Horizontal => px p | Vertical => py p end.
Definition Point_const_add (p q : Point) : Point := Point_new (fadd (px p) (px q)) (fadd (py p) (py q)).
Definition Point_const_sub (p q : Point) : Point := Point_new (fsub (px p) (px q)) (fsub (py p) (py q)).
Definition Point_min (p q : Point) : Point := Point_new (fmin (px p) (px q)) (fmin (py p) (py q)).
Definition Point_max (p q : Point) : Point := Point_new (fmax (px p) (px q)) (fmax (py p) (py q)).
Definition Point_clamp (p lo hi : Point) : Point := Point_min (Point_max p lo) hi.
Definition Point_lerp (p q : Point) (value : f32) : Point :=
  let inv := fsub fone value in
  Point_new (fadd (fmul inv (px p)) (fmul value (px q))) (fadd (fmul inv (py p)) (fmul value (py q))).
(** [Add<Size>]; [AddAssign<Size>] stores its result. *)
Definition Point_add_size (p : Point) (s : Size) : Point := Point_new (fadd (px p) (swidth s)) (fadd (py p) (sheight s)).
Definition Point_add_assign (p : Point) (s : Size) : Point := mkPoint (fadd (px p) (swidth s)) (fadd (py p) (sheight s)).
Definition Point_neg (p : Point) : Point := Point_new (fneg (px p)) (fneg (py p)).

(** ** size.rs *)

Definition Size_new (width height : f32) : Size := mkSize width height.
Definition Size_ZERO : Size := Size_new fzero fzero.
Definition Size_ONE : Size := Size_new fone fone.
Definition Size_splat (value : f32) : Size := Size_new value value.
Definition Size_from_width (width : f32) : Size := mkSize width fzero.
Definition Size_from_height (height : f32) : Size := mkSize fzero height.
Definition Size_axis_value (s : Size) (a : Axis) : f32 := match a with Horizontal => swidth s | Vertical => sheight s end.
Definition Size_scale (s : Size) (value : f32) : Size := Size_new (fmul (swidth s) value) (fmul (sheight s) value).
Definition Size_const_add (s t : Size) : Size := Size_new (fadd (swidth s) (swidth t)) (fadd (sheight s) (sheight t)).
Definition Size_const_sub (s t : Size) : Size := Size_new (fsub (swidth s) (swidth t)) (fsub (sheight s) (sheight t)).
Definition Size_min (s t : Size) : Size := Size_new (fmin (swidth s) (swidth t)) (fmin (sheight s) (sheight t)).
Definition Size_max (s t : Size) : Size := Size_new (fmax (swidth s) (swidth t)) (fmax (sheight s) (sheight t)).
Definition Size_clamp (s lo hi : Size) : Size := Size_min (Size_max s lo) hi.
Definition Size_lerp (s t : Size) (value : f32) : Size := Size_const_add (Size_scale s (fsub fone value)) (Size_scale t value).
Definition Size_add_assign (s t : Size) : Size := mkSize (fadd (swidth s) (swidth t)) (fadd (sheight s) (sheight t)).
Definition Size_neg (s : Size) : Size := Size_new (fneg (swidth s)) (fneg (sheight s)).

(** ** area.rs *)

Record Area : Type := mkArea { apos : Point; asize : Size }.

Definition Area_new (pos : Point) (size : Size) : Area := mkArea pos size.
Definition Area_ZERO : Area := Area_new Point_ORIGIN Size_ZERO.
Definition Area_from_pos (pos : Point) : Area := mkArea pos Size_ZERO.
Definition Area_from_size (size : Size) : Area := mkArea Point_ORIGIN size.
Definition Area_with_pos (a : Area) (pos : Point) : Area := mkArea pos (asize a).
Definition Area_with_size (a : Area) (size : Size) : Area := mkArea (apos a) size.
(** The setters store these. *)
Definition Area_set_pos (a : Area) (pos : Point) : Area := mkArea pos (asize a).
Definition Area_set_size (a : Area) (size : Size) : Area := mkArea (apos a) size.
Definition Area_width (a : Area) : f32 := swidth (asize a).
Definition Area_height (a : Area) : f32 := sheight (asize a).
Definition Area_x (a : Area) : f32 := px (apos a).
Definition Area_y (a : Area) : f32 := py (apos a).
Definition Area_max_x (a : Area) : f32 := fadd (Area_x a) (Area_width a).
Definition Area_max_y (a : Area) : f32 := fadd (Area_y a) (Area_height a).
Definition Area_contains (a : Area) (p : Point) : bool :=
  fle (Area_x a) (px p) && fle (Area_y a) (py p) && flt (px p) (Area_max_x a) && flt (py p) (Area_max_y a).
(** [a > b] is [b < a]. *)
Definition Area_intersects (a b : Area) : bool :=
  flt (Area_x a) (Area_max_x b) && flt (Area_y a) (Area_max_y b) && flt (Area_x b) (Area_max_x a) && flt (Area_y b) (Area_max_y a).

(** The examples of the documentation of the crate. *)

Definition ipoint (x y : Z) : Point := mkPoint (of_int x) (of_int y).
Definition isize (w h : Z) : Size := mkSize (of_int w) (of_int h).
Definition iarea (x y w h : Z) : Area := mkArea (ipoint x y) (isize w h).

Example Area_contains_doc : let area := Area_from_size (isize 1 1) in
  Area_contains area <$> [Point_ORIGIN; ipoint 1 1; ipoint 0 1; ipoint 1 0] = [true; false; false; false].
Proof. by vm_compute. Qed.
Example Area_intersects_doc : let area_1 := iarea (-1) (-1) 2 2 in
  Area_intersects area_1 <$> [iarea 0 0 1 1; iarea 1 1 1 1] = [true; false].
Proof. by vm_compute. Qed.

(** ** Areas *)

Lemma Area_intersects_comm a b : Area_intersects a b = Area_intersects b a.
Proof. unfold Area_intersects. by destruct (flt _ _), (flt _ _), (flt _ _), (flt _ _). Qed.

(** The order is transitive, whatever the numbers are. *)
Lemma fle_flt_trans x y z : fle x y = true -> flt y z = true -> flt x z = true.
Proof.
  unfold fle, flt, SFleb, SFltb, SFcompare.
  destruct x as [sx|[]| |[] mx ex], y as [sy|[]| |[] my ey]; try discriminate; (destruct z as [sz|[]| |[] mz ez]; try done).
  all: destruct (Z.compare_spec ex ey), (Z.compare_spec ey ez); try discriminate; intros H1 H2.
  all: try (rewrite (proj2 (Z.compare_lt_iff ex ez)) by lia; done).
  all: try (rewrite (proj2 (Z.compare_gt_iff ex ez)) by lia; done).
  all: replace ex with ez by lia; rewrite Z.compare_refl; change (Pos.compare_cont Eq) with Pos.compare in *.
  all: destruct (Pos.compare_spec mx my), (Pos.compare_spec my mz), (Pos.compare_spec mx mz); try discriminate; try done; lia.
Qed.

Lemma contains_edges a p : Area_contains a p = true ->
  fle (Area_x a) (px p) = true /\ fle (Area_y a) (py p) = true /\ flt (px p) (Area_max_x a) = true /\ flt (py p) (Area_max_y a) = true.
Proof. unfold Area_contains. rewrite !andb_true_iff. tauto. Qed.

(** Areas with a common point intersect, whatever their edges round to. *)
Lemma common_point_intersects a b p : Area_contains a p = true -> Area_contains b p = true -> Area_intersects a b = true.
Proof.
  intros (A1 & A2 & A3 & A4)%contains_edges (B1 & B2 & B3 & B4)%contains_edges. unfold Area_intersects.
  by rewrite (fle_flt_trans _ _ _ A1 B3), (fle_flt_trans _ _ _ A2 B4), (fle_flt_trans _ _ _ B1 A3), (fle_flt_trans _ _ _ B2 A4).
Qed.
