(* ===== verification/Font.v ===== *)
(** * crates/framebuffer/src/font.rs: the font

    The bitmaps of 256 characters of 8 by 16 pixels, in eight parts; the most
    significant bit of a byte is the leftmost pixel of a row. *)

From stdpp Require Import base numbers list.

Local Open Scope Z_scope.

Definition CHAR_WIDTH : Z := 9.
Definition CHAR_HEIGHT : Z := 16.

(** The characters 0 to 31. *)
Definition BASIC_FONT_0 : list (list Z) := [
  [0; 0; 0; 0; 0; 0; 0; 0; 0; 0; 0; 0; 0; 0; 0; 0];
  [0; 0; 0x7E; 0x81; 0xA5; 0x81; 0x81; 0xBD; 0x99; 0x81; 0x81; 0x7E; 0; 0; 0; 0];
  [0; 0; 0x7E; 0xFF; 0xDB; 0xFF; 0xFF; 0xC3; 0xE7; 0xFF; 0xFF; 0x7E; 0; 0; 0; 0];
  [0; 0; 0; 0; 0x6C; 0xFE; 0xFE; 0xFE; 0xFE; 0x7C; 0x38; 0x10; 0; 0; 0; 0];
  [0; 0; 0; 0; 0x10; 0x38; 0x7C; 0xFE; 0x7C; 0x38; 0x10; 0; 0; 0; 0; 0];
  [0; 0; 0; 0x18; 0x3C; 0x3C; 0xE7; 0xE7; 0xE7; 0x18; 0x18; 0x3C; 0; 0; 0; 0];
  [0; 0; 0; 0x18; 0x3C; 0x7E; 0xFF; 0xFF; 0x7E; 0x18; 0x18; 0x3C; 0; 0; 0; 0];
  [0; 0; 0; 0; 0; 0; 0x18; 0x3C; 0x3C; 0x18; 0; 0; 0; 0; 0; 0];
  [0xFF; 0xFF; 0xFF; 0xFF; 0xFF; 0xFF; 0xE7; 0xC3; 0xC3; 0xE7; 0xFF; 0xFF; 0xFF; 0xFF; 0xFF; 0xFF];
  [0; 0; 0; 0; 0; 0x3C; 0x66; 0x42; 0x42; 0x66; 0x3C; 0; 0; 0; 0; 0];
  [0xFF; 0xFF; 0xFF; 0xFF; 0xFF; 0xC3; 0x99; 0xBD; 0xBD; 0x99; 0xC3; 0xFF; 0xFF; 0xFF; 0xFF; 0xFF];
  [0; 0; 0x1E; 0x0E; 0x1A; 0x32; 0x78; 0xCC; 0xCC; 0xCC; 0xCC; 0x78; 0; 0; 0; 0];
  [0; 0; 0x3C; 0x66; 0x66; 0x66; 0x66; 0x3C; 0x18; 0x7E; 0x18; 0x18; 0; 0; 0; 0];
  [0; 0; 0x3F; 0x33; 0x3F; 0x30; 0x30; 0x30; 0x30; 0x70; 0xF0; 0xE0; 0; 0; 0; 0];
  [0; 0; 0x7F; 0x63; 0x7F; 0x63; 0x63; 0x63; 0x63; 0x67; 0xE7; 0xE6; 0xC0; 0; 0; 0];
  [0; 0; 0; 0x18; 0x18; 0xDB; 0x3C; 0xE7; 0x3C; 0xDB; 0x18; 0x18; 0; 0; 0; 0];
  [0; 0x80; 0xC0; 0xE0; 0xF0; 0xF8; 0xFE; 0xF8; 0xF0; 0xE0; 0xC0; 0x80; 0; 0; 0; 0];
  [0; 0x02; 0x06; 0x0E; 0x1E; 0x3E; 0xFE; 0x3E; 0x1E; 0x0E; 0x06; 0x02; 0; 0; 0; 0];
  [0; 0; 0x18; 0x3C; 0x7E; 0x18; 0x18; 0x18; 0x7E; 0x3C; 0x18; 0; 0; 0; 0; 0];
  [0; 0; 0x66; 0x66; 0x66; 0x66; 0x66; 0x66; 0x66; 0; 0x66; 0x66; 0; 0; 0; 0];
  [0; 0; 0x7F; 0xDB; 0xDB; 0xDB; 0x7B; 0x1B; 0x1B; 0x1B; 0x1B; 0x1B; 0; 0; 0; 0];
  [0; 0x7C; 0xC6; 0x60; 0x38; 0x6C; 0xC6; 0xC6; 0x6C; 0x38; 0x0C; 0xC6; 0x7C; 0; 0; 0];
  [0; 0; 0; 0; 0; 0; 0; 0; 0xFE; 0xFE; 0xFE; 0xFE; 0; 0; 0; 0];
  [0; 0; 0x18; 0x3C; 0x7E; 0x18; 0x18; 0x18; 0x7E; 0x3C; 0x18; 0x7E; 0; 0; 0; 0];
  [0; 0; 0x18; 0x3C; 0x7E; 0x18; 0x18; 0x18; 0x18; 0x18; 0x18; 0x18; 0; 0; 0; 0];
  [0; 0; 0x18; 0x18; 0x18; 0x18; 0x18; 0x18; 0x18; 0x7E; 0x3C; 0x18; 0; 0; 0; 0];
  [0; 0; 0; 0; 0; 0x18; 0x0C; 0xFE; 0x0C; 0x18; 0; 0; 0; 0; 0; 0];
  [0; 0; 0; 0; 0; 0x30; 0x60; 0xFE; 0x60; 0x30; 0; 0; 0; 0; 0; 0];
  [0; 0; 0; 0; 0; 0; 0xC0; 0xC0; 0xC0; 0xFE; 0; 0; 0; 0; 0; 0];
  [0; 0; 0; 0; 0; 0x28; 0x6C; 0xFE; 0x6C; 0x28; 0; 0; 0; 0; 0; 0];
  [0; 0; 0; 0; 0x10; 0x38; 0x38; 0x7C; 0x7C; 0xFE; 0xFE; 0; 0; 0; 0; 0];
  [0; 0; 0; 0; 0xFE; 0xFE; 0x7C; 0x7C; 0x38; 0x38; 0x10; 0; 0; 0; 0; 0]
].

(** The characters 32 to 63. *)
Definition BASIC_FONT_32 : list (list Z) := [
  [0; 0; 0; 0; 0; 0; 0; 0; 0; 0; 0; 0; 0; 0; 0; 0];
  [0; 0; 0x18; 0x3C; 0x3C; 0x3C; 0x18; 0x18; 0x18; 0; 0x18; 0x18; 0; 0; 0; 0];
  [0; 0x66; 0x66; 0x66; 0x24; 0; 0; 0; 0; 0; 0; 0; 0; 0; 0; 0];
  [0; 0; 0; 0x6C; 0x6C; 0xFE; 0x6C; 0x6C; 0x6C; 0xFE; 0x6C; 0x6C; 0; 0; 0; 0];
  [0x18; 0x18; 0x7C; 0xC6; 0xC2; 0xC0; 0x7C; 0x06; 0x06; 0x86; 0xC6; 0x7C; 0x18; 0x18; 0; 0];
  [0; 0; 0; 0; 0xC2; 0xC6; 0x0C; 0x18; 0x30; 0x60; 0xC6; 0x86; 0; 0; 0; 0];
  [0; 0; 0x38; 0x6C; 0x6C; 0x38; 0x76; 0xDC; 0xCC; 0xCC; 0xCC; 0x76; 0; 0; 0; 0];
  [0; 0x30; 0x30; 0x30; 0x60; 0; 0; 0; 0; 0; 0; 0; 0; 0; 0; 0];
  [0; 0; 0x0C; 0x18; 0x30; 0x30; 0x30; 0x30; 0x30; 0x30; 0x18; 0x0C; 0; 0; 0; 0];
  [0; 0; 0x30; 0x18; 0x0C; 0x0C; 0x0C; 0x0C; 0x0C; 0x0C; 0x18; 0x30; 0; 0; 0; 0];
  [0; 0; 0; 0; 0; 0x66; 0x3C; 0xFF; 0x3C; 0x66; 0; 0; 0; 0; 0; 0];
  [0; 0; 0; 0; 0; 0x18; 0x18; 0x7E; 0x18; 0x18; 0; 0; 0; 0; 0; 0];
  [0; 0; 0; 0; 0; 0; 0; 0; 0; 0x18; 0x18; 0x18; 0x30; 0; 0; 0];
  [0; 0; 0; 0; 0; 0; 0; 0xFE; 0; 0; 0; 0; 0; 0; 0; 0];
  [0; 0; 0; 0; 0; 0; 0; 0; 0; 0; 0x18; 0x18; 0; 0; 0; 0];
  [0; 0; 0; 0; 0x02; 0x06; 0x0C; 0x18; 0x30; 0x60; 0xC0; 0x80; 0; 0; 0; 0];
  [0; 0; 0x38; 0x6C; 0xC6; 0xC6; 0xD6; 0xD6; 0xC6; 0xC6; 0x6C; 0x38; 0; 0; 0; 0];
  [0; 0; 0x18; 0x38; 0x78; 0x18; 0x18; 0x18; 0x18; 0x18; 0x18; 0x7E; 0; 0; 0; 0];
  [0; 0; 0x7C; 0xC6; 0x06; 0x0C; 0x18; 0x30; 0x60; 0xC0; 0xC6; 0xFE; 0; 0; 0; 0];
  [0; 0; 0x7C; 0xC6; 0x06; 0x06; 0x3C; 0x06; 0x06; 0x06; 0xC6; 0x7C; 0; 0; 0; 0];
  [0; 0; 0x0C; 0x1C; 0x3C; 0x6C; 0xCC; 0xFE; 0x0C; 0x0C; 0x0C; 0x1E; 0; 0; 0; 0];
  [0; 0; 0xFE; 0xC0; 0xC0; 0xC0; 0xFC; 0x06; 0x06; 0x06; 0xC6; 0x7C; 0; 0; 0; 0];
  [0; 0; 0x38; 0x60; 0xC0; 0xC0; 0xFC; 0xC6; 0xC6; 0xC6; 0xC6; 0x7C; 0; 0; 0; 0];
  [0; 0; 0xFE; 0xC6; 0x06; 0x06; 0x0C; 0x18; 0x30; 0x30; 0x30; 0x30; 0; 0; 0; 0];
  [0; 0; 0x7C; 0xC6; 0xC6; 0xC6; 0x7C; 0xC6; 0xC6; 0xC6; 0xC6; 0x7C; 0; 0; 0; 0];
  [0; 0; 0x7C; 0xC6; 0xC6; 0xC6; 0x7E; 0x06; 0x06; 0x06; 0x0C; 0x78; 0; 0; 0; 0];
  [0; 0; 0; 0; 0x18; 0x18; 0; 0; 0; 0x18; 0x18; 0; 0; 0; 0; 0];
  [0; 0; 0; 0; 0x18; 0x18; 0; 0; 0; 0x18; 0x18; 0x30; 0; 0; 0; 0];
  [0; 0; 0; 0x06; 0x0C; 0x18; 0x30; 0x60; 0x30; 0x18; 0x0C; 0x06; 0; 0; 0; 0];
  [0; 0; 0; 0; 0; 0x7E; 0; 0; 0x7E; 0; 0; 0; 0; 0; 0; 0];
  [0; 0; 0; 0x60; 0x30; 0x18; 0x0C; 0x06; 0x0C; 0x18; 0x30; 0x60; 0; 0; 0; 0];
  [0; 0; 0x7C; 0xC6; 0xC6; 0x0C; 0x18; 0x18; 0x18; 0; 0x18; 0x18; 0; 0; 0; 0]
].

(** The characters 64 to 95. *)
Definition BASIC_FONT_64 : list (list Z) := [
  [0; 0; 0; 0x7C; 0xC6; 0xC6; 0xDE; 0xDE; 0xDE; 0xDC; 0xC0; 0x7C; 0; 0; 0; 0];
  [0; 0; 0x10; 0x38; 0x6C; 0xC6; 0xC6; 0xFE; 0xC6; 0xC6; 0xC6; 0xC6; 0; 0; 0; 0];
  [0; 0; 0xFC; 0x66; 0x66; 0x66; 0x7C; 0x66; 0x66; 0x66; 0x66; 0xFC; 0; 0; 0; 0];
  [0; 0; 0x3C; 0x66; 0xC2; 0xC0; 0xC0; 0xC0; 0xC0; 0xC2; 0x66; 0x3C; 0; 0; 0; 0];
  [0; 0; 0xF8; 0x6C; 0x66; 0x66; 0x66; 0x66; 0x66; 0x66; 0x6C; 0xF8; 0; 0; 0; 0];
  [0; 0; 0xFE; 0x66; 0x62; 0x68; 0x78; 0x68; 0x60; 0x62; 0x66; 0xFE; 0; 0; 0; 0];
  [0; 0; 0xFE; 0x66; 0x62; 0x68; 0x78; 0x68; 0x60; 0x60; 0x60; 0xF0; 0; 0; 0; 0];
  [0; 0; 0x3C; 0x66; 0xC2; 0xC0; 0xC0; 0xDE; 0xC6; 0xC6; 0x66; 0x3A; 0; 0; 0; 0];
  [0; 0; 0xC6; 0xC6; 0xC6; 0xC6; 0xFE; 0xC6; 0xC6; 0xC6; 0xC6; 0xC6; 0; 0; 0; 0];
  [0; 0; 0x3C; 0x18; 0x18; 0x18; 0x18; 0x18; 0x18; 0x18; 0x18; 0x3C; 0; 0; 0; 0];
  [0; 0; 0x1E; 0x0C; 0x0C; 0x0C; 0x0C; 0x0C; 0xCC; 0xCC; 0xCC; 0x78; 0; 0; 0; 0];
  [0; 0; 0xE6; 0x66; 0x66; 0x6C; 0x78; 0x78; 0x6C; 0x66; 0x66; 0xE6; 0; 0; 0; 0];
  [0; 0; 0xF0; 0x60; 0x60; 0x60; 0x60; 0x60; 0x60; 0x62; 0x66; 0xFE; 0; 0; 0; 0];
  [0; 0; 0xC6; 0xEE; 0xFE; 0xFE; 0xD6; 0xC6; 0xC6; 0xC6; 0xC6; 0xC6; 0; 0; 0; 0];
  [0; 0; 0xC6; 0xE6; 0xF6; 0xFE; 0xDE; 0xCE; 0xC6; 0xC6; 0xC6; 0xC6; 0; 0; 0; 0];
  [0; 0; 0x7C; 0xC6; 0xC6; 0xC6; 0xC6; 0xC6; 0xC6; 0xC6; 0xC6; 0x7C; 0; 0; 0; 0];
  [0; 0; 0xFC; 0x66; 0x66; 0x66; 0x7C; 0x60; 0x60; 0x60; 0x60; 0xF0; 0; 0; 0; 0];
  [0; 0; 0x7C; 0xC6; 0xC6; 0xC6; 0xC6; 0xC6; 0xC6; 0xD6; 0xDE; 0x7C; 0x0C; 0x0E; 0; 0];
  [0; 0; 0xFC; 0x66; 0x66; 0x66; 0x7C; 0x6C; 0x66; 0x66; 0x66; 0xE6; 0; 0; 0; 0];
  [0; 0; 0x7C; 0xC6; 0xC6; 0x60; 0x38; 0x0C; 0x06; 0xC6; 0xC6; 0x7C; 0; 0; 0; 0];
  [0; 0; 0x7E; 0x7E; 0x5A; 0x18; 0x18; 0x18; 0x18; 0x18; 0x18; 0x3C; 0; 0; 0; 0];
  [0; 0; 0xC6; 0xC6; 0xC6; 0xC6; 0xC6; 0xC6; 0xC6; 0xC6; 0xC6; 0x7C; 0; 0; 0; 0];
  [0; 0; 0xC6; 0xC6; 0xC6; 0xC6; 0xC6; 0xC6; 0xC6; 0x6C; 0x38; 0x10; 0; 0; 0; 0];
  [0; 0; 0xC6; 0xC6; 0xC6; 0xC6; 0xD6; 0xD6; 0xD6; 0xFE; 0xEE; 0x6C; 0; 0; 0; 0];
  [0; 0; 0xC6; 0xC6; 0x6C; 0x7C; 0x38; 0x38; 0x7C; 0x6C; 0xC6; 0xC6; 0; 0; 0; 0];
  [0; 0; 0x66; 0x66; 0x66; 0x66; 0x3C; 0x18; 0x18; 0x18; 0x18; 0x3C; 0; 0; 0; 0];
  [0; 0; 0xFE; 0xC6; 0x86; 0x0C; 0x18; 0x30; 0x60; 0xC2; 0xC6; 0xFE; 0; 0; 0; 0];
  [0; 0; 0x3C; 0x30; 0x30; 0x30; 0x30; 0x30; 0x30; 0x30; 0x30; 0x3C; 0; 0; 0; 0];
  [0; 0; 0; 0x80; 0xC0; 0xE0; 0x70; 0x38; 0x1C; 0x0E; 0x06; 0x02; 0; 0; 0; 0];
  [0; 0; 0x3C; 0x0C; 0x0C; 0x0C; 0x0C; 0x0C; 0x0C; 0x0C; 0x0C; 0x3C; 0; 0; 0; 0];
  [0x10; 0x38; 0x6C; 0xC6; 0; 0; 0; 0; 0; 0; 0; 0; 0; 0; 0; 0];
  [0; 0; 0; 0; 0; 0; 0; 0; 0; 0; 0; 0; 0; 0xFF; 0; 0]
].

(** The characters 96 to 127. *)
Definition BASIC_FONT_96 : list (list Z) := [
  [0x30; 0x30; 0x18; 0; 0; 0; 0; 0; 0; 0; 0; 0; 0; 0; 0; 0];
  [0; 0; 0; 0; 0; 0x78; 0x0C; 0x7C; 0xCC; 0xCC; 0xCC; 0x76; 0; 0; 0; 0];
  [0; 0; 0xE0; 0x60; 0x60; 0x78; 0x6C; 0x66; 0x66; 0x66; 0x66; 0x7C; 0; 0; 0; 0];
  [0; 0; 0; 0; 0; 0x7C; 0xC6; 0xC0; 0xC0; 0xC0; 0xC6; 0x7C; 0; 0; 0; 0];
  [0; 0; 0x1C; 0x0C; 0x0C; 0x3C; 0x6C; 0xCC; 0xCC; 0xCC; 0xCC; 0x76; 0; 0; 0; 0];
  [0; 0; 0; 0; 0; 0x7C; 0xC6; 0xFE; 0xC0; 0xC0; 0xC6; 0x7C; 0; 0; 0; 0];
  [0; 0; 0x38; 0x6C; 0x64; 0x60; 0xF0; 0x60; 0x60; 0x60; 0x60; 0xF0; 0; 0; 0; 0];
  [0; 0; 0; 0; 0; 0x76; 0xCC; 0xCC; 0xCC; 0xCC; 0xCC; 0x7C; 0x0C; 0xCC; 0x78; 0];
  [0; 0; 0xE0; 0x60; 0x60; 0x6C; 0x76; 0x66; 0x66; 0x66; 0x66; 0xE6; 0; 0; 0; 0];
  [0; 0; 0x18; 0x18; 0; 0x38; 0x18; 0x18; 0x18; 0x18; 0x18; 0x3C; 0; 0; 0; 0];
  [0; 0; 0x06; 0x06; 0; 0x0E; 0x06; 0x06; 0x06; 0x06; 0x06; 0x06; 0x66; 0x66; 0x3C; 0];
  [0; 0; 0xE0; 0x60; 0x60; 0x66; 0x6C; 0x78; 0x78; 0x6C; 0x66; 0xE6; 0; 0; 0; 0];
  [0; 0; 0x38; 0x18; 0x18; 0x18; 0x18; 0x18; 0x18; 0x18; 0x18; 0x3C; 0; 0; 0; 0];
  [0; 0; 0; 0; 0; 0xEC; 0xFE; 0xD6; 0xD6; 0xD6; 0xD6; 0xC6; 0; 0; 0; 0];
  [0; 0; 0; 0; 0; 0xDC; 0x66; 0x66; 0x66; 0x66; 0x66; 0x66; 0; 0; 0; 0];
  [0; 0; 0; 0; 0; 0x7C; 0xC6; 0xC6; 0xC6; 0xC6; 0xC6; 0x7C; 0; 0; 0; 0];
  [0; 0; 0; 0; 0; 0xDC; 0x66; 0x66; 0x66; 0x66; 0x66; 0x7C; 0x60; 0x60; 0xF0; 0];
  [0; 0; 0; 0; 0; 0x76; 0xCC; 0xCC; 0xCC; 0xCC; 0xCC; 0x7C; 0x0C; 0x0C; 0x1E; 0];
  [0; 0; 0; 0; 0; 0xDC; 0x76; 0x66; 0x60; 0x60; 0x60; 0xF0; 0; 0; 0; 0];
  [0; 0; 0; 0; 0; 0x7C; 0xC6; 0x60; 0x38; 0x0C; 0xC6; 0x7C; 0; 0; 0; 0];
  [0; 0; 0x10; 0x30; 0x30; 0xFC; 0x30; 0x30; 0x30; 0x30; 0x36; 0x1C; 0; 0; 0; 0];
  [0; 0; 0; 0; 0; 0xCC; 0xCC; 0xCC; 0xCC; 0xCC; 0xCC; 0x76; 0; 0; 0; 0];
  [0; 0; 0; 0; 0; 0x66; 0x66; 0x66; 0x66; 0x66; 0x3C; 0x18; 0; 0; 0; 0];
  [0; 0; 0; 0; 0; 0xC6; 0xC6; 0xD6; 0xD6; 0xD6; 0xFE; 0x6C; 0; 0; 0; 0];
  [0; 0; 0; 0; 0; 0xC6; 0x6C; 0x38; 0x38; 0x38; 0x6C; 0xC6; 0; 0; 0; 0];
  [0; 0; 0; 0; 0; 0xC6; 0xC6; 0xC6; 0xC6; 0xC6; 0xC6; 0x7E; 0x06; 0x0C; 0xF8; 0];
  [0; 0; 0; 0; 0; 0xFE; 0xCC; 0x18; 0x30; 0x60; 0xC6; 0xFE; 0; 0; 0; 0];
  [0; 0; 0x0E; 0x18; 0x18; 0x18; 0x70; 0x18; 0x18; 0x18; 0x18; 0x0E; 0; 0; 0; 0];
  [0; 0; 0x18; 0x18; 0x18; 0x18; 0; 0x18; 0x18; 0x18; 0x18; 0x18; 0; 0; 0; 0];
  [0; 0; 0x70; 0x18; 0x18; 0x18; 0x0E; 0x18; 0x18; 0x18; 0x18; 0x70; 0; 0; 0; 0];
  [0; 0; 0x76; 0xDC; 0; 0; 0; 0; 0; 0; 0; 0; 0; 0; 0; 0];
  [0; 0; 0; 0; 0x10; 0x38; 0x6C; 0xC6; 0xC6; 0xC6; 0xFE; 0; 0; 0; 0; 0]
].

(** The characters 128 to 159. *)
Definition BASIC_FONT_128 : list (list Z) := [
  [0; 0; 0x3C; 0x66; 0xC2; 0xC0; 0xC0; 0xC0; 0xC2; 0x66; 0x3C; 0x0C; 0x06; 0x7C; 0; 0];
  [0; 0; 0xCC; 0; 0; 0xCC; 0xCC; 0xCC; 0xCC; 0xCC; 0xCC; 0x76; 0; 0; 0; 0];
  [0; 0x0C; 0x18; 0x30; 0; 0x7C; 0xC6; 0xFE; 0xC0; 0xC0; 0xC6; 0x7C; 0; 0; 0; 0];
  [0; 0x10; 0x38; 0x6C; 0; 0x78; 0x0C; 0x7C; 0xCC; 0xCC; 0xCC; 0x76; 0; 0; 0; 0];
  [0; 0; 0xCC; 0; 0; 0x78; 0x0C; 0x7C; 0xCC; 0xCC; 0xCC; 0x76; 0; 0; 0; 0];
  [0; 0x60; 0x30; 0x18; 0; 0x78; 0x0C; 0x7C; 0xCC; 0xCC; 0xCC; 0x76; 0; 0; 0; 0];
  [0; 0x38; 0x6C; 0x38; 0; 0x78; 0x0C; 0x7C; 0xCC; 0xCC; 0xCC; 0x76; 0; 0; 0; 0];
  [0; 0; 0; 0; 0x3C; 0x66; 0x60; 0x60; 0x66; 0x3C; 0x0C; 0x06; 0x3C; 0; 0; 0];
  [0; 0x10; 0x38; 0x6C; 0; 0x7C; 0xC6; 0xFE; 0xC0; 0xC0; 0xC6; 0x7C; 0; 0; 0; 0];
  [0; 0; 0xC6; 0; 0; 0x7C; 0xC6; 0xFE; 0xC0; 0xC0; 0xC6; 0x7C; 0; 0; 0; 0];
  [0; 0x60; 0x30; 0x18; 0; 0x7C; 0xC6; 0xFE; 0xC0; 0xC0; 0xC6; 0x7C; 0; 0; 0; 0];
  [0; 0; 0x66; 0; 0; 0x38; 0x18; 0x18; 0x18; 0x18; 0x18; 0x3C; 0; 0; 0; 0];
  [0; 0x18; 0x3C; 0x66; 0; 0x38; 0x18; 0x18; 0x18; 0x18; 0x18; 0x3C; 0; 0; 0; 0];
  [0; 0x60; 0x30; 0x18; 0; 0x38; 0x18; 0x18; 0x18; 0x18; 0x18; 0x3C; 0; 0; 0; 0];
  [0; 0xC6; 0; 0x10; 0x38; 0x6C; 0xC6; 0xC6; 0xFE; 0xC6; 0xC6; 0xC6; 0; 0; 0; 0];
  [0x38; 0x6C; 0x38; 0; 0x38; 0x6C; 0xC6; 0xC6; 0xFE; 0xC6; 0xC6; 0xC6; 0; 0; 0; 0];
  [0x18; 0x30; 0x60; 0; 0xFE; 0x66; 0x60; 0x7C; 0x60; 0x60; 0x66; 0xFE; 0; 0; 0; 0];
  [0; 0; 0; 0; 0; 0xCC; 0x76; 0x36; 0x7E; 0xD8; 0xD8; 0x6E; 0; 0; 0; 0];
  [0; 0; 0x3E; 0x6C; 0xCC; 0xCC; 0xFE; 0xCC; 0xCC; 0xCC; 0xCC; 0xCE; 0; 0; 0; 0];
  [0; 0x10; 0x38; 0x6C; 0; 0x7C; 0xC6; 0xC6; 0xC6; 0xC6; 0xC6; 0x7C; 0; 0; 0; 0];
  [0; 0; 0xC6; 0; 0; 0x7C; 0xC6; 0xC6; 0xC6; 0xC6; 0xC6; 0x7C; 0; 0; 0; 0];
  [0; 0x60; 0x30; 0x18; 0; 0x7C; 0xC6; 0xC6; 0xC6; 0xC6; 0xC6; 0x7C; 0; 0; 0; 0];
  [0; 0x30; 0x78; 0xCC; 0; 0xCC; 0xCC; 0xCC; 0xCC; 0xCC; 0xCC; 0x76; 0; 0; 0; 0];
  [0; 0x60; 0x30; 0x18; 0; 0xCC; 0xCC; 0xCC; 0xCC; 0xCC; 0xCC; 0x76; 0; 0; 0; 0];
  [0; 0; 0xC6; 0; 0; 0xC6; 0xC6; 0xC6; 0xC6; 0xC6; 0xC6; 0x7E; 0x06; 0x0C; 0x78; 0];
  [0; 0xC6; 0; 0x7C; 0xC6; 0xC6; 0xC6; 0xC6; 0xC6; 0xC6; 0xC6; 0x7C; 0; 0; 0; 0];
  [0; 0xC6; 0; 0xC6; 0xC6; 0xC6; 0xC6; 0xC6; 0xC6; 0xC6; 0xC6; 0x7C; 0; 0; 0; 0];
  [0; 0x18; 0x18; 0x3C; 0x66; 0x60; 0x60; 0x60; 0x66; 0x3C; 0x18; 0x18; 0; 0; 0; 0];
  [0; 0x38; 0x6C; 0x64; 0x60; 0xF0; 0x60; 0x60; 0x60; 0x60; 0xE6; 0xFC; 0; 0; 0; 0];
  [0; 0; 0x66; 0x66; 0x3C; 0x18; 0x7E; 0x18; 0x7E; 0x18; 0x18; 0x18; 0; 0; 0; 0];
  [0; 0xF8; 0xCC; 0xCC; 0xF8; 0xC4; 0xCC; 0xDE; 0xCC; 0xCC; 0xCC; 0xC6; 0; 0; 0; 0];
  [0; 0x0E; 0x1B; 0x18; 0x18; 0x18; 0x7E; 0x18; 0x18; 0x18; 0x18; 0x18; 0xD8; 0x70; 0; 0]
].

(** The characters 160 to 191. *)
Definition BASIC_FONT_160 : list (list Z) := [
  [0; 0x18; 0x30; 0x60; 0; 0x78; 0x0C; 0x7C; 0xCC; 0xCC; 0xCC; 0x76; 0; 0; 0; 0];
  [0; 0x0C; 0x18; 0x30; 0; 0x38; 0x18; 0x18; 0x18; 0x18; 0x18; 0x3C; 0; 0; 0; 0];
  [0; 0x18; 0x30; 0x60; 0; 0x7C; 0xC6; 0xC6; 0xC6; 0xC6; 0xC6; 0x7C; 0; 0; 0; 0];
  [0; 0x18; 0x30; 0x60; 0; 0xCC; 0xCC; 0xCC; 0xCC; 0xCC; 0xCC; 0x76; 0; 0; 0; 0];
  [0; 0; 0x76; 0xDC; 0; 0xDC; 0x66; 0x66; 0x66; 0x66; 0x66; 0x66; 0; 0; 0; 0];
  [0x76; 0xDC; 0; 0xC6; 0xE6; 0xF6; 0xFE; 0xDE; 0xCE; 0xC6; 0xC6; 0xC6; 0; 0; 0; 0];
  [0; 0x3C; 0x6C; 0x6C; 0x3E; 0; 0x7E; 0; 0; 0; 0; 0; 0; 0; 0; 0];
  [0; 0x38; 0x6C; 0x6C; 0x38; 0; 0x7C; 0; 0; 0; 0; 0; 0; 0; 0; 0];
  [0; 0; 0x30; 0x30; 0; 0x30; 0x30; 0x60; 0xC0; 0xC6; 0xC6; 0x7C; 0; 0; 0; 0];
  [0; 0; 0; 0; 0; 0; 0xFE; 0xC0; 0xC0; 0xC0; 0xC0; 0; 0; 0; 0; 0];
  [0; 0; 0; 0; 0; 0; 0xFE; 0x06; 0x06; 0x06; 0x06; 0; 0; 0; 0; 0];
  [0; 0xC0; 0xC0; 0xC2; 0xC6; 0xCC; 0x18; 0x30; 0x60; 0xDC; 0x86; 0x0C; 0x18; 0x3E; 0; 0];
  [0; 0xC0; 0xC0; 0xC2; 0xC6; 0xCC; 0x18; 0x30; 0x66; 0xCE; 0x9E; 0x3E; 0x06; 0x06; 0; 0];
  [0; 0; 0x18; 0x18; 0; 0x18; 0x18; 0x18; 0x3C; 0x3C; 0x3C; 0x18; 0; 0; 0; 0];
  [0; 0; 0; 0; 0; 0x36; 0x6C; 0xD8; 0x6C; 0x36; 0; 0; 0; 0; 0; 0];
  [0; 0; 0; 0; 0; 0xD8; 0x6C; 0x36; 0x6C; 0xD8; 0; 0; 0; 0; 0; 0];
  [0x11; 0x44; 0x11; 0x44; 0x11; 0x44; 0x11; 0x44; 0x11; 0x44; 0x11; 0x44; 0x11; 0x44; 0x11; 0x44];
  [0x55; 0xAA; 0x55; 0xAA; 0x55; 0xAA; 0x55; 0xAA; 0x55; 0xAA; 0x55; 0xAA; 0x55; 0xAA; 0x55; 0xAA];
  [0xDD; 0x77; 0xDD; 0x77; 0xDD; 0x77; 0xDD; 0x77; 0xDD; 0x77; 0xDD; 0x77; 0xDD; 0x77; 0xDD; 0x77];
  [0x18; 0x18; 0x18; 0x18; 0x18; 0x18; 0x18; 0x18; 0x18; 0x18; 0x18; 0x18; 0x18; 0x18; 0x18; 0x18];
  [0x18; 0x18; 0x18; 0x18; 0x18; 0x18; 0x18; 0xF8; 0x18; 0x18; 0x18; 0x18; 0x18; 0x18; 0x18; 0x18];
  [0x18; 0x18; 0x18; 0x18; 0x18; 0xF8; 0x18; 0xF8; 0x18; 0x18; 0x18; 0x18; 0x18; 0x18; 0x18; 0x18];
  [0x36; 0x36; 0x36; 0x36; 0x36; 0x36; 0x36; 0xF6; 0x36; 0x36; 0x36; 0x36; 0x36; 0x36; 0x36; 0x36];
  [0; 0; 0; 0; 0; 0; 0; 0xFE; 0x36; 0x36; 0x36; 0x36; 0x36; 0x36; 0x36; 0x36];
  [0; 0; 0; 0; 0; 0xF8; 0x18; 0xF8; 0x18; 0x18; 0x18; 0x18; 0x18; 0x18; 0x18; 0x18];
  [0x36; 0x36; 0x36; 0x36; 0x36; 0xF6; 0x06; 0xF6; 0x36; 0x36; 0x36; 0x36; 0x36; 0x36; 0x36; 0x36];
  [0x36; 0x36; 0x36; 0x36; 0x36; 0x36; 0x36; 0x36; 0x36; 0x36; 0x36; 0x36; 0x36; 0x36; 0x36; 0x36];
  [0; 0; 0; 0; 0; 0xFE; 0x06; 0xF6; 0x36; 0x36; 0x36; 0x36; 0x36; 0x36; 0x36; 0x36];
  [0x36; 0x36; 0x36; 0x36; 0x36; 0xF6; 0x06; 0xFE; 0; 0; 0; 0; 0; 0; 0; 0];
  [0x36; 0x36; 0x36; 0x36; 0x36; 0x36; 0x36; 0xFE; 0; 0; 0; 0; 0; 0; 0; 0];
  [0x18; 0x18; 0x18; 0x18; 0x18; 0xF8; 0x18; 0xF8; 0; 0; 0; 0; 0; 0; 0; 0];
  [0; 0; 0; 0; 0; 0; 0; 0xF8; 0x18; 0x18; 0x18; 0x18; 0x18; 0x18; 0x18; 0x18]
].

(** The characters 192 to 223. *)
Definition BASIC_FONT_192 : list (list Z) := [
  [0x18; 0x18; 0x18; 0x18; 0x18; 0x18; 0x18; 0x1F; 0; 0; 0; 0; 0; 0; 0; 0];
  [0x18; 0x18; 0x18; 0x18; 0x18; 0x18; 0x18; 0xFF; 0; 0; 0; 0; 0; 0; 0; 0];
  [0; 0; 0; 0; 0; 0; 0; 0xFF; 0x18; 0x18; 0x18; 0x18; 0x18; 0x18; 0x18; 0x18];
  [0x18; 0x18; 0x18; 0x18; 0x18; 0x18; 0x18; 0x1F; 0x18; 0x18; 0x18; 0x18; 0x18; 0x18; 0x18; 0x18];
  [0; 0; 0; 0; 0; 0; 0; 0xFF; 0; 0; 0; 0; 0; 0; 0; 0];
  [0x18; 0x18; 0x18; 0x18; 0x18; 0x18; 0x18; 0xFF; 0x18; 0x18; 0x18; 0x18; 0x18; 0x18; 0x18; 0x18];
  [0x18; 0x18; 0x18; 0x18; 0x18; 0x1F; 0x18; 0x1F; 0x18; 0x18; 0x18; 0x18; 0x18; 0x18; 0x18; 0x18];
  [0x36; 0x36; 0x36; 0x36; 0x36; 0x36; 0x36; 0x37; 0x36; 0x36; 0x36; 0x36; 0x36; 0x36; 0x36; 0x36];
  [0x36; 0x36; 0x36; 0x36; 0x36; 0x37; 0x30; 0x3F; 0; 0; 0; 0; 0; 0; 0; 0];
  [0; 0; 0; 0; 0; 0x3F; 0x30; 0x37; 0x36; 0x36; 0x36; 0x36; 0x36; 0x36; 0x36; 0x36];
  [0x36; 0x36; 0x36; 0x36; 0x36; 0xF7; 0; 0xFF; 0; 0; 0; 0; 0; 0; 0; 0];
  [0; 0; 0; 0; 0; 0xFF; 0; 0xF7; 0x36; 0x36; 0x36; 0x36; 0x36; 0x36; 0x36; 0x36];
  [0x36; 0x36; 0x36; 0x36; 0x36; 0x37; 0x30; 0x37; 0x36; 0x36; 0x36; 0x36; 0x36; 0x36; 0x36; 0x36];
  [0; 0; 0; 0; 0; 0xFF; 0; 0xFF; 0; 0; 0; 0; 0; 0; 0; 0];
  [0x36; 0x36; 0x36; 0x36; 0x36; 0xF7; 0; 0xF7; 0x36; 0x36; 0x36; 0x36; 0x36; 0x36; 0x36; 0x36];
  [0x18; 0x18; 0x18; 0x18; 0x18; 0xFF; 0; 0xFF; 0; 0; 0; 0; 0; 0; 0; 0];
  [0x36; 0x36; 0x36; 0x36; 0x36; 0x36; 0x36; 0xFF; 0; 0; 0; 0; 0; 0; 0; 0];
  [0; 0; 0; 0; 0; 0xFF; 0; 0xFF; 0x18; 0x18; 0x18; 0x18; 0x18; 0x18; 0x18; 0x18];
  [0; 0; 0; 0; 0; 0; 0; 0xFF; 0x36; 0x36; 0x36; 0x36; 0x36; 0x36; 0x36; 0x36];
  [0x36; 0x36; 0x36; 0x36; 0x36; 0x36; 0x36; 0x3F; 0; 0; 0; 0; 0; 0; 0; 0];
  [0x18; 0x18; 0x18; 0x18; 0x18; 0x1F; 0x18; 0x1F; 0; 0; 0; 0; 0; 0; 0; 0];
  [0; 0; 0; 0; 0; 0x1F; 0x18; 0x1F; 0x18; 0x18; 0x18; 0x18; 0x18; 0x18; 0x18; 0x18];
  [0; 0; 0; 0; 0; 0; 0; 0x3F; 0x36; 0x36; 0x36; 0x36; 0x36; 0x36; 0x36; 0x36];
  [0x36; 0x36; 0x36; 0x36; 0x36; 0x36; 0x36; 0xFF; 0x36; 0x36; 0x36; 0x36; 0x36; 0x36; 0x36; 0x36];
  [0x18; 0x18; 0x18; 0x18; 0x18; 0xFF; 0x18; 0xFF; 0x18; 0x18; 0x18; 0x18; 0x18; 0x18; 0x18; 0x18];
  [0x18; 0x18; 0x18; 0x18; 0x18; 0x18; 0x18; 0xF8; 0; 0; 0; 0; 0; 0; 0; 0];
  [0; 0; 0; 0; 0; 0; 0; 0x1F; 0x18; 0x18; 0x18; 0x18; 0x18; 0x18; 0x18; 0x18];
  [0xFF; 0xFF; 0xFF; 0xFF; 0xFF; 0xFF; 0xFF; 0xFF; 0xFF; 0xFF; 0xFF; 0xFF; 0xFF; 0xFF; 0xFF; 0xFF];
  [0; 0; 0; 0; 0; 0; 0; 0xFF; 0xFF; 0xFF; 0xFF; 0xFF; 0xFF; 0xFF; 0xFF; 0xFF];
  [0xF0; 0xF0; 0xF0; 0xF0; 0xF0; 0xF0; 0xF0; 0xF0; 0xF0; 0xF0; 0xF0; 0xF0; 0xF0; 0xF0; 0xF0; 0xF0];
  [0x0F; 0x0F; 0x0F; 0x0F; 0x0F; 0x0F; 0x0F; 0x0F; 0x0F; 0x0F; 0x0F; 0x0F; 0x0F; 0x0F; 0x0F; 0x0F];
  [0xFF; 0xFF; 0xFF; 0xFF; 0xFF; 0xFF; 0xFF; 0; 0; 0; 0; 0; 0; 0; 0; 0]
].

(** The characters 224 to 255. *)
Definition BASIC_FONT_224 : list (list Z) := [
  [0; 0; 0; 0; 0; 0x76; 0xDC; 0xD8; 0xD8; 0xD8; 0xDC; 0x76; 0; 0; 0; 0];
  [0; 0; 0x78; 0xCC; 0xCC; 0xCC; 0xD8; 0xCC; 0xC6; 0xC6; 0xC6; 0xCC; 0; 0; 0; 0];
  [0; 0; 0xFE; 0xC6; 0xC6; 0xC0; 0xC0; 0xC0; 0xC0; 0xC0; 0xC0; 0xC0; 0; 0; 0; 0];
  [0; 0; 0; 0; 0xFE; 0x6C; 0x6C; 0x6C; 0x6C; 0x6C; 0x6C; 0x6C; 0; 0; 0; 0];
  [0; 0; 0; 0xFE; 0xC6; 0x60; 0x30; 0x18; 0x30; 0x60; 0xC6; 0xFE; 0; 0; 0; 0];
  [0; 0; 0; 0; 0; 0x7E; 0xD8; 0xD8; 0xD8; 0xD8; 0xD8; 0x70; 0; 0; 0; 0];
  [0; 0; 0; 0; 0x66; 0x66; 0x66; 0x66; 0x66; 0x7C; 0x60; 0x60; 0xC0; 0; 0; 0];
  [0; 0; 0; 0; 0x76; 0xDC; 0x18; 0x18; 0x18; 0x18; 0x18; 0x18; 0; 0; 0; 0];
  [0; 0; 0; 0x7E; 0x18; 0x3C; 0x66; 0x66; 0x66; 0x3C; 0x18; 0x7E; 0; 0; 0; 0];
  [0; 0; 0; 0x38; 0x6C; 0xC6; 0xC6; 0xFE; 0xC6; 0xC6; 0x6C; 0x38; 0; 0; 0; 0];
  [0; 0; 0x38; 0x6C; 0xC6; 0xC6; 0xC6; 0x6C; 0x6C; 0x6C; 0x6C; 0xEE; 0; 0; 0; 0];
  [0; 0; 0x1E; 0x30; 0x18; 0x0C; 0x3E; 0x66; 0x66; 0x66; 0x66; 0x3C; 0; 0; 0; 0];
  [0; 0; 0; 0; 0; 0x7E; 0xDB; 0xDB; 0xDB; 0x7E; 0; 0; 0; 0; 0; 0];
  [0; 0; 0; 0x03; 0x06; 0x7E; 0xDB; 0xDB; 0xF3; 0x7E; 0x60; 0xC0; 0; 0; 0; 0];
  [0; 0; 0x1C; 0x30; 0x60; 0x60; 0x7C; 0x60; 0x60; 0x60; 0x30; 0x1C; 0; 0; 0; 0];
  [0; 0; 0; 0x7C; 0xC6; 0xC6; 0xC6; 0xC6; 0xC6; 0xC6; 0xC6; 0xC6; 0; 0; 0; 0];
  [0; 0; 0; 0; 0xFE; 0; 0; 0xFE; 0; 0; 0xFE; 0; 0; 0; 0; 0];
  [0; 0; 0; 0; 0x18; 0x18; 0x7E; 0x18; 0x18; 0; 0; 0xFF; 0; 0; 0; 0];
  [0; 0; 0; 0x30; 0x18; 0x0C; 0x06; 0x0C; 0x18; 0x30; 0; 0x7E; 0; 0; 0; 0];
  [0; 0; 0; 0x0C; 0x18; 0x30; 0x60; 0x30; 0x18; 0x0C; 0; 0x7E; 0; 0; 0; 0];
  [0; 0; 0x0E; 0x1B; 0x1B; 0x18; 0x18; 0x18; 0x18; 0x18; 0x18; 0x18; 0x18; 0x18; 0x18; 0x18];
  [0x18; 0x18; 0x18; 0x18; 0x18; 0x18; 0x18; 0x18; 0xD8; 0xD8; 0xD8; 0x70; 0; 0; 0; 0];
  [0; 0; 0; 0; 0x18; 0x18; 0; 0x7E; 0; 0x18; 0x18; 0; 0; 0; 0; 0];
  [0; 0; 0; 0; 0; 0x76; 0xDC; 0; 0x76; 0xDC; 0; 0; 0; 0; 0; 0];
  [0; 0x38; 0x6C; 0x6C; 0x38; 0; 0; 0; 0; 0; 0; 0; 0; 0; 0; 0];
  [0; 0; 0; 0; 0; 0; 0; 0x18; 0x18; 0; 0; 0; 0; 0; 0; 0];
  [0; 0; 0; 0; 0; 0; 0; 0; 0x18; 0; 0; 0; 0; 0; 0; 0];
  [0; 0x0F; 0x0C; 0x0C; 0x0C; 0x0C; 0x0C; 0xEC; 0x6C; 0x6C; 0x3C; 0x1C; 0; 0; 0; 0];
  [0; 0xD8; 0x6C; 0x6C; 0x6C; 0x6C; 0x6C; 0; 0; 0; 0; 0; 0; 0; 0; 0];
  [0; 0x70; 0xD8; 0x30; 0x60; 0xC8; 0xF8; 0; 0; 0; 0; 0; 0; 0; 0; 0];
  [0; 0; 0; 0; 0x7C; 0x7C; 0x7C; 0x7C; 0x7C; 0x7C; 0x7C; 0; 0; 0; 0; 0];
  [0; 0; 0; 0; 0; 0; 0; 0; 0; 0; 0; 0; 0; 0; 0; 0]
].

Definition BASIC_FONT : list (list Z) :=
  BASIC_FONT_0 ++ BASIC_FONT_32 ++ BASIC_FONT_64 ++ BASIC_FONT_96 ++ BASIC_FONT_128 ++ BASIC_FONT_160 ++ BASIC_FONT_192 ++ BASIC_FONT_224.

(** The table is complete: 256 bitmaps of 16 bytes. *)
Lemma BASIC_FONT_glyph ch : (ch < 256)%nat ->
  exists g, BASIC_FONT !! ch = Some g /\ length g = 16%nat /\ Forall (fun b => 0 <= b < 2 ^ 8) g.
Proof.
  intros Hch. assert (Hall : Forall (fun g => length g = 16%nat /\ Forall (fun b => 0 <= b < 2 ^ 8) g) BASIC_FONT) by (apply (bool_decide_unpack _); by vm_compute).
  assert (Hlen : length BASIC_FONT = 256%nat) by (by vm_compute). rewrite <- Hlen in Hch.
  destruct (lookup_lt_is_Some_2 _ _ Hch) as [x Hx]. exists x. split; [done|]. exact (proj1 (Forall_lookup _ _) Hall _ _ Hx).
Qed.
