(* ===== verification/Framebuffer.v ===== *)
(** * crates/framebuffer: colours, frame buffers and compositing

    A buffer is a pointer, a width and a height in pixels of four bytes; the
    memory behind the pointers is explicit. The drawing operations write through
    the pointer without further checks, so that their guards, on
    single-precision coordinates, are what keeps them inside the buffer. Proved
    here, for every coordinate, NaN and the infinities included: they write
    nothing else; and what they draw. *)

From Stdlib Require Import Lia SpecFloat.
From stdpp Require Import base numbers option tactics gmap list.
From S2P Require Import Prelude Float32 Rounding Geometry Font.

Local Open Scope Z_scope.
Local Open Scope u64_scope.

(** ** boot_info.rs: the display *)

Inductive PixelFormat : Type := NONE | RGBA8 | RGBX8 | ARGB8 | XRGB8 | BGRA8 | BGRX8 | ABGR8 | XBGR8.

#[export] Instance PixelFormat_eq_dec : EqDecision PixelFormat.
Proof. solve_decision. Defined.

Record DisplayInfo : Type := mkDisplayInfo {
  display_width : Z; display_height : Z; display_stride : Z; display_format : PixelFormat;
  display_framebuffer_addr : Z; display_framebuffer_size : Z
}.

(** ** Memory: 32-bit words by address; what was never written is 0 *)

Notation Words := (gmap Z Z).
Definition load (m : Words) (a : Z) : Z := default 0 (m !! a).

(** [slice.fill(v)] on [n] words at [a]. *)
Fixpoint fill_words (n : nat) (a v : Z) (m : Words) : Words :=
  match n with O => m | S n => fill_words n (a + 4) v (<[a := v]> m) end.

(** [src.copy_to_nonoverlapping(dst, n)]. *)
Fixpoint copy_words (n : nat) (src dst : Z) (m : Words) : Words :=
  match n with O => m | S n => copy_words n (src + 4) (dst + 4) (<[dst := load m src]> m) end.

(** ** Colours *)

Record Color : Type := mkColor { cr : Z; cg : Z; cb : Z; ca : Z }.

#[export] Instance Color_eq_dec : EqDecision Color.
Proof. solve_decision. Defined.

Definition Color_rgba (r g b a : Z) : Color := mkColor r g b a.
Definition Color_rgb (r g b : Z) : Color := mkColor r g b 255.
Definition COLOR_NONE : Color := Color_rgba 0 0 0 0.
Definition COLOR_WHITE : Color := Color_rgb 255 255 255.
Definition COLOR_BLACK : Color := Color_rgb 0 0 0.

(** The fields in memory, in their order. *)
Definition Color_word (c : Color) : Z := Z.lor (Z.lor (cr c) (Z.shiftl (cg c) 8)) (Z.lor (Z.shiftl (cb c) 16) (Z.shiftl (ca c) 24)).
Definition Color_of_word (w : Z) : Color :=
  mkColor (w mod 2 ^ 8) (Z.shiftr w 8 mod 2 ^ 8) (Z.shiftr w 16 mod 2 ^ 8) (Z.shiftr w 24 mod 2 ^ 8).

Definition to_u32 (c : Color) (format : PixelFormat) : exec Z :=
  match format with
  | BGRX8 => Done (Z.lor (Z.lor (Z.shiftl (cr c) 16) (Z.shiftl (cg c) 8)) (Z.shiftl (cb c) 0))
  | RGBX8 => Done (Z.lor (Z.lor (Z.shiftl (cr c) 0) (Z.shiftl (cg c) 8)) (Z.shiftl (cb c) 16))
  | _ => Panic
  end.

Definition Color_blend (c : Color) (pixel : Z) (format : PixelFormat) : exec Z :=
  if ca c =? 0 then Done pixel else to_u32 c format.

(** ** Buffers *)

(** What the two kinds of buffers have in common. *)
Record Surface : Type := mkSurface { s_ptr : Z; s_width : Z; s_height : Z }.

Record Framebuffer : Type := mkFramebuffer { fb_surface : Surface; fb_format : PixelFormat }.
Record ColorBuffer : Type := mkColorBuffer { cb_surface : Surface }.

Definition Framebuffer_new (addr width height : Z) : Framebuffer := mkFramebuffer (mkSurface addr width height) BGRX8.

Record FramebufferStatics : Type := mkFramebufferStatics {
  FRAMEBUFFER_ADDR : Z; FRAMEBUFFER_SIZE : Z; FRAMEBUFFER_WIDTH : Z; FRAMEBUFFER_HEIGHT : Z
}.

Definition Framebuffer_global (st : FramebufferStatics) : exec (option Framebuffer) :=
  if FRAMEBUFFER_ADDR st =? 0 then Done None
  else
    _ ← rust_assert (FRAMEBUFFER_SIZE st / 4 =? FRAMEBUFFER_WIDTH st ⊠ FRAMEBUFFER_HEIGHT st);
    Done (Some (mkFramebuffer (mkSurface (FRAMEBUFFER_ADDR st) (FRAMEBUFFER_WIDTH st) (FRAMEBUFFER_HEIGHT st)) BGRX8)).

Definition Framebuffer_from_display_info (i : DisplayInfo) : exec Framebuffer :=
  _ ← rust_assert (display_framebuffer_size i / 4 =? wrap 32 (display_stride i * display_height i));
  Done (mkFramebuffer (mkSurface (display_framebuffer_addr i) (display_stride i) (display_height i)) (display_format i)).

Definition with_new_addr (fb : Framebuffer) (addr : Z) : Framebuffer :=
  mkFramebuffer (mkSurface addr (s_width (fb_surface fb)) (s_height (fb_surface fb))) (fb_format fb).

Definition to_color_buffer (fb : Framebuffer) : ColorBuffer := mkColorBuffer (fb_surface fb).

(** [ptr.add(i)]. *)
Definition word_addr (s : Surface) (i : Z) : Z := s_ptr s + 4 * i.

Definition surface_len (s : Surface) : Z := s_width s ⊠ s_height s.
Definition surface_size (s : Surface) : Size := Size_new (of_int (s_width s)) (of_int (s_height s)).
Definition surface_area (s : Surface) : Area := Area_from_size (surface_size s).
Definition size_in_bytes (s : Surface) : Z := s_width s ⊠ s_height s ⊠ 4.

Definition point_index (s : Surface) (p : Point) : option Z :=
  if Area_contains (surface_area s) p then Some ((s_width s ⊠ to_usize (py p)) ⊞ to_usize (px p)) else None.

(** Filling and copying of rows, as [fill_area] does it. *)
Definition clear_surface (s : Surface) (v : Z) (m : Words) : Words := fill_words (Z.to_nat (surface_len s)) (s_ptr s) v m.

Definition put_pixel (s : Surface) (p : Point) (v : Z) (m : Words) : Words :=
  <[word_addr s ((to_usize (py p) ⊠ s_width s) ⊞ to_usize (px p)) := v]> m.

(** [for _ in 1..height]: each row is copied from the one above. *)
Fixpoint copy_rows (n : nat) (s : Surface) (width : nat) (ptr : Z) (m : Words) : Words :=
  match n with
  | O => m
  | S n => copy_rows n s width (ptr + 4 * s_width s) (copy_words width ptr (ptr + 4 * s_width s) m)
  end.

Definition fill_surface (s : Surface) (area : Area) (v : Z) (m : Words) : exec Words :=
  x ← fclamp (Area_x area) fzero (of_int (s_width s));
  y ← fclamp (Area_y area) fzero (of_int (s_height s));
  width ← fclamp (Area_width area) fzero (of_int (saturating_sub (s_width s) (to_usize (Area_x area))));
  height ← fclamp (Area_height area) fzero (of_int (saturating_sub (s_height s) (to_usize (Area_y area))));
  if (to_usize width =? 0) || (to_usize height =? 0) then Done m
  else
    let ptr := word_addr s ((to_usize y ⊠ s_width s) ⊞ to_usize x) in
    let m := fill_words (Z.to_nat (to_usize width)) ptr v m in
    Done (copy_rows (Z.to_nat (to_usize height - 1)) s (Z.to_nat (to_usize width)) ptr m).

Definition clear_screen (fb : Framebuffer) (c : Color) (m : Words) : exec Words :=
  color ← to_u32 c (fb_format fb);
  Done (clear_surface (fb_surface fb) color m).
Definition cb_clear_screen (buf : ColorBuffer) (c : Color) (m : Words) : Words := clear_surface (cb_surface buf) (Color_word c) m.

Definition draw_pixel (fb : Framebuffer) (p : Point) (c : Color) (m : Words) : exec Words :=
  if negb (Area_contains (surface_area (fb_surface fb)) p) then Done m
  else color ← to_u32 c (fb_format fb); Done (put_pixel (fb_surface fb) p color m).
Definition cb_draw_pixel (buf : ColorBuffer) (p : Point) (c : Color) (m : Words) : exec Words :=
  if negb (Area_contains (surface_area (cb_surface buf)) p) then Done m
  else Done (put_pixel (cb_surface buf) p (Color_word c) m).

Definition fill_area (fb : Framebuffer) (area : Area) (c : Color) (m : Words) : exec Words :=
  color ← to_u32 c (fb_format fb);
  fill_surface (fb_surface fb) area color m.
Definition cb_fill_area (buf : ColorBuffer) (area : Area) (c : Color) (m : Words) : exec Words :=
  fill_surface (cb_surface buf) area (Color_word c) m.

(** ** Characters *)

(** The colour of a pixel of the character [ch]. *)
Definition glyph_color (ch : Z) (fg_color bg_color : Color) (x_add y_add : f32) : exec Color :=
  if fle fone x_add then
    let index := to_usize (fsub x_add fone) in
    glyph ← unwrap (BASIC_FONT !! Z.to_nat ch);
    font_char ← unwrap (glyph !! Z.to_nat (to_usize y_add));
    Done (if negb (Z.land font_char (Z.shiftr 0x80 (index mod 8)) =? 0) then fg_color else bg_color)
  else Done bg_color.

(** The loop of [draw_ascii_char]; [None] when the fuel runs out. *)
Fixpoint draw_char_loop (s : Surface) (draw : Point -> Color -> Words -> exec Words) (ch : Z) (fg_color bg_color : Color)
    (start_x start_y offset_x : f32) (fuel : nat) (x_add y_add : f32) (m : Words) : exec (option Words) :=
  match fuel with
  | O => Done None
  | S fuel =>
      let pos := mkPoint (fadd start_x x_add) (fadd start_y y_add) in
      m ← if Area_contains (surface_area s) pos then
            color ← glyph_color ch fg_color bg_color x_add y_add;
            draw pos color m
          else Done m;
      let x_add := fadd x_add fone in
      if fle (of_int CHAR_WIDTH) x_add || fle (of_int (s_width s)) (fadd start_x x_add) then
        let y_add := fadd y_add fone in
        if fle (of_int CHAR_HEIGHT) y_add || fle (of_int (s_height s)) (fadd start_y y_add) then Done (Some m)
        else draw_char_loop s draw ch fg_color bg_color start_x start_y offset_x fuel offset_x y_add m
      else draw_char_loop s draw ch fg_color bg_color start_x start_y offset_x fuel x_add y_add m
  end.

Definition draw_char (s : Surface) (draw : Point -> Color -> Words -> exec Words) (fuel : nat) (ch : Z) (fg_color bg_color : Color)
    (pos : Point) (col row : Z) (m : Words) : exec (option Words) :=
  let ch := if ch <? 128 then ch else 63 in
  let start_x := fadd (px pos) (of_int (col ⊠ CHAR_WIDTH)) in
  let start_y := fadd (py pos) (of_int (row ⊠ CHAR_HEIGHT)) in
  let area := Area_new (mkPoint start_x start_y) (mkSize (of_int CHAR_WIDTH) (of_int CHAR_HEIGHT)) in
  if negb (Area_intersects (surface_area s) area) then Done (Some m)
  else
    let offset_x := if flt start_x fzero then fneg start_x else fzero in
    let offset_y := if flt start_y fzero then fneg start_y else fzero in
    draw_char_loop s draw ch fg_color bg_color start_x start_y offset_x fuel offset_x offset_y m.

Definition draw_ascii_char (fuel : nat) (fb : Framebuffer) := draw_char (fb_surface fb) (draw_pixel fb) fuel.
Definition cb_draw_ascii_char (fuel : nat) (buf : ColorBuffer) := draw_char (cb_surface buf) (cb_draw_pixel buf) fuel.

(** ** Compositing *)

(** The slice [start..end] of a buffer's words: its address, in range. *)
Definition slice (s : Surface) (start stop : Z) : exec (Z * nat) :=
  _ ← rust_assert ((start <=? stop) && (stop <=? surface_len s));
  Done (word_addr s start, Z.to_nat (stop - start)).

Fixpoint read_colors (n : nat) (a : Z) (m : Words) : list Color :=
  match n with O => [] | S n => Color_of_word (load m a) :: read_colors n (a + 4) m end.

Fixpoint blend_words (format : PixelFormat) (a : Z) (source : list Color) (m : Words) : exec Words :=
  match source with
  | [] => Done m
  | c :: source => v ← Color_blend c (load m a) format; blend_words format (a + 4) source (<[a := v]> m)
  end.

Definition blend (fb : Framebuffer) (source : list Color) (start_index : Z) (m : Words) : exec Words :=
  '(a, _) ← slice (fb_surface fb) start_index (start_index ⊞ Z.of_nat (length source));
  blend_words (fb_format fb) a source m.

(** One row of [composite_buffer]; [inr] is its [break]. *)
Definition composite_row (source : ColorBuffer) (target : Framebuffer) (target_point : Point)
    (source_start_x source_start_y area_width : f32) (row_offset : Z) (m : Words) : exec (Words + Words) :=
  let source_start := mkPoint source_start_x (fadd source_start_y (of_int row_offset)) in
  match point_index (cb_surface source) source_start with
  | None => Done (inr m)
  | Some source_start_index =>
      let source_end_index := source_start_index ⊞ to_usize area_width in
      match point_index (fb_surface target) (Point_const_add source_start target_point) with
      | None => Done (inr m)
      | Some target_start_index =>
          '(a, n) ← slice (cb_surface source) source_start_index source_end_index;
          m ← blend target (read_colors n a m) target_start_index m;
          Done (inl m)
      end
  end.

(** The part of the source that is drawn: its start and end, in the source's
    coordinates; [None] when nothing is. *)
Definition composite_bounds (damage : option Area) (source : ColorBuffer) (target : Framebuffer) (target_point : Point) : option (Point * Point) :=
  let target_size := surface_size (fb_surface target) in
  let source_size := surface_size (cb_surface source) in
  let area_end := Point_add_size target_point source_size in
  let target_start := mkPoint (fmax (px target_point) fzero) (fmax (py target_point) fzero) in
  let target_end := mkPoint (fmin (swidth target_size) (px area_end)) (fmin (sheight target_size) (py area_end)) in
  if flt (px target_end) fzero || flt (py target_end) fzero
     || flt (swidth target_size) (px target_start) || flt (sheight target_size) (py target_start) then None
  else
    let source_start := Point_const_sub target_start target_point in
    let source_end := Point_const_sub target_end target_point in
    match damage with
    | None => Some (source_start, source_end)
    | Some damage =>
        if negb (Area_intersects (Area_with_pos (surface_area (cb_surface source)) target_point) damage) then None
        else if flt (Area_width damage) (swidth source_size) && flt (Area_height damage) (sheight source_size) then
          Some (Point_max source_start (apos damage), Point_min source_end (Point_add_size (apos damage) (asize damage)))
        else Some (source_start, source_end)
    end.

Definition composite_buffer (damage : option Area) (source : ColorBuffer) (target : Framebuffer) (target_point : Point) (m : Words) : exec Words :=
  let source_size := surface_size (cb_surface source) in
  match composite_bounds damage source target target_point with
  | None => Done m
  | Some (source_start, source_end) =>
      if flt (px source_end) fzero || flt (py source_end) fzero
         || flt (swidth source_size) (px source_start) || flt (sheight source_size) (py source_start) then Done m
      else
        let source_start_x := fmax (px source_start) fzero in
        let source_start_y := fmax (py source_start) fzero in
        let area_width := fsub (fmin (swidth source_size) (px source_end)) source_start_x in
        let area_height := fsub (fmin (sheight source_size) (py source_end)) source_start_y in
        r ← for_ret (seqZ 0 (to_i32 area_height)) (composite_row source target target_point source_start_x source_start_y area_width) m;
        Done (match r with inl m => m | inr m => m end)
  end.

Definition composite (damage : option Area) (sources : list (ColorBuffer * Point)) (target : Framebuffer) (m : Words) : exec Words :=
  for_each sources (fun '(source, point_in_target) => composite_buffer damage source target point_in_target) m.

(** ** Runs of words *)

Lemma load_insert a v (m : Words) b : load (<[a := v]> m) b = if decide (b = a) then v else load m b.
Proof. unfold load. destruct (decide (b = a)) as [->|Hb]. { by rewrite lookup_insert_eq. } by rewrite lookup_insert_ne. Qed.

(** [b] is none of the [n] words at [a]. *)
Definition outside_run (a n b : Z) : Prop := forall i, 0 <= i < n -> b <> a + 4 * i.

Lemma fill_words_out n : forall a v m b, outside_run a (Z.of_nat n) b -> fill_words n a v m !! b = m !! b.
Proof.
  induction n as [|n IH]; intros a v m b Hb; [done|]. cbn [fill_words]. rewrite IH.
  - apply lookup_insert_ne. intros ->. apply (Hb 0); lia.
  - intros i Hi ->. apply (Hb (i + 1)); lia.
Qed.

Lemma fill_words_in n : forall a v m i, 0 <= i < Z.of_nat n -> fill_words n a v m !! (a + 4 * i) = Some v.
Proof.
  induction n as [|n IH]; intros a v m i Hi; [lia|]. cbn [fill_words]. destruct (decide (i = 0)) as [->|Hi0].
  - rewrite fill_words_out by (intros k Hk; lia). replace (a + 4 * 0) with a by lia. apply lookup_insert_eq.
  - replace (a + 4 * i) with (a + 4 + 4 * (i - 1)) by lia. apply IH. lia.
Qed.

Lemma copy_words_out n : forall src dst m b, outside_run dst (Z.of_nat n) b -> copy_words n src dst m !! b = m !! b.
Proof.
  induction n as [|n IH]; intros src dst m b Hb; [done|]. cbn [copy_words]. rewrite IH.
  - apply lookup_insert_ne. intros ->. apply (Hb 0); lia.
  - intros i Hi ->. apply (Hb (i + 1)); lia.
Qed.

Lemma copy_words_in n : forall src dst m i, src + 4 * Z.of_nat n <= dst -> 0 <= i < Z.of_nat n ->
  copy_words n src dst m !! (dst + 4 * i) = Some (load m (src + 4 * i)).
Proof.
  induction n as [|n IH]; intros src dst m i Hd Hi; [lia|]. cbn [copy_words]. destruct (decide (i = 0)) as [->|Hi0].
  - rewrite copy_words_out by (intros k Hk; lia). replace (dst + 4 * 0) with dst by lia. rewrite lookup_insert_eq. do 2 f_equal. lia.
  - replace (dst + 4 * i) with (dst + 4 + 4 * (i - 1)) by lia. rewrite IH by lia. rewrite load_insert.
    rewrite decide_False by lia. do 2 f_equal. lia.
Qed.

(** ** Pictures: what a drawing operation does to a buffer *)

Record surface_ok (s : Surface) : Prop := { ok_width : 0 <= s_width s < 2 ^ 24; ok_height : 0 <= s_height s < 2 ^ 24 }.

Definition pixel_addr (s : Surface) (i j : Z) : Z := word_addr s (j * s_width s + i).
Definition in_surface (s : Surface) (i j : Z) : Prop := 0 <= i < s_width s /\ 0 <= j < s_height s.

(** The words where [f] gives a value hold it, and no other word changes, in
    the buffer or outside. *)
Record drawn (s : Surface) (f : Z -> Z -> option Z) (m m' : Words) : Prop := {
  drawn_pixel : forall i j, in_surface s i j ->
    m' !! pixel_addr s i j = match f i j with Some v => Some v | None => m !! pixel_addr s i j end;
  drawn_only : forall b, (forall i j, in_surface s i j -> b <> pixel_addr s i j) -> m' !! b = m !! b
}.

Definition overlay (f g : Z -> Z -> option Z) (i j : Z) : option Z := match g i j with Some v => Some v | None => f i j end.

Lemma drawn_nothing s m : drawn s (fun _ _ => None) m m.
Proof. by split. Qed.

Lemma drawn_trans s f g m1 m2 m3 : drawn s f m1 m2 -> drawn s g m2 m3 -> drawn s (overlay f g) m1 m3.
Proof.
  intros [P1 O1] [P2 O2]. split.
  - intros i j Hij. rewrite P2, P1 by done. unfold overlay. by destruct (g i j).
  - intros b Hb. by rewrite O2, O1.
Qed.

Lemma drawn_ext s f g m m' : (forall i j, in_surface s i j -> f i j = g i j) -> drawn s f m m' -> drawn s g m m'.
Proof. intros E [P O]. split; [|done]. intros i j Hij. by rewrite P, E. Qed.

Lemma pixel_addr_inj s i j i' j' : 0 <= i < s_width s -> 0 <= i' < s_width s -> pixel_addr s i j = pixel_addr s i' j' -> i = i' /\ j = j'.
Proof.
  intros Hi Hi'. unfold pixel_addr, word_addr. intros E. assert (E' : j * s_width s + i = j' * s_width s + i') by lia.
  assert (Hj : j = j') by (destruct (Z.lt_trichotomy j j') as [?|[?|?]]; [nia|done|nia]). subst j'. lia.
Qed.

Definition in_rect (X Y W H i j : Z) : bool := (X <=? i) && (i <? X + W) && ((Y <=? j) && (j <? Y + H)).
Definition rect (X Y W H v : Z) (i j : Z) : option Z := if in_rect X Y W H i j then Some v else None.

Lemma in_rect_spec X Y W H i j : in_rect X Y W H i j = true <-> (X <= i < X + W /\ Y <= j < Y + H).
Proof. unfold in_rect. rewrite !andb_true_iff, !Z.leb_le, !Z.ltb_lt. tauto. Qed.

(** Words of one row. *)
Lemma drawn_row s X r n v m m' : 0 <= X -> 0 <= n -> X + n <= s_width s -> 0 <= r < s_height s ->
  (forall i, 0 <= i < n -> m' !! (pixel_addr s X r + 4 * i) = Some (v (X + i))) ->
  (forall b, outside_run (pixel_addr s X r) n b -> m' !! b = m !! b) ->
  drawn s (fun i j => if in_rect X r n 1 i j then Some (v i) else None) m m'.
Proof.
  intros HX Hn Hw Hr Hin Hout.
  assert (Ha : forall i, pixel_addr s i r = pixel_addr s X r + 4 * (i - X)) by (intros i; unfold pixel_addr, word_addr; lia). split.
  - intros i j [Hi Hj]. destruct (in_rect X r n 1 i j) eqn:E.
    + apply in_rect_spec in E as [E1 E2]. assert (j = r) as -> by lia. rewrite Ha, Hin by lia. do 2 f_equal. lia.
    + apply Hout. intros k Hk Heq. replace (pixel_addr s X r + 4 * k) with (pixel_addr s (X + k) r) in Heq by (rewrite (Ha (X + k)); lia).
      apply pixel_addr_inj in Heq as [-> ->]; [|lia..]. enough (in_rect X r n 1 (X + k) r = true) by congruence. apply in_rect_spec. lia.
  - intros b Hb. apply Hout. intros k Hk ->. apply (Hb (X + k) r); [split; lia|]. rewrite (Ha (X + k)). lia.
Qed.

(** ** Coordinates *)

(** The area of a surface, by its integer edges. *)
Lemma surface_edge n : 0 <= n < 2 ^ 24 -> fadd fzero (of_int n) = of_int n.
Proof. intros Hn. rewrite <- of_int_zero, fadd_int by lia. done. Qed.

Lemma coord_index n x : 0 <= n < 2 ^ 24 -> valid x -> fle fzero x = true -> flt x (fadd fzero (of_int n)) = true ->
  finite x /\ to_usize x = rank x / 2 ^ 149 /\ 0 <= to_usize x < n.
Proof.
  intros Hn Hv H0 Hx. rewrite surface_edge in Hx by done. destruct (flt_not_nan _ _ Hx) as [Hnan _].
  apply fle_iff in H0; [|done..]. apply flt_iff in Hx; [|done|by apply of_int_valid; lia]. rewrite of_int_rank in Hx by lia. change (rank fzero) with 0 in H0.
  assert (Hinf : match x with S754_infinity _ => False | _ => True end).
  { destruct x as [|s| |]; try done. destruct s; cbn [rank cond_Zopp] in *; [lia|]. assert (n * 2 ^ 149 < 2 ^ 24 * 2 ^ 149) by lia. lia. }
  split; [by split; [|destruct x]|]. apply (to_usize_below x 0 n); done || lia.
Qed.

Lemma contains_pixel s p : surface_ok s -> valid (px p) -> valid (py p) -> Area_contains (surface_area s) p = true ->
  finite (px p) /\ finite (py p) /\ to_usize (px p) = rank (px p) / 2 ^ 149 /\ to_usize (py p) = rank (py p) / 2 ^ 149 /\
  in_surface s (to_usize (px p)) (to_usize (py p)).
Proof.
  intros [Hw Hh] Vx Vy (H1 & H2 & H3 & H4)%contains_edges.
  destruct (coord_index _ _ Hw Vx H1 H3) as (Fx & Ex & Bx). destruct (coord_index _ _ Hh Vy H2 H4) as (Fy & Ey & By). do 4 (split; [done|]). done.
Qed.

Lemma surface_index s i j : surface_ok s -> in_surface s i j -> (j ⊠ s_width s) ⊞ i = j * s_width s + i /\ 0 <= j * s_width s + i < s_width s * s_height s.
Proof.
  intros [Hw Hh] [Hi Hj]. assert (0 <= j * s_width s + i < s_width s * s_height s) by nia.
  assert (s_width s * s_height s < 2 ^ 24 * 2 ^ 24) by nia. split; [|done]. rewrite (wrap_small 64 (j * s_width s)) by (split; nia). apply wrap_small. split; lia.
Qed.

Lemma surface_len_eq s : surface_ok s -> surface_len s = s_width s * s_height s.
Proof. intros [Hw Hh]. apply wrap_small. assert (s_width s * s_height s < 2 ^ 24 * 2 ^ 24) by nia. split; nia. Qed.

(** Clamping to a range from 0 clamps the index. *)
Lemma clamp_index n x : 0 <= n < 2 ^ 24 -> valid x -> exists r, fclamp x fzero (of_int n) = Done r /\ to_usize r = Z.min n (to_usize x).
Proof.
  intros Hn Hv. destruct (of_int_valid n) as (Vn & Nn & Rn); [lia|]. unfold fclamp.
  rewrite fle_rank, Rn by done. change (rank fzero) with 0. rewrite (proj2 (Z.leb_le _ _)) by lia. cbn [rust_assert mbind exec_bind].
  eexists. split; [reflexivity|]. assert (En : to_usize (of_int n) = n).
  { destruct (to_usize_below (of_int n) n (n + 1)) as [_ E]; try done; [lia..| |lia]. by destruct (of_int_plain n) as [_ P]; [lia|]; destruct (of_int n). }
  assert (H0 : 0 <= to_usize x) by (unfold to_usize, to_int; destruct x as [|[]| |]; lia).
  destruct (is_nan x) eqn:Nx.
  { destruct x; try done. change (flt S754_nan fzero) with false. cbv zeta iota. replace (flt (of_int n) S754_nan) with false by (by destruct (of_int n)). change (0 = Z.min n 0). lia. }
  rewrite (flt_rank x fzero) by done. change (rank fzero) with 0. cbv zeta. destruct (Z.ltb_spec (rank x) 0) as [Hneg|Hpos].
  - rewrite flt_rank, Rn by done. change (rank fzero) with 0. rewrite (proj2 (Z.ltb_ge _ _)) by lia.
    change (to_usize fzero) with 0. destruct x as [s|[]| |[] m e]; cbn [rank cond_Zopp] in Hneg; try lia; try done.
    + cbn. lia.
    + apply valid_finite in Hv as (Hm & He & _). assert (int_part (S754_finite true m e) <= 0).
      { cbn [int_part cond_Zopp]. apply Z.opp_nonpos_nonneg. destruct (Z.leb_spec 0 e); [apply Z.mul_nonneg_nonneg; lia|apply Z.div_pos; lia]. }
      unfold to_usize, to_int. lia.
  - rewrite flt_rank, Rn by done. destruct (Z.ltb_spec (n * 2 ^ 149) (rank x)) as [Hbig|Hsmall].
    + rewrite En. destruct x as [s|[]| |s m e]; cbn [rank cond_Zopp] in *; try lia; [change (to_usize (S754_infinity false)) with (2 ^ 64 - 1); lia|].
      assert (E : int_part (S754_finite s m e) = rank (S754_finite s m e) / 2 ^ 149) by (apply int_part_rank; done).
      unfold to_usize, to_int. rewrite E. assert (n <= rank (S754_finite s m e) / 2 ^ 149) by (apply Z.div_le_lower_bound; cbn [rank]; lia). lia.
    + destruct (to_usize_below x 0 (n + 1)) as [_ E]; try done; [lia..| |lia].
      destruct x as [|[]| |]; try done; cbn [rank cond_Zopp] in *. assert (n * 2 ^ 149 < 2 ^ 24 * 2 ^ 149) by lia. lia.
Qed.

(** ** Filling *)

Lemma rect_empty X Y W H v i j : W <= 0 \/ H <= 0 -> rect X Y W H v i j = None.
Proof. intros He. unfold rect. destruct (in_rect X Y W H i j) eqn:E; [apply in_rect_spec in E; lia|done]. Qed.

Lemma overlay_rows X Y W H v i j : 1 <= H -> overlay (rect X Y W 1 v) (rect X (Y + 1) W (H - 1) v) i j = rect X Y W H v i j.
Proof.
  intros HH. unfold overlay, rect.
  destruct (in_rect X (Y + 1) W (H - 1) i j) eqn:E1, (in_rect X Y W 1 i j) eqn:E2, (in_rect X Y W H i j) eqn:E3; try done.
  all: rewrite ?in_rect_spec, <- ?not_true_iff_false, ?in_rect_spec in *; lia.
Qed.

Lemma copy_rows_draws s X W v n : 0 <= X -> 0 <= W -> X + W <= s_width s -> forall r m, 0 <= r -> r + Z.of_nat n < s_height s ->
  (forall i, 0 <= i < W -> m !! (pixel_addr s X r + 4 * i) = Some v) ->
  drawn s (rect X (r + 1) W (Z.of_nat n) v) m (copy_rows n s (Z.to_nat W) (pixel_addr s X r) m).
Proof.
  intros HX HW Hfit. induction n as [|n IH]; intros r m Hr Hn Hrow.
  - apply (drawn_ext s (fun _ _ => None)); [|apply drawn_nothing]. intros i j _. rewrite rect_empty by lia. done.
  - cbn [copy_rows]. assert (Ha : pixel_addr s X r + 4 * s_width s = pixel_addr s X (r + 1)) by (unfold pixel_addr, word_addr; lia). rewrite Ha.
    set (m1 := copy_words (Z.to_nat W) (pixel_addr s X r) (pixel_addr s X (r + 1)) m).
    assert (Hm1 : forall i, 0 <= i < W -> m1 !! (pixel_addr s X (r + 1) + 4 * i) = Some v).
    { intros i Hi. unfold m1. rewrite copy_words_in by lia. unfold load. by rewrite Hrow. }
    assert (D1 : drawn s (rect X (r + 1) W 1 v) m m1).
    { apply (drawn_row s X (r + 1) W (fun _ => v)); [lia..|done|]. intros b Hb. apply copy_words_out. by rewrite Z2Nat.id. }
    specialize (IH (r + 1) m1 ltac:(lia) ltac:(lia) Hm1). refine (drawn_ext s _ _ _ _ _ (drawn_trans _ _ _ _ _ _ D1 IH)).
    intros i j _. replace (Z.of_nat n) with (Z.of_nat (S n) - 1) by lia. apply overlay_rows. lia.
Qed.

Lemma fill_surface_draws s a v m : surface_ok s -> valid (Area_x a) -> valid (Area_y a) -> valid (Area_width a) -> valid (Area_height a) ->
  let X := Z.min (s_width s) (to_usize (Area_x a)) in
  let Y := Z.min (s_height s) (to_usize (Area_y a)) in
  let W := Z.min (s_width s - X) (to_usize (Area_width a)) in
  let H := Z.min (s_height s - Y) (to_usize (Area_height a)) in
  exists m', fill_surface s a v m = Done m' /\ drawn s (rect X Y W H v) m m'.
Proof.
  intros [Hw Hh] Vx Vy Vw Vh X Y W H.
  assert (Hnn : forall x, 0 <= to_usize x) by (intros x; unfold to_usize, to_int; destruct x as [|[]| |]; lia).
  pose proof (Hnn (Area_x a)). pose proof (Hnn (Area_y a)). pose proof (Hnn (Area_width a)). pose proof (Hnn (Area_height a)).
  unfold fill_surface. destruct (clamp_index _ _ Hw Vx) as (x & -> & Ex). destruct (clamp_index _ _ Hh Vy) as (y & -> & Ey). cbn [mbind exec_bind].
  unfold saturating_sub.
  destruct (clamp_index (Z.max 0 (s_width s - to_usize (Area_x a))) (Area_width a)) as (w & -> & Ew); [lia|done|]. cbn [mbind exec_bind].
  destruct (clamp_index (Z.max 0 (s_height s - to_usize (Area_y a))) (Area_height a)) as (h & -> & Eh); [lia|done|]. cbn [mbind exec_bind].
  assert (EW : to_usize w = W) by lia. assert (EH : to_usize h = H) by lia. rewrite Ex, Ey, EW, EH. fold X Y.
  destruct (Z.eqb_spec W 0) as [HW|HW], (Z.eqb_spec H 0) as [HH|HH]; cbn [orb].
  1-3: exists m; split; [done|]; apply (drawn_ext s (fun _ _ => None)); [|apply drawn_nothing]; intros i j _; by rewrite rect_empty by lia.
  rewrite (proj1 (surface_index s X Y (Build_surface_ok _ Hw Hh) ltac:(split; lia))). change (word_addr s (Y * s_width s + X)) with (pixel_addr s X Y).
  set (m1 := fill_words (Z.to_nat W) (pixel_addr s X Y) v m). eexists. split; [reflexivity|].
  assert (D1 : drawn s (rect X Y W 1 v) m m1).
  { apply (drawn_row s X Y W (fun _ => v)); [lia..| |].
    - intros i Hi. apply fill_words_in. lia.
    - intros b Hb. apply fill_words_out. rewrite Z2Nat.id by lia. done. }
  assert (D2 : drawn s (rect X (Y + 1) W (H - 1) v) m1 (copy_rows (Z.to_nat (H - 1)) s (Z.to_nat W) (pixel_addr s X Y) m1)).
  { rewrite <- (Z2Nat.id (H - 1)) at 1 by lia. apply copy_rows_draws; [lia..|]. intros i Hi. apply fill_words_in. lia. }
  refine (drawn_ext s _ _ _ _ _ (drawn_trans _ _ _ _ _ _ D1 D2)). intros i j _. apply overlay_rows. lia.
Qed.

Definition valid_point (p : Point) : Prop := valid (px p) /\ valid (py p).
Definition valid_size (z : Size) : Prop := valid (swidth z) /\ valid (sheight z).
Definition valid_area (a : Area) : Prop := valid_point (apos a) /\ valid_size (asize a).

(** What a colour is stored as. *)
Definition stored (format : PixelFormat) (c : Color) (v : Z) : Prop := to_u32 c format = Done v.

(** The rectangle that [fill_area] fills: the left and upper edges are clamped
    to the buffer, and then the width and height to what is left of it. *)
Definition fill_rect (s : Surface) (a : Area) (v : Z) : Z -> Z -> option Z :=
  let X := Z.min (s_width s) (to_usize (Area_x a)) in
  let Y := Z.min (s_height s) (to_usize (Area_y a)) in
  rect X Y (Z.min (s_width s - X) (to_usize (Area_width a))) (Z.min (s_height s - Y) (to_usize (Area_height a))) v.

(** Fill_area writes raw memory, with bounds computed from single-precision
    coordinates. For every area, NaN, infinite and negative coordinates
    included, no clamp panics, every word of the rectangle of [fill_rect] gets
    the colour, and no other word of memory changes. *)
Theorem fill_area_draws fb a c v m : surface_ok (fb_surface fb) -> stored (fb_format fb) c v -> valid_area a ->
  exists m', fill_area fb a c m = Done m' /\ drawn (fb_surface fb) (fill_rect (fb_surface fb) a v) m m'.
Proof. intros Hs Hc [[Vx Vy] [Vw Vh]]. unfold fill_area. rewrite Hc. cbn [mbind exec_bind]. by apply fill_surface_draws. Qed.

(** A 4 by 3 buffer; from (-1.5, 1) with an infinite width. *)
Lemma fill_area_draws_witness :
  let fb := Framebuffer_new 0x1000 4 3 in
  let a := mkArea (mkPoint (of_bits 0xbfc00000) (of_int 1)) (mkSize (S754_infinity false) (of_int 1)) in
  surface_ok (fb_surface fb) /\ valid_area a /\ exists m', fill_area fb a COLOR_WHITE ∅ = Done m' /\ load m' 0x101c = 0xffffff.
Proof.
  split; [by split|]. split; [by vm_compute|].
  destruct (fill_area_draws (Framebuffer_new 0x1000 4 3) (mkArea (mkPoint (of_bits 0xbfc00000) (of_int 1)) (mkSize (S754_infinity false) (of_int 1)))
    COLOR_WHITE 0xffffff ∅ ltac:(by split) eq_refl ltac:(by vm_compute)) as (m' & E & D).
  exists m'. split; [exact E|]. unfold load. change 0x101c with (pixel_addr (fb_surface (Framebuffer_new 0x1000 4 3)) 3 1).
  rewrite (drawn_pixel _ _ _ _ D) by (split; cbn; lia). by vm_compute.
Defined.

Lemma put_pixel_draws s p v m : surface_ok s -> valid_point p -> Area_contains (surface_area s) p = true ->
  let X := to_usize (px p) in let Y := to_usize (py p) in in_surface s X Y /\ drawn s (rect X Y 1 1 v) m (put_pixel s p v m).
Proof.
  intros Hs [Vx Vy] Hc X Y. destruct (contains_pixel s p Hs Vx Vy Hc) as (_ & _ & _ & _ & Hin). fold X Y in Hin. split; [done|].
  unfold put_pixel. fold X Y. rewrite (proj1 (surface_index s X Y Hs Hin)). change (word_addr s (Y * s_width s + X)) with (pixel_addr s X Y). destruct Hin as [HX HY].
  apply (drawn_row s X Y 1 (fun _ => v)); [lia..| |].
  - intros i Hi. replace (pixel_addr s X Y + 4 * i) with (pixel_addr s X Y) by lia. apply lookup_insert_eq.
  - intros b Hb. apply lookup_insert_ne. intros <-. apply (Hb 0); lia.
Qed.

(** What one pixel operation does: the word of the pixel that holds the point
    changes, if there is one. *)
Definition point_pixel (s : Surface) (p : Point) (v : Z) : Z -> Z -> option Z :=
  if Area_contains (surface_area s) p then rect (to_usize (px p)) (to_usize (py p)) 1 1 v else fun _ _ => None.

(** [draw p c] stores [word c] in the pixel of [p]. *)
Definition draws_pixels (s : Surface) (draw : Point -> Color -> Words -> exec Words) (word : Color -> Z) : Prop :=
  forall p c m, valid_point p -> exists m', draw p c m = Done m' /\ drawn s (point_pixel s p (word c)) m m'.

Lemma put_pixel_cases s p v m : surface_ok s -> valid_point p ->
  drawn s (point_pixel s p v) m (if Area_contains (surface_area s) p then put_pixel s p v m else m).
Proof.
  intros Hs Hp. unfold point_pixel. destruct (Area_contains (surface_area s) p) eqn:E; [by apply put_pixel_draws|apply drawn_nothing].
Qed.

Definition u32_word (format : PixelFormat) (c : Color) : Z := match to_u32 c format with Done v => v | Panic => 0 end.

Lemma draw_pixel_draws fb : surface_ok (fb_surface fb) -> fb_format fb = BGRX8 \/ fb_format fb = RGBX8 ->
  draws_pixels (fb_surface fb) (draw_pixel fb) (u32_word (fb_format fb)).
Proof.
  intros Hs Hf p c m Hp. pose proof (put_pixel_cases (fb_surface fb) p (u32_word (fb_format fb) c) m Hs Hp) as D.
  unfold draw_pixel. destruct (Area_contains _ p) eqn:E; cbn [negb]; [|by eexists].
  unfold u32_word in *. destruct Hf as [Hf|Hf]; rewrite Hf in *; cbn [to_u32 mbind exec_bind] in *; by eexists.
Qed.

Lemma cb_draw_pixel_draws buf : surface_ok (cb_surface buf) -> draws_pixels (cb_surface buf) (cb_draw_pixel buf) Color_word.
Proof.
  intros Hs p c m Hp. pose proof (put_pixel_cases (cb_surface buf) p (Color_word c) m Hs Hp) as D.
  unfold cb_draw_pixel. destruct (Area_contains _ p) eqn:E; cbn [negb]; by eexists.
Qed.

(** ** Characters *)

(** Some words of the buffer now hold values in [P]; no other changes. *)
Definition paints (s : Surface) (P : Z -> Prop) (m m' : Words) : Prop :=
  exists f, drawn s f m m' /\ forall i j v, in_surface s i j -> f i j = Some v -> P v.

Lemma paints_refl s P m : paints s P m m.
Proof. exists (fun _ _ => None). split; [apply drawn_nothing|done]. Qed.

Lemma paints_trans s P m1 m2 m3 : paints s P m1 m2 -> paints s P m2 m3 -> paints s P m1 m3.
Proof.
  intros (f & D1 & P1) (g & D2 & P2). exists (overlay f g). split; [by eapply drawn_trans|].
  intros i j v Hij. unfold overlay. destruct (g i j) eqn:E; [intros [= <-]; by eapply P2|by apply P1].
Qed.

(** The words outside the buffer are kept. *)
Lemma paints_only s P m m' b : paints s P m m' -> (forall i j, in_surface s i j -> b <> pixel_addr s i j) -> m' !! b = m !! b.
Proof. intros (f & D & _). apply (drawn_only _ _ _ _ D). Qed.

(** [x] is between the integers [lo] and [hi], the latter excluded. *)
Definition between (lo hi : Z) (x : f32) : Prop := finite x /\ lo * 2 ^ 149 <= rank x < hi * 2 ^ 149.

Lemma between_index lo hi x : 0 <= lo -> hi <= 2 ^ 24 -> between lo hi x -> lo <= to_usize x < hi.
Proof. intros Hlo Hhi [[Hv Hx] Hr]. apply to_usize_below; try done; [lia| |]; by destruct x. Qed.

(** One step of a counter: it grows by at least one, and the loop goes on
    while it is below its limit. *)
Lemma counter_step k n x : 0 <= k -> 0 < n < 2 ^ 23 -> between k n x ->
  valid (fadd x fone) /\ if fle (of_int n) (fadd x fone) then True else k + 1 < n /\ between (k + 1) n (fadd x fone).
Proof.
  intros Hk Hn [Fx Hr]. destruct (fadd_faithful x fone Fx) as (Hv & Hnan & Hf); [by split|]. split; [done|].
  change (rank fone) with (2 ^ 149) in Hf. destruct (of_int_valid n) as (Vn & Nn & Rn); [lia|]. rewrite fle_rank, Rn by done.
  assert (Hkn : k < n) by nia. destruct (of_int_valid (k + 1)) as (Vk & Nk & Rk); [lia|]. destruct (Hf _ Vk Nk) as [H1 _]. rewrite Rk in H1. specialize (H1 ltac:(lia)).
  destruct (Z.leb_spec (n * 2 ^ 149) (rank (fadd x fone))) as [Hle|Hgt]; [done|]. split; [nia|]. split; [|lia].
  apply (finite_rank _ n); [lia|done..|]. assert (0 <= (k + 1) * 2 ^ 149) by lia. lia.
Qed.

Lemma glyph_color_done ch fg bg x y : 0 <= ch < 128 -> between 0 16 y -> exists c, glyph_color ch fg bg x y = Done c /\ (c = fg \/ c = bg).
Proof.
  intros Hch Hy. unfold glyph_color. destruct (fle fone x); [|exists bg; auto].
  destruct (BASIC_FONT_glyph (Z.to_nat ch)) as (g & -> & Hg & _); [lia|]. cbn [unwrap mbind exec_bind].
  apply between_index in Hy; [|lia..]. destruct (lookup_lt_is_Some_2 g (Z.to_nat (to_usize y))) as [b Hb]; [rewrite Hg; lia|].
  rewrite Hb. cbn [unwrap mbind exec_bind]. eexists. split; [reflexivity|]. destruct (negb _); auto.
Qed.

Section DrawChar.
Context (s : Surface) (draw : Point -> Color -> Words -> exec Words) (word : Color -> Z).
Hypothesis s_ok : surface_ok s.
Hypothesis draw_ok : draws_pixels s draw word.

Definition fg_or_bg (fg bg : Color) (v : Z) : Prop := v = word fg \/ v = word bg.

(** The pixel of one iteration. *)
Lemma char_pixel_paints ch fg bg p x y m : 0 <= ch < 128 -> between 0 16 y -> valid_point p ->
  exists m', (if Area_contains (surface_area s) p then color ← glyph_color ch fg bg x y; draw p color m else Done m) = Done m' /\
    paints s (fg_or_bg fg bg) m m'.
Proof.
  intros Hch Hy Hp. destruct (Area_contains (surface_area s) p) eqn:E; [|exists m; split; [done|apply paints_refl]].
  destruct (glyph_color_done ch fg bg x y Hch Hy) as (c & -> & Hc). cbn [mbind exec_bind].
  destruct (draw_ok p c m Hp) as (m' & -> & D). exists m'. split; [done|]. exists (point_pixel s p (word c)). split; [done|].
  intros i j v _. unfold point_pixel. rewrite E. unfold rect. destruct (in_rect _ _ _ _ _ _); [|done]. intros [= <-]. unfold fg_or_bg. destruct Hc as [->| ->]; auto.
Qed.

Lemma draw_char_loop_ends ch fg bg sx sy ox : 0 <= ch < 128 -> finite sx -> finite sy -> between 0 9 ox ->
  forall fuel kx ky x y m, 0 <= kx -> 0 <= ky -> between kx 9 x -> between ky 16 y -> (16 - ky) * 9 - kx < Z.of_nat fuel ->
  exists m', draw_char_loop s draw ch fg bg sx sy ox fuel x y m = Done (Some m') /\ paints s (fg_or_bg fg bg) m m'.
Proof.
  intros Hch Hsx Hsy Hox. induction fuel as [|fuel IH]; intros kx ky x y m Hkx Hky Hx Hy Hfuel.
  { destruct Hx as [_ Hx], Hy as [_ Hy]. assert (kx < 9) by nia. assert (ky < 16) by nia. lia. }
  cbn [draw_char_loop]. assert (Hy0 : between 0 16 y) by (destruct Hy as [Fy Ry]; split; [done|]; assert (0 <= ky * 2 ^ 149) by lia; lia).
  destruct (char_pixel_paints ch fg bg (mkPoint (fadd sx x) (fadd sy y)) x y m Hch Hy0) as (m1 & -> & P1).
  { split; apply fadd_valid; [apply Hsx|apply Hx|apply Hsy|apply Hy]. }
  cbn [mbind exec_bind]. change CHAR_WIDTH with 9. change CHAR_HEIGHT with 16.
  destruct (counter_step kx 9 x Hkx ltac:(lia) Hx) as [_ Hx']. destruct (counter_step ky 16 y Hky ltac:(lia) Hy) as [_ Hy'].
  assert (Hkx9 : kx < 9) by (destruct Hx as [_ Hx]; nia).
  destruct (fle (of_int 9) (fadd x fone) || fle (of_int (s_width s)) (fadd sx (fadd x fone))) eqn:Ex.
  - destruct (fle (of_int 16) (fadd y fone)) eqn:Ey; cbn [orb]; [by exists m1|]. destruct (fle (of_int (s_height s)) _); [by exists m1|].
    destruct Hy' as [Hk Hy']. destruct (IH 0 (ky + 1) ox (fadd y fone) m1) as (m2 & -> & P2); [lia|lia|done|done|lia|].
    exists m2. split; [done|]. by eapply paints_trans.
  - apply orb_false_iff in Ex as [Ex _]. rewrite Ex in Hx'. destruct Hx' as [Hk Hx'].
    destruct (IH (kx + 1) ky (fadd x fone) y m1) as (m2 & -> & P2); [lia|lia|done|done|lia|].
    exists m2. split; [done|]. by eapply paints_trans.
Qed.

(** The start of a character that intersects the buffer, on one axis. *)
Lemma char_start n k x : 0 <= n < 2 ^ 24 -> 0 < k < 2 ^ 23 -> valid x ->
  flt fzero (fadd x (of_int k)) = true -> flt x (fadd fzero (of_int n)) = true ->
  finite x /\ between 0 k (if flt x fzero then fneg x else fzero).
Proof.
  intros Hn Hk Hv H1 H2. rewrite surface_edge in H2 by done. destruct (flt_not_nan _ _ H2) as [Nx _].
  destruct (of_int_valid n) as (Vn & Nn & Rn); [lia|]. destruct (of_int_valid k) as (Vk & Nk & Rk); [lia|].
  apply flt_iff in H2; [|done..]. rewrite Rn in H2.
  assert (Fx : finite x).
  { split; [done|]. destruct x as [|[]| |]; try done; [clear - H1; destruct (of_int k) as [|[]| |]; discriminate H1|]. cbn [rank cond_Zopp] in H2. assert (n * 2 ^ 149 < 2 ^ 24 * 2 ^ 149) by lia. lia. }
  split; [done|]. destruct (fadd_faithful x (of_int k) Fx) as (Hva & Hna & Hf); [apply plain_finite, of_int_plain; lia|]. rewrite Rk in Hf.
  apply flt_iff in H1; [|done..]. change (rank fzero) with 0 in H1. destruct (Hf fzero ltac:(done) ltac:(done)) as [_ Hf0]. change (rank fzero) with 0 in Hf0.
  assert (Hlow : - k * 2 ^ 149 < rank x) by lia. rewrite flt_rank by done. change (rank fzero) with 0. destruct (Z.ltb_spec (rank x) 0).
  - destruct (fneg_spec x Hv) as (Hv' & Hn' & Hr'). split; [split; [done|]; destruct Fx as [_ Px]; by destruct x|]. rewrite Hr'. lia.
  - split; [by split|]. change (rank fzero) with 0. lia.
Qed.

Lemma draw_char_ends fuel ch fg bg pos col row m : (145 <= fuel)%nat -> 0 <= ch -> valid_point pos ->
  exists m', draw_char s draw fuel ch fg bg pos col row m = Done (Some m') /\ paints s (fg_or_bg fg bg) m m'.
Proof.
  intros Hfuel Hch [Vx Vy]. unfold draw_char. cbv zeta. set (ch' := if ch <? 128 then ch else 63).
  assert (Hch' : 0 <= ch' < 128) by (unfold ch'; destruct (Z.ltb_spec ch 128); lia).
  set (sx := fadd (px pos) _). set (sy := fadd (py pos) _). assert (Vsx : valid sx) by (apply fadd_valid, of_int_valid_any; done). assert (Vsy : valid sy) by (apply fadd_valid, of_int_valid_any; done).
  destruct (Area_intersects _ _) eqn:E; cbn [negb]; [|exists m; split; [done|apply paints_refl]].
  unfold Area_intersects in E. rewrite !andb_true_iff in E. destruct E as [[[E1 E2] E3] E4]. destruct s_ok as [Hw Hh].
  destruct (char_start _ 9 sx Hw ltac:(lia) Vsx E1 E3) as [Fsx Box]. destruct (char_start _ 16 sy Hh ltac:(lia) Vsy E2 E4) as [Fsy Boy].
  apply (draw_char_loop_ends ch' fg bg sx sy _ Hch' Fsx Fsy Box fuel 0 0); [lia|lia|done|done|lia].
Qed.


(** *** At integer positions: the glyph *)

(** Whether the pixel in column [x] and row [y] of a cell is set: the first
    column is a gap, the others are the bits of the row, the highest first. *)
Definition glyph_pixel (ch x y : Z) : bool :=
  (1 <=? x) && match BASIC_FONT !! Z.to_nat ch with
    | Some g => match g !! Z.to_nat y with Some b => Z.testbit b (8 - x) | None => false end
    | None => false end.

Lemma glyph_color_int ch fg bg x y : 0 <= ch < 128 -> 0 <= x < 9 -> 0 <= y < 16 ->
  glyph_color ch fg bg (of_int x) (of_int y) = Done (if glyph_pixel ch x y then fg else bg).
Proof.
  intros Hch Hx Hy. unfold glyph_color, glyph_pixel. change fone with (of_int 1). rewrite fle_int by lia. destruct (Z.leb_spec 1 x) as [H1|H1]; [|done].
  destruct (BASIC_FONT_glyph (Z.to_nat ch)) as (g & -> & Hg & Hb); [lia|]. cbn [unwrap mbind exec_bind andb].
  rewrite fsub_int by lia. rewrite !to_usize_nat by lia. destruct (lookup_lt_is_Some_2 g (Z.to_nat y)) as [b Hgb]; [rewrite Hg; lia|].
  rewrite Hgb. cbn [unwrap mbind exec_bind]. rewrite Z.mod_small by lia. do 2 f_equal.
  rewrite Z.shiftr_div_pow2 by lia. change 0x80 with (2 ^ 7). rewrite <- Z.pow_sub_r by lia. replace (7 - (x - 1)) with (8 - x) by lia.
  rewrite land_pow2_eq0 by lia. by rewrite negb_involutive.
Qed.

(** The picture of a cell at [(x, y)]. *)
Definition glyph_cell (ch x y : Z) (fg bg : Color) (i j : Z) : option Z :=
  if in_rect x y 9 16 i j then Some (word (if glyph_pixel ch (i - x) (j - y) then fg else bg)) else None.

(** What is left of it from column [kx] of row [ky] on. *)
Definition glyph_rest (ch x y : Z) (fg bg : Color) (kx ky : Z) (i j : Z) : option Z :=
  if (y + ky <? j) || (j =? y + ky) && (x + kx <=? i) then glyph_cell ch x y fg bg i j else None.

Lemma char_pixel_int ch fg bg x y kx ky m : 0 <= ch < 128 -> 0 <= kx < 9 -> 0 <= ky < 16 -> Z.abs x < 2 ^ 23 -> Z.abs y < 2 ^ 23 ->
  exists m', (let pos := mkPoint (fadd (of_int x) (of_int kx)) (fadd (of_int y) (of_int ky)) in
      if Area_contains (surface_area s) pos then color ← glyph_color ch fg bg (of_int kx) (of_int ky); draw pos color m else Done m) = Done m' /\
    drawn s (rect (x + kx) (y + ky) 1 1 (word (if glyph_pixel ch kx ky then fg else bg))) m m'.
Proof.
  intros Hch Hkx Hky Hx Hy. cbv zeta. rewrite !fadd_int by lia. rewrite glyph_color_int by done. cbn [mbind exec_bind].
  destruct s_ok as [Hw Hh].
  assert (Hc : Area_contains (surface_area s) (mkPoint (of_int (x + kx)) (of_int (y + ky))) =
    ((0 <=? x + kx) && (0 <=? y + ky) && (x + kx <? s_width s) && (y + ky <? s_height s))).
  { unfold Area_contains, Area_max_x, Area_max_y, Area_x, Area_y, surface_area. cbn [px py apos asize Area_from_size Area_width Area_height Point_ORIGIN Point_new surface_size Size_new swidth sheight].
    rewrite !surface_edge by done. rewrite <- of_int_zero, !fle_int, !flt_int by lia. done. }
  destruct (draw_ok (mkPoint (of_int (x + kx)) (of_int (y + ky))) (if glyph_pixel ch kx ky then fg else bg) m) as (m' & E & D).
  { split; apply of_int_valid; cbn; lia. }
  unfold point_pixel in D. rewrite Hc in *. destruct (_ && _) eqn:Hin.
  - exists m'. split; [done|]. cbn [px py] in D. rewrite !andb_true_iff, !Z.leb_le, !Z.ltb_lt in Hin. rewrite !to_usize_nat in D by lia. done.
  - exists m. split; [done|]. apply (drawn_ext s (fun _ _ => None)); [|apply drawn_nothing]. intros i j [Hi Hj]. unfold rect.
    destruct (in_rect _ _ _ _ i j) eqn:R; [|done]. apply in_rect_spec in R. rewrite <- not_true_iff_false, !andb_true_iff, !Z.leb_le, !Z.ltb_lt in Hin. lia.
Qed.

Lemma draw_char_loop_int ch fg bg x y : 0 <= ch < 128 -> - 9 < x < s_width s -> - 16 < y < s_height s -> s_width s < 2 ^ 22 -> s_height s < 2 ^ 22 ->
  forall fuel kx ky m, Z.max 0 (- x) <= kx < 9 -> Z.max 0 (- y) <= ky < 16 -> (16 - ky) * 9 - kx < Z.of_nat fuel ->
  exists m', draw_char_loop s draw ch fg bg (of_int x) (of_int y) (of_int (Z.max 0 (- x))) fuel (of_int kx) (of_int ky) m = Done (Some m') /\
    drawn s (glyph_rest ch x y fg bg kx ky) m m'.
Proof.
  intros Hch Hx Hy Hw Hh. induction fuel as [|fuel IH]; intros kx ky m Hkx Hky Hfuel; [lia|]. cbn [draw_char_loop].
  destruct (char_pixel_int ch fg bg x y kx ky m) as (m1 & E1 & D1); [lia..|]. cbv zeta in E1. rewrite E1. clear E1. cbn [mbind exec_bind].
  change fone with (of_int 1). change CHAR_WIDTH with 9. change CHAR_HEIGHT with 16. rewrite !(fadd_int kx 1), (fadd_int ky 1), !fadd_int, !fle_int by lia.
  (* one pixel, and the rest from the next one *)
  assert (Hstep : forall kx' ky' m2, (ky' = ky /\ kx' = kx + 1 \/ ky' = ky + 1 /\ kx' = Z.max 0 (- x) /\ (9 <= kx + 1 \/ s_width s <= x + (kx + 1))) ->
      drawn s (glyph_rest ch x y fg bg kx' ky') m1 m2 -> drawn s (glyph_rest ch x y fg bg kx ky) m m2).
  { intros kx' ky' m2 Hk D2. refine (drawn_ext s _ _ _ _ _ (drawn_trans _ _ _ _ _ _ D1 D2)). intros i j [Hi Hj].
    unfold overlay, glyph_rest, glyph_cell, rect. destruct (in_rect x y 9 16 i j) eqn:R.
    - apply in_rect_spec in R. destruct (in_rect (x + kx) (y + ky) 1 1 i j) eqn:R1.
      + apply in_rect_spec in R1. assert (i = x + kx) as -> by lia. assert (j = y + ky) as -> by lia.
        replace (x + kx - x) with kx by lia. replace (y + ky - y) with ky by lia.
        destruct (Z.ltb_spec (y + ky) (y + ky)), (Z.eqb_spec (y + ky) (y + ky)), (Z.leb_spec (x + kx) (x + kx)), (_ || _); done || lia.
      + rewrite <- not_true_iff_false, in_rect_spec in R1.
        destruct (Z.ltb_spec (y + ky') j), (Z.eqb_spec j (y + ky')), (Z.leb_spec (x + kx') i), (Z.ltb_spec (y + ky) j), (Z.eqb_spec j (y + ky)), (Z.leb_spec (x + kx) i); cbn [orb andb]; done || lia.
    - destruct (in_rect (x + kx) (y + ky) 1 1 i j) eqn:R1; [rewrite <- not_true_iff_false, in_rect_spec in R; apply in_rect_spec in R1; lia|].
      by destruct (_ || _), (_ || _). }
  assert (Hend : (9 <= kx + 1 \/ s_width s <= x + (kx + 1)) -> (16 <= ky + 1 \/ s_height s <= y + (ky + 1)) -> drawn s (glyph_rest ch x y fg bg kx ky) m m1).
  { intros Hex Hey. refine (Hstep (Z.max 0 (- x)) (ky + 1) m1 _ _); [lia|]. apply (drawn_ext s (fun _ _ => None)); [|apply drawn_nothing].
    intros i j [Hi Hj]. unfold glyph_rest, glyph_cell. destruct (in_rect x y 9 16 i j) eqn:R; [apply in_rect_spec in R|by destruct (_ || _)].
    destruct (Z.ltb_spec (y + (ky + 1)) j), (Z.eqb_spec j (y + (ky + 1))); done || lia. }
  destruct (Z.leb_spec 9 (kx + 1)), (Z.leb_spec (s_width s) (x + (kx + 1))); cbn [orb].
  1-3: destruct (Z.leb_spec 16 (ky + 1)), (Z.leb_spec (s_height s) (y + (ky + 1))); cbn [orb]; try (exists m1; split; [done|apply Hend; lia]);
    (destruct (IH (Z.max 0 (- x)) (ky + 1) m1) as (m2 & -> & D2); [lia..|]; exists m2; split; [done|]; apply (Hstep (Z.max 0 (- x)) (ky + 1) m2 ltac:(lia) D2)).
  destruct (IH (kx + 1) ky m1) as (m2 & -> & D2); [lia..|]; exists m2; split; [done|]; apply (Hstep (kx + 1) ky m2 ltac:(lia) D2).
Qed.

Lemma draw_char_int fuel ch fg bg x y col row m : (145 <= fuel)%nat -> 0 <= ch < 128 -> 0 < s_width s < 2 ^ 22 -> 0 < s_height s < 2 ^ 22 ->
  Z.abs x < 2 ^ 20 -> Z.abs y < 2 ^ 20 -> 0 <= col < 2 ^ 16 -> 0 <= row < 2 ^ 16 ->
  exists m', draw_char s draw fuel ch fg bg (ipoint x y) col row m = Done (Some m') /\
    drawn s (glyph_cell ch (x + 9 * col) (y + 16 * row) fg bg) m m'.
Proof.
  intros Hfuel Hch Hw Hh Hx Hy Hcol Hrow. unfold draw_char, ipoint. cbn [px py]. change CHAR_WIDTH with 9. change CHAR_HEIGHT with 16.
  rewrite !wrap_small by (split; lia). rewrite (proj2 (Z.ltb_lt _ _)) by lia. rewrite !fadd_int by lia.
  replace (x + col * 9) with (x + 9 * col) by lia. replace (y + row * 16) with (y + 16 * row) by lia.
  set (X := x + 9 * col). set (Y := y + 16 * row). assert (HX : Z.abs X < 2 ^ 23) by lia. assert (HY : Z.abs Y < 2 ^ 23) by lia. clearbody X Y.
  assert (Hi : Area_intersects (surface_area s) (Area_new (mkPoint (of_int X) (of_int Y)) (mkSize (of_int 9) (of_int 16))) =
    ((0 <? X + 9) && (0 <? Y + 16) && (X <? s_width s) && (Y <? s_height s))).
  { unfold Area_intersects, Area_max_x, Area_max_y, Area_x, Area_y, surface_area. cbn [px py apos asize Area_new Area_from_size Area_width Area_height Point_ORIGIN Point_new surface_size Size_new swidth sheight].
    rewrite !surface_edge by lia. rewrite <- of_int_zero, !fadd_int, !flt_int by lia. done. }
  rewrite Hi. destruct (_ && _) eqn:Hin; cbn [negb]; [rewrite !andb_true_iff, !Z.ltb_lt in Hin|rewrite <- not_true_iff_false, !andb_true_iff, !Z.ltb_lt in Hin].
  - assert (Ho : forall z, Z.abs z < 2 ^ 23 -> (if flt (of_int z) fzero then fneg (of_int z) else fzero) = of_int (Z.max 0 (- z))).
    { intros z Hz. rewrite <- of_int_zero, flt_int by lia. destruct (Z.ltb_spec z 0); [|by rewrite Z.max_l by lia].
      rewrite Z.max_r by lia. apply fneg_int; lia. }
    rewrite !Ho by done. destruct (draw_char_loop_int ch fg bg X Y Hch ltac:(lia) ltac:(lia) ltac:(lia) ltac:(lia) fuel (Z.max 0 (- X)) (Z.max 0 (- Y)) m) as (m' & -> & D); [lia..|].
    exists m'. split; [done|]. refine (drawn_ext s _ _ _ _ _ D). intros i j [Hi' Hj']. unfold glyph_rest, glyph_cell.
    destruct (in_rect X Y 9 16 i j) eqn:R; [apply in_rect_spec in R|by destruct (_ || _)].
    destruct (Z.ltb_spec (Y + Z.max 0 (- Y)) j), (Z.eqb_spec j (Y + Z.max 0 (- Y))), (Z.leb_spec (X + Z.max 0 (- X)) i); cbn [orb andb]; done || lia.
  - exists m. split; [done|]. apply (drawn_ext s (fun _ _ => None)); [|apply drawn_nothing]. intros i j [Hi' Hj']. unfold glyph_cell.
    destruct (in_rect X Y 9 16 i j) eqn:R; [apply in_rect_spec in R; lia|done].
Qed.

End DrawChar.

(** A character at any position, the edges of the buffer, NaN and the
    infinities included: the loop over its pixels ends within 9 * 16 iterations,
    the font is never indexed out of bounds, and only words of the buffer change,
    to one of the two colours. *)
Theorem draw_ascii_char_ends fb fuel ch fg bg pos col row m : surface_ok (fb_surface fb) -> fb_format fb = BGRX8 \/ fb_format fb = RGBX8 ->
  (145 <= fuel)%nat -> 0 <= ch -> valid_point pos ->
  exists m', draw_ascii_char fuel fb ch fg bg pos col row m = Done (Some m') /\
    paints (fb_surface fb) (fg_or_bg (u32_word (fb_format fb)) fg bg) m m'.
Proof. intros Hs Hf Hfuel Hch Hp. apply draw_char_ends; try done. by apply draw_pixel_draws. Qed.

Lemma draw_ascii_char_ends_witness :
  exists m', draw_ascii_char 145 (Framebuffer_new 0x1000 20 20) 0x41 COLOR_WHITE COLOR_BLACK (mkPoint (of_bits 0xc0b00000) (of_bits 0x7fc00000)) 1 0 ∅ = Done (Some m').
Proof.
  destruct (draw_ascii_char_ends (Framebuffer_new 0x1000 20 20) 145 0x41 COLOR_WHITE COLOR_BLACK (mkPoint (of_bits 0xc0b00000) (of_bits 0x7fc00000)) 1 0 ∅) as (m' & E & _);
    [by split|by left|lia|lia|by vm_compute|by exists m'].
Defined.

(** At integer positions, the pixels of the buffer that lie in the cell of the
    character get its bitmap: a column of background, then the bits of the rows
    from the highest on. This holds for cells that are cut off at any edge of
    the buffer. *)
Theorem draw_ascii_char_glyph buf fuel ch fg bg x y col row m :
  0 < s_width (cb_surface buf) < 2 ^ 22 -> 0 < s_height (cb_surface buf) < 2 ^ 22 -> (145 <= fuel)%nat -> 0 <= ch < 128 ->
  Z.abs x < 2 ^ 20 -> Z.abs y < 2 ^ 20 -> 0 <= col < 2 ^ 16 -> 0 <= row < 2 ^ 16 ->
  exists m', cb_draw_ascii_char fuel buf ch fg bg (ipoint x y) col row m = Done (Some m') /\
    drawn (cb_surface buf) (glyph_cell Color_word ch (x + 9 * col) (y + 16 * row) fg bg) m m'.
Proof.
  intros Hw Hh Hfuel Hch Hx Hy Hcol Hrow. assert (Hs : surface_ok (cb_surface buf)) by (split; lia).
  apply draw_char_int; try done. by apply cb_draw_pixel_draws.
Qed.

(** The letter A: the fourth row of its bitmap is 0x6C, 01101100; the cell
    starts two columns left of the buffer. *)
Lemma draw_ascii_char_glyph_witness :
  let buf := mkColorBuffer (mkSurface 0x1000 8 8) in
  exists m', cb_draw_ascii_char 145 buf 0x41 COLOR_WHITE COLOR_NONE (ipoint (-11) 0) 1 0 ∅ = Done (Some m') /\
    (fun i => load m' (pixel_addr (cb_surface buf) i 4)) <$> [0; 1; 2; 3; 4; 5; 6] =
      (fun b : bool => if b then 0xffffffff else 0) <$> [true; true; false; true; true; false; false].
Proof.
  set (buf := mkColorBuffer (mkSurface 0x1000 8 8)).
  destruct (draw_ascii_char_glyph buf 145 0x41 COLOR_WHITE COLOR_NONE (-11) 0 1 0 ∅) as (m' & E & D); [cbn; lia..|].
  exists m'. split; [exact E|]. unfold load. cbn [fmap list_fmap].
  repeat (rewrite (drawn_pixel _ _ _ _ D) by (split; cbn; lia)). by vm_compute.
Defined.

(** A colour is read back from memory as it was written. *)
Lemma Color_of_word_word c : 0 <= cr c < 2 ^ 8 -> 0 <= cg c < 2 ^ 8 -> 0 <= cb c < 2 ^ 8 -> 0 <= ca c < 2 ^ 8 -> Color_of_word (Color_word c) = c.
Proof.
  destruct c as [r g b a]. cbn [cr cg cb ca]. intros Hr Hg Hb Ha.
  assert (E : Color_word (mkColor r g b a) = r + 2 ^ 8 * g + (2 ^ 16 * b + 2 ^ 24 * a)).
  { unfold Color_word. cbn [cr cg cb ca]. rewrite !Z.shiftl_mul_pow2 by lia.
    rewrite (Z.lor_comm r), (lor_disjoint_add 8 (g * 2 ^ 8) r), (Z.lor_comm (b * 2 ^ 16)), (lor_disjoint_add 24 (a * 2 ^ 24)) by
      (lia || (by apply Z.mod_mul) || (split; lia)).
    rewrite Z.lor_comm, (lor_disjoint_add 16); [lia|lia|lia| |split; lia].
    replace (a * 2 ^ 24 + b * 2 ^ 16) with ((b + a * 2 ^ 8) * 2 ^ 16) by lia. by apply Z.mod_mul. }
  unfold Color_of_word. rewrite E, !Z.shiftr_div_pow2 by lia. f_equal; Z.div_mod_to_equations; lia.
Qed.
