(* ===== verification/Composite.v ===== *)
(** * Compositing, crates/framebuffer/src/framebuffer.rs

    [composite] copies rows of the sources into the target: the bounds of the
    rows are single-precision numbers, the rows are slices of the two buffers,
    and a slice out of range panics. Here: when the bounds are in range, and
    the picture that compositing draws. *)

From Stdlib Require Import Lia SpecFloat.
From stdpp Require Import base numbers option tactics gmap list.
From S2P Require Import Prelude Float32 Rounding Geometry Font Framebuffer.

Local Open Scope Z_scope.
Local Open Scope u64_scope.

(** ** Rows *)

Definition format_ok (f : PixelFormat) : Prop := f = BGRX8 \/ f = RGBX8.

(** The word that a colour leaves on a pixel. *)
Definition blended (format : PixelFormat) (c : Color) (pixel : Z) : Z := if ca c =? 0 then pixel else u32_word format c.

Lemma Color_blend_done c pixel format : format_ok format -> Color_blend c pixel format = Done (blended format c pixel).
Proof. intros Hf. unfold Color_blend, blended, u32_word. destruct (ca c =? 0); [done|]. by destruct Hf as [->| ->]. Qed.

Lemma length_read_colors n : forall a m, length (read_colors n a m) = n.
Proof. induction n as [|n IH]; intros a m; cbn; [done|]. by rewrite IH. Qed.

Lemma lookup_read_colors n : forall a m i, (i < n)%nat -> read_colors n a m !! i = Some (Color_of_word (load m (a + 4 * Z.of_nat i))).
Proof.
  induction n as [|n IH]; intros a m i Hi; [lia|]. destruct i as [|i]; cbn [read_colors lookup list_lookup].
  - do 3 f_equal. lia.
  - rewrite IH by lia. do 3 f_equal. lia.
Qed.

Lemma blend_words_spec format : format_ok format -> forall cs a m, exists m', blend_words format a cs m = Done m' /\
  (forall b, outside_run a (Z.of_nat (length cs)) b -> m' !! b = m !! b) /\
  (forall i c, cs !! i = Some c -> m' !! (a + 4 * Z.of_nat i) = Some (blended format c (load m (a + 4 * Z.of_nat i)))).
Proof.
  intros Hf. induction cs as [|c cs IH]; intros a m; cbn [blend_words]; [by exists m|].
  rewrite Color_blend_done by done. cbn [mbind exec_bind]. destruct (IH (a + 4) (<[a := blended format c (load m a)]> m)) as (m' & -> & Hout & Hin).
  exists m'. split; [done|]. split.
  - intros b Hb. cbn [length] in Hb. rewrite Hout.
    + apply lookup_insert_ne. intros <-. apply (Hb 0); lia.
    + intros i Hi ->. apply (Hb (i + 1)); lia.
  - intros [|i] c' Hc; cbn [lookup list_lookup] in Hc.
    + injection Hc as ->. replace (a + 4 * Z.of_nat 0) with a by lia. rewrite Hout; [apply lookup_insert_eq|]. intros i Hi. lia.
    + replace (a + 4 * Z.of_nat (S i)) with (a + 4 + 4 * Z.of_nat i) by lia. rewrite (Hin i c' Hc). rewrite load_insert, decide_False by lia. done.
Qed.

(** A row of colours blended over a row of the target. *)
Lemma blend_draws target cs X r m : surface_ok (fb_surface target) -> format_ok (fb_format target) ->
  in_surface (fb_surface target) X r -> X + Z.of_nat (length cs) <= s_width (fb_surface target) ->
  exists m', blend target cs (r * s_width (fb_surface target) + X) m = Done m' /\
    drawn (fb_surface target) (fun i j => if in_rect X r (Z.of_nat (length cs)) 1 i j then
       Some (match cs !! Z.to_nat (i - X) with Some c => blended (fb_format target) c (load m (pixel_addr (fb_surface target) i r)) | None => 0 end) else None) m m'.
Proof.
  intros Hs Hf [HX Hr] Hfit. set (t := fb_surface target) in *. unfold blend, slice. fold t. rewrite surface_len_eq by done.
  assert (H1 : 0 <= r * s_width t + X + Z.of_nat (length cs) <= s_width t * s_height t) by nia.
  assert (Hb : s_width t * s_height t < 2 ^ 64).
  { destruct Hs as [Hw Hh]. assert (s_width t * s_height t < 2 ^ 24 * 2 ^ 24) by nia. lia. }
  rewrite (wrap_small 64 (_ + Z.of_nat (length cs))) by (split; lia).
  rewrite (proj2 (Z.leb_le _ _)), (proj2 (Z.leb_le _ _)) by lia. cbn [andb rust_assert mbind exec_bind].
  change (word_addr t (r * s_width t + X)) with (pixel_addr t X r). destruct (blend_words_spec _ Hf cs (pixel_addr t X r) m) as (m' & -> & Hout & Hin).
  exists m'. split; [done|]. apply (drawn_row t X r (Z.of_nat (length cs)) (fun i => match cs !! Z.to_nat (i - X) with
    Some c => blended (fb_format target) c (load m (pixel_addr t i r)) | None => 0 end)); [lia..| |done].
  intros i Hi. replace (X + i - X) with i by lia. destruct (lookup_lt_is_Some_2 cs (Z.to_nat i)) as [c Hc]; [lia|]. rewrite Hc.
  specialize (Hin _ _ Hc). rewrite Z2Nat.id in Hin by lia. rewrite Hin. do 3 f_equal. unfold pixel_addr, word_addr. lia.
Qed.

Lemma point_index_spec s p : surface_ok s -> valid_point p ->
  match point_index s p with
  | Some k => Area_contains (surface_area s) p = true /\ finite (px p) /\ finite (py p) /\
      in_surface s (to_usize (px p)) (to_usize (py p)) /\ k = to_usize (py p) * s_width s + to_usize (px p)
  | None => Area_contains (surface_area s) p = false
  end.
Proof.
  intros Hs [Vx Vy]. unfold point_index. destruct (Area_contains (surface_area s) p) eqn:E; [|done].
  destruct (contains_pixel s p Hs Vx Vy E) as (Fx & Fy & _ & _ & Hin). destruct (surface_index s _ _ Hs Hin) as [Hk _].
  rewrite (Z.mul_comm (s_width s)), Hk. done.
Qed.

(** One row stays inside both buffers when its width does. *)
Lemma composite_row_draws source target tp ssx ssy aw k m :
  surface_ok (cb_surface source) -> surface_ok (fb_surface target) -> format_ok (fb_format target) ->
  valid_point tp -> valid ssx -> valid ssy ->
  (finite ssx -> 0 <= to_usize ssx < s_width (cb_surface source) -> to_usize ssx + to_usize aw <= s_width (cb_surface source)) ->
  (finite ssx -> finite (fadd ssx (px tp)) -> 0 <= to_usize (fadd ssx (px tp)) < s_width (fb_surface target) ->
     to_usize (fadd ssx (px tp)) + to_usize aw <= s_width (fb_surface target)) ->
  exists r, composite_row source target tp ssx ssy aw k m = Done r /\
    paints (fb_surface target) (fun _ => True) m (match r with inl m' => m' | inr m' => m' end).
Proof.
  intros Hs Ht Hf [Vtx Vty] Vsx Vsy HA HB. assert (Haw : 0 <= to_usize aw) by (unfold to_usize, to_int; destruct aw as [|[]| |]; lia).
  assert (Vy : valid (fadd ssy (of_int k))) by (apply fadd_valid; [done|apply of_int_valid_any]).
  unfold composite_row. pose proof (point_index_spec (cb_surface source) (mkPoint ssx (fadd ssy (of_int k))) Hs ltac:(by split)) as P1.
  destruct (point_index (cb_surface source) _) as [i1|]; [|exists (inr m); split; [done|apply paints_refl]]. cbn [px py] in P1. destruct P1 as (_ & Fx & Fy & [Hx1 Hy1] & ->).
  pose proof (point_index_spec (fb_surface target) (Point_const_add (mkPoint ssx (fadd ssy (of_int k))) tp) Ht) as P2.
  unfold Point_const_add, Point_new in *. cbn [px py] in *. specialize (P2 ltac:(split; by apply fadd_valid)).
  destruct (point_index (fb_surface target) _) as [i2|]; [|exists (inr m); split; [done|apply paints_refl]]. cbn [px py] in P2. destruct P2 as (_ & Fx2 & Fy2 & [Hx2 Hy2] & ->).
  specialize (HA Fx Hx1). specialize (HB Fx Fx2 Hx2).
  set (s := cb_surface source) in *. set (y1 := to_usize (fadd ssy (of_int k))) in *.
  assert (Hlen : y1 * s_width s + to_usize ssx + to_usize aw <= s_width s * s_height s) by nia.
  assert (Hbig : s_width s * s_height s < 2 ^ 64).
  { destruct Hs as [Hw Hh]. assert (s_width s * s_height s < 2 ^ 24 * 2 ^ 24) by nia. lia. }
  unfold slice. rewrite surface_len_eq by done. rewrite (wrap_small 64) by (split; nia).
  rewrite (proj2 (Z.leb_le _ _)), (proj2 (Z.leb_le _ _)) by lia. cbn [andb rust_assert mbind exec_bind].
  match goal with |- context[read_colors ?n ?a m] => set (cs := read_colors n a m) end.
  assert (Hcs : Z.of_nat (length cs) = to_usize aw) by (unfold cs; rewrite length_read_colors; lia).
  destruct (blend_draws target cs _ _ m Ht Hf (conj Hx2 Hy2)) as (m' & -> & D); [lia|]. cbn [mbind exec_bind].
  exists (inl m'). split; [done|]. eexists. split; [exact D|done].
Qed.

Lemma composite_rows_draw source target tp ssx ssy aw : forall ks m,
  (forall k m, exists r, composite_row source target tp ssx ssy aw k m = Done r /\
    paints (fb_surface target) (fun _ => True) m (match r with inl m' => m' | inr m' => m' end)) ->
  exists r, for_ret ks (composite_row source target tp ssx ssy aw) m = Done r /\
    paints (fb_surface target) (fun _ => True) m (match r with inl m' => m' | inr m' => m' end).
Proof.
  intros ks m Hrow. revert m. induction ks as [|k ks IH]; intros m; cbn [for_ret]; [exists (inl m); split; [done|apply paints_refl]|].
  destruct (Hrow k m) as ([m1|m1] & -> & P1); cbn [mbind exec_bind]; [|by exists (inr m1)].
  destruct (IH m1) as (r & -> & P2). exists r. split; [done|]. by eapply paints_trans.
Qed.

(** ** The bounds, for arbitrary coordinates *)

Lemma to_usize_rank x : valid x -> is_nan x = false -> rank x <= 2 ^ 24 * 2 ^ 149 -> to_usize x = Z.max 0 (rank x / 2 ^ 149).
Proof.
  intros Hv Hnan Hr. destruct (Z.le_gt_cases 0 (rank x)) as [H0|H0].
  - destruct (to_usize_below x 0 (2 ^ 24 + 1)) as [-> _]; try done; [lia| |].
    + by destruct x as [|[]| |]; cbn [rank cond_Zopp] in *; try lia.
    + assert (0 <= rank x / 2 ^ 149) by (apply Z.div_pos; lia). lia.
  - assert (rank x / 2 ^ 149 < 0) by (apply Z.div_lt_upper_bound; lia). rewrite Z.max_l by lia.
    destruct x as [s|[]| |[] m e]; cbn [rank cond_Zopp] in H0; try done; try lia.
    + apply valid_finite in Hv as (Hm & He & _). assert (int_part (S754_finite true m e) <= 0).
      { cbn [int_part cond_Zopp]. apply Z.opp_nonpos_nonneg. destruct (Z.leb_spec 0 e); [apply Z.mul_nonneg_nonneg; lia|apply Z.div_pos; lia]. }
      unfold to_usize, to_int. lia.
Qed.

Lemma to_usize_le x n : valid x -> is_nan x = false -> 0 <= n <= 2 ^ 24 -> rank x <= n * 2 ^ 149 -> to_usize x <= n.
Proof.
  intros Hv Hnan Hn Hr. rewrite to_usize_rank by (try done; lia). assert (rank x / 2 ^ 149 <= n) by (apply Z.div_le_upper_bound; lia). lia.
Qed.

(** The integers around an exact difference are around the rounded one. *)
Lemma fsub_le_int x y n : finite x -> finite y -> 0 <= n < 2 ^ 24 -> rank x - rank y <= n * 2 ^ 149 -> to_usize (fsub x y) <= n.
Proof.
  intros Hx Hy Hn Hr. destruct (fsub_faithful x y Hx Hy) as (Hv & Hnan & Hf). destruct (of_int_valid n) as (Vn & Nn & Rn); [lia|].
  destruct (Hf _ Vn Nn) as [_ H]. rewrite Rn in H. apply to_usize_le; [done..|lia|]. by apply H.
Qed.

Lemma same_rank r N z : faithful r N -> valid z -> is_nan z = false -> rank z = N -> rank r = N.
Proof. intros (_ & _ & Hf) Hz Hn Hr. destruct (Hf z Hz Hn) as [H1 H2]. lia. Qed.

Lemma fsub_self x : finite x -> finite (fsub x x) /\ rank (fsub x x) = 0.
Proof.
  intros Hx. pose proof (fsub_faithful x x Hx Hx) as Hf. rewrite Z.sub_diag in Hf. pose proof (same_rank _ _ fzero Hf ltac:(done) ltac:(done) ltac:(done)) as Hr.
  split; [|done]. apply (finite_rank _ 0); [lia|apply Hf|apply Hf|lia].
Qed.

Lemma fadd_zero_l x y : finite x -> finite y -> rank x = 0 -> finite (fadd x y) /\ rank (fadd x y) = rank y.
Proof.
  intros Hx Hy H0. pose proof (fadd_faithful x y Hx Hy) as Hf. rewrite H0, Z.add_0_l in Hf.
  assert (Hr : rank (fadd x y) = rank y) by (apply (same_rank _ _ y Hf); [apply Hy|by apply finite_not_nan|done]).
  split; [|done]. destruct Hy as [Vy Py]. destruct Hf as (Hv & Hn & _). split; [done|].
  destruct (fadd x y) as [|[]| |], y as [|[]| |sy my ey]; try done; cbn [rank cond_Zopp] in Hr; try lia.
  all: apply valid_finite in Vy as (Hm & He & _); pose proof (finite_below my ey Hm He); destruct sy; cbn [cond_Zopp] in Hr; lia.
Qed.

Lemma fmin_rank x y : valid x -> valid y -> is_nan x = false -> is_nan y = false ->
  is_nan (fmin x y) = false /\ rank (fmin x y) = Z.min (rank x) (rank y).
Proof. intros Vx Vy Nx Ny. unfold fmin. rewrite Nx, Ny, flt_rank by done. destruct (Z.ltb_spec (rank y) (rank x)); split; (done || lia). Qed.

Lemma fmax_rank x y : valid x -> valid y -> is_nan x = false -> is_nan y = false ->
  is_nan (fmax x y) = false /\ rank (fmax x y) = Z.max (rank x) (rank y).
Proof. intros Vx Vy Nx Ny. unfold fmax. rewrite Nx, Ny, flt_rank by done. destruct (Z.ltb_spec (rank x) (rank y)); split; (done || lia). Qed.

(** With a number, min and max are numbers. *)
Lemma fmin_le_l x y : valid x -> valid y -> is_nan x = false -> is_nan (fmin x y) = false /\ rank (fmin x y) <= rank x.
Proof.
  intros Vx Vy Nx. destruct (is_nan y) eqn:Ny; [unfold fmin; rewrite Nx, Ny; split; [done|lia]|].
  destruct (fmin_rank x y Vx Vy Nx Ny) as [? ->]. split; [done|lia].
Qed.
Lemma fmax_ge_r x y : valid x -> valid y -> is_nan y = false -> is_nan (fmax x y) = false /\ rank y <= rank (fmax x y).
Proof.
  intros Vx Vy Ny. destruct (is_nan x) eqn:Nx; [unfold fmax; rewrite Nx; split; [done|lia]|].
  destruct (fmax_rank x y Vx Vy Nx Ny) as [? ->]. split; [done|lia].
Qed.

(** A row of the bounds [ss] and [se] fits both buffers. *)
Definition row_fits (source : ColorBuffer) (target : Framebuffer) (tp ss se : Point) : Prop :=
  let ssx := fmax (px ss) fzero in
  let aw := fsub (fmin (swidth (surface_size (cb_surface source))) (px se)) ssx in
  valid_point ss /\ valid_point se /\
  (finite ssx -> 0 <= to_usize ssx < s_width (cb_surface source) -> to_usize ssx + to_usize aw <= s_width (cb_surface source)) /\
  (finite ssx -> finite (fadd ssx (px tp)) -> 0 <= to_usize (fadd ssx (px tp)) < s_width (fb_surface target) ->
     to_usize (fadd ssx (px tp)) + to_usize aw <= s_width (fb_surface target)).

Lemma composite_buffer_paints damage source target tp m :
  surface_ok (cb_surface source) -> surface_ok (fb_surface target) -> format_ok (fb_format target) -> valid_point tp ->
  (forall ss se, composite_bounds damage source target tp = Some (ss, se) -> flt (px se) fzero = false -> row_fits source target tp ss se) ->
  exists m', composite_buffer damage source target tp m = Done m' /\ paints (fb_surface target) (fun _ => True) m m'.
Proof.
  intros Hs Ht Hf Htp Hfit. unfold composite_buffer. destruct (composite_bounds damage source target tp) as [[ss se]|]; [|exists m; split; [done|apply paints_refl]].
  specialize (Hfit ss se eq_refl). destruct (flt (px se) fzero) eqn:E; cbn [orb]; [exists m; split; [done|apply paints_refl]|].
  destruct (Hfit eq_refl) as ([Vx Vy] & _ & HA & HB).
  destruct (_ || _); [exists m; split; [done|apply paints_refl]|].
  destruct (composite_rows_draw source target tp (fmax (px ss) fzero) (fmax (py ss) fzero)
    (fsub (fmin (swidth (surface_size (cb_surface source))) (px se)) (fmax (px ss) fzero))
    (seqZ 0 (to_i32 (fsub (fmin (sheight (surface_size (cb_surface source))) (py se)) (fmax (py ss) fzero)))) m) as (r & -> & P).
  { intros k m0. apply composite_row_draws; try done; by apply fmax_valid. }
  cbn [mbind exec_bind]. eexists. split; [reflexivity|]. by destruct r.
Qed.

(** A number that is not negative, or an edge of a buffer. *)
Lemma edge_rank n : 0 <= n < 2 ^ 24 -> valid (of_int n) /\ is_nan (of_int n) = false /\ rank (of_int n) = n * 2 ^ 149 /\ finite (of_int n).
Proof. intros Hn. destruct (of_int_valid n) as (V & N & R); [lia|]. split; [done|]. split; [done|]. split; [done|]. apply plain_finite, of_int_plain. lia. Qed.

Lemma floor_rank x : finite x -> 0 <= rank x -> to_usize x < 2 ^ 24 -> to_usize x * 2 ^ 149 <= rank x.
Proof.
  intros [Hv Px] H0 Ht. assert (Hnan : is_nan x = false) by (by destruct x).
  assert (E : int_part x = rank x / 2 ^ 149) by (apply int_part_rank; [done|by destruct x|done]).
  assert (0 <= rank x / 2 ^ 149) by (apply Z.div_pos; lia).
  assert (to_usize x <= rank x / 2 ^ 149) by (unfold to_usize, to_int in *; destruct x; try done; rewrite E in *; lia).
  pose proof (Z.mul_div_le (rank x) (2 ^ 149) ltac:(lia)). nia.
Qed.

(** The two ways the shell composites. A source at a point that is not negative,
    whose damage does not shrink it: the start is 0, and the end is rounded
    from the distance to the edge of the target. *)
Definition shrinks (damage : option Area) (source : ColorBuffer) : bool :=
  match damage with
  | Some d => flt (Area_width d) (swidth (surface_size (cb_surface source))) && flt (Area_height d) (sheight (surface_size (cb_surface source)))
  | None => false
  end.

Lemma placed_axis W sw t : 0 <= W < 2 ^ 22 -> 0 <= sw < 2 ^ 22 -> finite t -> 0 <= rank t <= W * 2 ^ 149 ->
  let ss := fsub (fmax t fzero) t in
  let se := fsub (fmin (of_int W) (fadd t (of_int sw))) t in
  let ssx := fmax ss fzero in
  let aw := fsub (fmin (of_int sw) se) ssx in
  valid ss /\ valid se /\
  (finite ssx -> 0 <= to_usize ssx < sw -> to_usize ssx + to_usize aw <= sw) /\
  (finite ssx -> finite (fadd ssx t) -> 0 <= to_usize (fadd ssx t) < W -> to_usize (fadd ssx t) + to_usize aw <= W).
Proof.
  intros HW Hsw Ft Ht. destruct (edge_rank W) as (VW & NW & RW & FW); [lia|]. destruct (edge_rank sw) as (Vs & Ns & Rs & Fs); [lia|].
  destruct Ft as [Vt Pt] eqn:EF. clear EF. assert (Ft' : finite t) by done. pose proof (finite_not_nan t Ft') as Nt.
  assert (Hmax : fmax t fzero = t).
  { unfold fmax. rewrite Nt. cbn [is_nan]. rewrite flt_rank by done. change (rank fzero) with 0. rewrite (proj2 (Z.ltb_ge _ _)) by lia. done. }
  rewrite Hmax. destruct (fsub_self t Ft') as [Fss Rss]. set (ss := fsub t t) in *. cbv zeta.
  destruct (fadd_faithful t (of_int sw) Ft' Fs) as (Vae & Nae & Hae). set (ae := fadd t (of_int sw)) in *.
  destruct (Hae t Vt Nt) as [Hae0 _]. rewrite Rs in Hae0. specialize (Hae0 ltac:(lia)).
  destruct (fmin_rank (of_int W) ae VW Vae NW Nae) as [Nte Rte]. pose proof (fmin_valid _ _ VW Vae) as Vte. set (te := fmin (of_int W) ae) in *.
  assert (Fte : finite te) by (apply (finite_rank _ W); [lia|done|done|lia]).
  destruct (fsub_faithful te t Fte Ft') as (Vse & Nse & Hse). set (se := fsub te t) in *.
  assert (Hse0 : 0 <= rank se) by (destruct (Hse fzero ltac:(done) ltac:(done)) as [H _]; change (rank fzero) with 0 in H; lia).
  assert (HseW : rank se <= W * 2 ^ 149) by (destruct (Hse (of_int W) VW NW) as [_ H]; lia).
  destruct (fmax_rank ss fzero ltac:(apply Fss) ltac:(done) (finite_not_nan _ Fss) ltac:(done)) as [Nssx Rssx]. change (rank fzero) with 0 in Rssx.
  assert (Vssx : valid (fmax ss fzero)) by (apply fmax_valid; [apply Fss|done]). set (ssx := fmax ss fzero) in *.
  destruct (fmin_rank (of_int sw) se Vs Vse Ns Nse) as [Nmm Rmm]. pose proof (fmin_valid _ _ Vs Vse) as Vmm. set (mm := fmin (of_int sw) se) in *.
  assert (Fmm : finite mm) by (apply (finite_rank _ W); [lia|done|done|lia]).
  split; [apply Fss|]. split; [done|]. split.
  - intros Fssx Hi. pose proof (floor_rank ssx Fssx ltac:(lia) ltac:(lia)).
    enough (to_usize (fsub mm ssx) <= sw - to_usize ssx) by lia. apply fsub_le_int; [done|done|lia|lia].
  - intros Fssx Ftx Hi. destruct (fadd_zero_l ssx t Fssx Ft' ltac:(lia)) as [_ Rtx]. pose proof (floor_rank (fadd ssx t) Ftx ltac:(lia) ltac:(lia)) as Hfl.
    set (k := to_usize (fadd ssx t)) in *. enough (to_usize (fsub mm ssx) <= W - k) by lia. apply fsub_le_int; [done|done|lia|].
    destruct (edge_rank (W - k)) as (Vk & Nk & Rk & _); [lia|]. destruct (Hse (of_int (W - k)) Vk Nk) as [_ H]. rewrite Rk in H. lia.
Qed.

(** A source at the origin, with any damage. *)
Lemma origin_axis W sw d de : 0 <= W < 2 ^ 22 -> 0 <= sw < 2 ^ 22 -> valid d -> valid de ->
  let ss := fmax fzero d in
  let se := fmin (of_int (Z.min W sw)) de in
  let ssx := fmax ss fzero in
  let aw := fsub (fmin (of_int sw) se) ssx in
  flt se fzero = false ->
  valid ss /\ valid se /\
  (finite ssx -> 0 <= to_usize ssx < sw -> to_usize ssx + to_usize aw <= sw) /\
  (finite ssx -> finite (fadd ssx fzero) -> 0 <= to_usize (fadd ssx fzero) < W -> to_usize (fadd ssx fzero) + to_usize aw <= W).
Proof.
  intros HW Hsw Vd Vde. cbv zeta. destruct (edge_rank (Z.min W sw)) as (Vm & Nm & Rm & _); [lia|]. destruct (edge_rank sw) as (Vs & Ns & Rs & _); [lia|].
  assert (Vss : valid (fmax fzero d)) by (by apply fmax_valid). set (ss := fmax fzero d) in *.
  destruct (fmin_le_l _ _ Vm Vde Nm) as [Nse Rse]. pose proof (fmin_valid _ _ Vm Vde) as Vse. set (se := fmin _ de) in *. intros Hse.
  rewrite flt_rank in Hse by done. change (rank fzero) with 0 in Hse. apply Z.ltb_ge in Hse.
  destruct (fmax_ge_r ss fzero Vss ltac:(done) ltac:(done)) as [Nssx Rssx]. change (rank fzero) with 0 in Rssx.
  set (ssx := fmax ss fzero) in *.
  destruct (fmin_rank (of_int sw) se Vs Vse Ns Nse) as [Nmm Rmm]. pose proof (fmin_valid _ _ Vs Vse) as Vmm. set (mm := fmin (of_int sw) se) in *.
  assert (Fmm : finite mm) by (apply (finite_rank _ sw); [lia|done|done|lia]).
  assert (Hk : forall k, finite ssx -> 0 <= k -> k * 2 ^ 149 <= rank ssx -> forall n, k < n < 2 ^ 23 -> rank mm <= n * 2 ^ 149 -> k + to_usize (fsub mm ssx) <= n).
  { intros k Fx Hk0 Hkx n Hn Hmm. enough (to_usize (fsub mm ssx) <= n - k) by lia. apply fsub_le_int; [done|done|lia|lia]. }
  split; [done|]. split; [done|]. split.
  - intros Fx Hi. apply Hk; [done|lia| |lia|lia]. apply floor_rank; [done|lia|lia].
  - intros Fx Fx' Hi. assert (Hr : rank (fadd ssx fzero) = rank ssx).
    { pose proof (fadd_faithful ssx fzero Fx ltac:(done)) as Hf. change (rank fzero) with 0 in Hf. rewrite Z.add_0_r in Hf. apply (same_rank _ _ ssx Hf); [by apply finite_valid|by apply finite_not_nan|done]. }
    apply Hk; [done|lia| |lia|lia]. rewrite <- Hr. apply floor_rank; [done|lia|lia].
Qed.

Record small_surface (s : Surface) : Prop := { small_width : 0 <= s_width s < 2 ^ 22; small_height : 0 <= s_height s < 2 ^ 22 }.

Lemma small_ok s : small_surface s -> surface_ok s.
Proof. intros [? ?]. split; lia. Qed.

(** A source at a point right of and below the origin, not shrunk by the damage. *)
Lemma composite_placed damage source target tp m : small_surface (cb_surface source) -> small_surface (fb_surface target) -> format_ok (fb_format target) ->
  valid_point tp -> is_nan (px tp) = false -> is_nan (py tp) = false -> 0 <= rank (px tp) -> 0 <= rank (py tp) -> shrinks damage source = false ->
  exists m', composite_buffer damage source target tp m = Done m' /\ paints (fb_surface target) (fun _ => True) m m'.
Proof.
  intros Hs Ht Hf [Vx Vy] Nx Ny Hx Hy Hd. apply composite_buffer_paints; [by apply small_ok|by apply small_ok|done|done|].
  intros ss se Hb _. unfold composite_bounds in Hb. cbn [swidth sheight surface_size Size_new] in Hb.
  destruct (_ || _ || _ || _) eqn:Hout in Hb; [done|]. rewrite !orb_false_iff in Hout. destruct Hout as [[_ Hox] Hoy]. cbn [px py] in Hox, Hoy.
  (* within the target, so finite *)
  assert (Hle : forall n t, 0 <= n < 2 ^ 22 -> valid t -> is_nan t = false -> 0 <= rank t -> flt (of_int n) (fmax t fzero) = false -> finite t /\ rank t <= n * 2 ^ 149).
  { intros n t Hn Vt Nt Hr. destruct (edge_rank n) as (V & N & R & _); [lia|]. unfold fmax. rewrite Nt. change (is_nan fzero) with false. cbv iota.
    rewrite (flt_rank t fzero) by done. change (rank fzero) with 0. rewrite (proj2 (Z.ltb_ge _ _)) by lia. rewrite flt_rank, R by done. intros Hlt%Z.ltb_ge.
    split; [|done]. apply (finite_rank _ n); [lia|done|done|lia]. }
  destruct (Hle _ _ (small_width _ Ht) Vx Nx Hx Hox) as [Fx Hxw]. destruct (Hle _ _ (small_height _ Ht) Vy Ny Hy Hoy) as [Fy Hyh].
  destruct (placed_axis _ (s_width (cb_surface source)) (px tp) (small_width _ Ht) (small_width _ Hs) Fx (conj Hx Hxw)) as (V1 & V2 & A & B).
  destruct (placed_axis _ (s_height (cb_surface source)) (py tp) (small_height _ Ht) (small_height _ Hs) Fy (conj Hy Hyh)) as (V3 & V4 & _).
  assert (E : Some (Point_const_sub (mkPoint (fmax (px tp) fzero) (fmax (py tp) fzero)) tp,
     Point_const_sub (mkPoint (fmin (of_int (s_width (fb_surface target))) (px (Point_add_size tp (surface_size (cb_surface source)))))
        (fmin (of_int (s_height (fb_surface target))) (py (Point_add_size tp (surface_size (cb_surface source)))))) tp) = Some (ss, se)).
  { destruct damage as [d|]; [|done]. destruct (negb _); [done|]. unfold shrinks in Hd. cbn [swidth sheight surface_size Size_new] in Hd. by rewrite Hd in Hb. }
  injection E as <- <-. split; [by split|]. split; [by split|]. by split.
Qed.

(** A source at the origin. *)
Lemma composite_at_origin damage source target m : small_surface (cb_surface source) -> small_surface (fb_surface target) -> format_ok (fb_format target) ->
  (forall d, damage = Some d -> valid_area d) ->
  exists m', composite_buffer damage source target Point_ORIGIN m = Done m' /\ paints (fb_surface target) (fun _ => True) m m'.
Proof.
  intros Hs Ht Hf Hd. destruct (shrinks damage source) eqn:Es; [|by apply composite_placed].
  destruct damage as [d|]; [|done]. destruct (Hd d eq_refl) as [[Vx Vy] [Vw Vh]]. unfold shrinks in Es.
  apply composite_buffer_paints; [by apply small_ok|by apply small_ok|done|done|]. intros ss se Hb Hse. unfold composite_bounds in Hb.
  destruct (_ || _ || _ || _) in Hb; [done|]. destruct (negb _) in Hb; [done|]. rewrite Es in Hb.
  destruct Hs as [Hsw Hsh], Ht as [Htw Hth].
  assert (Hedge : forall W n, 0 <= W < 2 ^ 22 -> 0 <= n < 2 ^ 22 -> fsub (fmin (of_int W) (fadd fzero (of_int n))) fzero = of_int (Z.min W n)).
  { intros W n HW Hn. rewrite surface_edge by lia. rewrite fmin_int by lia. rewrite <- of_int_zero, fsub_int by lia. f_equal. lia. }
  injection Hb as <- <-. unfold Point_const_sub, Point_min, Point_max, Point_add_size, Point_new in *. cbn [px py Point_ORIGIN Point_new swidth sheight surface_size Size_new] in *.
  rewrite !Hedge in * by done.
  destruct (origin_axis (s_width (fb_surface target)) (s_width (cb_surface source)) (px (apos d)) (fadd (px (apos d)) (swidth (asize d))) Htw Hsw Vx ltac:(by apply fadd_valid) Hse) as (V1 & V2 & A & B).
  split; [split; [exact V1|by apply fmax_valid]|]. split; [split; [exact V2|]|by split].
  apply fmin_valid; [by apply edge_rank; lia|by apply fadd_valid].
Qed.

(** ** The picture, at integer positions *)

(** The source's words are not the target's. *)
Definition apart (source : ColorBuffer) (target : Framebuffer) : Prop := forall i j i' j',
  in_surface (cb_surface source) i j -> in_surface (fb_surface target) i' j' -> pixel_addr (cb_surface source) i j <> pixel_addr (fb_surface target) i' j'.

(** The pixel [(i, j)] of the target once the source's pixel at [(i - x, j - y)] is blended over it. *)
Definition blend_at (source : ColorBuffer) (target : Framebuffer) (x y : Z) (m : Words) (i j : Z) : Z :=
  blended (fb_format target) (Color_of_word (load m (pixel_addr (cb_surface source) (i - x) (j - y)))) (load m (pixel_addr (fb_surface target) i j)).

Definition blit (source : ColorBuffer) (target : Framebuffer) (x y X Y W H : Z) (m : Words) (i j : Z) : option Z :=
  if in_rect X Y W H i j then Some (blend_at source target x y m i j) else None.

Lemma contains_int s i j : surface_ok s -> Z.abs i < 2 ^ 24 -> Z.abs j < 2 ^ 24 ->
  point_index s (mkPoint (of_int i) (of_int j)) = if (0 <=? i) && (0 <=? j) && (i <? s_width s) && (j <? s_height s) then Some (j * s_width s + i) else None.
Proof.
  intros Hs Hi Hj. pose proof Hs as [Hw Hh]. unfold point_index, Area_contains, Area_max_x, Area_max_y, Area_x, Area_y, surface_area.
  cbn [px py apos asize Area_from_size Area_width Area_height Point_ORIGIN Point_new surface_size Size_new swidth sheight].
  rewrite !surface_edge by done. rewrite <- of_int_zero, !fle_int, !flt_int by lia. destruct (_ && _) eqn:E; [|done].
  rewrite !andb_true_iff, !Z.leb_le, !Z.ltb_lt in E. rewrite !to_usize_nat by lia. rewrite (Z.mul_comm (s_width s)).
  by rewrite (proj1 (surface_index s i j Hs ltac:(split; lia))).
Qed.

Lemma composite_row_int source target x y X0 Y0 A k m :
  surface_ok (cb_surface source) -> surface_ok (fb_surface target) -> format_ok (fb_format target) ->
  Z.abs x < 2 ^ 22 -> Z.abs y < 2 ^ 22 -> 0 <= k < 2 ^ 22 -> 0 <= Y0 < 2 ^ 22 ->
  0 < A -> 0 <= X0 -> X0 + A <= s_width (cb_surface source) -> 0 <= X0 + x -> X0 + x + A <= s_width (fb_surface target) ->
  0 <= Y0 + k < s_height (cb_surface source) -> 0 <= Y0 + k + y < s_height (fb_surface target) ->
  exists m', composite_row source target (ipoint x y) (of_int X0) (of_int Y0) (of_int A) k m = Done (inl m') /\
    drawn (fb_surface target) (blit source target x y (X0 + x) (Y0 + k + y) A 1 m) m m'.
Proof.
  intros Hs Ht Hf Hx Hy Hk HY0 HA HX0 HXs HXt HXw HYs HYt. pose proof Hs as [Hsw Hsh]. pose proof Ht as [Htw Hth].
  unfold composite_row. rewrite fadd_int by lia. rewrite contains_int by (done || lia).
  rewrite !(proj2 (Z.leb_le _ _)), !(proj2 (Z.ltb_lt _ _)) by lia. cbn [andb].
  unfold ipoint, Point_const_add, Point_new. cbn [px py]. rewrite !fadd_int by lia. rewrite contains_int by (done || lia).
  rewrite !(proj2 (Z.leb_le _ _)), !(proj2 (Z.ltb_lt _ _)) by lia. cbn [andb]. rewrite to_usize_nat by lia.
  set (s := cb_surface source) in *. unfold slice. rewrite surface_len_eq by done.
  assert (Hlen : 0 <= (Y0 + k) * s_width s + X0 + A <= s_width s * s_height s) by nia.
  assert (Hbig : s_width s * s_height s < 2 ^ 64) by (assert (s_width s * s_height s < 2 ^ 24 * 2 ^ 24) by nia; lia).
  rewrite (wrap_small 64) by (split; lia). rewrite (proj2 (Z.leb_le _ _)), (proj2 (Z.leb_le _ _)) by lia. cbn [andb rust_assert mbind exec_bind].
  replace ((Y0 + k) * s_width s + X0 + A - ((Y0 + k) * s_width s + X0)) with A by lia. change (word_addr s ((Y0 + k) * s_width s + X0)) with (pixel_addr s X0 (Y0 + k)).
  set (cs := read_colors (Z.to_nat A) (pixel_addr s X0 (Y0 + k)) m). assert (Hcs : Z.of_nat (length cs) = A) by (unfold cs; rewrite length_read_colors; lia).
  destruct (blend_draws target cs (X0 + x) (Y0 + k + y) m Ht Hf ltac:(split; lia)) as (m' & -> & D); [lia|]. cbn [mbind exec_bind]. exists m'. split; [done|].
  refine (drawn_ext _ _ _ _ _ _ D). intros i j _. unfold blit. rewrite Hcs. destruct (in_rect _ _ _ _ i j) eqn:R; [|done]. apply in_rect_spec in R.
  assert (j = Y0 + k + y) as -> by lia. unfold cs. rewrite lookup_read_colors by lia. unfold blend_at. fold s. do 4 f_equal. unfold pixel_addr, word_addr. lia.
Qed.

Lemma blit_rows source target x y X Y A n m m1 : apart source target -> 0 <= n ->
  0 <= X -> X + A <= s_width (fb_surface target) -> X + A - x <= s_width (cb_surface source) -> 0 <= X - x -> 0 <= Y -> Y + 1 + n <= s_height (fb_surface target) ->
  0 <= Y - y -> Y + 1 + n - y <= s_height (cb_surface source) ->
  drawn (fb_surface target) (blit source target x y X Y A 1 m) m m1 -> forall i j, in_surface (fb_surface target) i j ->
  overlay (blit source target x y X Y A 1 m) (blit source target x y X (Y + 1) A n m1) i j = blit source target x y X Y A (n + 1) m i j.
Proof.
  intros Hap Hn HX HXA HXs HXx HY HYn HYy HYs D i j Hij. unfold overlay, blit. destruct (in_rect X (Y + 1) A n i j) eqn:R1.
  - apply in_rect_spec in R1. rewrite (proj2 (in_rect_spec X Y A (n + 1) i j)) by lia. f_equal. unfold blend_at, load.
    rewrite (drawn_only _ _ _ _ D) by (intros i' j' Hij'; apply Hap; [split; lia|done]). rewrite (drawn_pixel _ _ _ _ D i j Hij). unfold blit.
    destruct (in_rect X Y A 1 i j) eqn:R2; [apply in_rect_spec in R2; lia|done].
  - rewrite <- not_true_iff_false, in_rect_spec in R1. destruct (in_rect X Y A 1 i j) eqn:R2.
    + apply in_rect_spec in R2. by rewrite (proj2 (in_rect_spec X Y A (n + 1) i j)) by lia.
    + rewrite <- not_true_iff_false, in_rect_spec in R2. destruct (in_rect X Y A (n + 1) i j) eqn:R3; [apply in_rect_spec in R3; lia|done].
Qed.

Lemma composite_rows_int source target x y X0 Y0 A :
  surface_ok (cb_surface source) -> surface_ok (fb_surface target) -> format_ok (fb_format target) -> apart source target ->
  Z.abs x < 2 ^ 22 -> Z.abs y < 2 ^ 22 -> 0 <= Y0 < 2 ^ 22 ->
  0 < A -> 0 <= X0 -> X0 + A <= s_width (cb_surface source) -> 0 <= X0 + x -> X0 + x + A <= s_width (fb_surface target) ->
  0 <= Y0 + y -> forall n k m, 0 <= k -> k + Z.of_nat n < 2 ^ 22 ->
  Y0 + k + Z.of_nat n <= s_height (cb_surface source) -> Y0 + k + Z.of_nat n + y <= s_height (fb_surface target) ->
  exists m', for_ret (seqZ k (Z.of_nat n)) (composite_row source target (ipoint x y) (of_int X0) (of_int Y0) (of_int A)) m = Done (inl m') /\
    drawn (fb_surface target) (blit source target x y (X0 + x) (Y0 + k + y) A (Z.of_nat n) m) m m'.
Proof.
  intros Hs Ht Hf Hap Hx Hy HY0 HA HX0 HXs HXt HXw HYy. induction n as [|n IH]; intros k m Hk Hkn Hns Hnt.
  - exists m. split; [done|]. apply (drawn_ext _ (fun _ _ => None)); [|apply drawn_nothing]. intros i j _. unfold blit.
    destruct (in_rect _ _ _ _ i j) eqn:R; [apply in_rect_spec in R; lia|done].
  - rewrite seqZ_cons by lia. cbn [for_ret].
    destruct (composite_row_int source target x y X0 Y0 A k m) as (m1 & -> & D1); [done..|lia|lia|done|done|done|done|done|done|lia|lia|]. cbn [mbind exec_bind].
    replace (Z.pred (Z.of_nat (S n))) with (Z.of_nat n) by lia. replace (Z.succ k) with (k + 1) by lia.
    destruct (IH (k + 1) m1) as (m2 & -> & D2); [lia..|]. exists m2. split; [done|].
    refine (drawn_ext _ _ _ _ _ _ (drawn_trans _ _ _ _ _ _ D1 D2)). intros i j Hij.
    replace (Y0 + (k + 1) + y) with (Y0 + k + y + 1) by lia. replace (Z.of_nat (S n)) with (Z.of_nat n + 1) by lia. apply blit_rows; done || lia.
Qed.

Lemma composite_bounds_int source target x y : small_surface (cb_surface source) -> small_surface (fb_surface target) -> Z.abs x < 2 ^ 22 -> Z.abs y < 2 ^ 22 ->
  let s := cb_surface source in let t := fb_surface target in
  composite_bounds None source target (ipoint x y) =
    if (x + s_width s <? 0) || (y + s_height s <? 0) || (s_width t <? x) || (s_height t <? y) then None
    else Some (ipoint (Z.max x 0 - x) (Z.max y 0 - y), ipoint (Z.min (s_width t) (x + s_width s) - x) (Z.min (s_height t) (y + s_height s) - y)).
Proof.
  intros [Hsw Hsh] [Htw Hth] Hx Hy s t. fold s t in Hsw, Hsh, Htw, Hth. unfold composite_bounds. fold s t.
  assert (Hb : flt (of_int (Z.min (s_width t) (x + s_width s))) (of_int 0) || flt (of_int (Z.min (s_height t) (y + s_height s))) (of_int 0)
     || flt (of_int (s_width t)) (of_int (Z.max x 0)) || flt (of_int (s_height t)) (of_int (Z.max y 0)) =
     ((x + s_width s <? 0) || (y + s_height s <? 0) || (s_width t <? x) || (s_height t <? y))).
  { rewrite !flt_int by lia. apply eq_true_iff_eq. rewrite !orb_true_iff, !Z.ltb_lt. lia. }
  unfold Point_add_size, Point_const_sub, Point_new, ipoint. cbn [px py swidth sheight surface_size Size_new]. rewrite <- of_int_zero.
  rewrite !fadd_int by lia. rewrite !fmin_int, !fmax_int by lia. rewrite Hb. rewrite !fsub_int by lia. done.
Qed.

(** At integer positions, and without damage, compositing a buffer blends each
    of its pixels over the pixel of the target at its place, wherever it is in
    the target; a transparent pixel leaves the target's. Nothing else changes,
    in the target or outside, and no slice panics. *)
Lemma composite_buffer_blits source target x y m :
  small_surface (cb_surface source) -> small_surface (fb_surface target) -> format_ok (fb_format target) -> apart source target ->
  Z.abs x < 2 ^ 22 -> Z.abs y < 2 ^ 22 ->
  exists m', composite_buffer None source target (ipoint x y) m = Done m' /\
    drawn (fb_surface target) (blit source target x y x y (s_width (cb_surface source)) (s_height (cb_surface source)) m) m m'.
Proof.
  intros Hs Ht Hf Hap Hx Hy. pose proof Hs as [Hsw Hsh]. pose proof Ht as [Htw Hth]. pose proof (small_ok _ Hs) as Ks. pose proof (small_ok _ Ht) as Kt.
  unfold composite_buffer. rewrite composite_bounds_int by done. set (s := cb_surface source) in *. set (t := fb_surface target) in *.
  assert (Hnone : (x + s_width s <= 0 \/ y + s_height s <= 0 \/ s_width t <= x \/ s_height t <= y \/ s_width s = 0 \/ s_height s = 0 \/ s_width t = 0 \/ s_height t = 0) ->
    forall m, drawn t (blit source target x y x y (s_width s) (s_height s) m) m m).
  { intros Hc m0. apply (drawn_ext _ (fun _ _ => None)); [|apply drawn_nothing]. intros i j [Hi Hj]. unfold blit.
    destruct (in_rect _ _ _ _ i j) eqn:R; [apply in_rect_spec in R; lia|done]. }
  destruct (_ || _ || _ || _) eqn:E; [rewrite !orb_true_iff, !Z.ltb_lt in E; exists m; split; [done|apply Hnone; lia]|].
  rewrite !orb_false_iff, !Z.ltb_ge in E. cbn [px py ipoint swidth sheight surface_size Size_new]. rewrite <- of_int_zero.
  rewrite !flt_int by lia. rewrite !(proj2 (Z.ltb_ge _ _)) by lia. cbn [orb].
  rewrite !fmax_int, !fmin_int, !fsub_int by lia. rewrite to_i32_int by lia.
  set (X0 := Z.max (Z.max x 0 - x) 0). set (Y0 := Z.max (Z.max y 0 - y) 0).
  set (A := Z.min (s_width s) (Z.min (s_width t) (x + s_width s) - x) - X0). set (B := Z.min (s_height s) (Z.min (s_height t) (y + s_height s) - y) - Y0).
  destruct (decide (A <= 0 \/ B <= 0)) as [Hempty|Hfull].
  - (* an empty overlap *)
    assert (Hd : forall m, drawn t (blit source target x y x y (s_width s) (s_height s) m) m m) by (apply Hnone; lia).
    assert (HB : B <= 0 \/ A = 0 /\ 0 <= B) by lia. destruct HB as [HB|[HA HB]]; [rewrite seqZ_nil by lia; cbn; by exists m|].
    destruct (Z.eq_dec B 0) as [->|HB0]; [cbn; by exists m|]. rewrite seqZ_cons by lia. cbn [for_ret]. unfold composite_row. rewrite fadd_int by lia. rewrite contains_int by (done || lia).
    fold s. destruct (_ && _) eqn:Hin; cbn [mbind exec_bind]; [|by exists m]. rewrite !andb_true_iff, !Z.leb_le, !Z.ltb_lt in Hin.
    unfold Point_const_add, Point_new, ipoint. cbn [px py]. rewrite !fadd_int by lia. rewrite contains_int by (done || lia). fold t.
    destruct (_ && _) eqn:Hin2 in |- *; cbn [mbind exec_bind]; [|by exists m]. rewrite !andb_true_iff, !Z.leb_le, !Z.ltb_lt in Hin2. lia.
  - destruct (composite_rows_int source target x y X0 Y0 A) with (n := Z.to_nat B) (k := 0) (m := m) as (m' & E2 & D); [done..|lia|lia|lia|lia|fold s; lia|lia|fold t; lia|lia|lia|lia|fold s; lia|fold t; lia|].
    rewrite Z2Nat.id in E2, D by lia. rewrite E2. cbn [mbind exec_bind]. exists m'. split; [done|]. refine (drawn_ext _ _ _ _ _ _ D).
    intros i j [Hi Hj]. fold t in Hi, Hj. unfold blit. fold s t.
    destruct (in_rect (X0 + x) (Y0 + 0 + y) A B i j) eqn:R1, (in_rect x y (s_width s) (s_height s) i j) eqn:R2; try done; exfalso.
    + apply in_rect_spec in R1. rewrite <- not_true_iff_false, in_rect_spec in R2. lia.
    + apply in_rect_spec in R2. rewrite <- not_true_iff_false, in_rect_spec in R1. lia.
Qed.

(** *** Layers *)

(** The sources at integer positions, from the bottom. *)
Definition layers (sources : list (ColorBuffer * (Z * Z))) : list (ColorBuffer * Point) := (fun '(source, (x, y)) => (source, ipoint x y)) <$> sources.

Definition layer (target : Framebuffer) (m : Words) (i j : Z) (pixel : Z) (source : ColorBuffer * (Z * Z)) : Z :=
  let '(source, (x, y)) := source in
  if in_rect x y (s_width (cb_surface source)) (s_height (cb_surface source)) i j
  then blended (fb_format target) (Color_of_word (load m (pixel_addr (cb_surface source) (i - x) (j - y)))) pixel else pixel.

Definition layer_ok (target : Framebuffer) (source : ColorBuffer * (Z * Z)) : Prop :=
  small_surface (cb_surface source.1) /\ apart source.1 target /\ Z.abs source.2.1 < 2 ^ 22 /\ Z.abs source.2.2 < 2 ^ 22.


