(* ===== verification/Asm.v ===== *)
(** * crates/abi/src/asm.rs: the x86 disassembler

    [next] decodes one instruction at the offset of the input. A decoding
    function runs in [D]: it threads the disassembler and ends with a value or
    a [DisassemblyError]; the offset it has reached stays. The match on the
    opcode is divided into its ranges. An [iN] is the signed value of its
    little-endian bytes. *)

From Stdlib Require Import Lia.
From stdpp Require Import base numbers option tactics list.
From S2P Require Import Prelude Pod.

Local Open Scope Z_scope.

(** ** Instructions *)

Inductive Register : Type :=
  | RAX | RCX | RDX | RBX | RSP | RBP | RSI | RDI | R8 | R9 | R10 | R11 | R12 | R13 | R14 | R15 | RIP.

#[export] Instance Register_eq_dec : EqDecision Register.
Proof. solve_decision. Defined.

Inductive ImmediateValue : Type := I8 (v : Z) | I16 (v : Z) | I32 (v : Z) | I64 (v : Z).

Inductive Operand : Type :=
  | OperandRegister (r : Register)
  | OperandImmediateValue (i : ImmediateValue)
  | OperandMemory (base index : option Register) (scale disp : Z).

Inductive ConditionCode : Type :=
  | CC_O | CC_NO | CC_B | CC_NB | CC_Z | CC_NZ | CC_BE | CC_A | CC_S | CC_NS | CC_P | CC_NP | CC_L | CC_GE | CC_LE | CC_G.

Inductive Instruction : Type :=
  | ADC (dst src : Operand) | ADD (dst src : Operand) | AND (dst src : Operand) | BSF (dst src : Operand) | BSR (dst src : Operand)
  | CALL (operand : Operand) | CLC | CLD | CLI | CMC | CMOVCC (cc : ConditionCode) (dst src : Operand)
  | CMP (src_1 src_2 : Operand) | CPUID | DEC (operand : Operand) | HLT | IDIV (operand : Operand) | IMUL (operand : Operand)
  | IN (dst : Register) (port : Operand) | INC (operand : Operand) | INT (vector : ImmediateValue) | INVLPG (src : Operand)
  | INT1 | INT3 | INTO | JCC (cc : ConditionCode) (offset : ImmediateValue) | JMP (operand : Operand) | LEA (dst src : Operand)
  | LZCNT (dst src : Operand) | MONITOR | MOV (dst src : Operand) | MUL (operand : Operand) | MWAIT | NEG (operand : Operand) | NOP
  | NOT (operand : Operand) | OR (dst src : Operand) | OUT (src : Register) (port : Operand) | PAUSE | PUSH (operand : Operand)
  | POP (operand : Operand) | RDMSR | RDMSRLIST | RDPID (dst : Register) | RDPKRU | RDPMC | RDTSC | RDTSCP | RDRAND (dst : Register)
  | RDSEED (dst : Register) | RET | SAR (dst src : Operand) | SBB (dst src : Operand) | SETCC (cc : ConditionCode) (byte : Operand)
  | SHL (dst src : Operand) | SHR (dst src : Operand) | STC | STD | STI | SUB (dst src : Operand) | SWAPGS | SYSCALL | SYSENTER
  | SYSEXIT | SYSRET | TEST (src_1 src_2 : Operand) | TZCNT (dst src : Operand) | XCHG (dst src : Operand) | XOR (dst src : Operand).

Inductive DisassemblyError : Type :=
  | InvalidByte
  | PartialInstruction
  | UnsupportedOpcode (opcode : Z).

Record Disassembler : Type := mkDisassembler { input : list Z; offset : Z }.

Definition Disassembler_new (input : list Z) : Disassembler := mkDisassembler input 0.

(** ** Prefixes and operand bytes *)

(** [Rex(byte)]. *)
Definition rex_w (rex : Z) : bool := negb (Z.land rex 0x8 =? 0).
Definition rex_r (rex : Z) : bool := negb (Z.land rex 0x4 =? 0).
Definition rex_x (rex : Z) : bool := negb (Z.land rex 0x2 =? 0).
Definition rex_b (rex : Z) : bool := negb (Z.land rex 0x1 =? 0).

(** [rex.is_some_and(..)]. *)
Definition is_some_and (o : option Z) (f : Z -> bool) : bool := match o with Some rex => f rex | None => false end.

Definition is_rex_prefix (byte : Z) : bool := Z.land byte 0xF0 =? 0x40.

Definition parse_register (index : Z) (rex : bool) : option Register :=
  match index, rex with
  | 0, false => Some RAX | 1, false => Some RCX | 2, false => Some RDX | 3, false => Some RBX
  | 4, false => Some RSP | 5, false => Some RBP | 6, false => Some RSI | 7, false => Some RDI
  | 0, true => Some R8 | 1, true => Some R9 | 2, true => Some R10 | 3, true => Some R11
  | 4, true => Some R12 | 5, true => Some R13 | 6, true => Some R14 | 7, true => Some R15
  | _, _ => None
  end.

Record ModRm : Type := mkModRm { md : Z; reg : Z; rm : Z }.

Definition ModRm_new (byte : Z) : ModRm :=
  mkModRm (Z.land (Z.shiftr byte 6) 3) (Z.land (Z.shiftr byte 3) 7) (Z.land byte 7).

Definition is_memory (m : ModRm) : bool := negb (md m =? 3).
Definition has_sib (m : ModRm) : bool := is_memory m && (rm m =? 4).
Definition is_rip_relative (m : ModRm) : bool := (md m =? 0) && (rm m =? 5).
Definition ModRm_disp_size (m : ModRm) : Z :=
  if (md m =? 0) && (rm m =? 5) then 4 else if md m =? 1 then 1 else if md m =? 2 then 4 else 0.
Definition rm_register (m : ModRm) (rex : bool) : exec Register := unwrap (parse_register (rm m) rex).

(** The [match rex] of [r64_reg_operand] and [parse_rm64_operand]. *)
Definition rex_bit (rex : option Z) (use_rex_r : bool) : bool := is_some_and rex (if use_rex_r then rex_r else rex_b).

Definition r64_reg_operand (m : ModRm) (rex : option Z) (use_rex_r : bool) : exec Operand :=
  r ← unwrap (parse_register (reg m) (rex_bit rex use_rex_r));
  Done (OperandRegister r).

Record Sib : Type := mkSib { sib_scale : Z; sib_index : Z; sib_base : Z }.

Definition Sib_new (byte : Z) : Sib :=
  mkSib (Z.land (Z.shiftr byte 6) 3) (Z.land (Z.shiftr byte 3) 7) (Z.land byte 7).

Definition scale_factor (s : Sib) : Z :=
  if sib_scale s =? 1 then 2 else if sib_scale s =? 2 then 4 else if sib_scale s =? 3 then 8 else 1.
Definition Sib_disp_size (s : Sib) (m : ModRm) : Z :=
  if (md m =? 0) && (sib_base s =? 5) then 4 else if md m =? 1 then 1 else if md m =? 2 then 4 else 0.
Definition index_register (s : Sib) (rex_x : bool) : option Register :=
  if sib_index s =? 4 then None else parse_register (sib_index s) rex_x.
Definition base_register (s : Sib) (md : Z) (rex_b : bool) : option Register :=
  if (sib_base s =? 5) && (md =? 0) then None else parse_register (sib_base s) rex_b.

Definition ConditionCode_new (byte : Z) : option ConditionCode :=
  match byte with
  | 0x0 => Some CC_O | 0x1 => Some CC_NO | 0x2 => Some CC_B | 0x3 => Some CC_NB
  | 0x4 => Some CC_Z | 0x5 => Some CC_NZ | 0x6 => Some CC_BE | 0x7 => Some CC_A
  | 0x8 => Some CC_S | 0x9 => Some CC_NS | 0xA => Some CC_P | 0xB => Some CC_NP
  | 0xC => Some CC_L | 0xD => Some CC_GE | 0xE => Some CC_LE | 0xF => Some CC_G
  | _ => None
  end.

(** ** Decoding functions *)

Definition D (A : Type) : Type := Disassembler -> exec (Disassembler * result A DisassemblyError).

#[export] Instance D_ret : MRet D := fun A a d => Done (d, Ok a).
#[export] Instance D_bind : MBind D := fun A B f m d =>
  match m d with
  | Done (d, Ok a) => f a d
  | Done (d, Err e) => Done (d, Err e)
  | Panic => Panic
  end.

Definition d_fail {A} (e : DisassemblyError) : D A := fun d => Done (d, Err e).

(** A computation that may panic but does not touch the disassembler. *)
Definition d_exec {A} (m : exec A) : D A := fun d => a ← m; Done (d, Ok a).

Definition advance : D Z := fun d =>
  match input d !! Z.to_nat (offset d) with
  | Some byte => Done (mkDisassembler (input d) (offset d + 1), Ok byte)
  | None => Done (d, Err PartialInstruction)
  end.

Definition skip (n : Z) : D unit := fun d => Done (mkDisassembler (input d) (offset d + n), Ok tt).

(** The bytes of an integer. *)
Fixpoint advance_bytes (n : nat) : D (list Z) :=
  match n with
  | O => mret []
  | S n => byte ← advance; bytes ← advance_bytes n; mret (byte :: bytes)
  end.

Definition advance_int (n : nat) : D Z := bytes ← advance_bytes n; mret (as_signed (8 * Z.of_nat n) (le_combine bytes)).

Definition advance_i8 : D Z := advance_int 1.
Definition advance_i16 : D Z := advance_int 2.
Definition advance_i32 : D Z := advance_int 4.
Definition advance_i64 : D Z := advance_int 8.

Definition imm8 : D ImmediateValue := v ← advance_i8; mret (I8 v).
Definition imm32 : D ImmediateValue := v ← advance_i32; mret (I32 v).

(** [match disp_size { 1 => .., 4 => .., _ => 0 }]. *)
Definition displacement (size : Z) : D Z :=
  if size =? 1 then advance_i8 else if size =? 4 then advance_i32 else mret 0.

Definition parse_rm64_operand (modrm : ModRm) (rex : option Z) (use_rex_r : bool) : D Operand :=
  let b := is_some_and rex rex_b in
  let x := is_some_and rex rex_x in
  let rex := rex_bit rex use_rex_r in
  if is_memory modrm then
    if has_sib modrm then
      byte ← advance;
      let sib := Sib_new byte in
      disp ← displacement (Sib_disp_size sib modrm);
      mret (OperandMemory (base_register sib (md modrm) b) (index_register sib x) (scale_factor sib) disp)
    else
      disp ← displacement (ModRm_disp_size modrm);
      mret (OperandMemory (if is_rip_relative modrm then Some RIP else parse_register (rm modrm) rex) None 1 disp)
  else
    r ← d_exec (rm_register modrm rex);
    mret (OperandRegister r).

(** The two forms with a ModR/M byte: [op r/m64, r64] and [op r64, r/m64]. *)
Definition rm_reg (op : Operand -> Operand -> Instruction) (rex : option Z) : D Instruction :=
  byte ← advance;
  let modrm := ModRm_new byte in
  dst ← parse_rm64_operand modrm rex true;
  src ← d_exec (r64_reg_operand modrm rex true);
  mret (op dst src).

Definition reg_rm (op : Operand -> Operand -> Instruction) (rex : option Z) (reg_uses_r rm_uses_r : bool) : D Instruction :=
  byte ← advance;
  let modrm := ModRm_new byte in
  dst ← d_exec (r64_reg_operand modrm rex reg_uses_r);
  src ← parse_rm64_operand modrm rex rm_uses_r;
  mret (op dst src).

(** The register in the low bits of the opcode. *)
Definition opcode_register (opcode : Z) (rex : bool) : D Operand :=
  r ← d_exec (unwrap (parse_register (Z.land opcode 7) rex));
  mret (OperandRegister r).

(** [ConditionCode::new(opcode & 0x0F).ok_or(InvalidByte)?]. *)
Definition condition (opcode : Z) : D ConditionCode :=
  match ConditionCode_new (Z.land opcode 0x0F) with
  | Some cc => mret cc
  | None => d_fail InvalidByte
  end.

(** 0x0F followed by another opcode byte. *)
Definition parse_0f_01 (f2_prefix : bool) : D Instruction :=
  next_byte ← advance;
  if (next_byte =? 0xC6) && f2_prefix then mret RDMSRLIST
  else if next_byte =? 0xC8 then mret MONITOR
  else if next_byte =? 0xC9 then mret MWAIT
  else if next_byte =? 0xEE then mret RDPKRU
  else if next_byte =? 0xF8 then mret SWAPGS
  else if next_byte =? 0xF9 then mret RDTSCP
  else if is_memory (ModRm_new next_byte) then d_fail (UnsupportedOpcode next_byte)
  else d_fail InvalidByte.

Definition parse_0f_c7 (rex : option Z) (f3_prefix : bool) : D Instruction :=
  byte ← advance;
  let modrm := ModRm_new byte in
  if reg modrm =? 0x6 then r ← d_exec (rm_register modrm (is_some_and rex rex_b)); mret (RDRAND r)
  else if (reg modrm =? 0x7) && f3_prefix then r ← d_exec (rm_register modrm false); mret (RDPID r)
  else if reg modrm =? 0x7 then r ← d_exec (rm_register modrm (is_some_and rex rex_b)); mret (RDSEED r)
  else d_fail InvalidByte.

Definition parse_0f_instruction (rex : option Z) (f2_prefix f3_prefix : bool) : D Instruction :=
  opcode ← advance;
  if opcode =? 0x00 then d_fail (UnsupportedOpcode opcode)
  else if opcode =? 0x01 then parse_0f_01 f2_prefix
  else if opcode =? 0x05 then mret SYSCALL
  else if opcode =? 0x07 then mret SYSRET
  else if opcode =? 0x31 then mret RDTSC
  else if opcode =? 0x32 then mret RDMSR
  else if opcode =? 0x33 then mret RDPMC
  else if opcode =? 0x34 then mret SYSENTER
  else if opcode =? 0x35 then mret SYSEXIT
  else if (0x40 <=? opcode) && (opcode <=? 0x4F) then
    cc ← condition opcode;
    reg_rm (CMOVCC cc) rex false false
  else if (0x90 <=? opcode) && (opcode <=? 0x9F) then
    cc ← condition opcode;
    byte ← advance;
    operand ← parse_rm64_operand (ModRm_new byte) rex false;
    mret (SETCC cc operand)
  else if opcode =? 0xA2 then mret CPUID
  else if (opcode =? 0xBC) && f3_prefix then reg_rm TZCNT rex false false
  else if opcode =? 0xBC then reg_rm BSF rex false false
  else if (opcode =? 0xBD) && f3_prefix then reg_rm LZCNT rex false false
  else if opcode =? 0xBD then reg_rm BSR rex false false
  else if opcode =? 0xC7 then parse_0f_c7 rex f3_prefix
  else d_fail (UnsupportedOpcode opcode).

(** Opcodes below 0x40. *)
Definition next_00_3f (opcode : Z) (rex : option Z) (f2_prefix f3_prefix : bool) : D Instruction :=
  if opcode =? 0x01 then rm_reg ADD rex
  else if opcode =? 0x09 then rm_reg OR rex
  else if opcode =? 0x0B then reg_rm OR rex true true
  else if opcode =? 0x0F then parse_0f_instruction rex f2_prefix f3_prefix
  else if opcode =? 0x1C then imm ← imm8; mret (SBB (OperandRegister RAX) (OperandImmediateValue imm))
  else if opcode =? 0x21 then rm_reg AND rex
  else if opcode =? 0x23 then reg_rm AND rex true true
  else if opcode =? 0x29 then rm_reg SUB rex
  else if opcode =? 0x31 then rm_reg XOR rex
  else if opcode =? 0x39 then rm_reg CMP rex
  else d_fail (UnsupportedOpcode opcode).

(** Opcodes 0x40 to 0x7F. *)
Definition next_40_7f (opcode : Z) (rex : option Z) : D Instruction :=
  if opcode <=? 0x4F then d_fail InvalidByte
  else if opcode <=? 0x57 then operand ← opcode_register opcode (is_some_and rex rex_r); mret (PUSH operand)
  else if opcode <=? 0x5F then operand ← opcode_register opcode (is_some_and rex rex_r); mret (POP operand)
  else if opcode <=? 0x61 then d_fail InvalidByte
  else if opcode =? 0x68 then imm ← imm32; mret (PUSH (OperandImmediateValue imm))
  else if opcode =? 0x6A then imm ← imm8; mret (PUSH (OperandImmediateValue imm))
  else if 0x70 <=? opcode then
    cc ← condition opcode;
    offset ← imm8;
    mret (JCC cc offset)
  else d_fail (UnsupportedOpcode opcode).

(** Immediate group 1. *)
Definition next_group_1 (opcode : Z) (rex : option Z) : D Instruction :=
  if opcode =? 0x82 then d_fail InvalidByte
  else
    byte ← advance;
    let modrm := ModRm_new byte in
    dst ← parse_rm64_operand modrm rex true;
    imm ← (if (opcode =? 0x80) || (opcode =? 0x83) then imm8 else imm32);
    let src := OperandImmediateValue imm in
    if reg modrm =? 0 then mret (ADD dst src)
    else if reg modrm =? 1 then mret (OR dst src)
    else if reg modrm =? 2 then mret (ADC dst src)
    else if reg modrm =? 3 then mret (SBB dst src)
    else if reg modrm =? 4 then mret (AND dst src)
    else if reg modrm =? 5 then mret (SUB dst src)
    else if reg modrm =? 6 then mret (XOR dst src)
    else if reg modrm =? 7 then mret (CMP dst src)
    else d_fail InvalidByte.

(** Opcodes 0x80 to 0x9F. *)
Definition next_80_9f (opcode : Z) (rex : option Z) (f3_prefix : bool) : D Instruction :=
  if opcode <=? 0x83 then next_group_1 opcode rex
  else if opcode =? 0x84 then rm_reg TEST rex
  else if opcode =? 0x85 then rm_reg TEST rex
  else if opcode =? 0x86 then rm_reg XCHG rex
  else if opcode =? 0x87 then rm_reg XCHG rex
  else if opcode =? 0x88 then rm_reg MOV rex
  else if opcode =? 0x89 then rm_reg MOV rex
  else if opcode =? 0x8A then reg_rm MOV rex true true
  else if opcode =? 0x8B then reg_rm MOV rex true true
  else if opcode =? 0x8D then reg_rm LEA rex true false
  else if (opcode =? 0x90) && f3_prefix then mret PAUSE
  else if opcode =? 0x90 then mret NOP
  else if (0x91 <=? opcode) && (opcode <=? 0x97) then
    operand ← opcode_register opcode (is_some_and rex rex_r);
    mret (XCHG (OperandRegister RAX) operand)
  else d_fail (UnsupportedOpcode opcode).

(** [MOV r64, imm]. *)
Definition next_mov_imm (opcode : Z) (rex : option Z) : D Instruction :=
  dst ← opcode_register opcode (is_some_and rex rex_b);
  src ← (match rex with Some _ => v ← advance_i64; mret (I64 v) | None => imm32 end);
  mret (MOV dst (OperandImmediateValue src)).

(** Group 2. *)
Definition next_group_2 (rex : option Z) : D Instruction :=
  byte ← advance;
  let modrm := ModRm_new byte in
  dst ← parse_rm64_operand modrm rex true;
  imm ← imm8;
  let src := OperandImmediateValue imm in
  if reg modrm =? 4 then mret (SHL dst src)
  else if reg modrm =? 5 then mret (SHR dst src)
  else if reg modrm =? 7 then mret (SAR dst src)
  else d_fail InvalidByte.

(** Opcodes 0xA0 to 0xDF. *)
Definition next_a0_df (opcode : Z) (rex : option Z) : D Instruction :=
  if (0xB8 <=? opcode) && (opcode <=? 0xBF) then next_mov_imm opcode rex
  else if (opcode =? 0xC0) || (opcode =? 0xC1) then next_group_2 rex
  else if (opcode =? 0xC2) || (opcode =? 0xCA) then _ ← skip 2; mret RET
  else if (opcode =? 0xC3) || (opcode =? 0xCB) then mret RET
  else if opcode =? 0xCC then mret INT3
  else if opcode =? 0xCD then vector ← imm8; mret (INT vector)
  else if opcode =? 0xCE then d_fail InvalidByte
  else d_fail (UnsupportedOpcode opcode).

(** The immediate of a TEST of group 3. *)
Definition test_immediate (opcode : Z) (rex : option Z) (size_prefix : bool) : D ImmediateValue :=
  if opcode =? 0xF6 then imm8
  else if is_some_and rex rex_w then v ← advance_i64; mret (I64 v)
  else if size_prefix then v ← advance_i16; mret (I16 v)
  else imm32.

(** Groups 3, 4 and 5. *)
Definition next_group_3 (opcode : Z) (rex : option Z) (size_prefix : bool) : D Instruction :=
  byte ← advance;
  let modrm := ModRm_new byte in
  operand ← parse_rm64_operand modrm rex true;
  if reg modrm =? 0 then imm ← test_immediate opcode rex size_prefix; mret (TEST operand (OperandImmediateValue imm))
  else if reg modrm =? 2 then mret (NOT operand)
  else if reg modrm =? 3 then mret (NEG operand)
  else if reg modrm =? 4 then mret (MUL operand)
  else if reg modrm =? 5 then mret (IMUL operand)
  else if reg modrm =? 7 then mret (IDIV operand)
  else d_fail InvalidByte.

Definition next_group_4 (rex : option Z) : D Instruction :=
  byte ← advance;
  let modrm := ModRm_new byte in
  operand ← parse_rm64_operand modrm rex true;
  if reg modrm =? 0 then mret (INC operand)
  else if reg modrm =? 1 then mret (DEC operand)
  else d_fail InvalidByte.

Definition next_group_5 (rex : option Z) : D Instruction :=
  byte ← advance;
  let modrm := ModRm_new byte in
  operand ← parse_rm64_operand modrm rex true;
  if reg modrm =? 0 then mret (INC operand)
  else if reg modrm =? 1 then mret (DEC operand)
  else if reg modrm =? 2 then mret (CALL operand)
  else if reg modrm =? 3 then mret (CALL operand)
  else if reg modrm =? 4 then mret (JMP operand)
  else if reg modrm =? 5 then mret (JMP operand)
  else if reg modrm =? 6 then mret (PUSH operand)
  else d_fail InvalidByte.

(** Opcodes from 0xE0 on. *)
Definition next_e0_ff (opcode : Z) (rex : option Z) (size_prefix : bool) : D Instruction :=
  if (opcode =? 0xE4) || (opcode =? 0xE5) then imm ← imm8; mret (IN RAX (OperandImmediateValue imm))
  else if (opcode =? 0xE6) || (opcode =? 0xE7) then imm ← imm8; mret (IN RAX (OperandImmediateValue imm))
  else if opcode =? 0xE9 then imm ← imm32; mret (JMP (OperandImmediateValue imm))
  else if opcode =? 0xEA then d_fail InvalidByte
  else if opcode =? 0xEB then imm ← imm8; mret (JMP (OperandImmediateValue imm))
  else if (opcode =? 0xEC) || (opcode =? 0xED) then mret (IN RAX (OperandRegister RDX))
  else if (opcode =? 0xEE) || (opcode =? 0xEF) then mret (OUT RAX (OperandRegister RDX))
  else if opcode =? 0xF1 then mret INT1
  else if opcode =? 0xF4 then mret HLT
  else if opcode =? 0xF5 then mret CMC
  else if (opcode =? 0xF6) || (opcode =? 0xF7) then next_group_3 opcode rex size_prefix
  else if opcode =? 0xF8 then mret CLC
  else if opcode =? 0xF9 then mret STC
  else if opcode =? 0xFA then mret CLI
  else if opcode =? 0xFB then mret STI
  else if opcode =? 0xFC then mret CLD
  else if opcode =? 0xFD then mret STD
  else if opcode =? 0xFE then next_group_4 rex
  else if opcode =? 0xFF then next_group_5 rex
  else d_fail (UnsupportedOpcode opcode).

(** ** One instruction *)

Record Prefixes : Type := mkPrefixes { size_prefix : bool; f2_prefix : bool; f3_prefix : bool }.

(** The loop over the prefixes, up to the opcode; each round consumes a
    byte, so that [S (length input)] rounds are enough. *)
Fixpoint read_prefixes (fuel : nat) (p : Prefixes) : D (Prefixes * option Z * Z) :=
  match fuel with
  | O => d_exec Panic
  | S fuel =>
      byte ← advance;
      if (byte =? 0xC4) || (byte =? 0xC5) then d_fail (UnsupportedOpcode byte)
      else if byte =? 0x66 then read_prefixes fuel (mkPrefixes true (f2_prefix p) (f3_prefix p))
      else if byte =? 0xF0 then d_fail (UnsupportedOpcode byte)
      else if byte =? 0xF2 then read_prefixes fuel (mkPrefixes (size_prefix p) true (f3_prefix p))
      else if byte =? 0xF3 then read_prefixes fuel (mkPrefixes (size_prefix p) (f2_prefix p) true)
      else if is_rex_prefix byte then opcode ← advance; mret (p, Some byte, opcode)
      else mret (p, None, byte)
  end.

(** The match on the opcode. *)
Definition next_opcode (opcode : Z) (rex : option Z) (p : Prefixes) : D Instruction :=
  if opcode <=? 0x3F then next_00_3f opcode rex (f2_prefix p) (f3_prefix p)
  else if opcode <=? 0x7F then next_40_7f opcode rex
  else if opcode <=? 0x9F then next_80_9f opcode rex (f3_prefix p)
  else if opcode <=? 0xDF then next_a0_df opcode rex
  else next_e0_ff opcode rex (size_prefix p).

Definition next : D Instruction := fun d =>
  if offset d =? Z.of_nat (length (input d)) then Done (d, Err PartialInstruction)
  else
    ('(p, rex, opcode) ← read_prefixes (S (length (input d))) (mkPrefixes false false false);
     next_opcode opcode rex p) d.

(** [while let Ok(instruction) = disassembler.next()], as in the tests: the
    instructions and the error that ends the loop; [None] when the fuel runs
    out. *)
Fixpoint disassemble (fuel : nat) (d : Disassembler) : exec (option (list Instruction * DisassemblyError)) :=
  match fuel with
  | O => Done None
  | S fuel =>
      '(d, r) ← next d;
      match r with
      | Err e => Done (Some ([], e))
      | Ok i =>
          rest ← disassemble fuel d;
          Done (match rest with Some (l, e) => Some (i :: l, e) | None => None end)
      end
  end.

(** ** Rules for decoding functions *)

Definition len (d : Disassembler) : Z := Z.of_nat (length (input d)).
Definition in_input (d : Disassembler) : Prop := 0 <= offset d <= len d.

(** From an offset in the input, [m] does not panic, leaves the input alone
    and moves the offset forward, at most [slack] bytes past its end. *)
Definition moves {A} (slack : Z) (m : D A) : Prop := forall d, in_input d ->
  exists d' r, m d = Done (d', r) /\ input d' = input d /\ offset d <= offset d' <= len d + slack.

(** A value does not depend on what follows the bytes that were read. *)
Definition extend (d : Disassembler) (rest : list Z) : Disassembler := mkDisassembler (input d ++ rest) (offset d).
Definition stable {A} (m : D A) : Prop := forall d d' a rest,
  m d = Done (d', Ok a) -> m (extend d rest) = Done (extend d' rest, Ok a).

Lemma moves_ret {A} (a : A) k : 0 <= k -> moves k (mret a).
Proof. intros Hk d Hd. unfold in_input in Hd. exists d, (Ok a). split_and!; [done|done|lia|lia]. Qed.

Lemma moves_fail {A} e k : 0 <= k -> moves k (d_fail (A := A) e).
Proof. intros Hk d Hd. unfold in_input in Hd. exists d, (Err e). split_and!; [done|done|lia|lia]. Qed.

Lemma moves_exec {A} (m : exec A) a k : 0 <= k -> m = Done a -> moves k (d_exec m).
Proof. intros Hk -> d Hd. unfold in_input in Hd. exists d, (Ok a). split_and!; [done|done|lia|lia]. Qed.

Lemma moves_bind {A B} (m : D A) (f : A -> D B) k : 0 <= k -> moves 0 m -> (forall a, moves k (f a)) -> moves k (m ≫= f).
Proof.
  intros Hk Hm Hf d Hd. destruct (Hm d Hd) as (d1 & r & E & Hi & Ho). unfold mbind, D_bind. rewrite E.
  unfold in_input, len in *. destruct r as [a|e]; [|exists d1, (Err e); split_and!; [done|done|lia|lia]].
  destruct (Hf a d1) as (d2 & r2 & E2 & Hi2 & Ho2); [unfold in_input, len; rewrite Hi; lia|]. unfold len in Ho2. rewrite Hi in Ho2.
  exists d2, r2. split_and!; [done|congruence|lia|lia].
Qed.

Lemma moves_advance : moves 0 advance.
Proof.
  intros d [H0 H1]. unfold advance, len in *. destruct (input d !! Z.to_nat (offset d)) as [b|] eqn:E.
  - eexists _, _. split_and!; [done|done|cbn; lia|]. apply lookup_lt_Some in E. cbn. lia.
  - eexists d, _. split_and!; [done|done|lia|lia].
Qed.

Lemma moves_weaken {A} (m : D A) k : 0 <= k -> moves 0 m -> moves k m.
Proof. intros Hk Hm d Hd. destruct (Hm d Hd) as (d' & r & E & Hi & Ho). exists d', r. split_and!; [done|done|lia|lia]. Qed.

Lemma stable_ret {A} (a : A) : stable (mret a).
Proof. by intros d d' b rest [= <- <-]. Qed.

Lemma stable_fail {A} e : stable (d_fail (A := A) e).
Proof. by intros d d' b rest [=]. Qed.

Lemma stable_exec {A} (m : exec A) : stable (d_exec m).
Proof. intros d d' a rest E. unfold d_exec in *. destruct m; [|done]. by injection E as <- <-. Qed.

Lemma stable_bind {A B} (m : D A) (f : A -> D B) : stable m -> (forall a, stable (f a)) -> stable (m ≫= f).
Proof.
  intros Hm Hf d d' b rest E. unfold mbind, D_bind in *. destruct (m d) as [[d1 [a|e]]|] eqn:Em; [|done|done].
  rewrite (Hm _ _ _ rest Em). by apply Hf.
Qed.

Lemma stable_advance : stable advance.
Proof.
  intros d d' a rest E. unfold advance in *. destruct (input d !! Z.to_nat (offset d)) as [b|] eqn:Eb; [|done].
  injection E as <- <-. cbn [input offset extend]. by rewrite (lookup_app_l_Some _ _ _ _ Eb).
Qed.

Lemma parse_register_some i rex : 0 <= i < 8 -> exists r, parse_register i rex = Some r.
Proof.
  intros Hi. assert (i = 0 \/ i = 1 \/ i = 2 \/ i = 3 \/ i = 4 \/ i = 5 \/ i = 6 \/ i = 7) as Hc by lia.
  by repeat destruct Hc as [->|Hc]; subst; destruct rex; eexists.
Qed.

Lemma land_7_range x : 0 <= Z.land x 7 < 8.
Proof. change 7 with (2 ^ 3 - 1). rewrite land_ones_mod by lia. apply Z.mod_pos_bound. lia. Qed.

Lemma moves_opcode_register opcode rex k : 0 <= k -> moves k (opcode_register opcode rex).
Proof.
  intros Hk. destruct (parse_register_some (Z.land opcode 7) rex (land_7_range opcode)) as [r Er].
  apply moves_weaken; [done|]. apply moves_bind; [lia| |intros a; by apply moves_ret]. apply moves_exec with r; [lia|by rewrite Er].
Qed.

Lemma moves_rm_register byte rex : moves 0 (d_exec (rm_register (ModRm_new byte) rex)).
Proof.
  destruct (parse_register_some (rm (ModRm_new byte)) rex (land_7_range byte)) as [r Er].
  apply moves_exec with r; [lia|]. unfold rm_register. by rewrite Er.
Qed.

Lemma moves_r64_reg byte rex use : moves 0 (d_exec (r64_reg_operand (ModRm_new byte) rex use)).
Proof.
  destruct (parse_register_some (reg (ModRm_new byte)) (rex_bit rex use) (land_7_range _)) as [r Er].
  apply moves_exec with (OperandRegister r); [lia|]. unfold r64_reg_operand. by rewrite Er.
Qed.

Lemma moves_advance_int n : moves 0 (advance_int n).
Proof.
  assert (moves 0 (advance_bytes n)) as Hb.
  { induction n as [|n IH]; cbn [advance_bytes]; [by apply moves_ret|].
    apply moves_bind; [lia|apply moves_advance|intros b]. apply moves_bind; [lia|done|intros bs; by apply moves_ret]. }
  apply moves_bind; [lia|done|intros bs; by apply moves_ret].
Qed.

Lemma stable_advance_int n : stable (advance_int n).
Proof.
  assert (stable (advance_bytes n)) as Hb.
  { induction n as [|n IH]; cbn [advance_bytes]; [apply stable_ret|].
    apply stable_bind; [apply stable_advance|intros b]. apply stable_bind; [done|intros bs; apply stable_ret]. }
  apply stable_bind; [done|intros bs; apply stable_ret].
Qed.

Create HintDb decode.
#[local] Hint Resolve moves_ret moves_fail moves_advance moves_opcode_register moves_rm_register moves_r64_reg moves_advance_int
  stable_ret stable_fail stable_exec stable_advance stable_advance_int : decode.
#[local] Hint Extern 1 (0 <= _) => lia : decode.

(** Decides a rule for a decoding function along its binds and branches. *)
Ltac decode_rule :=
  repeat first
    [ solve [eauto 3 with decode]
    | progress cbv zeta
    | match goal with
      | |- context [if ?b then _ else _] => destruct b
      | |- moves _ (_ ≫= _) => apply moves_bind; [lia| |intros]
      | |- stable (_ ≫= _) => apply stable_bind; [|intros]
      | |- context [match ?x with _ => _ end] => destruct x
      end ].

Lemma moves_rm64 byte rex use : moves 0 (parse_rm64_operand (ModRm_new byte) rex use).
Proof. unfold parse_rm64_operand, displacement, advance_i8, advance_i32. decode_rule. Qed.

Lemma stable_rm64 modrm rex use : stable (parse_rm64_operand modrm rex use).
Proof. unfold parse_rm64_operand, displacement, advance_i8, advance_i32. decode_rule. Qed.

Lemma moves_imm k : 0 <= k -> moves k imm8 /\ moves k imm32.
Proof. intros Hk. split; apply moves_weaken; try done; unfold imm8, imm32, advance_i8, advance_i32; decode_rule. Qed.

Lemma moves_imm8 : moves 0 imm8.
Proof. by apply moves_imm. Qed.
Lemma moves_imm32 : moves 0 imm32.
Proof. by apply moves_imm. Qed.
Lemma stable_imm8 : stable imm8.
Proof. unfold imm8, advance_i8. decode_rule. Qed.
Lemma stable_imm32 : stable imm32.
Proof. unfold imm32, advance_i32. decode_rule. Qed.

#[local] Hint Resolve moves_rm64 stable_rm64 moves_imm8 moves_imm32 stable_imm8 stable_imm32 : decode.

Lemma moves_forms op rex a b : moves 0 (rm_reg op rex) /\ moves 0 (reg_rm op rex a b).
Proof. split; [unfold rm_reg|unfold reg_rm]; decode_rule. Qed.
Lemma moves_rm_reg op rex : moves 0 (rm_reg op rex).
Proof. apply (moves_forms op rex true true). Qed.
Lemma moves_reg_rm op rex a b : moves 0 (reg_rm op rex a b).
Proof. apply moves_forms. Qed.
Lemma stable_rm_reg op rex : stable (rm_reg op rex).
Proof. unfold rm_reg. decode_rule. Qed.
Lemma stable_reg_rm op rex a b : stable (reg_rm op rex a b).
Proof. unfold reg_rm. decode_rule. Qed.
Lemma stable_opcode_register opcode rex : stable (opcode_register opcode rex).
Proof. unfold opcode_register. decode_rule. Qed.
Lemma moves_condition opcode : moves 0 (condition opcode).
Proof. unfold condition. decode_rule. Qed.
Lemma stable_condition opcode : stable (condition opcode).
Proof. unfold condition. decode_rule. Qed.

#[local] Hint Resolve moves_rm_reg moves_reg_rm stable_rm_reg stable_reg_rm stable_opcode_register moves_condition stable_condition : decode.

Lemma moves_0f rex f2 f3 : moves 0 (parse_0f_instruction rex f2 f3).
Proof. unfold parse_0f_instruction, parse_0f_01, parse_0f_c7. decode_rule. Qed.
Lemma stable_0f rex f2 f3 : stable (parse_0f_instruction rex f2 f3).
Proof. unfold parse_0f_instruction, parse_0f_01, parse_0f_c7. decode_rule. Qed.

#[local] Hint Resolve moves_0f stable_0f : decode.

Lemma moves_skip n : 0 <= n -> moves n (skip n).
Proof. intros Hn d Hd. unfold in_input, len in *. eexists _, (Ok tt). split_and!; [done|done|cbn; lia|cbn; lia]. Qed.

Lemma moves_ret_imm16 : moves 2 (_ ← skip 2; mret RET : D Instruction).
Proof.
  intros d Hd. destruct (moves_skip 2 ltac:(lia) d Hd) as (d' & r & E & Hi & Ho). unfold mbind, D_bind. rewrite E.
  destruct r as [[]|e]; eexists d', _; split_and!; try done; lia.
Qed.

Lemma stable_skip n : stable (skip n).
Proof. by intros d d' a rest [= <- <-]. Qed.

#[local] Hint Resolve moves_ret_imm16 stable_skip : decode.

Lemma moves_next_opcode opcode rex p : moves 2 (next_opcode opcode rex p).
Proof.
  unfold next_opcode. repeat case_if.
  - apply moves_weaken; [lia|]. unfold next_00_3f. decode_rule.
  - apply moves_weaken; [lia|]. unfold next_40_7f. decode_rule.
  - apply moves_weaken; [lia|]. unfold next_80_9f, next_group_1. decode_rule.
  - unfold next_a0_df, next_mov_imm, next_group_2. repeat case_if; try (by auto with decode); apply moves_weaken; try lia; unfold advance_i64; decode_rule.
  - apply moves_weaken; [lia|]. unfold next_e0_ff, next_group_3, test_immediate, next_group_4, next_group_5, advance_i16, advance_i64. decode_rule.
Qed.

Lemma stable_next_opcode opcode rex p : stable (next_opcode opcode rex p).
Proof.
  unfold next_opcode. repeat case_if.
  - unfold next_00_3f. decode_rule.
  - unfold next_40_7f. decode_rule.
  - unfold next_80_9f, next_group_1. decode_rule.
  - unfold next_a0_df, next_mov_imm, next_group_2, advance_i64. decode_rule.
  - unfold next_e0_ff, next_group_3, test_immediate, next_group_4, next_group_5, advance_i16, advance_i64. decode_rule.
Qed.

(** Every round of the prefix loop consumes a byte. *)
Lemma read_prefixes_moves fuel : forall p d, in_input d -> len d - offset d < Z.of_nat fuel ->
  exists d' r, read_prefixes fuel p d = Done (d', r) /\ input d' = input d /\ offset d <= offset d' <= len d /\
    ((exists x, r = Ok x) -> offset d < offset d').
Proof.
  induction fuel as [|fuel IH]; intros p d Hd Hf; [unfold in_input in Hd; lia|]. cbn [read_prefixes]. unfold mbind, D_bind.
  destruct (moves_advance d Hd) as (d1 & r1 & E1 & Hi1 & Ho1). rewrite E1. unfold in_input, len in *.
  destruct r1 as [byte|e]; [|exists d1, (Err e); split_and!; [done|done|lia|lia|by intros [? [=]]]].
  assert (offset d < offset d1) as Hlt.
  { unfold advance in E1. destruct (input d !! _); [|done]. injection E1 as <- _. cbn. lia. }
  assert (forall p, exists d' r, read_prefixes fuel p d1 = Done (d', r) /\ input d' = input d /\
    offset d <= offset d' <= Z.of_nat (length (input d)) /\ ((exists x, r = Ok x) -> offset d < offset d')) as Hrec.
  { intros p'. destruct (IH p' d1) as (d' & r & E & Hi & Ho & Hp); [rewrite Hi1; lia|rewrite Hi1; lia|]. rewrite Hi1 in Hi, Ho.
    exists d', r. split_and!; [done|done|lia|lia|intros Hx; specialize (Hp Hx); lia]. }
  assert (forall e, exists d' r, d_fail (A := Prefixes * option Z * Z) e d1 = Done (d', r) /\ input d' = input d /\
    offset d <= offset d' <= Z.of_nat (length (input d)) /\ ((exists x, r = Ok x) -> offset d < offset d')) as Hfail.
  { intros e. exists d1, (Err e). split_and!; [done|done|lia|lia|by intros [? [=]]]. }
  repeat (case_if; [first [apply Hrec | apply Hfail | idtac]|]).
  - destruct (moves_advance d1) as (d2 & r2 & E2 & Hi2 & Ho2); [unfold in_input, len; rewrite Hi1; lia|]. unfold len in Ho2. rewrite E2.
    rewrite Hi1 in Hi2, Ho2. destruct r2 as [opcode|e]; eexists d2, _; split_and!; try done; try lia.
  - eexists d1, _. split_and!; [reflexivity|done|lia|lia|lia].
Qed.

Lemma read_prefixes_fuel fuel : forall k p d r, read_prefixes fuel p d = Done r -> read_prefixes (fuel + k) p d = Done r.
Proof.
  induction fuel as [|fuel IH]; intros k p d r E; [done|]. cbn [read_prefixes Nat.add] in *. unfold mbind, D_bind in *.
  destruct (advance d) as [[d1 [byte|e]]|]; [|done|done]. revert E. repeat case_if; try done; apply IH.
Qed.

Lemma stable_read_prefixes fuel p : stable (read_prefixes fuel p).
Proof.
  revert p. induction fuel as [|fuel IH]; intros p; cbn [read_prefixes]; [apply stable_exec|].
  apply stable_bind; [apply stable_advance|]. intros byte. repeat case_if; try apply IH; decode_rule.
Qed.

Lemma next_moves d : in_input d ->
  exists d' r, next d = Done (d', r) /\ input d' = input d /\ offset d <= offset d' <= len d + 2 /\
    ((exists i, r = Ok i) -> offset d < offset d').
Proof.
  intros Hd. unfold next. case_if.
  { unfold in_input, len in *. exists d, (Err PartialInstruction). split_and!; [done|done|lia|lia|by intros [? [=]]]. }
  destruct (read_prefixes_moves (S (length (input d))) (mkPrefixes false false false) d Hd) as (d1 & r1 & E1 & Hi1 & Ho1 & Hp1).
  { unfold in_input, len in *. lia. }
  unfold mbind, D_bind. rewrite E1. destruct r1 as [[[p rex] opcode]|e].
  2:{ exists d1, (Err e). split_and!; [done|done|lia|lia|by intros [? [=]]]. }
  destruct (moves_next_opcode opcode rex p d1) as (d2 & r2 & E2 & Hi2 & Ho2).
  { unfold in_input, len in *. rewrite Hi1. lia. }
  unfold len in *. rewrite Hi1 in Hi2, Ho2. specialize (Hp1 ltac:(by eexists)).
  exists d2, r2. split_and!; [done|done|lia|lia|lia].
Qed.

(** ** An encoder for [op r/m64, r64] *)

(** The number of a register and whether it takes a REX bit. *)
Definition register_number (r : Register) : Z :=
  match r with
  | RAX | R8 => 0 | RCX | R9 => 1 | RDX | R10 => 2 | RBX | R11 => 3
  | RSP | R12 => 4 | RBP | R13 => 5 | RSI | R14 => 6 | RDI | R15 => 7 | RIP => 5
  end.
Definition extended (r : Register) : bool :=
  match r with R8 | R9 | R10 | R11 | R12 | R13 | R14 | R15 => true | _ => false end.

Definition modrm_byte (md reg rm : Z) : Z := 64 * md + 8 * reg + rm.
Definition rex_byte (r x b : bool) : Z := 0x48 + 4 * Z.b2z r + 2 * Z.b2z x + Z.b2z b.
Definition scale_log (scale : Z) : Z := if scale =? 2 then 1 else if scale =? 4 then 2 else if scale =? 8 then 3 else 0.

(** A signed integer of four bytes. *)
Definition disp_bytes (disp : Z) : list Z := le_split 4 (wrap 32 disp).

(** Registers and plain base registers of the ModR/M byte; every other
    memory operand has a SIB byte. *)
Definition plain_base (index : option Register) (b : Register) : bool :=
  bool_decide (index = None) && negb (extended b) && negb (bool_decide (b = RSP)).

(** The REX.X and REX.B bits, the ModR/M byte and the bytes behind it. *)
Definition encode_rm (reg : Z) (op : Operand) : bool * bool * list Z :=
  match op with
  | OperandRegister r => (false, false, [modrm_byte 3 reg (register_number r)])
  | OperandMemory (Some b) index scale disp =>
      if bool_decide (b = RIP) then (false, false, modrm_byte 0 reg 5 :: disp_bytes disp)
      else if plain_base index b then (false, false, modrm_byte 2 reg (register_number b) :: disp_bytes disp)
      else (from_option extended false index, extended b,
            modrm_byte 2 reg 4 :: modrm_byte (scale_log scale) (from_option register_number 4 index) (register_number b) :: disp_bytes disp)
  | OperandMemory None index scale disp =>
      (from_option extended false index, false,
       modrm_byte 0 reg 4 :: modrm_byte (scale_log scale) (from_option register_number 4 index) 5 :: disp_bytes disp)
  | OperandImmediateValue _ => (false, false, [])
  end.

Definition encode (opcode : Z) (dst : Operand) (src : Register) : list Z :=
  let '(x, b, bytes) := encode_rm (register_number src) dst in
  rex_byte (extended src) x b :: opcode :: bytes.

(** The operands that survive: no extended register in the ModR/M byte's
    [rm], nor in [reg] beside it, and neither RSP nor R12 as an index. *)
Definition valid_index (index : option Register) (scale : Z) : Prop :=
  match index with
  | None => scale = 1
  | Some i => i <> RSP /\ i <> R12 /\ i <> RIP /\ (scale = 1 \/ scale = 2 \/ scale = 4 \/ scale = 8)
  end.

Definition representable (dst : Operand) (src : Register) : Prop :=
  src <> RIP /\
  match dst with
  | OperandRegister r => extended r = false /\ r <> RIP /\ extended src = false
  | OperandMemory base index scale disp =>
      - 2 ^ 31 <= disp < 2 ^ 31 /\
      match base with
      | Some RIP => index = None /\ scale = 1
      | Some b => valid_index index scale /\ (plain_base index b = true -> extended src = false)
      | None => valid_index index scale
      end
  | OperandImmediateValue _ => False
  end.

(** The opcodes of the form [op r/m64, r64]. *)
Definition rm_reg_opcodes : list (Z * (Operand -> Operand -> Instruction)) :=
  [(0x01, ADD); (0x09, OR); (0x21, AND); (0x29, SUB); (0x31, XOR); (0x39, CMP); (0x84, TEST); (0x85, TEST);
   (0x86, XCHG); (0x87, XCHG); (0x88, MOV); (0x89, MOV)].

(** A disassembler behind the bytes [pre]. *)
Definition behind (pre bs : list Z) : Disassembler := mkDisassembler (pre ++ bs) (Z.of_nat (length pre)).

Lemma advance_behind pre b bs : advance (behind pre (b :: bs)) = Done (behind (pre ++ [b]) bs, Ok b).
Proof.
  unfold advance, behind. cbn [input offset]. rewrite Nat2Z.id, list_lookup_middle by done.
  rewrite <-app_assoc, length_app. cbn. do 3 f_equal. lia.
Qed.

Lemma advance_bytes_behind ds : forall pre bs, advance_bytes (length ds) (behind pre (ds ++ bs)) = Done (behind (pre ++ ds) bs, Ok ds).
Proof.
  induction ds as [|b ds IH]; intros pre bs; cbn [length advance_bytes app].
  - by rewrite app_nil_r.
  - unfold mbind, D_bind. rewrite advance_behind, IH, <-app_assoc. done.
Qed.

Lemma advance_i32_behind disp pre bs : - 2 ^ 31 <= disp < 2 ^ 31 ->
  advance_i32 (behind pre (disp_bytes disp ++ bs)) = Done (behind (pre ++ disp_bytes disp) bs, Ok disp).
Proof.
  intros Hd. unfold advance_i32, advance_int, mbind, D_bind. change 4%nat with (length (disp_bytes disp)) at 1.
  rewrite advance_bytes_behind. unfold disp_bytes. rewrite le_combine_split by (apply wrap_range; lia).
  unfold mret, D_ret, as_signed, wrap. cbn [length le_split]. do 2 f_equal.
  change (8 * Z.of_nat 4) with 32. pose proof (Z.mod_pos_bound disp (2 ^ 32)). pose proof (Z.div_mod disp (2 ^ 32)).
  change (2 ^ (32 - 1)) with (2 ^ 31). f_equal. case_if; nia.
Qed.

Lemma ModRm_new_byte m r x : 0 <= m < 4 -> 0 <= r < 8 -> 0 <= x < 8 -> ModRm_new (modrm_byte m r x) = mkModRm m r x.
Proof.
  intros Hm Hr Hx. unfold ModRm_new, modrm_byte. rewrite !Z.shiftr_div_pow2 by lia.
  change 3 with (2 ^ 2 - 1) at 1. change 7 with (2 ^ 3 - 1). rewrite !land_ones_mod by lia. f_equal.
  - change (2 ^ 6) with 64. change (2 ^ 2) with 4. Z.div_mod_to_equations. lia.
  - change (2 ^ 3) with 8. Z.div_mod_to_equations. lia.
  - change (2 ^ 3) with 8. Z.div_mod_to_equations. lia.
Qed.

Lemma Sib_new_byte s i b : 0 <= s < 4 -> 0 <= i < 8 -> 0 <= b < 8 -> Sib_new (modrm_byte s i b) = mkSib s i b.
Proof.
  intros Hs Hi Hb. pose proof (ModRm_new_byte s i b Hs Hi Hb) as E. unfold ModRm_new in E. unfold Sib_new.
  by injection E as -> -> ->.
Qed.

Lemma rex_byte_bits r x b : is_rex_prefix (rex_byte r x b) = true /\ rex_r (rex_byte r x b) = r /\ rex_x (rex_byte r x b) = x /\
  rex_b (rex_byte r x b) = b /\ rex_w (rex_byte r x b) = true.
Proof. by destruct r, x, b; vm_compute. Qed.

Lemma register_number_range r : 0 <= register_number r < 8.
Proof. destruct r; cbn; lia. Qed.

Lemma parse_register_number r : r <> RIP -> parse_register (register_number r) (extended r) = Some r.
Proof. by destruct r. Qed.

Lemma index_register_encoded index scale s b : valid_index index scale ->
  index_register (mkSib s (from_option register_number 4 index) b) (from_option extended false index) = index /\
  scale_factor (mkSib (scale_log scale) (from_option register_number 4 index) b) = scale /\
  0 <= from_option register_number 4 index < 8 /\ 0 <= scale_log scale < 4.
Proof.
  unfold valid_index, scale_factor, scale_log, index_register. cbn [sib_index sib_scale].
  destruct index as [i|]; cbn [from_option]; [|intros ->; split_and!; (done || lia)].
  intros (H1 & H2 & H3 & Hs). pose proof (register_number_range i). split_and!; [by destruct i| |lia|lia| |].
  - by destruct Hs as [->|[->|[->| ->]]].
  - destruct Hs as [->|[->|[->| ->]]]; cbn; lia.
  - destruct Hs as [->|[->|[->| ->]]]; cbn; lia.
Qed.

Lemma rm64_encoded pre dst src rest x b bytes : representable dst src -> encode_rm (register_number src) dst = (x, b, bytes) ->
  exists m ds, bytes = m :: ds /\ reg (ModRm_new m) = register_number src /\
    parse_rm64_operand (ModRm_new m) (Some (rex_byte (extended src) x b)) true (behind pre (ds ++ rest)) =
      Done (behind (pre ++ ds) rest, Ok dst).
Proof.
  intros [Hsrc Hdst] E. pose proof (register_number_range src) as Hr.
  destruct (rex_byte_bits (extended src) x b) as (_ & Rr & Rx & Rb & _).
  unfold parse_rm64_operand, rex_bit, is_some_and. rewrite Rr, Rx, Rb.
  destruct dst as [r|i|base index scale disp]; [|done|]; cbn [encode_rm] in E.
  - destruct Hdst as (He & Hrip & Hes). injection E as <- <- <-. eexists _, []. split; [reflexivity|].
    pose proof (register_number_range r). rewrite ModRm_new_byte by lia. split; [done|]. cbn [is_memory md negb Z.eqb Pos.eqb app].
    unfold mbind, D_bind, d_exec, rm_register. cbn [rm]. rewrite Hes, <-He, parse_register_number by done. cbn. by rewrite app_nil_r.
  - destruct Hdst as [Hdisp Hdst]. destruct base as [bs|].
    + case_bool_decide as Erip.
      { subst bs. destruct Hdst as [-> ->]. injection E as <- <- <-. eexists _, (disp_bytes disp). split; [reflexivity|].
        rewrite ModRm_new_byte by lia. split; [done|]. cbn [is_memory has_sib md rm negb Z.eqb Pos.eqb andb is_rip_relative ModRm_disp_size].
        unfold mbind, D_bind. unfold displacement. cbn [Z.eqb Pos.eqb]. by rewrite advance_i32_behind. }
      assert (valid_index index scale /\ (plain_base index bs = true -> extended src = false)) as [Hi Hp] by by destruct bs.
      pose proof (register_number_range bs). destruct (plain_base index bs) eqn:Epl; injection E as <- <- <-.
      * specialize (Hp eq_refl). unfold plain_base in Epl. apply andb_prop in Epl as [Epl Hrsp]. apply andb_prop in Epl as [Hidx Hext].
        apply bool_decide_eq_true in Hidx as ->. apply negb_true_iff in Hext, Hrsp. apply bool_decide_eq_false in Hrsp. cbn in Hi. subst scale.
        eexists _, (disp_bytes disp). split; [reflexivity|]. rewrite ModRm_new_byte by lia. split; [done|].
        assert (register_number bs <> 4) as H4 by (by destruct bs).
        unfold has_sib, is_rip_relative, ModRm_disp_size. cbn [is_memory md rm negb Z.eqb Pos.eqb andb]. rewrite (proj2 (Z.eqb_neq _ 4)) by done.
        unfold mbind, D_bind. unfold displacement. cbn [Z.eqb Pos.eqb]. rewrite advance_i32_behind by done.
        rewrite Hp, <-Hext, parse_register_number by done. done.
      * destruct (index_register_encoded index scale (scale_log scale) (register_number bs) Hi) as (Ei & Es & Hin & Hsc).
        eexists _, (_ :: disp_bytes disp). split; [reflexivity|]. rewrite ModRm_new_byte by lia. split; [done|].
        unfold has_sib. cbn [is_memory md rm negb Z.eqb Pos.eqb andb app]. unfold mbind, D_bind. rewrite advance_behind.
        rewrite Sib_new_byte by lia. unfold Sib_disp_size. cbn [md Z.eqb Pos.eqb andb]. unfold displacement. cbn [Z.eqb Pos.eqb].
        rewrite advance_i32_behind by done. unfold base_register. cbn [sib_base Z.eqb Pos.eqb]. rewrite andb_false_r, parse_register_number by done.
        rewrite Ei, Es. unfold mret, D_ret. by rewrite <-app_assoc.
    + destruct (index_register_encoded index scale (scale_log scale) 5 Hdst) as (Ei & Es & Hin & Hsc). injection E as <- <- <-.
      eexists _, (_ :: disp_bytes disp). split; [reflexivity|]. rewrite ModRm_new_byte by lia. split; [done|].
      unfold has_sib. cbn [is_memory md rm negb Z.eqb Pos.eqb andb app]. unfold mbind, D_bind. rewrite advance_behind.
      rewrite Sib_new_byte by lia. unfold Sib_disp_size. cbn [md sib_base Z.eqb Pos.eqb andb]. unfold displacement. cbn [Z.eqb Pos.eqb].
      rewrite advance_i32_behind by done. unfold base_register. cbn [sib_base Z.eqb Pos.eqb andb].
      rewrite Ei, Es. unfold mret, D_ret. by rewrite <-app_assoc.
Qed.

Lemma next_rm_reg opcode op rex p : (opcode, op) ∈ rm_reg_opcodes -> next_opcode opcode rex p = rm_reg op rex.
Proof.
  unfold rm_reg_opcodes. rewrite !elem_of_cons, elem_of_nil.
  intros H; repeat destruct H as [[= -> ->]|H]; try done; reflexivity.
Qed.

(** ** Properties *)

(** C25: Decoding never panics and never reads outside the input: from an offset
    in the input [next] returns, the offset moves forward, by at least one
    byte when an instruction is returned, and at most two bytes past the end
    (the immediate of RET is not read). *)
Theorem next_total d : in_input d ->
  exists d' r, next d = Done (d', r) /\ input d' = input d /\ offset d <= offset d' <= len d + 2 /\
    ((exists i, r = Ok i) -> offset d < offset d').
Proof. apply next_moves. Qed.

Lemma next_total_witness : exists d' r, next (Disassembler_new [0xC2]) = Done (d', r) /\ offset d' <= 3.
Proof.
  destruct (next_total (Disassembler_new [0xC2])) as (d' & r & E & _ & Ho & _); [unfold in_input, len; cbn; lia|].
  exists d', r. split; [exact E|]. unfold len in Ho. cbn in Ho. lia.
Defined.

(** An instruction is decoded from its own bytes: what follows them in the
    input changes neither the instruction nor its length. *)
Theorem next_stable d d' i rest : in_input d -> next d = Done (d', Ok i) -> next (extend d rest) = Done (extend d' rest, Ok i).
Proof.
  intros Hd E. unfold next in *. unfold in_input, len in Hd. case_if_in E; [done|]. cbn [input offset extend].
  rewrite (proj2 (Z.eqb_neq _ _)) by (rewrite length_app; lia).
  assert (stable ('(p, rex, opcode) ← read_prefixes (S (length (input d))) (mkPrefixes false false false); next_opcode opcode rex p : D Instruction)) as Hst.
  { apply stable_bind; [apply stable_read_prefixes|]. intros [[p rex] opcode]. apply stable_next_opcode. }
  specialize (Hst d d' i rest E). clear E. rename Hst into E. unfold mbind, D_bind in *. rewrite length_app.
  destruct (read_prefixes (S (length (input d))) (mkPrefixes false false false) (extend d rest)) as [[d1 r1]|] eqn:E1; [|done].
  apply (read_prefixes_fuel _ (length rest)) in E1. cbn [Nat.add] in E1. by rewrite E1.
Qed.

Lemma next_stable_witness : next (Disassembler_new ([0x48; 0x8b; 0x75; 0xc8] ++ [0xcc; 0x0f])) =
  Done (mkDisassembler ([0x48; 0x8b; 0x75; 0xc8] ++ [0xcc; 0x0f]) 4, Ok (MOV (OperandRegister RSI) (OperandMemory (Some RBP) None 1 (-0x38)))).
Proof.
  apply (next_stable (Disassembler_new [0x48; 0x8b; 0x75; 0xc8]) (mkDisassembler [0x48; 0x8b; 0x75; 0xc8] 4)).
  - unfold in_input, len. cbn. lia.
  - vm_compute. reflexivity.
Defined.

(** The loop over the instructions of an input ends, after one round per byte
    and the one that fails. *)
Theorem disassemble_ends bytes : exists l e, disassemble (S (length bytes)) (Disassembler_new bytes) = Done (Some (l, e)).
Proof.
  enough (forall fuel d, input d = bytes -> 0 <= offset d -> Z.max 0 (Z.of_nat (length bytes) - offset d) < Z.of_nat fuel ->
    exists l e, disassemble fuel d = Done (Some (l, e))) as Hall by (apply Hall; cbn; try done; lia).
  induction fuel as [|fuel IH]; intros d Hi H0 Hf; [lia|]. cbn [disassemble].
  destruct (Z.le_gt_cases (offset d) (Z.of_nat (length bytes))) as [Hle|Hgt].
  - destruct (next_moves d) as (d' & r & E & Hi' & Ho & Hp); [unfold in_input, len; rewrite Hi; lia|]. unfold len in Ho. rewrite Hi in Hi', Ho. rewrite E. cbn [mbind exec_bind].
    destruct r as [i|e]; [|by exists [], e]. specialize (Hp ltac:(by eexists)).
    assert (offset d <> Z.of_nat (length bytes)) as Hne by (intros Heq; unfold next in E; rewrite Hi, Heq, Z.eqb_refl in E; discriminate E).
    destruct (IH d' Hi') as (l & e & El); [lia|lia|]. exists (i :: l), e. by rewrite El.
  - exists [], PartialInstruction. unfold next. rewrite Hi, (proj2 (Z.eqb_neq _ _)) by lia. cbn [read_prefixes]. unfold mbind, D_bind, advance.
    rewrite Hi, lookup_ge_None_2 by lia. done.
Qed.



(** The register of an [r/m64] operand is extended by REX.R, the bit of the
    other operand, and never by REX.B: [49 89 c0], a move to R8, decodes as a
    move to RAX, and [4c 89 c0], a move of R8 to RAX, as one to R8. *)
Theorem rm_takes_rex_r opcode op r x b n k dst src : (opcode, op) ∈ rm_reg_opcodes ->
  parse_register k r = Some dst -> parse_register n r = Some src -> 0 <= n < 8 -> 0 <= k < 8 ->
  let bytes := [rex_byte r x b; opcode; modrm_byte 3 n k] in
  next (Disassembler_new bytes) = Done (mkDisassembler bytes 3, Ok (op (OperandRegister dst) (OperandRegister src))).
Proof.
  intros Hop Hdst Hsrc Hreg Hrm. set (rx := rex_byte r x b). destruct (rex_byte_bits r x b) as (Hrex & Hr & _). fold rx in Hrex, Hr. cbv zeta.
  unfold next. cbn [offset Disassembler_new]. rewrite (proj2 (Z.eqb_neq 0 _)) by (cbn; lia).
  change (Disassembler_new [rx; opcode; modrm_byte 3 n k]) with (behind [] [rx; opcode; modrm_byte 3 n k]).
  cbn [read_prefixes]. unfold mbind, D_bind. rewrite advance_behind.
  assert (forall c, is_rex_prefix c = false -> (rx =? c) = false) as Hne.
  { intros c Hc. apply Z.eqb_neq. intros <-. congruence. }
  rewrite !Hne by done. cbn [orb]. rewrite Hrex, advance_behind. unfold mret, D_ret. rewrite (next_rm_reg opcode op) by done.
  unfold rm_reg, mbind, D_bind. rewrite advance_behind, ModRm_new_byte by lia.
  unfold parse_rm64_operand, r64_reg_operand, rm_register, rex_bit, is_some_and, d_exec, mbind, D_bind. cbn [is_memory md rm reg negb Z.eqb Pos.eqb].
  rewrite Hr, Hdst, Hsrc. cbn [unwrap exec_bind]. reflexivity.
Qed.

Lemma rm_takes_rex_r_witness : next (Disassembler_new [0x49; 0x89; 0xc0]) =
  Done (mkDisassembler [0x49; 0x89; 0xc0] 3, Ok (MOV (OperandRegister RAX) (OperandRegister RAX))).
Proof.
  apply (rm_takes_rex_r 0x89 MOV false false true 0 0 RAX RAX); [apply list_elem_of_lookup_2 with 11%nat; reflexivity|reflexivity|reflexivity|lia|lia].
Defined.

(** PUSH and POP of an extended register, which have REX.B, decode as those of
    the register without it; OUT decodes as IN; an index of R12 is lost; and a
    32-bit MOV of an immediate to an extended register takes eight bytes. *)
Example other_operands :
  disassemble 9 (Disassembler_new [0x41; 0x50; 0x41; 0x58; 0xe6; 0x10; 0x4a; 0x8b; 0x04; 0x27]) =
    Done (Some ([PUSH (OperandRegister RAX); POP (OperandRegister RAX); IN RAX (OperandImmediateValue (I8 0x10));
      MOV (OperandRegister RAX) (OperandMemory (Some RDI) None 1 0)], PartialInstruction)) /\
  disassemble 9 (Disassembler_new [0x41; 0xb8; 1; 0; 0; 0; 0x90; 0x90; 0x90; 0x90]) =
    Done (Some ([MOV (OperandRegister R8) (OperandImmediateValue (I64 (0x9090909000000001 - 2 ^ 64)))], PartialInstruction)).
Proof. split; vm_compute; reflexivity. Qed.
