(* ===== verification/Elf.v ===== *)
(** * crates/elf/src/elf.rs: the ELF parser

    Headers, sections, symbols, relocations and program headers, read in place
    out of the file's bytes. An error is the [&'static str] the code returns;
    an assertion, an index out of range and [todo!()] panic. The iterators are
    their [next]; a [for] loop over sections is [section_for]. *)

From Stdlib Require Import Lia.
From stdpp Require Import base numbers list option strings tactics.
From S2P Require Import Prelude Pod.

Local Open Scope Z_scope.
Local Open Scope u64_scope.

(** ** Headers *)

Record HeaderIdent : Type := mkIdent {
  magic : list Z; class : Z; data : Z; ident_version : Z; os_abi : Z; abi_version : Z; padding : list Z
}.

Record HeaderBody : Type := mkBody {
  type_ : Z; machine : Z; version : Z; entry_point : Z; ph_offset : Z; sh_offset : Z; e_flags : Z;
  header_size : Z; ph_entry_size : Z; ph_count : Z; sh_entry_size : Z; sh_count : Z; sh_str_index : Z
}.

Record Header : Type := mkHeader { ident : HeaderIdent; body : HeaderBody }.

#[export] Instance Pod_HeaderIdent : Pod HeaderIdent := {|
  size_of := 16; align_of := 1;
  from_bytes bs := mkIdent (take 4 bs) (field 1 4 bs) (field 1 5 bs) (field 1 6 bs) (field 1 7 bs) (field 1 8 bs)
    (take 7 (drop 9 bs))
|}.

(** [version] is one byte at offset 4; three bytes of padding follow it. *)
#[export] Instance Pod_HeaderBody : Pod HeaderBody := {|
  size_of := 48; align_of := 8;
  from_bytes bs := mkBody (field 2 0 bs) (field 2 2 bs) (field 1 4 bs) (field 8 8 bs) (field 8 16 bs) (field 8 24 bs)
    (field 4 32 bs) (field 2 36 bs) (field 2 38 bs) (field 2 40 bs) (field 2 42 bs) (field 2 44 bs) (field 2 46 bs)
|}.

Definition MAGIC_NUM : list Z := [0x7f; 69; 76; 70].
Definition HEADER_IDENT_SIZE : Z := size_of HeaderIdent.
Definition HEADER_BODY_SIZE : Z := size_of HeaderBody.

Definition is_little_endian (self : HeaderIdent) : bool := data self =? 1.

Definition Header_parse (bytes : Slice) : exec (result Header string) :=
  if slice_len bytes <? HEADER_IDENT_SIZE then Done (Err "File is shorter than ELF ident")
  else if slice_len bytes <? HEADER_IDENT_SIZE + HEADER_BODY_SIZE then Done (Err "File is shorter than ELF header")
  else
    s ← slice_to bytes HEADER_IDENT_SIZE;
    ident ← pod_read HeaderIdent s;
    if negb (bool_decide (magic ident = MAGIC_NUM)) then Done (Err "Invalid magic number")
    else if negb (class ident =? 2) then Done (Err "Invalid class")
    else
      s ← slice_range bytes HEADER_IDENT_SIZE (HEADER_IDENT_SIZE + HEADER_BODY_SIZE);
      body ← pod_read HeaderBody s;
      Done (Ok (mkHeader ident body)).

Inductive ObjectFileType : Type :=
  | OF_None | OF_Relocatable | OF_Executable | OF_SharedObject | OF_Core | OF_ProcessorSpecific (x : Z).

#[export] Instance ObjectFileType_eq_dec : EqDecision ObjectFileType.
Proof. solve_decision. Defined.

Definition Header_get_type (self : Header) : ObjectFileType :=
  match type_ (body self) with
  | 0 => OF_None
  | 1 => OF_Relocatable
  | 2 => OF_Executable
  | 3 => OF_SharedObject
  | 4 => OF_Core
  | x => OF_ProcessorSpecific x
  end.

(** ** Files and section headers *)

Record ElfFile : Type := mkElf { input : Slice; header : Header }.

Definition ElfFile_new (input : Slice) : exec (result ElfFile string) :=
  header ←? Header_parse input;
  Done (Ok (mkElf input header)).

Record SectionHeader : Type := mkSectionHeader {
  sh_name : Z; sh_type : Z; sh_flags : Z; sh_address : Z; sh_off : Z; sh_size : Z;
  sh_link : Z; sh_info : Z; sh_align : Z; sh_entsize : Z
}.

#[export] Instance Pod_SectionHeader : Pod SectionHeader := {|
  size_of := 64; align_of := 8;
  from_bytes bs := mkSectionHeader (field 4 0 bs) (field 4 4 bs) (field 8 8 bs) (field 8 16 bs) (field 8 24 bs) (field 8 32 bs)
    (field 4 40 bs) (field 4 44 bs) (field 8 48 bs) (field 8 56 bs)
|}.

Definition SHN_UNDEF : Z := 0.
Definition SHN_LORESERVE : Z := 0xff00.
Definition SHN_ABS : Z := 0xfff1.
Definition SHN_COMMON : Z := 0xfff2.
Definition SHN_XINDEX : Z := 0xffff.

Definition SHF_WRITE : Z := 0x1.
Definition SHF_ALLOC : Z := 0x2.
Definition SHF_EXECINSTR : Z := 0x4.
Definition SHF_TLS : Z := 0x400.

Definition SHT_LOOS : Z := 0x60000000.
Definition SHT_HIOS : Z := 0x6fffffff.
Definition SHT_LOPROC : Z := 0x70000000.
Definition SHT_HIPROC : Z := 0x7fffffff.
Definition SHT_LOUSER : Z := 0x80000000.
Definition SHT_HIUSER : Z := 0xffffffff.

Inductive SectionHeaderType : Type :=
  | Null | ProgBits | SymTab | StrTab | RelaType | Hash | Dynamic | Note | NoBits | RelType | ShLib | DynSym
  | InitArray | FiniArray | PreInitArray | Group | SymTabShIndex
  | OsSpecific (n : Z) | ProcessorSpecific (n : Z) | User (n : Z).

#[export] Instance SectionHeaderType_eq_dec : EqDecision SectionHeaderType.
Proof. solve_decision. Defined.

Definition SectionHeader_parse (input : Slice) (header : Header) (index : Z) : exec (result SectionHeader string) :=
  _ ← rust_assert (index <? SHN_LORESERVE);
  let start := (index ⊠ sh_entry_size (body header)) ⊞ sh_offset (body header) in
  let end_ := start ⊞ sh_entry_size (body header) in
  if slice_len input <? end_ then Done (Err "File is shorter than section header offset")
  else
    s ← slice_range input start end_;
    h ← pod_read SectionHeader s;
    Done (Ok h).

Definition SectionHeader_get_type (self : SectionHeader) : result SectionHeaderType string :=
  match sh_type self with
  | 0 => Ok Null
  | 1 => Ok ProgBits
  | 2 => Ok SymTab
  | 3 => Ok StrTab
  | 4 => Ok RelaType
  | 5 => Ok Hash
  | 6 => Ok Dynamic
  | 7 => Ok Note
  | 8 => Ok NoBits
  | 9 => Ok RelType
  | 10 => Ok ShLib
  | 11 => Ok DynSym
  | 14 => Ok InitArray
  | 15 => Ok FiniArray
  | 16 => Ok PreInitArray
  | 17 => Ok Group
  | 18 => Ok SymTabShIndex
  | n =>
      if in_range SHT_LOOS SHT_HIOS n then Ok (OsSpecific n)
      else if in_range SHT_LOPROC SHT_HIPROC n then Ok (ProcessorSpecific n)
      else if in_range SHT_LOUSER SHT_HIUSER n then Ok (User n)
      else Err "Invalid section header type"
  end.

(** [self.get_type() == Ok(typ)]. *)
Definition has_type (self : SectionHeader) (typ : SectionHeaderType) : bool :=
  match SectionHeader_get_type self with
  | Ok t => bool_decide (t = typ)
  | Err _ => false
  end.

Definition get_section_header (self : ElfFile) (index : Z) : exec (result SectionHeader string) :=
  SectionHeader_parse (input self) (header self) index.

Definition get_shstr_table (self : ElfFile) : exec (result Slice string) :=
  h ←? get_section_header self (sh_str_index (body (header self)));
  let offset := sh_off h in
  if slice_len (input self) <? offset then Done (Err "File is shorter than section offset")
  else s ← slice_from (input self) offset; Done (Ok s).

Definition get_shstr (self : ElfFile) (index : Z) : exec (result (list Z) string) :=
  shstr_table ←? get_shstr_table self;
  s ← slice_from shstr_table index;
  n ← read_until_null s;
  Done (Ok (slice_bytes n)).

Definition SectionHeader_get_name (self : SectionHeader) (file : ElfFile) : exec (result (list Z) string) :=
  typ ←? Done (SectionHeader_get_type self);
  if bool_decide (typ = Null) then Done (Err "Attempted to get name of null section")
  else get_shstr file (sh_name self).

Definition raw_data (self : SectionHeader) (file : ElfFile) : exec Slice :=
  match SectionHeader_get_type self with
  | Err _ => Panic
  | Ok typ =>
      _ ← rust_assert (negb (bool_decide (typ = Null)));
      slice_range (input file) (sh_off self) (sh_off self ⊞ sh_size self)
  end.

(** ** Iterating over sections *)

(** [SectionIter]: its [next_index]; the file is fixed. *)
Definition SectionIter_next (file : ElfFile) (next_index : Z) : exec (option SectionHeader * Z) :=
  if sh_count (body (header file)) <=? next_index then Done (None, next_index)
  else
    result ← get_section_header file next_index;
    Done (result_ok result, wrap 16 (next_index + 1)).

Definition section_fuel (file : ElfFile) : nat := S (Z.to_nat (sh_count (body (header file)))).

(** [for section in file.section_iter() { body }], with and without
    [enumerate]. *)
Definition section_for {S R} (file : ElfFile) (body : SectionHeader -> S -> exec (S + R)) (s : S) : exec (S + R) :=
  o ← iter_loop (SectionIter_next file) body (section_fuel file) 0 s;
  unwrap o.
Definition section_for_enum {S R} (file : ElfFile) (body : Z * SectionHeader -> S -> exec (S + R)) (s : S) : exec (S + R) :=
  o ← iter_loop (enumerate_next (SectionIter_next file)) body (section_fuel file) (0, 0) s;
  unwrap o.

Definition found {S R} (r : S + R) : option R := match r with inl _ => None | inr x => Some x end.

Definition find_section_by_name (self : ElfFile) (name : list Z) : exec (option SectionHeader) :=
  found <$> section_for self (fun sect _ =>
    sect_name ← SectionHeader_get_name sect self;
    match sect_name with
    | Ok n => if bool_decide (n = name) then Done (inr sect) else Done (inl tt)
    | Err _ => Done (inl tt)
    end) tt.

Definition get_string (self : ElfFile) (index : Z) : exec (result (list Z) string) :=
  o ← find_section_by_name self (str ".strtab");
  header ←? Done (ok_or o "no `.strtab` section");
  typ ←? Done (SectionHeader_get_type header);
  if negb (bool_decide (typ = StrTab)) then Done (Err "expected `.strtab` to be a string table")
  else
    data ← raw_data header self;
    s ← slice_from data index;
    name ← read_str s;
    Done (Ok name).

(** ** Symbols and relocations *)

Record SymbolTableEntry : Type := mkSym {
  sym_name : Z; info : Z; other : Z; shndx : Z; value : Z; sym_size : Z
}.

#[export] Instance Pod_SymbolTableEntry : Pod SymbolTableEntry := {|
  size_of := 24; align_of := 8;
  from_bytes bs := mkSym (field 4 0 bs) (field 1 4 bs) (field 1 5 bs) (field 2 6 bs) (field 8 8 bs) (field 8 16 bs)
|}.

Record Rel : Type := mkRel { rel_offset : Z; rel_info : Z }.
Record Rela : Type := mkRela { rela_offset : Z; rela_info : Z; rela_addend : Z }.

#[export] Instance Pod_Rel : Pod Rel := {|
  size_of := 16; align_of := 8; from_bytes bs := mkRel (field 8 0 bs) (field 8 8 bs)
|}.
#[export] Instance Pod_Rela : Pod Rela := {|
  size_of := 24; align_of := 8; from_bytes bs := mkRela (field 8 0 bs) (field 8 8 bs) (field 8 16 bs)
|}.

Definition get_symbol_table_index (self : Rela) : Z := wrap 32 (Z.shiftr (rela_info self) 32).
Definition Rela_get_type (self : Rela) : Z := wrap 32 (Z.land (rela_info self) 0xffffffff).

Inductive SymbolType : Type :=
  | NoType | Object | Func | Section_ | File | Common | Tls | SymOsSpecific (b : Z) | SymProcessorSpecific (b : Z).
Inductive SymbolBinding : Type :=
  | Local_ | Global_ | Weak | BindOsSpecific (b : Z) | BindProcessorSpecific (b : Z).
Inductive SymbolVisibility : Type := Default_ | Internal | Hidden | Protected.

#[export] Instance SymbolType_eq_dec : EqDecision SymbolType.
Proof. solve_decision. Defined.
#[export] Instance SymbolBinding_eq_dec : EqDecision SymbolBinding.
Proof. solve_decision. Defined.

Definition Symbol_get_type (self : SymbolTableEntry) : result SymbolType string :=
  match Z.land (info self) 0xf with
  | 0 => Ok NoType
  | 1 => Ok Object
  | 2 => Ok Func
  | 3 => Ok Section_
  | 4 => Ok File
  | 5 => Ok Common
  | 6 => Ok Tls
  | b =>
      if in_range 10 12 b then Ok (SymOsSpecific b)
      else if in_range 13 15 b then Ok (SymProcessorSpecific b)
      else Err "invalid value for symbol type"
  end.

Definition get_binding (self : SymbolTableEntry) : result SymbolBinding string :=
  match Z.shiftr (info self) 4 with
  | 0 => Ok Local_
  | 1 => Ok Global_
  | 2 => Ok Weak
  | b =>
      if in_range 10 12 b then Ok (BindOsSpecific b)
      else if in_range 13 15 b then Ok (BindProcessorSpecific b)
      else Err "invalid value for symbol binding"
  end.

Definition get_visibility (self : SymbolTableEntry) : exec SymbolVisibility :=
  match Z.land (other self) 0x3 with
  | 0 => Done Default_
  | 1 => Done Internal
  | 2 => Done Hidden
  | 3 => Done Protected
  | _ => Panic
  end.

Definition Symbol_get_name (self : SymbolTableEntry) (file : ElfFile) : exec (result (list Z) string) :=
  get_string file (sym_name self).

(** ** The contents of sections *)

Inductive SectionData : Type :=
  | SD_Empty
  | SD_Undefined (s : Slice)
  | SD_Group (flags : Z) (indices : list Z)
  | SD_StrArray (s : Slice)
  | SD_FnArray (l : list Z)
  | SD_SymbolTable (l : list SymbolTableEntry)
  | SD_DynSymbolTable (l : list SymbolTableEntry)
  | SD_SymTabShIndex (l : list Z)
  | SD_Rela (l : list Rela)
  | SD_Rel (l : list Rel).

Definition get_data (self : SectionHeader) (file : ElfFile) : exec (result SectionData string) :=
  typ ←? Done (SectionHeader_get_type self);
  match typ with
  | Null | NoBits => Done (Ok SD_Empty)
  | ProgBits | ShLib | OsSpecific _ | ProcessorSpecific _ | User _ =>
      data ← raw_data self file; Done (Ok (SD_Undefined data))
  | SymTab => data ← raw_data self file; a ← read_array SymbolTableEntry data; Done (Ok (SD_SymbolTable a))
  | DynSym => data ← raw_data self file; a ← read_array SymbolTableEntry data; Done (Ok (SD_DynSymbolTable a))
  | StrTab => data ← raw_data self file; Done (Ok (SD_StrArray data))
  | InitArray | FiniArray | PreInitArray =>
      data ← raw_data self file; a ← @read_array Z Pod_u64 data; Done (Ok (SD_FnArray a))
  | RelaType => data ← raw_data self file; a ← read_array Rela data; Done (Ok (SD_Rela a))
  | RelType => data ← raw_data self file; a ← read_array Rel data; Done (Ok (SD_Rel a))
  | Dynamic => Panic
  | Group =>
      data ← raw_data self file;
      _ ← slice_index data 0;
      rest ← slice_from data 4;
      indices ← @read_array Z Pod_u32 rest;
      Done (Ok (SD_Group (field 4 0 (slice_bytes data)) indices))
  | SymTabShIndex => data ← raw_data self file; a ← @read_array Z Pod_u32 data; Done (Ok (SD_SymTabShIndex a))
  | Note | Hash => Panic
  end.

Definition get_symbol_table (self : ElfFile) : exec (result (list SymbolTableEntry) string) :=
  o ← found <$> section_for self (fun sec _ => if has_type sec SymTab then Done (inr sec) else Done (inl tt)) tt;
  symtab_data ← (s ←? Done (ok_or o "no `symtab` section"%string); get_data s self);
  match symtab_data with
  | Ok (SD_SymbolTable symtab) => Done (Ok symtab)
  | _ => Done (Err "no symbol table found, file may have been stripped")
  end.

Definition Symbol_get_section_header (self : SymbolTableEntry) (file : ElfFile) (self_index : Z)
  : exec (result SectionHeader string) :=
  if shndx self =? SHN_XINDEX then
    o ← find_section_by_name file (str ".symtab_shndx");
    match o with
    | Some header =>
        typ ←? Done (SectionHeader_get_type header);
        _ ← rust_assert (bool_decide (typ = SymTabShIndex));
        data ←? get_data header file;
        match data with
        | SD_SymTabShIndex data =>
            entry ← unwrap (data !! Z.to_nat self_index);
            let index := wrap 16 entry in
            _ ← rust_assert (negb (index =? SHN_UNDEF));
            get_section_header file index
        | _ => Done (Err "expected SymTabShIndex")
        end
    | None => Done (Err "no `.symtab_shndx` section")
    end
  else if (shndx self =? SHN_UNDEF) || (shndx self =? SHN_ABS) || (shndx self =? SHN_COMMON) then
    Done (Err "reserved section header index")
  else get_section_header file (shndx self).

(** ** Program headers *)

Record ProgramHeader : Type := mkProgramHeader {
  p_type : Z; p_flags : Z; p_offset : Z; virtual_addr : Z; physical_addr : Z; file_size : Z; mem_size : Z; p_align : Z
}.

#[export] Instance Pod_ProgramHeader : Pod ProgramHeader := {|
  size_of := 56; align_of := 8;
  from_bytes bs := mkProgramHeader (field 4 0 bs) (field 4 4 bs) (field 8 8 bs) (field 8 16 bs) (field 8 24 bs) (field 8 32 bs)
    (field 8 40 bs) (field 8 48 bs)
|}.

Definition ProgramHeader_parse (input : Slice) (header : Header) (index : Z) : exec (result ProgramHeader string) :=
  if negb ((index <? ph_count (body header)) && (0 <? ph_offset (body header)) && (0 <? ph_entry_size (body header))) then
    Done (Err "there are no program headers in this file")
  else
    let start := ph_offset (body header) ⊞ (index ⊠ ph_entry_size (body header)) in
    let end_ := start ⊞ ph_entry_size (body header) in
    s ← slice_range input start end_;
    h ← pod_read ProgramHeader s;
    Done (Ok h).

Definition get_program_header (self : ElfFile) (index : Z) : exec (result ProgramHeader string) :=
  ProgramHeader_parse (input self) (header self) index.

Definition ProgramIter_next (file : ElfFile) (next_index : Z) : exec (option ProgramHeader * Z) :=
  if ph_count (body (header file)) <=? next_index then Done (None, next_index)
  else
    result ← get_program_header file next_index;
    Done (result_ok result, wrap 16 (next_index + 1)).

Definition program_fuel (file : ElfFile) : nat := S (Z.to_nat (ph_count (body (header file)))).

Definition program_for {S R} (file : ElfFile) (f : ProgramHeader -> S -> exec (S + R)) (s : S) : exec (S + R) :=
  o ← iter_loop (ProgramIter_next file) f (program_fuel file) 0 s;
  unwrap o.

Definition PROGRAM_FLAG_EXECUTE : Z := 0x1.
Definition PROGRAM_FLAG_WRITE : Z := 0x2.
Definition PROGRAM_FLAG_READ : Z := 0x4.

Definition PROGRAM_HEADER_TYPE_LOOS : Z := 0x60000000.
Definition PROGRAM_HEADER_TYPE_HIOS : Z := 0x6fffffff.
Definition PROGRAM_HEADER_TYPE_LOPROC : Z := 0x70000000.
Definition PROGRAM_HEADER_TYPE_HIPROC : Z := 0x7fffffff.
Definition PROGRAM_HEADER_TYPE_GNU_RELRO : Z := PROGRAM_HEADER_TYPE_LOOS + 0x474e552.

Inductive ProgramHeaderType : Type :=
  | PH_Null | PH_Load | PH_Dynamic | PH_Interp | PH_Note | PH_ShLib | PH_Phdr | PH_Tls | PH_GnuRelro
  | PH_OsSpecific (t : Z) | PH_ProcessorSpecific (t : Z).

Definition ProgramHeader_get_type (self : ProgramHeader) : result ProgramHeaderType string :=
  match p_type self with
  | 0 => Ok PH_Null
  | 1 => Ok PH_Load
  | 2 => Ok PH_Dynamic
  | 3 => Ok PH_Interp
  | 4 => Ok PH_Note
  | 5 => Ok PH_ShLib
  | 6 => Ok PH_Phdr
  | 7 => Ok PH_Tls
  | t =>
      if t =? PROGRAM_HEADER_TYPE_GNU_RELRO then Ok PH_GnuRelro
      else if in_range PROGRAM_HEADER_TYPE_LOOS PROGRAM_HEADER_TYPE_HIOS t then Ok (PH_OsSpecific t)
      else if in_range PROGRAM_HEADER_TYPE_LOPROC PROGRAM_HEADER_TYPE_HIPROC t then Ok (PH_ProcessorSpecific t)
      else Err "invalid value for program header type"
  end.

Definition is_execute (self : ProgramHeader) : bool := Z.land (p_flags self) PROGRAM_FLAG_EXECUTE =? PROGRAM_FLAG_EXECUTE.
Definition is_write (self : ProgramHeader) : bool := Z.land (p_flags self) PROGRAM_FLAG_WRITE =? PROGRAM_FLAG_WRITE.
Definition is_read (self : ProgramHeader) : bool := Z.land (p_flags self) PROGRAM_FLAG_READ =? PROGRAM_FLAG_READ.

(** ** Encodings

    The bytes of each structure, its fields within their widths, and the laws
    of [PodEncoding]. *)

Definition HeaderIdent_bytes (i : HeaderIdent) : list Z :=
  magic i ++ le_split 1 (class i) ++ le_split 1 (data i) ++ le_split 1 (ident_version i) ++ le_split 1 (os_abi i)
  ++ le_split 1 (abi_version i) ++ padding i.
Definition HeaderIdent_wf (i : HeaderIdent) : Prop :=
  length (magic i) = 4%nat /\ length (padding i) = 7%nat /\ is_bytes (magic i) /\ is_bytes (padding i) /\
  uint_range 8 (class i) /\ uint_range 8 (data i) /\ uint_range 8 (ident_version i) /\ uint_range 8 (os_abi i) /\
  uint_range 8 (abi_version i).

Definition HeaderBody_bytes (b : HeaderBody) : list Z :=
  le_split 2 (type_ b) ++ le_split 2 (machine b) ++ le_split 1 (version b) ++ le_split 3 0 ++ le_split 8
  (entry_point b) ++ le_split 8 (ph_offset b) ++ le_split 8 (sh_offset b) ++ le_split 4 (e_flags b) ++ le_split
  2 (header_size b) ++ le_split 2 (ph_entry_size b) ++ le_split 2 (ph_count b) ++ le_split 2 (sh_entry_size b)
  ++ le_split 2 (sh_count b) ++ le_split 2 (sh_str_index b).
Definition HeaderBody_wf (b : HeaderBody) : Prop :=
  uint_range 16 (type_ b) /\ uint_range 16 (machine b) /\ uint_range 8 (version b) /\ uint_range 64 (entry_point
  b) /\ uint_range 64 (ph_offset b) /\ uint_range 64 (sh_offset b) /\ uint_range 32 (e_flags b) /\ uint_range 16
  (header_size b) /\ uint_range 16 (ph_entry_size b) /\ uint_range 16 (ph_count b) /\ uint_range 16
  (sh_entry_size b) /\ uint_range 16 (sh_count b) /\ uint_range 16 (sh_str_index b).

Definition SectionHeader_bytes (h : SectionHeader) : list Z :=
  le_split 4 (sh_name h) ++ le_split 4 (sh_type h) ++ le_split 8 (sh_flags h) ++ le_split 8 (sh_address h) ++
  le_split 8 (sh_off h) ++ le_split 8 (sh_size h) ++ le_split 4 (sh_link h) ++ le_split 4 (sh_info h) ++
  le_split 8 (sh_align h) ++ le_split 8 (sh_entsize h).
Definition SectionHeader_wf (h : SectionHeader) : Prop :=
  uint_range 32 (sh_name h) /\ uint_range 32 (sh_type h) /\ uint_range 64 (sh_flags h) /\ uint_range 64
  (sh_address h) /\ uint_range 64 (sh_off h) /\ uint_range 64 (sh_size h) /\ uint_range 32 (sh_link h) /\
  uint_range 32 (sh_info h) /\ uint_range 64 (sh_align h) /\ uint_range 64 (sh_entsize h).

Definition SymbolTableEntry_bytes (e : SymbolTableEntry) : list Z :=
  le_split 4 (sym_name e) ++ le_split 1 (info e) ++ le_split 1 (other e) ++ le_split 2 (shndx e) ++ le_split 8
  (value e) ++ le_split 8 (sym_size e).
Definition SymbolTableEntry_wf (e : SymbolTableEntry) : Prop :=
  uint_range 32 (sym_name e) /\ uint_range 8 (info e) /\ uint_range 8 (other e) /\ uint_range 16 (shndx e) /\
  uint_range 64 (value e) /\ uint_range 64 (sym_size e).

Definition Rel_bytes (r : Rel) : list Z :=
  le_split 8 (rel_offset r) ++ le_split 8 (rel_info r).
Definition Rel_wf (r : Rel) : Prop :=
  uint_range 64 (rel_offset r) /\ uint_range 64 (rel_info r).

Definition Rela_bytes (r : Rela) : list Z :=
  le_split 8 (rela_offset r) ++ le_split 8 (rela_info r) ++ le_split 8 (rela_addend r).
Definition Rela_wf (r : Rela) : Prop :=
  uint_range 64 (rela_offset r) /\ uint_range 64 (rela_info r) /\ uint_range 64 (rela_addend r).

Definition ProgramHeader_bytes (p : ProgramHeader) : list Z :=
  le_split 4 (p_type p) ++ le_split 4 (p_flags p) ++ le_split 8 (p_offset p) ++ le_split 8 (virtual_addr p) ++
  le_split 8 (physical_addr p) ++ le_split 8 (file_size p) ++ le_split 8 (mem_size p) ++ le_split 8 (p_align p).
Definition ProgramHeader_wf (p : ProgramHeader) : Prop :=
  uint_range 32 (p_type p) /\ uint_range 32 (p_flags p) /\ uint_range 64 (p_offset p) /\ uint_range 64
  (virtual_addr p) /\ uint_range 64 (physical_addr p) /\ uint_range 64 (file_size p) /\ uint_range 64 (mem_size
  p) /\ uint_range 64 (p_align p).

#[export] Instance Encoding_HeaderBody : PodEncoding HeaderBody.
Proof.
  refine {| to_bytes := HeaderBody_bytes; pod_wf := HeaderBody_wf |}.
  - done.
  - by exists 3.
  - unfold HeaderBody_bytes. encoding_length.
  - unfold HeaderBody_bytes. encoding_bytes.
  - unfold HeaderBody_bytes, HeaderBody_wf. encoding_from.
  - unfold HeaderBody_wf. encoding_wf.
Defined.

#[export] Instance Encoding_SectionHeader : PodEncoding SectionHeader.
Proof.
  refine {| to_bytes := SectionHeader_bytes; pod_wf := SectionHeader_wf |}.
  - done.
  - by exists 3.
  - unfold SectionHeader_bytes. encoding_length.
  - unfold SectionHeader_bytes. encoding_bytes.
  - unfold SectionHeader_bytes, SectionHeader_wf. encoding_from.
  - unfold SectionHeader_wf. encoding_wf.
Defined.

#[export] Instance Encoding_SymbolTableEntry : PodEncoding SymbolTableEntry.
Proof.
  refine {| to_bytes := SymbolTableEntry_bytes; pod_wf := SymbolTableEntry_wf |}.
  - done.
  - by exists 3.
  - unfold SymbolTableEntry_bytes. encoding_length.
  - unfold SymbolTableEntry_bytes. encoding_bytes.
  - unfold SymbolTableEntry_bytes, SymbolTableEntry_wf. encoding_from.
  - unfold SymbolTableEntry_wf. encoding_wf.
Defined.

#[export] Instance Encoding_Rel : PodEncoding Rel.
Proof.
  refine {| to_bytes := Rel_bytes; pod_wf := Rel_wf |}.
  - done.
  - by exists 3.
  - unfold Rel_bytes. encoding_length.
  - unfold Rel_bytes. encoding_bytes.
  - unfold Rel_bytes, Rel_wf. encoding_from.
  - unfold Rel_wf. encoding_wf.
Defined.

#[export] Instance Encoding_Rela : PodEncoding Rela.
Proof.
  refine {| to_bytes := Rela_bytes; pod_wf := Rela_wf |}.
  - done.
  - by exists 3.
  - unfold Rela_bytes. encoding_length.
  - unfold Rela_bytes. encoding_bytes.
  - unfold Rela_bytes, Rela_wf. encoding_from.
  - unfold Rela_wf. encoding_wf.
Defined.

#[export] Instance Encoding_ProgramHeader : PodEncoding ProgramHeader.
Proof.
  refine {| to_bytes := ProgramHeader_bytes; pod_wf := ProgramHeader_wf |}.
  - done.
  - by exists 3.
  - unfold ProgramHeader_bytes. encoding_length.
  - unfold ProgramHeader_bytes. encoding_bytes.
  - unfold ProgramHeader_bytes, ProgramHeader_wf. encoding_from.
  - unfold ProgramHeader_wf. encoding_wf.
Defined.

#[export] Instance Encoding_HeaderIdent : PodEncoding HeaderIdent.
Proof.
  refine {| to_bytes := HeaderIdent_bytes; pod_wf := HeaderIdent_wf |}.
  - done.
  - by exists 0.
  - intros i Hi. unfold HeaderIdent_wf, HeaderIdent_bytes in *. pod_wf_fields.
    rewrite !length_app, !le_split_length. cbn. lia.
  - intros i Hi. unfold HeaderIdent_wf, HeaderIdent_bytes in *. pod_wf_fields.
    repeat (apply Forall_app; split); try apply le_split_bytes; done.
  - unfold HeaderIdent_wf, HeaderIdent_bytes. intros [m c d v o a pad] Hi.
    cbn -[le_split field uint_range take drop] in *. pod_wf_fields. f_equal.
    2-6: rewrite field_skip by (cbn in *; lia); replace (length m) with 4%nat by done; cbn [Nat.sub]; pod_field.
    + by rewrite take_app_length'.
    + rewrite !app_assoc, drop_app_length'; [by apply take_ge; lia|]. rewrite !length_app, !le_split_length. lia.
  - intros bs Hb Hl. unfold HeaderIdent_wf. cbn -[field uint_range take drop] in *. rewrite !length_take, length_drop.
    split; [lia|]. split; [lia|]. split; [by apply Forall_take|]. split; [by apply Forall_take, Forall_drop|].
    encoding_wf_fields.
Defined.

(** ** Reading the section table *)

(** A section table that can be read without panicking: entries of at least a
    header's size, aligned, whose end does not overflow. The table may be cut
    off by the end of the file. *)
Record table_ok (file : ElfFile) : Prop := {
  tbl_count : 0 <= sh_count (body (header file)) <= SHN_LORESERVE;
  tbl_entry : 64 <= sh_entry_size (body (header file));
  tbl_offset : 0 <= sh_offset (body (header file));
  tbl_addr : slice_addr (input file) mod 8 = 0;
  tbl_offset_aligned : sh_offset (body (header file)) mod 8 = 0;
  tbl_entry_aligned : sh_entry_size (body (header file)) mod 8 = 0;
  tbl_end : sh_offset (body (header file)) + sh_count (body (header file)) * sh_entry_size (body (header file)) < 2 ^ 64
}.

Definition section_start (file : ElfFile) (i : Z) : Z :=
  sh_offset (body (header file)) + i * sh_entry_size (body (header file)).

(** The header that occupies entry [i] of the table. *)
Definition section_at (file : ElfFile) (i : Z) : SectionHeader :=
  from_bytes (take 64 (drop (Z.to_nat (section_start file i)) (slice_bytes (input file)))).

(** The number of entries that lie within the file. *)
Definition section_num (file : ElfFile) : Z :=
  Z.max 0 (Z.min (sh_count (body (header file)))
    ((slice_len (input file) - sh_offset (body (header file))) / sh_entry_size (body (header file)))).

Definition section_headers (file : ElfFile) : list SectionHeader := section_at file <$> seqZ 0 (section_num file).

Lemma section_num_fits file i : table_ok file -> 0 <= i < sh_count (body (header file)) ->
  i < section_num file <-> section_start file (i + 1) <= slice_len (input file).
Proof.
  intros [Hc He Ho _ _ _ _] Hi. unfold section_num, section_start.
  set (e := sh_entry_size _) in *. set (o := sh_offset _) in *. set (l := slice_len _) in *.
  pose proof (Z.div_mod (l - o) e). pose proof (Z.mod_pos_bound (l - o) e). split; intros H1; [nia|].
  assert (i + 1 <= (l - o) / e); [apply Z.div_le_lower_bound; lia|lia].
Qed.

Lemma section_num_range file : table_ok file -> 0 <= section_num file <= sh_count (body (header file)).
Proof. intros [Hc _ _ _ _ _ _]. unfold section_num. lia. Qed.

Lemma get_section_header_spec file i : table_ok file -> 0 <= i < sh_count (body (header file)) ->
  get_section_header file i = Done (if i <? section_num file then Ok (section_at file i)
                                    else Err "File is shorter than section header offset"%string).
Proof.
  intros Hok Hi. pose proof (section_num_fits file i Hok Hi) as Hfit. destruct Hok as [Hc He Ho Ha Hoa Hea Hend].
  unfold get_section_header, SectionHeader_parse. rewrite (proj2 (Z.ltb_lt i SHN_LORESERVE)) by lia. cbn [rust_assert mbind exec_bind].
  unfold section_at, section_start in *.
  set (e := sh_entry_size _) in *. set (o := sh_offset _) in *. set (l := slice_len _) in *.
  assert (0 <= i * e /\ i * e + e <= sh_count (body (header file)) * e) as Hie by nia.
  rewrite (wrap_small 64 (i * e)), (wrap_small 64 (i * e + o)), (wrap_small 64 (i * e + o + e)) by (unfold uint_range; lia).
  replace (o + (i + 1) * e) with (i * e + o + e) in Hfit by lia.
  destruct (i <? section_num file) eqn:E; bool_hyps.
  - rewrite (proj2 (Z.ltb_ge l _)) by lia. rewrite slice_range_ok by (fold l; nia). cbn [mbind exec_bind].
    rewrite (pod_read_ok (T := SectionHeader)); unfold slice_len; cbn [slice_addr slice_bytes size_of align_of Pod_SectionHeader].
    + cbn [mbind exec_bind]. rewrite take_take. do 3 f_equal. f_equal; [lia|]. f_equal. lia.
    + rewrite length_take, length_drop. unfold l, slice_len in *. nia.
    + rewrite (Z.div_mod (slice_addr (input file)) 8), (Z.div_mod o 8), (Z.div_mod e 8), Ha, Hoa, Hea by lia.
      rewrite !Z.add_0_r. apply Z.mod_divide; [lia|]. exists (slice_addr (input file) / 8 + (i * (e / 8) + o / 8)). lia.
  - rewrite (proj2 (Z.ltb_lt l _)) by lia. done.
Qed.

Lemma section_iter_yields file : table_ok file -> yields (SectionIter_next file) 0 (section_headers file).
Proof.
  intros Hok. pose proof (section_num_range file Hok) as Hn. unfold section_headers.
  assert (forall m i, 0 <= i -> i + Z.of_nat m = section_num file ->
    yields (SectionIter_next file) i (section_at file <$> seqZ i (Z.of_nat m))) as Hgen.
  2:{ replace (section_num file) with (Z.of_nat (Z.to_nat (section_num file))) by lia. apply Hgen; lia. }
  induction m as [|m IH]; intros i Hi Him.
  - apply yields_nil with (if sh_count (body (header file)) <=? i then i else wrap 16 (i + 1)). unfold SectionIter_next.
    destruct (sh_count _ <=? i) eqn:E; bool_hyps; [done|].
    rewrite get_section_header_spec, (proj2 (Z.ltb_ge _ _)) by (done || lia). done.
  - rewrite (seqZ_cons i) by lia. cbn [fmap list_fmap]. apply yields_cons with (i + 1).
    + unfold SectionIter_next. rewrite (proj2 (Z.leb_gt _ _)) by lia.
      rewrite get_section_header_spec, (proj2 (Z.ltb_lt _ _)) by (done || lia). cbn. do 2 f_equal.
      destruct Hok as [Hc _ _ _ _ _ _]. unfold SHN_LORESERVE in Hc. apply wrap_small. unfold uint_range. lia.
    + replace (Z.succ i) with (i + 1) by lia. replace (Z.pred (Z.of_nat (S m))) with (Z.of_nat m) by lia. apply IH; lia.
Qed.

Lemma section_headers_length file : table_ok file -> (length (section_headers file) < section_fuel file)%nat.
Proof.
  intros Hok. pose proof (section_num_range file Hok). unfold section_headers, section_fuel.
  rewrite length_fmap, length_seqZ. lia.
Qed.

Lemma section_for_list {S R} file (f : SectionHeader -> S -> exec (S + R)) s : table_ok file ->
  section_for file f s = for_ret (section_headers file) f s.
Proof.
  intros Hok. unfold section_for. rewrite (iter_loop_yields _ f _ _ (section_iter_yields file Hok)) by by apply section_headers_length.
  by destruct (for_ret (section_headers file) f s).
Qed.

Lemma section_for_enum_list {S R} file (f : Z * SectionHeader -> S -> exec (S + R)) s : table_ok file ->
  section_for_enum file f s = for_ret (zip (seqZ 0 (Z.of_nat (length (section_headers file)))) (section_headers file)) f s.
Proof.
  intros Hok. unfold section_for_enum.
  rewrite (iter_loop_yields _ f _ _ (yields_enumerate _ _ _ (section_iter_yields file Hok) 0)).
  - by destruct (for_ret _ f s).
  - rewrite length_zip_with, length_seqZ. pose proof (section_headers_length file Hok). lia.
Qed.

(** A search that decides every element by [p] returns the first that
    satisfies it. *)
Lemma for_ret_find {A} (p : A -> bool) (f : A -> unit -> exec (unit + A)) xs :
  (forall x, x ∈ xs -> f x tt = Done (if p x then inr x else inl tt)) ->
  found <$> for_ret xs f tt = Done (snd <$> list_find (fun x => p x = true) xs).
Proof.
  induction xs as [|x xs IH]; intros Hf; [done|]. cbn [for_ret list_find]. rewrite Hf by left. cbn [mbind exec_bind].
  destruct (p x) eqn:E.
  - rewrite decide_True by done. done.
  - rewrite decide_False by done. rewrite IH by (intros; apply Hf; by right).
    f_equal. by destruct (list_find _ xs) as [[??]|].
Qed.

(** The table is read in order up to the first entry that the file cuts off;
    where it lies within the file that is every entry. *)
Theorem section_iter_spec {S R} file (f : SectionHeader -> S -> exec (S + R)) s : table_ok file ->
  section_for file f s = for_ret (section_at file <$> seqZ 0 (section_num file)) f s /\
  (section_start file (sh_count (body (header file))) <= slice_len (input file) -> section_num file = sh_count (body (header file))).
Proof.
  intros Hok. split; [by apply section_for_list|]. intros Hfit. pose proof (section_num_range file Hok) as Hr.
  destruct (Z.eq_dec (sh_count (body (header file))) 0) as [E|E]; [lia|].
  destruct (section_num_fits file (sh_count (body (header file)) - 1) Hok ltac:(lia)) as [_ H1].
  replace (sh_count (body (header file)) - 1 + 1) with (sh_count (body (header file))) in H1 by lia.
  specialize (H1 Hfit). lia.
Qed.

Definition section_measure (file : ElfFile) (it : Z) : nat :=
  if it <? 0 then S (Z.to_nat (sh_count (body (header file)))) else Z.to_nat (sh_count (body (header file)) - it).

Lemma section_measure_0 file : (section_measure file 0 < section_fuel file)%nat.
Proof. unfold section_measure, section_fuel. change (0 <? 0) with false. cbv iota. lia. Qed.

Lemma SectionIter_measure file : 0 <= sh_count (body (header file)) < 2 ^ 16 ->
  forall it a it', SectionIter_next file it = Done (Some a, it') -> (section_measure file it' < section_measure file it)%nat.
Proof.
  intros Hc it a it' H. unfold SectionIter_next in H. case_if_in H; [done|]. exec_inv H. injection H as _ <-.
  pose proof (wrap_range 16 (it + 1) ltac:(lia)) as Hw. unfold uint_range in Hw. unfold section_measure.
  rewrite (proj2 (Z.ltb_ge (wrap 16 (it + 1)) 0)) by lia. destruct (it <? 0) eqn:E0; bool_hyps; [lia|].
  rewrite wrap_small by (unfold uint_range; lia). lia.
Qed.

(** Every loop over the sections of any file, well formed or not, ends: the
    index grows with each section up to the count of the header. *)
Theorem section_loops_end {S R} file (f : SectionHeader -> S -> exec (S + R)) (g : Z * SectionHeader -> S -> exec (S + R)) s :
  0 <= sh_count (body (header file)) < 2 ^ 16 ->
  iter_loop (SectionIter_next file) f (section_fuel file) 0 s <> Done None /\
  iter_loop (enumerate_next (SectionIter_next file)) g (section_fuel file) (0, 0) s <> Done None.
Proof.
  intros Hc. pose proof (SectionIter_measure file Hc) as Hdec. split.
  - apply (iter_loop_ends _ _ (section_measure file)); [done|]. apply section_measure_0.
  - apply (iter_loop_ends _ _ (fun it => section_measure file it.1)); [|apply section_measure_0].
    intros [it i] a [it' i'] H. unfold enumerate_next in H. cbn in *. exec_inv H. destruct x as [[?|] ?]; [|done].
    injection H as <- <- <-. by apply Hdec in E.
Qed.

(** [find_section_by_name] returns the first section with that name, as long
    as the names of all sections can be read. *)
Theorem find_section_by_name_spec file name (names : SectionHeader -> result (list Z) string) : table_ok file ->
  (forall h, h ∈ section_headers file -> SectionHeader_get_name h file = Done (names h)) ->
  exists o, find_section_by_name file name = Done o /\
    match o with
    | Some h => exists i, section_headers file !! i = Some h /\ names h = Ok name /\
        forall j h', (j < i)%nat -> section_headers file !! j = Some h' -> names h' <> Ok name
    | None => forall h, h ∈ section_headers file -> names h <> Ok name
    end.
Proof.
  intros Hok Hn. unfold find_section_by_name. rewrite section_for_list by done.
  pose (p := fun h => match names h with Ok n => bool_decide (n = name) | Err _ => false end).
  assert (forall h, p h = true <-> names h = Ok name) as Hp.
  { intros h. unfold p. destruct (names h) as [n|e]; [|done]. rewrite bool_decide_eq_true. split; congruence. }
  rewrite (for_ret_find p).
  2:{ intros h Hh. rewrite Hn by done. unfold p. cbn. destruct (names h); [by case_bool_decide|done]. }
  eexists. split; [done|]. destruct (list_find _ _) as [[i h]|] eqn:E; cbn.
  - apply list_find_Some in E as (E1 & E2 & E3). exists i. split; [done|]. split; [by apply Hp|].
    intros j h' Hj Hj'. rewrite <-Hp. by apply (E3 j h').
  - intros h Hh. rewrite <-Hp. apply list_find_None in E. rewrite Forall_forall in E. by apply E, list_elem_of_In.
Qed.

(** ** Files as they are written *)

Definition elf_image (i : HeaderIdent) (b : HeaderBody) (blob : list Z) (hs : list SectionHeader) : list Z :=
  to_bytes i ++ to_bytes b ++ blob ++ encode_array hs.

Lemma Header_parse_encoded addr i b rest : addr mod 8 = 0 -> pod_wf i -> pod_wf b -> magic i = MAGIC_NUM -> class i = 2 ->
  Header_parse (mkSlice addr (to_bytes i ++ to_bytes b ++ rest)) = Done (Ok (mkHeader i b)).
Proof.
  intros Ha Hi Hb Hm Hc. pose proof (to_bytes_length i Hi) as Li. pose proof (to_bytes_length b Hb) as Lb.
  change (size_of HeaderIdent) with 16 in Li. change (size_of HeaderBody) with 48 in Lb.
  assert (length (to_bytes i) = 16%nat /\ length (to_bytes b) = 48%nat) as [Li' Lb'] by lia.
  unfold Header_parse, slice_to, HEADER_IDENT_SIZE, HEADER_BODY_SIZE, slice_len.
  change (size_of HeaderIdent) with 16. change (size_of HeaderBody) with 48. cbn [slice_bytes].
  rewrite !length_app, !(proj2 (Z.ltb_ge _ _)) by lia.
  rewrite (slice_range_ok _ 0 16) by (unfold slice_len; cbn [slice_bytes]; rewrite ?length_app; lia).
  cbn [slice_addr slice_bytes mbind exec_bind]. change (Z.to_nat 0) with O. rewrite drop_0, take_app_length' by (rewrite Li'; done). rewrite Z.add_0_r.
  rewrite <-(app_nil_r (to_bytes i)) at 1. rewrite pod_read_encoded by (done || apply Z.mod_1_r). cbn [mbind exec_bind].
  rewrite bool_decide_true, Hc by done. cbn [negb Z.eqb Pos.eqb].
  rewrite (slice_range_ok _ 16) by (unfold slice_len; cbn [slice_bytes]; rewrite ?length_app; lia).
  cbn [slice_addr slice_bytes mbind exec_bind]. rewrite drop_app_length' by (rewrite Li'; done). rewrite take_app_length' by (rewrite Lb'; done).
  rewrite <-(app_nil_r (to_bytes b)) at 1. rewrite pod_read_encoded; [done|done|].
  change (align_of HeaderBody) with 8. rewrite Zplus_mod, Ha. done.
Qed.

Ltac read_wf :=
  match goal with
  | H : pod_read _ ?s = Done ?x |- pod_wf ?x => apply (pod_read_wf s x); [eauto using slice_range_bytes|exact H]
  end.

Lemma parsed_header_wf bytes h : is_bytes (slice_bytes bytes) -> Header_parse bytes = Done (Ok h) ->
  pod_wf (ident h) /\ pod_wf (body h).
Proof.
  intros Hb H. unfold Header_parse, slice_to in H. do 2 (case_if_in H; [done|]). exec_inv H. exec_inv H.
  do 2 (case_if_in H; [done|]). exec_inv H. exec_inv H. injection H as <-. cbn [ident body].
  split; read_wf.
Qed.

Lemma get_section_header_wf file i h : is_bytes (slice_bytes (input file)) ->
  get_section_header file i = Done (Ok h) -> pod_wf h.
Proof.
  intros Hb H. unfold get_section_header, SectionHeader_parse in H. exec_inv H. case_if_in H; [done|].
  exec_inv H. exec_inv H. injection H as <-. read_wf.
Qed.

Lemma raw_data_bytes h file s : is_bytes (slice_bytes (input file)) -> raw_data h file = Done s -> is_bytes (slice_bytes s).
Proof.
  intros Hb H. unfold raw_data in H. destruct (SectionHeader_get_type h); [|done]. exec_inv H. by eapply slice_range_bytes.
Qed.

Lemma get_symbol_table_wf file syms : is_bytes (slice_bytes (input file)) ->
  get_symbol_table file = Done (Ok syms) -> Forall pod_wf syms.
Proof.
  intros Hb H. unfold get_symbol_table in H. exec_inv H. exec_inv H. destruct x0 as [[]|]; try done. simplify_eq.
  destruct x as [h|]; [|done]. cbn in E0. unfold get_data in E0. destruct (SectionHeader_get_type h) as [t|]; [|done].
  cbn [try_bind mbind exec_bind] in E0. destruct t; exec_cases E0; simplify_eq. eauto using read_array_wf, raw_data_bytes.
Qed.


(** Parsing an aligned file never panics; it is accepted exactly when it is
    long enough, starts with the magic number and has class 2. *)
Theorem Header_parse_total bytes : slice_addr bytes mod 8 = 0 ->
  exists r, Header_parse bytes = Done r /\
    ((exists h, r = Ok h) <->
     64 <= slice_len bytes /\ take 4 (slice_bytes bytes) = MAGIC_NUM /\ field 1 4 (slice_bytes bytes) = 2).
Proof.
  intros Ha. unfold Header_parse, slice_to, HEADER_IDENT_SIZE, HEADER_BODY_SIZE.
  change (size_of HeaderIdent) with 16. change (size_of HeaderBody) with 48.
  case_if; [eexists; split; [done|]; split; [intros [? [=]]|lia]|].
  case_if; [eexists; split; [done|]; split; [intros [? [=]]|lia]|].
  rewrite (slice_range_ok _ 0 16) by lia. cbn [mbind exec_bind].
  rewrite (pod_read_ok (T := HeaderIdent)); [|unfold slice_len in *; cbn; rewrite length_take, length_drop; cbn; lia|apply Z.mod_1_r].
  cbn -[slice_range take drop field]. rewrite drop_0, !take_take. change (4 `min` (16 `min` 16))%nat with 4%nat.
  replace (field 1 4 (take _ (slice_bytes bytes))) with (field 1 4 (slice_bytes bytes)).
  2:{ unfold field. rewrite skipn_firstn_comm, take_take. done. }
  case_bool_decide; cbn [negb]; [|eexists; split; [done|]; split; [intros [? [=]]|tauto]].
  destruct (field 1 4 _ =? 2) eqn:E; bool_hyps; cbn [negb]; [|eexists; split; [done|]; split; [intros [? [=]]|tauto]].
  rewrite (slice_range_ok _ 16) by lia. cbn [mbind exec_bind].
  rewrite (pod_read_ok (T := HeaderBody)); [| |cbn [slice_addr]; change (align_of HeaderBody) with 8; rewrite Zplus_mod, Ha; done].
  - eexists. split; [done|]. split; [intros _; split; [lia|done]|by eexists].
  - unfold slice_len in *. cbn [slice_bytes]. rewrite length_take, length_drop. change (size_of HeaderBody) with 48. lia.
Qed.

(** The table of an image is where its header says. *)
Lemma image_table addr i b blob hs : addr mod 8 = 0 -> pod_wf i -> pod_wf b -> Forall pod_wf hs ->
  sh_offset b = 64 + Z.of_nat (length blob) -> Z.of_nat (length blob) mod 8 = 0 ->
  sh_entry_size b = 64 -> sh_count b = Z.of_nat (length hs) -> sh_count b <= SHN_LORESERVE ->
  Z.of_nat (length blob) < 2 ^ 32 ->
  let file := mkElf (mkSlice addr (elf_image i b blob hs)) (mkHeader i b) in
  table_ok file /\ section_headers file = hs.
Proof.
  intros Ha Hi Hb Hhs Ho Hal He Hc Hmax Hblob file.
  assert (table_ok file) as Hok.
  { unfold SHN_LORESERVE in *. unfold file. split; cbn [header body input slice_addr]; rewrite ?He, ?Ho; try done; try lia.
    - unfold SHN_LORESERVE. lia.
    - rewrite Zplus_mod, Hal. done. }
  split; [done|]. pose proof (to_bytes_length i Hi) as Li. pose proof (to_bytes_length b Hb) as Lb.
  change (size_of HeaderIdent) with 16 in Li. change (size_of HeaderBody) with 48 in Lb.
  pose proof (encode_array_length hs Hhs) as Lh. change (size_of SectionHeader) with 64 in Lh.
  assert (section_num file = Z.of_nat (length hs)) as Hnum.
  { unfold section_num, slice_len, file, elf_image. cbn [header body input slice_bytes]. rewrite !length_app, He, Ho, Hc.
    replace (_ - _) with (Z.of_nat (length hs) * 64) by lia. rewrite Z.div_mul by lia. lia. }
  unfold section_headers. rewrite Hnum. apply list_eq. intros k. rewrite list_lookup_fmap.
  destruct (decide (k < length hs)%nat) as [Hk|Hk].
  - destruct (lookup_lt_is_Some_2 hs k Hk) as [h Eh]. rewrite Eh, lookup_seqZ_lt by lia. cbn [fmap option_fmap option_map]. f_equal.
    rewrite <-(encode_array_lookup hs k h [] Hhs Eh). unfold section_at, section_start, file, elf_image.
    cbn [header body input slice_bytes]. rewrite He, Ho. change (Z.to_nat (size_of SectionHeader)) with 64%nat. do 2 f_equal.
    rewrite app_nil_r, (app_assoc (to_bytes i)), (app_assoc (_ ++ _)), drop_app_ge by (rewrite !length_app; lia). f_equal.
    rewrite !length_app. lia.
  - rewrite lookup_seqZ_ge, lookup_ge_None_2 by lia. done.
Qed.


(** ** Examples *)

Definition example_ident : HeaderIdent := mkIdent MAGIC_NUM 2 1 1 0 0 (replicate 7 0).

(** [n] zero bytes up to a multiple of eight. *)
Definition pad8 (bs : list Z) : list Z := bs ++ replicate (Z.to_nat ((- Z.of_nat (length bs)) mod 8)) 0.

Definition example_names : list Z := 0 :: str ".text" ++ 0 :: str ".shstrtab" ++ [0].
Definition example_blob : list Z := pad8 (example_names ++ [1; 2; 3]).
Definition example_headers : list SectionHeader :=
  [mkSectionHeader 0 0 0 0 0 0 0 0 0 0; mkSectionHeader 1 1 6 0 81 3 0 0 1 0; mkSectionHeader 7 3 0 0 64 17 0 0 1 0].
Definition example_body : HeaderBody := mkBody 1 62 1 0 0 (64 + Z.of_nat (length example_blob)) 0 64 0 0 64 3 2.
Definition example_file : ElfFile :=
  mkElf (mkSlice 4096 (elf_image example_ident example_body example_blob example_headers)) (mkHeader example_ident example_body).

Lemma example_headers_wf : Forall pod_wf example_headers.
Proof. repeat constructor; cbn; unfold uint_range; lia. Qed.

Lemma example_body_wf : pod_wf example_body.
Proof. repeat constructor; cbn; unfold uint_range; lia. Qed.

Lemma example_ident_wf : pod_wf example_ident.
Proof. cbn. unfold HeaderIdent_wf, is_bytes. split_and!; repeat constructor; cbn; unfold uint_range; lia. Qed.

Lemma example_table : table_ok example_file /\ section_headers example_file = example_headers.
Proof.
  apply image_table; auto using example_ident_wf, example_body_wf, example_headers_wf; try reflexivity; cbn; unfold SHN_LORESERVE; lia.
Qed.

Definition example_count (h : SectionHeader) (n : Z) : exec (Z + unit) := Done (inl (n + 1)).
Definition example_names_of (h : SectionHeader) : result (list Z) string :=
  match sh_name h with
  | 1 => Ok (str ".text")
  | 7 => Ok (str ".shstrtab")
  | _ => Err "Attempted to get name of null section"
  end%string.

Lemma section_iter_spec_witness :
  section_for example_file example_count 0 = for_ret (section_at example_file <$> seqZ 0 (section_num example_file)) example_count 0 /\
  section_for example_file example_count 0 = Done (inl 3).
Proof.
  split; [apply (section_iter_spec example_file example_count 0), example_table|vm_compute; reflexivity].
Defined.

Lemma section_loops_end_witness :
  iter_loop (SectionIter_next example_file) example_count (section_fuel example_file) 0 0 <> Done None /\
  iter_loop (enumerate_next (SectionIter_next example_file)) (fun p => example_count p.2) (section_fuel example_file) (0, 0) 0 <> Done None.
Proof. apply (section_loops_end example_file). cbn. lia. Defined.

Lemma find_section_by_name_spec_witness :
  exists o, find_section_by_name example_file (str ".shstrtab") = Done o /\ o = Some (mkSectionHeader 7 3 0 0 64 17 0 0 1 0).
Proof.
  destruct (find_section_by_name_spec example_file (str ".shstrtab") example_names_of (proj1 example_table)) as (o & E & Ho).
  - rewrite (proj2 example_table). unfold example_headers. intros h Hh.
    repeat (apply elem_of_cons in Hh as [->|Hh]; [vm_compute; reflexivity|]). by apply elem_of_nil in Hh.
  - exists o. split; [done|]. vm_compute in E. by simplify_eq.
Defined.


Lemma Header_parse_total_witness : exists r, Header_parse (mkSlice 4096 [1; 2; 3]) = Done r /\ r = Err "File is shorter than ELF ident"%string.
Proof.
  destruct (Header_parse_total (mkSlice 4096 [1; 2; 3]) eq_refl) as (r & E & _). exists r. split; [done|].
  vm_compute in E. by simplify_eq.
Defined.

