(* ===== verification/Symbols.v ===== *)
(** * Crate names in symbol names (kernel/src/loader.rs)

    A [str] is its bytes; the operations of [str] that the loader uses, then
    [crate_names_in_symbol]. Whether a character beyond ASCII is alphanumeric
    is the parameter [unicode_alphanumeric]. *)

From Stdlib Require Import Lia.
From stdpp Require Import base numbers option strings tactics list.
From S2P Require Import Prelude Pod.

Local Open Scope nat_scope.

(** ** Operations of [str] *)

Definition is_char_boundary (s : list Z) (i : nat) : bool :=
  match s !! i with
  | Some b => (i =? 0) || negb (in_range 0x80 0xBF b)
  | None => i =? length s
  end.

(** [s.get(start..end)] and [s.get(start..)]. *)
Definition str_get (s : list Z) (start end_ : nat) : option (list Z) :=
  if (start <=? end_) && (end_ <=? length s) && is_char_boundary s start && is_char_boundary s end_
  then Some (take (end_ - start) (drop start s)) else None.
Definition str_get_from (s : list Z) (start : nat) : option (list Z) := str_get s start (length s).

Definition starts_with (s p : list Z) : bool := bool_decide (take (length p) s = p).
Definition ends_with (s p : list Z) : bool :=
  (length p <=? length s) && bool_decide (drop (length s - length p) s = p).
Definition strip_prefix (s p : list Z) : option (list Z) :=
  if starts_with s p then Some (drop (length p) s) else None.

(** [s.find(p)]. *)
Fixpoint str_find (s p : list Z) : option nat :=
  if starts_with s p then Some 0
  else match s with
  | [] => None
  | _ :: s => S <$> str_find s p
  end.

Definition contains (s p : list Z) : bool := match str_find s p with Some _ => true | None => false end.

(** The characters of a string with their byte offsets: a byte and the
    continuation bytes that follow it. *)
Fixpoint char_indices (i : nat) (s : list Z) : list (nat * list Z) :=
  match s with
  | [] => []
  | b :: s =>
      match char_indices (S i) s with
      | (j, c :: cs) :: r => if in_range 0x80 0xBF c then (i, b :: c :: cs) :: r else (i, [b]) :: (j, c :: cs) :: r
      | r => (i, [b]) :: r
      end
  end.

Definition ascii_alphanumeric (b : Z) : bool := in_range 48 57 b || in_range 65 90 b || in_range 97 122 b.

Section symbols.
Context (unicode_alphanumeric : list Z -> bool).

(** [ch.is_alphanumeric() || ch == '_']. *)
Definition is_name_char (c : list Z) : bool :=
  match c with
  | [b] => ascii_alphanumeric b || (b =? 95)%Z
  | _ => unicode_alphanumeric c
  end.

(** [s.rfind(|ch| !(ch.is_alphanumeric() || ch == '_'))]. *)
Definition rfind_non_name (s : list Z) : option nat :=
  fst <$> head (rev (filter (fun c => is_name_char c.2 = false) (char_indices 0 s))).

(** The beginning of the crate name that ends where [substring] ends. *)
Definition name_start (start : nat) (substring : option (list Z)) : nat :=
  match substring ≫= rfind_non_name with
  | Some start_index => start + start_index + 1
  | None => start
  end.

Definition push_range (ranges : list (nat * nat)) (start end_ : nat) : list (nat * nat) :=
  if start =? end_ then ranges else ranges ++ [(start, end_)].

(** [symbol_name.get(start..).and_then(|s| s.find(p)).map(|i| start + i)]. *)
Definition find_from (symbol_name : list Z) (start : nat) (p : list Z) : option nat :=
  (fun i => start + i) <$> (str_get_from symbol_name start ≫= fun s => str_find s p).

(** The body of the [while let] loop. *)
Definition ranges_step (symbol_name : list Z) (start : nat) (ranges : list (nat * nat)) : list (nat * nat) * option nat :=
  let ranges :=
    match find_from symbol_name start (str "::") with
    | Some end_ =>
        let substring := str_get symbol_name start end_ in
        match substring with
        | Some s => if negb (contains s (str " as ")) then push_range ranges (name_start start substring) end_ else ranges
        | None => ranges
        end
    | None => ranges
    end in
  let ranges :=
    match find_from symbol_name start (str "[") with
    | Some end_ =>
        let substring := str_get symbol_name start end_ in
        match substring with
        | Some _ => push_range ranges (name_start start substring) end_
        | None => ranges
        end
    | None => ranges
    end in
  (ranges, (fun i => i + length (str " as ")) <$> find_from symbol_name start (str " as ")).

(** The loop; [None] means that the fuel ran out. *)
Fixpoint ranges_loop (fuel : nat) (symbol_name : list Z) (start_bound : option nat) (ranges : list (nat * nat))
  : option (list (nat * nat)) :=
  match start_bound with
  | None => Some ranges
  | Some start =>
      match fuel with
      | O => None
      | S fuel =>
          let '(ranges, start_bound) := ranges_step symbol_name start ranges in
          ranges_loop fuel symbol_name start_bound ranges
      end
  end.

Definition crate_name_ranges_in_symbol (symbol_name : list Z) : list (nat * nat) :=
  default [] (ranges_loop (S (length symbol_name)) symbol_name (Some 0) []).

(** [Vec::dedup]. *)
Fixpoint dedup (l : list (nat * nat)) : list (nat * nat) :=
  match l with
  | x :: ((y :: _) as l') => if decide (x = y) then dedup l' else x :: dedup l'
  | _ => l
  end.

Definition crate_names_in_symbol (symbol_name : list Z) : list (list Z) :=
  omap (fun r => str_get symbol_name r.1 r.2) (dedup (crate_name_ranges_in_symbol symbol_name)).

(** ** Lemmas *)

Lemma starts_with_spec s p : starts_with s p = true <-> exists r, s = p ++ r.
Proof.
  unfold starts_with. rewrite bool_decide_eq_true. split.
  - intros H. exists (drop (length p) s). by rewrite <-H at 1; rewrite take_drop.
  - intros [r ->]. by rewrite take_app_length.
Qed.

Lemma str_find_Some s p i : str_find s p = Some i -> exists a b, s = a ++ p ++ b /\ length a = i.
Proof.
  revert i. induction s as [|x s IH]; intros i; cbn [str_find]; destruct (starts_with _ p) eqn:E; intros H; simplify_eq.
  - apply starts_with_spec in E as [r ->]. by exists [], r.
  - apply starts_with_spec in E as [r ->]. by exists [], r.
  - destruct (str_find s p) as [j|] eqn:Ej; [|done]. cbn in H. simplify_eq.
    destruct (IH j eq_refl) as (a & b & -> & <-). by exists (x :: a), b.
Qed.

Lemma str_get_Some s a b r : str_get s a b = Some r -> a <= b <= length s /\ r = take (b - a) (drop a s).
Proof.
  unfold str_get. destruct (_ && _) eqn:E; [|done]. intros [= <-]. apply andb_prop in E as [E _]. apply andb_prop in E as [E _].
  apply andb_prop in E as [E1 E2]. apply Nat.leb_le in E1, E2. done.
Qed.

Lemma find_from_Some s start p e : find_from s start p = Some e ->
  start <= e /\ exists b, drop e s = p ++ b.
Proof.
  unfold find_from. intros H. apply fmap_Some in H as (i & H & ->). apply bind_Some in H as (r & Hr & Hi).
  apply str_get_Some in Hr as (Hle & ->). apply str_find_Some in Hi as (a & b & Hab & <-). split; [lia|].
  exists b. rewrite take_ge in Hab by (rewrite length_drop; lia).
  rewrite <-drop_drop, Hab, drop_app_length. done.
Qed.

(** A loop turn moves the start forward, and not past the end. *)
Lemma ranges_step_next s start ranges ranges' start' :
  ranges_step s start ranges = (ranges', Some start') -> start < start' <= length s.
Proof.
  unfold ranges_step. intros [= _ H]. destruct (find_from s start (str " as ")) as [i|] eqn:E; [|done]. cbn in H. simplify_eq.
  apply find_from_Some in E as (Hi & b & Hb). change (length (str " as ")) with 4.
  assert (length (drop i s) = 4 + length b) as Hl by (rewrite Hb; done). rewrite length_drop in Hl. lia.
Qed.

Lemma ranges_loop_ends fuel s : forall start_bound ranges,
  (forall start, start_bound = Some start -> length s < start + fuel) ->
  ranges_loop fuel s start_bound ranges <> None \/ exists start, start_bound = Some start /\ length s < start.
Proof.
  induction fuel as [|fuel IH]; intros [start|] ranges Hf; cbn [ranges_loop]; try (left; done).
  - right. exists start. specialize (Hf start eq_refl). split; [done|lia].
  - specialize (Hf start eq_refl). destruct (ranges_step s start ranges) as [ranges' [start'|]] eqn:E.
    + apply ranges_step_next in E. destruct (IH (Some start') ranges') as [H|(? & [= <-] & H)]; [intros ? [= <-]; lia|by left|lia].
    + left. by destruct fuel.
Qed.

(** The search for crate names ends within its fuel, for every symbol. *)
Theorem crate_name_search_ends symbol_name : ranges_loop (S (length symbol_name)) symbol_name (Some 0) [] <> None.
Proof.
  destruct (ranges_loop_ends (S (length symbol_name)) symbol_name (Some 0) []) as [H|(? & [= <-] & H)]; [|done|lia].
  intros ? [= <-]. lia.
Qed.

Lemma last_filter {A} (P : A -> Prop) `{!forall x, Decision (P x)} (l : list A) :
  match head (rev (filter P l)) with
  | Some x => exists l1 l2, l = l1 ++ x :: l2 /\ P x /\ Forall (fun y => ~ P y) l2
  | None => Forall (fun y => ~ P y) l
  end.
Proof.
  induction l as [|y l IH] using rev_ind; [constructor|]. rewrite filter_app, rev_app_distr.
  destruct (decide (P y)) as [Hy|Hy].
  - rewrite filter_cons_True by done. cbn. by exists l, [].
  - rewrite filter_cons_False by done. change (filter P []) with (@nil A). cbn [rev app].
    destruct (head _) as [x|].
    + destruct IH as (l1 & l2 & -> & Hx & Hl2). exists l1, (l2 ++ [y]). rewrite <-app_assoc.
      split; [done|]. split; [done|]. apply Forall_app. split; [done|by constructor].
    + apply Forall_app. split; [done|by constructor].
Qed.

Definition ascii : list Z -> Prop := Forall (uint_range 7).
Definition name_byte (b : Z) : Prop := is_name_char [b] = true.

Lemma char_indices_ascii s : ascii s -> forall i, char_indices i s = zip (seq i (length s)) ((fun b => [b]) <$> s).
Proof.
  induction 1 as [|b s Hb Hs IH]; intros i; [done|]. cbn [char_indices length seq fmap list_fmap zip zip_with]. rewrite IH.
  destruct Hs as [|c s Hc Hs]; [done|]. cbn [length seq fmap list_fmap zip zip_with].
  unfold in_range. rewrite (proj2 (Z.leb_gt _ _)) by (unfold uint_range in Hc; lia). done.
Qed.

Lemma rfind_ascii s : ascii s ->
  match rfind_non_name s with
  | Some k => k < length s /\ Forall name_byte (drop (S k) s)
  | None => Forall name_byte s
  end.
Proof.
  intros Hs. unfold rfind_non_name.
  pose proof (last_filter (fun c => is_name_char c.2 = false) (char_indices 0 s)) as H.
  rewrite char_indices_ascii in * by done. destruct (head _) as [[k c]|]; cbn [fmap option_fmap option_map fst].
  - destruct H as (l1 & l2 & E & _ & Hl2).
    assert (length l1 < length s) as Hlt.
    { assert (length (zip (seq 0 (length s)) ((fun b => [b]) <$> s)) = length s) as Hz
        by (rewrite length_zip_with, length_seq, length_fmap; lia).
      rewrite E, length_app in Hz. cbn in Hz. lia. }
    assert (k = length l1) as ->.
    { assert ((zip (seq 0 (length s)) ((fun b => [b]) <$> s)) !! length l1 = Some (k, c)) as Hk by (rewrite E; by apply list_lookup_middle).
      apply lookup_zip_Some in Hk as [Hk _]. rewrite lookup_seq_lt in Hk by done. by simplify_eq. }
    split; [done|]. apply Forall_lookup. intros j b Hj. rewrite lookup_drop in Hj.
    rewrite Forall_lookup in Hl2. specialize (Hl2 j (length l1 + S j, [b])). unfold name_byte. destruct (is_name_char [b]) eqn:Eb; [done|].
    destruct Hl2; [|done].
    assert ((l1 ++ (length l1, c) :: l2) !! (length l1 + S j) = Some (length l1 + S j, [b])) as Hz.
    2:{ rewrite lookup_app_r in Hz by lia. by replace (length l1 + S j - length l1) with (S j) in Hz by lia. }
    rewrite <-E. apply lookup_zip_Some. replace (length l1 + S j) with (S (length l1) + j) by lia.
    assert (S (length l1) + j < length s) by by eapply lookup_lt_Some. rewrite lookup_seq_lt by done.
    split; [done|]. by rewrite list_lookup_fmap, Hj.
  - apply Forall_lookup. intros j b Hj. rewrite Forall_lookup in H. specialize (H j (j, [b])). unfold name_byte.
    destruct (is_name_char [b]) eqn:Eb; [done|]. destruct H; [|done]. apply lookup_zip_Some.
    assert (j < length s) by by eapply lookup_lt_Some. rewrite lookup_seq_lt by done. by rewrite list_lookup_fmap, Hj.
Qed.

(** A range of a crate name: not empty, made of name characters, and in
    front of a path separator or a disambiguator. *)
Definition crate_range (s : list Z) (r : nat * nat) : Prop :=
  r.1 < r.2 <= length s /\ Forall name_byte (take (r.2 - r.1) (drop r.1 s)) /\
  exists b, drop r.2 s = str "::" ++ b \/ drop r.2 s = str "[" ++ b.

Lemma push_range_ok s start e sub ranges p : ascii s -> Forall (crate_range s) ranges ->
  p = str "::" \/ p = str "[" -> find_from s start p = Some e -> str_get s start e = Some sub ->
  Forall (crate_range s) (push_range ranges (name_start start (Some sub)) e).
Proof.
  intros Hs Hr Hp Hf Hg. apply str_get_Some in Hg as (Hle & Hsub). apply find_from_Some in Hf as (Hse & b & Hb).
  unfold push_range. destruct (name_start start (Some sub) =? e) eqn:E; [done|]. apply Nat.eqb_neq in E.
  apply Forall_app. split; [done|]. constructor; [|constructor].
  assert (ascii sub) as Hasub by (subst sub; by apply Forall_take, Forall_drop).
  assert (length sub = e - start) as Hlsub by (subst sub; rewrite length_take, length_drop; lia).
  pose proof (rfind_ascii sub Hasub) as Hrf. unfold name_start in *. cbn [mbind option_bind] in *. unfold crate_range. cbn [fst snd].
  destruct (rfind_non_name sub) as [k|]; [destruct Hrf as [Hk Hrf]|];
    (split; [lia|split; [|exists b; destruct Hp as [->| ->]; auto]]).
  - replace (take _ _) with (drop (S k) sub); [done|]. subst sub. rewrite skipn_firstn_comm, drop_drop. f_equal; [lia|f_equal; lia].
  - by subst sub.
Qed.

Lemma ranges_step_ok s start ranges : ascii s -> Forall (crate_range s) ranges -> Forall (crate_range s) (ranges_step s start ranges).1.
Proof.
  intros Hs Hr. unfold ranges_step. cbn [fst].
  set (r1 := match find_from s start (str "::") with Some _ => _ | None => _ end).
  assert (Forall (crate_range s) r1) as Hr1.
  { unfold r1. destruct (find_from s start (str "::")) as [e|] eqn:E; [|done]. destruct (str_get s start e) as [sub|] eqn:Eg; [|done].
    destruct (negb _); [|done]. apply (push_range_ok s start e sub ranges (str "::")); auto. }
  clearbody r1. destruct (find_from s start (str "[")) as [e|] eqn:E; [|done].
  destruct (str_get s start e) as [sub|] eqn:Eg; [|done]. apply (push_range_ok s start e sub r1 (str "[")); auto.
Qed.

Lemma ranges_loop_ok s fuel : ascii s -> forall start_bound ranges rs,
  Forall (crate_range s) ranges -> ranges_loop fuel s start_bound ranges = Some rs -> Forall (crate_range s) rs.
Proof.
  intros Hs. induction fuel as [|fuel IH]; intros [start|] ranges rs Hr; cbn [ranges_loop]; intros H; simplify_eq; try done.
  destruct (ranges_step s start ranges) as [r' sb] eqn:E. apply (IH sb r' rs); [|done].
  pose proof (ranges_step_ok s start ranges Hs Hr) as H'. by rewrite E in H'.
Qed.

(** Every range found in a symbol of ASCII characters is a crate name: a
    non-empty run of name characters followed by [::] or [[]. *)
Theorem crate_name_ranges_sound symbol_name r : ascii symbol_name ->
  r ∈ crate_name_ranges_in_symbol symbol_name -> crate_range symbol_name r.
Proof.
  intros Hs. unfold crate_name_ranges_in_symbol. destruct (ranges_loop _ _ _ _) as [rs|] eqn:E; cbn; intros Hr.
  - apply ranges_loop_ok in E; [|done|constructor]. rewrite Forall_forall in E. by apply E.
  - by apply elem_of_nil in Hr.
Qed.
End symbols.

(** ** Examples *)

Definition no_unicode (c : list Z) : bool := false.

Example crate_names_display :
  crate_names_in_symbol no_unicode (str "<u64 as core::fmt::Display>::fmt") = [str "core"].
Proof. vm_compute. reflexivity. Qed.

Example crate_names_generic :
  crate_names_in_symbol no_unicode (str "<alloc[0123]::vec::Vec<time::Tick> as shell::Draw>::draw") = [str "alloc"; str "shell"].
Proof. vm_compute. reflexivity. Qed.

Lemma crate_name_ranges_sound_witness :
  crate_range no_unicode (str "core::fmt::Write") (0, 4).
Proof.
  apply (crate_name_ranges_sound no_unicode (str "core::fmt::Write") (0, 4)).
  - unfold ascii. apply Forall_forall. intros b Hb.
    assert (forallb (fun b => (0 <=? b)%Z && (b <? 128)%Z) (str "core::fmt::Write") = true) as Hall by (vm_compute; reflexivity).
    apply forallb_forall with (x := b) in Hall; [|by apply list_elem_of_In]. bool_hyps. unfold uint_range. lia.
  - vm_compute. left.
Defined.
