(* ===== verification/MemoryTypes.v ===== *)
(** * crates/memory-types: addresses, pages, frames and address domains

    Models [memory_types.rs] (alignment), [virtual_memory.rs] ([Address],
    [Page], [AddressDomain], the level 4 index constants) and
    [physical_memory.rs] ([Frame]). Every newtype of the crate is a record of
    one [Z] field, kept in [0, 2^64) by the theorems that need it. *)

From Stdlib Require Import Lia Btauto.
From stdpp Require Import base numbers list option tactics countable gmap.
From S2P Require Import Prelude.

Local Open Scope Z_scope.
Local Open Scope u64_scope.

(** ** Constants and alignment ([memory_types.rs]) *)

Definition KIBIBYTE : Z := 1024.
Definition MEBIBYTE : Z := 1024 * 1024.
Definition GIBIBYTE : Z := 1024 * 1024 * 1024.
Definition PAGE_SIZE : Z := 4 * KIBIBYTE.
Definition POINTER_SIZE : Z := 8.

Definition align_down (addr align : Z) : Z := Z.land addr (wnot 64 (align ⊟ 1)).

Definition align_up (addr align : Z) : Z := Z.land ((addr ⊞ align) ⊟ 1) (wnot 64 (align ⊟ 1)).

(** ** Paging constants ([paging.rs], [virtual_memory.rs]) *)

Definition PAGE_TABLE_ENTRY_SIZE : Z := 8.
Definition ENTRIES_PER_PAGE_TABLE : Z := PAGE_SIZE / PAGE_TABLE_ENTRY_SIZE.
Definition PAGE_TABLE_INDEX_WIDTH : Z := trailing_zeros 64 ENTRIES_PER_PAGE_TABLE.
Definition PAGE_TABLE_OFFSET_WIDTH : Z := trailing_zeros 64 PAGE_SIZE.
Definition L2_HUGE_PAGE_SIZE : Z :=
  ENTRIES_PER_PAGE_TABLE * ENTRIES_PER_PAGE_TABLE * PAGE_TABLE_ENTRY_SIZE.
Definition L3_HUGE_PAGE_SIZE : Z :=
  ENTRIES_PER_PAGE_TABLE * ENTRIES_PER_PAGE_TABLE * ENTRIES_PER_PAGE_TABLE * PAGE_TABLE_ENTRY_SIZE.
Definition PAGES_PER_L2_HUGE_PAGE : Z := L2_HUGE_PAGE_SIZE / PAGE_SIZE.
Definition PAGES_PER_L3_HUGE_PAGE : Z := L3_HUGE_PAGE_SIZE / PAGE_SIZE.

Definition MAX_VIRTUAL_ADDR : Z := 2 ^ 64 - 1.
Definition VIRTUAL_MEMORY_SHIFT : Z := 47.
Definition VIRTUAL_MEMORY_OFFSET : Z := wshl 64 MAX_VIRTUAL_ADDR VIRTUAL_MEMORY_SHIFT.

Definition L1_INDEX_SHIFT : Z := PAGE_TABLE_OFFSET_WIDTH + PAGE_TABLE_INDEX_WIDTH * 0.
Definition L2_INDEX_SHIFT : Z := PAGE_TABLE_OFFSET_WIDTH + PAGE_TABLE_INDEX_WIDTH * 1.
Definition L3_INDEX_SHIFT : Z := PAGE_TABLE_OFFSET_WIDTH + PAGE_TABLE_INDEX_WIDTH * 2.
Definition L4_INDEX_SHIFT : Z := PAGE_TABLE_OFFSET_WIDTH + PAGE_TABLE_INDEX_WIDTH * 3.

Definition MAX_PHYSICAL_L4_INDEX : Z := Z.shiftl 1 (VIRTUAL_MEMORY_SHIFT - L4_INDEX_SHIFT) - 1.
Definition USER_STACK_L4_INDEX : Z := 506.
Definition USER_CODE_L4_INDEX : Z := 507.
Definition USER_HEAP_L4_INDEX : Z := 508.
Definition KERNEL_HEAP_L4_INDEX : Z := 509.
Definition KERNEL_MAPPING_L4_INDEX : Z := 510.

(** ** [Address] *)

Record Address : Type := mkAddress { to_raw : Z }.

#[export] Instance Address_eq_dec : EqDecision Address.
Proof. solve_decision. Defined.
#[export] Instance Address_countable : Countable Address.
Proof. by refine (inj_countable' to_raw mkAddress _); intros []. Defined.

(** [Self(((addr << 16) as isize >> 16) as usize)]. *)
Definition Address_new (addr : Z) : Address :=
  mkAddress (wrap 64 (Z.shiftr (as_signed 64 (wshl 64 addr 16)) 16)).

Definition PHYSICAL_MAX : Address := Address_new (Z.shiftl 1 47 - 1).

Definition Address_new_unchecked (addr : Z) : Address := mkAddress addr.

Definition Address_from_table_indices (l4 l3 l2 l1 : Z) : Address :=
  Address_new
    (Z.lor (Z.lor (Z.lor (Z.lor 0 (wshl 64 l4 L4_INDEX_SHIFT)) (wshl 64 l3 L3_INDEX_SHIFT))
       (wshl 64 l2 L2_INDEX_SHIFT)) (wshl 64 l1 L1_INDEX_SHIFT)).

Definition Address_from_l4_index (l4 : Z) : Address :=
  Address_new (Z.lor 0 (wshl 64 l4 L4_INDEX_SHIFT)).

Definition is_null (a : Address) : bool := to_raw a =? 0.
Definition is_physical (a : Address) : bool := to_raw a <=? to_raw PHYSICAL_MAX.
Definition is_page_aligned (a : Address) : bool := Z.land (to_raw a) (PAGE_SIZE - 1) =? 0.
Definition page_align_down (a : Address) : Address := mkAddress (align_down (to_raw a) PAGE_SIZE).
Definition page_align_up (a : Address) : Address := mkAddress (align_up (to_raw a) PAGE_SIZE).
Definition page_offset (a : Address) : Z := to_raw a mod wshl 64 1 PAGE_TABLE_OFFSET_WIDTH.

Definition l1_index (a : Address) : Z := wshr 64 (to_raw a) L1_INDEX_SHIFT mod ENTRIES_PER_PAGE_TABLE.
Definition l2_index (a : Address) : Z := wshr 64 (to_raw a) L2_INDEX_SHIFT mod ENTRIES_PER_PAGE_TABLE.
Definition l3_index (a : Address) : Z := wshr 64 (to_raw a) L3_INDEX_SHIFT mod ENTRIES_PER_PAGE_TABLE.
Definition l4_index (a : Address) : Z := wshr 64 (to_raw a) L4_INDEX_SHIFT mod ENTRIES_PER_PAGE_TABLE.

(** [impl Add<usize>] / [impl Sub<usize>] (and the [Address] operand
    versions, which use the operand's raw value): checked, then
    canonicalised. *)
Definition Address_add (a : Address) (rhs : Z) : exec Address :=
  Address_new <$> unwrap (checked_add 64 (to_raw a) rhs).
Definition Address_sub (a : Address) (rhs : Z) : exec Address :=
  Address_new <$> unwrap (checked_sub 64 (to_raw a) rhs).

(** ** [AddressDomain] *)

Inductive AddressDomain : Type :=
  | Physical | UserStack | UserCode | UserHeap | KernelHeap | KernelMapping | Invalid.

#[export] Instance AddressDomain_eq_dec : EqDecision AddressDomain.
Proof. solve_decision. Defined.

Definition Address_domain (a : Address) : AddressDomain :=
  let i := l4_index a in
  if i <=? MAX_PHYSICAL_L4_INDEX then Physical
  else if i =? USER_STACK_L4_INDEX then UserStack
  else if i =? USER_CODE_L4_INDEX then UserCode
  else if i =? USER_HEAP_L4_INDEX then UserHeap
  else if i =? KERNEL_HEAP_L4_INDEX then KernelHeap
  else if i =? KERNEL_MAPPING_L4_INDEX then KernelMapping
  else Invalid.

Definition AddressDomain_base_addr (d : AddressDomain) : Address :=
  match d with
  | Physical => Address_from_l4_index 0
  | UserStack => Address_from_l4_index USER_STACK_L4_INDEX
  | UserCode => Address_from_l4_index USER_CODE_L4_INDEX
  | UserHeap => Address_from_l4_index USER_HEAP_L4_INDEX
  | KernelHeap => Address_from_l4_index KERNEL_HEAP_L4_INDEX
  | KernelMapping => Address_from_l4_index KERNEL_MAPPING_L4_INDEX
  | Invalid => Address_from_l4_index (MAX_PHYSICAL_L4_INDEX + 1)
  end.

(** ** [Page] *)

Record Page : Type := mkPage { page_number : Z }.

#[export] Instance Page_eq_dec : EqDecision Page.
Proof. solve_decision. Defined.

Definition Page_new (number : Z) : Page := mkPage number.
Definition Page_containing_addr (a : Address) : Page := mkPage (to_raw a / PAGE_SIZE).
Definition Page_from_table_indices (l4 l3 l2 l1 : Z) : Page :=
  Page_containing_addr (Address_from_table_indices l4 l3 l2 l1).
Definition Page_base_addr (p : Page) : Address := Address_new_unchecked (page_number p ⊠ PAGE_SIZE).
Definition Page_l1_index (p : Page) : Z := l1_index (Page_base_addr p).
Definition Page_l2_index (p : Page) : Z := l2_index (Page_base_addr p).
Definition Page_l3_index (p : Page) : Z := l3_index (Page_base_addr p).
Definition Page_l4_index (p : Page) : Z := l4_index (Page_base_addr p).
Definition Page_add (p : Page) (rhs : Z) : exec Page :=
  Page_new <$> unwrap (checked_add 64 (page_number p) rhs).
Definition Page_sub (p : Page) (rhs : Z) : exec Page :=
  Page_new <$> unwrap (checked_sub 64 (page_number p) rhs).
Definition Address_page (a : Address) : Page := Page_containing_addr a.

(** ** [Frame] ([physical_memory.rs]) *)

Record Frame : Type := mkFrame { frame_number : Z }.

#[export] Instance Frame_eq_dec : EqDecision Frame.
Proof. solve_decision. Defined.
#[export] Instance Frame_countable : Countable Frame.
Proof. by refine (inj_countable' frame_number mkFrame _); intros []. Defined.

Definition Frame_new (number : Z) : Frame := mkFrame number.

(** [assert!(addr.is_physical())]. *)
Definition Frame_containing_addr (a : Address) : exec Frame :=
  if is_physical a then Done (mkFrame (to_raw a / PAGE_SIZE)) else Panic.

Definition Frame_from_base_addr (a : Address) : exec (option Frame) :=
  if is_page_aligned a then Some <$> Frame_containing_addr a else Done None.

Definition Frame_base_addr (f : Frame) : Address := Address_new_unchecked (frame_number f ⊠ PAGE_SIZE).
Definition Address_frame (a : Address) : exec Frame := Frame_containing_addr a.

(** ** The [FrameAllocator] trait *)

(** [fn allocate_frame(&mut self) -> Option<Frame>]. *)
Class FrameAlloc (A : Type) : Type :=
  allocate_frame : A -> exec (A * option Frame).

(** What the page-table code relies on: in a state satisfying the
    implementation's invariant a call does not panic, hands out a physical
    frame of the available set and removes it, and fails only when the set is
    empty. *)
Class FrameAllocLaws (A : Type) `{FrameAlloc A} : Type := {
  alloc_inv : A -> Prop;
  avail : A -> gset Z;
  avail_physical : forall a n, alloc_inv a -> n ∈ avail a -> 0 <= n < 2 ^ 35;
  allocate_frame_spec : forall a, alloc_inv a ->
    exists a' o, allocate_frame a = Done (a', o) /\ alloc_inv a' /\
      match o with
      | Some f => frame_number f ∈ avail a /\ avail a' = avail a ∖ {[frame_number f]}
      | None => avail a = ∅ /\ a' = a
      end
}.

(** ** Lemmas: alignment *)

Lemma align_down_pow2 a k : 0 <= k < 64 -> uint_range 64 a ->
  align_down a (2 ^ k) = a - a mod 2 ^ k.
Proof.
  intros Hk Ha. unfold align_down. rewrite (wrap_small 64 (2 ^ k - 1)).
  - by rewrite land_wnot_ones by (done || lia).
  - split; [lia|]. pose proof (Z.pow_lt_mono_r 2 k 64). lia.
Qed.

Lemma align_up_pow2 a k : 0 <= k < 64 -> 0 <= a -> a + 2 ^ k - 1 < 2 ^ 64 ->
  align_up a (2 ^ k) = (a + 2 ^ k - 1) - (a + 2 ^ k - 1) mod 2 ^ k.
Proof.
  intros Hk Ha Hb. unfold align_up. rewrite wrap_sub_idemp.
  rewrite (wrap_small 64 (2 ^ k - 1)), (wrap_small 64 (a + 2 ^ k - 1)).
  - rewrite land_wnot_ones; [done|lia|]. split; lia.
  - split; lia.
  - split; [lia|]. pose proof (Z.pow_lt_mono_r 2 k 64). lia.
Qed.

Lemma align_up_bounds a k : 0 <= k < 64 -> 0 <= a -> a + 2 ^ k - 1 < 2 ^ 64 ->
  (2 ^ k | align_up a (2 ^ k)) /\ a <= align_up a (2 ^ k) < a + 2 ^ k.
Proof.
  intros Hk Ha Hb. rewrite align_up_pow2 by done. split.
  - exists ((a + 2 ^ k - 1) / 2 ^ k). pose proof (Z.div_mod (a + 2 ^ k - 1) (2 ^ k)). lia.
  - pose proof (Z.mod_pos_bound (a + 2 ^ k - 1) (2 ^ k)). lia.
Qed.

Lemma align_up_aligned a k : 0 <= k < 64 -> 0 <= a -> a + 2 ^ k - 1 < 2 ^ 64 ->
  (2 ^ k | a) -> align_up a (2 ^ k) = a.
Proof.
  intros Hk Ha Hb [q Hq]. destruct (align_up_bounds a k Hk Ha Hb) as [[r Hr] Hle].
  assert (q = r) by nia. nia.
Qed.

(** ** Lemmas: canonical addresses *)

(** x86-64 canonical form: bits 47..63 are all equal. *)
Definition canonical (a : Address) : Prop :=
  0 <= to_raw a < 2 ^ 47 \/ 2 ^ 64 - 2 ^ 47 <= to_raw a < 2 ^ 64.

Lemma Address_new_raw a :
  to_raw (Address_new a)
  = let m := a mod 2 ^ 48 in if m <? 2 ^ 47 then m else m + (2 ^ 64 - 2 ^ 48).
Proof.
  unfold Address_new, wshl, as_signed. cbn [to_raw].
  assert (wrap 64 (Z.shiftl a (16 mod 64)) = (a mod 2 ^ 48) * 2 ^ 16) as ->.
  { change (16 mod 64) with 16. rewrite Z.shiftl_mul_pow2 by lia. unfold wrap.
    change (2 ^ 64) with (2 ^ 48 * 2 ^ 16). by rewrite Z.mul_mod_distr_r by lia. }
  pose proof (Z.mod_pos_bound a (2 ^ 48)) as Hm. set (m := a mod 2 ^ 48) in *. cbv zeta.
  rewrite Z.shiftr_div_pow2 by lia. change (64 - 1) with 63.
  destruct (m <? 2 ^ 47) eqn:E; bool_hyps.
  - rewrite (proj2 (Z.ltb_lt _ _)) by lia. rewrite Z.div_mul by lia. apply wrap_small. split; lia.
  - rewrite (proj2 (Z.ltb_ge _ _)) by lia.
    replace (m * 2 ^ 16 - 2 ^ 64) with ((m - 2 ^ 48) * 2 ^ 16) by lia.
    rewrite Z.div_mul by lia. unfold wrap. symmetry. apply (Z.mod_unique _ _ (-1)); lia.
Qed.

Lemma Address_new_canonical a : canonical (Address_new a).
Proof.
  unfold canonical. rewrite Address_new_raw. cbv zeta.
  pose proof (Z.mod_pos_bound a (2 ^ 48)). case_if; lia.
Qed.

Lemma canonical_range a : canonical a -> uint_range 64 (to_raw a).
Proof. unfold canonical, uint_range. lia. Qed.

Lemma Address_new_id a : canonical (mkAddress a) -> Address_new a = mkAddress a.
Proof.
  intros Hc. destruct (Address_new a) as [r] eqn:E. f_equal. change r with (to_raw (mkAddress r)).
  rewrite <-E, Address_new_raw. cbv zeta. destruct Hc as [Hc|Hc]; cbn [to_raw] in Hc.
  - rewrite Z.mod_small by lia. rewrite (proj2 (Z.ltb_lt _ _)) by lia. done.
  - replace (a mod 2 ^ 48) with (a - (2 ^ 64 - 2 ^ 48)).
    2:{ apply (Z.mod_unique _ _ (2 ^ 16 - 1)); lia. }
    rewrite (proj2 (Z.ltb_ge _ _)) by lia. lia.
Qed.

Lemma Address_new_mod48 a : to_raw (Address_new a) mod 2 ^ 48 = a mod 2 ^ 48.
Proof.
  rewrite Address_new_raw. cbv zeta. case_if; [by rewrite Zmod_mod|].
  replace (a mod 2 ^ 48 + (2 ^ 64 - 2 ^ 48)) with (a mod 2 ^ 48 + (2 ^ 16 - 1) * 2 ^ 48) by lia.
  by rewrite Z_mod_plus_full, Zmod_mod.
Qed.

(** An address is determined by its low 48 bits. *)
Lemma canonical_mod48_inj a b : canonical a -> canonical b ->
  to_raw a mod 2 ^ 48 = to_raw b mod 2 ^ 48 -> a = b.
Proof.
  intros Ha Hb Hm. destruct a as [a], b as [b].
  rewrite <-(Address_new_id a Ha), <-(Address_new_id b Hb). cbn [to_raw] in Hm.
  pose proof (Address_new_raw a) as H1. pose proof (Address_new_raw b) as H2.
  rewrite Hm in H1. rewrite <-H2 in H1. destruct (Address_new a), (Address_new b). cbn in H1. by subst.
Qed.

Lemma PHYSICAL_MAX_raw : to_raw PHYSICAL_MAX = 2 ^ 47 - 1.
Proof. reflexivity. Qed.

Lemma is_physical_lt a : is_physical a = true <-> to_raw a < 2 ^ 47.
Proof. unfold is_physical. rewrite Z.leb_le, PHYSICAL_MAX_raw. lia. Qed.

Lemma is_page_aligned_mod a : is_page_aligned a = (to_raw a mod PAGE_SIZE =? 0).
Proof. unfold is_page_aligned. change PAGE_SIZE with (2 ^ 12). by rewrite land_ones_mod by lia. Qed.

(** ** Lemmas: table indices *)

Lemma l1_index_div a : l1_index a = (to_raw a / 2 ^ 12) mod 512.
Proof. unfold l1_index, wshr. change (L1_INDEX_SHIFT mod 64) with 12. by rewrite Z.shiftr_div_pow2 by lia. Qed.
Lemma l2_index_div a : l2_index a = (to_raw a / 2 ^ 21) mod 512.
Proof. unfold l2_index, wshr. change (L2_INDEX_SHIFT mod 64) with 21. by rewrite Z.shiftr_div_pow2 by lia. Qed.
Lemma l3_index_div a : l3_index a = (to_raw a / 2 ^ 30) mod 512.
Proof. unfold l3_index, wshr. change (L3_INDEX_SHIFT mod 64) with 30. by rewrite Z.shiftr_div_pow2 by lia. Qed.
Lemma l4_index_div a : l4_index a = (to_raw a / 2 ^ 39) mod 512.
Proof. unfold l4_index, wshr. change (L4_INDEX_SHIFT mod 64) with 39. by rewrite Z.shiftr_div_pow2 by lia. Qed.
Lemma page_offset_mod a : page_offset a = to_raw a mod PAGE_SIZE.
Proof. reflexivity. Qed.

(** The value a four-level index names, before canonicalisation. *)
Definition table_value (i4 i3 i2 i1 : Z) : Z := i4 * 2 ^ 39 + i3 * 2 ^ 30 + i2 * 2 ^ 21 + i1 * 2 ^ 12.

Definition table_index (i : Z) : Prop := 0 <= i < 512.

Lemma wshl_mul i n : table_index i -> 0 <= n <= 39 -> wshl 64 i n = i * 2 ^ n.
Proof.
  unfold table_index. intros Hi Hn. unfold wshl. rewrite (Z.mod_small n) by lia.
  rewrite Z.shiftl_mul_pow2 by lia. apply wrap_small. split; [nia|].
  pose proof (Z.pow_le_mono_r 2 n 39). nia.
Qed.

Lemma from_table_indices_value i4 i3 i2 i1 :
  table_index i4 -> table_index i3 -> table_index i2 -> table_index i1 ->
  Address_from_table_indices i4 i3 i2 i1 = Address_new (table_value i4 i3 i2 i1).
Proof.
  intros H4 H3 H2 H1. unfold Address_from_table_indices, table_value. f_equal.
  change L4_INDEX_SHIFT with 39. change L3_INDEX_SHIFT with 30.
  change L2_INDEX_SHIFT with 21. change L1_INDEX_SHIFT with 12.
  rewrite !wshl_mul by (done || lia). rewrite Z.lor_0_l. unfold table_index in *.
  assert ((i4 * 2 ^ 39) mod 2 ^ 39 = 0) by (apply Z.mod_mul; lia).
  assert ((i4 * 2 ^ 39 + i3 * 2 ^ 30) mod 2 ^ 30 = 0).
  { replace (i4 * 2 ^ 39 + i3 * 2 ^ 30) with ((i4 * 2 ^ 9 + i3) * 2 ^ 30) by lia. apply Z.mod_mul. lia. }
  assert ((i4 * 2 ^ 39 + i3 * 2 ^ 30 + i2 * 2 ^ 21) mod 2 ^ 21 = 0).
  { replace (i4 * 2 ^ 39 + i3 * 2 ^ 30 + i2 * 2 ^ 21) with ((i4 * 2 ^ 18 + i3 * 2 ^ 9 + i2) * 2 ^ 21) by lia.
    apply Z.mod_mul. lia. }
  rewrite (lor_disjoint_add 39 (i4 * 2 ^ 39)), (lor_disjoint_add 30 (i4 * 2 ^ 39 + i3 * 2 ^ 30)), (lor_disjoint_add 21).
  all: first [done | lia | unfold uint_range; lia].
Qed.

Lemma from_l4_index_value i4 : table_index i4 ->
  Address_from_l4_index i4 = Address_from_table_indices i4 0 0 0.
Proof.
  intros. unfold Address_from_l4_index, Address_from_table_indices.
  f_equal. cbn. by rewrite ?Z.lor_0_r.
Qed.

(** A nine-bit slice below bit 48 only depends on the low 48 bits. *)
Lemma slice_mod48 r k : 0 <= k <= 39 -> (r mod 2 ^ 48 / 2 ^ k) mod 512 = (r / 2 ^ k) mod 512.
Proof.
  intros Hk. change 512 with (2 ^ 9). apply Z.bits_inj'. intros i Hi.
  assert (forall n x, x mod 2 ^ n = wrap n x) as Hw by done. rewrite !Hw, !testbit_wrap by lia.
  rewrite <-!Z.shiftr_div_pow2, !Z.shiftr_spec, testbit_wrap by lia.
  destruct (i <? 9) eqn:E; [bool_hyps|done]. by rewrite (proj2 (Z.ltb_lt _ _)) by lia.
Qed.

Lemma table_value_slices i4 i3 i2 i1 :
  table_index i4 -> table_index i3 -> table_index i2 -> table_index i1 ->
  let v := table_value i4 i3 i2 i1 in
  0 <= v < 2 ^ 48 /\ v mod 2 ^ 12 = 0 /\ (v / 2 ^ 39) mod 512 = i4 /\ (v / 2 ^ 30) mod 512 = i3 /\
  (v / 2 ^ 21) mod 512 = i2 /\ (v / 2 ^ 12) mod 512 = i1.
Proof.
  unfold table_index, table_value. intros. cbv zeta.
  split_and!; Z.div_mod_to_equations; lia.
Qed.

Lemma table_value_indices r : 0 <= r < 2 ^ 48 ->
  table_value ((r / 2 ^ 39) mod 512) ((r / 2 ^ 30) mod 512) ((r / 2 ^ 21) mod 512) ((r / 2 ^ 12) mod 512)
  = r - r mod 2 ^ 12.
Proof. intros. unfold table_value. Z.div_mod_to_equations. lia. Qed.

Lemma index_is_table_index x : table_index (x mod 512).
Proof. apply Z.mod_pos_bound. lia. Qed.

Lemma page_align_down_raw a : uint_range 64 (to_raw a) ->
  to_raw (page_align_down a) = to_raw a - to_raw a mod PAGE_SIZE.
Proof. intros. unfold page_align_down. change PAGE_SIZE with (2 ^ 12). cbn [to_raw]. by apply align_down_pow2. Qed.

Lemma page_align_down_canonical a : canonical a -> canonical (page_align_down a).
Proof.
  intros Hc. pose proof (canonical_range a Hc) as Hr. unfold canonical in *.
  rewrite page_align_down_raw by done. change PAGE_SIZE with (2 ^ 12). Z.div_mod_to_equations. lia.
Qed.

Lemma indices_mod48 a : l4_index a = (to_raw a mod 2 ^ 48 / 2 ^ 39) mod 512 /\
  l3_index a = (to_raw a mod 2 ^ 48 / 2 ^ 30) mod 512 /\
  l2_index a = (to_raw a mod 2 ^ 48 / 2 ^ 21) mod 512 /\
  l1_index a = (to_raw a mod 2 ^ 48 / 2 ^ 12) mod 512.
Proof. by rewrite l4_index_div, l3_index_div, l2_index_div, l1_index_div, !slice_mod48 by lia. Qed.

Lemma indices_table_index a :
  table_index (l4_index a) /\ table_index (l3_index a) /\ table_index (l2_index a) /\ table_index (l1_index a).
Proof.
  destruct (indices_mod48 a) as (-> & -> & -> & ->). split_and!; apply index_is_table_index.
Qed.

Lemma from_table_indices_split i4 i3 i2 i1 :
  table_index i4 -> table_index i3 -> table_index i2 -> table_index i1 ->
  let a := Address_from_table_indices i4 i3 i2 i1 in
  l4_index a = i4 /\ l3_index a = i3 /\ l2_index a = i2 /\ l1_index a = i1 /\ page_offset a = 0.
Proof.
  intros H4 H3 H2 H1 a. subst a. rewrite from_table_indices_value by done.
  destruct (table_value_slices i4 i3 i2 i1 H4 H3 H2 H1) as (Hr & H0 & E4 & E3 & E2 & E1).
  pose proof (Address_new_mod48 (table_value i4 i3 i2 i1)) as Hm. rewrite (Z.mod_small _ _ Hr) in Hm.
  destruct (indices_mod48 (Address_new (table_value i4 i3 i2 i1))) as (-> & -> & -> & ->).
  rewrite Hm. split_and!; try done.
  rewrite page_offset_mod. change PAGE_SIZE with (2 ^ 12).
  rewrite <-(Z.mod_mod_divide _ (2 ^ 48)), Hm by by exists (2 ^ 36). done.
Qed.

Lemma indices_join a : canonical a ->
  Address_from_table_indices (l4_index a) (l3_index a) (l2_index a) (l1_index a) = page_align_down a.
Proof.
  intros Hc. destruct (indices_table_index a) as (H4 & H3 & H2 & H1).
  rewrite from_table_indices_value by done.
  destruct (indices_mod48 a) as (-> & -> & -> & ->).
  pose proof (Z.mod_pos_bound (to_raw a) (2 ^ 48)). rewrite table_value_indices by lia.
  apply canonical_mod48_inj; [apply Address_new_canonical|by apply page_align_down_canonical|].
  rewrite Address_new_mod48, page_align_down_raw by by apply canonical_range.
  change PAGE_SIZE with (2 ^ 12). Z.div_mod_to_equations. lia.
Qed.

Lemma Page_base_containing a : uint_range 64 (to_raw a) ->
  Page_base_addr (Page_containing_addr a) = page_align_down a.
Proof.
  intros Hr. unfold Page_base_addr, Page_containing_addr, Address_new_unchecked. cbn [page_number].
  rewrite wrap_small; change PAGE_SIZE with (2 ^ 12).
  - unfold page_align_down. f_equal. change PAGE_SIZE with (2 ^ 12).
    rewrite align_down_pow2 by (done || lia). Z.div_mod_to_equations. lia.
  - unfold uint_range in *. Z.div_mod_to_equations. lia.
Qed.

Lemma Frame_base_addr_raw f : 0 <= frame_number f < 2 ^ 35 -> to_raw (Frame_base_addr f) = frame_number f * PAGE_SIZE.
Proof.
  intros. unfold Frame_base_addr, Address_new_unchecked. cbn [to_raw]. apply wrap_small.
  unfold uint_range, PAGE_SIZE, KIBIBYTE. lia.
Qed.

Lemma Frame_containing_base f : 0 <= frame_number f < 2 ^ 35 ->
  Frame_containing_addr (Frame_base_addr f) = Done f.
Proof.
  intros Hf. unfold Frame_containing_addr. rewrite Frame_base_addr_raw by done.
  rewrite (proj2 (is_physical_lt _)).
  - rewrite Z.div_mul by done. by destruct f.
  - rewrite Frame_base_addr_raw by done. unfold PAGE_SIZE, KIBIBYTE. lia.
Qed.

Lemma Frame_base_addr_aligned f : 0 <= frame_number f < 2 ^ 35 -> is_page_aligned (Frame_base_addr f) = true.
Proof.
  intros. rewrite is_page_aligned_mod, Frame_base_addr_raw, Z.mod_mul by done. done.
Qed.

Lemma Frame_base_addr_physical f : 0 <= frame_number f < 2 ^ 35 -> is_physical (Frame_base_addr f) = true.
Proof. intros. apply is_physical_lt. rewrite Frame_base_addr_raw by done. unfold PAGE_SIZE, KIBIBYTE. lia. Qed.

Lemma Address_domain_physical a : canonical a -> (Address_domain a = Physical <-> is_physical a = true).
Proof.
  intros Hc. rewrite is_physical_lt. unfold Address_domain. change MAX_PHYSICAL_L4_INDEX with 255.
  pose proof (l4_index_div a) as Hi. unfold canonical in Hc.
  assert (l4_index a <= 255 <-> to_raw a < 2 ^ 47) as Hiff by (rewrite Hi; Z.div_mod_to_equations; lia).
  rewrite <-Hiff. repeat case_if; split; intros; lia || congruence.
Qed.

#[export] Hint Resolve Address_new_canonical canonical_range page_align_down_canonical
  index_is_table_index Frame_base_addr_aligned Frame_base_addr_physical : rust.

(** ** Properties *)

(** [align_up] to a power of two returns the least multiple of the
    alignment that is not below the address, whenever that multiple fits in
    64 bits; [align_down] returns the greatest multiple not above it. *)
Theorem align_least_greatest (a k : Z) :
  0 <= k < 64 -> 0 <= a -> a + 2 ^ k - 1 < 2 ^ 64 ->
  ((2 ^ k | align_up a (2 ^ k)) /\ a <= align_up a (2 ^ k) /\
     (forall m, (2 ^ k | m) -> a <= m -> align_up a (2 ^ k) <= m)) /\
  ((2 ^ k | align_down a (2 ^ k)) /\ align_down a (2 ^ k) <= a /\
     (forall m, (2 ^ k | m) -> m <= a -> m <= align_down a (2 ^ k))).
Proof.
  intros Hk Ha Hb. destruct (align_up_bounds a k Hk Ha Hb) as [[q Hq] Hle].
  assert (align_down a (2 ^ k) = a / 2 ^ k * 2 ^ k) as Hd.
  { rewrite align_down_pow2 by (unfold uint_range; lia).
    pose proof (Z.div_mod a (2 ^ k)). lia. }
  split; split_and!.
  - by exists q.
  - lia.
  - intros m [r ->] Hm. rewrite Hq. apply Z.mul_le_mono_nonneg_r; [lia|]. nia.
  - by exists (a / 2 ^ k).
  - rewrite Hd, Z.mul_comm. apply Z.mul_div_le. lia.
  - intros m [r ->] Hm. rewrite Hd. apply Z.mul_le_mono_nonneg_r; [lia|].
    apply Z.div_le_lower_bound; lia.
Qed.

Lemma align_least_greatest_witness : (2 ^ 12 | align_up 14199 (2 ^ 12)) /\ align_up 14199 (2 ^ 12) = 16384.
Proof. split; [apply (align_least_greatest 14199 12); lia|reflexivity]. Defined.

(** [Address::new] always yields a canonical x86-64 address that agrees
    with its argument on the low 48 bits, and is the identity exactly on the
    canonical addresses. *)
Theorem Address_new_sign_extends (a : Z) :
  canonical (Address_new a) /\ to_raw (Address_new a) mod 2 ^ 48 = a mod 2 ^ 48 /\
  (to_raw (Address_new a) = a <-> canonical (mkAddress a)).
Proof.
  split_and!; [apply Address_new_canonical|apply Address_new_mod48|]. split.
  - intros <-. destruct (Address_new a) eqn:E. rewrite <-E. apply Address_new_canonical.
  - intros Hc. by rewrite Address_new_id.
Qed.

(** [Address + usize] and [Address - usize] panic exactly when the 64-bit
    operation overflows, and otherwise return a canonical address that agrees
    with the exact sum (difference) on the low 48 bits. *)
Theorem Address_arith_checked (a : Address) (n : Z) :
  canonical a -> uint_range 64 n ->
  (Address_add a n = Panic <-> 2 ^ 64 <= to_raw a + n) /\
  (Address_sub a n = Panic <-> to_raw a < n) /\
  (forall b, Address_add a n = Done b -> canonical b /\ to_raw b mod 2 ^ 48 = (to_raw a + n) mod 2 ^ 48) /\
  (forall b, Address_sub a n = Done b -> canonical b /\ to_raw b mod 2 ^ 48 = (to_raw a - n) mod 2 ^ 48).
Proof.
  intros Hc Hn. unfold Address_add, Address_sub, checked_add, checked_sub.
  split_and!.
  - case_if; cbn; split; (done || lia).
  - case_if; cbn; split; (done || lia).
  - intros b. case_if; cbn; [|done]. intros [= <-]. auto using Address_new_canonical, Address_new_mod48.
  - intros b. case_if; cbn; [|done]. intros [= <-]. auto using Address_new_canonical, Address_new_mod48.
Qed.

Lemma Address_arith_checked_witness : Address_sub (Address_new 0) 1 = Panic.
Proof.
  apply (Address_arith_checked (Address_new 0) 1); [apply Address_new_canonical|unfold uint_range; lia|].
  vm_compute. reflexivity.
Defined.

(** The four 9-bit table indices and [from_table_indices] are inverse to
    each other: splitting a built address returns the indices and offset 0,
    and rebuilding from the indices of a canonical address returns the base
    address of its page. *)
Theorem table_indices_roundtrip (a : Address) (i4 i3 i2 i1 : Z) :
  canonical a -> table_index i4 -> table_index i3 -> table_index i2 -> table_index i1 ->
  (let b := Address_from_table_indices i4 i3 i2 i1 in
   l4_index b = i4 /\ l3_index b = i3 /\ l2_index b = i2 /\ l1_index b = i1 /\ page_offset b = 0) /\
  Address_from_table_indices (l4_index a) (l3_index a) (l2_index a) (l1_index a)
  = Page_base_addr (Page_containing_addr a).
Proof.
  intros Hc H4 H3 H2 H1. split; [by apply from_table_indices_split|].
  by rewrite indices_join, Page_base_containing by auto with rust.
Qed.

Lemma table_indices_roundtrip_witness :
  l4_index (Address_from_table_indices 508 1 2 3) = 508 /\ l1_index (Address_from_table_indices 508 1 2 3) = 3.
Proof.
  assert (canonical (Address_new 0)) as Hc by apply Address_new_canonical.
  destruct (table_indices_roundtrip (Address_new 0) 508 1 2 3 Hc) as [(H4 & _ & _ & H1 & _) _].
  1-4: unfold table_index; lia.
  split; [exact H4|exact H1].
Defined.

(** Every address domain contains its own base address, and a canonical
    address lies in the [Physical] domain exactly when [is_physical] accepts
    it (i.e. below the 128 TiB limit of docs/memory_management.md). *)
Theorem address_domains (d : AddressDomain) (a : Address) :
  canonical a ->
  Address_domain (AddressDomain_base_addr d) = d /\
  (Address_domain a = Physical <-> is_physical a = true) /\
  (is_physical a = true <-> to_raw a < 128 * 1024 * GIBIBYTE).
Proof.
  intros Hc. split_and!; [by destruct d|by apply Address_domain_physical|].
  rewrite is_physical_lt. unfold GIBIBYTE. lia.
Qed.

Lemma address_domains_witness : Address_domain (Address_new 14199) = Physical.
Proof.
  apply (address_domains Invalid (Address_new 14199)); [apply Address_new_canonical|reflexivity].
Defined.

(** A frame below the physical limit is recovered from its base address,
    and [Frame::containing_addr] panics exactly on non-physical addresses. *)
Theorem Frame_base_roundtrip (f : Frame) (a : Address) :
  0 <= frame_number f < 2 ^ 35 ->
  Frame_from_base_addr (Frame_base_addr f) = Done (Some f) /\
  (Frame_containing_addr a = Panic <-> is_physical a = false) /\
  (forall g, Frame_containing_addr a = Done g -> frame_number g = page_number (Page_containing_addr a)).
Proof.
  intros Hf. split_and!.
  - unfold Frame_from_base_addr. by rewrite Frame_base_addr_aligned, Frame_containing_base.
  - unfold Frame_containing_addr. destruct (is_physical a); done.
  - unfold Frame_containing_addr. intros g. destruct (is_physical a); [by intros [= <-]|done].
Qed.

Lemma Frame_base_roundtrip_witness : Frame_from_base_addr (Frame_base_addr (Frame_new 7)) = Done (Some (Frame_new 7)).
Proof. apply (Frame_base_roundtrip (Frame_new 7) (Address_new 0)). cbn. lia. Defined.
