(* ===== verification/Acpi.v ===== *)
(** * kernel/src/acpi.rs, apic.rs and gdt.rs: the processor's set-up

    What start-up does with the tables that the third-party acpi crate has
    parsed (they are the argument [AcpiTables]), the sleep on the power
    management timer, and the task state segment with its I/O permission map.
    What the processor makes of the map is the architecture's rule
    ([port_allowed]); the base address and limit of the segment come from the
    x86_64 crate and are arguments. *)

From Stdlib Require Import Lia.
From stdpp Require Import base numbers option strings tactics list.
From S2P Require Import Prelude MemoryTypes PortIo.

Local Open Scope Z_scope.

(** ** What the tables report *)

Inductive GasSpace : Type := SystemIo | OtherSpace.

(** The block of the power management timer: an error, absent, or its address. *)
Definition PmTimerBlock : Type := result (option (GasSpace * Z)) unit.

Inductive ProcessorState : Type := Disabled | WaitingForSipi | Running.

#[export] Instance ProcessorState_eq_dec : EqDecision ProcessorState.
Proof. solve_decision. Defined.

Inductive InterruptModel : Type := ApicModel (local_apic_address : Z) | OtherModel.

Record AcpiPlatform : Type := mkPlatform {
  processor_info : option (ProcessorState * list ProcessorState); interrupt_model : InterruptModel
}.

(** The tables: the FADT's timer block, if there is an FADT, and the platform. *)
Record AcpiTables : Type := mkTables { fadt : option PmTimerBlock; platform_info : option AcpiPlatform }.

(** [PM_TIMER_PORT] and [LOCAL_APIC], the latter by its base address. *)
Record AcpiState : Type := mkAcpiState { PM_TIMER_PORT : option Z; LOCAL_APIC : option Z }.

(** [apic::init]: [apic_builds] is whether the x2apic crate can build it. *)
Definition apic_init (apic_builds : bool) (address : Z) (s : AcpiState) : exec AcpiState :=
  _ ← rust_assert apic_builds;
  Done (mkAcpiState (PM_TIMER_PORT s) (Some address)).

Definition end_of_interrupt (s : AcpiState) : exec unit := _ ← unwrap (LOCAL_APIC s); Done tt.

Definition find_pm_timer (tables : AcpiTables) (s : AcpiState) : exec AcpiState :=
  block ← unwrap (fadt tables);
  match block with
  | Ok (Some (SystemIo, address)) => Done (mkAcpiState (Some (wrap 16 address)) (LOCAL_APIC s))
  | Ok (Some (OtherSpace, _)) => Panic
  | _ => Done s
  end.

Definition check_processors (info : option (ProcessorState * list ProcessorState)) : exec unit :=
  match info with
  | None => Done tt
  | Some (boot, aps) =>
      _ ← rust_assert (bool_decide (boot = Running));
      rust_assert (forallb (fun p => bool_decide (p <> Running)) aps)
  end.

(** [tables] is what the parser makes of the tables at an address. *)
Definition acpi_init (tables : Z -> option AcpiTables) (apic_builds : bool) (rsdp_address : option Z) (s : AcpiState) : exec AcpiState :=
  match rsdp_address with
  | None => Done s
  | Some rsdp_addr =>
      match tables rsdp_addr with
      | None => Done s
      | Some tables =>
          s ← find_pm_timer tables s;
          platform ← unwrap (platform_info tables);
          _ ← check_processors (processor_info platform);
          match interrupt_model platform with
          | ApicModel address => apic_init apic_builds address s
          | OtherModel => Panic
          end
      end
  end.

(** ** The power management timer *)

Definition PM_TIMER_FREQ : Z := 3579545.

(** The ticks of a sleep; the product is a [u32]. *)
Definition pm_ticks (microseconds : Z) : Z := wrap 32 (PM_TIMER_FREQ * microseconds) / 1000000.

Definition pm_timer_sleep `{Hardware} (spins : nat) (s : AcpiState) (microseconds : Z) : Io (result unit string) :=
  match PM_TIMER_PORT s with
  | None => mret (Err "ACPI PM timer unavailable"%string)
  | Some port =>
      start ← read_u32 port;
      let stop := wrap 32 (start + pm_ticks microseconds) in
      _ ← spin_until spins (v ← read_u32 port; mret (negb (v <? stop)));
      mret (Ok tt)
  end.

(** ** The task state segment *)

Definition IOMAP_WIDTH : Z := (2 ^ 16 - 1 + 1) / POINTER_SIZE + 1.
Definition INTERRUPT_STACK_SIZE : Z := PAGE_SIZE * 4.

(** [size_of::<TaskStateSegment>()], the base with which it is created. *)
Definition TSS_SIZE : Z := 104.

Definition DOUBLE_FAULT_IST : nat := 0.
Definition PAGE_FAULT_IST : nat := 1.
Definition GENERAL_PROTECTION_FAULT_IST : nat := 2.
Definition LOCAL_APIC_TIMER_IST : nat := 3.
Definition USER_IST : nat := 4.

(** The interrupt stack table has seven entries. *)
Record Tss : Type := mkTss { interrupt_stack_table : list Z; iomap_base : Z; iomap : list Z }.

Definition Tss_new : Tss := mkTss (replicate 7 0) TSS_SIZE (<[Z.to_nat (IOMAP_WIDTH - 1) := 0xFF]> (replicate (Z.to_nat IOMAP_WIDTH) 0)).

(** The part of [gdt::init] that fills the table: [stack i] is the address of
    the static stack of entry [i]. *)
Definition set_stack (stack : nat -> Z) (tss : Tss) (i : nat) : Tss :=
  mkTss (<[i := stack i + INTERRUPT_STACK_SIZE]> (interrupt_stack_table tss)) (iomap_base tss) (iomap tss).

Definition gdt_init (stack : nat -> Z) (tss : Tss) : Tss :=
  foldl (set_stack stack) tss [DOUBLE_FAULT_IST; PAGE_FAULT_IST; GENERAL_PROTECTION_FAULT_IST; LOCAL_APIC_TIMER_IST; USER_IST].

Definition set_user_io_allowed (allow_user_io : bool) (tss : Tss) : Tss :=
  mkTss (interrupt_stack_table tss) (if allow_user_io then TSS_SIZE else 0xFFFF) (iomap tss).

(** The processor's test of a port access of [width] bytes in ring 3: the two
    bytes of the map at the port's bit must lie in the segment, and the bits
    of the ports must be clear. *)
Definition map_byte (tss : Tss) (offset : Z) : Z := default 0 (iomap tss !! Z.to_nat (offset - TSS_SIZE)).

Definition port_allowed (limit : Z) (tss : Tss) (port width : Z) : bool :=
  let offset := iomap_base tss + port / 8 in
  if limit <? offset + 1 then false
  else
    let bits := map_byte tss offset + 256 * map_byte tss (offset + 1) in
    Z.land (Z.shiftr bits (port mod 8)) (2 ^ width - 1) =? 0.

(** ** Lemmas *)

Lemma iomap_lookup k : 0 <= k <= 2 ^ 13 -> default 0 (iomap Tss_new !! Z.to_nat k) = if k =? 2 ^ 13 then 0xFF else 0.
Proof.
  intros Hk. unfold Tss_new, IOMAP_WIDTH, POINTER_SIZE. cbn [iomap]. change ((2 ^ 16 - 1 + 1) / 8 + 1) with 8193. destruct (Z.eqb_spec k (2 ^ 13)) as [->|Hne].
  - rewrite list_lookup_insert_eq; [done|]. rewrite length_replicate. lia.
  - rewrite list_lookup_insert_ne by lia. by rewrite lookup_replicate_2 by lia.
Qed.

Lemma set_stacks_iomap stack entries tss : iomap (foldl (set_stack stack) tss entries) = iomap tss /\ iomap_base (foldl (set_stack stack) tss entries) = iomap_base tss.
Proof. revert tss. induction entries as [|i entries IH]; intros tss; [done|]. exact (IH (set_stack stack tss i)). Qed.

(** The bits of a map whose only nonzero byte follows those of the ports. *)
Lemma terminator_bits b r width : 0 <= b -> 0 <= r -> 0 <= width -> (b = 0 \/ r + width <= 8) ->
  Z.land (Z.shiftr (256 * b) r) (2 ^ width - 1) = 0.
Proof.
  intros Hb Hr Hw Hor. replace (2 ^ width - 1) with (Z.ones width) by (rewrite Z.ones_equiv; lia). rewrite Z.land_ones by lia.
  destruct Hor as [->|Hle]; [by rewrite Z.shiftr_0_l|]. rewrite Z.shiftr_div_pow2 by lia.
  replace (256 * b) with (b * 2 ^ (8 - r - width) * 2 ^ width * 2 ^ r).
  - rewrite Z.div_mul by lia. apply Z.mod_mul. lia.
  - rewrite <- !Z.mul_assoc, <- !Z.pow_add_r by lia. replace (8 - r - width + (width + r)) with 8 by lia. lia.
Qed.

Section timer.
Context `{Hardware}.

(** A reading of the timer that is before, or not before, the end. *)
Definition reading_before (port stop : Z) (es : list Event) : Prop := exists v, v < stop /\ es = [In (Q32 port) v].
Definition reading_after (port stop : Z) (es : list Event) : Prop := exists v, stop <= v /\ es = [In (Q32 port) v].

Lemma emits_pm_test port stop : emits (v ← read_u32 port; mret (negb (v <? stop)))
  (fun es (b : bool) => if b then reading_after port stop es else reading_before port stop es).
Proof.
  intros h h' b. unfold read_u32, port_read, mbind, Io_bind, mret, Io_ret. intros [= <- <-]. eexists. split; [done|].
  cbn [query_width]. destruct (Z.ltb_spec (wrap 32 (answer h (Q32 port))) stop) as [Hlt|Hge]; cbn [negb]; [unfold reading_before|unfold reading_after]; eauto.
Qed.

(** A wait for a value that the timer never shows. *)
Lemma pm_wait_stuck port stop spins : (forall h, wrap 32 (answer h (Q32 port)) < stop) -> forall h,
  exists h', spin_until spins (v ← read_u32 port; mret (negb (v <? stop))) h = (h', Waiting).
Proof.
  intros Hlow. induction spins as [|spins IH]; intros h; [by exists h|]. cbn [spin_until]. destruct (IH (h ++ [In (Q32 port) (wrap 32 (answer h (Q32 port)))])) as [h' E].
  exists h'. rewrite (io_step _ _ h (h ++ [In (Q32 port) (wrap 32 (answer h (Q32 port)))]) false); [exact E|].
  unfold read_u32, port_read, mbind, Io_bind, mret, Io_ret. cbn [query_width]. by rewrite (proj2 (Z.ltb_lt _ _)) by apply Hlow.
Qed.
End timer.

(** ** Properties *)

(** The permission map works: with user I/O allowed, ring 3 may access every
    port, up to the last one and with every width, and without it none. An
    access beyond the last port stays refused. *)
Theorem user_io_allowed stack allow port width : 0 <= port < 2 ^ 16 -> width = 1 \/ width = 2 \/ width = 4 ->
  port_allowed (TSS_SIZE + IOMAP_WIDTH - 1) (set_user_io_allowed allow (gdt_init stack Tss_new)) port width = allow && (port + width <=? 2 ^ 16).
Proof.
  intros Hp Hw. unfold port_allowed, map_byte, set_user_io_allowed, gdt_init. cbn [iomap iomap_base]. rewrite (proj1 (set_stacks_iomap _ _ _)).
  change (TSS_SIZE + IOMAP_WIDTH - 1) with 8296. assert (Hq : 0 <= port / 8 < 2 ^ 13) by (Z.div_mod_to_equations; lia).
  destruct allow; cbn [andb]; [|by rewrite (proj2 (Z.ltb_lt _ _)) by lia]. change TSS_SIZE with 104. rewrite (proj2 (Z.ltb_ge _ _)) by lia.
  replace (104 + port / 8 - 104) with (port / 8) by lia. replace (104 + port / 8 + 1 - 104) with (port / 8 + 1) by lia.
  rewrite !iomap_lookup by lia. rewrite (proj2 (Z.eqb_neq (port / 8) (2 ^ 13))) by lia. rewrite Z.add_0_l.
  pose proof (Z.mod_pos_bound port 8 ltac:(lia)). pose proof (Z.div_mod port 8 ltac:(lia)).
  destruct (Z.eqb_spec (port / 8 + 1) (2 ^ 13)) as [E|E].
  - destruct (Z.leb_spec (port + width) (2 ^ 16)).
    + rewrite terminator_bits by lia. done.
    + apply Z.eqb_neq. assert (Hr : port mod 8 = 7 \/ port mod 8 = 6 \/ port mod 8 = 5) by lia.
      destruct Hw as [->|[->| ->]], Hr as [Hr|[Hr|Hr]]; (lia || (rewrite Hr; by vm_compute)).
  - rewrite (proj2 (Z.leb_le (port + width) _)) by lia. by rewrite terminator_bits by lia.
Qed.

Lemma user_io_allowed_witness : port_allowed (TSS_SIZE + IOMAP_WIDTH - 1) (set_user_io_allowed true (gdt_init (fun _ => 0) Tss_new)) 0xFFFC 4 = true /\
  port_allowed (TSS_SIZE + IOMAP_WIDTH - 1) (set_user_io_allowed true (gdt_init (fun _ => 0) Tss_new)) 0xFFFD 4 = false.
Proof.
  split; [exact (user_io_allowed (fun _ => 0) true 0xFFFC 4 ltac:(lia) ltac:(lia))|exact (user_io_allowed (fun _ => 0) true 0xFFFD 4 ltac:(lia) ltac:(lia))].
Defined.

(** After start-up with readable tables the local APIC is there, so that the
    end of an interrupt can be signalled, and no other processor runs. *)
Theorem acpi_init_starts_apic tables builds rsdp t s s' : acpi_init tables builds (Some rsdp) s = Done s' -> tables rsdp = Some t ->
  end_of_interrupt s' = Done tt /\ exists platform address, platform_info t = Some platform /\ interrupt_model platform = ApicModel address /\
    LOCAL_APIC s' = Some address /\ forall boot aps, processor_info platform = Some (boot, aps) -> boot = Running /\ Forall (fun p => p <> Running) aps.
Proof.
  intros E Ht. unfold acpi_init in E. rewrite Ht in E. destruct (find_pm_timer t s) as [s1|]; [|done]. cbn [mbind exec_bind] in E.
  destruct (platform_info t) as [platform|]; [|done]. cbn [unwrap mbind exec_bind] in E.
  destruct (check_processors (processor_info platform)) as [[]|] eqn:Ec; [|done]. cbn [mbind exec_bind] in E.
  destruct (interrupt_model platform) as [address|] eqn:Em; [|done]. unfold apic_init in E.
  destruct builds; [|done]. cbn [rust_assert mbind exec_bind] in E. injection E as <-. split; [done|]. exists platform, address.
  split; [done|]. split; [done|]. split; [done|]. intros boot aps Hi. rewrite Hi in Ec. unfold check_processors in Ec.
  case_bool_decide as Hb; [|done]. cbn [rust_assert mbind exec_bind] in Ec. destruct (forallb _ aps) eqn:Ea; [|done]. split; [done|].
  rewrite forallb_forall in Ea. apply Forall_forall. intros p Hp. apply list_elem_of_In, Ea, bool_decide_eq_true_1 in Hp. exact Hp.
Qed.

(** The processor starts with its APIC at the usual address and one other
    processor that waits. *)
Definition example_tables : AcpiTables :=
  mkTables (Some (Ok (Some (SystemIo, 0x608)))) (Some (mkPlatform (Some (Running, [WaitingForSipi])) (ApicModel 0xFEE00000))).

Lemma acpi_init_starts_apic_witness :
  acpi_init (fun _ => Some example_tables) true (Some 0xE0000) (mkAcpiState None None) = Done (mkAcpiState (Some 0x608) (Some 0xFEE00000)) /\
  end_of_interrupt (mkAcpiState (Some 0x608) (Some 0xFEE00000)) = Done tt.
Proof.
  split; [reflexivity|]. apply (acpi_init_starts_apic (fun _ => Some example_tables) true 0xE0000 example_tables (mkAcpiState None None) _); reflexivity.
Defined.

(** A sleep on the power management timer ends at the first reading that has
    reached the end. The ticks are exact, up to rounding, for at most 1199
    microseconds; for more, the product with the frequency wraps and the sleep
    is never longer than 1.2 ms. *)
Theorem pm_timer_sleep_waits `{Hardware} spins s port us h h' : PM_TIMER_PORT s = Some port -> 0 <= us ->
  pm_timer_sleep spins s us h = (h', Value (Ok tt)) ->
  (exists start wait, h' = h ++ In (Q32 port) start :: wait /\
    spun (reading_before port (wrap 32 (start + pm_ticks us))) (reading_after port (wrap 32 (start + pm_ticks us))) wait) /\
  pm_ticks us <= 4294 /\ (us <= 1199 -> pm_ticks us = PM_TIMER_FREQ * us / 1000000).
Proof.
  intros Hp Hu E. split; [|split].
  - unfold pm_timer_sleep in E. rewrite Hp in E. apply io_bind_inv in E as (h1 & start & E1 & E). injection E1 as <- <-.
    apply io_bind_inv in E as (h2 & [] & E & E2). injection E2 as <-. eapply emits_spin in E; [|apply emits_pm_test]. destruct E as (wait & -> & Hw).
    eexists _, wait. rewrite <- app_assoc. split; [reflexivity|exact Hw].
  - unfold pm_ticks. pose proof (wrap_range 32 (PM_TIMER_FREQ * us) ltac:(lia)) as [_ Hlt]. assert (wrap 32 (PM_TIMER_FREQ * us) / 1000000 < 4295); [|lia].
    apply Z.div_lt_upper_bound; lia.
  - intros Hs. unfold pm_ticks. rewrite wrap_small; [done|]. unfold PM_TIMER_FREQ. split; lia.
Qed.

(** A timer that counts up by a thousand with every access. *)
Definition counting_timer : Hardware := fun h _ => 1000 * Z.of_nat (length h).
Definition timer_state : AcpiState := mkAcpiState (Some 0x608) None.

Lemma pm_timer_sleep_waits_witness : pm_ticks 1000 = 3579 /\ exists start wait,
  (pm_timer_sleep (H := counting_timer) 10 timer_state 1000 []).1 = [] ++ In (Q32 0x608) start :: wait.
Proof.
  destruct (pm_timer_sleep_waits (H := counting_timer) 10 timer_state 0x608 1000 [] (pm_timer_sleep (H := counting_timer) 10 timer_state 1000 []).1
    eq_refl ltac:(lia) ltac:(vm_compute; reflexivity)) as ((start & wait & E & _) & _ & Ht).
  split; [rewrite Ht by lia; reflexivity|exists start, wait; exact E].
Defined.

(** The counter of the timer has 24 or 32 bits and starts over. A sleep whose
    end is past its largest value, as one that starts shortly before the
    counter of a 24-bit timer starts over, never returns. *)
Theorem pm_timer_sleep_hangs `{Hardware} spins s port us h bits : PM_TIMER_PORT s = Some port -> 0 <= us -> 0 <= bits < 32 ->
  (forall h, 0 <= answer h (Q32 port) < 2 ^ bits) -> 2 ^ bits <= answer h (Q32 port) + pm_ticks us ->
  exists h', pm_timer_sleep spins s us h = (h', Waiting).
Proof.
  intros Hp Hu Hb Hans Hend. unfold pm_timer_sleep. rewrite Hp. pose proof (Hans h) as Hh. assert (Hpow : 2 ^ bits <= 2 ^ 31) by (apply Z.pow_le_mono_r; lia).
  assert (Ht : pm_ticks us < 4295).
  { unfold pm_ticks. pose proof (wrap_range 32 (PM_TIMER_FREQ * us) ltac:(lia)) as [_ Hlt]. apply Z.div_lt_upper_bound; lia. }
  assert (Hstart : wrap 32 (answer h (Q32 port)) = answer h (Q32 port)) by (apply wrap_small; split; lia).
  rewrite (io_step _ _ h (h ++ [In (Q32 port) (answer h (Q32 port))]) (answer h (Q32 port))) by (unfold read_u32, port_read; cbn [query_width]; by rewrite Hstart).
  destruct (pm_wait_stuck port (wrap 32 (answer h (Q32 port) + pm_ticks us)) spins) with (h := h ++ [In (Q32 port) (answer h (Q32 port))]) as [h' E].
  - intros h1. pose proof (Hans h1). rewrite !wrap_small by (split; lia). lia.
  - exists h'. cbv zeta. unfold mbind at 1, Io_bind at 1. by rewrite E.
Qed.

(** A 24-bit timer that shows its largest value first. *)
Definition late_timer : Hardware := fun h _ => (2 ^ 24 - 1 + 1000 * Z.of_nat (length h)) mod 2 ^ 24.

Lemma pm_timer_sleep_hangs_witness : exists h', pm_timer_sleep (H := late_timer) 100 timer_state 1000 [] = (h', Waiting).
Proof.
  apply (pm_timer_sleep_hangs (H := late_timer) 100 timer_state 0x608 1000 [] 24); [reflexivity|lia|lia| |vm_compute; discriminate].
  intros h. apply Z.mod_pos_bound. lia.
Defined.
