(* ===== verification/FrameAllocator.v ===== *)
(** * kernel/src/memory.rs: the bitmap frame allocator

    [FrameAllocator] is the kernel's global physical frame allocator: one bit
    per 4 KiB frame of the first GiB (1 = used), a count of free frames and a
    search hint. Array accesses out of bounds panic, as in Rust. The abstract
    state is the finite set of free frame numbers; the theorems show that each
    operation implements the corresponding set operation. *)

From Stdlib Require Import Lia Btauto.
From stdpp Require Import base numbers list option tactics gmap fin_sets sets.
From S2P Require Import Prelude MemoryTypes.

Local Open Scope Z_scope.
Local Open Scope u64_scope.

(** ** boot-info: the memory map handed over by the bootloader *)

Inductive MemoryRegionKind : Type := Free | Bootloader | Uefi (ty : Z).

#[export] Instance MemoryRegionKind_eq_dec : EqDecision MemoryRegionKind.
Proof. solve_decision. Defined.

Record MemoryRegion : Type := mkRegion {
  region_base : Z;
  region_size : Z;
  region_kind : MemoryRegionKind
}.

(** ** State *)

Definition MAX_PHYSICAL_MEMORY : Z := 1 * GIBIBYTE.
Definition MAX_FRAMES : Z := MAX_PHYSICAL_MEMORY / PAGE_SIZE.
Definition BITMAP_LEN : Z := MAX_FRAMES / 64.

Record FrameAllocator : Type := mkFA {
  bitmap : list Z;
  total_frames : Z;
  free_frames : Z;
  next_free_hint : Z
}.

Inductive FrameAllocatorError : Type := OutOfMemory | InvalidFrame.

Definition FrameAllocator_new : FrameAllocator :=
  mkFA (replicate (Z.to_nat BITMAP_LEN) 0) 0 0 0.

(** [self.bitmap[i]]: panics out of bounds. *)
Definition bitmap_get (bm : list Z) (i : Z) : exec Z := unwrap (bm !! Z.to_nat i).
Definition bitmap_set (bm : list Z) (i v : Z) : exec (list Z) :=
  if i <? Z.of_nat (length bm) then Done (<[Z.to_nat i := v]> bm) else Panic.

(** ** Operations *)

Definition is_allocated (fa : FrameAllocator) (frame_num : Z) : exec bool :=
  let word_idx := frame_num / 64 in
  let bit_idx := frame_num mod 64 in
  word ← bitmap_get (bitmap fa) word_idx;
  Done (negb (Z.land word (wshl 64 1 bit_idx) =? 0)).

Definition mark_used (fa : FrameAllocator) (frame_num : Z) : exec FrameAllocator :=
  let word_index := frame_num / 64 in
  let bit_index := frame_num mod 64 in
  word ← bitmap_get (bitmap fa) word_index;
  bm ← bitmap_set (bitmap fa) word_index (Z.lor word (wshl 64 1 bit_index));
  Done (mkFA bm (total_frames fa) (free_frames fa) (next_free_hint fa)).

Definition mark_free (fa : FrameAllocator) (frame_num : Z) : exec FrameAllocator :=
  let word_index := frame_num / 64 in
  let bit_index := frame_num mod 64 in
  word ← bitmap_get (bitmap fa) word_index;
  bm ← bitmap_set (bitmap fa) word_index (Z.land word (wnot 64 (wshl 64 1 bit_index)));
  Done (mkFA bm (total_frames fa) (free_frames fa) (next_free_hint fa)).

(** Body of [for frame_num in first_frame..last_frame] in [init]. *)
Definition init_frame (frame_num : Z) (fa : FrameAllocator) : exec FrameAllocator :=
  if frame_num <? MAX_FRAMES then
    fa ← mark_free fa frame_num;
    Done (mkFA (bitmap fa) (total_frames fa ⊞ 1) (free_frames fa ⊞ 1) (next_free_hint fa))
  else Done fa.

(** [(first_frame, last_frame)] of a free region. *)
Definition region_frames (region : MemoryRegion) : exec (Z * Z) :=
  start_frame ← Frame_containing_addr (Address_new (region_base region));
  let end_addr := region_base region ⊞ region_size region in
  end_frame ← Frame_containing_addr (Address_new end_addr);
  let first_frame :=
    if is_page_aligned (Address_new (region_base region)) then frame_number start_frame
    else frame_number start_frame ⊞ 1 in
  Done (first_frame, frame_number end_frame).

Definition init_region (region : MemoryRegion) (fa : FrameAllocator) : exec FrameAllocator :=
  if decide (region_kind region = Free) then
    '(first_frame, last_frame) ← region_frames region;
    for_range (Z.to_nat (last_frame - first_frame)) first_frame init_frame fa
  else Done fa.

Definition FrameAllocator_init (memory_map : list MemoryRegion) (fa : FrameAllocator) : exec FrameAllocator :=
  let fa := mkFA (map (fun _ => wnot 64 0) (bitmap fa)) 0 0 (next_free_hint fa) in
  fa ← for_each memory_map init_region fa;
  Done (mkFA (bitmap fa) (total_frames fa) (free_frames fa) 0).

(** Body of [for i in 0..frame_count] in [reserve_range]. *)
Definition reserve_frame (start_frame i : Z) (fa : FrameAllocator) : exec FrameAllocator :=
  let frame_num := start_frame ⊞ i in
  if frame_num <? MAX_FRAMES then
    allocated ← is_allocated fa frame_num;
    if negb allocated then
      fa ← mark_used fa frame_num;
      if 0 <? free_frames fa then
        Done (mkFA (bitmap fa) (total_frames fa) (free_frames fa ⊟ 1) (next_free_hint fa))
      else Done fa
    else Done fa
  else Done fa.

Definition reserve_range (base : Address) (size : Z) (fa : FrameAllocator) : exec FrameAllocator :=
  start_frame ← Address_frame base;
  let frame_count := div_ceil size PAGE_SIZE in
  for_range (Z.to_nat frame_count) 0 (reserve_frame (frame_number start_frame)) fa.

(** One iteration of either search loop of [allocate]: [Some] is the early
    [return]. *)
Definition try_word (fa : FrameAllocator) (word_index : Z) : exec (option (FrameAllocator * Frame)) :=
  word ← bitmap_get (bitmap fa) word_index;
  if negb (word =? wnot 64 0) then
    let free_bit := trailing_zeros 64 (wnot 64 word) in
    let frame_num := (word_index ⊠ 64) ⊞ free_bit in
    fa ← mark_used fa frame_num;
    Done (Some (mkFA (bitmap fa) (total_frames fa) (free_frames fa ⊟ 1) (frame_num ⊞ 1),
                Frame_new frame_num))
  else Done None.

(** [for word_index in from..from+n]. *)
Fixpoint search_words (n : nat) (from : Z) (fa : FrameAllocator) : exec (option (FrameAllocator * Frame)) :=
  match n with
  | O => Done None
  | S n' =>
      found ← try_word fa from;
      match found with
      | Some r => Done (Some r)
      | None => search_words n' (from + 1) fa
      end
  end.

Definition FrameAllocator_allocate (fa : FrameAllocator)
  : exec (FrameAllocator * result Frame FrameAllocatorError) :=
  if free_frames fa =? 0 then Done (fa, Err OutOfMemory)
  else
    let start_word := next_free_hint fa / 64 in
    found ← search_words (Z.to_nat (BITMAP_LEN - start_word)) start_word fa;
    match found with
    | Some (fa', f) => Done (fa', Ok f)
    | None =>
        found ← search_words (Z.to_nat start_word) 0 fa;
        match found with
        | Some (fa', f) => Done (fa', Ok f)
        | None => Done (fa, Err OutOfMemory)
        end
    end.

Definition FrameAllocator_deallocate (fa : FrameAllocator) (frame : Frame)
  : exec (FrameAllocator * result unit FrameAllocatorError) :=
  let frame_num := frame_number frame in
  if MAX_FRAMES <=? frame_num then Done (fa, Err InvalidFrame)
  else
    allocated ← is_allocated fa frame_num;
    if negb allocated then Done (fa, Ok tt)
    else
      fa ← mark_free fa frame_num;
      let hint := if frame_num <? next_free_hint fa then frame_num else next_free_hint fa in
      Done (mkFA (bitmap fa) (total_frames fa) (free_frames fa ⊞ 1) hint, Ok tt).

(** [impl DynFrameAllocator for FrameAllocator]: [self.allocate().ok()]. *)
#[export] Instance FrameAllocator_FrameAlloc : FrameAlloc FrameAllocator := fun fa =>
  '(fa', r) ← FrameAllocator_allocate fa; Done (fa', result_ok r).

(** ** Abstraction: the set of free frames *)

Definition frame_used (bm : list Z) (n : Z) : bool :=
  Z.testbit (default 0 (bm !! Z.to_nat (n / 64))) (n mod 64).

(** The free frames below a bound. *)
Definition free_below (bound : Z) (bm : list Z) : gset Z :=
  filter (fun n => frame_used bm n = false) (list_to_set (seqZ 0 bound)).

(** The free frames; sealed, so that unification never enumerates the 262144
    frame numbers. *)
Definition free_set_aux : seal (free_below MAX_FRAMES).
Proof. by eexists. Qed.
Definition free_set : list Z -> gset Z := unseal free_set_aux.
Definition free_set_unseal : free_set = free_below MAX_FRAMES := seal_eq free_set_aux.

Definition bitmap_wf (bm : list Z) : Prop :=
  length bm = Z.to_nat BITMAP_LEN /\ Forall (uint_range 64) bm.

(** The invariant of the allocator: a full bitmap of 64-bit words, an exact
    count of the free frames, and a hint inside the bitmap. *)
Record fa_inv (fa : FrameAllocator) : Prop := {
  fa_wf : bitmap_wf (bitmap fa);
  fa_count : free_frames fa = Z.of_nat (size (free_set (bitmap fa)));
  fa_hint : 0 <= next_free_hint fa <= MAX_FRAMES
}.

Ltac frame_consts :=
  change MAX_FRAMES with 262144 in *; change BITMAP_LEN with 4096 in *.

(** ** Lemmas: bits *)

Lemma frame_split n m : n / 64 = m / 64 -> n mod 64 = m mod 64 -> n = m.
Proof. intros. rewrite (Z.div_mod n 64), (Z.div_mod m 64) by lia. congruence. Qed.

Lemma elem_of_free_below bound bm n :
  n ∈ free_below bound bm <-> 0 <= n < bound /\ frame_used bm n = false.
Proof.
  unfold free_below. rewrite elem_of_filter, elem_of_list_to_set, elem_of_seqZ, Z.add_0_l. tauto.
Qed.

Lemma size_free_below bound bm : 0 <= bound -> Z.of_nat (size (free_below bound bm)) <= bound.
Proof.
  intros Hb. assert (free_below bound bm ⊆ list_to_set (seqZ 0 bound)) as Hsub.
  { intros n. rewrite elem_of_free_below, elem_of_list_to_set, elem_of_seqZ. lia. }
  apply subseteq_size in Hsub. rewrite size_list_to_set, length_seqZ in Hsub by apply NoDup_seqZ. lia.
Qed.

Lemma elem_of_free_set bm n : n ∈ free_set bm <-> 0 <= n < MAX_FRAMES /\ frame_used bm n = false.
Proof. rewrite free_set_unseal. exact (elem_of_free_below MAX_FRAMES bm n). Qed.

Lemma free_set_bound bm : Z.of_nat (size (free_set bm)) <= MAX_FRAMES.
Proof. rewrite free_set_unseal. exact (size_free_below MAX_FRAMES bm ltac:(done)). Qed.

Lemma bitmap_lookup bm i : bitmap_wf bm -> 0 <= i < BITMAP_LEN ->
  exists w, bm !! Z.to_nat i = Some w /\ uint_range 64 w /\ bitmap_get bm i = Done w.
Proof.
  intros [Hl Hf] Hi. destruct (lookup_lt_is_Some_2 bm (Z.to_nat i)) as [w Hw]; [lia|].
  exists w. split_and!; [done|by eapply Forall_lookup_1|]. unfold bitmap_get. by rewrite Hw.
Qed.

Lemma frame_word_range n : 0 <= n < MAX_FRAMES -> 0 <= n / 64 < BITMAP_LEN /\ 0 <= n mod 64 < 64.
Proof. frame_consts. intros. Z.div_mod_to_equations. lia. Qed.

Lemma frame_used_insert bm i v m : bitmap_wf bm -> 0 <= i < BITMAP_LEN -> 0 <= m ->
  frame_used (<[Z.to_nat i := v]> bm) m
  = if m / 64 =? i then Z.testbit v (m mod 64) else frame_used bm m.
Proof.
  intros [Hl _] Hi Hm. unfold frame_used. case_if.
  - subst. by rewrite list_lookup_insert_eq by lia.
  - rewrite list_lookup_insert_ne; [done|]. intros ?%Z2Nat.inj; [lia|lia|].
    apply Z.div_pos; lia.
Qed.

Lemma bitmap_set_ok bm i v : bitmap_wf bm -> 0 <= i < BITMAP_LEN -> uint_range 64 v ->
  bitmap_set bm i v = Done (<[Z.to_nat i := v]> bm) /\ bitmap_wf (<[Z.to_nat i := v]> bm).
Proof.
  intros [Hl Hf] Hi Hv. unfold bitmap_set. rewrite Hl, (proj2 (Z.ltb_lt _ _)) by lia.
  split; [done|]. split; [by rewrite length_insert|by apply Forall_insert].
Qed.

Lemma pow2_range b : 0 <= b < 64 -> uint_range 64 (2 ^ b).
Proof. intros. split; [lia|]. apply Z.pow_lt_mono_r; lia. Qed.

(** [mark_used] and [mark_free] change exactly one bit. *)
Lemma mark_used_spec fa n : bitmap_wf (bitmap fa) -> 0 <= n < MAX_FRAMES ->
  exists bm, mark_used fa n = Done (mkFA bm (total_frames fa) (free_frames fa) (next_free_hint fa)) /\
    bitmap_wf bm /\ forall m, 0 <= m -> frame_used bm m = (m =? n) || frame_used (bitmap fa) m.
Proof.
  intros Hwf Hn. destruct (frame_word_range n Hn) as [Hi Hb].
  destruct (bitmap_lookup _ _ Hwf Hi) as (w & Hw & Hr & Hg).
  destruct (bitmap_set_ok (bitmap fa) (n / 64) (Z.lor w (2 ^ (n mod 64))) Hwf Hi) as [Hs Hwf'].
  { apply lor_range; auto using pow2_range; lia. }
  exists (<[Z.to_nat (n / 64) := Z.lor w (2 ^ (n mod 64))]> (bitmap fa)). split_and!; [|done|].
  - unfold mark_used. rewrite Hg. cbn [mbind exec_bind]. rewrite wshl_1 by lia. by rewrite Hs.
  - intros m Hm. rewrite frame_used_insert by done. destruct (m / 64 =? n / 64) eqn:E; bool_hyps.
    + rewrite Z.lor_spec, testbit_pow2 by lia. unfold frame_used. rewrite E, Hw. cbn [default from_option id].
      destruct (m =? n) eqn:E1; bool_hyps; [subst; rewrite Z.eqb_refl; btauto|].
      rewrite (proj2 (Z.eqb_neq _ _)) by (intros ?; by apply E1, frame_split). btauto.
    + destruct (m =? n) eqn:E1; bool_hyps; [congruence|done].
Qed.

Lemma mark_free_spec fa n : bitmap_wf (bitmap fa) -> 0 <= n < MAX_FRAMES ->
  exists bm, mark_free fa n = Done (mkFA bm (total_frames fa) (free_frames fa) (next_free_hint fa)) /\
    bitmap_wf bm /\ forall m, 0 <= m -> frame_used bm m = negb (m =? n) && frame_used (bitmap fa) m.
Proof.
  intros Hwf Hn. destruct (frame_word_range n Hn) as [Hi Hb].
  destruct (bitmap_lookup _ _ Hwf Hi) as (w & Hw & Hr & Hg).
  destruct (bitmap_set_ok (bitmap fa) (n / 64) (Z.land w (wnot 64 (2 ^ (n mod 64)))) Hwf Hi) as [Hs Hwf'].
  { apply land_range; [lia|done|]. unfold wnot. by apply wrap_range. }
  exists (<[Z.to_nat (n / 64) := Z.land w (wnot 64 (2 ^ (n mod 64)))]> (bitmap fa)). split_and!; [|done|].
  - unfold mark_free. rewrite Hg. cbn [mbind exec_bind]. rewrite wshl_1 by lia. by rewrite Hs.
  - intros m Hm. rewrite frame_used_insert by done. destruct (m / 64 =? n / 64) eqn:E; bool_hyps.
    + pose proof (Z.mod_pos_bound m 64).
      rewrite Z.land_spec, testbit_wnot, testbit_pow2, (proj2 (Z.ltb_lt (m mod 64) 64)) by lia.
      unfold frame_used. rewrite E, Hw. cbn [default from_option id].
      destruct (m =? n) eqn:E1; bool_hyps; [subst; rewrite Z.eqb_refl; btauto|].
      rewrite (proj2 (Z.eqb_neq _ _)) by (intros ?; by apply E1, frame_split). btauto.
    + destruct (m =? n) eqn:E1; bool_hyps; [congruence|done].
Qed.

Lemma is_allocated_spec fa n : bitmap_wf (bitmap fa) -> 0 <= n < MAX_FRAMES ->
  is_allocated fa n = Done (frame_used (bitmap fa) n).
Proof.
  intros Hwf Hn. destruct (frame_word_range n Hn) as [Hi Hb].
  destruct (bitmap_lookup _ _ Hwf Hi) as (w & Hw & Hr & Hg).
  unfold is_allocated. rewrite Hg. cbn [mbind exec_bind]. rewrite wshl_1, land_pow2_eq0, negb_involutive by lia.
  unfold frame_used. by rewrite Hw.
Qed.

(** ** Lemmas: the free set *)

Lemma free_set_used bm bm' n : 0 <= n ->
  (forall m, 0 <= m -> frame_used bm' m = (m =? n) || frame_used bm m) ->
  free_set bm' = free_set bm ∖ {[n]}.
Proof.
  intros Hn H. apply set_eq. intros m. rewrite elem_of_difference, !elem_of_free_set, elem_of_singleton.
  split.
  - intros [Hm Hu]. rewrite H in Hu by lia. bool_hyps. done.
  - intros [[Hm Hu] Hne]. split; [done|]. rewrite H, Hu, (proj2 (Z.eqb_neq _ _)) by (done || lia). done.
Qed.

Lemma free_set_freed bm bm' n : 0 <= n < MAX_FRAMES ->
  (forall m, 0 <= m -> frame_used bm' m = negb (m =? n) && frame_used bm m) ->
  free_set bm' = free_set bm ∪ {[n]}.
Proof.
  intros Hn H. apply set_eq. intros m. rewrite elem_of_union, !elem_of_free_set, elem_of_singleton.
  split.
  - intros [Hm Hu]. rewrite H in Hu by lia. destruct (m =? n) eqn:E; bool_hyps; [by right|left; done].
  - intros [[Hm Hu]| ->]; (split; [lia|]); rewrite H by lia; [rewrite Hu; btauto|by rewrite Z.eqb_refl].
Qed.

Lemma size_remove (X : gset Z) n : n ∈ X -> Z.of_nat (size (X ∖ {[n]})) = Z.of_nat (size X) - 1.
Proof.
  intros Hn. rewrite size_difference by set_solver. rewrite size_singleton.
  assert (size X ≠ 0%nat) by (apply size_non_empty_iff; set_solver). lia.
Qed.

Lemma size_add (X : gset Z) n : n ∉ X -> Z.of_nat (size (X ∪ {[n]})) = Z.of_nat (size X) + 1.
Proof. intros Hn. rewrite size_union by set_solver. rewrite size_singleton. lia. Qed.

(** ** Lemmas: searching *)

Lemma full_word_used bm i m : bitmap_wf bm -> 0 <= i < BITMAP_LEN ->
  bitmap_get bm i = Done (wnot 64 0) -> m / 64 = i -> frame_used bm m = true.
Proof.
  intros Hwf Hi Hg Hm. destruct (bitmap_lookup _ _ Hwf Hi) as (w & Hw & _ & Hg').
  rewrite Hg in Hg'. injection Hg' as Hw64. unfold frame_used. rewrite Hm, Hw, <-Hw64. cbn [default from_option id].
  pose proof (Z.mod_pos_bound m 64). rewrite testbit_wnot, Z.bits_0 by lia.
  by rewrite (proj2 (Z.ltb_lt _ _)) by lia.
Qed.

(** A word that is not all ones has a free bit, and [trailing_zeros] of its
    complement is the lowest one. *)
Lemma free_bit_spec w : uint_range 64 w -> w <> wnot 64 0 ->
  let b := trailing_zeros 64 (wnot 64 w) in
  0 <= b < 64 /\ Z.testbit w b = false /\ (forall i, 0 <= i < b -> Z.testbit w i = true).
Proof.
  intros Hw Hne b. assert (uint_range 64 (wnot 64 w)) as Hr by (unfold wnot; by apply wrap_range).
  assert (0 < wnot 64 w) as Hpos.
  { assert (wnot 64 w <> 0); [|unfold uint_range in Hr; lia]. intros H0. apply Hne.
    apply Z.bits_inj'. intros i Hi. rewrite testbit_wnot, Z.bits_0 by lia.
    destruct (i <? 64) eqn:E; bool_hyps; [|by rewrite (testbit_high 64) by (done || lia)].
    assert (Z.testbit (wnot 64 w) i = false) as Hb by by rewrite H0, Z.bits_0.
    rewrite testbit_wnot, (proj2 (Z.ltb_lt i 64)) in Hb by lia. cbn in Hb. by apply negb_false_iff in Hb. }
  destruct (trailing_zeros_spec 64 _ Hpos Hr) as (H0 & H1 & H2). fold b in H0, H1, H2.
  split_and!; [lia|lia| |].
  - rewrite testbit_wnot in H1 by lia. bool_hyps. done.
  - intros i Hi. specialize (H2 i Hi).
    rewrite testbit_wnot, (proj2 (Z.ltb_lt i 64)) in H2 by lia. by apply negb_false_iff in H2.
Qed.

(** What a successful search returns: the lowest free frame of the words from
    [from] on, marked used. *)
Definition found_at (fa : FrameAllocator) (from : Z) (fa' : FrameAllocator) (f : Frame) : Prop :=
  let n := frame_number f in
  n ∈ free_set (bitmap fa) /\ 64 * from <= n /\
  (forall m, 64 * from <= m < n -> m ∉ free_set (bitmap fa)) /\
  bitmap_wf (bitmap fa') /\ free_set (bitmap fa') = free_set (bitmap fa) ∖ {[n]} /\
  free_frames fa' = free_frames fa ⊟ 1 /\ total_frames fa' = total_frames fa /\ next_free_hint fa' = n + 1.

Lemma try_word_spec fa i : bitmap_wf (bitmap fa) -> 0 <= i < BITMAP_LEN ->
  (exists fa' f, try_word fa i = Done (Some (fa', f)) /\ found_at fa i fa' f) \/
  (try_word fa i = Done None /\ forall m, m / 64 = i -> frame_used (bitmap fa) m = true).
Proof.
  intros Hwf Hi. destruct (bitmap_lookup _ _ Hwf Hi) as (w & Hw & Hr & Hg).
  unfold try_word. rewrite Hg. cbn [mbind exec_bind].
  destruct (w =? wnot 64 0) eqn:E; cbn [negb]; bool_hyps.
  { right. split; [done|]. intros m Hm. eapply full_word_used; eauto. congruence. }
  left. destruct (free_bit_spec w Hr E) as (Hb & Hf & Hlow).
  set (b := trailing_zeros 64 (wnot 64 w)) in *. set (n := i * 64 + b).
  assert (Hdiv : n / 64 = i) by (subst n; symmetry; apply (Z.div_unique _ _ _ b); lia).
  assert (Hmod : n mod 64 = b) by (subst n; symmetry; apply (Z.mod_unique _ _ i); lia).
  assert (Hn : 0 <= n < MAX_FRAMES) by (frame_consts; lia).
  rewrite (wrap_small 64 (i * 64)) by (frame_consts; unfold uint_range; lia). fold n.
  rewrite (wrap_small 64 n) by (frame_consts; unfold uint_range; lia).
  destruct (mark_used_spec fa n Hwf Hn) as (bm & -> & Hwf' & Hbits). cbn [mbind exec_bind bitmap].
  eexists _, _. split; [reflexivity|]. unfold found_at. cbn [frame_number Frame_new bitmap free_frames total_frames next_free_hint].
  rewrite (wrap_small 64 (n + 1)) by (frame_consts; unfold uint_range; lia).
  split_and!; try done; [| lia | |].
  - apply elem_of_free_set. split; [done|]. unfold frame_used. by rewrite Hdiv, Hmod, Hw.
  - intros m Hm [_ Hu]%elem_of_free_set. assert (m / 64 = i /\ 0 <= m mod 64 < b) as [Hmd Hmm].
    { subst n. Z.div_mod_to_equations. lia. }
    unfold frame_used in Hu. rewrite Hmd, Hw in Hu. cbn in Hu. by rewrite Hlow in Hu.
  - apply free_set_used; [lia|done].
Qed.

Lemma search_words_spec n : forall fa from, bitmap_wf (bitmap fa) -> 0 <= from -> from + Z.of_nat n <= BITMAP_LEN ->
  (exists fa' f, search_words n from fa = Done (Some (fa', f)) /\ found_at fa from fa' f) \/
  (search_words n from fa = Done None /\
   forall m, 64 * from <= m < 64 * (from + Z.of_nat n) -> m ∉ free_set (bitmap fa)).
Proof.
  induction n as [|n IH]; intros fa from Hwf H0 Hn.
  - right. split; [done|]. intros m Hm. lia.
  - cbn [search_words]. destruct (try_word_spec fa from Hwf) as [(fa' & f & -> & Hf)|[-> Hused]]; [lia| |].
    { left. by exists fa', f. }
    cbn [mbind exec_bind].
    assert (Hskip : forall m, m / 64 = from -> m ∉ free_set (bitmap fa)).
    { intros m Hm [_ Hu]%elem_of_free_set. by rewrite Hused in Hu. }
    destruct (IH fa (from + 1) Hwf) as [(fa' & f & -> & Hf)|[-> Hrest]]; [lia|lia| |].
    + left. exists fa', f. split; [done|]. destruct Hf as (Hin & Hge & Hmin & Hrest).
      unfold found_at. split_and!; [exact Hin|lia| |apply Hrest..]. intros m Hm. destruct (Z.lt_ge_cases m (64 * (from + 1))).
      * apply Hskip. Z.div_mod_to_equations. lia.
      * apply Hmin. lia.
    + right. split; [done|]. intros m Hm. destruct (Z.lt_ge_cases m (64 * (from + 1))).
      * apply Hskip. Z.div_mod_to_equations. lia.
      * apply Hrest. lia.
Qed.

Lemma found_at_inv fa from fa' f : fa_inv fa -> found_at fa from fa' f -> fa_inv fa'.
Proof.
  intros [Hwf Hc Hh] (Hin & _ & _ & Hwf' & Hset & Hfree & _ & Hhint).
  pose proof (free_set_bound (bitmap fa)). pose proof (size_remove _ _ Hin) as Hsz.
  pose proof (proj1 (elem_of_free_set _ _) Hin) as [Hn _]. split; [done| |frame_consts; lia].
  rewrite Hset, Hfree, Hsz, Hc. apply wrap_small. unfold uint_range. frame_consts. lia.
Qed.

Lemma free_set_empty_count fa : fa_inv fa -> (free_frames fa = 0 <-> free_set (bitmap fa) = ∅).
Proof.
  intros [Hwf Hc Hh]. rewrite Hc. split; intros H.
  - apply leibniz_equiv, size_empty_iff. lia.
  - rewrite H, size_empty. done.
Qed.

Lemma allocate_spec fa : fa_inv fa ->
  exists fa' r, FrameAllocator_allocate fa = Done (fa', r) /\ fa_inv fa' /\
  match r with
  | Ok f => frame_number f ∈ free_set (bitmap fa) /\
            free_set (bitmap fa') = free_set (bitmap fa) ∖ {[frame_number f]} /\
            (found_at fa (next_free_hint fa / 64) fa' f \/
             (next_free_hint fa' = frame_number f + 1 /\
              forall m, m ∈ free_set (bitmap fa) -> m < 64 * (next_free_hint fa / 64) /\ frame_number f <= m))
  | Err e => e = OutOfMemory /\ free_set (bitmap fa) = ∅ /\ fa' = fa
  end.
Proof.
  intros Hinv. pose proof (free_set_empty_count fa Hinv) as Hempty. pose proof Hinv as [Hwf Hc Hh].
  unfold FrameAllocator_allocate. destruct (free_frames fa =? 0) eqn:E; bool_hyps.
  { exists fa, (Err OutOfMemory). split_and!; try done. by apply Hempty. }
  set (sw := next_free_hint fa / 64).
  assert (0 <= sw <= BITMAP_LEN) as Hsw by (subst sw; frame_consts; Z.div_mod_to_equations; lia).
  destruct (search_words_spec (Z.to_nat (BITMAP_LEN - sw)) fa sw Hwf) as [(fa' & f & -> & Hf)|[-> Hhi]];
    [lia|lia| |]; cbn [mbind exec_bind].
  { exists fa', (Ok f). split_and!; [done|by eapply found_at_inv|apply Hf|apply Hf|by left]. }
  destruct (search_words_spec (Z.to_nat sw) fa 0 Hwf) as [(fa' & f & -> & Hf)|[-> Hlo]];
    [lia|lia| |]; cbn [mbind exec_bind].
  { exists fa', (Ok f). split_and!; [done|by eapply found_at_inv|apply Hf|apply Hf|]. right.
    split; [apply Hf|]. intros m Hm. pose proof (proj1 (elem_of_free_set _ _) Hm) as [Hr _]. split.
    - fold sw. destruct (Z.lt_ge_cases m (64 * sw)); [done|]. exfalso. apply (Hhi m); [frame_consts; lia|done].
    - destruct (Z.lt_ge_cases m (frame_number f)) as [Hlt|]; [|lia].
      exfalso. destruct Hf as (_ & _ & Hmin & _). apply (Hmin m); [lia|done]. }
  exfalso. apply E, Hempty. apply set_eq. intros m. split; [|set_solver]. intros Hm. exfalso.
  pose proof (proj1 (elem_of_free_set _ _) Hm) as [Hr _]. destruct (Z.lt_ge_cases m (64 * sw)).
  - apply (Hlo m); [lia|done].
  - apply (Hhi m); [frame_consts; lia|done].
Qed.

Lemma deallocate_spec fa f : fa_inv fa -> 0 <= frame_number f ->
  exists fa' r, FrameAllocator_deallocate fa f = Done (fa', r) /\ fa_inv fa' /\
  if MAX_FRAMES <=? frame_number f then r = Err InvalidFrame /\ fa' = fa
  else r = Ok tt /\ free_set (bitmap fa') = free_set (bitmap fa) ∪ {[frame_number f]} /\
       (frame_number f ∈ free_set (bitmap fa) -> fa' = fa).
Proof.
  intros Hinv Hf. pose proof Hinv as [Hwf Hc Hh]. unfold FrameAllocator_deallocate.
  destruct (MAX_FRAMES <=? frame_number f) eqn:E; bool_hyps.
  { by exists fa, (Err InvalidFrame). }
  rewrite is_allocated_spec by (done || lia). cbn [mbind exec_bind].
  destruct (frame_used (bitmap fa) (frame_number f)) eqn:Eu; cbn [negb].
  - destruct (mark_free_spec fa (frame_number f) Hwf) as (bm & -> & Hwf' & Hbits); [lia|].
    cbn [mbind exec_bind bitmap free_frames total_frames next_free_hint].
    assert (Hset := free_set_freed _ _ (frame_number f) ltac:(lia) Hbits).
    assert (Hnin : frame_number f ∉ free_set (bitmap fa)).
    { intros [_ Hu]%elem_of_free_set. congruence. }
    eexists _, _. split_and!; [reflexivity| |done|done|done].
    pose proof (size_add _ _ Hnin) as Hsz. pose proof (free_set_bound bm).
    split; cbn [bitmap free_frames next_free_hint]; [done| |].
    + rewrite Hset, Hsz, Hc. apply wrap_small. rewrite Hset, Hsz in H.
      unfold uint_range. frame_consts. lia.
    + case_if; lia.
  - assert (Hin : frame_number f ∈ free_set (bitmap fa)) by (apply elem_of_free_set; split; [lia|done]).
    exists fa, (Ok tt). split_and!; [done|done|done| |done]. apply set_eq. intros m. rewrite elem_of_union, elem_of_singleton. split; [tauto|]. by intros [?| ->].
Qed.

(** ** Lemmas: initialisation *)

(** The frames that lie wholly inside a region. *)
Definition region_covers (r : MemoryRegion) (n : Z) : Prop :=
  region_base r <= n * PAGE_SIZE /\ (n + 1) * PAGE_SIZE <= region_base r + region_size r.

Definition region_valid (r : MemoryRegion) : Prop :=
  0 <= region_base r /\ 0 <= region_size r /\ region_base r + region_size r < 2 ^ 47.

Definition regions_disjoint (r s : MemoryRegion) : Prop :=
  region_base r + region_size r <= region_base s \/ region_base s + region_size s <= region_base r.

(** The frame numbers the loops of [init] visit. *)
Definition region_list (r : MemoryRegion) : list Z :=
  if decide (region_kind r = Free) then
    let first := div_ceil (region_base r) PAGE_SIZE in
    seqZ first ((region_base r + region_size r) / PAGE_SIZE - first)
  else [].

Lemma for_range_for_each {S} (body : Z -> S -> exec S) n : forall i s,
  for_range n i body s = for_each (seqZ i (Z.of_nat n)) body s.
Proof.
  induction n as [|n IH]; intros i s; [done|]. rewrite seqZ_cons by lia.
  replace (Z.pred (Z.of_nat (Datatypes.S n))) with (Z.of_nat n) by lia. cbn [for_range for_each].
  destruct (body i s); [|done]. cbn [mbind exec_bind]. rewrite IH. by rewrite Z.add_1_r.
Qed.

Lemma for_each_app {A S} (body : A -> S -> exec S) xs ys : forall s,
  for_each (xs ++ ys) body s = (s' ← for_each xs body s; for_each ys body s').
Proof.
  induction xs as [|x xs IH]; intros s; [done|]. cbn [for_each app].
  destruct (body x s); [|done]. cbn [mbind exec_bind]. apply IH.
Qed.

Lemma Address_new_physical a : 0 <= a < 2 ^ 47 -> Address_new a = mkAddress a.
Proof. intros. apply Address_new_id. left. cbn. lia. Qed.

Lemma region_frames_spec r : region_valid r ->
  region_frames r = Done (div_ceil (region_base r) PAGE_SIZE, (region_base r + region_size r) / PAGE_SIZE).
Proof.
  intros (Hb & Hs & He). unfold region_frames.
  rewrite (wrap_small 64) by (unfold uint_range; lia). rewrite !Address_new_physical by lia.
  unfold Frame_containing_addr. rewrite !(proj2 (is_physical_lt _)) by (cbn; lia).
  cbn [mbind exec_bind frame_number to_raw]. rewrite is_page_aligned_mod. cbn [to_raw]. unfold div_ceil.
  case_if; [done|]. rewrite wrap_small; [done|]. unfold uint_range, PAGE_SIZE, KIBIBYTE in *.
  Z.div_mod_to_equations. lia.
Qed.

Lemma init_region_each r fa : region_valid r -> init_region r fa = for_each (region_list r) init_frame fa.
Proof.
  intros Hr. unfold init_region, region_list. destruct (decide _); [|done].
  rewrite region_frames_spec by done. cbn [mbind exec_bind]. rewrite for_range_for_each. cbv zeta.
  set (d := _ - _). destruct (Z.le_gt_cases 0 d).
  - by rewrite Z2Nat.id by lia.
  - replace (Z.to_nat d) with 0%nat by lia. by rewrite !seqZ_nil by lia.
Qed.

Lemma init_regions_each mm : forall fa, Forall region_valid mm ->
  for_each mm init_region fa = for_each (mm ≫= region_list) init_frame fa.
Proof.
  induction mm as [|r mm IH]; intros fa Hv; [done|]. apply Forall_cons in Hv as [Hr Hv].
  cbn [for_each]. rewrite bind_cons, for_each_app, init_region_each by done.
  destruct (for_each (region_list r) init_frame fa); [|done]. cbn [mbind exec_bind]. by apply IH.
Qed.

Lemma elem_of_region_list r n : region_valid r ->
  n ∈ region_list r <-> region_kind r = Free /\ region_covers r n.
Proof.
  intros (Hb & Hs & He). unfold region_list, region_covers.
  destruct (decide _); [|split; [intros []%not_elem_of_nil|tauto]]. cbv zeta. rewrite elem_of_seqZ.
  destruct (div_ceil_spec (region_base r) PAGE_SIZE) as [H1 H2]; [lia|done|].
  unfold PAGE_SIZE, KIBIBYTE in *. set (c := div_ceil _ _) in *.
  split; [intros Hn; split; [done|] | intros [_ Hn]]; Z.div_mod_to_equations; lia.
Qed.

Lemma region_list_nonneg r n : region_valid r -> n ∈ region_list r -> 0 <= n.
Proof.
  intros Hv [_ Hn]%elem_of_region_list; [|done]. destruct Hv as (? & ? & ?). unfold region_covers, PAGE_SIZE, KIBIBYTE in Hn. lia.
Qed.

Lemma region_lists_nodup mm : Forall region_valid mm -> ForallOrdPairs regions_disjoint mm ->
  NoDup (mm ≫= region_list).
Proof.
  intros Hv Hd. induction Hd as [|r mm Hr Hd IH]; [constructor|].
  apply Forall_cons in Hv as [Hvr Hv]. rewrite bind_cons. apply NoDup_app. split_and!; [| |by apply IH].
  - unfold region_list. destruct (decide _); [apply NoDup_seqZ|constructor].
  - intros n Hn (s & Hs & Hin)%list_elem_of_bind. rewrite Forall_forall in Hv.
    pose proof (proj1 (List.Forall_forall _ _) Hr s (proj1 (list_elem_of_In _ _) Hin)) as Hrs.
    apply elem_of_region_list in Hn as [_ Hn]; [|done].
    apply elem_of_region_list in Hs as [_ Hs]; [|by apply Hv].
    unfold region_covers, PAGE_SIZE, KIBIBYTE, regions_disjoint in *. lia.
Qed.

Lemma init_frames_spec l : forall fa, bitmap_wf (bitmap fa) -> Forall (fun n => 0 <= n) l ->
  exists fa', for_each l init_frame fa = Done fa' /\ bitmap_wf (bitmap fa') /\
    (forall n, n ∈ free_set (bitmap fa') <-> n ∈ free_set (bitmap fa) \/ (n ∈ l /\ n < MAX_FRAMES)) /\
    (NoDup l -> (forall n, n ∈ l -> n ∉ free_set (bitmap fa)) ->
     free_frames fa = Z.of_nat (size (free_set (bitmap fa))) ->
     free_frames fa' = Z.of_nat (size (free_set (bitmap fa')))).
Proof.
  induction l as [|x l IH]; intros fa Hwf Hl.
  { exists fa. split_and!; try done. intros n. rewrite elem_of_nil. tauto. }
  apply Forall_cons in Hl as [Hx Hl]. cbn [for_each]. unfold init_frame at 2.
  destruct (x <? MAX_FRAMES) eqn:E; bool_hyps; cycle 1.
  { destruct (IH fa Hwf Hl) as (fa' & Hr & Hwf' & Hset & Hcnt). exists fa'. split_and!; [exact Hr|done| |].
    - intros n. rewrite Hset, elem_of_cons. split; [tauto|]. intros [?|[[->|?] ?]]; [tauto|lia|tauto].
    - intros [_ Hnd]%NoDup_cons Hfresh. apply Hcnt; [done|]. intros n Hn. apply Hfresh. by right. }
  destruct (mark_free_spec fa x Hwf) as (bm & -> & Hwf1 & Hbits); [lia|].
  cbn [mbind exec_bind bitmap free_frames total_frames next_free_hint].
  assert (Hset1 := free_set_freed _ _ x ltac:(lia) Hbits).
  edestruct (IH (mkFA bm (total_frames fa ⊞ 1) (free_frames fa ⊞ 1) (next_free_hint fa)) Hwf1 Hl)
    as (fa' & Hr & Hwf' & Hset & Hcnt). exists fa'. split_and!; [exact Hr|done| |].
  - intros n. rewrite Hset. cbn [bitmap]. rewrite Hset1, elem_of_union, elem_of_singleton, elem_of_cons.
    split; [intros [[?| ->]|?]; tauto|]. intros [?|[[->|?] ?]]; tauto.
  - intros [Hxl Hnd]%NoDup_cons Hfresh Hc. cbn [bitmap free_frames] in Hcnt.
    assert (Hxf : x ∉ free_set (bitmap fa)) by (apply Hfresh; by left).
    pose proof (size_add _ _ Hxf) as Hsz. rewrite <-Hset1 in Hsz. pose proof (free_set_bound bm).
    apply Hcnt; [done| |].
    + intros n Hn. rewrite Hset1, elem_of_union, elem_of_singleton. intros [Hin| ->]; [|done].
      apply (Hfresh n); [by right|done].
    + rewrite Hsz, Hc. apply wrap_small. unfold uint_range. frame_consts. lia.
Qed.

Lemma free_set_all_used (bm : list Z) : length bm = Z.to_nat BITMAP_LEN ->
  bitmap_wf (map (fun _ => wnot 64 0) bm) /\ free_set (map (fun _ => wnot 64 0) bm) = ∅.
Proof.
  intros Hl. assert (Hwf : bitmap_wf (map (fun _ => wnot 64 0) bm)).
  { split; [by rewrite length_map|]. apply Forall_map, Forall_true. intros. apply wrap_range. lia. }
  split; [done|]. apply set_eq. intros n. split; [|set_solver].
  intros [Hn Hu]%elem_of_free_set. exfalso. destruct (frame_word_range n Hn) as [Hi Hb].
  destruct (bitmap_lookup _ _ Hwf Hi) as (w & Hw & _ & Hg).
  rewrite (full_word_used _ (n / 64)) in Hu by (done || (rewrite Hg; f_equal;
    apply list_lookup_fmap_Some in Hw as (? & ? & ?); congruence)). done.
Qed.

Lemma init_spec fa mm : length (bitmap fa) = Z.to_nat BITMAP_LEN -> Forall region_valid mm ->
  exists fa', FrameAllocator_init mm fa = Done fa' /\ bitmap_wf (bitmap fa') /\ next_free_hint fa' = 0 /\
    (forall n, n ∈ free_set (bitmap fa') <->
       n < MAX_FRAMES /\ exists r, r ∈ mm /\ region_kind r = Free /\ region_covers r n) /\
    (ForallOrdPairs regions_disjoint mm -> fa_inv fa').
Proof.
  intros Hl Hv. unfold FrameAllocator_init. destruct (free_set_all_used _ Hl) as [Hwf Hempty].
  rewrite init_regions_each by done.
  edestruct (init_frames_spec (mm ≫= region_list) (mkFA (map (fun _ => wnot 64 0) (bitmap fa)) 0 0 (next_free_hint fa)) Hwf)
    as (fa' & -> & Hwf' & Hset & Hcnt).
  { apply Forall_forall. intros n (r & Hr & Hin)%list_elem_of_bind. rewrite Forall_forall in Hv.
    eapply region_list_nonneg; eauto. }
  cbn [bitmap free_frames mbind exec_bind] in *. eexists. split; [reflexivity|]. cbn [bitmap free_frames next_free_hint].
  split_and!; [done|done| |].
  - intros n. rewrite Hset, Hempty, list_elem_of_bind. rewrite Forall_forall in Hv. split.
    + intros [[]%elem_of_empty|[(r & Hr & Hin) ?]]. split; [done|]. exists r. split; [done|].
      apply elem_of_region_list; auto.
    + intros [? (r & Hin & Hr)]. right. split; [|done]. exists r. split; [|done].
      apply elem_of_region_list; auto.
  - intros Hd. split; cbn [bitmap free_frames next_free_hint]; [done| |done].
    apply Hcnt; [by apply region_lists_nodup| |].
    + intros n _. rewrite Hempty. apply not_elem_of_empty.
    + by rewrite Hempty, size_empty.
Qed.

(** ** Lemmas: reservation *)

Lemma reserve_frame_spec fa start i : fa_inv fa -> 0 <= start + i < 2 ^ 64 ->
  exists fa', reserve_frame start i fa = Done fa' /\ fa_inv fa' /\
    free_set (bitmap fa') = free_set (bitmap fa) ∖ {[start + i]}.
Proof.
  intros Hinv Hi. pose proof Hinv as [Hwf Hc Hh]. unfold reserve_frame.
  rewrite (wrap_small 64) by (unfold uint_range; lia). set (n := start + i) in *.
  assert (Hsame : n ∉ free_set (bitmap fa) -> free_set (bitmap fa) = free_set (bitmap fa) ∖ {[n]}).
  { intros Hn. apply set_eq. intros m. rewrite elem_of_difference, elem_of_singleton.
    split; [|tauto]. intros Hm. split; [done|]. by intros ->. }
  destruct (n <? MAX_FRAMES) eqn:E; bool_hyps; cycle 1.
  { exists fa. split_and!; [done|done|]. apply Hsame. intros [? _]%elem_of_free_set. lia. }
  rewrite is_allocated_spec by (done || lia). cbn [mbind exec_bind].
  destruct (frame_used (bitmap fa) n) eqn:Eu; cbn [negb].
  { exists fa. split_and!; [done|done|]. apply Hsame. intros [_ ?]%elem_of_free_set. congruence. }
  assert (Hin : n ∈ free_set (bitmap fa)) by (apply elem_of_free_set; split; [lia|done]).
  destruct (mark_used_spec fa n Hwf) as (bm & -> & Hwf' & Hbits); [lia|].
  cbn [mbind exec_bind bitmap free_frames total_frames next_free_hint].
  assert (Hset := free_set_used _ _ n ltac:(lia) Hbits). pose proof (size_remove _ _ Hin) as Hsz.
  rewrite <-Hset in Hsz. pose proof (free_set_bound (bitmap fa)).
  rewrite (proj2 (Z.ltb_lt _ _)) by lia. eexists. split_and!; [reflexivity| |done].
  split; cbn [bitmap free_frames next_free_hint]; [done| |done].
  rewrite Hsz, Hc. apply wrap_small. unfold uint_range. frame_consts. lia.
Qed.

Lemma div_ceil_nonneg a b : 0 <= a -> 0 < b -> 0 <= div_ceil a b.
Proof. intros Ha Hb. destruct (div_ceil_spec a b Ha Hb). nia. Qed.

Lemma reserve_range_spec fa base size : fa_inv fa -> 0 <= to_raw base < 2 ^ 47 -> uint_range 64 size ->
  exists fa', reserve_range base size fa = Done fa' /\ fa_inv fa' /\
    (forall n, n ∈ free_set (bitmap fa') <-> n ∈ free_set (bitmap fa) /\
       ~ (to_raw base / PAGE_SIZE <= n < to_raw base / PAGE_SIZE + div_ceil size PAGE_SIZE)).
Proof.
  intros Hinv Hb Hs. unfold reserve_range, Address_frame, Frame_containing_addr.
  rewrite (proj2 (is_physical_lt _)) by lia. cbn [mbind exec_bind frame_number].
  set (start := to_raw base / PAGE_SIZE). set (cnt := div_ceil size PAGE_SIZE). unfold uint_range in Hs.
  assert (0 <= start < 2 ^ 35) by (subst start; unfold PAGE_SIZE, KIBIBYTE; Z.div_mod_to_equations; lia).
  assert (0 <= cnt <= 2 ^ 52).
  { subst cnt. destruct (div_ceil_spec size PAGE_SIZE) as [??]; [lia|done|]. unfold PAGE_SIZE, KIBIBYTE in *. lia. }
  destruct (for_range_inv (fun i fa' => fa_inv fa' /\ forall n, n ∈ free_set (bitmap fa') <->
    n ∈ free_set (bitmap fa) /\ ~ (start <= n < start + i)) (reserve_frame start) (Z.to_nat cnt) 0 fa)
    as (fa' & E & Hinv' & Hset).
  - split; [done|]. intros n. split; [intros; split; [done|lia]|tauto].
  - intros j t Hj [Ht Hset]. destruct (reserve_frame_spec t start j Ht) as (t' & E & Ht' & Hset'); [lia|].
    exists t'. split_and!; [done|done|]. intros n. rewrite Hset', elem_of_difference, elem_of_singleton, Hset.
    split; [intros [[? ?] ?]; split; [done|lia]|intros [? ?]; split; [split; [done|lia]|lia]].
  - exists fa'. split_and!; [done|done|]. rewrite Z.add_0_l, Z2Nat.id in Hset by lia. exact Hset.
Qed.

(** ** The allocator implements the [FrameAllocator] trait's contract *)

#[export] Program Instance FrameAllocator_laws : FrameAllocLaws FrameAllocator := {|
  alloc_inv := fa_inv;
  avail fa := free_set (bitmap fa)
|}.
Next Obligation.
  intros fa n Hinv [Hn _]%elem_of_free_set. frame_consts. lia.
Qed.
Next Obligation.
  intros fa Hinv. destruct (allocate_spec fa Hinv) as (fa' & r & E & Hinv' & Hr).
  exists fa', (result_ok r). unfold allocate_frame, FrameAllocator_FrameAlloc. rewrite E.
  split_and!; [done|done|]. destruct r as [f|e]; cbn [result_ok]; [split; apply Hr|].
  destruct Hr as (_ & ? & ->). done.
Qed.

(** ** Properties *)

(** A state the theorems apply to: the allocator initialised on a concrete map. *)
Definition example_map : list MemoryRegion :=
  [mkRegion 0 8192 Free; mkRegion 8192 4096 Bootloader; mkRegion 12289 12287 Free].

Lemma example_map_valid : Forall region_valid example_map /\ ForallOrdPairs regions_disjoint example_map.
Proof.
  split.
  - repeat constructor; cbn; lia.
  - repeat first [apply FOP_cons | apply FOP_nil | apply List.Forall_cons | apply List.Forall_nil];
      unfold regions_disjoint; cbn; lia.
Qed.

Lemma example_init : exists fa, FrameAllocator_init example_map FrameAllocator_new = Done fa /\ fa_inv fa /\
  forall n, n ∈ free_set (bitmap fa) <-> n = 0 \/ n = 1 \/ n = 4 \/ n = 5.
Proof.
  destruct example_map_valid as [Hv Hd].
  destruct (init_spec FrameAllocator_new example_map) as (fa & E & _ & _ & Hset & Hinv); [by vm_compute|done|].
  exists fa. split_and!; [done|by apply Hinv|]. intros n. rewrite Hset. unfold region_covers, PAGE_SIZE, KIBIBYTE. split.
  - intros [_ (r & Hr & Hf & Hc)]. unfold example_map in Hr.
    rewrite !elem_of_cons, elem_of_nil in Hr. destruct Hr as [->|[->|[->|[]]]]; cbn in *; [lia|done|lia].
  - intros Hn. split; [frame_consts; lia|]. destruct (decide (n <= 1)).
    + exists (mkRegion 0 8192 Free). cbn. split_and!; [by left|done|lia|lia].
    + exists (mkRegion 12289 12287 Free). cbn. split_and!; [|done|lia|lia]. right. right. by left.
Qed.

(** [FrameAllocator::init] terminates without panicking on any memory map
    below the physical limit and leaves exactly those frames free that lie
    wholly inside a region of kind [Free] and below [MAX_FRAMES]; when the
    regions do not overlap, the free-frame count is exact. *)
Theorem init_free_frames (fa : FrameAllocator) (mm : list MemoryRegion) :
  length (bitmap fa) = Z.to_nat BITMAP_LEN -> Forall region_valid mm ->
  exists fa', FrameAllocator_init mm fa = Done fa' /\
    (forall n, n ∈ free_set (bitmap fa') <->
       n < MAX_FRAMES /\ exists r, r ∈ mm /\ region_kind r = Free /\ region_covers r n) /\
    (ForallOrdPairs regions_disjoint mm -> fa_inv fa').
Proof.
  intros Hl Hv. destruct (init_spec fa mm Hl Hv) as (fa' & E & _ & _ & Hset & Hinv). by exists fa'.
Qed.

Lemma init_free_frames_witness : exists fa, FrameAllocator_init example_map FrameAllocator_new = Done fa /\ fa_inv fa.
Proof.
  destruct (init_free_frames FrameAllocator_new example_map) as (fa & E & _ & Hinv).
  - by vm_compute.
  - apply example_map_valid.
  - exists fa. split; [exact E|]. apply Hinv, example_map_valid.
Defined.

(** C10: [allocate] preserves the allocator's invariant and never panics; it
    fails with [OutOfMemory] exactly when no frame is free, and otherwise
    removes from the free set exactly the frame it returns, which was free. *)
Theorem allocate_correct (fa : FrameAllocator) :
  fa_inv fa ->
  exists fa' r, FrameAllocator_allocate fa = Done (fa', r) /\ fa_inv fa' /\
    (r = Err OutOfMemory <-> free_set (bitmap fa) = ∅) /\ r <> Err InvalidFrame /\
    (forall f, r = Ok f -> frame_number f ∈ free_set (bitmap fa) /\
       free_set (bitmap fa') = free_set (bitmap fa) ∖ {[frame_number f]} /\
       frame_number f ∉ free_set (bitmap fa')).
Proof.
  intros Hinv. destruct (allocate_spec fa Hinv) as (fa' & r & E & Hinv' & Hr).
  exists fa', r. split_and!; [done|done| | |].
  - destruct r as [f|e]; [|by destruct Hr as (-> & -> & _)]. split; [done|].
    intros He. destruct Hr as [Hin _]. rewrite He in Hin. by apply not_elem_of_empty in Hin.
  - destruct r as [f|e]; [done|]. by destruct Hr as (-> & _).
  - intros f ->. destruct Hr as (Hin & Hset & _). split_and!; [done|done|].
    rewrite Hset, elem_of_difference, elem_of_singleton. tauto.
Qed.

Lemma allocate_correct_witness : exists fa fa' r, FrameAllocator_init example_map FrameAllocator_new = Done fa /\
  FrameAllocator_allocate fa = Done (fa', r) /\ fa_inv fa'.
Proof.
  destruct example_init as (fa & E & Hinv & _).
  destruct (allocate_correct fa Hinv) as (fa' & r & E' & Hinv' & _). by exists fa, fa', r.
Defined.

(** The search is first fit from the hint: the frame returned is the
    lowest free frame at or above the hint's word when there is one, and the
    lowest free frame of all otherwise; the next search starts just after it. *)
Theorem allocate_from_hint (fa fa' : FrameAllocator) (f : Frame) :
  fa_inv fa -> FrameAllocator_allocate fa = Done (fa', Ok f) ->
  let start := 64 * (next_free_hint fa / 64) in
  next_free_hint fa' = frame_number f + 1 /\
  ((start <= frame_number f /\
    forall m, m ∈ free_set (bitmap fa) -> start <= m -> frame_number f <= m) \/
   (forall m, m ∈ free_set (bitmap fa) -> m < start /\ frame_number f <= m)).
Proof.
  intros Hinv E start. destruct (allocate_spec fa Hinv) as (fa1 & r & E1 & _ & Hr).
  rewrite E1 in E. injection E as -> ->. destruct Hr as (Hin & _ & [Hf|[Hh Hmin]]); [|by split; [|right]].
  destruct Hf as (_ & Hlo & Hno & _ & _ & _ & _ & Hh). split; [done|]. left. split; [exact Hlo|].
  intros m Hm Hge. destruct (Z.lt_ge_cases m (frame_number f)); [|lia]. exfalso. by apply (Hno m).
Qed.

Lemma allocate_from_hint_witness : exists fa fa' f, fa_inv fa /\
  FrameAllocator_allocate fa = Done (fa', Ok f) /\ next_free_hint fa' = frame_number f + 1.
Proof.
  destruct example_init as (fa & E & Hinv & Hset).
  destruct (allocate_spec fa Hinv) as (fa' & [f|e] & E' & _ & Hr).
  - exists fa, fa', f. split_and!; [done|done|]. apply (allocate_from_hint fa fa' f Hinv E').
  - exfalso. destruct Hr as (_ & He & _). assert (0 ∈ free_set (bitmap fa)) as H0 by (apply Hset; lia).
    rewrite He in H0. by apply not_elem_of_empty in H0.
Defined.

(** [deallocate] preserves the invariant, rejects a frame beyond the
    bitmap with [InvalidFrame], adds any other frame to the free set, and a
    second deallocation of a free frame changes nothing. *)
Theorem deallocate_correct (fa : FrameAllocator) (f : Frame) :
  fa_inv fa -> 0 <= frame_number f ->
  exists fa' r, FrameAllocator_deallocate fa f = Done (fa', r) /\ fa_inv fa' /\
    (MAX_FRAMES <= frame_number f -> r = Err InvalidFrame /\ fa' = fa) /\
    (frame_number f < MAX_FRAMES -> r = Ok tt /\
       free_set (bitmap fa') = free_set (bitmap fa) ∪ {[frame_number f]} /\
       FrameAllocator_deallocate fa' f = Done (fa', Ok tt)).
Proof.
  intros Hinv Hf. destruct (deallocate_spec fa f Hinv Hf) as (fa' & r & E & Hinv' & Hr).
  exists fa', r. split_and!; [done|done| |].
  - intros Hge. by rewrite (proj2 (Z.leb_le _ _)) in Hr by lia.
  - intros Hlt. destruct (deallocate_spec fa' f Hinv' Hf) as (fa2 & r2 & E2 & _ & Hr2).
    rewrite (proj2 (Z.leb_gt _ _)) in Hr, Hr2 by lia.
    destruct Hr as (-> & Hset & _), Hr2 as (-> & _ & Hsame). split_and!; [done|done|].
    rewrite E2, Hsame; [done|]. rewrite Hset. apply elem_of_union_r, elem_of_singleton. done.
Qed.

Lemma deallocate_correct_witness : exists fa fa' r,
  FrameAllocator_deallocate fa (Frame_new 9) = Done (fa', r) /\ r = Ok tt /\ fa_inv fa'.
Proof.
  destruct example_init as (fa & E & Hinv & _).
  destruct (deallocate_correct fa (Frame_new 9) Hinv) as (fa' & r & E' & Hinv' & _ & Hr); [cbn; lia|].
  exists fa, fa', r. split_and!; [done|apply Hr; cbn; frame_consts; lia|done].
Defined.

(** [reserve_range] preserves the invariant and removes from the free set
    exactly the [ceil(size / 4096)] frames that start at the frame of the
    base address; for a page-aligned base no frame that meets
    [base, base + size) stays free. *)
Theorem reserve_range_correct (fa : FrameAllocator) (base : Address) (size : Z) :
  fa_inv fa -> 0 <= to_raw base < 2 ^ 47 -> uint_range 64 size ->
  exists fa', reserve_range base size fa = Done fa' /\ fa_inv fa' /\
    (forall n, n ∈ free_set (bitmap fa') <-> n ∈ free_set (bitmap fa) /\
       ~ (to_raw base / PAGE_SIZE <= n < to_raw base / PAGE_SIZE + div_ceil size PAGE_SIZE)) /\
    (is_page_aligned base = true -> forall n, n ∈ free_set (bitmap fa') ->
       (n + 1) * PAGE_SIZE <= to_raw base \/ to_raw base + size <= n * PAGE_SIZE).
Proof.
  intros Hinv Hb Hs. destruct (reserve_range_spec fa base size Hinv Hb Hs) as (fa' & E & Hinv' & Hset).
  exists fa'. split_and!; [done|done|done|]. intros Ha n [_ Hn]%Hset.
  rewrite is_page_aligned_mod in Ha. bool_hyps. unfold uint_range in Hs.
  destruct (div_ceil_spec size PAGE_SIZE) as [H1 _]; [lia|done|].
  set (c := div_ceil size PAGE_SIZE) in *. unfold PAGE_SIZE, KIBIBYTE in *. Z.div_mod_to_equations. lia.
Qed.

Lemma reserve_range_correct_witness : exists fa fa', fa_inv fa /\
  reserve_range (Address_new 4096) 4097 fa = Done fa' /\ 1 ∉ free_set (bitmap fa').
Proof.
  destruct example_init as (fa & E & Hinv & _).
  destruct (reserve_range_correct fa (Address_new 4096) 4097 Hinv) as (fa' & E' & _ & Hset & _).
  - split; [by vm_compute|by vm_compute].
  - unfold uint_range. lia.
  - exists fa, fa'. split_and!; [done|done|]. intros [_ H]%Hset. apply H. by vm_compute.
Defined.
