(* ===== verification/Paging.v ===== *)
(** * crates/memory-types/src/paging.rs: four-level page tables

    Page tables live in physical memory, which is a map from (frame number,
    word index) to 64-bit words: the kernel identity-maps physical memory, so
    the pointer [get_table] builds from a frame's base address is that frame.
    A table is named by its frame, an entry by its table and index, and every
    write goes through the shared memory, so aliasing between tables is
    expressible. The mapping functions run in a state of memory, frame
    allocator and the log of flushed pages, and are proved correct for any
    allocator that meets the [FrameAlloc] contract. The abstract state is the
    [view]: the level 1 entry each page resolves to. *)

From Stdlib Require Import Lia Btauto.
From stdpp Require Import base numbers list option strings tactics gmap fin_sets sets.
From S2P Require Import Prelude BitUtils MemoryTypes FrameAllocator.

Local Open Scope Z_scope.
Local Open Scope u64_scope.

(** ** [PageTableFlags] *)

Definition PRESENT : Z := flag 64 0.
Definition WRITABLE : Z := flag 64 1.
Definition USER_ACCESSIBLE : Z := flag 64 2.
Definition WRITE_THROUGH : Z := flag 64 3.
Definition NO_CACHE : Z := flag 64 4.
Definition ACCESSED : Z := flag 64 5.
Definition DIRTY : Z := flag 64 6.
Definition HUGE_PAGE : Z := flag 64 7.
Definition GLOBAL : Z := flag 64 8.
Definition NO_EXECUTE : Z := flag 64 63.

(** ** [PageTableEntry]: a transparent [usize] *)

Inductive EntryFrameError : Type := NotPresent | HugePage.

Inductive TranslationError : Type :=
  | NotMapped
  | TranslationHugePage
  | InvalidFrameAddress (a : Address).

Inductive MappingError : Type :=
  | PageAlreadyMapped (to : Frame)
  | FrameAllocationFailed
  | MappedToHugePage.

Definition TranslationError_from (e : EntryFrameError) : TranslationError :=
  match e with NotPresent => NotMapped | HugePage => TranslationHugePage end.

Definition ADDRESS_MASK : Z := 0x000FFFFFFFFFF000.

Definition is_unused (v : Z) : bool := v =? 0.

Definition entry_flags (v : Z) : Z := Z.land v (wnot 64 ADDRESS_MASK).

Definition is_present (v : Z) : bool := flags_get (entry_flags v) PRESENT.
Definition is_writable (v : Z) : bool := flags_get (entry_flags v) WRITABLE.
Definition is_huge_page (v : Z) : bool := flags_get (entry_flags v) HUGE_PAGE.

Definition entry_addr (v : Z) : Address := Address_new (Z.land v ADDRESS_MASK).

Definition entry_frame (v : Z) : exec (result Frame EntryFrameError) :=
  if negb (is_present v) then Done (Err NotPresent)
  else if is_huge_page v then Done (Err HugePage)
  else f ← Frame_containing_addr (entry_addr v); Done (Ok f).

(** The new value of the entry; [assert!] as in the source. *)
Definition entry_set_addr (addr : Address) (flags : Z) : exec Z :=
  if is_page_aligned addr && is_physical addr
  then Done (Z.lor (to_raw addr) (flags_bits flags)) else Panic.

Definition entry_set_frame (frame : Frame) (flags : Z) : exec Z :=
  if negb (flags_bitand flags HUGE_PAGE =? HUGE_PAGE)
  then entry_set_addr (Frame_base_addr frame) flags else Panic.

Definition entry_set_flags (v flags : Z) : Z := Z.lor (to_raw (entry_addr v)) (flags_bits flags).

(** ** [PageRange] *)

Record PageRange : Type := mkRange { range_start : Page; range_end : Page }.

Definition PageRange_new (start end_ : Page) : PageRange := mkRange start end_.

Definition PageRange_from_start_len (start : Page) (len : Z) : exec PageRange :=
  end_ ← Page_add start len; Done (mkRange start end_).

Definition PageRange_from_end_size (end_ : Page) (size : Z) : exec PageRange :=
  let len := div_ceil size PAGE_SIZE in
  start ← Page_sub end_ len; Done (mkRange start end_).

Definition PageRange_from_base_size (base : Address) (size : Z) : exec PageRange :=
  let start := Page_containing_addr base in
  let len := div_ceil size PAGE_SIZE in
  end_ ← Page_add start len; Done (mkRange start end_).

Definition PageRange_from_base_len (base : Address) (len : Z) : exec PageRange :=
  end_ ← Page_add (Page_containing_addr base) len;
  Done (mkRange (Page_containing_addr base) end_).

Definition PageRange_len (r : PageRange) : Z := page_number (range_end r) ⊟ page_number (range_start r).

(** [Iterator::next]. *)
Definition PageRange_next (r : PageRange) : exec (option Page * PageRange) :=
  if page_number (range_start r) <? page_number (range_end r) then
    let page := range_start r in
    start ← Page_add (range_start r) 1;
    Done (Some page, mkRange start (range_end r))
  else Done (None, r).

(** ** Page tables in physical memory *)

Abbreviation pmem := (gmap (Z * Z) Z).
Definition mread (m : pmem) (f i : Z) : Z := default 0 (m !! (f, i)).
Definition mwrite (m : pmem) (f i v : Z) : pmem := <[(f, i) := v]> m.

(** [ops::Index] and [ops::IndexMut]: bounds-checked. *)
Definition PageTable_index (m : pmem) (t : Frame) (i : Z) : exec Z :=
  if i <? ENTRIES_PER_PAGE_TABLE then Done (mread m (frame_number t) i) else Panic.

(** [for entry in self.iter_mut() { entry.set_unused() }]. *)
Definition PageTable_clear (m : pmem) (t : Frame) : pmem :=
  fold_left (fun m i => mwrite m (frame_number t) i 0) (seqZ 0 ENTRIES_PER_PAGE_TABLE) m.

(** [FlushMapping(page)]. *)
Record FlushMapping : Type := mkFlush { flush_page : Page }.

Record AddressTranslation : Type := mkTranslation {
  tr_frame : Frame; tr_offset : Z; tr_flags : Z
}.

Record ptstate (A : Type) : Type := mkPt {
  pt_mem : pmem;
  pt_alloc : A;
  pt_flushed : list Page
}.
Arguments mkPt {A} _ _ _.
Arguments pt_mem {A} _.
Arguments pt_alloc {A} _.
Arguments pt_flushed {A} _.

Definition set_mem {A} (s : ptstate A) (m : pmem) : ptstate A := mkPt m (pt_alloc s) (pt_flushed s).
Definition flush {A} (s : ptstate A) (f : FlushMapping) : ptstate A :=
  mkPt (pt_mem s) (pt_alloc s) (pt_flushed s ++ [flush_page f]).

(** ** [Level4PageTable] *)

Definition get_table (entry : Z) : exec (result Frame EntryFrameError) := entry_frame entry.

Section Mapper.
Context {A : Type} `{FrameAlloc A}.

(** Computations over the state that may return early with an error ([?]). *)
Definition mapper (R : Type) : Type := ptstate A -> exec (ptstate A * result R MappingError).
Definition mapper_ret {R} (r : R) : mapper R := fun s => Done (s, Ok r).
Definition mapper_err {R} (e : MappingError) : mapper R := fun s => Done (s, Err e).
Definition mapper_bind {R T} (c : mapper R) (k : R -> mapper T) : mapper T := fun s =>
  '(s, r) ← c s;
  match r with Ok x => k x s | Err e => Done (s, Err e) end.
Local Notation "'let?' x := c 'in' k" := (mapper_bind c (fun x => k)) (at level 10, x name, c at level 100, k at level 200).

(** [&mut table[i]]: the value, and the write through the reference. *)
Definition load (t : Frame) (i : Z) : mapper Z := fun s =>
  v ← PageTable_index (pt_mem s) t i; Done (s, Ok v).
Definition store (t : Frame) (i v : Z) : mapper unit := fun s =>
  Done (set_mem s (mwrite (pt_mem s) (frame_number t) i v), Ok tt).
Definition mapper_alloc : mapper (option Frame) := fun s =>
  '(a, o) ← allocate_frame (pt_alloc s); Done (mkPt (pt_mem s) a (pt_flushed s), Ok o).
Definition mapper_exec {R} (e : exec R) : mapper R := fun s => r ← e; Done (s, Ok r).
Definition mapper_clear (t : Frame) : mapper unit := fun s =>
  Done (set_mem s (PageTable_clear (pt_mem s) t), Ok tt).
Definition mapper_flush (f : FlushMapping) : mapper unit := fun s => Done (flush s f, Ok tt).

(** [next_table(&mut table[index], flags, allocator)]. *)
Definition next_table (t : Frame) (i flags : Z) : mapper Frame :=
  let? entry := load t i in
  let new := is_unused entry in
  let? _ :=
    if new then
      let? o := mapper_alloc in
      match o with
      | Some frame => let? v := mapper_exec (entry_set_frame frame flags) in store t i v
      | None => mapper_err FrameAllocationFailed
      end
    else if negb (flags =? flags_NONE) && negb (flags_bitand (entry_flags entry) flags =? flags)
    then store t i (entry_set_flags entry (flags_bitor (entry_flags entry) flags))
    else mapper_ret tt in
  let? entry := load t i in
  let? r := mapper_exec (get_table entry) in
  match r with
  | Ok page_table =>
      let? _ := if new then mapper_clear page_table else mapper_ret tt in
      mapper_ret page_table
  | Err HugePage => mapper_err MappedToHugePage
  | Err NotPresent => mapper_exec Panic
  end.

Definition parent_flags (flags : Z) : Z :=
  flags_bitand flags (flags_bitor (flags_bitor PRESENT WRITABLE) USER_ACCESSIBLE).

Definition map_to (l4 : Frame) (page : Page) (frame : Frame) (flags : Z) : mapper FlushMapping :=
  let parent_table_flags := parent_flags flags in
  let? l3 := next_table l4 (Page_l4_index page) parent_table_flags in
  let? l2 := next_table l3 (Page_l3_index page) parent_table_flags in
  let? l1 := next_table l2 (Page_l2_index page) parent_table_flags in
  let? entry := load l1 (Page_l1_index page) in
  if negb (is_unused entry) then mapper_err (PageAlreadyMapped frame)
  else
    let? v := mapper_exec (entry_set_frame frame flags) in
    let? _ := store l1 (Page_l1_index page) v in
    mapper_ret (mkFlush page).

(** [for _ in 0..n { if page_iter.next().is_none() { break; } }]. *)
Fixpoint skip_pages (n : nat) (r : PageRange) : exec PageRange :=
  match n with
  | O => Done r
  | S n' =>
      '(o, r') ← PageRange_next r;
      match o with Some _ => skip_pages n' r' | None => Done r' end
  end.

(** One iteration of [set_flags]' loop: the iterator left for the next one. *)
Definition set_flags_step (l4 : Frame) (flags : Z) (page : Page) (page_iter : PageRange) : mapper PageRange :=
  let parent_table_flags := parent_flags flags in
  let? l3 := next_table l4 (Page_l4_index page) parent_table_flags in
  let? e3 := load l3 (Page_l3_index page) in
  if is_huge_page e3 then
    let? _ := store l3 (Page_l3_index page) (entry_set_flags e3 (flags_bitor flags HUGE_PAGE)) in
    let? _ := mapper_flush (mkFlush page) in
    mapper_exec (skip_pages (Z.to_nat PAGES_PER_L3_HUGE_PAGE) page_iter)
  else
    let? l2 := next_table l3 (Page_l3_index page) parent_table_flags in
    let? e2 := load l2 (Page_l2_index page) in
    if is_huge_page e2 then
      let? _ := store l2 (Page_l2_index page) (entry_set_flags e2 (flags_bitor flags HUGE_PAGE)) in
      let? _ := mapper_flush (mkFlush page) in
      mapper_exec (skip_pages (Z.to_nat PAGES_PER_L2_HUGE_PAGE) page_iter)
    else
      let? l1 := next_table l2 (Page_l2_index page) parent_table_flags in
      let? e1 := load l1 (Page_l1_index page) in
      if negb (is_unused e1) then
        let? _ := store l1 (Page_l1_index page) (entry_set_flags e1 flags) in
        let? _ := mapper_flush (mkFlush page) in
        mapper_ret page_iter
      else mapper_ret page_iter.

(** [while let Some(page) = page_iter.next()]; each iteration consumes a page,
    so one more than the length of the range is enough fuel. *)
Fixpoint set_flags_loop (fuel : nat) (l4 : Frame) (flags : Z) (page_iter : PageRange) : mapper unit :=
  match fuel with
  | O => mapper_exec Panic
  | S fuel' =>
      let? n := mapper_exec (PageRange_next page_iter) in
      match n with
      | (None, _) => mapper_ret tt
      | (Some page, page_iter) =>
          let? page_iter := set_flags_step l4 flags page page_iter in
          set_flags_loop fuel' l4 flags page_iter
      end
  end.

Definition set_flags (l4 : Frame) (pages : PageRange) (flags : Z) : mapper unit :=
  set_flags_loop (S (Z.to_nat (page_number (range_end pages) - page_number (range_start pages)))) l4 flags pages.

End Mapper.

(** The level 1 table a page's indices lead to: the common prefix of
    [translate_page] and [translate_addr]. *)
Definition translate_l1 (m : pmem) (l4 : Frame) (i4 i3 i2 : Z) : exec (result Frame TranslationError) :=
  e4 ← PageTable_index m l4 i4;
  r3 ← get_table e4;
  match r3 with
  | Err e => Done (Err (TranslationError_from e))
  | Ok l3 =>
      e3 ← PageTable_index m l3 i3;
      r2 ← get_table e3;
      match r2 with
      | Err e => Done (Err (TranslationError_from e))
      | Ok l2 =>
          e2 ← PageTable_index m l2 i2;
          r1 ← get_table e2;
          match r1 with
          | Err e => Done (Err (TranslationError_from e))
          | Ok l1 => Done (Ok l1)
          end
      end
  end.

Definition translate_page (m : pmem) (l4 : Frame) (page : Page) : exec (result Frame TranslationError) :=
  r ← translate_l1 m l4 (Page_l4_index page) (Page_l3_index page) (Page_l2_index page);
  match r with
  | Err e => Done (Err e)
  | Ok l1 =>
      l1_entry ← PageTable_index m l1 (Page_l1_index page);
      if is_unused l1_entry then Done (Err NotMapped)
      else
        o ← Frame_from_base_addr (entry_addr l1_entry);
        Done (ok_or o (InvalidFrameAddress (entry_addr l1_entry)))
  end.

Definition translate_addr (m : pmem) (l4 : Frame) (addr : Address) : exec (result AddressTranslation TranslationError) :=
  r ← translate_l1 m l4 (l4_index addr) (l3_index addr) (l2_index addr);
  match r with
  | Err e => Done (Err e)
  | Ok l1 =>
      l1_entry ← PageTable_index m l1 (l1_index addr);
      if is_unused l1_entry then Done (Err NotMapped)
      else
        o ← Frame_from_base_addr (entry_addr l1_entry);
        match ok_or o (InvalidFrameAddress (entry_addr l1_entry)) with
        | Ok frame => Done (Ok (mkTranslation frame (page_offset addr) (entry_flags l1_entry)))
        | Err e => Done (Err e)
        end
  end.

(** ** Lemmas: entries *)

(** The physical address bits of an entry lie below the 47-bit limit. *)
Definition phys_entry (v : Z) : Prop := Z.land v ADDRESS_MASK < 2 ^ 47.

(** Flags that touch no address bit. *)
Definition flags_ok (flags : Z) : Prop := uint_range 64 flags /\ Z.land flags ADDRESS_MASK = 0.

(** The table an entry points to, when its address is physical. *)
Definition child (v : Z) : result Z EntryFrameError :=
  if negb (is_present v) then Err NotPresent
  else if is_huge_page v then Err HugePage
  else Ok (Z.land v ADDRESS_MASK / PAGE_SIZE).

Lemma testbit_mask i : Z.testbit ADDRESS_MASK i = (12 <=? i) && (i <? 52).
Proof.
  change ADDRESS_MASK with (Z.shiftl (Z.ones 40) 12).
  destruct (Z.lt_ge_cases i 0); [rewrite Z.testbit_neg_r, (proj2 (Z.leb_gt 12 i)) by lia; done|].
  rewrite Z.shiftl_spec by lia. destruct (Z.lt_ge_cases i 12).
  - rewrite Z.testbit_neg_r, (proj2 (Z.leb_gt 12 i)) by lia. done.
  - rewrite Z.testbit_ones_nonneg, (proj2 (Z.leb_le 12 i)) by lia. cbn.
    destruct (i - 12 <? 40) eqn:E1, (i <? 52) eqn:E2; bool_hyps; done || lia.
Qed.

Lemma flags_get_bit x b : 0 <= b < 64 -> flags_get x (flag 64 b) = Z.testbit x b.
Proof.
  intros. unfold flags_get. rewrite flag_pow2 by lia.
  assert (Z.land x (2 ^ b) = if Z.testbit x b then 2 ^ b else 0) as ->.
  { apply Z.bits_inj'. intros i Hi. rewrite Z.land_spec, testbit_pow2 by lia.
    destruct (i =? b) eqn:E; bool_hyps; subst.
    - destruct (Z.testbit x b); [by rewrite testbit_pow2, Z.eqb_refl by lia|by rewrite Z.bits_0].
    - rewrite andb_false_r. destruct (Z.testbit x b); [|by rewrite Z.bits_0].
      rewrite testbit_pow2 by lia. by rewrite (proj2 (Z.eqb_neq _ _)). }
  destruct (Z.testbit x b); [by rewrite Z.eqb_refl|]. apply Z.eqb_neq. lia.
Qed.

Lemma testbit_entry_flags v i : 0 <= i < 64 ->
  Z.testbit (entry_flags v) i = Z.testbit v i && negb ((12 <=? i) && (i <? 52)).
Proof.
  intros. unfold entry_flags. rewrite Z.land_spec, testbit_wnot, testbit_mask by lia.
  by rewrite (proj2 (Z.ltb_lt i 64)) by lia.
Qed.

Lemma is_present_bit v : is_present v = Z.testbit v 0.
Proof. unfold is_present, PRESENT. rewrite flags_get_bit, testbit_entry_flags by lia. cbn. btauto. Qed.
Lemma is_huge_page_bit v : is_huge_page v = Z.testbit v 7.
Proof. unfold is_huge_page, HUGE_PAGE. rewrite flags_get_bit, testbit_entry_flags by lia. cbn. btauto. Qed.

Lemma land_mask_value v : uint_range 64 v -> Z.land v ADDRESS_MASK = v mod 2 ^ 52 - v mod 2 ^ 12.
Proof.
  intros Hv. replace (v mod 2 ^ 52 - v mod 2 ^ 12) with (Z.shiftl (v mod 2 ^ 52 / 2 ^ 12) 12).
  2:{ rewrite Z.shiftl_mul_pow2 by lia. Z.div_mod_to_equations. lia. }
  apply Z.bits_inj'. intros i Hi. rewrite Z.land_spec, testbit_mask, Z.shiftl_spec by lia.
  destruct (Z.lt_ge_cases i 12).
  - rewrite (proj2 (Z.leb_gt 12 i)), (Z.testbit_neg_r _ (i - 12)) by lia. btauto.
  - rewrite (proj2 (Z.leb_le 12 i)), <-Z.shiftr_div_pow2, Z.shiftr_spec by lia.
    replace (i - 12 + 12) with i by lia. destruct (i <? 52) eqn:E; bool_hyps.
    + rewrite Z.mod_pow2_bits_low by lia. btauto.
    + rewrite Z.mod_pow2_bits_high by lia. btauto.
Qed.

Lemma entry_base v : uint_range 64 v -> phys_entry v ->
  0 <= Z.land v ADDRESS_MASK < 2 ^ 47 /\ Z.land v ADDRESS_MASK mod 2 ^ 12 = 0 /\
  entry_addr v = mkAddress (Z.land v ADDRESS_MASK).
Proof.
  intros Hv Hp. unfold phys_entry in Hp. unfold entry_addr.
  assert (0 <= Z.land v ADDRESS_MASK /\ Z.land v ADDRESS_MASK mod 2 ^ 12 = 0) as [H0 H1].
  { rewrite land_mask_value by done. split; Z.div_mod_to_equations; lia. }
  split_and!; try lia. apply Address_new_id. left. cbn [to_raw]. lia.
Qed.

Lemma entry_frame_child v : uint_range 64 v -> phys_entry v ->
  entry_frame v = Done (match child v with Ok f => Ok (Frame_new f) | Err e => Err e end).
Proof.
  intros Hv Hp. destruct (entry_base v Hv Hp) as (Hr & _ & Ha). unfold entry_frame, child.
  destruct (negb (is_present v)); [done|]. destruct (is_huge_page v); [done|].
  unfold Frame_containing_addr. rewrite Ha, (proj2 (is_physical_lt _)) by (cbn; lia). done.
Qed.

(** An entry built from a page-aligned physical address and flags keeps both. *)
Lemma entry_make base flags : 0 <= base < 2 ^ 47 -> base mod 2 ^ 12 = 0 -> flags_ok flags ->
  let v := Z.lor base flags in
  uint_range 64 v /\ Z.land v ADDRESS_MASK = base /\ entry_flags v = flags /\ phys_entry v.
Proof.
  intros Hb Ha [Hf Hm]. cbv zeta. assert (uint_range 64 base) as Hb64 by (unfold uint_range; lia).
  assert (Hbit : forall i, 0 <= i -> Z.testbit flags i && ((12 <=? i) && (i <? 52)) = false).
  { intros i Hi. rewrite <-testbit_mask, <-Z.land_spec, Hm. apply Z.bits_0. }
  assert (Hlow : forall i, 0 <= i < 12 -> Z.testbit base i = false) by (intros; by apply (mod_pow2_bits_eq0 12)).
  assert (Hhigh : forall i, 47 <= i -> Z.testbit base i = false).
  { intros. apply (testbit_high 47); [unfold uint_range; lia|lia]. }
  assert (Hland : Z.land (Z.lor base flags) ADDRESS_MASK = base).
  { apply Z.bits_inj'. intros i Hi. rewrite Z.land_spec, Z.lor_spec, testbit_mask. specialize (Hbit i Hi).
    destruct (Z.lt_ge_cases i 12); [rewrite Hlow, (proj2 (Z.leb_gt 12 i)) by lia; btauto|].
    destruct (Z.lt_ge_cases i 47); [|rewrite Hhigh by lia; exact Hbit].
    rewrite (proj2 (Z.leb_le 12 i)), (proj2 (Z.ltb_lt i 52)) in * by lia. cbn in *.
    rewrite andb_true_r in *. rewrite Hbit. btauto. }
  split_and!; [by apply lor_range|done| |unfold phys_entry; lia].
  apply Z.bits_inj'. intros i Hi. destruct (Z.lt_ge_cases i 64).
  - rewrite testbit_entry_flags, Z.lor_spec by lia. specialize (Hbit i Hi).
    destruct (Z.lt_ge_cases i 12); [rewrite Hlow, (proj2 (Z.leb_gt 12 i)) by lia; btauto|].
    destruct (Z.lt_ge_cases i 47); [|rewrite Hhigh by lia; destruct (Z.testbit flags i), ((12 <=? i) && (i <? 52)); done].
    rewrite (proj2 (Z.leb_le 12 i)), (proj2 (Z.ltb_lt i 52)) in * by lia. cbn in *.
    rewrite andb_true_r in Hbit. rewrite Hbit. btauto.
  - unfold entry_flags. rewrite Z.land_spec, testbit_wnot, (testbit_high 64 flags), (proj2 (Z.ltb_ge i 64)) by (done || lia). btauto.
Qed.

Lemma flag_bits_of v flags : entry_flags v = flags ->
  is_present v = Z.testbit flags 0 /\ is_huge_page v = Z.testbit flags 7.
Proof.
  intros <-. rewrite is_present_bit, is_huge_page_bit, !testbit_entry_flags by lia. cbn. split; btauto.
Qed.

Lemma huge_assert flags : negb (flags_bitand flags HUGE_PAGE =? HUGE_PAGE) = negb (Z.testbit flags 7).
Proof. f_equal. apply (flags_get_bit flags 7). lia. Qed.

Lemma entry_set_frame_spec f flags : 0 <= frame_number f < 2 ^ 35 -> flags_ok flags -> Z.testbit flags 7 = false ->
  exists v, entry_set_frame f flags = Done v /\ uint_range 64 v /\ phys_entry v /\
    entry_flags v = flags /\ entry_addr v = Frame_base_addr f /\
    child v = if Z.testbit flags 0 then Ok (frame_number f) else Err NotPresent.
Proof.
  intros Hf Hok Hh. unfold entry_set_frame. rewrite huge_assert, Hh. cbn [negb].
  unfold entry_set_addr. rewrite Frame_base_addr_aligned, Frame_base_addr_physical by done. cbn [andb].
  rewrite Frame_base_addr_raw by done. unfold flags_bits.
  destruct (entry_make (frame_number f * PAGE_SIZE) flags) as (Hr & Hm & Hfl & Hp); [| |done|].
  { unfold PAGE_SIZE, KIBIBYTE. lia. }
  { by rewrite Z.mod_mul. }
  set (v := Z.lor _ _) in *. destruct (flag_bits_of _ _ Hfl) as [Hpr Hhu].
  destruct (entry_base v Hr Hp) as (_ & _ & Ha).
  exists v. split_and!; try done.
  - rewrite Ha, Hm. rewrite <-Frame_base_addr_raw by done. by destruct (Frame_base_addr f).
  - unfold child. rewrite Hpr, Hhu, Hh, Hm, Z.div_mul by done. by destruct (Z.testbit flags 0).
Qed.

Lemma entry_set_flags_spec v flags : uint_range 64 v -> phys_entry v -> flags_ok flags ->
  let v' := entry_set_flags v flags in
  uint_range 64 v' /\ phys_entry v' /\ entry_flags v' = flags /\ entry_addr v' = entry_addr v /\
  Z.land v' ADDRESS_MASK = Z.land v ADDRESS_MASK.
Proof.
  intros Hr Hp Hok. destruct (entry_base v Hr Hp) as (Hb & Ha & He). cbv zeta.
  unfold entry_set_flags, flags_bits. rewrite He. cbn [to_raw].
  destruct (entry_make _ flags Hb Ha Hok) as (Hr' & Hm & Hfl & Hp'). set (v' := Z.lor _ _) in *.
  destruct (entry_base v' Hr' Hp') as (_ & _ & He'). split_and!; try done. rewrite He'. by f_equal.
Qed.

Lemma entry_flags_ok v : uint_range 64 v -> flags_ok (entry_flags v).
Proof.
  intros Hv. split.
  - apply land_range; [lia|done|]. apply wrap_range. lia.
  - unfold entry_flags. rewrite <-Z.land_assoc.
    assert (Z.land (wnot 64 ADDRESS_MASK) ADDRESS_MASK = 0) as -> by reflexivity. apply Z.land_0_r.
Qed.

Lemma flags_ok_lor a b : flags_ok a -> flags_ok b -> flags_ok (Z.lor a b).
Proof.
  intros [Ha Hma] [Hb Hmb]. split; [by apply lor_range|]. rewrite Z.land_lor_distr_l, Hma, Hmb. done.
Qed.

(** [parent_flags] keeps the lowest three flags only. *)
Lemma parent_flags_bits flags i : Z.testbit (parent_flags flags) i = Z.testbit flags i && ((0 <=? i) && (i <? 3)).
Proof.
  unfold parent_flags, flags_bitand. rewrite Z.land_spec. f_equal.
  change (flags_bitor (flags_bitor PRESENT WRITABLE) USER_ACCESSIBLE) with (Z.ones 3).
  destruct (Z.lt_ge_cases i 0).
  - by rewrite Z.testbit_neg_r, (proj2 (Z.leb_gt 0 i)) by lia.
  - by rewrite Z.testbit_ones_nonneg, (proj2 (Z.leb_le 0 i)) by lia.
Qed.

Lemma parent_flags_ok flags : flags_ok flags -> flags_ok (parent_flags flags) /\ Z.testbit (parent_flags flags) 7 = false /\
  Z.testbit (parent_flags flags) 0 = Z.testbit flags 0.
Proof.
  intros [Hr Hm]. split_and!; [split| |].
  - apply land_range; [lia|done|]. by vm_compute.
  - unfold parent_flags, flags_bitand. rewrite <-Z.land_assoc, (Z.land_comm _ ADDRESS_MASK).
    rewrite Z.land_assoc, Hm. done.
  - rewrite parent_flags_bits. cbn. btauto.
  - rewrite parent_flags_bits. cbn. btauto.
Qed.

(** ** Lemmas: memory *)

Lemma mread_mwrite m f i v g j : mread (mwrite m f i v) g j = if decide ((g, j) = (f, i)) then v else mread m g j.
Proof.
  unfold mread, mwrite. destruct (decide ((g, j) = (f, i))) as [->|]; [by rewrite lookup_insert_eq|].
  by rewrite lookup_insert_ne.
Qed.

Lemma mread_clear m t g j : mread (PageTable_clear m t) g j =
  if decide (g = frame_number t /\ 0 <= j < 512) then 0 else mread m g j.
Proof.
  unfold PageTable_clear. change ENTRIES_PER_PAGE_TABLE with 512.
  assert (forall l m, mread (fold_left (fun m i => mwrite m (frame_number t) i 0) l m) g j =
    if decide (g = frame_number t /\ j ∈ l) then 0 else mread m g j) as Hfold.
  { clear m. induction l as [|x l IH]; intros m; cbn [fold_left].
    - destruct (decide _) as [[_ H]|]; [by apply not_elem_of_nil in H|done].
    - rewrite IH, mread_mwrite. destruct (decide (g = frame_number t /\ j ∈ l)) as [[? ?]|Hn].
      + rewrite decide_True; [done|]. split; [done|by right].
      + destruct (decide ((g, j) = _)) as [[= -> ->]|Hne].
        * rewrite decide_True; [done|]. split; [done|by left].
        * rewrite decide_False; [done|]. intros [-> [->|?]%elem_of_cons]; [done|]. by apply Hn. }
  rewrite Hfold. apply decide_ext. rewrite elem_of_seqZ. tauto.
Qed.

Lemma PageTable_index_read m t i : table_index i -> PageTable_index m t i = Done (mread m (frame_number t) i).
Proof. intros Hi. unfold PageTable_index, table_index in *. by rewrite (proj2 (Z.ltb_lt _ _)) by (change ENTRIES_PER_PAGE_TABLE with 512; lia). Qed.

(** ** Abstraction: walks, well-formed trees and views *)

(** The table a list of indices leads to. *)
Fixpoint walk (m : pmem) (f : Z) (p : list Z) : result Z EntryFrameError :=
  match p with
  | [] => Ok f
  | i :: p' => match child (mread m f i) with Ok g => walk m g p' | Err e => Err e end
  end.

(** A path to a table below the root: at most three indices. *)
Definition path (n : nat) (p : list Z) : Prop := (length p <= n)%nat /\ Forall table_index p.

Definition inner_entry (v : Z) : Prop := v = 0 \/ (is_present v = true /\ phys_entry v).

(** A well-formed tree: distinct paths lead to distinct tables, no table is
    among the frames [av] the allocator can still hand out, and every entry
    above level 1 is unused or present with a physical address. *)
Record pt_wf (m : pmem) (root : Z) (av : gset Z) : Prop := {
  wf_words : forall f i, uint_range 64 (mread m f i);
  wf_inj : forall p q f, path 3 p -> path 3 q -> walk m root p = Ok f -> walk m root q = Ok f -> p = q;
  wf_avail : forall p f, path 3 p -> walk m root p = Ok f -> f ∉ av;
  wf_inner : forall p f i, path 2 p -> table_index i -> walk m root p = Ok f -> inner_entry (mread m f i);
  wf_leaf : forall p f i, path 3 p -> length p = 3%nat -> table_index i -> walk m root p = Ok f -> phys_entry (mread m f i)
}.

(** The level 1 entry a page resolves to, or the error translation reports. *)
Definition view (m : pmem) (root i4 i3 i2 i1 : Z) : result Z TranslationError :=
  match walk m root [i4; i3; i2] with
  | Ok f => if is_unused (mread m f i1) then Err NotMapped else Ok (mread m f i1)
  | Err e => Err (TranslationError_from e)
  end.

Lemma walk_app m p : forall f q, walk m f (p ++ q) = match walk m f p with Ok g => walk m g q | Err e => Err e end.
Proof.
  induction p as [|i p IH]; intros f q; [done|]. cbn [walk app]. destruct (child _); [apply IH|done].
Qed.

Lemma path_snoc n p i : path n (p ++ [i]) -> path (n - 1) p /\ table_index i /\ (1 <= n)%nat.
Proof.
  intros [Hl Hf]. rewrite length_app in Hl. cbn in Hl. apply Forall_app in Hf as [Hp Hi].
  apply Forall_inv in Hi. split; [split; [lia|done]|]. split; [done|lia].
Qed.

Lemma path_le n k p : (n <= k)%nat -> path n p -> path k p.
Proof. intros ? [? ?]. split; [lia|done]. Qed.

Lemma path_app1 n p i : path n p -> table_index i -> path (S n) (p ++ [i]).
Proof. intros [Hl Hf] Hi. split; [rewrite length_app; cbn; lia|]. apply Forall_app_2; [done|]. by apply Forall_singleton. Qed.

Lemma path_3 i4 i3 i2 : table_index i4 -> table_index i3 -> table_index i2 ->
  path 0 [] /\ path 1 [i4] /\ path 2 [i4; i3] /\ path 3 [i4; i3; i2].
Proof. intros H4 H3 H2. unfold path. cbn. rewrite !Forall_cons, Forall_nil. unfold table_index in *. lia. Qed.

(** Walks only read entries through [child]. *)
Lemma walk_child_ext m m' : (forall f i, child (mread m' f i) = child (mread m f i)) ->
  forall p f, walk m' f p = walk m f p.
Proof.
  intros Hc p. induction p as [|i p IH]; intros f; [done|]. cbn [walk]. rewrite Hc.
  destruct (child _); [apply IH|done].
Qed.

Lemma walk_root_ok m root av q j : pt_wf m root av -> walk m root (q ++ [j]) =
  match walk m root q with Ok h => child (mread m h j) | Err e => Err e end.
Proof. intros _. rewrite walk_app. destruct (walk m root q); [|done]. cbn. by destruct (child _). Qed.

Lemma child_0 : child 0 = Err NotPresent.
Proof. reflexivity. Qed.

(** A new zeroed table [g] installed in the unused entry [(f, i)]. *)
Section NewTable.
Context (m : pmem) (root : Z) (av : gset Z) (Hwf : pt_wf m root av).
Context (p : list Z) (f i g v : Z).
Hypothesis (Hp : path 2 p) (Hi : table_index i) (Hwalk : walk m root p = Ok f).
Hypothesis (Hold : mread m f i = 0).
Hypothesis (Hg : g ∈ av) (Hv : uint_range 64 v) (Hvp : phys_entry v) (Hvc : child v = Ok g).
Let m' : pmem := PageTable_clear (mwrite m f i v) (Frame_new g).

Lemma new_table_fresh q h : path 3 q -> walk m root q = Ok h -> h <> g.
Proof. intros Hq Hw ->. by eapply wf_avail. Qed.

Lemma new_table_read h j : mread m' h j =
  if decide (h = g /\ 0 <= j < 512) then 0 else if decide ((h, j) = (f, i)) then v else mread m h j.
Proof. subst m'. rewrite mread_clear, mread_mwrite. done. Qed.

Lemma new_table_read_old q h j : path 3 q -> walk m root q = Ok h ->
  mread m' h j = if decide (q ++ [j] = p ++ [i]) then v else mread m h j.
Proof.
  intros Hq Hw. pose proof (new_table_fresh q h Hq Hw). rewrite new_table_read, decide_False by tauto.
  destruct (decide ((h, j) = (f, i))) as [[= -> ->]|Hne].
  - rewrite decide_True; [done|]. f_equal. eapply wf_inj; eauto. eapply path_le; [|done]. lia.
  - rewrite decide_False; [done|]. intros [-> [= ->]]%app_inj_tail. congruence.
Qed.

Lemma new_table_walk q : path 3 q -> walk m' root q = if decide (q = p ++ [i]) then Ok g else walk m root q.
Proof.
  induction q as [|j q IH] using rev_ind; intros Hq.
  { rewrite decide_False; [done|]. by destruct p. }
  destruct (path_snoc _ _ _ Hq) as (Hq2 & Hj & _). cbn in Hq2.
  rewrite !walk_app, IH by (eapply path_le; [|done]; lia).
  destruct (decide (q = p ++ [i])) as [->|Hne].
  - rewrite decide_False by (intros E; apply (f_equal length) in E; rewrite !length_app in E; cbn in E; lia).
    rewrite walk_app, Hwalk. cbn [walk]. rewrite Hold, child_0, new_table_read, decide_True by done. done.
  - destruct (walk m root q) as [h|e] eqn:Eq.
    + cbn [walk]. rewrite (new_table_read_old q h j) by (done || (eapply path_le; [|done]; lia)).
      destruct (decide (q ++ [j] = p ++ [i])); [by rewrite Hvc|done].
    + rewrite decide_False; [done|]. intros [-> _]%app_inj_tail. congruence.
Qed.

Lemma new_table_wf : pt_wf m' root (av ∖ {[g]}).
Proof.
  assert (Hpi : path 3 (p ++ [i])) by by apply path_app1.
  split.
  - intros h j. rewrite new_table_read. destruct (decide _); [unfold uint_range; lia|].
    destruct (decide _); [done|]. by eapply wf_words.
  - intros q r h Hq Hr. rewrite !new_table_walk by done.
    destruct (decide (q = _)) as [->|], (decide (r = _)) as [->|]; [done| | |by eapply wf_inj].
    + intros [= <-] Hw. by apply new_table_fresh in Hw.
    + intros Hw [= <-]. by apply new_table_fresh in Hw.
  - intros q h Hq. rewrite new_table_walk by done. rewrite elem_of_difference, elem_of_singleton.
    destruct (decide _); [intros [= <-]; tauto|]. intros Hw. apply (wf_avail _ _ _ Hwf) in Hw; tauto.
  - intros q h j Hq Hj Hw. assert (path 3 q) as Hq3 by (eapply path_le; [|done]; lia).
    rewrite new_table_walk in Hw by done. destruct (decide _) as [->|].
    + injection Hw as <-. left. rewrite new_table_read, decide_True; done.
    + rewrite (new_table_read_old q) by done. destruct (decide _); [|by eapply wf_inner].
      right. split; [|done]. unfold child in Hvc. by destruct (is_present v).
  - intros q h j Hq Hl Hj Hw. rewrite new_table_walk in Hw by done. destruct (decide _) as [->|].
    + injection Hw as <-. rewrite new_table_read, decide_True by done. by vm_compute.
    + rewrite (new_table_read_old q) by done. destruct (decide _) as [E|]; [done|by eapply wf_leaf].
Qed.

Lemma new_table_view i4 i3 i2 i1 : table_index i4 -> table_index i3 -> table_index i2 -> table_index i1 ->
  view m' root i4 i3 i2 i1 = view m root i4 i3 i2 i1.
Proof.
  intros H4 H3 H2 H1. unfold view. assert (Hq : path 3 [i4; i3; i2]) by apply (path_3 i4 i3 i2 H4 H3 H2).
  rewrite new_table_walk by done. destruct (decide _) as [E|Hne].
  - rewrite E, new_table_read, decide_True by done. rewrite walk_app, Hwalk. cbn [walk]. by rewrite Hold, child_0.
  - destruct (walk m root [i4; i3; i2]) as [h|e] eqn:Ew; [|done].
    rewrite (new_table_read_old [i4; i3; i2]), decide_False; [done| |done|done].
    intros E. apply (f_equal length) in E. rewrite !length_app in E. destruct Hp as [Hl _]. cbn in E. lia.
Qed.
End NewTable.

(** An entry above level 1 rewritten without changing where it leads. *)
Section SameChild.
Context (m : pmem) (root : Z) (av : gset Z) (Hwf : pt_wf m root av).
Context (p : list Z) (f i v : Z).
Hypothesis (Hp : path 2 p) (Hi : table_index i) (Hwalk : walk m root p = Ok f).
Hypothesis (Hv : uint_range 64 v) (Hvi : inner_entry v) (Hvc : child v = child (mread m f i)).
Let m' : pmem := mwrite m f i v.

Lemma same_child_walk q h : walk m' h q = walk m h q.
Proof.
  apply walk_child_ext. intros g j. subst m'. rewrite mread_mwrite. by destruct (decide _) as [[= -> ->]|].
Qed.

Lemma same_child_leaf q h j : path 3 q -> length q = 3%nat -> walk m root q = Ok h -> mread m' h j = mread m h j.
Proof.
  intros Hq Hl Hw. subst m'. rewrite mread_mwrite, decide_False; [done|]. intros [= -> ->].
  assert (q = p) as -> by (eapply wf_inj; eauto; eapply path_le; [|done]; lia). destruct Hp. lia.
Qed.

Lemma same_child_wf : pt_wf m' root av.
Proof.
  split.
  - intros h j. subst m'. rewrite mread_mwrite. destruct (decide _); [done|by eapply wf_words].
  - intros q r h Hq Hr. rewrite !same_child_walk. by eapply wf_inj.
  - intros q h Hq. rewrite same_child_walk. by eapply wf_avail.
  - intros q h j Hq Hj. rewrite same_child_walk. intros Hw. subst m'. rewrite mread_mwrite.
    destruct (decide _); [done|by eapply wf_inner].
  - intros q h j Hq Hl Hj Hw. rewrite same_child_walk in Hw. rewrite (same_child_leaf q) by done. by eapply wf_leaf.
Qed.

Lemma same_child_view i4 i3 i2 i1 : table_index i4 -> table_index i3 -> table_index i2 ->
  view m' root i4 i3 i2 i1 = view m root i4 i3 i2 i1.
Proof.
  intros H4 H3 H2. unfold view. rewrite same_child_walk.
  destruct (walk m root [i4; i3; i2]) eqn:Ew; [|done]. rewrite (same_child_leaf [i4; i3; i2]); [done| |done|done].
  apply (path_3 i4 i3 i2 H4 H3 H2).
Qed.
End SameChild.

(** A level 1 entry written. *)
Section LeafWrite.
Context (m : pmem) (root : Z) (av : gset Z) (Hwf : pt_wf m root av).
Context (i4 i3 i2 i1 f v : Z).
Hypothesis (H4 : table_index i4) (H3 : table_index i3) (H2 : table_index i2) (H1 : table_index i1).
Hypothesis (Hwalk : walk m root [i4; i3; i2] = Ok f).
Hypothesis (Hv : uint_range 64 v) (Hvp : phys_entry v).
Let m' : pmem := mwrite m f i1 v.

Lemma leaf_write_inner q h j : path 2 q -> walk m root q = Ok h -> mread m' h j = mread m h j.
Proof.
  intros Hq Hw. subst m'. rewrite mread_mwrite, decide_False; [done|]. intros [= -> ->].
  assert (q = [i4; i3; i2]) as -> by (eapply wf_inj; eauto; [eapply path_le; [|done]; lia|by apply path_3]).
  destruct Hq as [Hl _]. cbn in Hl. lia.
Qed.

Lemma leaf_write_walk q : path 3 q -> walk m' root q = walk m root q.
Proof.
  induction q as [|j q IH] using rev_ind; intros Hq; [done|].
  destruct (path_snoc _ _ _ Hq) as (Hq2 & Hj & _). cbn in Hq2.
  rewrite !walk_app, IH by (eapply path_le; [|done]; lia).
  destruct (walk m root q) as [h|] eqn:E; [|done]. cbn [walk]. by rewrite (leaf_write_inner q).
Qed.

Lemma leaf_write_wf : pt_wf m' root av.
Proof.
  split.
  - intros h j. subst m'. rewrite mread_mwrite. destruct (decide _); [done|by eapply wf_words].
  - intros q r h Hq Hr. rewrite !leaf_write_walk by done. by eapply wf_inj.
  - intros q h Hq. rewrite leaf_write_walk by done. by eapply wf_avail.
  - intros q h j Hq Hj Hw. rewrite leaf_write_walk in Hw by (eapply path_le; [|done]; lia).
    rewrite (leaf_write_inner q) by done. by eapply wf_inner.
  - intros q h j Hq Hl Hj Hw. rewrite leaf_write_walk in Hw by done. subst m'. rewrite mread_mwrite.
    destruct (decide _); [done|by eapply wf_leaf].
Qed.

Lemma leaf_write_view j4 j3 j2 j1 : table_index j4 -> table_index j3 -> table_index j2 ->
  view m' root j4 j3 j2 j1 =
  if decide ([j4; j3; j2; j1] = [i4; i3; i2; i1]) then (if is_unused v then Err NotMapped else Ok v)
  else view m root j4 j3 j2 j1.
Proof.
  intros J4 J3 J2. assert (Hj : path 3 [j4; j3; j2]) by apply (path_3 j4 j3 j2 J4 J3 J2).
  unfold view. rewrite leaf_write_walk by done. destruct (decide _) as [[= -> -> -> ->]|Hne].
  - rewrite Hwalk. subst m'. by rewrite mread_mwrite, decide_True.
  - destruct (walk m root [j4; j3; j2]) as [h|] eqn:E; [|done].
    subst m'. rewrite mread_mwrite, decide_False; [done|]. intros [= -> ->]. apply Hne.
    assert ([j4; j3; j2] = [i4; i3; i2]) as [= -> -> ->]; [|done].
    eapply wf_inj; eauto. apply (path_3 i4 i3 i2 H4 H3 H2).
Qed.
End LeafWrite.

(** A tree none of whose tables has been written. *)
Section SameTables.
Context (m m' : pmem) (root : Z) (av av' : gset Z) (Hwf : pt_wf m root av).
Hypothesis (Hwords : forall h j, uint_range 64 (mread m' h j)) (Hav : av' ⊆ av).
Hypothesis (Hsame : forall q h j, path 3 q -> walk m root q = Ok h -> mread m' h j = mread m h j).

Lemma same_tables_walk q : path 3 q -> walk m' root q = walk m root q.
Proof.
  clear Hwords Hav Hwf. induction q as [|j q IH] using rev_ind; intros Hq; [done|].
  destruct (path_snoc _ _ _ Hq) as (Hq2 & Hj & _). cbn in Hq2. apply (path_le 2 3) in Hq2; [|lia].
  rewrite !walk_app, IH by done. destruct (walk m root q) as [h|] eqn:E; [|done]. cbn [walk]. by rewrite (Hsame q).
Qed.

Lemma same_tables_wf : pt_wf m' root av'.
Proof.
  split; [done| | | |].
  - intros p q h Hp Hq. rewrite !same_tables_walk by done. by apply (wf_inj _ _ _ Hwf).
  - intros p h Hp. rewrite same_tables_walk by done. intros Hw Hin. by apply (wf_avail _ _ _ Hwf p h Hp Hw), Hav.
  - intros p h j Hp Hj. assert (path 3 p) by (eapply path_le; [|done]; lia). rewrite same_tables_walk by done. intros Hw.
    rewrite (Hsame p) by done. by apply (wf_inner _ _ _ Hwf p).
  - intros p h j Hp Hl Hj. rewrite same_tables_walk by done. intros Hw. rewrite (Hsame p) by done. by apply (wf_leaf _ _ _ Hwf p).
Qed.

Lemma same_tables_view i4 i3 i2 i1 : table_index i4 -> table_index i3 -> table_index i2 ->
  view m' root i4 i3 i2 i1 = view m root i4 i3 i2 i1.
Proof.
  intros H4 H3 H2. assert (Hp : path 3 [i4; i3; i2]) by apply (path_3 _ _ _ H4 H3 H2).
  unfold view. rewrite same_tables_walk by done. destruct (walk m root _) as [h|] eqn:E; [|done]. by rewrite (Hsame _ _ _ Hp E).
Qed.
End SameTables.

(** ** Lemmas: the mapping functions, against the allocator's contract *)

(** The flags the mapping functions are called with. *)
Record map_flags (flags : Z) : Prop := {
  mf_ok : flags_ok flags;
  mf_present : Z.testbit flags 0 = true;
  mf_not_huge : Z.testbit flags 7 = false
}.

Lemma parent_map_flags flags : map_flags flags -> map_flags (parent_flags flags).
Proof. intros [Hok Hp Hh]. destruct (parent_flags_ok flags Hok) as (H1 & H2 & H3). split; congruence || done. Qed.

Lemma inner_entry_phys v : inner_entry v -> phys_entry v.
Proof. intros [->|[_ ?]]; [by vm_compute|done]. Qed.

Lemma set_flags_child v flags : uint_range 64 v -> inner_entry v -> v <> 0 -> map_flags flags ->
  let v' := entry_set_flags v (flags_bitor (entry_flags v) flags) in
  uint_range 64 v' /\ inner_entry v' /\ child v' = child v.
Proof.
  intros Hv Hi Hne [Hok Hp Hh]. destruct Hi as [?|[Hpr Hph]]; [done|]. cbv zeta.
  destruct (entry_set_flags_spec v (flags_bitor (entry_flags v) flags) Hv Hph) as (Hv' & Hph' & Hfl & _ & Hm).
  { apply flags_ok_lor; [by apply entry_flags_ok|done]. }
  set (v' := entry_set_flags _ _) in *. destruct (flag_bits_of _ _ Hfl) as [Hp' Hh'].
  unfold flags_bitor in Hp', Hh'. rewrite Z.lor_spec, Hp, orb_true_r in Hp'.
  rewrite Z.lor_spec, Hh, orb_false_r in Hh'.
  assert (is_huge_page v' = is_huge_page v) as Hhv.
  { rewrite Hh'. symmetry. by apply flag_bits_of. }
  split_and!; [done|by right|]. unfold child. by rewrite Hp', Hpr, Hhv, Hm.
Qed.

Lemma same_child_nonzero v w : inner_entry v -> v <> 0 -> child w = child v -> w <> 0.
Proof.
  intros [?|[Hpr _]] Hv Hc ->; [done|]. rewrite child_0 in Hc. unfold child in Hc. rewrite Hpr in Hc. cbn in Hc. by destruct (is_huge_page v).
Qed.

Section MapperSpec.
Context {A : Type} {alloc_ops : FrameAlloc A} {alloc_laws : FrameAllocLaws A} (root : Frame).

Definition pt_inv (s : ptstate A) : Prop :=
  alloc_inv (pt_alloc s) /\ pt_wf (pt_mem s) (frame_number root) (avail (pt_alloc s)).

Definition page_view (s : ptstate A) (page : Page) : result Z TranslationError :=
  view (pt_mem s) (frame_number root) (Page_l4_index page) (Page_l3_index page) (Page_l2_index page) (Page_l1_index page).

(** What a step may change besides its own result: nothing that a translation
    can see, and no table disappears. *)
Record pt_extends (s s' : ptstate A) : Prop := {
  ext_view : forall i4 i3 i2 i1, table_index i4 -> table_index i3 -> table_index i2 -> table_index i1 ->
    view (pt_mem s') (frame_number root) i4 i3 i2 i1 = view (pt_mem s) (frame_number root) i4 i3 i2 i1;
  ext_walk : forall q h, path 3 q -> walk (pt_mem s) (frame_number root) q = Ok h ->
    walk (pt_mem s') (frame_number root) q = Ok h;
  ext_flushed : pt_flushed s' = pt_flushed s
}.

Lemma bind_load {R} t i (k : Z -> mapper R) (s : ptstate A) : table_index i ->
  mapper_bind (load t i) k s = k (mread (pt_mem s) (frame_number t) i) s.
Proof. intros. unfold mapper_bind, load. by rewrite PageTable_index_read. Qed.

Lemma bind_done {R T} (c : mapper R) (k : R -> mapper T) (s s' : ptstate A) r : c s = Done (s', r) ->
  mapper_bind c k s = match r with Ok x => k x s' | Err e => Done (s', Err e) end.
Proof. intros E. unfold mapper_bind. by rewrite E. Qed.

Lemma pt_extends_refl s : pt_extends s s.
Proof. by split. Qed.
Lemma pt_extends_trans s1 s2 s3 : pt_extends s1 s2 -> pt_extends s2 s3 -> pt_extends s1 s3.
Proof.
  intros [V1 W1 F1] [V2 W2 F2]. split; [|by auto|congruence].
  intros. by rewrite V2, V1.
Qed.

(** At most [n] frames were taken from the allocator. *)
Definition takes (n : Z) (s s' : ptstate A) : Prop :=
  avail (pt_alloc s') ⊆ avail (pt_alloc s) /\
  Z.of_nat (size (avail (pt_alloc s))) <= Z.of_nat (size (avail (pt_alloc s'))) + n.

Lemma takes_trans n k s1 s2 s3 : takes n s1 s2 -> takes k s2 s3 -> takes (n + k) s1 s3.
Proof. intros [S1 T1] [S2 T2]. split; [set_solver|lia]. Qed.
Lemma takes_le n k s1 s2 : n <= k -> takes n s1 s2 -> takes k s1 s2.
Proof. intros ? [? ?]. split; [done|lia]. Qed.
Lemma takes_same s s' : avail (pt_alloc s') = avail (pt_alloc s) -> takes 0 s s'.
Proof. intros E. unfold takes. rewrite E. split; [done|lia]. Qed.
Lemma takes_one s s' g : avail (pt_alloc s') = avail (pt_alloc s) ∖ {[g]} -> takes 1 s s'.
Proof.
  intros E. unfold takes. rewrite E. split; [set_solver|]. destruct (decide (g ∈ avail (pt_alloc s))) as [Hg|Hg].
  - rewrite size_remove by done. lia.
  - replace (avail (pt_alloc s) ∖ {[g]}) with (avail (pt_alloc s)); [lia|]. apply set_eq. set_solver.
Qed.

(** The tables that a walk lacks: none or one for each path. *)
Definition missing (s : ptstate A) (q : list Z) : Z := match walk (pt_mem s) (frame_number root) q with Ok _ => 0 | Err _ => 1 end.
Definition missing_tables (s : ptstate A) (i4 i3 i2 : Z) : Z := missing s [i4] + missing s [i4; i3] + missing s [i4; i3; i2].

Lemma missing_bound s q : 0 <= missing s q <= 1.
Proof. unfold missing. destruct (walk _ _ _); lia. Qed.

Lemma missing_le s s' q : (forall h, walk (pt_mem s) (frame_number root) q = Ok h -> walk (pt_mem s') (frame_number root) q = Ok h) ->
  missing s' q <= missing s q.
Proof.
  intros X. unfold missing. destruct (walk (pt_mem s) (frame_number root) q) as [h|] eqn:E; [by rewrite (X h eq_refl)|].
  destruct (walk (pt_mem s') (frame_number root) q); lia.
Qed.

Lemma missing_tables_bound s i4 i3 i2 : 0 <= missing_tables s i4 i3 i2 <= 3.
Proof. unfold missing_tables. pose proof (missing_bound s [i4]). pose proof (missing_bound s [i4; i3]). pose proof (missing_bound s [i4; i3; i2]). lia. Qed.

Definition next_table_post (p : list Z) (i : Z) (s' : ptstate A) (r : result Frame MappingError) : Prop :=
  match r with
  | Ok t' => walk (pt_mem s') (frame_number root) (p ++ [i]) = Ok (frame_number t')
  | Err FrameAllocationFailed =>
      avail (pt_alloc s') = ∅ /\ walk (pt_mem s') (frame_number root) (p ++ [i]) = Err NotPresent
  | Err MappedToHugePage => walk (pt_mem s') (frame_number root) (p ++ [i]) = Err HugePage
  | Err (PageAlreadyMapped _) => False
  end.

Lemma next_table_new s p t i flags : pt_inv s -> path 2 p -> table_index i ->
  walk (pt_mem s) (frame_number root) p = Ok (frame_number t) -> map_flags flags ->
  mread (pt_mem s) (frame_number t) i = 0 ->
  exists s' r, next_table t i flags s = Done (s', r) /\ pt_inv s' /\ pt_extends s s' /\ next_table_post p i s' r /\ takes (missing s (p ++ [i])) s s'.
Proof.
  intros [Ha Hwf] Hp Hi Hw [Hok Hpr Hh] H0.
  destruct (allocate_frame_spec (pt_alloc s) Ha) as (a' & o & Ea & Ha' & Ho).
  unfold next_table, mapper_bind, load, mapper_alloc.
  rewrite PageTable_index_read by done. rewrite H0. cbn [mbind exec_bind is_unused Z.eqb]. rewrite Ea.
  cbn [mbind exec_bind]. destruct o as [g|]; cycle 1.
  { destruct Ho as [Hav ->]. eexists _, _. split; [reflexivity|]. cbn [pt_mem pt_alloc pt_flushed].
    split; [by split|]. split; [by split|]. split; [split; [done|cbn [pt_mem]; rewrite walk_app, Hw; cbn; by rewrite H0]|].
    eapply takes_le; [|by apply takes_same]. apply missing_bound. }
  destruct Ho as [Hg Hav]. pose proof (avail_physical _ _ Ha Hg) as Hphys.
  destruct (entry_set_frame_spec g flags Hphys Hok Hh) as (v & Ev & Hv & Hvp & _ & _ & Hvc).
  rewrite Hpr in Hvc. unfold mapper_exec, store. rewrite Ev.
  cbn [mbind exec_bind pt_mem pt_alloc pt_flushed set_mem]. rewrite PageTable_index_read by done.
  rewrite mread_mwrite, decide_True by done. cbn [mbind exec_bind]. unfold get_table.
  rewrite entry_frame_child, Hvc by done. cbn [mbind exec_bind].
  unfold mapper_clear, mapper_ret. cbn [mbind exec_bind set_mem pt_mem pt_alloc pt_flushed].
  eexists _, _. split; [reflexivity|]. cbn [next_table_post]. unfold pt_inv. cbn [pt_mem pt_alloc pt_flushed set_mem].
  split; [split; [done|rewrite Hav; by eapply new_table_wf]|]. split; [|split; [|]]; cycle 2.
  { unfold missing. rewrite walk_app, Hw. cbn [walk]. rewrite H0, child_0. by apply (takes_one s _ (frame_number g)). }
  - split; cbn [pt_mem pt_flushed set_mem]; [intros; by eapply new_table_view| |done].
    intros q h Hq Hwq. erewrite new_table_walk by eauto. destruct (decide _) as [->|]; [|done].
    rewrite walk_app, Hw in Hwq. cbn in Hwq. by rewrite H0 in Hwq.
  - erewrite new_table_walk by (eauto using path_app1). by rewrite decide_True.
Qed.
(** The last part of [next_table], on an entry that already existed. *)
Lemma next_table_tail s p t i : pt_inv s -> path 2 p -> table_index i ->
  walk (pt_mem s) (frame_number root) p = Ok (frame_number t) -> mread (pt_mem s) (frame_number t) i <> 0 ->
  exists r, next_table_post p i s r /\
    mapper_bind (load t i) (fun entry => mapper_bind (mapper_exec (get_table entry)) (fun r =>
      match r with
      | Ok page_table => mapper_bind (mapper_ret tt) (fun _ => mapper_ret page_table)
      | Err HugePage => mapper_err MappedToHugePage
      | Err NotPresent => mapper_exec Panic
      end)) s = Done (s, r).
Proof.
  intros [Ha Hwf] Hp Hi Hw Hne. pose proof (wf_words _ _ _ Hwf (frame_number t) i) as Hv.
  assert (inner_entry (mread (pt_mem s) (frame_number t) i)) as Hin by by eapply wf_inner.
  unfold mapper_bind, load, mapper_exec, mapper_ret, mapper_err, get_table. rewrite PageTable_index_read by done.
  cbn [mbind exec_bind]. rewrite entry_frame_child by auto using inner_entry_phys. cbn [mbind exec_bind].
  destruct (child _) as [g|[]] eqn:Ec.
  - exists (Ok (Frame_new g)). split; [|done]. cbn. by rewrite walk_app, Hw; cbn; rewrite Ec.
  - destruct Hin as [?|[Hpr _]]; [done|]. unfold child in Ec. rewrite Hpr in Ec. cbn in Ec.
    by destruct (is_huge_page _).
  - exists (Err MappedToHugePage). split; [|done]. cbn. by rewrite walk_app, Hw; cbn; rewrite Ec.
Qed.

Lemma next_table_old s p t i flags : pt_inv s -> path 2 p -> table_index i ->
  walk (pt_mem s) (frame_number root) p = Ok (frame_number t) -> map_flags flags ->
  mread (pt_mem s) (frame_number t) i <> 0 ->
  exists s' r, next_table t i flags s = Done (s', r) /\ pt_inv s' /\ pt_extends s s' /\ next_table_post p i s' r /\ takes (missing s (p ++ [i])) s s'.
Proof.
  intros Hinv Hp Hi Hw Hfl Hne. pose proof Hinv as [Ha Hwf].
  set (v := mread (pt_mem s) (frame_number t) i) in *.
  pose proof (wf_words _ _ _ Hwf (frame_number t) i : uint_range 64 v) as Hv.
  assert (inner_entry v) as Hin by by eapply wf_inner.
  destruct (set_flags_child v flags Hv Hin Hne Hfl) as (Hv' & Hin' & Hc').
  unfold next_table. rewrite bind_load by done. fold v.
  unfold is_unused. rewrite (proj2 (Z.eqb_neq _ _) Hne). destruct (negb _ && negb _).
  - set (w := entry_set_flags _ _) in *.
    set (s1 := set_mem s (mwrite (pt_mem s) (frame_number t) i w)).
    assert (pt_inv s1) as Hinv1 by (split; [done|by eapply same_child_wf]).
    assert (Hs1 : pt_extends s s1).
    { split; subst s1; cbn [pt_mem pt_flushed set_mem]; [intros; by eapply same_child_view| |done].
      intros q h _ Hq. by rewrite same_child_walk. }
    destruct (next_table_tail s1 p t i) as (r & Hr & Er); try done.
    { by apply (ext_walk _ _ Hs1); [eapply path_le; [|done]; lia|]. }
    { subst s1. cbn [pt_mem set_mem]. rewrite mread_mwrite, decide_True by done. by apply (same_child_nonzero v). }
    erewrite bind_done by reflexivity. fold s1. exists s1, r. split; [exact Er|]. split; [done|]. split; [done|].
    split; [done|]. eapply takes_le; [|by apply takes_same]. apply missing_bound.
  - destruct (next_table_tail s p t i) as (r & Hr & Er); try done.
    erewrite bind_done by reflexivity. exists s, r.
    split; [exact Er|]. split; [done|]. split; [apply pt_extends_refl|]. split; [done|].
    eapply takes_le; [|by apply takes_same]. apply missing_bound.
Qed.

Lemma next_table_spec s p t i flags : pt_inv s -> path 2 p -> table_index i ->
  walk (pt_mem s) (frame_number root) p = Ok (frame_number t) -> map_flags flags ->
  exists s' r, next_table t i flags s = Done (s', r) /\ pt_inv s' /\ pt_extends s s' /\ next_table_post p i s' r /\ takes (missing s (p ++ [i])) s s'.
Proof.
  intros. destruct (decide (mread (pt_mem s) (frame_number t) i = 0)); eauto using next_table_new, next_table_old.
Qed.

(** A walk that fails half-way fails the whole page. *)
Lemma view_walk_err (s : ptstate A) p q e i4 i3 i2 i1 : [i4; i3; i2] = p ++ q ->
  walk (pt_mem s) (frame_number root) p = Err e ->
  view (pt_mem s) (frame_number root) i4 i3 i2 i1 = Err (TranslationError_from e).
Proof. intros E Hw. unfold view. by rewrite E, walk_app, Hw. Qed.

(** The three [next_table] calls of [map_to] and [set_flags]. *)
Definition tables_post (s s' : ptstate A) (i4 i3 i2 : Z) (r : result Frame MappingError) : Prop :=
  match r with
  | Ok l1 => walk (pt_mem s') (frame_number root) [i4; i3; i2] = Ok (frame_number l1)
  | Err FrameAllocationFailed => avail (pt_alloc s') = ∅ /\
      forall i1, table_index i1 -> view (pt_mem s) (frame_number root) i4 i3 i2 i1 = Err NotMapped
  | Err MappedToHugePage =>
      forall i1, table_index i1 -> view (pt_mem s) (frame_number root) i4 i3 i2 i1 = Err TranslationHugePage
  | Err (PageAlreadyMapped _) => False
  end.

Lemma tables_post_err s s' p i q i4 i3 i2 e : pt_extends s s' -> [i4; i3; i2] = (p ++ [i]) ++ q ->
  table_index i4 -> table_index i3 -> table_index i2 ->
  next_table_post p i s' (Err e) -> tables_post s s' i4 i3 i2 (Err e).
Proof.
  intros Hs E H4 H3 H2. destruct e as [fr| |]; cbn; [done| |].
  - intros [Hav Hw]. split; [done|]. intros i1 H1. rewrite <-(ext_view _ _ Hs) by done.
    by rewrite (view_walk_err s' _ _ _ _ _ _ _ E Hw).
  - intros Hw i1 H1. rewrite <-(ext_view _ _ Hs) by done. by rewrite (view_walk_err s' _ _ _ _ _ _ _ E Hw).
Qed.
Lemma bind_tables {R} (k : Frame -> mapper R) s i4 i3 i2 flags : pt_inv s -> map_flags flags ->
  table_index i4 -> table_index i3 -> table_index i2 ->
  exists s' r, pt_inv s' /\ pt_extends s s' /\ tables_post s s' i4 i3 i2 r /\ takes (missing_tables s i4 i3 i2) s s' /\
    mapper_bind (next_table root i4 flags) (fun l3 => mapper_bind (next_table l3 i3 flags) (fun l2 =>
      mapper_bind (next_table l2 i2 flags) k)) s
    = match r with Ok l1 => k l1 s' | Err e => Done (s', Err e) end.
Proof.
  intros Hinv Hfl H4 H3 H2. destruct (path_3 i4 i3 i2 H4 H3 H2) as (P0 & P1 & P2 & P3).
  destruct (next_table_spec s [] root i4 flags Hinv) as (s1 & r1 & E1 & Hinv1 & X1 & Q1 & K1); [|done|done|done|].
  { eapply path_le; [|done]. lia. }
  pose proof (missing_le s s1 [i4; i3] (fun h => ext_walk _ _ X1 _ h (path_le 2 3 _ ltac:(lia) P2))) as M2. pose proof (missing_bound s [i4; i3]) as B2. pose proof (missing_bound s [i4; i3; i2]) as B3.
  rewrite (bind_done _ _ _ _ _ E1). destruct r1 as [l3|e]; cycle 1.
  { exists s1, (Err e). split; [done|]. split; [done|]. split; [|split; [|done]].
    - by eapply (tables_post_err s s1 [] i4 [i3; i2]).
    - eapply takes_le; [|done]. unfold missing_tables. cbn [app]. lia. }
  destruct (next_table_spec s1 [i4] l3 i3 flags Hinv1) as (s2 & r2 & E2 & Hinv2 & X2 & Q2 & K2); [|done|exact Q1|done|].
  { eapply path_le; [|done]. lia. }
  pose proof (pt_extends_trans _ _ _ X1 X2) as X12. pose proof (takes_trans _ _ _ _ _ K1 K2) as K12.
  rewrite (bind_done _ _ _ _ _ E2). destruct r2 as [l2|e]; cycle 1.
  { exists s2, (Err e). split; [done|]. split; [done|]. split; [|split; [|done]].
    - by eapply (tables_post_err s s2 [i4] i3 [i2]).
    - eapply takes_le; [|done]. unfold missing_tables. cbn [app]. lia. }
  destruct (next_table_spec s2 [i4; i3] l2 i2 flags Hinv2) as (s3 & r3 & E3 & Hinv3 & X3 & Q3 & K3); [done|done|exact Q2|done|].
  pose proof (pt_extends_trans _ _ _ X12 X3) as X13.
  rewrite (bind_done _ _ _ _ _ E3). exists s3, r3. split; [done|]. split; [done|]. split; [|split; [|done]]; cycle 1.
  { pose proof (missing_le s s2 [i4; i3; i2] (fun h => ext_walk _ _ X12 _ h P3)) as M3. eapply takes_le; [|exact (takes_trans _ _ _ _ _ K12 K3)]. unfold missing_tables. cbn [app] in *. lia. }
  destruct r3 as [l1|e]; [exact Q3|]. by eapply (tables_post_err s s3 [i4; i3] i2 []).
Qed.

Lemma page_indices page :
  table_index (Page_l4_index page) /\ table_index (Page_l3_index page) /\
  table_index (Page_l2_index page) /\ table_index (Page_l1_index page).
Proof. apply indices_table_index. Qed.

(** A mapped page lacks no table. *)
Lemma mapped_missing s page v : page_view s page = Ok v ->
  missing s [Page_l4_index page] = 0 /\ missing s [Page_l4_index page; Page_l3_index page] = 0 /\
  missing s [Page_l4_index page; Page_l3_index page; Page_l2_index page] = 0.
Proof.
  unfold page_view, view, missing. cbn [walk]. repeat (destruct (child _); [|done]). done.
Qed.

(** The value [set_frame] writes. *)
Definition leaf_of (v : Z) (frame : Frame) (flags : Z) : Prop :=
  entry_set_frame frame flags = Done v /\ entry_addr v = Frame_base_addr frame /\ entry_flags v = flags.

(** [map_to] is decided by the page's view: mapped pages are refused, pages
    under a huge page are refused, and an unmapped page becomes mapped unless
    the allocator runs dry; every other page keeps its view. *)
Lemma map_to_spec s page frame flags : pt_inv s -> map_flags flags -> 0 <= frame_number frame < 2 ^ 35 ->
  exists s' r, map_to root page frame flags s = Done (s', r) /\ pt_inv s' /\
    takes (missing_tables s (Page_l4_index page) (Page_l3_index page) (Page_l2_index page)) s s' /\
    (forall q h, path 3 q -> walk (pt_mem s) (frame_number root) q = Ok h -> walk (pt_mem s') (frame_number root) q = Ok h) /\
    match page_view s page with
    | Ok v => r = Err (PageAlreadyMapped frame) /\ pt_extends s s'
    | Err TranslationHugePage => r = Err MappedToHugePage /\ pt_extends s s'
    | Err _ =>
        (r = Err FrameAllocationFailed /\ avail (pt_alloc s') = ∅ /\ pt_extends s s') \/
        (r = Ok (mkFlush page) /\ exists v, leaf_of v frame flags /\
         forall i4 i3 i2 i1, table_index i4 -> table_index i3 -> table_index i2 -> table_index i1 ->
           view (pt_mem s') (frame_number root) i4 i3 i2 i1 =
           if decide ([i4; i3; i2; i1] = [Page_l4_index page; Page_l3_index page; Page_l2_index page; Page_l1_index page])
           then Ok v else view (pt_mem s) (frame_number root) i4 i3 i2 i1)
    end.
Proof.
  intros Hinv Hfl Hf. destruct (page_indices page) as (H4 & H3 & H2 & H1).
  unfold map_to. cbv zeta.
  match goal with |- context [mapper_bind (next_table root _ _) (fun l3 => mapper_bind _ (fun l2 => mapper_bind _ ?k))] =>
    destruct (bind_tables k s _ _ _ _ Hinv (parent_map_flags _ Hfl) H4 H3 H2) as (s' & r & Hinv' & X & Q & K & E) end.
  rewrite E. clear E. unfold page_view. destruct r as [l1|e]; cycle 1.
  { exists s', (Err e). split; [done|]. split; [done|]. split; [done|]. split; [by apply X|].
    destruct e as [fr| |]; cbn in Q; [done| |].
    - destruct Q as [Hav Q]. rewrite (Q _ H1). left. by split.
    - rewrite (Q _ H1). by split. }
  cbn [tables_post] in Q. rewrite bind_load by done. pose proof (ext_view _ _ X _ _ _ _ H4 H3 H2 H1) as Hview.
  rewrite <-Hview. unfold view at 1. rewrite Q.
  destruct (is_unused _) eqn:Eu; cbn [negb]; cycle 1.
  { exists s', (Err (PageAlreadyMapped frame)). split; [done|]. split; [done|]. split; [done|]. split; [by apply X|]. by split. }
  destruct Hfl as [Hok Hpr Hh]. destruct Hinv' as [Ha' Hwf'].
  destruct (entry_set_frame_spec frame flags Hf Hok Hh) as (v & Ev & Hv & Hvp & Hvf & Hva & _).
  assert (v <> 0) as Hv0.
  { intros ->. rewrite <-Hvf in Hpr. by vm_compute in Hpr. }
  unfold mapper_exec, mapper_bind, store, mapper_ret. rewrite Ev. cbn [mbind exec_bind].
  eexists _, _. split; [reflexivity|]. unfold pt_inv. cbn [pt_mem pt_alloc pt_flushed set_mem].
  split; [split; [done|by apply (leaf_write_wf _ _ _ Hwf' _ _ _ _ _ _ H4 H3 H2 Q Hv Hvp)]|]. split; [done|]. split.
  { intros q h Hq Hwq. rewrite (leaf_write_walk _ _ _ Hwf' _ _ _ _ _ _ H4 H3 H2 Q) by done. by apply X. }
  right. split; [done|]. exists v. split; [done|]. intros j4 j3 j2 j1 J4 J3 J2 J1.
  rewrite (leaf_write_view _ _ _ Hwf' _ _ _ _ _ _ H4 H3 H2 Q) by done. unfold is_unused. rewrite (proj2 (Z.eqb_neq _ _) Hv0).
  destruct (decide _); [done|]. by apply (ext_view _ _ X).
Qed.
End MapperSpec.

(** ** Lemmas: translation *)

Lemma get_table_step m root av p f i : pt_wf m root av -> path 2 p -> table_index i -> walk m root p = Ok f ->
  get_table (mread m f i) = Done (match walk m root (p ++ [i]) with Ok g => Ok (Frame_new g) | Err e => Err e end).
Proof.
  intros Hwf Hp Hi Hw. unfold get_table. rewrite walk_app, Hw. cbn [walk].
  rewrite entry_frame_child; [by destruct (child _)|by eapply wf_words|].
  eapply inner_entry_phys, wf_inner; eauto.
Qed.

Lemma translate_l1_walk m root av i4 i3 i2 : pt_wf m (frame_number root) av ->
  table_index i4 -> table_index i3 -> table_index i2 ->
  translate_l1 m root i4 i3 i2 = Done (match walk m (frame_number root) [i4; i3; i2] with
    | Ok f => Ok (Frame_new f) | Err e => Err (TranslationError_from e) end).
Proof.
  intros Hwf H4 H3 H2. destruct (path_3 i4 i3 i2 H4 H3 H2) as (P0 & P1 & P2 & _).
  apply (path_le 0 2) in P0; [|lia]. apply (path_le 1 2) in P1; [|lia].
  unfold translate_l1. rewrite PageTable_index_read by done. cbn [mbind exec_bind].
  rewrite (get_table_step _ _ _ [] _ _ Hwf) by done. cbn [mbind exec_bind app].
  change [i4; i3; i2] with ([i4] ++ [i3; i2]). rewrite walk_app.
  destruct (walk m (frame_number root) [i4]) as [f3|e] eqn:E3; [|done].
  rewrite PageTable_index_read by done. cbn [mbind exec_bind frame_number Frame_new].
  rewrite (get_table_step _ _ _ [i4] _ _ Hwf) by done. cbn [mbind exec_bind].
  change (walk m f3 [i3; i2]) with (walk m f3 ([i3] ++ [i2])). rewrite !walk_app, E3.
  destruct (walk m f3 [i3]) as [f2|e] eqn:E2; [|done].
  rewrite PageTable_index_read by done. cbn [mbind exec_bind frame_number Frame_new].
  assert (walk m (frame_number root) [i4; i3] = Ok f2) as E23.
  { change [i4; i3] with ([i4] ++ [i3]). by rewrite walk_app, E3. }
  rewrite (get_table_step _ _ _ [i4; i3] _ _ Hwf) by done. cbn [mbind exec_bind].
  rewrite walk_app, E23. by destruct (walk m f2 [i2]).
Qed.

Definition entry_frame_of (v : Z) : Frame := Frame_new (Z.land v ADDRESS_MASK / PAGE_SIZE).

Lemma from_base_addr_entry v : uint_range 64 v -> phys_entry v ->
  Frame_from_base_addr (entry_addr v) = Done (Some (entry_frame_of v)).
Proof.
  intros Hv Hp. destruct (entry_base v Hv Hp) as (Hr & Ha & ->). unfold Frame_from_base_addr.
  rewrite is_page_aligned_mod. cbn [to_raw]. change PAGE_SIZE with (2 ^ 12). rewrite Ha. cbn [Z.eqb].
  unfold Frame_containing_addr. by rewrite (proj2 (is_physical_lt _)) by (cbn [to_raw]; lia).
Qed.

Lemma translate_page_view m root av page : pt_wf m (frame_number root) av ->
  translate_page m root page = Done (
    match view m (frame_number root) (Page_l4_index page) (Page_l3_index page) (Page_l2_index page) (Page_l1_index page) with
    | Ok v => Ok (entry_frame_of v) | Err e => Err e end).
Proof.
  intros Hwf. destruct (indices_table_index (Page_base_addr page)) as (H4 & H3 & H2 & H1).
  unfold translate_page. erewrite translate_l1_walk by done. cbn [mbind exec_bind]. unfold view.
  destruct (walk _ _ _) as [f|e] eqn:Ew; [|done]. rewrite PageTable_index_read by done.
  cbn [mbind exec_bind frame_number Frame_new]. destruct (is_unused _); [done|].
  rewrite from_base_addr_entry; [done|by eapply wf_words|]. eapply (wf_leaf _ _ _ Hwf _ f); [| | |exact Ew]; [apply (path_3 _ _ _ H4 H3 H2)|done|done].
Qed.

Lemma translate_addr_view m root av a : pt_wf m (frame_number root) av ->
  translate_addr m root a = Done (
    match view m (frame_number root) (l4_index a) (l3_index a) (l2_index a) (l1_index a) with
    | Ok v => Ok (mkTranslation (entry_frame_of v) (page_offset a) (entry_flags v)) | Err e => Err e end).
Proof.
  intros Hwf. destruct (indices_table_index a) as (H4 & H3 & H2 & H1).
  unfold translate_addr. erewrite translate_l1_walk by done. cbn [mbind exec_bind]. unfold view.
  destruct (walk _ _ _) as [f|e] eqn:Ew; [|done]. rewrite PageTable_index_read by done.
  cbn [mbind exec_bind frame_number Frame_new]. destruct (is_unused _); [done|].
  rewrite from_base_addr_entry; [done|by eapply wf_words|]. eapply (wf_leaf _ _ _ Hwf _ f); [| | |exact Ew]; [apply (path_3 _ _ _ H4 H3 H2)|done|done].
Qed.

(** Pages of canonical addresses are told apart by their indices. *)
Definition canonical_page (p : Page) : Prop := canonical (Page_base_addr p) /\ 0 <= page_number p < 2 ^ 52.

Lemma page_indices_inj p q : canonical_page p -> canonical_page q ->
  [Page_l4_index p; Page_l3_index p; Page_l2_index p; Page_l1_index p] =
  [Page_l4_index q; Page_l3_index q; Page_l2_index q; Page_l1_index q] -> p = q.
Proof.
  intros [Hp Hpn] [Hq Hqn] [= E4 E3 E2 E1]. pose proof (indices_join _ Hp) as Jp. pose proof (indices_join _ Hq) as Jq.
  unfold Page_l4_index, Page_l3_index, Page_l2_index, Page_l1_index in *. rewrite E4, E3, E2, E1, Jq in Jp.
  apply (f_equal to_raw) in Jp. rewrite !page_align_down_raw in Jp by auto with rust.
  destruct p as [p], q as [q]. unfold Page_base_addr, Address_new_unchecked in Jp. cbn [to_raw page_number] in *.
  rewrite !wrap_small in Jp by (unfold uint_range, PAGE_SIZE, KIBIBYTE; lia). rewrite !Z.mod_mul in Jp by done.
  f_equal. unfold PAGE_SIZE, KIBIBYTE in Jp. lia.
Qed.

Lemma containing_page_indices a : canonical a ->
  let p := Page_containing_addr a in canonical_page p /\
  Page_l4_index p = l4_index a /\ Page_l3_index p = l3_index a /\ Page_l2_index p = l2_index a /\ Page_l1_index p = l1_index a.
Proof.
  intros Hc p. pose proof (canonical_range a Hc) as Hr. assert (Hb : Page_base_addr p = page_align_down a) by by apply Page_base_containing.
  unfold Page_l4_index, Page_l3_index, Page_l2_index, Page_l1_index, canonical_page. rewrite Hb.
  split; [split; [auto with rust|]|].
  - subst p. unfold Page_containing_addr. cbn. unfold uint_range, PAGE_SIZE, KIBIBYTE in *. Z.div_mod_to_equations. lia.
  - rewrite !l4_index_div, !l3_index_div, !l2_index_div, !l1_index_div, page_align_down_raw by done.
    unfold uint_range, PAGE_SIZE, KIBIBYTE in *. split_and!; Z.div_mod_to_equations; lia.
Qed.

(** ** Lemmas: [set_flags] on pages that are not part of a huge page *)

Section SetFlagsSpec.
Context {A : Type} {alloc_ops : FrameAlloc A} {alloc_laws : FrameAllocLaws A} (root : Frame).
Implicit Types s : ptstate A.

Lemma not_huge_entry s p q i f i4 i3 i2 i1 : pt_inv root s -> path 2 p -> table_index i ->
  [i4; i3; i2] = (p ++ [i]) ++ q -> walk (pt_mem s) (frame_number root) p = Ok f ->
  view (pt_mem s) (frame_number root) i4 i3 i2 i1 <> Err TranslationHugePage ->
  is_huge_page (mread (pt_mem s) f i) = false.
Proof.
  intros [_ Hwf] Hp Hi E Hw Hv. destruct (is_huge_page _) eqn:Eh; [|done]. exfalso. apply Hv.
  apply (view_walk_err root s (p ++ [i]) q HugePage _ _ _ _ E). rewrite walk_app, Hw. cbn [walk].
  assert (child (mread (pt_mem s) f i) = Err HugePage) as ->; [|done]. unfold child. rewrite Eh.
  destruct (wf_inner _ _ _ Hwf p f i Hp Hi Hw) as [H0|[-> _]]; [|done]. by rewrite H0 in Eh.
Qed.

Definition with_flags (flags : Z) (r : result Z TranslationError) : result Z TranslationError :=
  match r with Ok v => Ok (entry_set_flags v flags) | Err e => Err e end.

(** What [set_flags] does to one page. *)
Definition step_post (s s' : ptstate A) (page : Page) (flags : Z) (it : PageRange) (r : result PageRange MappingError) : Prop :=
  match r with
  | Ok it' => it' = it /\
      (forall q, canonical_page q -> page_view root s' q =
        if decide (q = page) then with_flags flags (page_view root s q) else page_view root s q) /\
      pt_flushed s' = pt_flushed s ++ (match page_view root s page with Ok _ => [page] | Err _ => [] end)
  | Err e => e = FrameAllocationFailed /\ avail (pt_alloc s') = ∅ /\ pt_extends root s s'
  end.

(** The last part of the step: the level 1 entry. *)
Lemma set_flags_leaf s0 s page flags l1 it : pt_inv root s -> map_flags flags -> canonical_page page ->
  pt_extends root s0 s ->
  walk (pt_mem s) (frame_number root) [Page_l4_index page; Page_l3_index page; Page_l2_index page] = Ok (frame_number l1) ->
  exists s' r, pt_inv root s' /\ step_post s0 s' page flags it r /\
    mapper_bind (load l1 (Page_l1_index page)) (fun e1 =>
      if negb (is_unused e1) then
        mapper_bind (store l1 (Page_l1_index page) (entry_set_flags e1 flags)) (fun _ =>
        mapper_bind (mapper_flush (mkFlush page)) (fun _ => mapper_ret it))
      else mapper_ret it) s = Done (s', r).
Proof.
  intros [Ha Hwf] [Hok Hpr Hh] Hc X Hw. destruct (page_indices page) as (H4 & H3 & H2 & H1).
  rewrite bind_load by done. set (v := mread _ _ _).
  assert (Hext : forall q, page_view root s q = page_view root s0 q).
  { intros q. destruct (page_indices q) as (?&?&?&?). by apply (ext_view _ _ _ X). }
  assert (Hpv : page_view root s page = if is_unused v then Err NotMapped else Ok v).
  { unfold page_view, view. by rewrite Hw. }
  assert (Hv : uint_range 64 v) by by apply (wf_words _ _ _ Hwf).
  assert (Hvp : phys_entry v) by (eapply (wf_leaf _ _ _ Hwf); [apply (path_3 _ _ _ H4 H3 H2)|done|done|done]).
  rewrite Hext in Hpv. destruct (is_unused v) eqn:Eu; cbn [negb].
  - exists s, (Ok it). split; [done|]. split; [|done]. split; [done|]. split; [|rewrite Hpv, app_nil_r; by apply X].
    intros q Hq. rewrite Hext. destruct (decide _) as [->|]; [|done]. by rewrite Hpv.
  - destruct (entry_set_flags_spec v flags Hv Hvp Hok) as (Hv' & Hvp' & Hfl & _). set (w := entry_set_flags v flags) in *.
    assert (is_unused w = false) as Hw0.
    { apply Z.eqb_neq. intros Hz. rewrite Hz in Hfl. subst flags. by vm_compute in Hpr. }
    eexists _, (Ok it). split; [|split; [|reflexivity]].
    + split; [done|]. cbn. by apply (leaf_write_wf _ _ _ Hwf _ _ _ _ _ _ H4 H3 H2 Hw).
    + split; [done|]. split; [|rewrite Hpv; cbn; by rewrite (ext_flushed _ _ _ X)].
      intros q Hq. destruct (page_indices q) as (Q4 & Q3 & Q2 & Q1). unfold page_view at 1. cbn [pt_mem set_mem flush].
      rewrite (leaf_write_view _ _ _ Hwf _ _ _ _ _ _ H4 H3 H2 Hw) by done. rewrite Hw0.
      destruct (decide (q = page)) as [->|Hne]; [by rewrite decide_True, Hpv|].
      rewrite decide_False; [apply Hext|]. intros E. by apply Hne, page_indices_inj.
Qed.

Lemma set_flags_step_spec s page flags it : pt_inv root s -> map_flags flags -> canonical_page page ->
  page_view root s page <> Err TranslationHugePage ->
  exists s' r, set_flags_step root flags page it s = Done (s', r) /\ pt_inv root s' /\ step_post s s' page flags it r.
Proof.
  intros Hinv Hfl Hc Hnh. destruct (page_indices page) as (H4 & H3 & H2 & H1).
  destruct (path_3 _ _ _ H4 H3 H2) as (P0 & P1 & P2 & _). apply (path_le 0 2) in P0; [|lia]. apply (path_le 1 2) in P1; [|lia].
  pose proof (parent_map_flags _ Hfl) as Hpf. unfold page_view in Hnh.
  assert (Hfail : forall s1 p i q e, pt_inv root s1 -> pt_extends root s s1 ->
    [Page_l4_index page; Page_l3_index page; Page_l2_index page] = (p ++ [i]) ++ q ->
    next_table_post root p i s1 (Err e) -> step_post s s1 page flags it (Err e)).
  { intros s1 p i q e _ X E Q. apply (tables_post_err root s s1 _ _ _ _ _ _ _ X E H4 H3 H2) in Q.
    destruct e; cbn [tables_post] in Q; [done| |exfalso; by apply Hnh, Q].
    split; [done|]. split; [apply Q|done]. }
  unfold set_flags_step. cbv zeta.
  destruct (next_table_spec root s [] root _ _ Hinv P0 H4 eq_refl Hpf) as (s1 & [l3|e] & E1 & Hinv1 & X1 & Q1 & _);
    rewrite (bind_done _ _ _ _ _ E1); [|exists s1, (Err e); split; [done|]; split; [done|]; by eapply (Hfail s1 [])].
  rewrite bind_load by done. rewrite <-(ext_view _ _ _ X1) in Hnh by done.
  rewrite (not_huge_entry s1 [Page_l4_index page] [Page_l2_index page] _ _ _ _ _ _ Hinv1 P1 H3 eq_refl Q1 Hnh).
  destruct (next_table_spec root s1 [Page_l4_index page] l3 _ _ Hinv1 P1 H3 Q1 Hpf) as (s2 & [l2|e] & E2 & Hinv2 & X2 & Q2 & _);
    pose proof (pt_extends_trans _ _ _ _ X1 X2) as X12; rewrite (bind_done _ _ _ _ _ E2);
    [|exists s2, (Err e); split; [done|]; split; [done|]; eapply (Hfail s2 [Page_l4_index page]); eauto].
  rewrite bind_load by done. rewrite <-(ext_view _ _ _ X2) in Hnh by done.
  rewrite (not_huge_entry s2 [Page_l4_index page; Page_l3_index page] [] _ _ _ _ _ _ Hinv2 P2 H2 eq_refl Q2 Hnh).
  destruct (next_table_spec root s2 [Page_l4_index page; Page_l3_index page] l2 _ _ Hinv2 P2 H2 Q2 Hpf)
    as (s3 & [l1|e] & E3 & Hinv3 & X3 & Q3 & _);
    pose proof (pt_extends_trans _ _ _ _ X12 X3) as X13; rewrite (bind_done _ _ _ _ _ E3);
    [|exists s3, (Err e); split; [done|]; split; [done|]; eapply (Hfail s3 [Page_l4_index page; Page_l3_index page]); eauto].
  destruct (set_flags_leaf s s3 page flags l1 it Hinv3 Hfl Hc X13 Q3) as (s' & r & Hinv' & Hpost & E). eauto.
Qed.
Definition pages_below (start end_ : Z) (q : Page) : Prop := start <= page_number q < end_.
#[global] Instance pages_below_dec start end_ q : Decision (pages_below start end_ q).
Proof. unfold pages_below. apply _. Defined.

(** The pages of [start, k) have the new flags, all others are untouched. *)
Definition flags_set_below (s s' : ptstate A) (flags start k : Z) : Prop :=
  forall q, canonical_page q -> page_view root s' q =
    if decide (pages_below start k q) then with_flags flags (page_view root s q) else page_view root s q.

Lemma PageRange_next_some a b : 0 <= a < b -> b < 2 ^ 64 ->
  PageRange_next (mkRange (Page_new a) (Page_new b)) = Done (Some (Page_new a), mkRange (Page_new (a + 1)) (Page_new b)).
Proof.
  intros Ha Hb. unfold PageRange_next, Page_add, checked_add. cbn [range_start range_end page_number Page_new].
  rewrite (proj2 (Z.ltb_lt a b)), (proj2 (Z.ltb_lt (a + 1) _)) by lia. done.
Qed.

Lemma PageRange_next_none a b : b <= a ->
  PageRange_next (mkRange (Page_new a) (Page_new b)) = Done (None, mkRange (Page_new a) (Page_new b)).
Proof.
  intros Ha. unfold PageRange_next. cbn [range_start range_end page_number Page_new].
  by rewrite (proj2 (Z.ltb_ge a b)) by lia.
Qed.

Lemma set_flags_loop_spec n : forall s a flags end_, pt_inv root s -> map_flags flags ->
  0 <= a -> end_ < 2 ^ 52 -> end_ - a < Z.of_nat n -> a <= end_ ->
  (forall q, pages_below a end_ q -> canonical_page q /\ page_view root s q <> Err TranslationHugePage) ->
  exists s' r k, set_flags_loop n root flags (mkRange (Page_new a) (Page_new end_)) s = Done (s', r) /\
    pt_inv root s' /\ a <= k <= end_ /\ flags_set_below s s' flags a k /\
    match r with Ok _ => k = end_ | Err e => e = FrameAllocationFailed /\ avail (pt_alloc s') = ∅ end.
Proof.
  induction n as [|n IH]; intros s a flags end_ Hinv Hfl Ha He Hn Hle Hq; [lia|].
  cbn [set_flags_loop]. destruct (Z.lt_ge_cases a end_) as [Hlt|Hge]; cycle 1.
  { erewrite bind_done by (unfold mapper_exec; rewrite PageRange_next_none by lia; reflexivity).
    exists s, (Ok tt), end_. split; [done|]. split; [done|]. split; [lia|]. split; [|done].
    intros q _. rewrite decide_False; [done|]. unfold pages_below. lia. }
  erewrite bind_done by (unfold mapper_exec; rewrite PageRange_next_some by lia; reflexivity). cbn beta iota.
  destruct (Hq (Page_new a)) as [Hc Hnh]; [unfold pages_below; cbn; lia|].
  destruct (set_flags_step_spec s (Page_new a) flags (mkRange (Page_new (a + 1)) (Page_new end_)) Hinv Hfl Hc Hnh)
    as (s1 & r1 & E1 & Hinv1 & Q1). rewrite (bind_done _ _ _ _ _ E1). destruct r1 as [it|e]; cycle 1.
  { destruct Q1 as (-> & Hav & X). exists s1, (Err FrameAllocationFailed), a. split; [done|]. split; [done|].
    split; [lia|]. split; [|done]. intros q _. rewrite decide_False by (unfold pages_below; lia).
    destruct (page_indices q) as (?&?&?&?). by apply (ext_view _ _ _ X). }
  destruct Q1 as (-> & Hview & _).
  destruct (IH s1 (a + 1) flags end_ Hinv1 Hfl) as (s' & r & k & E & Hinv' & Hk & Hset & Hr); [lia..| |].
  { intros q Hb. destruct (Hq q) as [Hcq Hnq]; [unfold pages_below in *; lia|]. split; [done|].
    rewrite Hview, decide_False by (done || (intros ->; unfold pages_below in Hb; cbn in Hb; lia)). done. }
  exists s', r, k. split; [done|]. split; [done|]. split; [lia|]. split; [|done].
  intros q Hcq. rewrite Hset, Hview by done. unfold pages_below.
  destruct (decide (q = Page_new a)) as [->|Hne].
  - cbn [page_number Page_new]. rewrite decide_False, decide_True by lia. done.
  - assert (page_number q <> a) by (intros <-; by destruct q).
    destruct (decide (a + 1 <= page_number q < k)), (decide (a <= page_number q < k)); done || lia.
Qed.
End SetFlagsSpec.

(** ** Properties *)

Lemma leaf_of_frame v frame flags : map_flags flags -> 0 <= frame_number frame < 2 ^ 35 -> leaf_of v frame flags ->
  entry_frame_of v = frame /\ entry_flags v = flags.
Proof.
  intros [Hok Hpr Hh] Hf (Ev & Ha & Hfl). split; [|done].
  destruct (entry_set_frame_spec frame flags Hf Hok Hh) as (w & Ew & Hw & Hwp & _ & _ & _).
  assert (w = v) as -> by congruence. pose proof (from_base_addr_entry v Hw Hwp) as Hb. rewrite Ha in Hb.
  unfold Frame_from_base_addr in Hb. rewrite Frame_base_addr_aligned, Frame_containing_base in Hb by done.
  by injection Hb.
Qed.

(** A zeroed root table outside the allocator's frames is a well-formed tree
    in which nothing is mapped. *)
Lemma empty_table_wf m root av : root ∉ av -> (forall f i, uint_range 64 (mread m f i)) ->
  (forall i, table_index i -> mread m root i = 0) -> pt_wf m root av.
Proof.
  intros Hr Hm H0.
  assert (Hw : forall p f n, path n p -> walk m root p = Ok f -> p = [] /\ f = root).
  { intros [|i p] f n [_ Hp]; [by intros [= ->]|]. apply Forall_inv in Hp. cbn [walk]. rewrite H0 by done. done. }
  split; [done| | | |].
  - intros p q f Hp Hq Hwp Hwq. destruct (Hw _ _ _ Hp Hwp) as [-> _], (Hw _ _ _ Hq Hwq) as [-> _]. done.
  - intros p f Hp Hwp. destruct (Hw _ _ _ Hp Hwp) as [_ ->]. done.
  - intros p f i Hp Hi Hwp. destruct (Hw _ _ _ Hp Hwp) as [_ ->]. left. by apply H0.
  - intros p f i Hp Hl _ Hwp. destruct (Hw _ _ _ Hp Hwp) as [-> _]. done.
Qed.

(** C1: after [map_to] succeeds, the page translates to the frame, every
    address of the page to that frame with its own offset and the given
    flags, every other page translates exactly as before, and the tree stays
    well formed: with any allocator that meets the trait's contract. *)
Theorem map_to_translate {A} `{FrameAllocLaws A} (root : Frame) (s s' : ptstate A) (page : Page) (frame : Frame)
  (flags : Z) (fl : FlushMapping) :
  pt_inv root s -> map_flags flags -> 0 <= frame_number frame < 2 ^ 35 -> canonical_page page ->
  map_to root page frame flags s = Done (s', Ok fl) ->
  pt_inv root s' /\ fl = mkFlush page /\ translate_page (pt_mem s') root page = Done (Ok frame) /\
  (forall a, canonical a -> Page_containing_addr a = page ->
     translate_addr (pt_mem s') root a = Done (Ok (mkTranslation frame (page_offset a) flags))) /\
  (forall q, canonical_page q -> q <> page ->
     translate_page (pt_mem s') root q = translate_page (pt_mem s) root q).
Proof.
  intros Hinv Hfl Hf Hc E. destruct (map_to_spec root s page frame flags Hinv Hfl Hf) as (s1 & r & E1 & Hinv' & _ & _ & Hr).
  rewrite E1 in E. injection E as -> ->.
  assert (exists v, leaf_of v frame flags /\ fl = mkFlush page /\ forall i4 i3 i2 i1,
    table_index i4 -> table_index i3 -> table_index i2 -> table_index i1 -> view (pt_mem s') (frame_number root) i4 i3 i2 i1 =
    if decide ([i4; i3; i2; i1] = [Page_l4_index page; Page_l3_index page; Page_l2_index page; Page_l1_index page])
    then Ok v else view (pt_mem s) (frame_number root) i4 i3 i2 i1) as (v & Hv & -> & Hview).
  { destruct (page_view root s page) as [v|[]]; [by destruct Hr| |by destruct Hr|].
    all: destruct Hr as [[? _]|[[= ->] (v & Hv & Hview)]]; [done|exists v; split; [done|]; by split]. }
  destruct (leaf_of_frame v frame flags Hfl Hf Hv) as [Hvf Hvfl]. pose proof Hinv as [_ Hwf]. pose proof Hinv' as [_ Hwf'].
  destruct (page_indices page) as (H4 & H3 & H2 & H1).
  split; [done|]. split; [done|]. split; [|split].
  - erewrite translate_page_view by done. rewrite Hview, decide_True by done. by rewrite Hvf.
  - intros a Ha Hp. destruct (indices_table_index a) as (A4 & A3 & A2 & A1).
    destruct (containing_page_indices a Ha) as (_ & P4 & P3 & P2 & P1). rewrite Hp in *.
    erewrite translate_addr_view by done. rewrite Hview, decide_True by congruence. by rewrite Hvf, Hvfl.
  - intros q Hq Hne. destruct (page_indices q) as (Q4 & Q3 & Q2 & Q1).
    erewrite !translate_page_view by done. rewrite Hview by done. rewrite decide_False; [done|].
    intros Hi. by apply Hne, page_indices_inj.
Qed.

(** C38: what [map_to] returns is decided by the page's current translation:
    a mapped page is refused with [PageAlreadyMapped], carrying the frame of
    the request; a page inside a huge page is refused with
    [MappedToHugePage]; an unmapped page is mapped unless the allocator has
    no frame left for a table. A refused call changes no translation. *)
Theorem map_to_outcomes {A} `{FrameAllocLaws A} (root : Frame) (s : ptstate A) (page : Page) (frame : Frame) (flags : Z) :
  pt_inv root s -> map_flags flags -> 0 <= frame_number frame < 2 ^ 35 ->
  exists s' r, map_to root page frame flags s = Done (s', r) /\ pt_inv root s' /\
    match translate_page (pt_mem s) root page with
    | Done (Ok _) => r = Err (PageAlreadyMapped frame)
    | Done (Err TranslationHugePage) => r = Err MappedToHugePage
    | Done (Err NotMapped) =>
        r = Ok (mkFlush page) \/ (r = Err FrameAllocationFailed /\ avail (pt_alloc s') = ∅)
    | _ => False
    end /\
    (forall e q, r = Err e -> translate_page (pt_mem s') root q = translate_page (pt_mem s) root q).
Proof.
  intros Hinv Hfl Hf. destruct (map_to_spec root s page frame flags Hinv Hfl Hf) as (s' & r & E & Hinv' & _ & _ & Hr).
  pose proof Hinv as [_ Hwf]. pose proof Hinv' as [_ Hwf'].
  assert (Hext : pt_extends root s s' -> forall q, translate_page (pt_mem s') root q = translate_page (pt_mem s) root q).
  { intros X q. erewrite !translate_page_view by done. destruct (page_indices q) as (?&?&?&?). by rewrite (ext_view _ _ _ X). }
  exists s', r. split; [done|]. split; [done|]. erewrite (translate_page_view (pt_mem s)) by done.
  unfold page_view in Hr.
  destruct (view (pt_mem s) _ _ _ _ _) as [v|[]] eqn:Ev;
    [split; [apply Hr|intros; by apply Hext, Hr]| |split; [apply Hr|intros; by apply Hext, Hr]|].
  - destruct Hr as [(-> & Hav & X)|[-> _]]; (split; [|intros; done || by apply Hext]); [by right|by left].
  - unfold view in Ev. destruct (walk _ _ _) as [f|[]]; [destruct (is_unused _); done|done|done].
Qed.

Lemma set_flags_range_spec {A} `{FrameAllocLaws A} (root : Frame) (s : ptstate A) (pages : PageRange) (flags : Z) :
  let a := page_number (range_start pages) in
  let b := page_number (range_end pages) in
  pt_inv root s -> map_flags flags -> 0 <= a <= b -> b < 2 ^ 52 ->
  (forall q, pages_below a b q -> canonical_page q /\
     translate_page (pt_mem s) root q <> Done (Err TranslationHugePage)) ->
  exists s' r k, set_flags root pages flags s = Done (s', r) /\ pt_inv root s' /\ a <= k <= b /\
    match r with Ok _ => k = b | Err e => e = FrameAllocationFailed /\ avail (pt_alloc s') = ∅ end /\
    (forall addr, canonical addr -> translate_addr (pt_mem s') root addr =
       match translate_addr (pt_mem s) root addr with
       | Done (Ok t) => Done (Ok (mkTranslation (tr_frame t) (tr_offset t)
           (if decide (pages_below a k (Page_containing_addr addr)) then flags else tr_flags t)))
       | x => x
       end).
Proof.
  intros a b Hinv Hfl Hab Hb Hq. unfold set_flags. subst a b.
  destruct pages as [[a] [b]]. cbn [range_start range_end page_number] in *.
  pose proof Hinv as [_ Hwf].
  destruct (set_flags_loop_spec root (S (Z.to_nat (b - a))) s a flags b Hinv Hfl) as (s' & r & k & E & Hinv' & Hk & Hset & Hr);
    [lia..| |].
  { intros q Hb'. destruct (Hq q Hb') as [Hc Hn]. split; [done|]. intros Hv. apply Hn.
    erewrite translate_page_view by done. unfold page_view in Hv. by rewrite Hv. }
  exists s', r, k. split; [exact E|]. split; [done|]. split; [done|]. split; [done|].
  intros addr Ha. pose proof Hinv' as [_ Hwf'].
  destruct (containing_page_indices addr Ha) as (Hc & P4 & P3 & P2 & P1).
  specialize (Hset _ Hc). unfold page_view in Hset. rewrite P4, P3, P2, P1 in Hset.
  erewrite !translate_addr_view by done. rewrite Hset. clear Hset. destruct (decide _) as [Hin|]; cbn [with_flags].
  - destruct (view (pt_mem s) _ _ _ _ _) as [v|e] eqn:Ev; cbn [with_flags tr_frame tr_offset tr_flags]; [|done].
    destruct (indices_table_index addr) as (A4 & A3 & A2 & A1). unfold view in Ev.
    destruct (walk _ _ _) as [f|] eqn:Ew; [|done]. destruct (is_unused _); [done|]. injection Ev as <-.
    destruct (entry_set_flags_spec (mread (pt_mem s) f (l1_index addr)) flags) as (_ & _ & Hfl' & _ & Hm).
    + by apply (wf_words _ _ _ Hwf).
    + eapply (wf_leaf _ _ _ Hwf); [| | |exact Ew]; [apply (path_3 _ _ _ A4 A3 A2)|done|exact A1].
    + apply Hfl.
    + unfold entry_frame_of. by rewrite Hm, Hfl'.
  - by destruct (view (pt_mem s) _ _ _ _ _).
Qed.

(** On a range with no huge page, [set_flags] terminates, replaces the
    flags of exactly the mapped addresses of the range (and keeps their
    frames and offsets), leaves every other translation as it was, and can
    fail only by running out of frames, having then processed a prefix of
    the range. *)
Theorem set_flags_range {A} `{FrameAllocLaws A} (root : Frame) (s : ptstate A) (pages : PageRange) (flags : Z) :
  let a := page_number (range_start pages) in
  let b := page_number (range_end pages) in
  pt_inv root s -> map_flags flags -> 0 <= a <= b -> b < 2 ^ 52 ->
  (forall q, pages_below a b q -> canonical_page q /\
     translate_page (pt_mem s) root q <> Done (Err TranslationHugePage)) ->
  exists s' r k, set_flags root pages flags s = Done (s', r) /\ pt_inv root s' /\ a <= k <= b /\
    match r with Ok _ => k = b | Err e => e = FrameAllocationFailed /\ avail (pt_alloc s') = ∅ end /\
    (forall addr, canonical addr -> translate_addr (pt_mem s') root addr =
       match translate_addr (pt_mem s) root addr with
       | Done (Ok t) => Done (Ok (mkTranslation (tr_frame t) (tr_offset t)
           (if decide (pages_below a k (Page_containing_addr addr)) then flags else tr_flags t)))
       | x => x
       end).
Proof. apply set_flags_range_spec. Qed.

(** Witnesses run on an empty root table in frame 2, with the frames 0, 1, 4
    and 5 of the frame allocator's example map available for tables. *)
Lemma example_tree : exists fa, fa_inv fa /\ free_set (bitmap fa) <> ∅ /\
  pt_inv (Frame_new 2) (mkPt ∅ fa []).
Proof.
  destruct example_init as (fa & _ & Hinv & Hset). exists fa. split; [done|]. split.
  - intros He. assert (0 ∈ free_set (bitmap fa)) as H0 by (apply Hset; lia). rewrite He in H0. set_solver.
  - split; [done|]. apply empty_table_wf.
    + intros Hin%Hset. cbn in Hin. lia.
    + intros f i. cbn [pt_mem]. unfold mread. rewrite lookup_empty. cbn [default from_option id]. unfold uint_range. lia.
    + intros i _. reflexivity.
Qed.

Lemma example_flags : map_flags (Z.lor PRESENT WRITABLE).
Proof. split; [split; [unfold uint_range; by vm_compute|reflexivity]|reflexivity|reflexivity]. Qed.

Lemma example_page : canonical_page (Page_new 14199).
Proof. split; [left|]; vm_compute; done. Qed.

(** Mapping a page in the empty tree succeeds when three frames are free. *)
Lemma map_to_outcomes_witness : exists (s' : ptstate FrameAllocator) r fa,
  map_to (Frame_new 2) (Page_new 14199) (Frame_new 9) (Z.lor PRESENT WRITABLE) (mkPt ∅ fa []) = Done (s', r) /\
  (r = Ok (mkFlush (Page_new 14199)) \/ r = Err FrameAllocationFailed).
Proof.
  destruct example_tree as (fa & _ & _ & Hinv).
  destruct (map_to_outcomes (Frame_new 2) (mkPt ∅ fa []) (Page_new 14199) (Frame_new 9) (Z.lor PRESENT WRITABLE) Hinv example_flags)
    as (s' & r & E & _ & Hr & _); [cbn; lia|].
  exists s', r, fa. split; [exact E|].
  change (translate_page _ _ _) with (Done (Err NotMapped) : exec (result Frame TranslationError)) in Hr.
  cbn in Hr. tauto.
Defined.

Lemma set_flags_range_witness : exists (s' : ptstate FrameAllocator) r fa,
  set_flags (Frame_new 2) (mkRange (Page_new 7) (Page_new 9)) (Z.lor PRESENT WRITABLE) (mkPt ∅ fa []) = Done (s', r).
Proof.
  destruct example_tree as (fa & _ & _ & Hinv).
  destruct (set_flags_range (Frame_new 2) (mkPt ∅ fa []) (mkRange (Page_new 7) (Page_new 9)) (Z.lor PRESENT WRITABLE)
    Hinv example_flags) as (s' & r & k & E & _).
  - cbn. lia.
  - cbn. lia.
  - intros [q] Hq. unfold pages_below in Hq. cbn in Hq. assert (q = 7 \/ q = 8) as [-> | ->] by lia;
      (split; [split; [left; vm_compute; done|cbn; lia]|vm_compute; done]).
  - exists s', r, fa. exact E.
Defined.

(** A bump allocator over a range of frames, the simplest implementation of
    the trait: the witness of [map_to_translate] runs on it. *)
Record Bump : Type := mkBump { bump_next : Z; bump_end : Z }.
#[export] Instance Bump_FrameAlloc : FrameAlloc Bump := fun b =>
  if bump_next b <? bump_end b
  then Done (mkBump (bump_next b + 1) (bump_end b), Some (Frame_new (bump_next b)))
  else Done (b, None).

#[export] Program Instance Bump_laws : FrameAllocLaws Bump := {|
  alloc_inv b := 0 <= bump_next b /\ bump_end b <= 2 ^ 35;
  avail b := list_to_set (seqZ (bump_next b) (bump_end b - bump_next b))
|}.
Next Obligation. intros b n Hb Hn. cbn in *. rewrite elem_of_list_to_set, elem_of_seqZ in Hn. lia. Qed.
Next Obligation.
  intros b Hb. cbv beta in Hb. unfold allocate_frame, Bump_FrameAlloc. destruct (_ <? _) eqn:E; bool_hyps; eexists _, _; (split; [reflexivity|]);
    cbn [bump_next bump_end frame_number Frame_new].
  - split; [lia|]. rewrite elem_of_list_to_set, elem_of_seqZ. split; [lia|].
    apply set_eq. intros n. rewrite elem_of_difference, !elem_of_list_to_set, !elem_of_seqZ, elem_of_singleton. lia.
  - split; [done|]. split; [|done]. rewrite seqZ_nil by lia. done.
Qed.

Definition example_bump : ptstate Bump := mkPt ∅ (mkBump 16 32) [].

Lemma example_bump_inv : pt_inv (Frame_new 2) example_bump.
Proof.
  split; [split; cbn; lia|]. apply empty_table_wf.
  - cbn. rewrite elem_of_list_to_set, elem_of_seqZ. lia.
  - intros f i. cbn [pt_mem example_bump]. unfold mread. rewrite lookup_empty. cbn [default from_option id]. unfold uint_range. lia.
  - intros i _. reflexivity.
Qed.

Definition mapper_succeeds {R} (r : exec (ptstate Bump * result R MappingError)) : bool :=
  match r with Done (_, Ok _) => true | _ => false end.

Lemma map_to_translate_witness : exists s' : ptstate Bump,
  map_to (Frame_new 2) (Page_new 14199) (Frame_new 9) (Z.lor PRESENT WRITABLE) example_bump
    = Done (s', Ok (mkFlush (Page_new 14199))) /\
  translate_page (pt_mem s') (Frame_new 2) (Page_new 14199) = Done (Ok (Frame_new 9)).
Proof.
  assert (Hok : mapper_succeeds (map_to (Frame_new 2) (Page_new 14199) (Frame_new 9) (Z.lor PRESENT WRITABLE) example_bump) = true)
    by (vm_compute; reflexivity).
  destruct (map_to (Frame_new 2) (Page_new 14199) (Frame_new 9) (Z.lor PRESENT WRITABLE) example_bump)
    as [[s' [fl|e]]|] eqn:E; [|discriminate Hok|discriminate Hok].
  destruct (map_to_translate (Frame_new 2) example_bump s' (Page_new 14199) (Frame_new 9) (Z.lor PRESENT WRITABLE) fl
    example_bump_inv example_flags) as (_ & Hfl & Ht & _); [cbn; lia|exact example_page|exact E|].
  exists s'. rewrite Hfl. split; [reflexivity|exact Ht].
Defined.

(** A tree with a 2 MiB huge page at pages 0..511 and a writable page 512. *)
Definition huge_tree : pmem :=
  let table f := Z.lor (f * PAGE_SIZE) (Z.lor PRESENT WRITABLE) in
  mwrite (mwrite (mwrite (mwrite (mwrite ∅ 1 0 (table 2)) 2 0 (table 3))
    3 0 (Z.lor L2_HUGE_PAGE_SIZE (Z.lor (Z.lor PRESENT WRITABLE) HUGE_PAGE))) 3 1 (table 4)) 4 0 (table 5).

(** After a huge page [set_flags] skips as many further pages as the huge
    page holds, although its first page has been consumed already: with a 2
    MiB huge page at pages 0..511, the range 0..513 returns [Ok] but leaves
    page 512 writable, where the range 512..513 removes the flag. *)
Theorem set_flags_skips_page_after_huge :
  exists s1 s2 : ptstate Bump,
    set_flags (Frame_new 1) (mkRange (Page_new 0) (Page_new 513)) PRESENT (mkPt huge_tree (mkBump 16 32) []) = Done (s1, Ok tt) /\
    translate_addr (pt_mem s1) (Frame_new 1) (Page_base_addr (Page_new 512))
      = Done (Ok (mkTranslation (Frame_new 5) 0 (Z.lor PRESENT WRITABLE))) /\
    set_flags (Frame_new 1) (mkRange (Page_new 512) (Page_new 513)) PRESENT (mkPt huge_tree (mkBump 16 32) []) = Done (s2, Ok tt) /\
    translate_addr (pt_mem s2) (Frame_new 1) (Page_base_addr (Page_new 512))
      = Done (Ok (mkTranslation (Frame_new 5) 0 PRESENT)).
Proof.
  set (s0 := mkPt huge_tree (mkBump 16 32) []).
  set (after (r : exec (ptstate Bump * result unit MappingError)) := match r with Done (s, Ok tt) => translate_addr (pt_mem s) (Frame_new 1) (Page_base_addr (Page_new 512)) | _ => Panic end).
  assert (H1 : after (set_flags (Frame_new 1) (mkRange (Page_new 0) (Page_new 513)) PRESENT s0)
    = Done (Ok (mkTranslation (Frame_new 5) 0 (Z.lor PRESENT WRITABLE)))) by (vm_compute; reflexivity).
  assert (H2 : after (set_flags (Frame_new 1) (mkRange (Page_new 512) (Page_new 513)) PRESENT s0)
    = Done (Ok (mkTranslation (Frame_new 5) 0 PRESENT))) by (vm_compute; reflexivity).
  unfold after in *. clearbody s0.
  destruct (set_flags _ (mkRange (Page_new 0) _) _ _) as [[s1 [[]|]]|]; [|done|done].
  destruct (set_flags _ (mkRange (Page_new 512) _) _ _) as [[s2 [[]|]]|]; [|done|done].
  by exists s1, s2.
Qed.
