(* ===== verification/Pci.v ===== *)
(** * drivers/pci: configuration space, device enumeration and BARs

    Models [pci.rs], [pci_class.rs] and [pci_capability.rs] over the port
    I/O of the machine: [Ports] are the two instructions the driver executes,
    [ConfigMechanism] states what the hardware promises about the pair of
    configuration ports. Enumeration is proved equal to the nested loops it
    stands for, and reading a BAR to restore the registers it probes. *)

From Stdlib Require Import Lia Btauto.
From stdpp Require Import base numbers list option strings tactics gmap.
From S2P Require Import Prelude BitUtils Pod.

Local Open Scope Z_scope.

(** ** Port I/O *)

Class Ports (W : Type) : Type := {
  out32 : W -> Z -> Z -> W;
  in32 : W -> Z -> W * Z
}.

Definition CONFIG_ADDRESS : Z := 0xCF8.
Definition CONFIG_DATA : Z := 0xCFC.

Definition config_address (bus device function offset : Z) : Z :=
  Z.lor (Z.lor (Z.lor (Z.lor (wshl 32 bus 16) (wshl 32 device 11)) (wshl 32 function 8)) (Z.land offset 0xFC)) 0x80000000.

(** ** Classes and capabilities *)

Inductive DeviceClass : Type :=
  | Unclassified | MassStorageController | NetworkController | DisplayController | MultimediaDevice
  | MemoryController | BridgeDevice | SimpleCommunicationController | BaseSystemPeripheral | InputDevice
  | DockingStation | Processor | SerialBus | WirelessController | IntelligentIoController
  | SatelliteCommunicationController | EncryptionController | SignalProcessingController
  | ProcessingAccelerator | NonEssentialInstrumentation | CoProcessor | ClassVendorSpecific.

#[export] Instance DeviceClass_eq_dec : EqDecision DeviceClass.
Proof. solve_decision. Defined.

Definition Class_from_raw (raw : Z) : option DeviceClass :=
  match raw with
  | 0x00 => Some Unclassified
  | 0x01 => Some MassStorageController
  | 0x02 => Some NetworkController
  | 0x03 => Some DisplayController
  | 0x04 => Some MultimediaDevice
  | 0x05 => Some MemoryController
  | 0x06 => Some BridgeDevice
  | 0x07 => Some SimpleCommunicationController
  | 0x08 => Some BaseSystemPeripheral
  | 0x09 => Some InputDevice
  | 0x0A => Some DockingStation
  | 0x0B => Some Processor
  | 0x0C => Some SerialBus
  | 0x0D => Some WirelessController
  | 0x0E => Some IntelligentIoController
  | 0x0F => Some SatelliteCommunicationController
  | 0x10 => Some EncryptionController
  | 0x11 => Some SignalProcessingController
  | 0x12 => Some ProcessingAccelerator
  | 0x13 => Some NonEssentialInstrumentation
  | 0x40 => Some CoProcessor
  | 0xFF => Some ClassVendorSpecific
  | _ => None
  end.

Definition Class_into_raw (c : DeviceClass) : Z :=
  match c with
  | Unclassified => 0x00 | MassStorageController => 0x01 | NetworkController => 0x02 | DisplayController => 0x03
  | MultimediaDevice => 0x04 | MemoryController => 0x05 | BridgeDevice => 0x06 | SimpleCommunicationController => 0x07
  | BaseSystemPeripheral => 0x08 | InputDevice => 0x09 | DockingStation => 0x0A | Processor => 0x0B | SerialBus => 0x0C
  | WirelessController => 0x0D | IntelligentIoController => 0x0E | SatelliteCommunicationController => 0x0F
  | EncryptionController => 0x10 | SignalProcessingController => 0x11 | ProcessingAccelerator => 0x12
  | NonEssentialInstrumentation => 0x13 | CoProcessor => 0x40 | ClassVendorSpecific => 0xFF
  end.

Inductive Capability : Type :=
  | CapNull | Pmi | Agp | Vpd | SlotIdentification | Msi | CompactPciHotSwap | PciX | HyperTransport
  | CapVendorSpecific | DebugPort | CompactPciCentralResourceControl | HotPlug | BridgeSubsystemVendorId
  | Agp8x | SecureDevice | PciExpress | MsiX | SerialAta | AdvancedFeatures | EnhancedAllocation
  | FlatteningPortalBridge.

#[export] Instance Capability_eq_dec : EqDecision Capability.
Proof. solve_decision. Defined.

Definition Capability_from_raw (raw : Z) : option Capability :=
  match raw with
  | 0x00 => Some CapNull
  | 0x01 => Some Pmi
  | 0x02 => Some Agp
  | 0x03 => Some Vpd
  | 0x04 => Some SlotIdentification
  | 0x05 => Some Msi
  | 0x06 => Some CompactPciHotSwap
  | 0x07 => Some PciX
  | 0x08 => Some HyperTransport
  | 0x09 => Some CapVendorSpecific
  | 0x0A => Some DebugPort
  | 0x0B => Some CompactPciCentralResourceControl
  | 0x0C => Some HotPlug
  | 0x0D => Some BridgeSubsystemVendorId
  | 0x0E => Some Agp8x
  | 0x0F => Some SecureDevice
  | 0x10 => Some PciExpress
  | 0x11 => Some MsiX
  | 0x12 => Some SerialAta
  | 0x13 => Some AdvancedFeatures
  | 0x14 => Some EnhancedAllocation
  | 0x15 => Some FlatteningPortalBridge
  | _ => None
  end.

Definition Capability_into_raw (c : Capability) : Z :=
  match c with
  | CapNull => 0x00 | Pmi => 0x01 | Agp => 0x02 | Vpd => 0x03 | SlotIdentification => 0x04 | Msi => 0x05
  | CompactPciHotSwap => 0x06 | PciX => 0x07 | HyperTransport => 0x08 | CapVendorSpecific => 0x09 | DebugPort => 0x0A
  | CompactPciCentralResourceControl => 0x0B | HotPlug => 0x0C | BridgeSubsystemVendorId => 0x0D | Agp8x => 0x0E
  | SecureDevice => 0x0F | PciExpress => 0x10 | MsiX => 0x11 | SerialAta => 0x12 | AdvancedFeatures => 0x13
  | EnhancedAllocation => 0x14 | FlatteningPortalBridge => 0x15
  end.

(** ** Register layouts *)

Definition vendor_id_of (reg : Z) : Z := bit_field_range 32 16 reg 0 16.
Definition device_id_of (reg : Z) : Z := bit_field_range 32 16 reg 16 32.
Definition prog_if_of (reg : Z) : Z := bit_field_range 32 8 reg 8 16.
Definition subclass_of (reg : Z) : Z := bit_field_range 32 8 reg 16 24.
Definition class_of (reg : Z) : Z := bit_field_range 32 8 reg 24 32.
Definition header_type_of (reg : Z) : Z := bit_field_range 32 8 reg 16 24.

Definition bar_io (bar : Z) : bool := bit_test 32 bar 0.
Definition bar_io_address (bar : Z) : Z := bit_field_range 32 32 bar 2 32.
Definition bar_mem_type (bar : Z) : Z := bit_field_range 32 8 bar 1 3.
Definition bar_mem_prefetchable (bar : Z) : bool := bit_test 32 bar 3.
Definition bar_mem_address (bar : Z) : Z := bit_field_range 32 32 bar 4 32.

Definition HEADER_TYPE_MULTIPLE_FUNCTIONS_BIT : Z := 128.
Definition HeaderType_get (h : Z) : Z := Z.land h (wnot 8 HEADER_TYPE_MULTIPLE_FUNCTIONS_BIT).
Definition multiple_functions (h : Z) : bool :=
  Z.land h HEADER_TYPE_MULTIPLE_FUNCTIONS_BIT =? HEADER_TYPE_MULTIPLE_FUNCTIONS_BIT.
Definition is_standard (h : Z) : bool := HeaderType_get h =? 0.
Definition is_pci_bridge (h : Z) : bool := HeaderType_get h =? 1.
Definition is_cardbus_bridge (h : Z) : bool := HeaderType_get h =? 2.

(** [u32_set_bit], [u32_set_range] and [u64_set_range]. *)
Definition u32_set_bit (word bit : Z) (value : bool) : exec Z :=
  _ ← rust_assert (bit <? 32);
  Done (if value then Z.lor word (wshl 32 1 bit) else Z.land word (wnot 32 (wshl 32 1 bit))).

Definition set_range (w num start end_ value : Z) : Z :=
  if start =? end_ then num
  else
    let ones := wshr w (wshl w (wnot w 0) (w - end_)) (w - end_) in
    let bitmask := wnot w (wshl w (wshr w ones start) start) in
    Z.lor (Z.land num bitmask) (wshl w value start).
Definition u32_set_range : Z -> Z -> Z -> Z -> Z := set_range 32.
Definition u64_set_range : Z -> Z -> Z -> Z -> Z := set_range 64.

(** ** Devices *)

Record Device : Type := mkDevice {
  dev_bus : Z; dev_device : Z; dev_function : Z;
  dev_device_id : Z; dev_vendor_id : Z;
  dev_class : DeviceClass; dev_subclass : Z;
  dev_header_type : Z; dev_interface : Z;
  dev_interrupt_line : Z; dev_interrupt_pin : Z
}.

Record BarSlot : Type := mkBarSlot { slot_bus : Z; slot_device : Z; slot_function : Z; slot_slot : Z }.

#[export] Instance BarSlot_eq_dec : EqDecision BarSlot.
Proof. solve_decision. Defined.
#[export] Instance BarSlot_countable : Countable BarSlot.
Proof.
  apply (inj_countable' (fun b => (slot_bus b, slot_device b, slot_function b, slot_slot b))
    (fun '(a, b, c, d) => mkBarSlot a b c d)). by intros [].
Defined.

Definition BarSlot_from_device (d : Device) (slot : Z) : BarSlot :=
  mkBarSlot (dev_bus d) (dev_device d) (dev_function d) slot.

Inductive Bar : Type :=
  | Mem32 (address size : Z) (prefetchable : bool)
  | Mem64 (address size : Z) (prefetchable : bool)
  | Io (address : Z).

Definition VENDOR_RED_HAT : Z := 0x1AF4.
Definition VENDOR_INTEL : Z := 0x8086.
Definition NONEXISTENT_VENDOR_ID : Z := 0xFFFF.

Definition Device_name (d : Device) : string :=
  if dev_vendor_id d =? VENDOR_RED_HAT then
    match dev_device_id d with
    | 0x1000 => "Virtio network device"
    | 0x1001 => "Virtio block device"
    | 0x1041 => "Virtio 1.0 network device"
    | 0x1042 => "Virtio 1.0 block device"
    | 0x1043 => "Virtio 1.0 console"
    | 0x1044 => "Virtio 1.0 RNG"
    | 0x1050 => "Virtio 1.0 GPU"
    | 0x1051 => "Virtio 1.0 clock/timer"
    | 0x1052 => "Virtio 1.0 input"
    | _ => "Unknown Red Hat, Inc. device"
    end
  else if dev_vendor_id d =? VENDOR_INTEL then
    match dev_device_id d with
    | 0x100E => "82540EM Gigabit Ethernet Controller"
    | 0x1237 => "82441FX PMC [Natoma]"
    | 0x7000 => "82371SB PIIX3 ISA [Natoma/Triton II]"
    | _ => "Unknown Intel Corp. device"
    end
  else "Unknown device".

Section Pci.
Context {W : Type} `{Ports W}.

Definition pci_read (w : W) (bus device function offset : Z) : W * Z :=
  in32 (out32 w CONFIG_ADDRESS (config_address bus device function offset)) CONFIG_DATA.

Definition pci_write (w : W) (bus device function offset value : Z) : W :=
  out32 (out32 w CONFIG_ADDRESS (config_address bus device function offset)) CONFIG_DATA value.

Definition Device_open (bus device function : Z) (w : W) : W * option Device :=
  let (w, reg_0) := pci_read w bus device function 0x00 in
  if vendor_id_of reg_0 =? NONEXISTENT_VENDOR_ID then (w, None)
  else
    let (w, reg_2) := pci_read w bus device function 0x08 in
    let (w, reg_3) := pci_read w bus device function 0x0C in
    match Class_from_raw (class_of reg_2) with
    | None => (w, None)
    | Some class =>
        let (w, last_row) := pci_read w bus device 0 0x3C in
        (w, Some (mkDevice bus device function (device_id_of reg_0) (vendor_id_of reg_0) class (subclass_of reg_2)
              (header_type_of reg_3) (prog_if_of reg_2) (Z.land last_row 0xFF) (Z.land (Z.shiftr last_row 8) 0xFF)))
    end.

Definition Device_read (d : Device) (w : W) (offset : Z) : W * Z :=
  pci_read w (dev_bus d) (dev_device d) (dev_function d) offset.
Definition Device_write (d : Device) (w : W) (offset value : Z) : W :=
  pci_write w (dev_bus d) (dev_device d) (dev_function d) offset value.

(** The [i32] literal of [(1 << n) as u64] is sign-extended by the cast. *)
Definition i32_pow2_as_u64 (n : Z) : Z := wrap 64 (as_signed 32 (wshl 32 1 n)).

(** The sizing of a 32-bit BAR at [offset]. *)
Definition bar32 (d : Device) (w : W) (offset address : Z) (prefetchable : bool) : W * option Bar :=
  let w := Device_write d w offset 0xFFFFFFFF in
  let (w, readback) := Device_read d w offset in
  let w := Device_write d w offset address in
  if readback =? 0 then (w, None)
  else (w, Some (Mem32 address (wshl 32 1 (trailing_zeros 32 (u32_set_range readback 0 4 0))) prefetchable)).

(** The sizing of a 64-bit BAR at [offset] and [offset + 4]. *)
Definition bar64 (d : Device) (w : W) (offset address : Z) (prefetchable : bool) : W * option Bar :=
  let (w, address_upper) := Device_read d w (offset + 4) in
  let w := Device_write d w offset 0xFFFFFFFF in
  let w := Device_write d w (offset + 4) 0xFFFFFFFF in
  let (w, readback_low) := Device_read d w offset in
  let (w, readback_high) := Device_read d w (offset + 4) in
  let w := Device_write d w offset address in
  let w := Device_write d w (offset + 4) address_upper in
  let readback_low := u32_set_range readback_low 0 4 0 in
  let size :=
    if negb (readback_low =? 0) then i32_pow2_as_u64 (trailing_zeros 32 readback_low)
    else wshl 64 1 (trailing_zeros 32 readback_high + 32) in
  (w, Some (Mem64 (u64_set_range address 32 64 address_upper) size prefetchable)).

Definition Device_bar (d : Device) (w : W) (slot : Z) : exec (W * option Bar) :=
  if 6 <=? slot then Done (w, None)
  else if bool_decide (dev_class d = BridgeDevice) && (negb (is_pci_bridge (dev_header_type d)) || (2 <=? slot)) then Done (w, None)
  else
    let offset := 16 + slot * 4 in
    let (w, bar) := Device_read d w offset in
    if negb (bar_io bar) then
      let prefetchable := bar_mem_prefetchable bar in
      let address := wshl 32 (bar_mem_address bar) 4 in
      if bar_mem_type bar =? 0 then Done (bar32 d w offset address prefetchable)
      else if bar_mem_type bar =? 2 then
        if 5 <=? slot then Done (w, None) else Done (bar64 d w offset address prefetchable)
      else Panic
    else Done (w, Some (Io (bar_io_address bar))).

(** ** The device iterator *)

Record DeviceIter : Type := mkIter { it_bus : Z; it_id : Z; multi_function : option (Z * Z * Z) }.

(** A [for] loop that returns at the first device it opens. *)
Fixpoint first_open {A} (xs : list A) (open : A -> W -> W * option Device) (w : W) : W * option (A * Device) :=
  match xs with
  | [] => (w, None)
  | x :: xs' => match open x w with (w, Some d) => (w, Some (x, d)) | (w, None) => first_open xs' open w end
  end.

Definition multi_of (d : Device) (bus id : Z) : option (Z * Z * Z) :=
  if multiple_functions (dev_header_type d) then Some (bus, id, 1) else None.

(** Reading the remaining addresses, from the bus after the current one. *)
Definition next_buses (it : DeviceIter) (w : W) : W * DeviceIter * option Device :=
  if it_bus it <? 255 then
    let bus := it_bus it + 1 in
    match first_open (bus ← seqZ bus (256 - bus); pair bus <$> seqZ 0 32) (fun a => Device_open a.1 a.2 0) w with
    | (w, Some ((bus, id), d)) => (w, mkIter bus (id + 1) (multi_of d bus id), Some d)
    | (w, None) => (w, mkIter bus (it_id it) None, None)
    end
  else (w, it, None).

(** Finishing the current bus. *)
Definition next_ids (it : DeviceIter) (w : W) : W * DeviceIter * option Device :=
  match (if it_id it <=? 31 then first_open (seqZ (it_id it) (32 - it_id it)) (fun id => Device_open (it_bus it) id 0) w
         else (w, None)) with
  | (w, Some (id, d)) => (w, mkIter (it_bus it) (id + 1) (multi_of d (it_bus it) id), Some d)
  | (w, None) => next_buses it w
  end.

Definition DeviceIter_next (it : DeviceIter) (w : W) : W * DeviceIter * option Device :=
  match multi_function it with
  | None => next_ids it w
  | Some (bus, id, function) =>
      let it := mkIter (it_bus it) (it_id it) None in
      match first_open (seqZ function (8 - function)) (fun func => Device_open bus id func) w with
      | (w, Some (func, d)) =>
          (w, mkIter (it_bus it) (it_id it) (if func <? 7 then Some (bus, id, func + 1) else None), Some d)
      | (w, None) => next_ids it w
      end
  end.

Definition enumerate_devices : DeviceIter := mkIter 0 0 None.

(** Draining the iterator; [None] when the fuel runs out. *)
Fixpoint collect (fuel : nat) (it : DeviceIter) (w : W) : option (list Device) :=
  match fuel with
  | O => None
  | S fuel' =>
      match DeviceIter_next it w with
      | (_, _, None) => Some []
      | (w, it, Some d) => (d ::.) <$> collect fuel' it w
      end
  end.

(** ** Capabilities *)

Record DeviceCapability : Type := mkCapability { cap_id : Capability; cap_offset : Z }.

Record CapabilityIter : Type := mkCapIter { ci_bus : Z; ci_device : Z; ci_function : Z; ci_offset : Z }.

Definition CapabilityIter_new (w : W) (bus device function : Z) : exec (W * CapabilityIter) :=
  let (w, word) := pci_read w bus device function 0x34 in
  word ← u32_set_bit word 0 false;
  word ← u32_set_bit word 1 false;
  Done (w, mkCapIter bus device function (wrap 8 (bit_range 32 word (Some 0) (Some 8) None))).

Definition CapabilityIter_next (it : CapabilityIter) (w : W) : W * CapabilityIter * option DeviceCapability :=
  let offset := ci_offset it in
  let (w, word) := pci_read w (ci_bus it) (ci_device it) (ci_function it) offset in
  (w, mkCapIter (ci_bus it) (ci_device it) (ci_function it) (wrap 8 (bit_range 32 word (Some 8) (Some 16) None)),
   (fun id => mkCapability id offset) <$> Capability_from_raw (wrap 8 (bit_range 32 word (Some 0) (Some 8) None))).

(** [it.filter_map(f).next()]; the inner [None] is a list without such an
    element, the outer one a list that the fuel does not exhaust. *)
Fixpoint find_map_capability {A} (f : DeviceCapability -> W -> exec (W * option A)) (fuel : nat) (it : CapabilityIter) (w : W)
    : exec (W * option (option A)) :=
  match fuel with
  | O => Done (w, None)
  | S fuel =>
      let '(w, it, o) := CapabilityIter_next it w in
      match o with
      | None => Done (w, Some None)
      | Some cap =>
          '(w, r) ← f cap w;
          match r with
          | Some a => Done (w, Some (Some a))
          | None => find_map_capability f fuel it w
          end
      end
  end.

Definition Device_find_map {A} (f : DeviceCapability -> W -> exec (W * option A)) (fuel : nat) (d : Device) (w : W)
    : exec (W * option (option A)) :=
  '(w, it) ← CapabilityIter_new w (dev_bus d) (dev_device d) (dev_function d);
  find_map_capability f fuel it w.

(** The words of [read_struct], from the [i]-th on. *)
Fixpoint read_words (d : Device) (offset : Z) (n : nat) (i : Z) (w : W) : exec (W * list Z) :=
  match n with
  | O => Done (w, [])
  | S n =>
      _ ← rust_assert (i <? 2 ^ 8);
      let (w, word) := Device_read d w (wrap 8 (offset + wrap 8 (4 * i))) in
      '(w, words) ← read_words d offset n (i + 1) w;
      Done (w, word :: words)
  end.

Definition Device_read_struct (T : Type) `{Pod T} (d : Device) (offset : Z) (w : W) : exec (W * T) :=
  _ ← rust_assert (size_of T mod 4 =? 0);
  '(w, words) ← read_words d offset (Z.to_nat (size_of T / 4)) 0 w;
  Done (w, from_bytes (concat (le_split 4 <$> words))).

Definition Device_set_msix (fuel : nat) (d : Device) (enabled : bool) (w : W) : exec (option W) :=
  '(w, r) ← Device_find_map (fun cap w => Done (w, if bool_decide (cap_id cap = MsiX) then Some cap else None)) fuel d w;
  match r with
  | None => Done None
  | Some None => Done (Some w)
  | Some (Some cap) =>
      let (w, word) := Device_read d w (cap_offset cap) in
      word ← u32_set_bit word 31 enabled;
      Done (Some (Device_write d w (cap_offset cap) word))
  end.
End Pci.

(** ** What the configuration mechanism promises *)

(** A data access with an address latched reaches the register of that
    address; a read changes nothing, a write changes the register's writable
    bits. *)
Class ConfigMechanism (W : Type) `{Ports W} : Type := {
  reg : W -> Z -> Z;
  writable : Z -> Z;
  reg_word : forall w a, uint_range 32 (reg w a);
  cfg_read : forall w bus device function offset,
    let a := config_address bus device function offset in
    (in32 (out32 w CONFIG_ADDRESS a) CONFIG_DATA).2 = reg w a /\
    forall b, reg (in32 (out32 w CONFIG_ADDRESS a) CONFIG_DATA).1 b = reg w b;
  cfg_write : forall w bus device function offset v b,
    let a := config_address bus device function offset in
    reg (out32 (out32 w CONFIG_ADDRESS a) CONFIG_DATA v) b =
    if decide (b = a) then Z.lor (Z.land v (writable a)) (Z.land (reg w a) (Z.lnot (writable a))) else reg w b
}.

(** ** The reference: the nested loops over buses, devices and functions *)

Definition open_of (r : Z -> Z) (bus device function : Z) : option Device :=
  let reg_0 := r (config_address bus device function 0x00) in
  let reg_2 := r (config_address bus device function 0x08) in
  let reg_3 := r (config_address bus device function 0x0C) in
  let last_row := r (config_address bus device 0 0x3C) in
  if vendor_id_of reg_0 =? NONEXISTENT_VENDOR_ID then None
  else class ← Class_from_raw (class_of reg_2);
    Some (mkDevice bus device function (device_id_of reg_0) (vendor_id_of reg_0) class (subclass_of reg_2)
            (header_type_of reg_3) (prog_if_of reg_2) (Z.land last_row 0xFF) (Z.land (Z.shiftr last_row 8) 0xFF)).

Definition functions_of (r : Z -> Z) (bus id function : Z) : list Device :=
  func ← seqZ function (8 - function); option_list (open_of r bus id func).

Definition slot_devices (r : Z -> Z) (bus id : Z) : list Device :=
  match open_of r bus id 0 with
  | None => []
  | Some d => d :: (if multiple_functions (dev_header_type d) then functions_of r bus id 1 else [])
  end.

Definition bus_devices (r : Z -> Z) (bus : Z) : list Device := seqZ 0 32 ≫= slot_devices r bus.

Definition all_devices (r : Z -> Z) : list Device := seqZ 0 256 ≫= bus_devices r.

Section Enumeration.
Context {W : Type} {HP : Ports W} {HC : ConfigMechanism W}.
Implicit Types w : W.

Definition same_regs (w w' : W) : Prop := forall b, reg w' b = reg w b.

#[local] Instance same_regs_preorder : PreOrder same_regs.
Proof. split; [by intros ??|]. intros a b c Hab Hbc x. by rewrite Hbc. Qed.

Lemma pci_read_spec w bus device function offset :
  exists w', pci_read w bus device function offset = (w', reg w (config_address bus device function offset)) /\ same_regs w w'.
Proof.
  destruct (cfg_read w bus device function offset) as [Hv Hr]. unfold pci_read.
  destruct (in32 _ _) as [w' v]. cbn in *. subst v. by exists w'.
Qed.

(** Runs the next configuration read of the goal. *)
Ltac read_step w' Hs :=
  match goal with
  | |- context [pci_read ?w ?b ?d ?f ?o] => destruct (pci_read_spec w b d f o) as (w' & -> & Hs)
  end.

Lemma Device_open_spec w0 w bus device function : same_regs w0 w ->
  exists w', Device_open bus device function w = (w', open_of (reg w0) bus device function) /\ same_regs w0 w'.
Proof.
  intros H0. unfold Device_open, open_of. read_step w1 H1. rewrite (H0 _).
  assert (same_regs w0 w1) as E1 by by etrans. case_if; [by exists w1|].
  read_step w2 H2. rewrite (E1 _). assert (same_regs w0 w2) as E2 by by etrans.
  read_step w3 H3. rewrite (E2 _). assert (same_regs w0 w3) as E3 by by etrans.
  destruct (Class_from_raw _); [|by exists w3].
  read_step w4 H4. rewrite (E3 _). assert (same_regs w0 w4) as E4 by by etrans. by exists w4.
Qed.

(** The loop with early return, against any expansion [g] of its elements
    that is empty where nothing opens. *)
Lemma first_open_spec (open : Z -> W -> W * option Device) (f : Z -> option Device) (g : Z -> list Device) w0 :
  (forall x w, same_regs w0 w -> exists w', open x w = (w', f x) /\ same_regs w0 w') ->
  (forall x, f x = None -> g x = []) -> forall n i w, 0 <= n -> same_regs w0 w ->
  exists w', same_regs w0 w' /\
    ((first_open (seqZ i n) open w = (w', None) /\ seqZ i n ≫= g = []) \/
     exists x d, first_open (seqZ i n) open w = (w', Some (x, d)) /\ f x = Some d /\ i <= x < i + n /\
       seqZ i n ≫= g = g x ++ (seqZ (x + 1) (i + n - x - 1) ≫= g)).
Proof.
  intros Hopen Hg n i w Hn. revert i w. pattern n. revert n Hn. apply natlike_ind.
  - intros i w Hw. exists w. split; [done|]. by left.
  - intros n Hn IH i w Hw. rewrite seqZ_cons by lia. replace (Z.pred (Z.succ n)) with n by lia. cbn [first_open].
    destruct (Hopen i w Hw) as (w1 & -> & H1). rewrite bind_cons. destruct (f i) as [d|] eqn:E.
    + exists w1. split; [done|]. right. exists i, d. split_and!; [done|done|lia|lia|].
      by replace (i + Z.succ n - i - 1) with n by lia.
    + rewrite (Hg i E). destruct (IH (Z.succ i) w1 H1) as (w' & Hs & [[F G]|(x & d & F & Hf & Hx & G)]); exists w'; (split; [done|]).
      * by left.
      * right. exists x, d. split_and!; [done|done|lia|lia|]. cbn [app]. rewrite G.
        by replace (Z.succ i + n - x - 1) with (i + Z.succ n - x - 1) by lia.
Qed.

Lemma first_open_app {A} (l1 l2 : list A) (open : A -> W -> W * option Device) : forall w,
  first_open (l1 ++ l2) open w =
  match first_open l1 open w with (w', None) => first_open l2 open w' | r => r end.
Proof. induction l1 as [|x l1 IH]; intros w; cbn; [done|]. destruct (open x w) as [w' [d|]]; [done|]. apply IH. Qed.

Lemma first_open_map {A B} (h : A -> B) (l : list A) (open : B -> W -> W * option Device) : forall w,
  first_open (h <$> l) open w =
  match first_open l (fun x => open (h x)) w with (w', Some (x, d)) => (w', Some (h x, d)) | (w', None) => (w', None) end.
Proof. induction l as [|x l IH]; intros w; cbn; [done|]. destruct (open (h x) w) as [w' [d|]]; [done|]. apply IH. Qed.

Lemma slot_devices_open r bus id : open_of r bus id 0 = None -> slot_devices r bus id = [].
Proof. unfold slot_devices. by intros ->. Qed.

Definition ids_from (r : Z -> Z) (bus id : Z) : list Device := seqZ id (32 - id) ≫= slot_devices r bus.
Definition buses_from (r : Z -> Z) (bus : Z) : list Device := seqZ bus (256 - bus) ≫= bus_devices r.

(** What the iterator still has to return. *)
Definition remaining (r : Z -> Z) (it : DeviceIter) : list Device :=
  match multi_function it with Some (b, i, f) => functions_of r b i f | None => [] end ++
  ids_from r (it_bus it) (it_id it) ++ buses_from r (it_bus it + 1).

Definition iter_ok (it : DeviceIter) : Prop :=
  0 <= it_bus it <= 255 /\ 0 <= it_id it <= 32 /\
  match multi_function it with Some (_, _, f) => 1 <= f <= 7 | None => True end.

(** One call returns the first remaining device and keeps the others. *)
Definition next_ok (r : Z -> Z) (w0 : W) (l : list Device) (res : W * DeviceIter * option Device) : Prop :=
  let '(w', it', o) := res in
  same_regs w0 w' /\ iter_ok it' /\
  match o with None => l = [] | Some d => l = d :: remaining r it' end.

Lemma multi_of_spec r bus id d : open_of r bus id 0 = Some d ->
  slot_devices r bus id = d :: match multi_of d bus id with Some (b, i, f) => functions_of r b i f | None => [] end.
Proof. unfold slot_devices, multi_of. intros ->. by destruct (multiple_functions _). Qed.

Lemma multi_of_ok bus id d : match multi_of d bus id with Some (_, _, f) => 1 <= f <= 7 | None => True end.
Proof. unfold multi_of. by destruct (multiple_functions _). Qed.

Lemma found_ok w0 w' bus id d rest : same_regs w0 w' -> 0 <= bus <= 255 -> 0 <= id < 32 ->
  open_of (reg w0) bus id 0 = Some d -> rest = ids_from (reg w0) bus (id + 1) ++ buses_from (reg w0) (bus + 1) ->
  next_ok (reg w0) w0 (slot_devices (reg w0) bus id ++ rest) (w', mkIter bus (id + 1) (multi_of d bus id), Some d).
Proof.
  intros Hs Hb Hi Ho ->. split; [done|]. split; [split; [done|split; [cbn; lia|apply multi_of_ok]]|].
  by rewrite (multi_of_spec _ _ _ _ Ho).
Qed.

Lemma buses_spec w0 : forall n bus w, 0 <= n -> bus + n = 256 -> 0 <= bus -> same_regs w0 w ->
  exists w', same_regs w0 w' /\
    ((first_open (b ← seqZ bus n; pair b <$> seqZ 0 32) (fun a => Device_open a.1 a.2 0) w = (w', None) /\ buses_from (reg w0) bus = []) \/
     exists b i d, first_open (b ← seqZ bus n; pair b <$> seqZ 0 32) (fun a => Device_open a.1 a.2 0) w = (w', Some ((b, i), d)) /\
       open_of (reg w0) b i 0 = Some d /\ bus <= b <= 255 /\ 0 <= i < 32 /\
       buses_from (reg w0) bus = slot_devices (reg w0) b i ++ ids_from (reg w0) b (i + 1) ++ buses_from (reg w0) (b + 1)).
Proof.
  intros n bus w Hn. revert bus w. pattern n. revert n Hn. apply natlike_ind.
  - intros bus w Hb _ Hw. exists w. split; [done|]. left. split; [done|]. unfold buses_from. by replace (256 - bus) with 0 by lia.
  - intros n Hn IH bus w Hb H0 Hw. rewrite (seqZ_cons bus (Z.succ n)) by lia. replace (Z.pred (Z.succ n)) with n by lia.
    rewrite bind_cons, first_open_app, first_open_map. cbn [fst snd].
    assert (Hu : buses_from (reg w0) bus = bus_devices (reg w0) bus ++ buses_from (reg w0) (bus + 1)).
    { unfold buses_from at 1. rewrite (seqZ_cons bus), bind_cons by lia. unfold buses_from.
      by replace (Z.pred (256 - bus)) with (256 - (bus + 1)) by lia. }
    destruct (first_open_spec (fun id => Device_open bus id 0) (fun id => open_of (reg w0) bus id 0) (slot_devices (reg w0) bus) w0)
      with (n := 32) (i := 0) (w := w) as (w1 & H1 & [[F G]|(x & d & F & Hf & Hx & G)]);
      [intros; by apply Device_open_spec|intros; by apply slot_devices_open|lia|done| |].
    + rewrite F. destruct (IH (Z.succ bus) w1) as (w' & Hs & Hr); [lia|lia|done|]. exists w'. split; [done|].
      rewrite Hu. unfold bus_devices. rewrite G. cbn [app]. replace (bus + 1) with (Z.succ bus) by lia.
      destruct Hr as [Hr|(b & i & d & ? & ? & ? & ? & ?)]; [by left|right]. exists b, i, d. by split_and!; try lia.
    + rewrite F. exists w1. split; [done|]. right. exists bus, x, d. split_and!; [done|done|lia|lia|lia|lia|].
      rewrite Hu. unfold bus_devices. rewrite G, <-app_assoc. unfold ids_from. by replace (0 + 32 - x - 1) with (32 - (x + 1)) by lia.
Qed.

Lemma next_buses_spec w0 w it : same_regs w0 w -> iter_ok it -> multi_function it = None ->
  next_ok (reg w0) w0 (buses_from (reg w0) (it_bus it + 1)) (next_buses it w).
Proof.
  intros Hw (Hb & Hi & _) Hm. unfold next_buses. case_if.
  - destruct (buses_spec w0 (256 - (it_bus it + 1)) (it_bus it + 1) w) as (w' & Hs & [[F G]|(b & i & d & F & Ho & Hb' & Hi' & G)]);
      [lia..|done| |]; rewrite F, G.
    + split; [done|]. split; [|done]. split; [cbn; lia|done].
    + apply found_ok; try done; lia.
  - split; [done|]. split; [split; [done|split; [done|by rewrite Hm]]|]. unfold buses_from.
    by replace (256 - (it_bus it + 1)) with 0 by lia.
Qed.

Lemma next_ids_spec w0 w it : same_regs w0 w -> iter_ok it -> multi_function it = None ->
  next_ok (reg w0) w0 (ids_from (reg w0) (it_bus it) (it_id it) ++ buses_from (reg w0) (it_bus it + 1)) (next_ids it w).
Proof.
  intros Hw Hok Hm. pose proof Hok as (Hb & Hi & _). unfold next_ids. case_if.
  - destruct (first_open_spec (fun id => Device_open (it_bus it) id 0) (fun id => open_of (reg w0) (it_bus it) id 0)
      (slot_devices (reg w0) (it_bus it)) w0) with (n := 32 - it_id it) (i := it_id it) (w := w)
      as (w1 & H1 & [[F G]|(x & d & F & Hf & Hx & G)]);
      [intros; by apply Device_open_spec|intros; by apply slot_devices_open|lia|done| |]; rewrite F.
    + unfold ids_from. rewrite G. by apply next_buses_spec.
    + unfold ids_from at 1. rewrite G, <-app_assoc. apply found_ok; [done..|lia|done|].
      unfold ids_from. by replace (it_id it + (32 - it_id it) - x - 1) with (32 - (x + 1)) by lia.
  - unfold ids_from. replace (32 - it_id it) with 0 by lia. by apply next_buses_spec.
Qed.

Lemma DeviceIter_next_spec w0 w it : same_regs w0 w -> iter_ok it ->
  next_ok (reg w0) w0 (remaining (reg w0) it) (DeviceIter_next it w).
Proof.
  intros Hw Hok. pose proof Hok as (Hb & Hi & Hmf). unfold DeviceIter_next, remaining.
  destruct (multi_function it) as [[[b i] f]|] eqn:Hm; [|by apply next_ids_spec].
  destruct (first_open_spec (fun func => Device_open b i func) (fun func => open_of (reg w0) b i func)
    (fun func => option_list (open_of (reg w0) b i func)) w0) with (n := 8 - f) (i := f) (w := w)
    as (w1 & H1 & [[F G]|(x & d & F & Hf & Hx & G)]);
    [intros; by apply Device_open_spec|by intros ? ->|lia|done| |]; rewrite F; unfold functions_of at 1; rewrite G.
  - by apply next_ids_spec.
  - split; [done|]. split; [split; [done|split; [done|cbn; case_if; [lia|done]]]|].
    rewrite Hf. cbn [option_list app]. f_equal. unfold remaining. cbn [multi_function it_bus it_id]. case_if.
    + unfold functions_of. by replace (f + (8 - f) - x - 1) with (8 - (x + 1)) by lia.
    + by replace (f + (8 - f) - x - 1) with 0 by lia.
Qed.

Lemma collect_spec w0 : forall fuel it w, same_regs w0 w -> iter_ok it ->
  (length (remaining (reg w0) it) < fuel)%nat -> collect fuel it w = Some (remaining (reg w0) it).
Proof.
  induction fuel as [|fuel IH]; intros it w Hw Hok Hl; [lia|]. cbn [collect].
  pose proof (DeviceIter_next_spec w0 w it Hw Hok) as Hn. destruct (DeviceIter_next it w) as [[w' it'] [d|]].
  - destruct Hn as (Hs & Hok' & Hr). rewrite Hr in Hl |- *. cbn in Hl. by rewrite IH by (done || lia).
  - destruct Hn as (_ & _ & ->). done.
Qed.
End Enumeration.

Section Counting.
Lemma length_bind_le {A B} (g : A -> list B) (k : nat) (l : list A) :
  (forall x, length (g x) <= k)%nat -> (length (l ≫= g) <= length l * k)%nat.
Proof.
  intros Hg. induction l as [|x l IH]; [done|]. rewrite bind_cons, length_app. cbn [length]. specialize (Hg x). lia.
Qed.

Lemma all_devices_length r : Z.of_nat (length (all_devices r)) <= 65536.
Proof.
  assert (Hf : forall b i, (length (functions_of r b i 1) <= 7 * 1)%nat).
  { intros b i. unfold functions_of. change 7%nat with (length (seqZ 1 (8 - 1))). apply length_bind_le.
    intros x. by destruct (open_of _ _ _ _); cbn; lia. }
  assert (Hs : forall b i, (length (slot_devices r b i) <= 8)%nat).
  { intros b i. unfold slot_devices. destruct (open_of _ _ _ _) as [d|]; cbn; [|lia].
    destruct (multiple_functions _); cbn; [specialize (Hf b i); lia|lia]. }
  assert (Hb : forall b, (length (bus_devices r b) <= 32 * 8)%nat).
  { intros b. unfold bus_devices. change 32%nat with (length (seqZ 0 32)). by apply length_bind_le. }
  pose proof (length_bind_le (bus_devices r) (32 * 8) (seqZ 0 256) Hb) as Ha. unfold all_devices.
  rewrite length_seqZ in Ha. lia.
Qed.
End Counting.

(** ** Lemmas: probing a BAR *)

Lemma trailing_zeros_unique w x k : 0 <= k < w -> uint_range w x ->
  Z.testbit x k = true -> (forall i, 0 <= i < k -> Z.testbit x i = false) -> trailing_zeros w x = k.
Proof.
  intros Hk Hx Ht Hf. assert (0 < x) as H0.
  { destruct (Z.eq_dec x 0) as [->|]; [by rewrite Z.bits_0 in Ht|unfold uint_range in Hx; lia]. }
  destruct (trailing_zeros_spec w x H0 Hx) as (Hr & Ht' & Hf').
  destruct (Z.lt_trichotomy (trailing_zeros w x) k) as [Hlt|[->|Hgt]]; [|done|].
  - by rewrite Hf in Ht' by lia.
  - by rewrite Hf' in Ht by lia.
Qed.

Lemma mem_address_spec bar : uint_range 32 bar -> wshl 32 (bar_mem_address bar) 4 = bar - bar mod 16.
Proof.
  intros Hb. unfold bar_mem_address, bit_field_range, bit_range. cbn [default from_option id].
  rewrite bit_range_done_spec by (done || lia). change (32 - 4) with 28. change (2 ^ 4) with 16.
  unfold wshl. change (4 mod 32) with 4. rewrite Z.shiftl_mul_pow2 by lia. change (2 ^ 4) with 16.
  unfold uint_range in Hb. pose proof (Z.div_mod bar 16). pose proof (Z.mod_pos_bound bar 16).
  rewrite (Z.mod_small (bar / 16)) by lia. rewrite (wrap_small 32 (bar / 16)) by (unfold uint_range; lia).
  rewrite wrap_small by (unfold uint_range; lia). lia.
Qed.

(** The writable bits of a register that decodes [2^k] bytes. *)
Definition size_mask (k : Z) : Z := 2 ^ 32 - 2 ^ k.

Lemma size_mask_bits k i : 0 <= k <= 32 -> 0 <= i -> Z.testbit (size_mask k) i = (k <=? i) && (i <? 32).
Proof.
  intros Hk Hi. replace (size_mask k) with (Z.shiftl (Z.ones (32 - k)) k).
  2:{ rewrite Z.shiftl_mul_pow2, Z.ones_equiv by lia. unfold size_mask. replace (2 ^ 32) with (2 ^ (32 - k) * 2 ^ k); [lia|].
      rewrite <-Z.pow_add_r by lia. f_equal. lia. }
  rewrite Z.shiftl_spec by lia. destruct (k <=? i) eqn:E; bool_hyps.
  - rewrite Z.testbit_ones_nonneg by lia. apply eq_true_iff_eq. cbn [andb]. rewrite !Z.ltb_lt. lia.
  - apply Z.testbit_neg_r. lia.
Qed.

Lemma size_mask_range k : 0 <= k <= 32 -> uint_range 32 (size_mask k).
Proof.
  intros Hk. apply uint_range_bits; [done| |].
  - unfold size_mask. pose proof (Z.pow_le_mono_r 2 k 32). lia.
  - intros i Hi. rewrite size_mask_bits, (proj2 (Z.ltb_ge i 32)) by lia. btauto.
Qed.

Lemma size_mask_tz k : 0 <= k < 32 -> trailing_zeros 32 (size_mask k) = k.
Proof.
  intros Hk. apply trailing_zeros_unique; [done|apply size_mask_range; lia| |].
  - rewrite size_mask_bits, (proj2 (Z.ltb_lt k 32)), (proj2 (Z.leb_le k k)) by lia. done.
  - intros i Hi. rewrite size_mask_bits, (proj2 (Z.leb_gt k i)) by lia. done.
Qed.

(** A register of which only the flag bits and the bits from [k] up may be
    set, as a device that decodes [2^k] bytes has it. *)
Definition aligned_bar (k v : Z) : Prop := uint_range 32 v /\ forall i, 4 <= i < k -> Z.testbit v i = false.

(** Register contents after writing [x]. *)
Definition written (m x v : Z) : Z := Z.lor (Z.land x m) (Z.land v (Z.lnot m)).

Lemma written_bits k x v i : 0 <= k <= 32 -> 0 <= i ->
  Z.testbit (written (size_mask k) x v) i = if (k <=? i) && (i <? 32) then Z.testbit x i else Z.testbit v i.
Proof.
  intros Hk Hi. unfold written. rewrite Z.lor_spec, !Z.land_spec, Z.lnot_spec, size_mask_bits by lia.
  destruct ((k <=? i) && (i <? 32)); cbn [negb]; btauto.
Qed.

Lemma readback_ones k v : 4 <= k <= 32 -> aligned_bar k v ->
  u32_set_range (written (size_mask k) 0xFFFFFFFF v) 0 4 0 = size_mask k.
Proof.
  intros Hk [Hv Hz]. change (u32_set_range ?x 0 4 0) with (Z.lor (Z.land x (size_mask 4)) 0). rewrite Z.lor_0_r.
  apply Z.bits_inj'. intros i Hi. rewrite Z.land_spec, written_bits, !size_mask_bits by lia.
  change 0xFFFFFFFF with (Z.ones 32). rewrite Z.testbit_ones_nonneg by lia.
  destruct (k <=? i) eqn:E1, (i <? 32) eqn:E2, (4 <=? i) eqn:E3; bool_hyps; cbn [andb]; try lia; try btauto.
  by rewrite Hz by lia.
Qed.

Lemma restored k v : 4 <= k <= 32 -> written (size_mask k) (v - v mod 16) (written (size_mask k) 0xFFFFFFFF v) = v.
Proof.
  intros Hk. apply Z.bits_inj'. intros i Hi. rewrite !written_bits by lia. case_if; [|done].
  replace (v - v mod 16) with (Z.shiftl (Z.shiftr v 4) 4).
  - rewrite Z.shiftl_spec, Z.shiftr_spec by lia. f_equal. lia.
  - rewrite Z.shiftl_mul_pow2, Z.shiftr_div_pow2 by lia. change (2 ^ 4) with 16. pose proof (Z.div_mod v 16). lia.
Qed.

Lemma restored_upper k v : 0 <= k <= 32 -> written (size_mask k) v (written (size_mask k) 0xFFFFFFFF v) = v.
Proof. intros Hk. apply Z.bits_inj'. intros i Hi. rewrite !written_bits by lia. by case_if. Qed.

Lemma readback_upper k v : 0 <= k <= 32 -> uint_range 32 v -> (forall i, 0 <= i < k -> Z.testbit v i = false) ->
  written (size_mask k) 0xFFFFFFFF v = size_mask k.
Proof.
  intros Hk Hv Hz. apply Z.bits_inj'. intros i Hi. rewrite written_bits, size_mask_bits by lia.
  change 0xFFFFFFFF with (Z.ones 32). rewrite Z.testbit_ones_nonneg by lia.
  destruct (k <=? i) eqn:E1, (i <? 32) eqn:E2; bool_hyps; cbn [andb]; try done; try (by rewrite Hz by lia).
  by rewrite (testbit_high 32) by (done || lia).
Qed.

(** Registers at different offsets are different. *)
Lemma config_address_bits bus device function offset i : 2 <= i < 8 ->
  Z.testbit (config_address bus device function offset) i = Z.testbit offset i.
Proof.
  intros Hi. unfold config_address. rewrite !Z.lor_spec, !testbit_wshl, Z.land_spec by lia.
  rewrite (proj2 (Z.leb_gt 16 i)), (proj2 (Z.leb_gt 11 i)), (proj2 (Z.leb_gt 8 i)) by lia.
  assert (Z.testbit 0xFC i = true /\ Z.testbit 0x80000000 i = false) as [-> ->].
  { assert (i = 2 \/ i = 3 \/ i = 4 \/ i = 5 \/ i = 6 \/ i = 7) as Hc by lia.
    by destruct Hc as [->|[->|[->|[->|[->| ->]]]]]. }
  btauto.
Qed.

Lemma config_address_next bus device function offset : offset mod 4 = 0 ->
  config_address bus device function (offset + 4) <> config_address bus device function offset.
Proof.
  intros Ho He. pose proof (f_equal (fun a => Z.testbit a 2) He) as Hb. cbn beta in Hb.
  rewrite !config_address_bits in Hb by lia. rewrite !Z.testbit_odd, !Z.shiftr_div_pow2 in Hb by lia.
  change (2 ^ 2) with 4 in Hb. replace (offset + 4) with (offset + 1 * 4) in Hb by lia.
  rewrite Z.div_add, Z.odd_add in Hb by lia. by destruct (Z.odd (offset / 4)).
Qed.

Section Bars.
Context {W : Type} {HP : Ports W} {HC : ConfigMechanism W}.
Implicit Types w : W.

(** The register of a BAR slot. *)
Definition bar_reg (d : Device) (slot : Z) : Z :=
  config_address (dev_bus d) (dev_device d) (dev_function d) (16 + slot * 4).

Lemma Device_read_spec d w offset :
  exists w', Device_read d w offset = (w', reg w (config_address (dev_bus d) (dev_device d) (dev_function d) offset)) /\ same_regs w w'.
Proof. apply pci_read_spec. Qed.

Lemma Device_write_reg d w offset v b :
  let a := config_address (dev_bus d) (dev_device d) (dev_function d) offset in
  reg (Device_write d w offset v) b = if decide (b = a) then written (writable a) v (reg w a) else reg w b.
Proof. apply cfg_write. Qed.

Lemma Device_bar_mem d w slot : 0 <= slot < 6 -> dev_class d <> BridgeDevice ->
  Z.testbit (reg w (bar_reg d slot)) 0 = false ->
  exists w', same_regs w w' /\ Device_bar d w slot =
    let v := reg w (bar_reg d slot) in
    let prefetchable := Z.testbit v 3 in
    let address := v - v mod 16 in
    if bar_mem_type v =? 0 then Done (bar32 d w' (16 + slot * 4) address prefetchable)
    else if bar_mem_type v =? 2 then
      if 5 <=? slot then Done (w', None) else Done (bar64 d w' (16 + slot * 4) address prefetchable)
    else Panic.
Proof.
  intros Hs Hc Hio. unfold Device_bar. rewrite (proj2 (Z.leb_gt 6 slot)) by lia.
  rewrite bool_decide_false by done. cbn [andb]. destruct (Device_read_spec d w (16 + slot * 4)) as (w' & -> & Hw).
  fold (bar_reg d slot). exists w'. split; [done|]. unfold bar_io. rewrite bit_test_spec, Hio by lia. cbn [negb].
  unfold bar_mem_prefetchable. rewrite bit_test_spec by lia. rewrite mem_address_spec by apply reg_word. done.
Qed.

Lemma bar32_spec d w slot address prefetchable k : 0 <= slot < 6 -> 4 <= k < 32 ->
  writable (bar_reg d slot) = size_mask k -> aligned_bar k (reg w (bar_reg d slot)) ->
  address = reg w (bar_reg d slot) - reg w (bar_reg d slot) mod 16 ->
  exists w', bar32 d w (16 + slot * 4) address prefetchable = (w', Some (Mem32 address (2 ^ k) prefetchable)) /\ same_regs w w'.
Proof.
  intros Hs Hk Hm Ha Haddr. unfold bar32. set (w1 := Device_write d w _ _).
  destruct (Device_read_spec d w1 (16 + slot * 4)) as (w2 & -> & H2). fold (bar_reg d slot).
  assert (E1 : reg w1 (bar_reg d slot) = written (size_mask k) 0xFFFFFFFF (reg w (bar_reg d slot))).
  { unfold w1. rewrite Device_write_reg. fold (bar_reg d slot). by rewrite decide_True, Hm by done. }
  rewrite E1. pose proof (readback_ones k _ ltac:(lia) Ha) as Hr. case_if.
  { rewrite Hif in Hr. change (u32_set_range 0 0 4 0) with 0 in Hr. unfold size_mask in Hr.
    pose proof (Z.pow_lt_mono_r 2 k 32). lia. }
  rewrite Hr, size_mask_tz, wshl_1 by lia. eexists. split; [reflexivity|].
  intros b. rewrite Device_write_reg. fold (bar_reg d slot). case_decide as Hb.
  - rewrite Hb, Hm, (H2 _), E1, Haddr. by apply restored; lia.
  - rewrite (H2 _). unfold w1. rewrite Device_write_reg. fold (bar_reg d slot). by rewrite decide_False.
Qed.

(** The two halves of a 64-bit BAR that decodes [2^k] bytes. *)
Definition low_size (k : Z) : Z := Z.min k 32.
Definition high_size (k : Z) : Z := Z.max 0 (k - 32).

Record bar64_hw (d : Device) (slot k v0 v1 : Z) : Prop := {
  hw_size : 4 <= k < 64;
  hw_low : writable (W := W) (bar_reg d slot) = size_mask (low_size k);
  hw_high : writable (W := W) (bar_reg d (slot + 1)) = size_mask (high_size k);
  hw_v0 : aligned_bar (low_size k) v0;
  hw_v1 : uint_range 32 v1 /\ forall i, 0 <= i < high_size k -> Z.testbit v1 i = false
}.

(** The size computed from the two values read back. *)
Definition bar64_size (k : Z) : Z := if k =? 31 then 2 ^ 64 - 2 ^ 31 else 2 ^ k.

Lemma bar64_size_spec k : 4 <= k < 64 ->
  (if negb (size_mask (low_size k) =? 0) then i32_pow2_as_u64 (trailing_zeros 32 (size_mask (low_size k)))
   else wshl 64 1 (trailing_zeros 32 (size_mask (high_size k)) + 32)) = bar64_size k.
Proof.
  intros Hk. unfold low_size, high_size, bar64_size. destruct (Z.lt_ge_cases k 32) as [Hlt|Hge].
  - rewrite Z.min_l by lia. rewrite (proj2 (Z.eqb_neq (size_mask k) 0)).
    2:{ unfold size_mask. pose proof (Z.pow_lt_mono_r 2 k 32). lia. }
    cbn [negb]. rewrite size_mask_tz by lia. unfold i32_pow2_as_u64, as_signed. rewrite wshl_1 by lia. change (32 - 1) with 31.
    destruct (Z.eq_dec k 31) as [->|Hne]; [done|]. rewrite (proj2 (Z.eqb_neq k 31)) by done.
    pose proof (Z.pow_lt_mono_r 2 k 31). pose proof (Z.pow_pos_nonneg 2 k). rewrite (proj2 (Z.ltb_lt _ _)) by lia.
    apply wrap_small. unfold uint_range. pose proof (Z.pow_lt_mono_r 2 31 64). lia.
  - rewrite Z.min_r, Z.max_r by lia. change (size_mask 32) with 0. cbn [negb Z.eqb].
    rewrite size_mask_tz by lia. rewrite (proj2 (Z.eqb_neq k 31)) by lia. replace (k - 32 + 32) with k by lia. apply wshl_1. lia.
Qed.

Lemma bar64_spec d w slot address prefetchable k : 0 <= slot < 5 ->
  bar64_hw d slot k (reg w (bar_reg d slot)) (reg w (bar_reg d (slot + 1))) ->
  address = reg w (bar_reg d slot) - reg w (bar_reg d slot) mod 16 ->
  exists w', bar64 d w (16 + slot * 4) address prefetchable =
    (w', Some (Mem64 (address + 2 ^ 32 * reg w (bar_reg d (slot + 1))) (bar64_size k) prefetchable)) /\ same_regs w w'.
Proof.
  intros Hs [Hk Hm0 Hm1 Ha0 [Hu1 Hz1]] Haddr. unfold bar64.
  replace (16 + slot * 4 + 4) with (16 + (slot + 1) * 4) by lia.
  assert (Hne : bar_reg d (slot + 1) <> bar_reg d slot).
  { unfold bar_reg. replace (16 + (slot + 1) * 4) with (16 + slot * 4 + 4) by lia. apply config_address_next.
    replace (16 + slot * 4) with ((4 + slot) * 4) by lia. by apply Z.mod_mul. }
  destruct (Device_read_spec d w (16 + (slot + 1) * 4)) as (w1 & -> & H1). fold (bar_reg d (slot + 1)).
  set (v0 := reg w (bar_reg d slot)) in *. set (v1 := reg w (bar_reg d (slot + 1))) in *.
  set (w2 := Device_write d w1 _ _). set (w3 := Device_write d w2 _ _).
  assert (E : forall b, reg w3 b = if decide (b = bar_reg d (slot + 1)) then written (size_mask (high_size k)) 0xFFFFFFFF v1
     else if decide (b = bar_reg d slot) then written (size_mask (low_size k)) 0xFFFFFFFF v0 else reg w b).
  { intros b. unfold w3. rewrite Device_write_reg. fold (bar_reg d (slot + 1)). unfold w2. rewrite !Device_write_reg.
    fold (bar_reg d slot). rewrite Hm0, Hm1, !(H1 _), (decide_False (P := bar_reg d (slot + 1) = _)) by done. done. }
  destruct (Device_read_spec d w3 (16 + slot * 4)) as (w4 & -> & H4).
  destruct (Device_read_spec d w4 (16 + (slot + 1) * 4)) as (w5 & -> & H5).
  fold (bar_reg d slot) (bar_reg d (slot + 1)). rewrite (H4 _), !E, (decide_False (P := bar_reg d slot = _)) by done.
  rewrite !decide_True by done. unfold low_size, high_size in *.
  rewrite readback_ones, (readback_upper _ v1) by (done || lia).
  fold (low_size k) (high_size k). rewrite bar64_size_spec by done.
  assert (Hadr : u64_set_range address 32 64 v1 = address + 2 ^ 32 * v1).
  { change (u64_set_range address 32 64 v1) with (Z.lor (Z.land address (2 ^ 32 - 1)) (wshl 64 v1 32)).
    destruct Ha0 as [Hr0 _]. unfold uint_range in *. pose proof (Z.mod_pos_bound v0 16). pose proof (Z.mod_le v0 16).
    rewrite land_ones_mod, Z.mod_small by lia. unfold wshl. change (32 mod 64) with 32.
    rewrite Z.shiftl_mul_pow2, wrap_small, Z.lor_comm, (lor_disjoint_add 32) by (unfold uint_range; lia || apply Z.mod_mul; lia).
    lia. }
  rewrite Hadr. eexists. split; [reflexivity|]. intros b. rewrite Device_write_reg. fold (bar_reg d (slot + 1)).
  rewrite !Device_write_reg. fold (bar_reg d slot). rewrite Hm0, Hm1, !(H5 _), !(H4 _), !E.
  rewrite (decide_False (P := bar_reg d (slot + 1) = bar_reg d slot)), (decide_False (P := bar_reg d slot = bar_reg d (slot + 1))) by done.
  rewrite !(decide_True (P := bar_reg d slot = _)), !(decide_True (P := bar_reg d (slot + 1) = _)) by done.
  destruct (decide (b = bar_reg d (slot + 1))) as [->|]; [apply restored_upper; unfold high_size; lia|].
  destruct (decide (b = bar_reg d slot)) as [->|]; [|done]. rewrite Haddr. apply restored. unfold low_size. lia.
Qed.
End Bars.

(** ** A machine with one device, for the witnesses *)

Record Machine : Type := mkMachine { latch : Z; mach_regs : gmap Z Z }.

Definition machine_reg (m : Machine) (a : Z) : Z := wrap 32 (default 0xFFFFFFFF (mach_regs m !! a)).

(** Function 3 of bus 0 has a 1 MiB BAR in slot 0, a 4 GiB BAR in slots 2 and 3
    and a 2 GiB BAR in slots 4 and 5. *)
Definition machine_writable (a : Z) : Z :=
  if a =? config_address 0 3 0 16 then size_mask 20
  else if a =? config_address 0 3 0 24 then size_mask 32
  else if a =? config_address 0 3 0 28 then size_mask 0
  else if a =? config_address 0 3 0 32 then size_mask 31
  else if a =? config_address 0 3 0 36 then size_mask 0
  else 0.

#[export] Instance Machine_ports : Ports Machine := {|
  out32 m port v :=
    if port =? CONFIG_ADDRESS then mkMachine v (mach_regs m)
    else if port =? CONFIG_DATA then
      mkMachine (latch m) (<[latch m := written (machine_writable (latch m)) v (machine_reg m (latch m))]> (mach_regs m))
    else m;
  in32 m port := (m, machine_reg m (latch m))
|}.

Lemma machine_writable_range a : uint_range 32 (machine_writable a).
Proof.
  unfold machine_writable. repeat (case_if; [apply size_mask_range; lia|]). unfold uint_range. lia.
Qed.

Lemma written_range m x v : uint_range 32 m -> uint_range 32 v -> uint_range 32 (written m x v).
Proof.
  intros Hm Hv. unfold written. apply lor_range; [done| |].
  - rewrite Z.land_comm. apply uint_range_bits; [done|apply Z.land_nonneg; unfold uint_range in Hm; lia|].
    intros i Hi. rewrite Z.land_spec, (testbit_high 32 m) by (done || lia). done.
  - apply uint_range_bits; [done|apply Z.land_nonneg; unfold uint_range in Hv; lia|].
    intros i Hi. rewrite Z.land_spec, (testbit_high 32 v) by (done || lia). done.
Qed.

#[export] Program Instance Machine_config : ConfigMechanism Machine := {|
  reg := machine_reg;
  writable := machine_writable
|}.
Next Obligation. intros w a. by apply wrap_range. Qed.
Next Obligation. done. Qed.
Next Obligation.
  intros w bus device function offset v b. cbv zeta. set (a := config_address _ _ _ _).
  change (machine_reg (mkMachine a (<[a := written (machine_writable a) v (machine_reg w a)]> (mach_regs w))) b =
    if decide (b = a) then written (machine_writable a) v (machine_reg w a) else machine_reg w b).
  unfold machine_reg at 1. cbn [mach_regs]. case_decide as Hb.
  - subst b. rewrite lookup_insert_eq. cbn [default from_option id]. apply wrap_small, written_range;
      [apply machine_writable_range|by apply wrap_range].
  - by rewrite lookup_insert_ne by done.
Qed.

Definition example_machine : Machine := mkMachine 0 (list_to_map [
  (config_address 0 3 0 0x00, 0x10501AF4); (config_address 0 3 0 0x08, 0x03800001);
  (config_address 0 3 0 0x0C, 0); (config_address 0 3 0 0x3C, 0x10A);
  (config_address 0 3 0 16, 0xFE000008); (config_address 0 3 0 24, 0x4); (config_address 0 3 0 28, 0x80);
  (config_address 0 3 0 32, 0x80000004); (config_address 0 3 0 36, 0)]).

Definition example_device : Device := mkDevice 0 3 0 0x1050 0x1AF4 DisplayController 0x80 0 0 0x0A 1.

(** ** Properties *)

(** C29: draining the device iterator returns exactly the devices the nested
    loops over buses, devices and functions find, each once and in order: no
    state of the iterator skips or repeats an address. The fuel bounds the
    number of functions of a machine. *)
Theorem enumerate_devices_complete {W : Type} {HP : Ports W} {HC : ConfigMechanism W} (w : W) (fuel : nat) :
  65536 < Z.of_nat fuel -> collect fuel enumerate_devices w = Some (all_devices (reg w)).
Proof.
  intros Hf. assert (Hr : remaining (reg w) enumerate_devices = all_devices (reg w)).
  { unfold remaining, all_devices, buses_from. cbn [multi_function enumerate_devices it_bus it_id app].
    rewrite (seqZ_cons 0 256), bind_cons by lia. done. }
  rewrite <-Hr. apply collect_spec; [by intros b|by split_and!|]. rewrite Hr. pose proof (all_devices_length (reg w)). lia.
Qed.

Lemma enumerate_devices_complete_witness :
  collect (Z.to_nat 65537) enumerate_devices example_machine = Some (all_devices (reg example_machine)).
Proof. apply enumerate_devices_complete. lia. Defined.

(** Reading a memory BAR of a device that decodes [2^k] bytes returns its
    base address, prefetch flag and size [2^k], and leaves every
    configuration register as it was, although the probe overwrites the BAR:
    for 32-bit BARs, and for 64-bit BARs of any size but 2 GiB. *)
Theorem Device_bar_probe {W : Type} {HP : Ports W} {HC : ConfigMechanism W} (d : Device) (w : W) (slot k : Z) :
  let v := reg w (bar_reg d slot) in
  let upper := reg w (bar_reg d (slot + 1)) in
  0 <= slot < 6 -> dev_class d <> BridgeDevice -> Z.testbit v 0 = false ->
  (bar_mem_type v = 0 -> 4 <= k < 32 -> writable (bar_reg d slot) = size_mask k -> aligned_bar k v ->
     exists w', Device_bar d w slot = Done (w', Some (Mem32 (v - v mod 16) (2 ^ k) (Z.testbit v 3))) /\ same_regs w w') /\
  (bar_mem_type v = 2 -> slot < 5 -> k <> 31 -> bar64_hw (W := W) d slot k v upper ->
     exists w', Device_bar d w slot = Done (w', Some (Mem64 (v - v mod 16 + 2 ^ 32 * upper) (2 ^ k) (Z.testbit v 3))) /\ same_regs w w').
Proof.
  intros v upper Hs Hc Hio. destruct (Device_bar_mem d w slot Hs Hc Hio) as (w1 & H1 & ->). cbv zeta. fold v. split.
  - intros Ht Hk Hm Ha. rewrite Ht. change (0 =? 0) with true. cbv iota.
    destruct (bar32_spec d w1 slot (v - v mod 16) (Z.testbit v 3) k) as (w2 & -> & H2); [done..|by rewrite (H1 _)|by rewrite (H1 _)|].
    exists w2. split; [done|]. intros b. by rewrite (H2 _).
  - intros Ht Hs5 Hk Hhw. rewrite Ht. change (2 =? 0) with false. change (2 =? 2) with true. cbv iota.
    rewrite (proj2 (Z.leb_gt 5 slot)) by lia.
    destruct (bar64_spec d w1 slot (v - v mod 16) (Z.testbit v 3) k) as (w2 & -> & H2);
      [lia|by rewrite !(H1 _)|by rewrite (H1 _)|]. rewrite (H1 _). fold upper.
    replace (bar64_size k) with (2 ^ k) by (unfold bar64_size; by rewrite (proj2 (Z.eqb_neq _ _))).
    exists w2. split; [done|]. intros b. by rewrite (H2 _).
Qed.

Lemma Device_bar_probe_witness :
  (exists w', Device_bar example_device example_machine 0 = Done (w', Some (Mem32 0xFE000000 (2 ^ 20) true))) /\
  (exists w', Device_bar example_device example_machine 2 = Done (w', Some (Mem64 0x8000000000 (2 ^ 32) false))).
Proof.
  split.
  - destruct (Device_bar_probe example_device example_machine 0 20) as [H _]; [lia|done|by vm_compute|].
    destruct H as (w' & H & _); [by vm_compute|lia|by vm_compute| |exists w'; exact H].
    split; [by vm_compute|]. intros i Hi. assert (Hc : i = 4 \/ i = 5 \/ i = 6 \/ i = 7 \/ i = 8 \/ i = 9 \/ i = 10 \/ i = 11 \/
      i = 12 \/ i = 13 \/ i = 14 \/ i = 15 \/ i = 16 \/ i = 17 \/ i = 18 \/ i = 19) by lia.
    repeat (destruct Hc as [->|Hc]; [by vm_compute|]). by rewrite Hc.
  - destruct (Device_bar_probe example_device example_machine 2 32) as [_ H]; [lia|done|by vm_compute|].
    destruct H as (w' & H & _); [by vm_compute|lia|done| |exists w'; exact H]. split; [lia|by vm_compute|by vm_compute| |].
    + split; [by vm_compute|]. intros i Hi. assert (Z.testbit 4 i = false) as Hb by (apply (testbit_high 4); unfold uint_range; lia). exact Hb.
    + split; [by vm_compute|]. unfold high_size. intros i Hi. lia.
Defined.

(** The size of a 64-bit BAR that decodes exactly 2 GiB is wrong: the
    shift is done in [i32] and sign-extended, giving [2^64 - 2^31]. *)
Theorem Device_bar_2gib_size {W : Type} {HP : Ports W} {HC : ConfigMechanism W} (d : Device) (w : W) (slot : Z) :
  let v := reg w (bar_reg d slot) in
  let upper := reg w (bar_reg d (slot + 1)) in
  0 <= slot < 5 -> dev_class d <> BridgeDevice -> Z.testbit v 0 = false -> bar_mem_type v = 2 ->
  bar64_hw (W := W) d slot 31 v upper ->
  exists w', Device_bar d w slot = Done (w', Some (Mem64 (v - v mod 16 + 2 ^ 32 * upper) (2 ^ 64 - 2 ^ 31) (Z.testbit v 3))).
Proof.
  intros v upper Hs Hc Hio Ht Hhw. destruct (Device_bar_mem d w slot ltac:(lia) Hc Hio) as (w1 & H1 & ->). cbv zeta. fold v.
  rewrite Ht. change (2 =? 0) with false. change (2 =? 2) with true. cbv iota. rewrite (proj2 (Z.leb_gt 5 slot)) by lia.
  destruct (bar64_spec d w1 slot (v - v mod 16) (Z.testbit v 3) 31) as (w2 & -> & _);
    [lia|by rewrite !(H1 _)|by rewrite (H1 _)|]. rewrite (H1 _). by exists w2.
Qed.

Lemma Device_bar_2gib_size_witness :
  exists w', Device_bar example_device example_machine 4 = Done (w', Some (Mem64 0x80000000 (2 ^ 64 - 2 ^ 31) false)).
Proof.
  destruct (Device_bar_2gib_size example_device example_machine 4) as (w' & H); [lia|done|by vm_compute|by vm_compute| |exists w'; exact H].
  split; [lia|by vm_compute|by vm_compute| |].
  - split; [by vm_compute|]. change (low_size 31) with 31. intros i Hi.
    assert (Hb : Z.testbit (2 ^ 31 + 4) i = false); [|exact Hb]. rewrite <-(Z.mod_pow2_bits_low _ 31) by lia.
    change ((2 ^ 31 + 4) mod 2 ^ 31) with 4. apply (testbit_high 4); unfold uint_range; lia.
  - split; [by vm_compute|]. unfold high_size. intros i Hi. lia.
Defined.

(** Class and capability codes: decoding is the exact inverse of the
    discriminants, and everything else is rejected. *)
Theorem raw_codes_roundtrip (raw : Z) (c : DeviceClass) (k : Capability) :
  (Class_from_raw raw = Some c <-> raw = Class_into_raw c) /\
  (Capability_from_raw raw = Some k <-> raw = Capability_into_raw k).
Proof.
  split; (split; [|intros ->; first [by destruct c|by destruct k]]).
  - unfold Class_from_raw. intros Hr. repeat match type of Hr with context [match ?x with _ => _ end] => destruct x; try discriminate Hr end;
      by injection Hr as <-.
  - unfold Capability_from_raw. intros Hr. repeat match type of Hr with context [match ?x with _ => _ end] => destruct x; try discriminate Hr end;
      by injection Hr as <-.
Qed.

(** A capability list that ends (next pointer 0) is not recognised as
    ended: the iterator goes on to read register 0, and on a device whose
    vendor id ends in 0x13, here one without any capability, it returns the
    vendor id as a capability. *)
Theorem capabilities_ignore_end :
  let m := mkMachine 0 (list_to_map [(config_address 0 2 0 0x00, 0x00B81013); (config_address 0 2 0 0x34, 0)]) in
  (r ← CapabilityIter_new m 0 2 0; Done (CapabilityIter_next r.2 r.1).2)
  = Done (Some (mkCapability AdvancedFeatures 0)).
Proof. vm_compute. reflexivity. Qed.
