(* ===== verification/Virtqueue.v ===== *)
(** * drivers/virtio/src/virtio.rs: the split virtqueue

    The driver's half of a split virtqueue: a table of descriptors with one
    buffer each, the ring of chains made available to the device and the ring
    of chains the device has used. The device is the environment: it changes
    the used ring and the buffers between the driver's calls
    ([completed]). A message type is a [Pod] with its encoding; the buffers
    are a memory of bytes. *)

From Stdlib Require Import Lia.
From stdpp Require Import base numbers option tactics sorting list.
From S2P Require Import Prelude Pod Bytes.

Local Open Scope Z_scope.

(** ** The queue *)

Record VirtqueueDesc : Type := mkDesc { desc_addr : Z; desc_len : Z; desc_flags : Z; desc_next : Z }.

Definition VirtqueueDesc_ZERO : VirtqueueDesc := mkDesc 0 0 0 0.

Record VirtqueueAvailableRing : Type := mkAvailableRing {
  driver_flags : Z; driver_idx : Z; driver_ring : list Z; used_event : Z
}.

Record VirtqueueUsedElement : Type := mkUsedElement { used_id : Z; used_len : Z }.

Definition VirtqueueUsedElement_ZERO : VirtqueueUsedElement := mkUsedElement 0 0.

Record VirtqueueUsedRing : Type := mkUsedRing {
  device_flags : Z; device_idx : Z; device_ring : list VirtqueueUsedElement; avail_event : Z
}.

Record VirtqueueStorage : Type := mkStorage {
  descriptor_area : list VirtqueueDesc;
  driver_area : VirtqueueAvailableRing;
  device_area : VirtqueueUsedRing
}.

Definition VirtqueueStorage_new (SIZE : nat) : VirtqueueStorage :=
  mkStorage (replicate SIZE VirtqueueDesc_ZERO) (mkAvailableRing 0 0 (replicate SIZE 0) 0)
    (mkUsedRing 0 0 (replicate SIZE VirtqueueUsedElement_ZERO) 0).

Record Virtqueue : Type := mkVirtqueue {
  vq_index : Z;
  storage : VirtqueueStorage;
  pop_index : Z;
  notify_addr : Z;
  available_descriptors : list bool
}.

Inductive VirtqueueMessage (T : Type) : Type :=
  | DeviceWrite
  | DeviceRead (data : T) (len : option Z).
Arguments DeviceWrite {T}.
Arguments DeviceRead {T} data len.

Definition descs (q : Virtqueue) : list VirtqueueDesc := descriptor_area (storage q).

Definition upd_available (q : Virtqueue) (l : list bool) : Virtqueue :=
  mkVirtqueue (vq_index q) (storage q) (pop_index q) (notify_addr q) l.
Definition upd_descs (q : Virtqueue) (l : list VirtqueueDesc) : Virtqueue :=
  mkVirtqueue (vq_index q) (mkStorage l (driver_area (storage q)) (device_area (storage q))) (pop_index q) (notify_addr q)
    (available_descriptors q).
Definition upd_driver_area (q : Virtqueue) (a : VirtqueueAvailableRing) : Virtqueue :=
  mkVirtqueue (vq_index q) (mkStorage (descs q) a (device_area (storage q))) (pop_index q) (notify_addr q)
    (available_descriptors q).
Definition upd_pop_index (q : Virtqueue) (i : Z) : Virtqueue :=
  mkVirtqueue (vq_index q) (storage q) i (notify_addr q) (available_descriptors q).

(** [notify_device]: the address and the value it writes. *)
Definition notify_device (q : Virtqueue) : exec (Z * Z) :=
  _ ← rust_assert (vq_index q <? 2 ^ 8);
  Done (notify_addr q, vq_index q).

(** ** Descriptors *)

Fixpoint first_available (l : list bool) : option nat :=
  match l with
  | [] => None
  | true :: _ => Some O
  | false :: l => S <$> first_available l
  end.

Definition take_descriptor (q : Virtqueue) : Virtqueue * option nat :=
  match first_available (available_descriptors q) with
  | Some i => (upd_available q (<[i := false]> (available_descriptors q)), Some i)
  | None => (q, None)
  end.

Definition return_descriptor (q : Virtqueue) (desc_index : nat) : exec Virtqueue :=
  l ← array_set (available_descriptors q) desc_index true;
  Done (upd_available q l).

(** The first loop of [push]: takes [n] more descriptors, or returns those
    taken. *)
Fixpoint reserve (n : nat) (taken : list nat) (q : Virtqueue) : exec (Virtqueue * result (list nat) unit) :=
  match n with
  | O => Done (q, Ok taken)
  | S n =>
      match take_descriptor q with
      | (q, Some desc_index) => reserve n (taken ++ [desc_index]) q
      | (q, None) =>
          q ← for_each taken (fun desc_index q => return_descriptor q desc_index) q;
          Done (q, Err tt)
      end
  end.

(** The last block of [push]: the head of the chain goes into the ring. *)
Definition make_available (QUEUE_SIZE : nat) (desc_indices : list nat) (area : VirtqueueAvailableRing) : exec VirtqueueAvailableRing :=
  first ← unwrap (desc_indices !! 0%nat);
  ring ← array_set (driver_ring area) (Z.to_nat (driver_idx area mod Z.of_nat QUEUE_SIZE)) (wrap 16 (Z.of_nat first));
  Done (mkAvailableRing (driver_flags area) (wrap 16 (driver_idx area + 1)) ring (used_event area)).

Section messages.
Context {T : Type} `{PodEncoding T} (T_default : T) (QUEUE_SIZE : nat).

(** What a message makes of its descriptor and its buffer. *)
Definition message_flags (m : VirtqueueMessage T) : Z :=
  match m with DeviceRead _ _ => 0 | DeviceWrite => 2 end.
Definition message_len (m : VirtqueueMessage T) : Z :=
  wrap 32 (match m with DeviceRead _ len => default (size_of T) len | DeviceWrite => size_of T end).
Definition message_data (m : VirtqueueMessage T) : T :=
  match m with DeviceRead data _ => data | DeviceWrite => T_default end.

(** The body of the second loop of [push]. *)
Definition write_message (N : nat) (desc_indices : list nat) (m : nat * VirtqueueMessage T)
    (s : list VirtqueueDesc * Memory_bytes) : exec (list VirtqueueDesc * Memory_bytes) :=
  let '(message_index, message) := m in
  let '(area, memory) := s in
  desc_index ← unwrap (desc_indices !! message_index);
  desc ← unwrap (area !! desc_index);
  let desc := mkDesc (desc_addr desc) (message_len message) (message_flags message) (desc_next desc) in
  let memory := write_memory memory (desc_addr desc) (to_bytes (message_data message)) in
  desc ← (if (message_index <? N - 1)%nat then
      next ← unwrap (desc_indices !! (message_index + 1)%nat);
      Done (mkDesc (desc_addr desc) (desc_len desc) (Z.lor (desc_flags desc) 0x1) (wrap 16 (Z.of_nat next)))
    else Done desc);
  Done (<[desc_index := desc]> area, memory).

Definition push (q : Virtqueue) (memory : Memory_bytes) (messages : list (VirtqueueMessage T))
    : exec (Virtqueue * Memory_bytes * result unit unit) :=
  let N := length messages in
  _ ← rust_assert ((0 <? N)%nat && (N <=? QUEUE_SIZE)%nat);
  '(q, r) ← reserve N [] q;
  match r with
  | Err _ => Done (q, memory, Err tt)
  | Ok desc_indices =>
      '(area, memory) ← for_each (imap pair messages) (write_message N desc_indices) (descs q, memory);
      let q := upd_descs q area in
      driver ← make_available QUEUE_SIZE desc_indices (driver_area (storage q));
      Done (upd_driver_area q driver, memory, Ok tt)
  end.

Definition read_buffer (memory : Memory_bytes) (desc : VirtqueueDesc) : T :=
  from_bytes (read_memory memory (desc_addr desc) (size_of T)).

(** The loop of [pop] with [n] places left in [out]; without one it panics. *)
Fixpoint pop_chain (n : nat) (memory : Memory_bytes) (desc_index : nat) (q : Virtqueue) : exec (Virtqueue * list (option T)) :=
  match n with
  | O => Panic
  | S n =>
      desc ← unwrap (descs q !! desc_index);
      let value := read_buffer memory desc in
      q ← return_descriptor q desc_index;
      if desc_next desc =? 0 then Done (q, Some value :: replicate n None)
      else
        '(q, out) ← pop_chain n memory (Z.to_nat (desc_next desc)) q;
        Done (q, Some value :: out)
  end.

Definition pop (N : nat) (q : Virtqueue) (memory : Memory_bytes) : exec (Virtqueue * option (list (option T))) :=
  let area := device_area (storage q) in
  if device_idx area =? pop_index q then Done (q, None)
  else
    element ← unwrap (device_ring area !! Z.to_nat (pop_index q mod Z.of_nat QUEUE_SIZE));
    '(q, out) ← pop_chain N memory (Z.to_nat (used_id element)) q;
    Done (upd_pop_index q (wrap 64 (pop_index q + 1)), Some out).
End messages.

(** ** Free descriptors *)

Fixpoint free_from (k : nat) (l : list bool) : list nat :=
  match l with
  | [] => []
  | b :: l => if b then k :: free_from (S k) l else free_from (S k) l
  end.

(** The available descriptors in increasing order. *)
Definition free (q : Virtqueue) : list nat := free_from 0 (available_descriptors q).

(** The flags with some of them set to [v]. *)
Definition mark (ds : list nat) (v : bool) (l : list bool) : list bool := foldr (fun i l => <[i := v]> l) l ds.

Lemma elem_of_free_from l : forall k i, i ∈ free_from k l <-> (k <= i)%nat /\ l !! (i - k)%nat = Some true.
Proof.
  induction l as [|b l IH]; intros k i; cbn [free_from].
  - rewrite elem_of_nil. split; [done|]. by intros [_ ?].
  - assert (i ∈ free_from (S k) l <-> (k < i)%nat /\ (b :: l) !! (i - k)%nat = Some true) as Hr.
    { rewrite IH. split; intros [Hk Hl]; (split; [lia|]).
      - replace (i - k)%nat with (S (i - S k)) by lia. done.
      - replace (i - k)%nat with (S (i - S k)) in Hl by lia. done. }
    destruct b; [rewrite elem_of_cons|]; rewrite Hr.
    + split; [intros [->|[Hk Hl]]; [by rewrite Nat.sub_diag|split; [lia|done]]|]. intros [Hk Hl].
      destruct (decide (i = k)) as [->|]; [by left|right; split; [lia|done]].
    + split; intros [Hk Hl]; (split; [lia|done]) || idtac.
      split; [|done]. destruct (decide (i = k)) as [->|]; [by rewrite Nat.sub_diag in Hl|lia].
Qed.

Lemma elem_of_free q i : i ∈ free q <-> available_descriptors q !! i = Some true.
Proof. unfold free. rewrite elem_of_free_from, Nat.sub_0_r. split; [by intros [_ ?]|]. by split; [lia|]. Qed.

Lemma free_from_sorted l : forall k, StronglySorted lt (free_from k l).
Proof.
  induction l as [|b l IH]; intros k; cbn [free_from]; [constructor|]. destruct b; [|apply IH].
  constructor; [apply IH|]. apply Forall_forall. intros i [Hi _]%elem_of_free_from. lia.
Qed.

Lemma free_ext q q' : available_descriptors q' = available_descriptors q -> free q' = free q.
Proof. unfold free. by intros ->. Qed.

Lemma free_NoDup q : NoDup (free q).
Proof.
  assert (forall l : list nat, StronglySorted lt l -> NoDup l) as H; [|apply H, free_from_sorted].
  induction 1 as [|i l _ IH Hi]; constructor; [|done]. intros Hin. rewrite Forall_forall in Hi. specialize (Hi i Hin). lia.
Qed.

Lemma first_available_free l : forall k,
  match first_available l with
  | Some i => free_from k l = (k + i)%nat :: free_from k (<[i := false]> l)
  | None => free_from k l = []
  end.
Proof.
  induction l as [|[] l IH]; intros k; cbn [first_available free_from]; [done| |].
  - cbn. by rewrite Nat.add_0_r.
  - specialize (IH (S k)). destruct (first_available l) as [i|]; cbn; [|done]. rewrite IH. f_equal. lia.
Qed.

Lemma take_descriptor_spec q :
  take_descriptor q = match free q with
    | [] => (q, None)
    | i :: _ => (upd_available q (<[i := false]> (available_descriptors q)), Some i)
    end /\
  forall i ds, free q = i :: ds -> free (upd_available q (<[i := false]> (available_descriptors q))) = ds.
Proof.
  unfold take_descriptor, free. pose proof (first_available_free (available_descriptors q) 0) as H.
  destruct (first_available _) as [i|]; rewrite H; [|done]. cbn [Nat.add]. split; [done|]. by intros ? ? [= <- <-].
Qed.

Lemma mark_length ds v l : length (mark ds v l) = length l.
Proof. induction ds; cbn; [done|]. by rewrite length_insert. Qed.

Lemma insert_lookup {A} (l : list A) i v : <[i := v]> l !! i = (fun _ => v) <$> l !! i.
Proof.
  destruct (l !! i) eqn:E; cbn.
  - apply list_lookup_insert_eq. by eapply lookup_lt_Some.
  - apply lookup_ge_None in E. apply lookup_ge_None. by rewrite length_insert.
Qed.

Lemma mark_lookup ds v l i : mark ds v l !! i = if bool_decide (i ∈ ds) then (fun _ => v) <$> l !! i else l !! i.
Proof.
  induction ds as [|j ds IH]; cbn [mark foldr].
  { by rewrite bool_decide_false by apply not_elem_of_nil. }
  fold (mark ds v l). destruct (decide (i = j)) as [->|Hne].
  - rewrite bool_decide_true, insert_lookup, IH by by left. case_bool_decide; by destruct (l !! j).
  - rewrite list_lookup_insert_ne, IH by done. erewrite bool_decide_ext; [done|]. rewrite elem_of_cons. naive_solver.
Qed.

(** Taking free descriptors and returning them changes nothing. *)
Lemma mark_back ds l : (forall i, i ∈ ds -> l !! i = Some true) -> mark ds true (mark ds false l) = l.
Proof.
  intros H. apply list_eq. intros i. rewrite !mark_lookup. case_bool_decide as Hi; [|done]. by rewrite (H i Hi).
Qed.

Lemma mark_comm ds i v l : mark ds v (<[i := v]> l) = mark (i :: ds) v l.
Proof.
  apply list_eq. intros j. rewrite !mark_lookup. destruct (decide (j = i)) as [->|Hne].
  - rewrite (bool_decide_true (i ∈ i :: ds)), insert_lookup by by left. case_bool_decide; by destruct (l !! i).
  - rewrite list_lookup_insert_ne by done. erewrite (bool_decide_ext (j ∈ i :: ds)); [done|]. rewrite elem_of_cons. naive_solver.
Qed.

Lemma upd_available_same q : upd_available q (available_descriptors q) = q.
Proof. by destruct q. Qed.

Lemma return_all taken : forall q, (forall i, i ∈ taken -> (i < length (available_descriptors q))%nat) ->
  for_each taken (fun i q => return_descriptor q i) q = Done (upd_available q (mark taken true (available_descriptors q))).
Proof.
  induction taken as [|i taken IH]; intros q H; cbn [for_each]; [by rewrite upd_available_same|].
  unfold return_descriptor, array_set. destruct (lookup_lt_is_Some_2 (available_descriptors q) i) as [b Eb]; [apply H; by left|].
  rewrite Eb. cbn [unwrap mbind exec_bind]. rewrite IH.
  - cbn [available_descriptors upd_available]. by rewrite mark_comm.
  - intros j Hj. cbn. rewrite length_insert. apply H. by right.
Qed.

Lemma reserve_loop n : forall q taken, (forall i, i ∈ taken -> (i < length (available_descriptors q))%nat) ->
  reserve n taken q =
    if (n <=? length (free q))%nat then
      Done (upd_available q (mark (take n (free q)) false (available_descriptors q)), Ok (taken ++ take n (free q)))
    else Done (upd_available q (mark (taken ++ free q) true (mark (free q) false (available_descriptors q))), Err tt).
Proof.
  induction n as [|n IH]; intros q taken Ht; cbn [reserve].
  { rewrite take_0, app_nil_r. cbn. by rewrite upd_available_same. }
  destruct (take_descriptor_spec q) as [Ed Ef]. rewrite Ed. destruct (free q) as [|i ds] eqn:Efree.
  - cbn [length Nat.leb]. rewrite return_all by done. cbn [mbind exec_bind]. by rewrite app_nil_r.
  - specialize (Ef i ds eq_refl). rewrite IH.
    2:{ intros j Hj. cbn. rewrite length_insert. apply elem_of_app in Hj as [Hj| ->%list_elem_of_singleton]; [by apply Ht|].
        eapply lookup_lt_Some, elem_of_free. rewrite Efree. by left. }
    rewrite Ef. cbn [length Nat.leb take available_descriptors upd_available]. rewrite <-!app_assoc. cbn [app]. rewrite !mark_comm. done.
Qed.

(** Reservation takes the lowest free descriptors, or takes none at all. *)
Lemma reserve_spec n q : reserve n [] q =
  if (n <=? length (free q))%nat then
    Done (upd_available q (mark (take n (free q)) false (available_descriptors q)), Ok (take n (free q)))
  else Done (q, Err tt).
Proof.
  rewrite reserve_loop by (intros i Hi; by apply elem_of_nil in Hi). destruct (_ <=? _)%nat; [done|]. cbn [app].
  rewrite mark_back by (intros i; apply elem_of_free). by rewrite upd_available_same.
Qed.

(** ** Pushing *)

Section theorems.
Context {T : Type} `{PodEncoding T} (T_default : T) (QUEUE_SIZE : nat).

(** The buffers of different descriptors do not overlap. *)
Definition buffers_apart (area : list VirtqueueDesc) : Prop := forall i j d e,
  i <> j -> area !! i = Some d -> area !! j = Some e ->
  desc_addr d + size_of T <= desc_addr e \/ desc_addr e + size_of T <= desc_addr d.

Record queue_wf (q : Virtqueue) : Prop := {
  wf_size : 0 < Z.of_nat QUEUE_SIZE <= 2 ^ 16;
  wf_descs : length (descs q) = QUEUE_SIZE;
  wf_available : length (available_descriptors q) = QUEUE_SIZE;
  wf_driver_ring : length (driver_ring (driver_area (storage q))) = QUEUE_SIZE;
  wf_device_ring : length (device_ring (device_area (storage q))) = QUEUE_SIZE;
  wf_apart : buffers_apart (descs q)
}.

Lemma queue_wf_ext q q' : queue_wf q -> descs q' = descs q ->
  length (available_descriptors q') = length (available_descriptors q) ->
  length (driver_ring (driver_area (storage q'))) = length (driver_ring (driver_area (storage q))) ->
  length (device_ring (device_area (storage q'))) = length (device_ring (device_area (storage q))) -> queue_wf q'.
Proof. intros [] Hd Ha Hr Hv. constructor; rewrite ?Hd, ?Ha, ?Hr, ?Hv; done. Qed.

(** The descriptor a message is written to, with the one that follows. *)
Definition written_desc (m : VirtqueueMessage T) (next : option nat) (d : VirtqueueDesc) : VirtqueueDesc :=
  match next with
  | Some n => mkDesc (desc_addr d) (message_len m) (Z.lor (message_flags m) 0x1) (Z.of_nat n)
  | None => mkDesc (desc_addr d) (message_len m) (message_flags m) (desc_next d)
  end.

Lemma written_desc_addr m next d : desc_addr (written_desc m next d) = desc_addr d.
Proof. by destruct next. Qed.

(** What writing the first [n] messages into the descriptors [ds] does. *)
Record messages_written (ds : list nat) (messages : list (VirtqueueMessage T)) (area : list VirtqueueDesc) (memory : Memory_bytes)
    (n : nat) (area' : list VirtqueueDesc) (memory' : Memory_bytes) : Prop := {
  mw_length : length area' = length area;
  mw_addr : forall d D, area !! d = Some D -> exists D', area' !! d = Some D' /\ desc_addr D' = desc_addr D;
  mw_other : forall d, d ∉ take n ds -> area' !! d = area !! d;
  mw_desc : forall k d m D, (k < n)%nat -> ds !! k = Some d -> messages !! k = Some m -> area !! d = Some D ->
    area' !! d = Some (written_desc m (ds !! S k) D) /\
    read_memory memory' (desc_addr D) (size_of T) = to_bytes (message_data T_default m);
  mw_memory : forall x, (forall d D, d ∈ ds -> area !! d = Some D -> x < desc_addr D \/ desc_addr D + size_of T <= x) ->
    read_byte memory' x = read_byte memory x
}.

Definition messages_wf (messages : list (VirtqueueMessage T)) : Prop := Forall (fun m => pod_wf (message_data T_default m)) messages.

Lemma not_in_prefix (ds : list nat) i d : NoDup ds -> ds !! i = Some d -> d ∉ take i ds.
Proof.
  intros Hnd Ed (j & Hj)%list_elem_of_lookup. apply lookup_take_Some in Hj as [Hj Hji].
  pose proof (NoDup_lookup ds i j d Hnd Ed Hj). lia.
Qed.

Lemma write_messages_spec area memory ds messages : NoDup ds -> length ds = length messages ->
  Forall (fun d => (d < length area)%nat /\ Z.of_nat d < 2 ^ 16) ds -> buffers_apart area -> messages_wf messages ->
  exists area' memory', for_each (imap pair messages) (write_message T_default (length messages) ds) (area, memory) = Done (area', memory') /\
    messages_written ds messages area memory (length messages) area' memory'.
Proof.
  intros Hnd Hlen Hds Hap Hwf. rewrite Forall_forall in Hds.
  destruct (for_each_prefix (fun n s => messages_written ds messages area memory n s.1 s.2)
    (write_message T_default (length messages) ds) (imap pair messages) 0 (area, memory)) as ([area' memory'] & E & HP).
  - constructor; cbn; [done|naive_solver|done|lia|done].
  - intros i [k m] [a1 m1] Hi [Hl Haddr Hother Hdesc Hmem]. cbn [fst snd Nat.add] in *. rewrite list_lookup_imap in Hi.
    destruct (messages !! i) as [m'|] eqn:Em; [|done]. cbn in Hi. injection Hi as <- ->.
    pose proof (lookup_lt_Some _ _ _ Em) as Hi. destruct (lookup_lt_is_Some_2 ds i) as [d Ed]; [lia|].
    destruct (Hds d) as [Hd Hd16]; [by eapply list_elem_of_lookup_2|]. destruct (lookup_lt_is_Some_2 area d) as [D ED]; [lia|].
    assert (d ∉ take i ds) as Hnew by by apply not_in_prefix.
    assert (a1 !! d = Some D) as Ea by (rewrite Hother by done; done).
    set (new := written_desc m (ds !! S i) D).
    set (mem := write_memory m1 (desc_addr D) (to_bytes (message_data T_default m))).
    assert (pod_wf (message_data T_default m)) as Hm by (unfold messages_wf in Hwf; rewrite Forall_forall in Hwf; eapply Hwf, list_elem_of_lookup_2, Em).
    pose proof (to_bytes_length _ Hm) as Hsz.
    exists (<[d := new]> a1, mem). split.
    + unfold write_message. cbv beta match. destruct (i <? length messages - 1)%nat eqn:Elt; rewrite Ed; cbn [unwrap mbind exec_bind]; rewrite Ea.
      * apply Nat.ltb_lt in Elt. destruct (lookup_lt_is_Some_2 ds (S i)) as [e Ee]; [lia|].
        destruct (Hds e) as [_ He]; [by eapply list_elem_of_lookup_2|].
        replace (i + 1)%nat with (S i) by lia. unfold new. rewrite Ee. cbn. by rewrite (wrap_small 16 (Z.of_nat e)) by (unfold uint_range; lia).
      * apply Nat.ltb_ge in Elt. unfold new. by rewrite (lookup_ge_None_2 ds (S i)) by lia.
    + constructor; cbn [fst snd].
      * by rewrite length_insert.
      * intros j E Ej. destruct (decide (j = d)) as [->|Hne]; [|rewrite list_lookup_insert_ne by done; by apply Haddr].
        exists new. rewrite insert_lookup, Ea. split; [done|]. rewrite ED in Ej. injection Ej as <-.
        unfold new, written_desc. by destruct (ds !! S i).
      * intros j Hj. rewrite (take_S_r ds i d Ed), elem_of_app, list_elem_of_singleton in Hj.
        rewrite list_lookup_insert_ne by naive_solver. apply Hother. naive_solver.
      * intros k e m' E Hk Ee Em' EE. destruct (decide (k = i)) as [->|Hne].
        -- simplify_eq. rewrite insert_lookup, Ea. split; [done|]. unfold mem. rewrite <-Hsz. apply read_write_memory.
        -- assert (e <> d) as Hed by (intros ->; by pose proof (NoDup_lookup ds i k d Hnd Ed Ee)).
           destruct (Hdesc k e m' E ltac:(lia) Ee Em' EE) as [Ha Hr]. rewrite list_lookup_insert_ne by done. split; [done|].
           rewrite <-Hr. apply read_memory_disjoint. rewrite Hsz. by apply (Hap e d).
      * intros x Hx. unfold mem. rewrite read_write_other; [by apply Hmem|]. rewrite Hsz. eapply Hx, ED. by eapply list_elem_of_lookup_2.
  - rewrite length_imap in HP. by exists area', memory'.
Qed.

(** What a push of [messages] into the descriptors [ds] leaves behind. *)
Record pushed (q : Virtqueue) (memory : Memory_bytes) (messages : list (VirtqueueMessage T)) (ds : list nat)
    (q' : Virtqueue) (memory' : Memory_bytes) : Prop := {
  pu_available : available_descriptors q' = mark ds false (available_descriptors q);
  pu_written : messages_written ds messages (descs q) memory (length messages) (descs q') memory';
  pu_ring : driver_ring (driver_area (storage q')) =
    <[Z.to_nat (driver_idx (driver_area (storage q)) mod Z.of_nat QUEUE_SIZE) := Z.of_nat (nth 0 ds 0%nat)]>
      (driver_ring (driver_area (storage q)));
  pu_idx : driver_idx (driver_area (storage q')) = wrap 16 (driver_idx (driver_area (storage q)) + 1);
  pu_device : device_area (storage q') = device_area (storage q);
  pu_pop_index : pop_index q' = pop_index q;
  pu_index : vq_index q' = vq_index q
}.

Lemma take_elem_of {A} (l : list A) n x : x ∈ take n l -> x ∈ l.
Proof. rewrite <-(take_drop n l) at 2. rewrite elem_of_app. by left. Qed.

Lemma free_bound q n : queue_wf q -> Forall (fun d => (d < length (descs q))%nat /\ Z.of_nat d < 2 ^ 16) (take n (free q)).
Proof.
  intros Hq. apply Forall_take, Forall_forall. intros d Hd%elem_of_free%lookup_lt_Some.
  rewrite (wf_available q Hq) in Hd. rewrite (wf_descs q Hq). pose proof (wf_size q Hq). lia.
Qed.

Lemma written_apart area area' : length area' = length area ->
  (forall d D, area !! d = Some D -> exists D', area' !! d = Some D' /\ desc_addr D' = desc_addr D) ->
  buffers_apart area -> buffers_apart area'.
Proof.
  intros Hl Ha Hap i j d e Hij Hi Hj.
  destruct (lookup_lt_is_Some_2 area i) as [D ED]; [rewrite <-Hl; by eapply lookup_lt_Some|].
  destruct (lookup_lt_is_Some_2 area j) as [E EE]; [rewrite <-Hl; by eapply lookup_lt_Some|].
  destruct (Ha i D ED) as (D' & ED' & AD). destruct (Ha j E EE) as (E' & EE' & AE). simplify_eq.
  rewrite AD, AE. by apply (Hap i j).
Qed.

Lemma push_ok q memory messages : queue_wf q -> (0 < length messages)%nat -> (length messages <= length (free q))%nat ->
  messages_wf messages ->
  exists q' memory', push T_default QUEUE_SIZE q memory messages = Done (q', memory', Ok tt) /\
    pushed q memory messages (take (length messages) (free q)) q' memory' /\ queue_wf q'.
Proof.
  intros Hq Hpos Hfree Hwf. set (N := length messages) in *. set (ds := take N (free q)).
  assert (length ds = N) as Hlen by (unfold ds; rewrite length_take; lia).
  assert (length (free q) <= QUEUE_SIZE)%nat as Hsize.
  { rewrite <-(wf_available q Hq). unfold free. generalize (available_descriptors q) 0%nat.
    induction l as [|[] l IH]; intros k; cbn; [lia| |]; specialize (IH (S k)); lia. }
  destruct (write_messages_spec (descs q) memory ds messages) as (area' & memory' & Ew & Hw).
  { unfold ds. eapply sublist_NoDup; [apply free_NoDup|apply sublist_take]. }
  { done. }
  { by apply free_bound. }
  { apply (wf_apart q Hq). }
  { done. }
  destruct (lookup_lt_is_Some_2 ds 0) as [d0 E0]; [lia|].
  set (slot := Z.to_nat (driver_idx (driver_area (storage q)) mod Z.of_nat QUEUE_SIZE)).
  destruct (lookup_lt_is_Some_2 (driver_ring (driver_area (storage q))) slot) as [r Er].
  { pose proof (wf_size q Hq). rewrite (wf_driver_ring q Hq). unfold slot.
    pose proof (Z.mod_pos_bound (driver_idx (driver_area (storage q))) (Z.of_nat QUEUE_SIZE)). lia. }
  assert (uint_range 16 (Z.of_nat d0)) as Hd0.
  { pose proof (free_bound q N Hq) as Hb. rewrite Forall_forall in Hb. destruct (Hb d0) as [_ ?]; [by eapply list_elem_of_lookup_2|].
    unfold uint_range. lia. }
  assert (nth 0 ds 0%nat = d0) as Hn by (destruct ds; [done|]; cbn in *; congruence).
  eexists _, memory'. split; [|split].
  - unfold push. fold N. rewrite (proj2 (Nat.ltb_lt 0 N)), (proj2 (Nat.leb_le N QUEUE_SIZE)) by lia.
    cbn [rust_assert andb mbind exec_bind]. rewrite reserve_spec, (proj2 (Nat.leb_le N _)) by done. fold ds. cbn [mbind exec_bind]. fold N in Ew.
    change (descs (upd_available q _)) with (descs q). rewrite Ew. cbn [mbind exec_bind]. unfold make_available. rewrite E0.
    cbn [unwrap mbind exec_bind storage upd_descs upd_available driver_area]. unfold array_set. fold slot. rewrite Er.
    cbn [unwrap mbind exec_bind]. rewrite (wrap_small 16 (Z.of_nat d0)) by done. reflexivity.
  - constructor; try done. cbn. by rewrite Hn.
  - destruct Hw. constructor; cbn; try by (destruct Hq; rewrite ?mark_length, ?length_insert).
    + by rewrite mw_length0, (wf_descs q Hq).
    + eapply written_apart; [exact mw_length0|exact mw_addr0|apply (wf_apart q Hq)].
Qed.

Lemma push_full q memory messages : (0 < length messages <= QUEUE_SIZE)%nat -> (length (free q) < length messages)%nat ->
  push T_default QUEUE_SIZE q memory messages = Done (q, memory, Err tt).
Proof.
  intros Hn Hf. unfold push. rewrite (proj2 (Nat.ltb_lt 0 _)), (proj2 (Nat.leb_le _ QUEUE_SIZE)) by lia.
  cbn [rust_assert andb mbind exec_bind]. rewrite reserve_spec, (proj2 (Nat.leb_gt _ _)) by done. done.
Qed.

(** ** Popping *)

(** [ds] is the chain that begins with its first element: linked by [next],
    which is zero in the last descriptor only. *)
Fixpoint chain (area : list VirtqueueDesc) (ds : list nat) : Prop :=
  match ds with
  | [] => False
  | d :: ds' => exists D, area !! d = Some D /\
      match ds' with
      | [] => desc_next D = 0
      | e :: _ => desc_next D = Z.of_nat e /\ e <> 0%nat /\ chain area ds'
      end
  end.

(** The values in the buffers of a chain. *)
Definition chain_values (memory : Memory_bytes) (area : list VirtqueueDesc) (ds : list nat) : list T :=
  omap (fun d => read_buffer memory <$> area !! d) ds.

Lemma pop_chain_spec memory : forall ds d q n, chain (descs q) (d :: ds) -> (length ds < n)%nat ->
  Forall (fun d => (d < length (available_descriptors q))%nat) (d :: ds) ->
  pop_chain (T := T) n memory d q =
    Done (upd_available q (mark (d :: ds) true (available_descriptors q)),
          (Some <$> chain_values memory (descs q) (d :: ds)) ++ replicate (n - S (length ds)) None).
Proof.
  induction ds as [|e ds IH]; intros d q n Hc Hn Hd; destruct n as [|n]; cbn [length] in Hn; try lia.
  all: apply Forall_cons in Hd as [Hd Hds]; destruct Hc as (D & ED & Hc); cbn [pop_chain]; rewrite ED; cbn [unwrap mbind exec_bind].
  all: unfold return_descriptor, array_set; destruct (lookup_lt_is_Some_2 (available_descriptors q) d Hd) as [b Eb]; rewrite Eb.
  all: cbn [unwrap mbind exec_bind].
  - rewrite Hc. cbn [Z.eqb]. unfold chain_values. cbn. rewrite ED. cbn. by rewrite Nat.sub_0_r.
  - destruct Hc as (Hnext & He & Hc). rewrite Hnext, (proj2 (Z.eqb_neq _ 0)), Nat2Z.id by lia.
    rewrite (IH e); [|done|lia|cbn; rewrite length_insert; done].
    cbn [mbind exec_bind available_descriptors upd_available length Nat.sub]. rewrite mark_comm.
    unfold chain_values. cbn [omap list_omap]. rewrite ED. reflexivity.
Qed.

Lemma chain_values_lookup memory area ds k : (forall d, d ∈ ds -> is_Some (area !! d)) ->
  chain_values memory area ds !! k = d ← ds !! k; read_buffer memory <$> area !! d.
Proof.
  unfold chain_values. revert k. induction ds as [|d ds IH]; intros k Hall; [done|]. cbn [omap list_omap].
  destruct (Hall d) as [D ED]; [by left|]. rewrite ED. destruct k as [|k]; cbn; [by rewrite ED|].
  apply IH. intros e He. apply Hall. by right.
Qed.

Lemma chain_values_length memory area ds : (forall d, d ∈ ds -> is_Some (area !! d)) -> length (chain_values memory area ds) = length ds.
Proof.
  unfold chain_values. induction ds as [|d ds IH]; intros Hall; [done|]. cbn [omap list_omap].
  destruct (Hall d) as [D ->]; [by left|]. cbn. rewrite IH; [done|]. intros e He. apply Hall. by right.
Qed.

(** What the next pop finds in the used ring. *)
Definition next_used (q : Virtqueue) : option VirtqueueUsedElement :=
  device_ring (device_area (storage q)) !! Z.to_nat (pop_index q mod Z.of_nat QUEUE_SIZE).

Lemma pop_ok q memory ds d element : device_idx (device_area (storage q)) <> pop_index q ->
  next_used q = Some element -> used_id element = Z.of_nat d -> chain (descs q) (d :: ds) ->
  Forall (fun d => (d < length (available_descriptors q))%nat) (d :: ds) ->
  pop (T := T) QUEUE_SIZE (S (length ds)) q memory =
    Done (upd_pop_index (upd_available q (mark (d :: ds) true (available_descriptors q))) (wrap 64 (pop_index q + 1)),
          Some (Some <$> chain_values memory (descs q) (d :: ds))).
Proof.
  intros Hi He Hid Hc Hd. unfold pop. rewrite (proj2 (Z.eqb_neq _ _)) by done. unfold next_used in He. rewrite He.
  cbn [unwrap mbind exec_bind]. rewrite Hid, Nat2Z.id, (pop_chain_spec memory ds d q) by (done || lia).
  cbn [mbind exec_bind]. by rewrite Nat.sub_diag, app_nil_r.
Qed.

(** ** Properties *)

(** The last of the descriptors a push of [n] messages takes has no stale
    successor. *)
Definition fresh_end (q : Virtqueue) (n : nat) : Prop :=
  forall d D, take n (free q) !! (n - 1)%nat = Some d -> descs q !! d = Some D -> desc_next D = 0.

Lemma free_increasing q i j d e : (i < j)%nat -> free q !! i = Some d -> free q !! j = Some e -> (d < e)%nat.
Proof.
  unfold free. generalize (free_from_sorted (available_descriptors q) 0). generalize (free_from 0 (available_descriptors q)).
  intros l Hl. revert i j. induction Hl as [|a l _ IH Ha]; intros i j Hij Hi Hj; [done|].
  destruct i as [|i], j as [|j]; cbn in *; try lia.
  - injection Hi as ->. rewrite Forall_forall in Ha. apply Ha. by eapply list_elem_of_lookup_2.
  - apply (IH i j); [lia|done|done].
Qed.

(** After a push every descriptor of the chain but the last leads to the
    next one, and the last keeps its old successor. *)
Lemma pushed_links q memory messages q' memory' k d : queue_wf q -> (0 < length messages <= length (free q))%nat ->
  pushed q memory messages (take (length messages) (free q)) q' memory' -> take (length messages) (free q) !! k = Some d ->
  exists D D', descs q !! d = Some D /\ descs q' !! d = Some D' /\
    match take (length messages) (free q) !! S k with
    | Some e => desc_next D' = Z.of_nat e /\ e <> 0%nat
    | None => desc_next D' = desc_next D
    end.
Proof.
  intros Hq Hn [_ Hw _ _ _ _ _] Ed. set (ds := take (length messages) (free q)) in *.
  assert (length ds = length messages) as Hlen by (unfold ds; rewrite length_take; lia).
  pose proof (lookup_lt_Some _ _ _ Ed) as Hk. destruct (lookup_lt_is_Some_2 messages k) as [m Em]; [lia|].
  destruct (lookup_lt_is_Some_2 (descs q) d) as [D ED].
  { pose proof (free_bound q (length messages) Hq) as Hb. rewrite Forall_forall in Hb. eapply Hb, list_elem_of_lookup_2, Ed. }
  destruct (mw_desc _ _ _ _ _ _ _ Hw k d m D ltac:(lia) Ed Em ED) as [Ed' _].
  exists D. eexists. split; [done|]. split; [exact Ed'|]. destruct (ds !! S k) as [e|] eqn:Ee; [|done].
  cbn [written_desc desc_next]. split; [done|]. unfold ds in Ed, Ee.
  apply lookup_take_Some in Ed as [Ed _], Ee as [Ee _]. pose proof (free_increasing q k (S k) d e ltac:(lia) Ed Ee). lia.
Qed.

(** Linked descriptors none of which ends the chain. *)
Fixpoint endless (area : list VirtqueueDesc) (ds : list nat) : Prop :=
  match ds with
  | [] => True
  | d :: ds' => exists D, area !! d = Some D /\ desc_next D <> 0 /\
      match ds' with
      | [] => True
      | e :: _ => desc_next D = Z.of_nat e
      end /\ endless area ds'
  end.

(** What the links of a push make of its descriptors, by its last one. *)
Lemma chain_of_links area ds : ds <> [] ->
  (forall k d, ds !! k = Some d -> exists D, area !! d = Some D /\
    match ds !! S k with
    | Some e => desc_next D = Z.of_nat e /\ e <> 0%nat
    | None => True
    end) ->
  forall D, area !! (List.last ds 0%nat) = Some D -> if desc_next D =? 0 then chain area ds else endless area ds.
Proof.
  induction ds as [|d ds IH]; intros Hne Hl D HD; [done|]. destruct (Hl 0%nat d eq_refl) as (D0 & E0 & Hl0).
  destruct ds as [|e ds]; cbn in *.
  - simplify_eq. case_if; [by exists D|]. by exists D.
  - destruct Hl0 as [Hnext He]. specialize (IH ltac:(done) (fun k => Hl (S k)) D HD).
    destruct (desc_next D =? 0); exists D0; split_and!; try done. lia.
Qed.

Lemma last_of_lookup (l : list nat) d : l !! (length l - 1)%nat = Some d -> List.last l 0%nat = d.
Proof.
  destruct l as [|a l _] using rev_ind; [done|]. rewrite List.last_last, length_app, list_lookup_middle; [by intros [= ->]|].
  cbn. lia.
Qed.

Lemma pushed_chain q memory messages q' memory' : queue_wf q -> (0 < length messages <= length (free q))%nat ->
  pushed q memory messages (take (length messages) (free q)) q' memory' ->
  exists d D, take (length messages) (free q) !! (length messages - 1)%nat = Some d /\ descs q !! d = Some D /\
    if desc_next D =? 0 then chain (descs q') (take (length messages) (free q))
    else endless (descs q') (take (length messages) (free q)).
Proof.
  intros Hq Hn Hpu. pose proof (pushed_links q memory messages q' memory') as Hlinks. set (ds := take (length messages) (free q)) in *.
  assert (length ds = length messages) as Hlen by (unfold ds; rewrite length_take; lia).
  destruct (lookup_lt_is_Some_2 ds (length messages - 1)) as [d Ed]; [lia|].
  destruct (Hlinks _ d Hq Hn Hpu Ed) as (D & D' & ED & ED' & Hnext).
  rewrite lookup_ge_None_2 in Hnext by lia. exists d, D. split; [done|]. split; [done|]. rewrite <-Hnext.
  apply chain_of_links.
  - intros E. rewrite E in Hlen. cbn in Hlen. lia.
  - intros k e Ee. destruct (Hlinks k e Hq Hn Hpu Ee) as (E0 & E' & _ & EE' & Hs). exists E'. split; [done|]. by destruct (ds !! S k).
  - rewrite <-Hlen in Ed. by rewrite (last_of_lookup ds d Ed).
Qed.

Lemma pop_chain_endless memory : forall ds d q n, n = length (d :: ds) -> endless (descs q) (d :: ds) ->
  Forall (fun d => (d < length (available_descriptors q))%nat) (d :: ds) -> pop_chain (T := T) n memory d q = Panic.
Proof.
  induction ds as [|e ds IH]; intros d q [|n] Hn (D & ED & Hnext & Hl & Hc) Hd; cbn [length] in Hn; try done; apply eq_add_S in Hn;
    apply Forall_cons in Hd as [Hd Hds]; cbn [pop_chain]; rewrite ED; cbn [unwrap mbind exec_bind].
  all: unfold return_descriptor, array_set.
  all: destruct (lookup_lt_is_Some_2 (available_descriptors q) d Hd) as [b Eb]; rewrite Eb; cbn [unwrap mbind exec_bind].
  all: rewrite (proj2 (Z.eqb_neq _ 0)) by done.
  - by rewrite Hn.
  - rewrite Hl, Nat2Z.id, (IH e); [done|done|done|]. cbn [available_descriptors upd_available]. by rewrite length_insert.
Qed.

(** The device has used the chain [ds]: the driver's state and the buffers
    the device may only read are as the push left them. *)
Record completed (messages : list (VirtqueueMessage T)) (ds : list nat) (q1 : Virtqueue) (memory1 : Memory_bytes)
    (q2 : Virtqueue) (memory2 : Memory_bytes) : Prop := {
  co_descs : descs q2 = descs q1;
  co_available : available_descriptors q2 = available_descriptors q1;
  co_new : device_idx (device_area (storage q2)) <> pop_index q2;
  co_element : exists e, next_used q2 = Some e /\ used_id e = Z.of_nat (nth 0 ds 0%nat);
  co_reads : forall k d data len D, ds !! k = Some d -> messages !! k = Some (DeviceRead data len) -> descs q1 !! d = Some D ->
    read_memory memory2 (desc_addr D) (size_of T) = read_memory memory1 (desc_addr D) (size_of T)
}.

(** A push succeeds exactly when enough descriptors are free. It takes the
    lowest ones, writes every message into its descriptor and buffer, links
    the chain and puts its head into the ring, and changes no other descriptor
    or byte; a failed push changes nothing. *)
Theorem push_spec q memory messages : queue_wf q -> (0 < length messages <= QUEUE_SIZE)%nat -> messages_wf messages ->
  if (length messages <=? length (free q))%nat then
    exists q' memory', push T_default QUEUE_SIZE q memory messages = Done (q', memory', Ok tt) /\
      pushed q memory messages (take (length messages) (free q)) q' memory' /\ queue_wf q'
  else push T_default QUEUE_SIZE q memory messages = Done (q, memory, Err tt).
Proof.
  intros Hq Hn Hm. destruct (_ <=? _)%nat eqn:E.
  - apply Nat.leb_le in E. apply push_ok; [done|lia|done|done].
  - apply Nat.leb_gt in E. by apply push_full.
Qed.


(** A stale successor is followed: when the last descriptor a push takes
    still has the [next] of an earlier, longer chain, the pop of the used
    chain runs on after its end and panics. *)
Theorem stale_next_panics q memory messages q1 memory1 q2 memory2 d D :
  queue_wf q -> (0 < length messages <= length (free q))%nat -> messages_wf messages ->
  take (length messages) (free q) !! (length messages - 1)%nat = Some d -> descs q !! d = Some D -> desc_next D <> 0 ->
  push T_default QUEUE_SIZE q memory messages = Done (q1, memory1, Ok tt) ->
  completed messages (take (length messages) (free q)) q1 memory1 q2 memory2 ->
  pop (T := T) QUEUE_SIZE (length messages) q2 memory2 = Panic.
Proof.
  intros Hq Hn Hm Ed ED Hnext Hpush Hco. destruct (push_ok q memory messages) as (q1' & memory1' & E & Hpu & Hq1); [done|lia|lia|done|].
  rewrite Hpush in E. injection E as <- <-. destruct (pushed_chain _ _ _ _ _ Hq Hn Hpu) as (dl & Dl & El & EDl & Hc).
  simplify_eq. rewrite (proj2 (Z.eqb_neq _ 0)) in Hc by done.
  pose proof (free_bound q (length messages) Hq) as Hb. destruct Hco as [Hd Ha Hnew (e & He & Hid) Hreads].
  set (ds := take (length messages) (free q)) in *.
  assert (length ds = length messages) as Hlen by (unfold ds; rewrite length_take; lia).
  destruct ds as [|d0 ds0]; [cbn in Hlen; lia|]. rewrite <-Hlen. unfold pop. rewrite (proj2 (Z.eqb_neq _ _)) by done.
  unfold next_used in He. rewrite He. cbn [unwrap mbind exec_bind nth] in *. rewrite Hid, Nat2Z.id. cbn [length].
  rewrite (pop_chain_endless memory2 ds0); [done|done|by rewrite Hd|].
  rewrite Ha, (pu_available _ _ _ _ _ _ Hpu), mark_length, (wf_available q Hq), <-(wf_descs q Hq).
  eapply Forall_impl; [exact Hb|]. by intros ? [? _].
Qed.

(** The index of the used ring has 16 bits and [pop_index] has 64: after
    65536 pops they never meet again, and [pop] never again reports an empty
    queue. *)
Theorem pop_never_empty N q memory : 2 ^ 16 <= pop_index q -> uint_range 16 (device_idx (device_area (storage q))) ->
  forall q', pop (T := T) QUEUE_SIZE N q memory <> Done (q', None).
Proof.
  intros Hp Hi q' E. unfold pop in E. rewrite (proj2 (Z.eqb_neq _ _)) in E by (unfold uint_range in Hi; lia).
  exec_inv E. exec_inv E. by destruct x0.
Qed.

End theorems.

(** ** Witnesses: a queue of four descriptors with buffers of four bytes *)

#[local] Instance word_pod : Pod (list Z) := Pod_raw 4 4.
#[local] Instance word_encoding : PodEncoding (list Z).
Proof. apply Encoding_raw; [lia|by exists 2]. Defined.

Definition example_queue (nexts : list Z) : Virtqueue :=
  mkVirtqueue 0 (mkStorage (imap (fun i next => mkDesc (16 * Z.of_nat i) 0 0 next) nexts)
    (mkAvailableRing 0 0 [0; 0; 0; 0] 0) (mkUsedRing 0 0 (replicate 4 VirtqueueUsedElement_ZERO) 0)) 0 4096 [true; true; true; true].

Definition example_memory : Memory_bytes := mkBytes ∅ (fun _ => 0).

(** The device uses the chain with this head. *)
Definition device_uses (head : Z) (q : Virtqueue) : Virtqueue :=
  let d := device_area (storage q) in
  mkVirtqueue (vq_index q) (mkStorage (descs q) (driver_area (storage q))
    (mkUsedRing (device_flags d) (wrap 16 (device_idx d + 1))
      (<[Z.to_nat (device_idx d mod Z.of_nat (length (device_ring d))) := mkUsedElement head 0]> (device_ring d)) (avail_event d)))
    (pop_index q) (notify_addr q) (available_descriptors q).

Definition example_push (messages : list (VirtqueueMessage (list Z))) (nexts : list Z) : option (Virtqueue * Memory_bytes) :=
  match push [0; 0; 0; 0] 4 (example_queue nexts) example_memory messages with
  | Done (q, memory, Ok _) => Some (q, memory)
  | _ => None
  end.

Lemma example_push_inv messages nexts q memory : example_push messages nexts = Some (q, memory) ->
  push [0; 0; 0; 0] 4 (example_queue nexts) example_memory messages = Done (q, memory, Ok tt).
Proof. unfold example_push. destruct (push _ _ _ _ _) as [[[q' m'] [[]|]]|]; [|done|done]. by intros [= -> ->]. Qed.

Lemma example_queue_wf nexts : length nexts = 4%nat -> queue_wf (T := list Z) 4 (example_queue nexts).
Proof.
  intros Hl. constructor; try done; cbn.
  - by rewrite length_imap.
  - intros i j d e Hij Hi Hj. rewrite list_lookup_imap in Hi, Hj.
    destruct (nexts !! i); [|done]. destruct (nexts !! j); [|done]. cbn in Hi, Hj. injection Hi as <-. injection Hj as <-. cbn. lia.
Qed.

Definition example_messages : list (VirtqueueMessage (list Z)) := [DeviceRead [1; 2; 3; 4] None; DeviceWrite].

Lemma example_messages_wf : messages_wf (T := list Z) [0; 0; 0; 0] example_messages.
Proof. repeat constructor; cbn; unfold is_bytes, uint_range; try lia. Qed.

Lemma push_spec_witness : exists q memory, push [0; 0; 0; 0] 4 (example_queue [0; 0; 0; 0]) example_memory example_messages = Done (q, memory, Ok tt) /\
  available_descriptors q = [false; false; true; true].
Proof.
  pose proof (push_spec (T := list Z) [0; 0; 0; 0] 4 (example_queue [0; 0; 0; 0]) example_memory example_messages
    (example_queue_wf [0; 0; 0; 0] eq_refl) ltac:(cbn; lia) example_messages_wf) as H.
  change (_ <=? _)%nat with true in H. cbv iota in H. destruct H as (q & memory & E & Hp & _).
  exists q, memory. split; [exact E|]. rewrite (pu_available _ _ _ _ _ _ _ _ Hp). reflexivity.
Defined.

(** The device answers in the buffer of the second message. *)
Definition example_queue1 : Virtqueue := default (example_queue []) (fst <$> example_push example_messages [0; 0; 0; 0]).
Definition example_memory1 : Memory_bytes := default example_memory (snd <$> example_push example_messages [0; 0; 0; 0]).


(** The first descriptor still leads to the second one of an earlier chain. *)
Definition stale_queue : Virtqueue := example_queue [1; 0; 0; 0].
Definition stale_queue1 : Virtqueue := default stale_queue (fst <$> example_push [DeviceWrite] [1; 0; 0; 0]).
Definition stale_memory1 : Memory_bytes := default example_memory (snd <$> example_push [DeviceWrite] [1; 0; 0; 0]).

Lemma stale_next_panics_witness : pop (T := list Z) 4 1 (device_uses 0 stale_queue1) stale_memory1 = Panic.
Proof.
  apply (stale_next_panics (T := list Z) [0; 0; 0; 0] 4 stale_queue example_memory [DeviceWrite] stale_queue1 stale_memory1
    (device_uses 0 stale_queue1) stale_memory1 0 (mkDesc 0 0 0 1) (example_queue_wf [1; 0; 0; 0] eq_refl)).
  - vm_compute. lia.
  - repeat constructor; cbn; unfold is_bytes, uint_range; lia.
  - reflexivity.
  - reflexivity.
  - done.
  - vm_compute. reflexivity.
  - constructor; [reflexivity|reflexivity|by vm_compute|by eexists|].
    intros k d data len D Ed Em ED. destruct k as [|k]; discriminate Em.
Defined.

(** Such a queue is reached from a new one: two messages, their answer, and
    one message more. *)
Example stale_next_reachable :
  (r ← pop (T := list Z) 4 2 (device_uses 0 example_queue1) example_memory1;
   r ← push [0; 0; 0; 0] 4 r.1 example_memory1 [DeviceWrite];
   Done (desc_next <$> descs r.1.1 !! 0%nat)) = Done (Some 1).
Proof. vm_compute. reflexivity. Qed.

Lemma pop_never_empty_witness : ~ exists q',
  pop (T := list Z) 4 1 (upd_pop_index (example_queue [0; 0; 0; 0]) 65536) example_memory = Done (q', None).
Proof. intros [q' Hq]. revert Hq. apply pop_never_empty; cbn; unfold uint_range; lia. Defined.
