(* ===== verification/VirtioDevice.v ===== *)
(** * drivers/virtio/src/virtio.rs: setting a device up

    Finding the device's structures through its PCI capabilities, the
    initialisation handshake and the set-up of a queue, over the port I/O of
    [Pci] and memory-mapped I/O [Mmio]. Addresses of new boxes come from the
    allocator ([box_addr]), physical addresses from the kernel's system call
    ([translate]). *)

From Stdlib Require Import Lia.
From stdpp Require Import base numbers option strings tactics gmap list.
From S2P Require Import Prelude BitUtils Pod Bytes Pci Virtqueue.

Local Open Scope Z_scope.
Local Open Scope u64_scope.

(** Volatile accesses of so many bytes to device memory. *)
Class Mmio (W : Type) : Type := {
  mmio_write : W -> Z -> Z -> Z -> W;
  mmio_read : W -> Z -> Z -> W * Z
}.

Definition VIRTIO_F_VERSION_1 : Z := 0x1.

Definition DEVICE_STATUS_RESET : Z := 0.
Definition DEVICE_STATUS_ACKNOWLEDGE : Z := 1.
Definition DEVICE_STATUS_DRIVER : Z := 2.
Definition DEVICE_STATUS_DRIVER_OK : Z := 4.
Definition DEVICE_STATUS_FEATURES_OK : Z := 8.
Definition DEVICE_STATUS_NEEDS_RESET : Z := 64.
Definition DEVICE_STATUS_FAILED : Z := 128.

Definition VIRTIO_PCI_CAP_COMMON_CFG : Z := 0x1.
Definition VIRTIO_PCI_CAP_NOTIFY_CFG : Z := 0x2.
Definition VIRTIO_PCI_CAP_ISR_CFG : Z := 0x3.
Definition VIRTIO_PCI_CAP_DEVICE_CFG : Z := 0x4.
Definition VIRTIO_PCI_CAP_PCI_CFG : Z := 0x5.

(** The fields of [VirtioPciCommonCfg], with the offset and size that
    [repr(C)] gives them. *)
Inductive CommonCfg : Type :=
  | device_feature_select | device_feature | driver_feature_select | driver_feature
  | msix_config | num_queues | device_status | config_generation
  | queue_select | queue_size | queue_msix_vector | queue_enable | queue_notify_off
  | queue_desc | queue_driver | queue_device.

Definition cfg_place (f : CommonCfg) : Z * Z :=
  match f with
  | device_feature_select => (0, 4) | device_feature => (4, 4)
  | driver_feature_select => (8, 4) | driver_feature => (12, 4)
  | msix_config => (16, 2) | num_queues => (18, 2)
  | device_status => (20, 1) | config_generation => (21, 1)
  | queue_select => (22, 2) | queue_size => (24, 2) | queue_msix_vector => (26, 2)
  | queue_enable => (28, 2) | queue_notify_off => (30, 2)
  | queue_desc => (32, 8) | queue_driver => (40, 8) | queue_device => (48, 8)
  end.

Record VirtioPciCap : Type := mkVirtioPciCap {
  cap_vndr : Z; cap_next : Z; cap_len : Z; cfg_type : Z; vc_bar : Z; vc_padding : list Z; vc_offset : Z; vc_length : Z
}.

#[export] Instance Pod_VirtioPciCap : Pod VirtioPciCap := {|
  size_of := 16;
  align_of := 4;
  from_bytes bs := mkVirtioPciCap (field 1 0 bs) (field 1 1 bs) (field 1 2 bs) (field 1 3 bs) (field 1 4 bs)
    (take 3 (drop 5 bs)) (field 4 8 bs) (field 4 12 bs)
|}.

Record VirtioCapability : Type := mkVirtioCapability { config_space_offset : Z; virtio_cap : VirtioPciCap }.

Record VirtioDevice : Type := mkVirtioDevice {
  pci_device : Device;
  common_config_cap : VirtioCapability;
  notification_cap : VirtioCapability;
  device_specific_config_cap : option VirtioCapability;
  common_config : Z
}.

Section device.
Context {W : Type} `{Ports W, Mmio W} (fuel : nat).

(** [addr_in_bar]: a BAR that is not there or is an I/O BAR is
    [unimplemented!]. *)
Definition addr_in_bar (d : Device) (cap : VirtioPciCap) (w : W) : exec (W * Z) :=
  '(w, bar) ← Device_bar d w (vc_bar cap);
  bar_addr ← (match bar with
    | Some (Mem32 address _ _) | Some (Mem64 address _ _) => Done address
    | _ => Panic
    end);
  Done (w, bar_addr ⊞ vc_offset cap).

(** The closure [find_capability]; the outer [None] is an endless list. *)
Definition find_capability (d : Device) (ty : Z) (w : W) : exec (W * option (option VirtioCapability)) :=
  Device_find_map (fun cap w =>
    if bool_decide (cap_id cap = CapVendorSpecific) then
      '(w, virtio_cap) ← Device_read_struct VirtioPciCap d (cap_offset cap) w;
      Done (w, if cfg_type virtio_cap =? ty then Some (mkVirtioCapability (cap_offset cap) virtio_cap) else None)
    else Done (w, None)) fuel d w.

(** [Device::new]; the outer [None] is an endless capability list. *)
Definition VirtioDevice_new (d : Device) (w : W) : exec (W * option (result VirtioDevice string)) :=
  '(w, common) ← find_capability d VIRTIO_PCI_CAP_COMMON_CFG w;
  match common with
  | None => Done (w, None)
  | Some None => Done (w, Some (Err "failed to find common config capability"%string))
  | Some (Some common_config_cap) =>
      '(w, notification) ← find_capability d VIRTIO_PCI_CAP_NOTIFY_CFG w;
      match notification with
      | None => Done (w, None)
      | Some None => Done (w, Some (Err "failed to find notification capability"%string))
      | Some (Some notification_cap) =>
          '(w, specific) ← find_capability d VIRTIO_PCI_CAP_DEVICE_CFG w;
          match specific with
          | None => Done (w, None)
          | Some device_specific_config_cap =>
              '(w, addr) ← addr_in_bar d (virtio_cap common_config_cap) w;
              if addr =? 0 then Done (w, Some (Err "capability address in BAR was null"%string))
              else Done (w, Some (Ok (mkVirtioDevice d common_config_cap notification_cap device_specific_config_cap addr)))
          end
      end
  end.

Definition cfg_store (d : VirtioDevice) (f : CommonCfg) (value : Z) (w : W) : W :=
  mmio_write w (common_config d ⊞ (cfg_place f).1) (cfg_place f).2 value.
Definition cfg_load (d : VirtioDevice) (f : CommonCfg) (w : W) : W * Z :=
  mmio_read w (common_config d ⊞ (cfg_place f).1) (cfg_place f).2.

Definition write_status (d : VirtioDevice) (value : Z) (w : W) : W := cfg_store d device_status value w.
Definition read_status (d : VirtioDevice) (w : W) : W * Z := cfg_load d device_status w.

Definition write_feature_bits (d : VirtioDevice) (select value : Z) (w : W) : W :=
  let w := cfg_store d driver_feature_select select w in
  cfg_store d driver_feature value w.

(** [initialize]; [None] is an endless capability list in [set_msix]. *)
Definition initialize {R} (d : VirtioDevice) (feature_bits : Z) (setup_fn : W -> exec (W * R)) (w : W) : exec (option (W * R)) :=
  let w := write_status d DEVICE_STATUS_RESET w in
  o ← Device_set_msix fuel (pci_device d) false w;
  match o with
  | None => Done None
  | Some w =>
      let w := write_status d DEVICE_STATUS_ACKNOWLEDGE w in
      let w := write_status d DEVICE_STATUS_DRIVER w in
      let w := write_feature_bits d 0x0 feature_bits w in
      let w := write_feature_bits d 0x1 VIRTIO_F_VERSION_1 w in
      let w := write_status d DEVICE_STATUS_FEATURES_OK w in
      let (w, status) := read_status d w in
      _ ← rust_assert (status =? DEVICE_STATUS_FEATURES_OK);
      '(w, result) ← setup_fn w;
      Done (Some (write_status d DEVICE_STATUS_DRIVER_OK w, result))
  end.

Definition queue_notify_addr (d : VirtioDevice) (queue_index : Z) (w : W) : exec (W * Z) :=
  let w := cfg_store d queue_select queue_index w in
  let (w, queue_notify_offset) := cfg_load d queue_notify_off w in
  let offset := wrap 8 (config_space_offset (notification_cap d) + 4) in
  let (w, notify_offset_multiplier) := Device_read (pci_device d) w offset in
  '(w, base_addr) ← addr_in_bar (pci_device d) (virtio_cap (notification_cap d)) w;
  Done (w, base_addr ⊞ (queue_notify_offset ⊠ notify_offset_multiplier)).

(** The offsets of the three areas in the [repr(C)] storage of a queue. *)
Definition round_up (a align : Z) : Z := (a + align - 1) / align * align.
Definition driver_area_offset (SIZE : nat) : Z := 16 * Z.of_nat SIZE.
Definition device_area_offset (SIZE : nat) : Z := round_up (driver_area_offset SIZE + 6 + 2 * Z.of_nat SIZE) 4.

(** The body of the loop of [initialize_queue]: a descriptor gets a buffer. *)
Definition box_buffer (translate : Z -> option Z) (box_addr : nat -> Z) (BUFFER_SIZE : Z) (i : nat)
    (s : list VirtqueueDesc * Memory_bytes) : exec (list VirtqueueDesc * Memory_bytes) :=
  desc ← unwrap (s.1 !! i);
  addr ← unwrap (translate (box_addr (S i)));
  Done (<[i := mkDesc addr (desc_len desc) (desc_flags desc) (desc_next desc)]> s.1,
        write_memory s.2 addr (replicate (Z.to_nat BUFFER_SIZE) 0)).

(** [box_addr] gives the address of the storage ([0]) and of the buffer of
    each descriptor; a new buffer is zero. *)
Definition initialize_queue (translate : Z -> option Z) (box_addr : nat -> Z) (QUEUE_SIZE : nat) (BUFFER_SIZE : Z)
    (d : VirtioDevice) (index : Z) (memory : Memory_bytes) (w : W) : exec (W * Memory_bytes * Virtqueue) :=
  let storage_addr := box_addr 0%nat in
  '(area, memory) ← for_each (seq 0 QUEUE_SIZE) (box_buffer translate box_addr BUFFER_SIZE)
    (descriptor_area (VirtqueueStorage_new QUEUE_SIZE), memory);
  desc_area_addr ← unwrap (translate storage_addr);
  driver_area_addr ← unwrap (translate (storage_addr ⊞ driver_area_offset QUEUE_SIZE));
  device_area_addr ← unwrap (translate (storage_addr ⊞ device_area_offset QUEUE_SIZE));
  let w := cfg_store d queue_select index w in
  let w := cfg_store d queue_desc desc_area_addr w in
  let w := cfg_store d queue_driver driver_area_addr w in
  let w := cfg_store d queue_device device_area_addr w in
  let w := cfg_store d queue_enable 1 w in
  let (w, size) := cfg_load d queue_size w in
  _ ← rust_assert (size =? Z.of_nat QUEUE_SIZE);
  '(w, notify_addr) ← queue_notify_addr d index w;
  Done (w, memory, mkVirtqueue index
    (mkStorage area (driver_area (VirtqueueStorage_new QUEUE_SIZE)) (device_area (VirtqueueStorage_new QUEUE_SIZE)))
    0 notify_addr (replicate QUEUE_SIZE true)).
End device.

(** ** Set-up of a queue *)

Section setup.
Context {W : Type} `{Ports W, Mmio W}.

(** The buffers the allocator hands out do not overlap, physically. *)
Definition boxes_apart (translate : Z -> option Z) (box_addr : nat -> Z) (QUEUE_SIZE : nat) (BUFFER_SIZE : Z) : Prop :=
  forall i j a b, (i < QUEUE_SIZE)%nat -> (j < QUEUE_SIZE)%nat -> i <> j ->
    translate (box_addr (S i)) = Some a -> translate (box_addr (S j)) = Some b ->
    a + BUFFER_SIZE <= b \/ b + BUFFER_SIZE <= a.

Lemma buffers_loop translate box_addr n BUFFER_SIZE memory area memory' :
  for_each (seq 0 n) (box_buffer translate box_addr BUFFER_SIZE) (replicate n VirtqueueDesc_ZERO, memory) = Done (area, memory') ->
  length area = n /\ forall i, (i < n)%nat -> exists a, translate (box_addr (S i)) = Some a /\ area !! i = Some (mkDesc a 0 0 0).
Proof.
  set (P := fun (k : nat) (s : list VirtqueueDesc * Memory_bytes) => length s.1 = n /\
    forall i D, s.1 !! i = Some D -> if (i <? k)%nat then exists a, translate (box_addr (S i)) = Some a /\ D = mkDesc a 0 0 0
      else D = VirtqueueDesc_ZERO).
  enough (forall m k s s', (k + m = n)%nat -> P k s -> for_each (seq k m) (box_buffer translate box_addr BUFFER_SIZE) s = Done s' -> P n s') as Hloop.
  { intros E. apply (Hloop n 0%nat) in E as [Hl Hi]; [|done|].
    - split; [done|]. intros i Hin. destruct (lookup_lt_is_Some_2 area i) as [D ED]; [by cbn in Hl; lia|].
      specialize (Hi i D ED). rewrite (proj2 (Nat.ltb_lt i n)) in Hi by done. destruct Hi as (a & Ha & ->). by exists a.
    - split; cbn [fst]; [by rewrite length_replicate|]. intros i D [-> _]%lookup_replicate. done. }
  induction m as [|m IH]; intros k s s' Hk [Hl Hi] E; cbn [seq for_each] in E.
  { injection E as <-. rewrite <-Hk, Nat.add_0_r. done. }
  unfold box_buffer in E. destruct (s.1 !! k) as [D|] eqn:ED; [|done]. destruct (translate _) as [a|] eqn:Ea; [|done].
  cbn [unwrap mbind exec_bind] in E. apply (IH (S k)) in E; [done|lia|]. split; cbn [fst]; [by rewrite length_insert|].
  pose proof (Hi k D ED) as HD. rewrite Nat.ltb_irrefl in HD. subst D.
  intros i D' HD'. destruct (decide (i = k)) as [->|Hne].
  - rewrite insert_lookup, ED in HD'. injection HD' as <-. rewrite (proj2 (Nat.ltb_lt k (S k))) by lia. by exists a.
  - rewrite list_lookup_insert_ne in HD' by done. specialize (Hi i D' HD').
    destruct (i <? S k)%nat eqn:E1, (i <? k)%nat eqn:E2; try done; [apply Nat.ltb_lt in E1|apply Nat.ltb_ge in E1];
      [apply Nat.ltb_ge in E2|apply Nat.ltb_lt in E2]; lia.
Qed.

Lemma free_all n : forall k, free_from k (replicate n true) = seq k n.
Proof. induction n as [|n IH]; intros k; cbn; [done|]. by rewrite IH. Qed.

(** A queue that the set-up returns is well formed: every descriptor is free,
    has its own buffer and no successor, and the rings are empty. *)
Theorem initialize_queue_ready {T : Type} `{PodEncoding T} translate box_addr QUEUE_SIZE d index memory w w' memory' q :
  (0 < QUEUE_SIZE)%nat -> Z.of_nat QUEUE_SIZE <= 2 ^ 16 -> boxes_apart translate box_addr QUEUE_SIZE (size_of T) ->
  initialize_queue translate box_addr QUEUE_SIZE (size_of T) d index memory w = Done (w', memory', q) ->
  queue_wf (T := T) QUEUE_SIZE q /\ free q = seq 0 QUEUE_SIZE /\ (forall i D, descs q !! i = Some D -> desc_next D = 0) /\
  pop_index q = 0 /\ device_idx (device_area (storage q)) = 0 /\ driver_idx (driver_area (storage q)) = 0.
Proof.
  intros Hpos Hmax Hap E. unfold initialize_queue in E. exec_inv E. destruct x as [area m1]. exec_inv E. exec_inv E. exec_inv E.
  destruct (cfg_load _ _ _) as [w1 sz] in E. exec_inv E. exec_inv E. destruct x3 as [w2 na]. injection E as <- <- <-.
  cbn [descriptor_area VirtqueueStorage_new] in E0. apply buffers_loop in E0 as [Hl Hi].
  assert (forall i D, area !! i = Some D -> exists a, translate (box_addr (S i)) = Some a /\ D = mkDesc a 0 0 0) as Harea.
  { intros i D HD. destruct (Hi i) as (a & Ha & HD'); [rewrite <-Hl; by eapply lookup_lt_Some|]. exists a. split; [done|congruence]. }
  split; [|split; [|split; [|done]]].
  - constructor; cbn; rewrite ?length_replicate; try done; [lia|].
    intros i j D D' Hij HD HD'. destruct (Harea i D HD) as (a & Ha & ->). destruct (Harea j D' HD') as (b & Hb & ->). cbn.
    apply (Hap i j); try done; rewrite <-Hl; by eapply lookup_lt_Some.
  - apply free_all.
  - intros i D HD. by destruct (Harea i D HD) as (a & _ & ->).
Qed.
End setup.

(** ** The notification address *)

Section notify.
Context {W : Type} {HP : Ports W} {HC : ConfigMechanism W} {HM : Mmio W}.

(** Memory-mapped accesses leave the configuration space alone. *)
Class MmioApart : Prop := {
  write_apart : forall (w : W) a n v, same_regs w (mmio_write w a n v);
  read_apart : forall (w : W) a n, same_regs w (mmio_read w a n).1
}.

Definition config_reg (w : W) (d : Device) (offset : Z) : Z := reg w (config_address (dev_bus d) (dev_device d) (dev_function d) offset).

Lemma read_words_spec d offset n : forall i w, 0 <= i -> i + Z.of_nat n <= 2 ^ 8 ->
  exists w', read_words d offset n i w =
    Done (w', (fun j => config_reg w d (wrap 8 (offset + wrap 8 (4 * j)))) <$> seqZ i (Z.of_nat n)) /\ same_regs w w'.
Proof.
  induction n as [|n IH]; intros i w Hi Hn; cbn [read_words]; [by exists w|].
  rewrite (proj2 (Z.ltb_lt i (2 ^ 8))) by lia. cbn [rust_assert mbind exec_bind]. unfold Device_read.
  destruct (pci_read_spec w (dev_bus d) (dev_device d) (dev_function d) (wrap 8 (offset + wrap 8 (4 * i)))) as (w1 & E1 & H1).
  rewrite E1. destruct (IH (i + 1) w1) as (w' & E & H'); [lia|lia|]. rewrite E. exists w'. split.
  - rewrite (seqZ_cons i) by lia. cbn [mbind exec_bind fmap list_fmap]. do 3 f_equal.
    replace (Z.pred (Z.of_nat (S n))) with (Z.of_nat n) by lia. replace (Z.succ i) with (i + 1) by lia.
    apply list_fmap_ext. intros j x Hx. apply H1.
  - intros b. by rewrite (H' _).
Qed.

(** The structure [read_struct] returns holds the words behind the offset:
    the second one is the BAR number and the padding. *)
Lemma read_cap_bar d offset w w' cap : 0 <= offset -> offset + 16 <= 256 ->
  Device_read_struct VirtioPciCap d offset w = Done (w', cap) ->
  config_reg w d (wrap 8 (offset + 4)) = vc_bar cap + 2 ^ 8 * le_combine (vc_padding cap).
Proof.
  intros Ho Hmax E. unfold Device_read_struct in E. exec_inv E.
  destruct (read_words_spec d offset (Z.to_nat (size_of VirtioPciCap / 4)) 0 w) as (w1 & Ew & _); [lia|by vm_compute|].
  assert (seqZ 0 (Z.of_nat (Z.to_nat (size_of VirtioPciCap / 4))) = [0; 1; 2; 3]) as Hseq by by vm_compute.
  rewrite Hseq in Ew. rewrite Ew in E. cbn [mbind exec_bind] in E. injection E as _ <-. cbn [fmap list_fmap]. change (wrap 8 (4 * 1)) with 4. set (r := config_reg w d (wrap 8 (offset + 4))).
  assert (uint_range 32 r) as Hr by apply reg_word.
  set (r0 := config_reg w d (wrap 8 (offset + wrap 8 (4 * 0)))). set (r2 := config_reg w d (wrap 8 (offset + wrap 8 (4 * 2)))). cbn [concat].
  unfold vc_bar, vc_padding, Pod_VirtioPciCap, from_bytes.
  assert (forall n, field n 4 (le_split 4 r0 ++ le_split 4 r ++ le_split 4 r2 ++ le_split 4 (config_reg w d (wrap 8 (offset + wrap 8 (4 * 3)))) ++ []) =
    field n 0 (le_split 4 r ++ le_split 4 r2 ++ le_split 4 (config_reg w d (wrap 8 (offset + wrap 8 (4 * 3)))) ++ [])) as Hf by (intros n; by rewrite field_skip).
  rewrite Hf. clear Hf. cbn [le_split app take drop field le_combine].
  pose proof (le_combine_split 4 r Hr) as Hc. cbn [le_split le_combine] in Hc. unfold field. cbn [take drop le_combine].
  rewrite <-Hc at 1. ring.
Qed.

(** The notification address is computed with the wrong multiplier: the
    driver reads the word 4 bytes into the capability, which holds the BAR
    number, and not the word behind the capability's 16 bytes. *)
Theorem notify_multiplier_is_bar `{!MmioApart} d index w w0 w0' base w' :
  let cap := notification_cap d in
  0 <= config_space_offset cap -> config_space_offset cap + 16 <= 256 ->
  Device_read_struct VirtioPciCap (pci_device d) (config_space_offset cap) w0 = Done (w0', virtio_cap cap) -> same_regs w0 w ->
  (forall w1, same_regs w0 w1 -> exists w2, addr_in_bar (pci_device d) (virtio_cap cap) w1 = Done (w2, base)) ->
  (exists w1, queue_notify_addr d index w = Done (w1, w')) ->
  exists offset, w' = base ⊞ (offset ⊠ (vc_bar (virtio_cap cap) + 2 ^ 8 * le_combine (vc_padding (virtio_cap cap)))).
Proof.
  intros cap H0 H1 Hs Hw Hbase (w1 & E). unfold queue_notify_addr in E.
  pose proof (write_apart w (common_config d ⊞ (cfg_place queue_select).1) (cfg_place queue_select).2 index) as Ha.
  unfold cfg_load, cfg_store in E. set (wa := mmio_write _ _ _ _) in E, Ha.
  pose proof (read_apart wa (common_config d ⊞ (cfg_place queue_notify_off).1) (cfg_place queue_notify_off).2) as Hb.
  destruct (mmio_read _ _ _) as [wb offset] in E, Hb. cbn [fst] in Hb. unfold Device_read in E.
  destruct (pci_read_spec wb (dev_bus (pci_device d)) (dev_device (pci_device d)) (dev_function (pci_device d))
    (wrap 8 (config_space_offset (notification_cap d) + 4))) as (wc & Ec & Hc). rewrite Ec in E. fold cap in E.
  assert (same_regs w0 wc) as Hall by (intros b; by rewrite (Hc _), (Hb _), (Ha _), (Hw _)).
  destruct (Hbase wc Hall) as (wd & Ed). rewrite Ed in E. cbn [mbind exec_bind] in E. injection E as _ <-. exists offset. do 2 f_equal.
  rewrite <-(read_cap_bar _ _ _ _ _ H0 H1 Hs). unfold config_reg. by rewrite (Hb _), (Ha _), (Hw _).
Qed.
End notify.

(** ** A machine with one VIRTIO device, for the witnesses *)

(** The PCI registers and the device's memory-mapped registers by address. *)
Record VirtioMachine : Type := mkVirtioMachine { vm_pci : Machine; vm_mmio : gmap Z Z }.

#[export] Instance VirtioMachine_ports : Ports VirtioMachine := {|
  out32 m port v := mkVirtioMachine (out32 (vm_pci m) port v) (vm_mmio m);
  in32 m port := let (p, v) := in32 (vm_pci m) port in (mkVirtioMachine p (vm_mmio m), v)
|}.

#[export] Instance VirtioMachine_mmio : Mmio VirtioMachine := {|
  mmio_write m addr n v := mkVirtioMachine (vm_pci m) (<[addr := v]> (vm_mmio m));
  mmio_read m addr n := (m, default 0 (vm_mmio m !! addr))
|}.

(** Function 3 of bus 0 has a common and a notification capability in the BAR
    of slot 0, and queues of 64 descriptors. *)
Definition example_virtio : VirtioMachine :=
  mkVirtioMachine (mkMachine 0 (list_to_map [
    (config_address 0 3 0 0x34, 0x40);
    (config_address 0 3 0 0x40, 0x01105009); (config_address 0 3 0 0x44, 0); (config_address 0 3 0 0x48, 0);
    (config_address 0 3 0 0x4C, 0x38);
    (config_address 0 3 0 0x50, 0x02140009); (config_address 0 3 0 0x54, 0); (config_address 0 3 0 0x58, 0x3000);
    (config_address 0 3 0 0x5C, 0x1000); (config_address 0 3 0 0x60, 4)] ∪ mach_regs example_machine))
    {[0xFE000018 := 64; 0xFE00001E := 2]}.

Definition example_box (i : nat) : Z := 4096 * Z.of_nat i.

Lemma example_boxes_apart n size : size <= 4096 -> boxes_apart Some example_box n size.
Proof. intros Hs i j a b Hi Hj Hij [= <-] [= <-]. unfold example_box. lia. Qed.

#[export] Program Instance VirtioMachine_config : ConfigMechanism VirtioMachine := {|
  reg m := reg (vm_pci m);
  writable := machine_writable
|}.
Next Obligation. intros w a. exact (reg_word (W := Machine) (vm_pci w) a). Qed.
Next Obligation. intros w bus device function offset. exact (cfg_read (W := Machine) (vm_pci w) bus device function offset). Qed.
Next Obligation. intros w bus device function offset v b. exact (cfg_write (W := Machine) (vm_pci w) bus device function offset v b). Qed.

#[export] Instance VirtioMachine_apart : MmioApart (W := VirtioMachine).
Proof. by split. Qed.

Definition example_cap : VirtioCapability := mkVirtioCapability 0x50 (mkVirtioPciCap 9 0 0x14 2 0 [0; 0; 0] 0x3000 0x1000).
Definition example_virtio_device : VirtioDevice := mkVirtioDevice example_device example_cap example_cap None 0xFE000000.

(** The BAR of the example, from every state with its registers. *)
Lemma example_addr_in_bar w : same_regs example_virtio w ->
  exists w', addr_in_bar example_device (virtio_cap example_cap) w = Done (w', 0xFE003000).
Proof.
  intros Hw. unfold addr_in_bar. cbn [vc_bar virtio_cap example_cap].
  destruct (Device_bar_mem example_device w 0) as (w1 & H1 & E); [lia|done|by rewrite (Hw _)|]. rewrite E. cbv zeta. rewrite !(Hw _).
  change (reg example_virtio (bar_reg example_device 0)) with 0xFE000008. change (bar_mem_type 0xFE000008 =? 0) with true. cbv iota.
  destruct (bar32_spec example_device w1 0 (0xFE000008 - 0xFE000008 mod 16) (Z.testbit 0xFE000008 3) 20) as (w2 & -> & _).
  - lia.
  - lia.
  - by vm_compute.
  - rewrite (H1 _), (Hw _). split; [by vm_compute|]. intros i Hi. change (reg example_virtio (bar_reg example_device 0)) with (0xFE0 * 2 ^ 20 + 8).
    rewrite <-(Z.mod_pow2_bits_low _ 20), Z.add_comm, Z.mod_add, Z.mod_small by lia. apply (testbit_high 4); unfold uint_range; lia.
  - by rewrite (H1 _), (Hw _).
  - by exists w2.
Qed.

(** The multiplier of the example is 4 by its capability; the driver takes
    the BAR number, which is 0. *)
Lemma notify_multiplier_is_bar_witness : config_reg example_virtio example_device 0x60 = 4 /\
  exists w1 offset, queue_notify_addr example_virtio_device 0 example_virtio = Done (w1, 0xFE003000 ⊞ (offset ⊠ 0)).
Proof.
  split; [by vm_compute|].
  destruct (queue_notify_addr example_virtio_device 0 example_virtio) as [[w1 a]|] eqn:E; [|vm_compute in E; discriminate E].
  destruct (Device_read_struct VirtioPciCap example_device 0x50 example_virtio) as [[w0' cap]|] eqn:Ec; [|vm_compute in Ec; discriminate Ec].
  assert (cap = virtio_cap example_cap) as -> by (vm_compute in Ec; injection Ec as _ <-; reflexivity).
  destruct (notify_multiplier_is_bar example_virtio_device 0 example_virtio example_virtio w0' 0xFE003000 a) as (offset & ->);
    [cbn; lia|cbn; lia|exact Ec|by intros b|exact example_addr_in_bar|by exists w1|].
  exists w1, offset. reflexivity.
Defined.
