(* ===== verification/VirtioGpu.v ===== *)
(** * drivers/virtio/src/virtio_gpu.rs

    The GPU driver sends one command at a time: the command and a buffer for
    the response are one chain of the control queue, and the driver waits for
    it to come back. [moves] are the steps of the device, one before each look
    at the ring; [Run] threads them with the queue and the memory. A command
    is the bytes of its [repr(C)] structure in the union [Message]; the bytes
    behind it are those that were there ([uninit]). *)

From Stdlib Require Import Lia.
From stdpp Require Import base numbers option strings tactics gmap list.
From S2P Require Import Prelude Pod Bytes Pci Virtqueue VirtioDevice.

Local Open Scope Z_scope.

(** ** Messages *)

Inductive ControlType : Type :=
  | VIRTIO_GPU_CMD_GET_DISPLAY_INFO
  | VIRTIO_GPU_CMD_RESOURCE_CREATE_2D
  | VIRTIO_GPU_CMD_RESOURCE_UNREF
  | VIRTIO_GPU_CMD_SET_SCANOUT
  | VIRTIO_GPU_CMD_RESOURCE_FLUSH
  | VIRTIO_GPU_CMD_TRANSFER_TO_HOST_2D
  | VIRTIO_GPU_CMD_RESOURCE_ATTACH_BACKING
  | VIRTIO_GPU_CMD_RESOURCE_DETACH_BACKING
  | VIRTIO_GPU_CMD_GET_CAPSET_INFO
  | VIRTIO_GPU_CMD_GET_CAPSET
  | VIRTIO_GPU_CMD_GET_EDID
  | VIRTIO_GPU_CMD_RESOURCE_ASSIGN_UUID
  | VIRTIO_GPU_CMD_RESOURCE_CREATE_BLOB
  | VIRTIO_GPU_CMD_SET_SCANOUT_BLOB
  | VIRTIO_GPU_CMD_CTX_CREATE
  | VIRTIO_GPU_CMD_CTX_DESTROY
  | VIRTIO_GPU_CMD_CTX_ATTACH_RESOURCE
  | VIRTIO_GPU_CMD_CTX_DETACH_RESOURCE
  | VIRTIO_GPU_CMD_RESOURCE_CREATE_3D
  | VIRTIO_GPU_CMD_TRANSFER_TO_HOST_3D
  | VIRTIO_GPU_CMD_TRANSFER_FROM_HOST_3D
  | VIRTIO_GPU_CMD_SUBMIT_3D
  | VIRTIO_GPU_CMD_RESOURCE_MAP_BLOB
  | VIRTIO_GPU_CMD_RESOURCE_UNMAP_BLOB
  | VIRTIO_GPU_CMD_UPDATE_CURSOR
  | VIRTIO_GPU_CMD_MOVE_CURSOR
  | VIRTIO_GPU_RESP_OK_NODATA
  | VIRTIO_GPU_RESP_OK_DISPLAY_INFO
  | VIRTIO_GPU_RESP_OK_CAPSET_INFO
  | VIRTIO_GPU_RESP_OK_CAPSET
  | VIRTIO_GPU_RESP_OK_EDID
  | VIRTIO_GPU_RESP_OK_RESOURCE_UUID
  | VIRTIO_GPU_RESP_OK_MAP_INFO
  | VIRTIO_GPU_RESP_ERR_UNSPEC
  | VIRTIO_GPU_RESP_ERR_OUT_OF_MEMORY
  | VIRTIO_GPU_RESP_ERR_INVALID_SCANOUT_ID
  | VIRTIO_GPU_RESP_ERR_INVALID_RESOURCE_ID
  | VIRTIO_GPU_RESP_ERR_INVALID_CONTEXT_ID
  | VIRTIO_GPU_RESP_ERR_INVALID_PARAMETER.

(** [as u32]. *)
Definition ControlType_raw (t : ControlType) : Z :=
  match t with
  | VIRTIO_GPU_CMD_GET_DISPLAY_INFO => 0x100
  | VIRTIO_GPU_CMD_RESOURCE_CREATE_2D => 0x101
  | VIRTIO_GPU_CMD_RESOURCE_UNREF => 0x102
  | VIRTIO_GPU_CMD_SET_SCANOUT => 0x103
  | VIRTIO_GPU_CMD_RESOURCE_FLUSH => 0x104
  | VIRTIO_GPU_CMD_TRANSFER_TO_HOST_2D => 0x105
  | VIRTIO_GPU_CMD_RESOURCE_ATTACH_BACKING => 0x106
  | VIRTIO_GPU_CMD_RESOURCE_DETACH_BACKING => 0x107
  | VIRTIO_GPU_CMD_GET_CAPSET_INFO => 0x108
  | VIRTIO_GPU_CMD_GET_CAPSET => 0x109
  | VIRTIO_GPU_CMD_GET_EDID => 0x10a
  | VIRTIO_GPU_CMD_RESOURCE_ASSIGN_UUID => 0x10b
  | VIRTIO_GPU_CMD_RESOURCE_CREATE_BLOB => 0x10c
  | VIRTIO_GPU_CMD_SET_SCANOUT_BLOB => 0x10d
  | VIRTIO_GPU_CMD_CTX_CREATE => 0x200
  | VIRTIO_GPU_CMD_CTX_DESTROY => 0x201
  | VIRTIO_GPU_CMD_CTX_ATTACH_RESOURCE => 0x202
  | VIRTIO_GPU_CMD_CTX_DETACH_RESOURCE => 0x203
  | VIRTIO_GPU_CMD_RESOURCE_CREATE_3D => 0x204
  | VIRTIO_GPU_CMD_TRANSFER_TO_HOST_3D => 0x205
  | VIRTIO_GPU_CMD_TRANSFER_FROM_HOST_3D => 0x206
  | VIRTIO_GPU_CMD_SUBMIT_3D => 0x207
  | VIRTIO_GPU_CMD_RESOURCE_MAP_BLOB => 0x208
  | VIRTIO_GPU_CMD_RESOURCE_UNMAP_BLOB => 0x209
  | VIRTIO_GPU_CMD_UPDATE_CURSOR => 0x300
  | VIRTIO_GPU_CMD_MOVE_CURSOR => 0x301
  | VIRTIO_GPU_RESP_OK_NODATA => 0x1100
  | VIRTIO_GPU_RESP_OK_DISPLAY_INFO => 0x1101
  | VIRTIO_GPU_RESP_OK_CAPSET_INFO => 0x1102
  | VIRTIO_GPU_RESP_OK_CAPSET => 0x1103
  | VIRTIO_GPU_RESP_OK_EDID => 0x1104
  | VIRTIO_GPU_RESP_OK_RESOURCE_UUID => 0x1105
  | VIRTIO_GPU_RESP_OK_MAP_INFO => 0x1106
  | VIRTIO_GPU_RESP_ERR_UNSPEC => 0x1200
  | VIRTIO_GPU_RESP_ERR_OUT_OF_MEMORY => 0x1201
  | VIRTIO_GPU_RESP_ERR_INVALID_SCANOUT_ID => 0x1202
  | VIRTIO_GPU_RESP_ERR_INVALID_RESOURCE_ID => 0x1203
  | VIRTIO_GPU_RESP_ERR_INVALID_CONTEXT_ID => 0x1204
  | VIRTIO_GPU_RESP_ERR_INVALID_PARAMETER => 0x1205
  end.

Inductive PixelFormat : Type :=
  | VIRTIO_GPU_FORMAT_B8G8R8A8_UNORM | VIRTIO_GPU_FORMAT_B8G8R8X8_UNORM
  | VIRTIO_GPU_FORMAT_A8R8G8B8_UNORM | VIRTIO_GPU_FORMAT_X8R8G8B8_UNORM
  | VIRTIO_GPU_FORMAT_R8G8B8A8_UNORM | VIRTIO_GPU_FORMAT_X8B8G8R8_UNORM
  | VIRTIO_GPU_FORMAT_A8B8G8R8_UNORM | VIRTIO_GPU_FORMAT_R8G8B8X8_UNORM.

Definition PixelFormat_raw (f : PixelFormat) : Z :=
  match f with
  | VIRTIO_GPU_FORMAT_B8G8R8A8_UNORM => 1 | VIRTIO_GPU_FORMAT_B8G8R8X8_UNORM => 2
  | VIRTIO_GPU_FORMAT_A8R8G8B8_UNORM => 3 | VIRTIO_GPU_FORMAT_X8R8G8B8_UNORM => 4
  | VIRTIO_GPU_FORMAT_R8G8B8A8_UNORM => 67 | VIRTIO_GPU_FORMAT_X8B8G8R8_UNORM => 68
  | VIRTIO_GPU_FORMAT_A8B8G8R8_UNORM => 121 | VIRTIO_GPU_FORMAT_R8G8B8X8_UNORM => 134
  end.

Definition VIRTIO_GPU_FLAG_FENCE : Z := 1.
Definition VIRTIO_GPU_MAX_SCANOUTS : nat := 16.
Definition MAX_MEM_PAGES : nat := 1.

Record ControlHeader : Type := mkControlHeader {
  ch_type : Z; ch_flags : Z; ch_fence_id : Z; ch_context_id : Z; ch_ring_index : Z; ch_padding : list Z
}.

Definition ControlHeader_default : ControlHeader := mkControlHeader 0 VIRTIO_GPU_FLAG_FENCE 0 0 0 [0; 0; 0].

(** [ControlHeader { type_, ..Default::default() }]. *)
Definition header_of (t : ControlType) : ControlHeader :=
  mkControlHeader (ControlType_raw t) (ch_flags ControlHeader_default) (ch_fence_id ControlHeader_default)
    (ch_context_id ControlHeader_default) (ch_ring_index ControlHeader_default) (ch_padding ControlHeader_default).

Definition ControlHeader_bytes (h : ControlHeader) : list Z :=
  le_split 4 (ch_type h) ++ le_split 4 (ch_flags h) ++ le_split 8 (ch_fence_id h) ++ le_split 4 (ch_context_id h) ++
  le_split 1 (ch_ring_index h) ++ ch_padding h.
Definition ControlHeader_from (bs : list Z) : ControlHeader :=
  mkControlHeader (field 4 0 bs) (field 4 4 bs) (field 8 8 bs) (field 4 16 bs) (field 1 20 bs) (take 3 (drop 21 bs)).

Record Rect : Type := mkRect { rect_x : Z; rect_y : Z; rect_width : Z; rect_height : Z }.
Definition Rect_bytes (r : Rect) : list Z :=
  le_split 4 (rect_x r) ++ le_split 4 (rect_y r) ++ le_split 4 (rect_width r) ++ le_split 4 (rect_height r).

Record DisplayMode : Type := mkDisplayMode { mode_rect : Rect; mode_enabled : Z; mode_flags : Z }.
Definition DisplayMode_from (bs : list Z) : DisplayMode :=
  mkDisplayMode (mkRect (field 4 0 bs) (field 4 4 bs) (field 4 8 bs) (field 4 12 bs)) (field 4 16 bs) (field 4 20 bs).

Record DisplayInfo : Type := mkDisplayInfo { info_header : ControlHeader; modes : list DisplayMode }.
Definition DisplayInfo_from (bs : list Z) : DisplayInfo :=
  mkDisplayInfo (ControlHeader_from bs) ((fun i => DisplayMode_from (drop (24 + 24 * i) bs)) <$> seq 0 VIRTIO_GPU_MAX_SCANOUTS).

Record MemEntry : Type := mkMemEntry { entry_addr : Z; entry_length : Z }.
Definition MemEntry_bytes (e : MemEntry) : list Z := le_split 8 (entry_addr e) ++ le_split 4 (entry_length e) ++ le_split 4 0.

(** The commands, as the fields of the union that hold them. *)
Inductive Command : Type :=
  | control_header (header : ControlHeader)
  | resource_create_2d (header : ControlHeader) (resource_id format width height : Z)
  | resource_attach_backing (header : ControlHeader) (resource_id entry_count : Z) (entries : list MemEntry)
  | set_scanout (header : ControlHeader) (rect : Rect) (scanout_id resource_id : Z)
  | transfer_to_host_2d (header : ControlHeader) (rect : Rect) (offset resource_id : Z)
  | resource_flush (header : ControlHeader) (rect : Rect) (resource_id : Z).

Definition Command_bytes (c : Command) : list Z :=
  match c with
  | control_header header => ControlHeader_bytes header
  | resource_create_2d header resource_id format width height =>
      ControlHeader_bytes header ++ le_split 4 resource_id ++ le_split 4 format ++ le_split 4 width ++ le_split 4 height
  | resource_attach_backing header resource_id entry_count entries =>
      ControlHeader_bytes header ++ le_split 4 resource_id ++ le_split 4 entry_count ++ concat (MemEntry_bytes <$> entries)
  | set_scanout header rect scanout_id resource_id =>
      ControlHeader_bytes header ++ Rect_bytes rect ++ le_split 4 scanout_id ++ le_split 4 resource_id
  | transfer_to_host_2d header rect offset resource_id =>
      ControlHeader_bytes header ++ Rect_bytes rect ++ le_split 8 offset ++ le_split 4 resource_id ++ le_split 4 0
  | resource_flush header rect resource_id =>
      ControlHeader_bytes header ++ Rect_bytes rect ++ le_split 4 resource_id ++ le_split 4 0
  end.

(** The size of the union is that of its largest field, [DisplayInfo]. *)
Definition MESSAGE_SIZE : Z := 24 + 24 * Z.of_nat VIRTIO_GPU_MAX_SCANOUTS.

#[export] Instance Pod_Message : Pod (list Z) := Pod_raw MESSAGE_SIZE 8.
#[export] Instance Encoding_Message : PodEncoding (list Z).
Proof. apply Encoding_raw; [done|by exists 3]. Defined.

Definition Message_default : list Z := replicate (Z.to_nat MESSAGE_SIZE) 0.

(** ** Commands *)

Definition CONTROL_QUEUE : nat := 64.

Definition GpuState : Type := Virtqueue * Memory_bytes.
Definition Move : Type := GpuState -> GpuState.

(** A run consumes moves of the device; [None] when there are none left. *)
Definition Run (A : Type) : Type := list Move -> GpuState -> exec (option (list Move * GpuState * A)).

#[export] Instance Run_ret : MRet Run := fun A a moves s => Done (Some (moves, s, a)).
#[export] Instance Run_bind : MBind Run := fun A B f m moves s =>
  match m moves s with
  | Done (Some (moves, s, a)) => f a moves s
  | Done None => Done None
  | Panic => Panic
  end.

(** [m?; k]. *)
Definition run_try {E A} (m : Run (result unit E)) (k : Run (result A E)) : Run (result A E) :=
  r ← m;
  match r with
  | Ok _ => k
  | Err e => mret (Err e)
  end.

(** The loop of [send_control]. *)
Fixpoint wait_response (moves : list Move) (s : GpuState) : exec (option (list Move * GpuState * list Z)) :=
  match moves with
  | [] => Done None
  | move :: moves =>
      let '(q, memory) := move s in
      '(q, r) ← pop (T := list Z) CONTROL_QUEUE 2 q memory;
      match r with
      | None => wait_response moves (q, memory)
      | Some responses =>
          response ← unwrap (responses !! 1%nat);
          response ← unwrap response;
          Done (Some (moves, (q, memory), response))
      end
  end.

Definition send_control (message : list Z) : Run (list Z) := fun moves s =>
  '(q, memory, r) ← push Message_default CONTROL_QUEUE s.1 s.2 [DeviceRead message None; DeviceWrite];
  _ ← unwrap (result_ok r);
  _ ← notify_device q;
  wait_response moves (q, memory).

Definition send_control_without_response (message : list Z) : Run (result unit Z) :=
  resp ← send_control message;
  let resp := ControlHeader_from resp in
  if ch_type resp =? ControlType_raw VIRTIO_GPU_RESP_OK_NODATA then mret (Ok tt) else mret (Err (ch_type resp)).

Record Framebuffer : Type := mkFramebuffer { resource_id : Z; pixels_addr : Z; pixels : list Z; fb_width : Z; fb_height : Z }.

(** [NEXT_RESOURCE_ID] after the call, and the framebuffer; [addr] is where
    the allocator puts the pixels. *)
Definition Framebuffer_new (addr : Z) (mode : DisplayMode) (NEXT_RESOURCE_ID : Z) : Z * Framebuffer :=
  let width := rect_width (mode_rect mode) in
  let height := rect_height (mode_rect mode) in
  (wrap 32 (NEXT_RESOURCE_ID + 1),
   mkFramebuffer NEXT_RESOURCE_ID addr (replicate (Z.to_nat (wrap 32 (wrap 32 (width * height) * 4))) 0) width height).

Section commands.
Context (uninit : list Z).

(** A command in the union. *)
Definition message_of (c : Command) : list Z := Command_bytes c ++ drop (length (Command_bytes c)) uninit.

Definition display_info : Run DisplayInfo :=
  res ← send_control (message_of (control_header (header_of VIRTIO_GPU_CMD_GET_DISPLAY_INFO)));
  mret (DisplayInfo_from res).

Definition full_rect (fb : Framebuffer) : Rect := mkRect 0 0 (fb_width fb) (fb_height fb).

Definition create_command (fb : Framebuffer) : Command :=
  resource_create_2d (header_of VIRTIO_GPU_CMD_RESOURCE_CREATE_2D) (resource_id fb)
    (PixelFormat_raw VIRTIO_GPU_FORMAT_R8G8B8A8_UNORM) (fb_width fb) (fb_height fb).
Definition attach_command (fb : Framebuffer) : Command :=
  resource_attach_backing (header_of VIRTIO_GPU_CMD_RESOURCE_ATTACH_BACKING) (resource_id fb) 1
    [mkMemEntry (pixels_addr fb) (wrap 32 (Z.of_nat (length (pixels fb))))].
Definition scanout_command (fb : Framebuffer) : Command :=
  set_scanout (header_of VIRTIO_GPU_CMD_SET_SCANOUT) (full_rect fb) 0 (resource_id fb).
Definition transfer_command (fb : Framebuffer) : Command :=
  transfer_to_host_2d (header_of VIRTIO_GPU_CMD_TRANSFER_TO_HOST_2D) (full_rect fb) 0 (resource_id fb).
Definition flush_command (fb : Framebuffer) : Command :=
  resource_flush (header_of VIRTIO_GPU_CMD_RESOURCE_FLUSH) (full_rect fb) (resource_id fb).

(** The framebuffer after the call, and the result. *)
Definition initialize_framebuffer (fb : Framebuffer) : Framebuffer * Run (result unit Z) :=
  let fb := mkFramebuffer (resource_id fb) (pixels_addr fb) (replicate (length (pixels fb)) 0) (fb_width fb) (fb_height fb) in
  (fb, run_try (send_control_without_response (message_of (create_command fb)))
         (run_try (send_control_without_response (message_of (attach_command fb)))
           (run_try (send_control_without_response (message_of (scanout_command fb))) (mret (Ok tt))))).

Definition gpu_flush (fb : Framebuffer) : Run (result unit Z) :=
  run_try (send_control_without_response (message_of (transfer_command fb)))
    (run_try (send_control_without_response (message_of (flush_command fb))) (mret (Ok tt))).
End commands.

Section new.
Context {W : Type} `{Ports W, Mmio W} (fuel : nat) (translate : Z -> option Z) (box_addr : nat -> Z).

(** [Device::new]; the inner [None] is an endless capability list. *)
Definition GpuDevice_new (d : Device) (memory : Memory_bytes) (w : W)
    : exec (W * option (result (VirtioDevice * Virtqueue * Memory_bytes) string)) :=
  '(w, r) ← VirtioDevice_new fuel d w;
  match r with
  | None => Done (w, None)
  | Some (Err e) => Done (w, Some (Err e))
  | Some (Ok virtio) =>
      r ← initialize fuel virtio 0 (fun w =>
        '(w, memory, q) ← initialize_queue translate box_addr CONTROL_QUEUE MESSAGE_SIZE virtio 0 memory w;
        Done (w, (q, memory))) w;
      match r with
      | None => Done (w, None)
      | Some (w, (q, memory)) => Done (w, Some (Ok (virtio, q, memory)))
      end
  end.
End new.

(** ** The device as a service *)

(** What a step of the device does with the next command: it reads the first
    buffer of the chain, writes its answer into the second and returns the
    chain. *)
Record served (answer : list Z -> list Z) (q : Virtqueue) (memory : Memory_bytes) (h : nat) (D0 D1 : VirtqueueDesc)
    (q' : Virtqueue) (memory' : Memory_bytes) : Prop := {
  se_index : vq_index q' = vq_index q;
  se_descs : descs q' = descs q;
  se_driver : driver_area (storage q') = driver_area (storage q);
  se_available : available_descriptors q' = available_descriptors q;
  se_pop_index : pop_index q' = pop_index q;
  se_length : length (device_ring (device_area (storage q'))) = length (device_ring (device_area (storage q)));
  se_idx : device_idx (device_area (storage q')) = wrap 16 (device_idx (device_area (storage q)) + 1);
  se_ring : exists e, used_id e = Z.of_nat h /\
    device_ring (device_area (storage q')) !! Z.to_nat (device_idx (device_area (storage q)) mod Z.of_nat CONTROL_QUEUE) = Some e;
  se_answer : read_memory memory' (desc_addr D1) MESSAGE_SIZE = answer (read_memory memory (desc_addr D0) MESSAGE_SIZE)
}.

(** A device that answers every command it finds in the ring. *)
Class ControlDevice (answer : list Z -> list Z) (device : Move) : Prop := serves : forall q memory h e D0 D1,
  length (device_ring (device_area (storage q))) = CONTROL_QUEUE ->
  driver_idx (driver_area (storage q)) = wrap 16 (device_idx (device_area (storage q)) + 1) ->
  driver_ring (driver_area (storage q)) !! Z.to_nat (device_idx (device_area (storage q)) mod Z.of_nat CONTROL_QUEUE) = Some (Z.of_nat h) ->
  descs q !! h = Some D0 -> desc_next D0 = Z.of_nat e -> descs q !! e = Some D1 ->
  served answer q memory h D0 D1 (device (q, memory)).1 (device (q, memory)).2.

Definition is_message (bs : list Z) : Prop := is_bytes bs /\ Z.of_nat (length bs) = MESSAGE_SIZE.

(** No command is under way, and [n] more can be sent before the indices
    reach the end of their 16 bits. *)
Record idle (n : Z) (q : Virtqueue) : Prop := {
  id_wf : queue_wf (T := list Z) CONTROL_QUEUE q;
  id_free : free q = seq 0 CONTROL_QUEUE;
  id_next : forall D, descs q !! 1%nat = Some D -> desc_next D = 0;
  id_device : device_idx (device_area (storage q)) = pop_index q;
  id_driver : driver_idx (driver_area (storage q)) = pop_index q;
  id_range : 0 <= pop_index q /\ pop_index q + n < 2 ^ 16;
  id_index : vq_index q < 2 ^ 8
}.

Section service.
Context (answer : list Z -> list Z) (device : Move) `{!ControlDevice answer device}.

Lemma send_control_ok message n q memory moves : is_message message -> idle (n + 1) q -> 0 <= n ->
  exists q' memory', send_control message (device :: moves) (q, memory) = Done (Some (moves, (q', memory'), answer message)) /\
    idle n q'.
Proof.
  intros Hm [Hq Hf Hn Hde Hdr Hr Hi] Hn0. set (messages := [DeviceRead message None; DeviceWrite] : list (VirtqueueMessage (list Z))).
  destruct (push_ok Message_default CONTROL_QUEUE q memory messages Hq) as (q1 & m1 & E & Hp & Hq1).
  { cbn. lia. }
  { rewrite Hf. cbn. lia. }
  { constructor; [exact Hm|]. constructor; [|constructor]. split; [|reflexivity]. apply Forall_replicate. unfold uint_range. lia. }
  destruct (pushed_chain Message_default CONTROL_QUEUE q memory messages q1 m1 Hq) as (d & D & Ed & ED & Hc);
    [rewrite Hf; cbn; lia|done|].
  destruct Hp as [Ha Hw Hring Hidx Hd Hpi Hix]. rewrite Hf in *. cbn in Ed. injection Ed as <-.
  rewrite (Hn D ED) in Hc. cbn [Z.eqb] in Hc. change (take _ _) with [0; 1]%nat in *.
  destruct Hc as (D0 & ED0 & Hnext & _ & D1 & ED1 & Hlast).
  pose proof (wf_size _ _ Hq) as Hsz.
  destruct (ControlDevice0 q1 m1 0%nat 1%nat D0 D1) as [Vi Vd Vdr Va Vp Vl Vidx (e & Vid & Vring) Vans]; [|..|done|exact Hnext|done|].
  { apply (wf_device_ring _ _ Hq1). }
  { rewrite Hidx, Hd, Hde, Hdr. done. }
  { rewrite Hring, Hd, Hde, Hdr. apply list_lookup_insert_eq. rewrite (wf_driver_ring _ _ Hq).
    pose proof (Z.mod_pos_bound (pop_index q) (Z.of_nat CONTROL_QUEUE)). unfold CONTROL_QUEUE in *. lia. }
  unfold send_control. cbn [fst snd]. fold messages. rewrite E. cbn [mbind exec_bind result_ok unwrap].
  unfold notify_device. rewrite Hix, (proj2 (Z.ltb_lt _ _)) by done. cbn [rust_assert mbind exec_bind wait_response].
  destruct (device (q1, m1)) as [q2 m2]. cbn [fst snd] in *.
  assert (wrap 16 (pop_index q + 1) = pop_index q + 1) as Hwrap by (apply wrap_small; unfold uint_range; lia).
  assert (length (available_descriptors q2) = CONTROL_QUEUE) as Hav by (rewrite Va; apply (wf_available _ _ Hq1)).
  rewrite (pop_ok CONTROL_QUEUE q2 m2 [1%nat] 0%nat e);
    [|rewrite Vidx, Hd, Hde, Vp, Hpi, Hwrap; lia|unfold next_used; rewrite Vp, Hpi, <-Hde, <-Hd; exact Vring|exact Vid
     |rewrite Vd; by exists D0; split; [|split; [|split; [|exists D1]]]
     |rewrite Hav; unfold CONTROL_QUEUE; repeat constructor; lia].
  unfold chain_values. cbn [omap list_omap]. rewrite Vd, ED0, ED1. cbn [mbind exec_bind fmap option_fmap option_map list_fmap lookup list_lookup unwrap].
  destruct (lookup_lt_is_Some_2 (descs q) 0) as [E0 HE0]; [rewrite (wf_descs _ _ Hq); unfold CONTROL_QUEUE; lia|].
  destruct (mw_desc _ _ _ _ _ _ _ _ Hw 0%nat 0%nat (DeviceRead message None) E0) as [HD0 Hread]; [cbn; lia|done|done|done|].
  rewrite ED0 in HD0. injection HD0 as HD0. cbn in Hread.
  eexists _, m2. split.
  - do 4 f_equal. unfold read_buffer. cbn [size_of from_bytes Pod_Message Pod_raw]. rewrite Vans. f_equal. rewrite HD0. exact Hread.
  - set (q3 := upd_pop_index _ _).
    assert (pop_index q3 = pop_index q + 1) as Hp3 by (unfold q3; cbn [pop_index upd_pop_index]; rewrite Vp, Hpi; apply wrap_small; unfold uint_range; lia).
    assert (available_descriptors q3 = available_descriptors q) as Ha3.
    { unfold q3. cbn [available_descriptors upd_pop_index upd_available]. rewrite Va, Ha. apply mark_back.
      intros i Hi'. apply elem_of_free. rewrite Hf. apply elem_of_seq. unfold CONTROL_QUEUE. set_solver by lia. }
    constructor.
    + apply (queue_wf_ext _ q1); [done|done|by rewrite Ha3, Ha, mark_length|by change (storage q3) with (storage q2); rewrite Vdr|].
      change (storage q3) with (storage q2). done.
    + by rewrite (free_ext q q3).
    + intros D' HD'. change (descs q3) with (descs q2) in HD'. rewrite Vd, ED1 in HD'. injection HD' as <-. done.
    + change (storage q3) with (storage q2). rewrite Vidx, Hd, Hde, Hp3, wrap_small; [done|unfold uint_range; lia].
    + change (storage q3) with (storage q2). rewrite Vdr, Hidx, Hdr, Hp3, wrap_small; [done|unfold uint_range; lia].
    + lia.
    + change (vq_index q3) with (vq_index q2). by rewrite Vi, Hix.
Qed.
(** ** Sequences of commands *)

Context (uninit : list Z) (uninit_ok : is_message uninit).

Definition reply (c : Command) : Z := ch_type (ControlHeader_from (answer (message_of uninit c))).

(** What the driver returns for a sequence of commands: the first reply that
    is not an acknowledgement. *)
Fixpoint replies (cs : list Command) : result unit Z :=
  match cs with
  | [] => Ok tt
  | c :: cs => if reply c =? ControlType_raw VIRTIO_GPU_RESP_OK_NODATA then replies cs else Err (reply c)
  end.

Definition command_ok (c : Command) : Prop := is_bytes (Command_bytes c) /\ Z.of_nat (length (Command_bytes c)) <= MESSAGE_SIZE.

Lemma message_of_ok c : command_ok c -> is_message (message_of uninit c).
Proof.
  intros [Hb Hl]. destruct uninit_ok as [Hub Hul]. split.
  - apply Forall_app. split; [done|]. by apply Forall_drop.
  - unfold message_of. rewrite length_app, length_drop. lia.
Qed.

Definition run_commands (cs : list Command) : Run (result unit Z) :=
  foldr (fun c k => run_try (send_control_without_response (message_of uninit c)) k) (mret (Ok tt)) cs.

Lemma run_commands_ok cs : Forall command_ok cs -> forall n q memory moves, 0 <= n -> idle (Z.of_nat (length cs) + n) q ->
  exists q' memory' moves', run_commands cs (replicate (length cs) device ++ moves) (q, memory) =
    Done (Some (moves', (q', memory'), replies cs)) /\ idle n q'.
Proof.
  induction 1 as [|c cs Hc _ IH]; intros n q memory moves Hn Hq; cbn [length replicate app run_commands foldr replies] in *.
  - exists q, memory, moves. by split; [|rewrite Z.add_0_l in Hq].
  - destruct (send_control_ok (message_of uninit c) (Z.of_nat (length cs) + n) q memory (replicate (length cs) device ++ moves))
      as (q1 & m1 & E1 & Hq1); [by apply message_of_ok|by replace (_ + 1) with (Z.of_nat (S (length cs)) + n) by lia|lia|].
    unfold run_try at 1, send_control_without_response. unfold mbind, Run_bind. rewrite E1. unfold reply.
    destruct (_ =? _); unfold mret, Run_ret; [by apply IH|].
    exists q1, m1, (replicate (length cs) device ++ moves). split; [done|]. destruct Hq1 as []. constructor; try done. lia.
Qed.

(** The five commands of the driver fit into a message. *)
Lemma commands_ok fb : Forall command_ok [create_command fb; attach_command fb; scanout_command fb; transfer_command fb; flush_command fb].
Proof.
  repeat (apply Forall_cons; split); try apply Forall_nil; split.
  all: cbn [Command_bytes create_command attach_command scanout_command transfer_command flush_command fmap list_fmap concat].
  all: unfold ControlHeader_bytes, Rect_bytes, MemEntry_bytes.
  all: rewrite ?length_app, ?le_split_length; try (cbn; unfold MESSAGE_SIZE, VIRTIO_GPU_MAX_SCANOUTS; lia).
  all: unfold is_bytes; repeat (apply Forall_app; split);
    first [apply le_split_bytes | cbn; repeat (apply Forall_cons; split; [unfold uint_range; lia|]); apply Forall_nil_2].
Qed.

(** The GPU driver is a remote procedure call: a framebuffer is set up by
    the create, attach and scanout commands in this order, each sent once the
    one before it is acknowledged; the first other reply ends the sequence
    and is returned. The queue is idle again afterwards, whatever the outcome. *)
Theorem initialize_framebuffer_sequence fb q memory moves : idle 3 q ->
  let fb' := (initialize_framebuffer uninit fb).1 in
  exists q' memory' moves', (initialize_framebuffer uninit fb).2 ([device; device; device] ++ moves) (q, memory) =
    Done (Some (moves', (q', memory'), replies [create_command fb'; attach_command fb'; scanout_command fb'])) /\ idle 0 q'.
Proof.
  intros Hq fb'. apply (run_commands_ok [create_command fb'; attach_command fb'; scanout_command fb']); [|lia|exact Hq].
  by apply (Forall_take _ 3 _ (commands_ok fb')).
Qed.

(** A flush transfers the framebuffer to the host, then flushes it. *)
Theorem flush_sequence fb q memory moves : idle 2 q ->
  exists q' memory' moves', gpu_flush uninit fb ([device; device] ++ moves) (q, memory) =
    Done (Some (moves', (q', memory'), replies [transfer_command fb; flush_command fb])) /\ idle 0 q'.
Proof.
  intros Hq. apply (run_commands_ok [transfer_command fb; flush_command fb]); [|lia|exact Hq].
  by apply (Forall_drop _ 3 _ (commands_ok fb)).
Qed.
End service.

(** ** Witnesses *)

(** A device that answers every command. *)
Definition simple_device (answer : list Z -> list Z) : Move := fun s =>
  let '(q, memory) := s in
  let a := device_area (storage q) in
  let i := Z.to_nat (device_idx a mod Z.of_nat CONTROL_QUEUE) in
  let h := default 0 (driver_ring (driver_area (storage q)) !! i) in
  let D0 := default VirtqueueDesc_ZERO (descs q !! Z.to_nat h) in
  let D1 := default VirtqueueDesc_ZERO (descs q !! Z.to_nat (desc_next D0)) in
  (mkVirtqueue (vq_index q) (mkStorage (descs q) (driver_area (storage q))
     (mkUsedRing (device_flags a) (wrap 16 (device_idx a + 1)) (<[i := mkUsedElement h 0]> (device_ring a)) (avail_event a)))
     (pop_index q) (notify_addr q) (available_descriptors q),
   write_memory memory (desc_addr D1) (answer (read_memory memory (desc_addr D0) MESSAGE_SIZE))).

Lemma simple_device_serves answer : (forall bs, Z.of_nat (length (answer bs)) = MESSAGE_SIZE) -> ControlDevice answer (simple_device answer).
Proof.
  intros Hans q memory h e D0 D1 Hl Hi Hr H0 Hn H1. unfold simple_device. rewrite Hr. cbn [default from_option id]. rewrite Nat2Z.id, H0.
  cbn [default from_option id]. rewrite Hn, Nat2Z.id, H1. cbn [default from_option id fst snd]. constructor; try done; cbn.
  - by rewrite length_insert.
  - exists (mkUsedElement (Z.of_nat h) 0). split; [done|]. apply list_lookup_insert_eq. rewrite Hl.
    pose proof (Z.mod_pos_bound (device_idx (device_area (storage q))) (Z.of_nat CONTROL_QUEUE)). unfold CONTROL_QUEUE in *. lia.
  - set (bs := answer _). rewrite <-(Hans (read_memory memory (desc_addr D0) MESSAGE_SIZE)). apply read_write_memory.
Qed.

Definition acknowledge (bs : list Z) : list Z := le_split 4 0x1100 ++ replicate 404 0.

#[local] Instance acknowledge_device : ControlDevice acknowledge (simple_device acknowledge).
Proof. by apply simple_device_serves. Qed.

Definition idle_queue : Virtqueue :=
  mkVirtqueue 0 (mkStorage ((fun i => mkDesc (4096 * i) 0 0 0) <$> seqZ 0 64) (mkAvailableRing 0 0 (replicate 64 0) 0)
    (mkUsedRing 0 0 (replicate 64 VirtqueueUsedElement_ZERO) 0)) 0 0 (replicate 64 true).

Lemma idle_queue_ok n : n < 2 ^ 16 -> idle n idle_queue.
Proof.
  intros Hn. constructor; try done.
  - constructor; try done. intros i j D E Hij HD HE. cbn [descs idle_queue storage descriptor_area] in HD, HE.
    rewrite list_lookup_fmap in HD, HE. destruct (seqZ 0 64 !! i) as [a|] eqn:Ea; [|done]. destruct (seqZ 0 64 !! j) as [b|] eqn:Eb; [|done].
    apply lookup_seqZ in Ea as [-> _], Eb as [-> _]. injection HD as <-. injection HE as <-. change (size_of (list Z)) with 408. cbn [desc_addr]. lia.
  - intros D [= <-]. done.
Qed.

Definition example_framebuffer : Framebuffer := mkFramebuffer 1 0x10000 [1; 2; 3; 4] 1 1.

Lemma initialize_framebuffer_sequence_witness : exists q' memory' moves',
  (initialize_framebuffer Message_default example_framebuffer).2
    [simple_device acknowledge; simple_device acknowledge; simple_device acknowledge] (idle_queue, mkBytes ∅ (fun _ => 0)) =
    Done (Some (moves', (q', memory'), Ok tt)) /\ idle 0 q'.
Proof.
  apply (initialize_framebuffer_sequence acknowledge (simple_device acknowledge)
    Message_default ltac:(split; [apply Forall_replicate; unfold uint_range; lia|done])
    example_framebuffer idle_queue (mkBytes ∅ (fun _ => 0)) []).
  apply idle_queue_ok. lia.
Defined.

Lemma flush_sequence_witness : exists q' memory' moves',
  gpu_flush Message_default example_framebuffer [simple_device acknowledge; simple_device acknowledge] (idle_queue, mkBytes ∅ (fun _ => 0)) =
    Done (Some (moves', (q', memory'), Ok tt)) /\ idle 0 q'.
Proof.
  apply (flush_sequence acknowledge (simple_device acknowledge)
    Message_default ltac:(split; [apply Forall_replicate; unfold uint_range; lia|done])
    example_framebuffer idle_queue (mkBytes ∅ (fun _ => 0)) []).
  apply idle_queue_ok. lia.
Defined.
