(* ===== verification/Memory.v ===== *)
(** * kernel/src/memory.rs: address spaces, kernel mappings and the tracker

    The kernel state gathers the globals of [memory.rs]: physical memory with
    its page tables, the global frame allocator, the active table (CR3), the
    kernel's own address space, the mapping offset and the memory tracker. An
    [AddressSpace] is its name, its level 4 frame and the frames its allocator
    proxy has taken. Mutexes are uncontended here and are not part of the
    state. *)

From Stdlib Require Import Lia.
From stdpp Require Import base numbers list option strings tactics gmap fin_sets sets.
From S2P Require Import Prelude BitUtils MemoryTypes FrameAllocator Paging Pci.

Local Open Scope Z_scope.
Local Open Scope u64_scope.

Local Notation "'let?' x := c 'in' k" := (mapper_bind c (fun x => k)) (at level 10, x name, c at level 100, k at level 200).

(** ** [FrameAllocatorProxy] *)

(** The proxy together with the global allocator it locks. *)
Record Proxy : Type := mkProxy { proxy_global : FrameAllocator; allocated_frames : list Frame }.

#[export] Instance Proxy_FrameAlloc : FrameAlloc Proxy := fun p =>
  '(fa, frame) ← allocate_frame (proxy_global p);
  Done (mkProxy fa (match frame with Some f => allocated_frames p ++ [f] | None => allocated_frames p end), frame).

(** [Drop]: deallocation errors are ignored. *)
Definition Proxy_drop (p : Proxy) : exec FrameAllocator :=
  for_each (allocated_frames p) (fun f fa => '(fa', _) ← FrameAllocator_deallocate fa f; Done fa') (proxy_global p).

(** ** Kernel state *)

Record AddressSpace : Type := mkSpace {
  space_name : string;
  space_frame : Frame;
  space_allocated : list Frame
}.

Record MemoryTracker : Type := mkTracker {
  spaces : gmap (string * Frame) (list (string * PageRange));
  kernel_pages : PageRange;
  framebuffer_pages : PageRange;
  pci_bars : gmap BarSlot PageRange
}.

Record Kernel : Type := mkKernel {
  k_mem : pmem;
  k_frames : FrameAllocator;
  k_flushed : list Page;
  k_cr3 : Frame;
  k_space : AddressSpace;
  KERNEL_MAPPING_OFFSET : Z;
  TRACKER : MemoryTracker
}.

Definition KERNEL_HEAP_BASE : Z := to_raw (Address_from_table_indices KERNEL_HEAP_L4_INDEX 0 0 0).
Definition KERNEL_MAPPING_BASE : Z := to_raw (Address_from_table_indices KERNEL_MAPPING_L4_INDEX 0 0 0).

Definition set_tracker (k : Kernel) (t : MemoryTracker) : Kernel :=
  mkKernel (k_mem k) (k_frames k) (k_flushed k) (k_cr3 k) (k_space k) (KERNEL_MAPPING_OFFSET k) t.
Definition set_kernel_space (k : Kernel) (s : AddressSpace) : Kernel :=
  mkKernel (k_mem k) (k_frames k) (k_flushed k) (k_cr3 k) s (KERNEL_MAPPING_OFFSET k) (TRACKER k).
Definition set_offset (k : Kernel) (o : Z) : Kernel :=
  mkKernel (k_mem k) (k_frames k) (k_flushed k) (k_cr3 k) (k_space k) o (TRACKER k).
Definition set_cr3 (k : Kernel) (f : Frame) : Kernel :=
  mkKernel (k_mem k) (k_frames k) (k_flushed k) f (k_space k) (KERNEL_MAPPING_OFFSET k) (TRACKER k).

(** The page-table state an address space works on, and back. *)
Definition space_pt (k : Kernel) (s : AddressSpace) : ptstate Proxy :=
  mkPt (k_mem k) (mkProxy (k_frames k) (space_allocated s)) (k_flushed k).
Definition pt_kernel (k : Kernel) (t : ptstate Proxy) : Kernel :=
  mkKernel (pt_mem t) (proxy_global (pt_alloc t)) (pt_flushed t) (k_cr3 k) (k_space k) (KERNEL_MAPPING_OFFSET k) (TRACKER k).
Definition pt_space (s : AddressSpace) (t : ptstate Proxy) : AddressSpace :=
  mkSpace (space_name s) (space_frame s) (allocated_frames (pt_alloc t)).

(** ** [MemoryTracker] *)

Definition empty_range : PageRange := PageRange_new (Page_new 0) (Page_new 0).
Definition MemoryTracker_new : MemoryTracker := mkTracker ∅ empty_range empty_range ∅.

(** [spaces.entry(key).or_insert(Vec::new()).push(value)]. *)
Definition tracker_push (t : MemoryTracker) (key : string * Frame) (value : string * PageRange) : MemoryTracker :=
  mkTracker (<[key := default [] (spaces t !! key) ++ [value]]> (spaces t)) (kernel_pages t) (framebuffer_pages t) (pci_bars t).

Definition tracker_remove (t : MemoryTracker) (key : string * Frame) : MemoryTracker :=
  mkTracker (delete key (spaces t)) (kernel_pages t) (framebuffer_pages t) (pci_bars t).

Definition register_pci_bar (t : MemoryTracker) (device : Device) (slot : Z) (pages : PageRange) : MemoryTracker :=
  mkTracker (spaces t) (kernel_pages t) (framebuffer_pages t) (<[BarSlot_from_device device slot := pages]> (pci_bars t)).

(** The test of [get_pci_bar]'s [find]; the order in which a hash map is
    searched is unspecified, here it is that of [map_to_list]. *)
Definition bar_contains (addr : Address) (pages : PageRange) : bool :=
  (page_number (range_start pages) <=? page_number (Address_page addr)) &&
  (page_number (Address_page addr) <? page_number (range_end pages)).

Definition get_pci_bar (t : MemoryTracker) (addr : Address) : option (BarSlot * PageRange) :=
  snd <$> list_find (fun '(_, pages) => bar_contains addr pages = true) (map_to_list (pci_bars t)).

(** [memory::init]'s loop over the six slots of a device, with the flag that
    skips the upper half of a 64-bit BAR. *)
Definition bar_pages (bar : Bar) : option (exec PageRange) :=
  match bar with
  | Mem32 address size _ | Mem64 address size _ => Some (PageRange_from_base_size (Address_new address) size)
  | Io _ => None
  end.

Fixpoint register_bars {W} `{Ports W} (device : Device) (slots : list Z) (prev_was_64 : bool) (t : MemoryTracker) (w : W)
  : exec (MemoryTracker * W) :=
  match slots with
  | [] => Done (t, w)
  | slot :: rest =>
      if prev_was_64 then register_bars device rest false t w
      else
        '(w, o) ← Device_bar device w slot;
        match o with
        | None => register_bars device rest false t w
        | Some bar =>
            let prev_was_64 := match bar with Mem64 _ _ _ => true | _ => false end in
            match bar_pages bar with
            | None => register_bars device rest prev_was_64 t w
            | Some pages => pages ← pages; register_bars device rest prev_was_64 (register_pci_bar t device slot pages) w
            end
        end
  end.

(** ** The pages of a range, in the order of its iterator *)

Definition PageRange_pages (r : PageRange) : list Page :=
  Page_new <$> seqZ (page_number (range_start r)) (page_number (range_end r) - page_number (range_start r)).

(** ** [AddressSpace] *)

(** The loop of [map_pages]. *)
Fixpoint map_pages_loop (l4 : Frame) (pages : list Page) (flags : Z) : mapper (A := Proxy) unit :=
  match pages with
  | [] => mapper_ret tt
  | page :: rest =>
      let? o := mapper_alloc in
      let? frame := mapper_exec (unwrap o) in
      fun s =>
        '(s, r) ← map_to l4 page frame flags s;
        match r with
        | Ok fl => map_pages_loop l4 rest flags (flush s fl)
        | Err (PageAlreadyMapped to) =>
            if decide (to = frame) then map_pages_loop l4 rest flags s else Done (s, Err (PageAlreadyMapped to))
        | Err error => Done (s, Err error)
        end
  end.

Definition AddressSpace_map_pages (k : Kernel) (self : AddressSpace) (name : string) (pages : PageRange) (flags : Z)
  : exec (Kernel * AddressSpace * result unit MappingError) :=
  '(t, r) ← map_pages_loop (space_frame self) (PageRange_pages pages) flags (space_pt k self);
  let k := pt_kernel k t in
  let self := pt_space self t in
  match r with
  | Ok _ => Done (set_tracker k (tracker_push (TRACKER k) (space_name self, space_frame self) (name, pages)), self, Ok tt)
  | Err e => Done (k, self, Err e)
  end.

Fixpoint map_pages_untracked_loop (l4 : Frame) (pages : list Page) (flags : Z) : mapper (A := Proxy) unit :=
  match pages with
  | [] => mapper_ret tt
  | page :: rest =>
      let? o := mapper_alloc in
      let? frame := mapper_exec (unwrap o) in
      let? fl := map_to l4 page frame flags in
      let? _ := mapper_flush fl in
      map_pages_untracked_loop l4 rest flags
  end.

Definition AddressSpace_map_pages_untracked (k : Kernel) (self : AddressSpace) (pages : PageRange) (flags : Z)
  : exec (Kernel * AddressSpace * result unit MappingError) :=
  '(t, r) ← map_pages_untracked_loop (space_frame self) (PageRange_pages pages) flags (space_pt k self);
  Done (pt_kernel k t, pt_space self t, r).

Definition AddressSpace_set_flags (k : Kernel) (self : AddressSpace) (pages : PageRange) (flags : Z)
  : exec (Kernel * AddressSpace * result unit MappingError) :=
  '(t, r) ← set_flags (space_frame self) pages flags (space_pt k self);
  Done (pt_kernel k t, pt_space self t, r).

(** The loop of [map_kernel_pages_to], over the zipped pages. *)
Fixpoint map_kernel_pages_loop (l4 kernel_l4 : Frame) (pages : list (Page * Page)) (flags : Z) : mapper (A := Proxy) unit :=
  match pages with
  | [] => mapper_ret tt
  | (local_page, kernel_page) :: rest => fun s =>
      r ← translate_page (pt_mem s) kernel_l4 kernel_page;
      frame ← unwrap (result_ok r);
      (let? fl := map_to l4 local_page frame flags in
       let? _ := mapper_flush fl in
       map_kernel_pages_loop l4 kernel_l4 rest flags) s
  end.

Definition AddressSpace_map_kernel_pages_to (k : Kernel) (self : AddressSpace) (kernel_pages local_pages : PageRange) (flags : Z)
  : exec (Kernel * AddressSpace * result unit MappingError) :=
  _ ← rust_assert (Nat.eqb (length (PageRange_pages kernel_pages)) (length (PageRange_pages local_pages)));
  '(t, r) ← map_kernel_pages_loop (space_frame self) (space_frame (k_space k))
    (zip (PageRange_pages local_pages) (PageRange_pages kernel_pages)) flags (space_pt k self);
  Done (pt_kernel k t, pt_space self t, r).

Definition AddressSpace_translate_address (k : Kernel) (self : AddressSpace) (addr : Address) : exec (option Address) :=
  r ← translate_addr (k_mem k) (space_frame self) addr;
  match result_ok r with
  | Some res => a ← Address_add (Frame_base_addr (tr_frame res)) (tr_offset res); Done (Some a)
  | None => Done None
  end.

Definition AddressSpace_translate_page (k : Kernel) (self : AddressSpace) (page : Page) : exec (option Frame) :=
  r ← translate_page (k_mem k) (space_frame self) page; Done (result_ok r).

Definition is_current (k : Kernel) (self : AddressSpace) : bool :=
  to_raw (Frame_base_addr (k_cr3 k)) =? to_raw (Frame_base_addr (space_frame self)).

Definition enter (k : Kernel) (self : AddressSpace) : Kernel := set_cr3 k (space_frame self).

(** [dst[i] = src[i].clone()] for the given indices. *)
Definition copy_entries (m : pmem) (src dst : Frame) (indices : list Z) : pmem :=
  fold_left (fun m i => mwrite m (frame_number dst) i (mread m (frame_number src) i)) indices m.

(** The entries the new table takes over: all of them from the parent
    ([copy_nonoverlapping] of one page), or the physical half and the kernel
    heap from the kernel's table. *)
Definition inherited_indices (inherit : option AddressSpace) : list Z :=
  match inherit with
  | Some _ => seqZ 0 ENTRIES_PER_PAGE_TABLE
  | None => seqZ 0 (MAX_PHYSICAL_L4_INDEX + 1) ++ [KERNEL_HEAP_L4_INDEX]
  end.

Definition AddressSpace_new (k : Kernel) (name : string) (inherit : option AddressSpace) : exec (Kernel * AddressSpace) :=
  _ ← rust_assert (is_current k (k_space k));
  '(p, o) ← allocate_frame (mkProxy (k_frames k) []);
  frame ← unwrap o;
  let m := PageTable_clear (k_mem k) frame in
  let src := match inherit with Some parent => space_frame parent | None => space_frame (k_space k) end in
  let m := copy_entries m src frame (inherited_indices inherit) in
  Done (mkKernel m (proxy_global p) (k_flushed k) (k_cr3 k) (k_space k) (KERNEL_MAPPING_OFFSET k) (TRACKER k),
        mkSpace name frame (allocated_frames p)).

(** [Drop for AddressSpace], then the drop of its allocator proxy. *)
Definition AddressSpace_drop (k : Kernel) (self : AddressSpace) : exec Kernel :=
  let k := set_tracker k (tracker_remove (TRACKER k) (space_name self, space_frame self)) in
  fa ← Proxy_drop (mkProxy (k_frames k) (space_allocated self));
  Done (mkKernel (k_mem k) fa (k_flushed k) (k_cr3 k) (k_space k) (KERNEL_MAPPING_OFFSET k) (TRACKER k)).

(** ** [KernelMapping] *)

Record KMapping : Type := mkMapping {
  mapping_name : string;
  mapping_size : Z;
  mapping_pages : PageRange;
  mapping_flags : Z
}.

Definition KernelMapping_new (k : Kernel) (name : string) (size_in_bytes flags : Z) : exec (Kernel * KMapping) :=
  let addr := Address_new (KERNEL_MAPPING_OFFSET k) in
  let k := set_offset k (KERNEL_MAPPING_OFFSET k ⊞ (div_ceil size_in_bytes PAGE_SIZE ⊠ PAGE_SIZE)) in
  pages ← PageRange_from_base_len addr (div_ceil size_in_bytes PAGE_SIZE);
  _ ← rust_assert (PageRange_len pages =? div_ceil size_in_bytes PAGE_SIZE);
  '(k, space, r) ← AddressSpace_map_pages k (k_space k) name pages flags;
  match r with
  | Ok _ => Done (set_kernel_space k space, mkMapping name size_in_bytes pages flags)
  | Err _ => Panic
  end.

Definition KernelMapping_addr (m : KMapping) : Address := Page_base_addr (range_start (mapping_pages m)).

(** The slice [as_slice_mut] returns, as its start and length. *)
Definition KernelMapping_as_slice_mut (k : Kernel) (m : KMapping) (offset len : Z) : exec (Address * Z) :=
  _ ← rust_assert (is_current k (k_space k));
  _ ← rust_assert (offset ⊞ len <=? mapping_size m);
  addr ← Address_add (KernelMapping_addr m) offset;
  Done (addr, len).

(** The address of the [T] of the given size that [as_mut] returns. *)
Definition KernelMapping_as_mut (m : KMapping) (size_of_T offset : Z) : exec Address :=
  _ ← rust_assert (size_of_T ⊞ offset <=? mapping_size m);
  addr ← Address_add (KernelMapping_addr m) offset;
  if is_null addr then Panic else Done addr.

Definition KernelMapping_map_into (k : Kernel) (m : KMapping) (space : AddressSpace) (pages : PageRange) (flags : Z)
  : exec (Kernel * AddressSpace * result unit MappingError) :=
  '(k, space, r) ← AddressSpace_map_kernel_pages_to k space (mapping_pages m) pages flags;
  match r with
  | Err e => Done (k, space, Err e)
  | Ok _ => Done (set_tracker k (tracker_push (TRACKER k) (space_name space, space_frame space) (mapping_name m, pages)), space, Ok tt)
  end.

(** [mappings.iter_mut().find(|(name, _)| name == ..).expect(..)], then the
    assignment of its end. *)
Fixpoint set_mapping_end (mappings : list (string * PageRange)) (name : string) (end_ : Page) : exec (list (string * PageRange)) :=
  match mappings with
  | [] => Panic
  | (n, r) :: rest =>
      if decide (n = name) then Done ((n, mkRange (range_start r) end_) :: rest)
      else rest' ← set_mapping_end rest name end_; Done ((n, r) :: rest')
  end.

Definition KernelMapping_extend (k : Kernel) (m : KMapping) (space : AddressSpace) (user_pages : PageRange)
  : exec (Kernel * KMapping * AddressSpace * result unit MappingError) :=
  new_kernel_end_page ← Page_add (range_end (mapping_pages m)) (PageRange_len user_pages);
  let kernel_pages_to_map := PageRange_new (range_end (mapping_pages m)) new_kernel_end_page in
  let k := set_offset k (KERNEL_MAPPING_OFFSET k ⊞ (PageRange_len kernel_pages_to_map ⊠ PAGE_SIZE)) in
  '(k, kspace, r) ← AddressSpace_map_pages_untracked k (k_space k) kernel_pages_to_map (mapping_flags m);
  let k := set_kernel_space k kspace in
  match r with
  | Err e => Done (k, m, space, Err e)
  | Ok _ =>
      '(k, space, r) ← AddressSpace_map_kernel_pages_to k space kernel_pages_to_map user_pages (mapping_flags m);
      match r with
      | Err e => Done (k, m, space, Err e)
      | Ok _ =>
          let m := mkMapping (mapping_name m) (mapping_size m)
            (mkRange (range_start (mapping_pages m)) new_kernel_end_page) (mapping_flags m) in
          let key := (space_name space, space_frame space) in
          match spaces (TRACKER k) !! key with
          | Some mappings =>
              mappings' ← set_mapping_end mappings (mapping_name m) new_kernel_end_page;
              Done (set_tracker k (mkTracker (<[key := mappings']> (spaces (TRACKER k))) (kernel_pages (TRACKER k)) (framebuffer_pages (TRACKER k)) (pci_bars (TRACKER k))),
                    m, space, Ok tt)
          | None => Done (k, m, space, Ok tt)
          end
      end
  end.

(** [init_kernel_address_space]: the kernel adopts the active table. *)
Definition init_kernel_address_space (cr3 : Frame) : exec AddressSpace :=
  o ← Frame_from_base_addr (Address_new (to_raw (Frame_base_addr cr3)));
  frame ← unwrap o;
  Done (mkSpace "" frame []).

(** [FRAMEBUFFER_MAPPING], created by hand over pages that are mapped. *)
Definition framebuffer_mapping (addr size : Z) : exec KMapping :=
  pages ← PageRange_from_base_size (Address_new addr) size;
  Done (mkMapping "framebuffer" size pages (Z.lor PRESENT WRITABLE)).

(** ** [memory::init]: the frame allocator and the kernel heap *)

Record BootInfo : Type := mkBootInfo {
  kernel_start : Z;
  kernel_end : Z;
  memory_map : list MemoryRegion;
  framebuffer_addr : Z;
  framebuffer_size : Z
}.

Definition initial_frame_allocation_test (fa : FrameAllocator) : exec FrameAllocator :=
  '(fa, r) ← FrameAllocator_allocate fa;
  match r with
  | Ok frame =>
      '(fa, r) ← FrameAllocator_deallocate fa frame;
      match r with Ok _ => Done fa | Err _ => Panic end
  | Err _ => Panic
  end.

(** The free frames counted before the test, and the allocator after it. *)
Definition init_frames (b : BootInfo) (fa : FrameAllocator) : exec (FrameAllocator * Z) :=
  fa ← FrameAllocator_init (memory_map b) fa;
  fa ← reserve_range (Address_new 0) MEBIBYTE fa;
  fa ← reserve_range (Address_new (kernel_start b)) (kernel_end b ⊟ kernel_start b) fa;
  fa ← reserve_range (Address_new (framebuffer_addr b)) (framebuffer_addr b ⊞ framebuffer_size b) fa;
  let free := free_frames fa in
  fa ← initial_frame_allocation_test fa;
  _ ← rust_assert (64 * MEBIBYTE <? free ⊠ PAGE_SIZE);
  Done (fa, free).

Definition MemoryTracker_init (b : BootInfo) (t : MemoryTracker) : exec MemoryTracker :=
  kp ← PageRange_from_base_size (Address_new (kernel_start b)) (kernel_end b ⊟ kernel_start b);
  fp ← PageRange_from_base_size (Address_new (framebuffer_addr b)) (framebuffer_size b);
  Done (mkTracker (spaces t) kp fp (pci_bars t)).

Definition KERNEL_HEAP_SIZE : Z := 32 * MEBIBYTE.

(** The heap loop, on the global allocator itself: any failure panics. *)
Fixpoint init_heap_loop (l4 : Frame) (pages : list Page) (s : ptstate FrameAllocator) : exec (ptstate FrameAllocator) :=
  match pages with
  | [] => Done s
  | page :: rest =>
      '(a, o) ← allocate_frame (pt_alloc s);
      frame ← unwrap o;
      '(s, r) ← map_to l4 page frame (flags_bitor PRESENT WRITABLE) (mkPt (pt_mem s) a (pt_flushed s));
      fl ← unwrap (result_ok r);
      init_heap_loop l4 rest (flush s fl)
  end.

Definition init_heap (k : Kernel) : exec (ptstate FrameAllocator) :=
  heap_pages ← PageRange_from_base_size (Address_new KERNEL_HEAP_BASE) KERNEL_HEAP_SIZE;
  init_heap_loop (space_frame (k_space k)) (PageRange_pages heap_pages) (mkPt (k_mem k) (k_frames k) (k_flushed k)).

(** ** Lemmas: the proxy implements the allocator's contract *)

#[export] Program Instance Proxy_laws : FrameAllocLaws Proxy := {|
  alloc_inv p := fa_inv (proxy_global p);
  avail p := free_set (bitmap (proxy_global p))
|}.
Next Obligation. intros p n Hinv Hn. exact (avail_physical (proxy_global p) n Hinv Hn). Qed.
Next Obligation.
  intros p Hinv. destruct (@allocate_frame_spec FrameAllocator _ FrameAllocator_laws (proxy_global p) Hinv) as (fa & o & E & Hinv' & Ho).
  unfold allocate_frame at 1, Proxy_FrameAlloc. rewrite E. cbn [mbind exec_bind].
  eexists _, _. split; [reflexivity|]. split; [done|]. destruct o as [f|]; [done|].
  destruct Ho as [Ha ->]. split; [exact Ha|]. by destruct p.
Qed.

(** ** Lemmas: [map_pages] *)

Lemma pt_wf_shrink m root av av' : av' ⊆ av -> pt_wf m root av -> pt_wf m root av'.
Proof. intros Hs Hwf. apply (same_tables_wf m m root av); [done|apply Hwf|done..]. Qed.

Section MapPages.
Context {A : Type} {alloc_ops : FrameAlloc A} {alloc_laws : FrameAllocLaws A} (root : Frame) (flags : Z) (Hflags : map_flags flags).
Implicit Types s : ptstate A.

(** Taking a frame for the page itself. *)
Lemma take_frame s : pt_inv root s -> avail (pt_alloc s) <> ∅ ->
  exists f a, allocate_frame (pt_alloc s) = Done (a, Some f) /\ frame_number f ∈ avail (pt_alloc s) /\
    frame_number f ∉ avail a /\ pt_inv root (mkPt (pt_mem s) a (pt_flushed s)) /\ takes 1 s (mkPt (pt_mem s) a (pt_flushed s)).
Proof.
  intros [Ha Hwf] Hne. destruct (allocate_frame_spec (pt_alloc s) Ha) as (a & [f|] & E & Ha' & Ho); [|by destruct Ho].
  destruct Ho as [Hin Hav]. exists f, a. split; [done|]. split; [done|].
  split; [rewrite Hav, elem_of_difference, elem_of_singleton; tauto|].
  split; [split; [done|]|by apply (takes_one s _ (frame_number f))].
  cbn [pt_mem pt_alloc]. eapply pt_wf_shrink; [|done]. rewrite Hav. set_solver.
Qed.

Definition fresh_leaf s s' (v : Z) : Prop :=
  entry_flags v = flags /\ frame_number (entry_frame_of v) ∈ avail (pt_alloc s) /\
  frame_number (entry_frame_of v) ∉ avail (pt_alloc s').

(** What mapping a list of pages does to every page: mapped pages keep their
    entry, the unmapped pages of the list get a fresh frame, the others stay
    unmapped. *)
Definition pages_mapped s s' (pages : list Page) : Prop :=
  forall q, canonical_page q ->
    match page_view root s q with
    | Ok v => page_view root s' q = Ok v
    | Err e => (q ∈ pages /\ exists v, page_view root s' q = Ok v /\ fresh_leaf s s' v) \/
               (q ∉ pages /\ page_view root s' q = Err e)
    end.

(** No two newly mapped pages share a frame. *)
Definition pages_distinct s s' : Prop :=
  forall q1 q2 v1 v2 e1 e2, canonical_page q1 -> canonical_page q2 -> q1 <> q2 ->
    page_view root s q1 = Err e1 -> page_view root s q2 = Err e2 ->
    page_view root s' q1 = Ok v1 -> page_view root s' q2 = Ok v2 ->
    entry_frame_of v1 <> entry_frame_of v2.

(** The same for one page. *)
Definition page_mapped s s' (page : Page) : Prop :=
  forall q, canonical_page q ->
    match page_view root s q with
    | Ok v => page_view root s' q = Ok v
    | Err e => if decide (q = page) then exists v, page_view root s' q = Ok v /\ fresh_leaf s s' v else page_view root s' q = Err e
    end.

(** One page: taken frame, then [map_to]. *)
Lemma map_one_page s page : pt_inv root s -> canonical_page page -> page_view root s page <> Err TranslationHugePage ->
  1 + missing_tables root s (Page_l4_index page) (Page_l3_index page) (Page_l2_index page) < Z.of_nat (size (avail (pt_alloc s))) ->
  exists f a s' r, allocate_frame (pt_alloc s) = Done (a, Some f) /\
    map_to root page f flags (mkPt (pt_mem s) a (pt_flushed s)) = Done (s', r) /\
    pt_inv root s' /\ takes (1 + missing_tables root s (Page_l4_index page) (Page_l3_index page) (Page_l2_index page)) s s' /\
    (forall q h, path 3 q -> walk (pt_mem s) (frame_number root) q = Ok h -> walk (pt_mem s') (frame_number root) q = Ok h) /\
    page_mapped s s' page /\
    r = match page_view root s page with Ok _ => Err (PageAlreadyMapped f) | Err _ => Ok (mkFlush page) end.
Proof.
  intros Hinv Hc Hnh Hsz. pose proof (missing_tables_bound root s (Page_l4_index page) (Page_l3_index page) (Page_l2_index page)) as Hmb.
  destruct (take_frame s Hinv) as (f & a & Ea & Hf & Hfa & Hinv1 & K1).
  { intros E. rewrite E, size_empty in Hsz. lia. }
  set (s1 := mkPt (pt_mem s) a (pt_flushed s)) in *. destruct Hinv as [Ha Hwf]. pose proof (avail_physical _ _ Ha Hf) as Hphys.
  destruct (map_to_spec root s1 page f flags Hinv1 Hflags Hphys) as (s' & r & E & Hinv' & K & Hwalk & Hr).
  pose proof (takes_trans _ _ _ _ _ K1 K) as K14. change (missing_tables root s1) with (missing_tables root s) in K14.
  exists f, a, s', r. split; [done|]. split; [done|]. split; [done|]. split; [done|]. split; [exact Hwalk|].
  change (page_view root s1 page) with (page_view root s page) in Hr.
  assert (Hext : pt_extends root s1 s' -> forall q, page_view root s' q = page_view root s q).
  { intros X q. destruct (page_indices q) as (?&?&?&?). by apply (ext_view _ _ _ X). }
  destruct (page_view root s page) as [v|e] eqn:Ev.
  { destruct Hr as [-> X]. split; [|done]. intros q Hq. rewrite (Hext X). destruct (page_view root s q) eqn:Eq; [done|].
    rewrite decide_False; [done|]. intros ->. congruence. }
  assert (Hr' : r = Ok (mkFlush page) /\ exists v, leaf_of v f flags /\ forall q, canonical_page q ->
      page_view root s' q = if decide (q = page) then Ok v else page_view root s q).
  { assert (Hno : avail (pt_alloc s') <> ∅) by (intros Hav; destruct K14 as [_ K14]; rewrite Hav, size_empty in K14; lia).
    destruct e; [|done|]; (destruct Hr as [(_ & Hav & _)|[-> (v & Hv & Hview)]]; [done|]).
    all: split; [done|]; exists v; split; [done|]; intros q Hq; destruct (page_indices q) as (?&?&?&?); unfold page_view at 1; rewrite Hview by done.
    all: destruct (decide (q = page)) as [->|Hne]; [by rewrite decide_True|rewrite decide_False; [done|]; intros Hi; by apply Hne, page_indices_inj]. }
  destruct Hr' as [-> (v & Hv & Hview)]. split; [|done]. destruct (leaf_of_frame v f flags Hflags Hphys Hv) as [Hvf Hvfl].
  intros q Hq. rewrite Hview by done. destruct (decide (q = page)) as [->|Hne]; [|by destruct (page_view root s q)].
  rewrite Ev. exists v. split; [done|]. split; [done|]. rewrite Hvf. split; [done|]. intros Hin. apply Hfa. by apply K.
Qed.

(** A page, then the rest of the list. *)
Lemma pages_mapped_cons s s1 s' page pages : avail (pt_alloc s1) ⊆ avail (pt_alloc s) -> avail (pt_alloc s') ⊆ avail (pt_alloc s1) ->
  page_mapped s s1 page -> pages_mapped s1 s' pages -> pages_distinct s1 s' -> pages_mapped s s' (page :: pages) /\ pages_distinct s s'.
Proof.
  clear Hflags. intros S1 S2 Hview1 Hmap Hdist. split.
  - intros q Hcq. specialize (Hview1 q Hcq). specialize (Hmap q Hcq).
    destruct (page_view root s q) as [v|e]; [by rewrite Hview1 in Hmap|]. destruct (decide (q = page)) as [->|Hne].
    + destruct Hview1 as (v & Hv & Hfr1 & Hfr2 & Hfr3). rewrite Hv in Hmap. left. split; [by left|]. exists v. split; [done|].
      split; [done|]. split; [done|]. set_solver.
    + rewrite Hview1 in Hmap. destruct Hmap as [(Hin & v & Hv & Hfr1 & Hfr2 & Hfr3)|[Hnin Hv]].
      * left. split; [by right|]. exists v. split; [done|]. split; [done|]. split; [set_solver|done].
      * right. split; [|done]. by intros [?|?]%elem_of_cons.
  - intros q1 q2 v1 v2 e1 e2 C1 C2 Hne V1 V2 W1 W2.
    pose proof (Hview1 q1 C1) as X1. pose proof (Hview1 q2 C2) as X2. rewrite V1 in X1. rewrite V2 in X2.
    pose proof (Hmap q1 C1) as M1. pose proof (Hmap q2 C2) as M2.
    destruct (decide (q1 = page)) as [->|N1'], (decide (q2 = page)) as [->|N2'].
    + done.
    + destruct X1 as (u & Hu & _ & _ & Hnot). rewrite Hu in M1. rewrite X2 in M2.
      destruct M2 as [(_ & w & Hw & _ & Hin & _)|[_ ?]]; [|congruence].
      intros Heq. apply Hnot. congruence.
    + destruct X2 as (u & Hu & _ & _ & Hnot). rewrite Hu in M2. rewrite X1 in M1.
      destruct M1 as [(_ & w & Hw & _ & Hin & _)|[_ ?]]; [|congruence].
      intros Heq. apply Hnot. congruence.
    + eapply (Hdist q1 q2); eauto.
Qed.

Lemma pages_mapped_nil s : pages_mapped s s [] /\ pages_distinct s s.
Proof.
  split; [|by intros ???????????; congruence]. intros q Hc. destruct (page_view root s q); [done|]. right. split; [apply not_elem_of_nil|done].
Qed.

(** The next pages still satisfy what the loop asks for. *)
Lemma page_mapped_not_huge s s1 page q : page_mapped s s1 page -> canonical_page q -> page_view root s q <> Err TranslationHugePage ->
  page_view root s1 q <> Err TranslationHugePage.
Proof.
  intros Hm Hq Hn. specialize (Hm q Hq). destruct (page_view root s q) as [v|e]; [congruence|]. destruct (decide _); [destruct Hm as (? & ? & _)|]; congruence.
Qed.
End MapPages.

Lemma map_pages_loop_spec (root : Frame) (flags : Z) (Hflags : map_flags flags) pages : forall s, pt_inv root s ->
  (forall q, q ∈ pages -> canonical_page q /\ page_view root s q <> Err TranslationHugePage) ->
  4 * Z.of_nat (length pages) < Z.of_nat (size (avail (pt_alloc s))) ->
  exists s', map_pages_loop root pages flags s = Done (s', Ok tt) /\ pt_inv root s' /\
    takes (4 * Z.of_nat (length pages)) s s' /\ pages_mapped root flags s s' pages /\ pages_distinct root s s'.
Proof.
  induction pages as [|page pages IH]; intros s Hinv Hq Hsz.
  { exists s. split; [done|]. split; [done|]. split; [by apply takes_same|]. apply pages_mapped_nil. }
  destruct (Hq page) as [Hc Hnh]; [by left|]. cbn [length] in Hsz.
  pose proof (missing_tables_bound root s (Page_l4_index page) (Page_l3_index page) (Page_l2_index page)) as Hmb.
  destruct (map_one_page root flags Hflags s page Hinv Hc Hnh) as (f & a & s1 & r & Ea & Em & Hinv1 & K1 & _ & Hm1 & Hr); [lia|].
  cbn [map_pages_loop]. unfold mapper_alloc, mapper_exec, mapper_bind. rewrite Ea. cbn [mbind exec_bind unwrap]. rewrite Em. cbn [mbind exec_bind].
  set (s2 := match r with Ok fl => flush s1 fl | Err _ => s1 end).
  assert (Hs2 : pt_mem s2 = pt_mem s1 /\ pt_alloc s2 = pt_alloc s1) by (subst s2; by destruct r). destruct Hs2 as [Hmem2 Hal2].
  assert (Hm2 : page_mapped root flags s s2 page).
  { unfold page_mapped, page_view, fresh_leaf in *. rewrite Hmem2, Hal2. exact Hm1. }
  destruct (IH s2) as (s' & E & Hinv' & [S2 N2] & Hmap & Hdist).
  { unfold pt_inv. by rewrite Hmem2, Hal2. }
  { intros q Hin. destruct (Hq q) as [Hcq Hnq]; [by right|]. split; [done|]. by eapply page_mapped_not_huge. }
  { rewrite Hal2. destruct K1. lia. }
  destruct K1 as [S1 N1]. rewrite Hal2 in S2, N2. exists s'. split; [|split; [done|]].
  { unfold s2 in E. rewrite Hr in E |- *. destruct (page_view root s page); [rewrite decide_True by done|]; exact E. }
  split; [split; [set_solver|cbn [length]; lia]|]. apply (pages_mapped_cons root flags s s2); [by rewrite Hal2|by rewrite Hal2|done..].
Qed.

(** ** Lemmas: creating and dropping address spaces *)

Lemma copy_entries_read src dst l : frame_number src <> frame_number dst -> forall m h j,
  mread (copy_entries m src dst l) h j =
  if decide (h = frame_number dst /\ j ∈ l) then mread m (frame_number src) j else mread m h j.
Proof.
  intros Hne. unfold copy_entries. induction l as [|i l IH]; intros m h j; cbn [fold_left].
  { rewrite decide_False; [done|]. by intros [_ []%not_elem_of_nil]. }
  rewrite IH, !mread_mwrite. rewrite (decide_False (P := (frame_number src, j) = _)) by (intros [= ? _]; congruence).
  destruct (decide (h = frame_number dst /\ j ∈ l)) as [[? ?]|Hn].
  - rewrite decide_True; [done|]. split; [done|by right].
  - destruct (decide ((h, j) = (frame_number dst, i))) as [[= -> ->]|Hne'].
    + rewrite decide_True; [done|]. split; [done|by left].
    + rewrite decide_False; [done|]. intros [-> [->|?]%elem_of_cons]; [done|]. by apply Hn.
Qed.

(** A new root table [g] that shares the entries [idx] of the well-formed tree
    at [src] and is otherwise empty. *)
Section NewRoot.
Context (m m' : pmem) (src g : Z) (av : gset Z) (idx : list Z).
Hypothesis (Hwf : pt_wf m src av) (Hg : g ∈ av).
Hypothesis (Hother : forall h j, h <> g -> mread m' h j = mread m h j).
Hypothesis (Hnew : forall j, table_index j -> mread m' g j = if decide (j ∈ idx) then mread m src j else 0).
Hypothesis (Hwords : forall h j, uint_range 64 (mread m' h j)).

Lemma new_root_fresh q h : path 3 q -> walk m src q = Ok h -> h <> g.
Proof. intros Hq Hw ->. by apply (wf_avail _ _ _ Hwf q g Hq Hw). Qed.

Lemma new_root_src_same q h j : path 3 q -> walk m src q = Ok h -> mread m' h j = mread m h j.
Proof. intros Hq Hw. by apply Hother, (new_root_fresh q). Qed.

Lemma new_root_src_walk q : path 3 q -> walk m' src q = walk m src q.
Proof. by apply same_tables_walk, new_root_src_same. Qed.

Lemma new_root_walk i q : path 3 (i :: q) ->
  walk m' g (i :: q) = if decide (i ∈ idx) then walk m src (i :: q) else Err NotPresent.
Proof.
  intros Hq. rewrite <-new_root_src_walk by done. cbn [walk].
  assert (table_index i) as Hi by (destruct Hq as [_ Hf]; by apply Forall_inv in Hf).
  rewrite Hnew by done. destruct (decide _); [|done].
  rewrite (Hother src); [done|]. by apply (new_root_fresh []); [split; [cbn; lia|by constructor]|].
Qed.

Lemma new_root_walk_ok p h : path 3 p -> walk m' g p = Ok h -> (p = [] /\ h = g) \/ (p <> [] /\ walk m src p = Ok h).
Proof.
  intros Hp Hw. destruct p as [|i p]; [injection Hw as ->; by left|]. right. split; [done|].
  rewrite new_root_walk in Hw by done. by destruct (decide _).
Qed.

Lemma new_root_wf : pt_wf m' g (av ∖ {[g]}).
Proof.
  assert (Hroot : path 3 []) by (split; [cbn; lia|by constructor]).
  split; [done| | | |].
  - intros p q h Hp Hq Wp Wq. apply new_root_walk_ok in Wp as [[-> ->]|[_ Wp]], Wq as [[-> Eq]|[_ Wq]]; try done.
    + by apply new_root_fresh in Wq.
    + subst h. by apply new_root_fresh in Wp.
    + by eapply (wf_inj _ _ _ Hwf).
  - intros p h Hp Wp. rewrite elem_of_difference, elem_of_singleton.
    apply new_root_walk_ok in Wp as [[-> ->]|[_ Wp]]; [tauto| |done]. intros [Hin _]. by eapply (wf_avail _ _ _ Hwf).
  - intros p h j Hp Hj Wp. assert (path 3 p) as Hp3 by (eapply path_le; [|done]; lia).
    apply new_root_walk_ok in Wp as [[-> ->]|[_ Wp]]; [| |done].
    + rewrite Hnew by done. destruct (decide _); [|by left]. by eapply (wf_inner _ _ _ Hwf []); [split; [cbn; lia|by constructor]|..].
    + rewrite Hother by by eapply new_root_fresh. by eapply (wf_inner _ _ _ Hwf).
  - intros p h j Hp Hl Hj Wp. apply new_root_walk_ok in Wp as [[-> ->]|[_ Wp]]; [done| |done].
    rewrite Hother by by eapply new_root_fresh. by eapply (wf_leaf _ _ _ Hwf).
Qed.

Lemma new_root_view i4 i3 i2 i1 : table_index i4 -> table_index i3 -> table_index i2 ->
  view m' g i4 i3 i2 i1 = (if decide (i4 ∈ idx) then view m src i4 i3 i2 i1 else Err NotMapped) /\
  view m' src i4 i3 i2 i1 = view m src i4 i3 i2 i1.
Proof.
  intros H4 H3 H2. assert (Hp : path 3 [i4; i3; i2]) by apply (path_3 _ _ _ H4 H3 H2).
  assert (Hleaf : forall h, walk m src [i4; i3; i2] = Ok h -> mread m' h i1 = mread m h i1).
  { intros h Hw. apply Hother. by eapply new_root_fresh. }
  unfold view. rewrite new_root_walk, new_root_src_walk by done.
  destruct (walk m src [i4; i3; i2]) as [h|e] eqn:Ew; (split; [destruct (decide (i4 ∈ idx))|]; try rewrite (Hleaf h eq_refl); reflexivity).
Qed.
End NewRoot.

(** A space created and not yet used; its parent keeps its own tree. *)
Record kernel_ok (k : Kernel) (root : Frame) : Prop := {
  ko_frames : fa_inv (k_frames k);
  ko_tree : pt_wf (k_mem k) (frame_number root) (free_set (bitmap (k_frames k)))
}.

Definition parent_of (k : Kernel) (inherit : option AddressSpace) : AddressSpace := default (k_space k) inherit.

Lemma AddressSpace_new_spec k name inherit : kernel_ok k (space_frame (parent_of k inherit)) ->
  is_current k (k_space k) = true -> free_set (bitmap (k_frames k)) <> ∅ ->
  exists k' s f, AddressSpace_new k name inherit = Done (k', s) /\ s = mkSpace name f [f] /\
    frame_number f ∈ free_set (bitmap (k_frames k)) /\ fa_inv (k_frames k') /\
    free_set (bitmap (k_frames k')) = free_set (bitmap (k_frames k)) ∖ {[frame_number f]} /\
    (forall h j, h <> frame_number f -> mread (k_mem k') h j = mread (k_mem k) h j) /\
    (forall j, table_index j -> mread (k_mem k') (frame_number f) j =
       if decide (j ∈ inherited_indices inherit) then mread (k_mem k) (frame_number (space_frame (parent_of k inherit))) j else 0) /\
    (forall h j, uint_range 64 (mread (k_mem k') h j)) /\ k_space k' = k_space k.
Proof.
  intros [Hfa Hwf] Hcur Hne. unfold AddressSpace_new. rewrite Hcur. cbn [rust_assert mbind exec_bind].
  destruct (@allocate_frame_spec FrameAllocator _ FrameAllocator_laws (k_frames k) Hfa) as (fa & [f|] & E & Hfa' & Ho); [|by destruct Ho].
  destruct Ho as [Hin Hav]. unfold allocate_frame at 1, Proxy_FrameAlloc. cbn [proxy_global]. rewrite E.
  cbn [mbind exec_bind unwrap proxy_global allocated_frames app].
  assert (Hpar : match inherit with Some parent => space_frame parent | None => space_frame (k_space k) end
    = space_frame (parent_of k inherit)) by by destruct inherit.
  rewrite Hpar. set (src := space_frame (parent_of k inherit)) in *.
  assert (Hsf : frame_number src <> frame_number f).
  { intros Heq. apply (wf_avail _ _ _ Hwf [] (frame_number src)); [split; [cbn; lia|by constructor]|done|]. rewrite Heq. exact Hin. }
  eexists _, _, f. split; [reflexivity|]. split; [done|]. split; [done|]. split; [done|]. split; [exact Hav|]. cbn [k_mem].
  split; [|split; [|split; [|done]]].
  - intros h j Hh. rewrite copy_entries_read, !mread_clear by done. rewrite !decide_False by tauto. done.
  - intros j Hj. rewrite copy_entries_read, !mread_clear by done. rewrite (decide_False (P := frame_number src = _ /\ _)) by tauto.
    rewrite (decide_True (P := frame_number f = frame_number f /\ 0 <= _ < _)) by done.
    destruct (decide (j ∈ _)); [rewrite decide_True by done|rewrite decide_False by tauto]; done.
  - intros h j. rewrite copy_entries_read, !mread_clear by done. repeat destruct (decide _); try by apply (wf_words _ _ _ Hwf).
    all: unfold uint_range; lia.
Qed.

(** ** Lemmas: dropping the proxy, starting up *)

Lemma Proxy_drop_spec p : fa_inv (proxy_global p) ->
  Forall (fun f => 0 <= frame_number f < MAX_FRAMES) (allocated_frames p) ->
  exists fa, Proxy_drop p = Done fa /\ fa_inv fa /\
    (forall n, n ∈ free_set (bitmap fa) <-> n ∈ free_set (bitmap (proxy_global p)) \/ Frame_new n ∈ allocated_frames p).
Proof.
  intros Hinv Hall. unfold Proxy_drop.
  destruct (for_each_inv (fun (d : list Frame) fa => fa_inv fa /\
      forall n, n ∈ free_set (bitmap fa) <-> n ∈ free_set (bitmap (proxy_global p)) \/ Frame_new n ∈ d)
    (fun f fa => '(fa', _) ← FrameAllocator_deallocate fa f; Done fa') (allocated_frames p) [] (proxy_global p))
    as (fa & E & Hfa & Hset).
  - split; [done|]. intros n. rewrite elem_of_nil. tauto.
  - intros d f fa [Hfa Hset] Hin. rewrite Forall_forall in Hall. specialize (Hall f Hin).
    destruct (deallocate_spec fa f Hfa) as (fa' & r & E & Hfa' & Hr); [lia|]. rewrite E. cbn [mbind exec_bind].
    exists fa'. split; [done|]. split; [done|]. rewrite (proj2 (Z.leb_gt _ _)) in Hr by lia. destruct Hr as (_ & Hr & _).
    intros n. rewrite Hr, elem_of_union, elem_of_singleton, Hset, elem_of_app, list_elem_of_singleton.
    destruct f as [m]. cbn. split; [intros [?| ->]; tauto|]. intros [?|[?|[= ->]]]; tauto.
  - exists fa. by split.
Qed.

Lemma initial_test_spec fa : fa_inv fa -> free_set (bitmap fa) <> ∅ ->
  exists fa', initial_frame_allocation_test fa = Done fa' /\ fa_inv fa' /\ free_set (bitmap fa') = free_set (bitmap fa).
Proof.
  intros Hinv Hne. unfold initial_frame_allocation_test.
  destruct (allocate_spec fa Hinv) as (fa1 & r & E & Hinv1 & Hr). rewrite E. cbn [mbind exec_bind].
  destruct r as [f|e]; [|destruct Hr as (_ & ? & _); done]. destruct Hr as (Hin & Hset & _).
  pose proof (proj1 (elem_of_free_set _ _) Hin) as [Hf _].
  destruct (deallocate_spec fa1 f Hinv1) as (fa2 & r2 & E2 & Hinv2 & Hr2); [lia|]. rewrite E2. cbn [mbind exec_bind].
  rewrite (proj2 (Z.leb_gt _ _)) in Hr2 by lia. destruct Hr2 as (-> & Hset2 & _). exists fa2. split; [done|]. split; [done|].
  rewrite Hset2, Hset. apply set_eq. intros n. rewrite elem_of_union, elem_of_difference, elem_of_singleton.
  destruct (decide (n = frame_number f)) as [->|]; tauto.
Qed.

(** The frames [reserve_range base size] reserves. *)
Definition reserved (base size n : Z) : Prop :=
  base / PAGE_SIZE <= n < base / PAGE_SIZE + div_ceil size PAGE_SIZE.

Lemma reserved_mono base size size' n : 0 <= size <= size' -> reserved base size n -> reserved base size' n.
Proof.
  intros Hs [H1 H2]. split; [done|]. destruct (div_ceil_spec size PAGE_SIZE) as [D1 D2]; [lia|done|].
  destruct (div_ceil_spec size' PAGE_SIZE) as [E1 E2]; [lia|done|].
  set (c1 := div_ceil size PAGE_SIZE) in *. set (c2 := div_ceil size' PAGE_SIZE) in *. unfold PAGE_SIZE, KIBIBYTE in *. lia.
Qed.

(** ** Properties *)

Lemma translate_page_of_view k s root q : pt_wf (k_mem k) (frame_number root) (free_set (bitmap (k_frames k))) ->
  root = space_frame s ->
  AddressSpace_translate_page k s q =
  Done (match page_view root (space_pt k s) q with Ok v => Some (entry_frame_of v) | Err _ => None end).
Proof.
  intros Hwf ->. unfold AddressSpace_translate_page. erewrite translate_page_view by done. cbn [mbind exec_bind].
  unfold page_view. cbn [pt_mem space_pt]. by destruct (view _ _ _ _ _ _).
Qed.

(** C20: [AddressSpace::map_pages] with enough free frames succeeds: every page
    of the range that was not mapped translates to a frame taken from the
    free ones, no two of them to the same frame; pages that were mapped keep
    their frame, pages outside the range stay as they were, and the range is
    recorded in the tracker. In particular a page that is already mapped is
    never reported as an error. *)
Theorem map_pages_correct (k : Kernel) (self : AddressSpace) (name : string) (pages : PageRange) (flags : Z) :
  kernel_ok k (space_frame self) -> map_flags flags ->
  (forall q, q ∈ PageRange_pages pages -> canonical_page q /\
     translate_page (k_mem k) (space_frame self) q <> Done (Err TranslationHugePage)) ->
  4 * Z.of_nat (length (PageRange_pages pages)) < free_frames (k_frames k) ->
  exists k' self', AddressSpace_map_pages k self name pages flags = Done (k', self', Ok tt) /\
    kernel_ok k' (space_frame self') /\ space_frame self' = space_frame self /\
    (name, pages) ∈ default [] (spaces (TRACKER k') !! (space_name self, space_frame self)) /\
    (forall q, canonical_page q ->
       match AddressSpace_translate_page k self q with
       | Done None => if decide (q ∈ PageRange_pages pages)
           then exists f, AddressSpace_translate_page k' self' q = Done (Some f) /\
                  frame_number f ∈ free_set (bitmap (k_frames k)) /\ frame_number f ∉ free_set (bitmap (k_frames k'))
           else AddressSpace_translate_page k' self' q = Done None
       | old => AddressSpace_translate_page k' self' q = old
       end) /\
    (forall q1 q2 f, canonical_page q1 -> canonical_page q2 -> q1 <> q2 ->
       AddressSpace_translate_page k self q1 = Done None -> AddressSpace_translate_page k self q2 = Done None ->
       AddressSpace_translate_page k' self' q1 = Done (Some f) -> AddressSpace_translate_page k' self' q2 <> Done (Some f)).
Proof.
  intros [Hfa Hwf] Hfl Hq Hsz.
  destruct (map_pages_loop_spec (space_frame self) flags Hfl (PageRange_pages pages) (space_pt k self))
    as (s' & E & [Hfa' Hwf'] & _ & Hmap & Hdist).
  { by split. }
  { intros q Hin. destruct (Hq q Hin) as [Hc Hn]. split; [done|]. intros Hv. apply Hn.
    erewrite translate_page_view by done. unfold page_view in Hv. cbn [space_pt pt_mem] in Hv. by rewrite Hv. }
  { cbn [space_pt pt_alloc avail Proxy_laws proxy_global]. rewrite <-(fa_count _ Hfa). lia. }
  unfold AddressSpace_map_pages. rewrite E. cbn [mbind exec_bind]. eexists _, _. split; [reflexivity|].
  set (k' := set_tracker _ _). set (self' := pt_space self s').
  assert (Hold : forall q, AddressSpace_translate_page k self q = Done (match page_view (space_frame self) (space_pt k self) q with
    Ok v => Some (entry_frame_of v) | Err _ => None end)) by (intros q; exact (translate_page_of_view k self (space_frame self) q Hwf eq_refl)).
  assert (Hnewv : forall q, AddressSpace_translate_page k' self' q = Done (match page_view (space_frame self) s' q with
    Ok v => Some (entry_frame_of v) | Err _ => None end)) by (intros q; exact (translate_page_of_view k' self' (space_frame self) q Hwf' eq_refl)).
  split; [by split|]. split; [done|]. split; [|split].
  - cbn [TRACKER k' set_tracker spaces tracker_push pt_kernel space_name space_frame pt_space]. rewrite lookup_insert_eq.
    cbn [default from_option id]. apply elem_of_app. right. by left.
  - intros q Hc. rewrite Hold, Hnewv. specialize (Hmap q Hc). destruct (page_view _ (space_pt k self) q) as [v|e]; [by rewrite Hmap|].
    destruct Hmap as [(Hin & v & -> & _ & Hf1 & Hf2)|[Hnin ->]]; [rewrite decide_True by done|by rewrite decide_False].
    by exists (entry_frame_of v).
  - intros q1 q2 f C1 C2 Hne. rewrite !Hold, !Hnewv. specialize (Hdist q1 q2).
    destruct (page_view _ (space_pt k self) q1) as [|e1] eqn:V1, (page_view _ (space_pt k self) q2) as [|e2] eqn:V2; try done.
    destruct (page_view _ s' q1) as [v1|] eqn:W1, (page_view _ s' q2) as [v2|] eqn:W2; try done.
    intros _ _ [= <-] Heq. apply (Hdist v1 v2 e1 e2); [done..|]. congruence.
Qed.

(** The level 4 entries a new address space shares with its parent: all of
    them, or the physical half and the kernel heap. *)
Definition shared_entry (inherit : option AddressSpace) (i : Z) : bool :=
  match inherit with Some _ => true | None => (i <=? 255) || (i =? KERNEL_HEAP_L4_INDEX) end.

Lemma shared_entry_spec inherit i : table_index i -> shared_entry inherit i = bool_decide (i ∈ inherited_indices inherit).
Proof.
  intros Hi. unfold table_index in Hi. unfold shared_entry, inherited_indices. destruct inherit.
  - symmetry. apply bool_decide_true, elem_of_seqZ. change ENTRIES_PER_PAGE_TABLE with 512 in *. lia.
  - apply eq_true_iff_eq. rewrite bool_decide_eq_true, elem_of_app, elem_of_seqZ, list_elem_of_singleton, orb_true_iff, Z.leb_le, Z.eqb_eq.
    change MAX_PHYSICAL_L4_INDEX with 255. lia.
Qed.

(** C22: a new address space shares exactly the physical half and the kernel
    heap of the kernel's tree (or, with a parent, all of the parent's
    entries) and maps nothing else; it is itself well formed, and creating it
    changes no translation of its parent. *)
Theorem AddressSpace_new_shares (k : Kernel) (name : string) (inherit : option AddressSpace) :
  kernel_ok k (space_frame (parent_of k inherit)) -> is_current k (k_space k) = true -> free_frames (k_frames k) <> 0 ->
  exists k' s, AddressSpace_new k name inherit = Done (k', s) /\ kernel_ok k' (space_frame s) /\
    (forall q, translate_page (k_mem k') (space_frame s) q =
       if shared_entry inherit (Page_l4_index q)
       then translate_page (k_mem k) (space_frame (parent_of k inherit)) q else Done (Err NotMapped)) /\
    (forall q, translate_page (k_mem k') (space_frame (parent_of k inherit)) q
             = translate_page (k_mem k) (space_frame (parent_of k inherit)) q).
Proof.
  intros Hk Hcur Hne.
  destruct (AddressSpace_new_spec k name inherit Hk Hcur) as (k' & s & f & E & -> & Hf & Hfa' & Hset & Ho & Hn & Hw & _).
  { intros He. apply Hne. by apply free_set_empty_count; [apply Hk|]. }
  destruct Hk as [Hfa Hwf]. set (src := space_frame (parent_of k inherit)) in *.
  pose proof (new_root_wf _ _ _ _ _ _ Hwf Hf Ho Hn Hw) as Hwf'.
  assert (Hsrc' : pt_wf (k_mem k') (frame_number src) (free_set (bitmap (k_frames k)))).
  { apply (same_tables_wf _ _ _ _ _ Hwf Hw); [done|]. intros q h j. by apply (new_root_src_same _ _ _ _ _ Hwf Hf Ho). }
  exists k', (mkSpace name f [f]). split; [done|]. cbn [space_frame].
  split; [split; [done|by rewrite Hset]|].
  split; intros q; destruct (page_indices q) as (Q4 & Q3 & Q2 & Q1);
    destruct (new_root_view _ _ _ _ _ _ Hwf Hf Ho Hn _ _ _ (Page_l1_index q) Q4 Q3 Q2) as [V1 V2];
    erewrite !translate_page_view by done.
  - rewrite V1, (shared_entry_spec inherit (Page_l4_index q) Q4). case_bool_decide as Hd; [rewrite decide_True by exact Hd|rewrite decide_False by exact Hd]; done.
  - by rewrite V2.
Qed.

Lemma AddressSpace_drop_spec k self :
  fa_inv (k_frames k) -> Forall (fun f => 0 <= frame_number f < MAX_FRAMES) (space_allocated self) ->
  exists fa, AddressSpace_drop k self =
      Done (mkKernel (k_mem k) fa (k_flushed k) (k_cr3 k) (k_space k) (KERNEL_MAPPING_OFFSET k)
              (tracker_remove (TRACKER k) (space_name self, space_frame self))) /\ fa_inv fa /\
    (forall n, n ∈ free_set (bitmap fa) <-> n ∈ free_set (bitmap (k_frames k)) \/ Frame_new n ∈ space_allocated self).
Proof.
  intros Hfa Hall. destruct (Proxy_drop_spec (mkProxy (k_frames k) (space_allocated self)) Hfa Hall) as (fa & E & Hfa' & Hset).
  unfold AddressSpace_drop. cbn [k_frames set_tracker]. rewrite E. cbn [mbind exec_bind]. by exists fa.
Qed.

(** The physical address a translation gives. *)
Definition phys_of (v : Z) (a : Address) : Z := Z.land v ADDRESS_MASK + page_offset a.

Lemma translate_address_view k s av a : pt_wf (k_mem k) (frame_number (space_frame s)) av ->
  AddressSpace_translate_address k s a =
  Done (match view (k_mem k) (frame_number (space_frame s)) (l4_index a) (l3_index a) (l2_index a) (l1_index a) with
        | Ok v => Some (mkAddress (phys_of v a)) | Err _ => None end) /\
  (forall v, view (k_mem k) (frame_number (space_frame s)) (l4_index a) (l3_index a) (l2_index a) (l1_index a) = Ok v ->
     0 <= phys_of v a < 2 ^ 47 /\ phys_of v a = frame_number (entry_frame_of v) * PAGE_SIZE + page_offset a).
Proof.
  intros Hwf. unfold AddressSpace_translate_address. erewrite translate_addr_view by done. cbn [mbind exec_bind].
  destruct (indices_table_index a) as (H4 & H3 & H2 & H1).
  destruct (view _ _ _ _ _ _) as [v|e] eqn:Hv; [|done].
  assert (Hp : uint_range 64 v /\ phys_entry v).
  { unfold view in Hv. destruct (walk _ _ _) as [f|] eqn:Ew; [|done]. destruct (is_unused _); [done|]. injection Hv as <-.
    split; [by eapply wf_words|]. eapply (wf_leaf _ _ _ Hwf _ f); [| | |exact Ew]; [apply (path_3 _ _ _ H4 H3 H2)|done|done]. }
  destruct Hp as [Hr Hp]. destruct (entry_base v Hr Hp) as (Hb & Ha & _). pose proof (Z.mod_pos_bound (to_raw a) PAGE_SIZE) as Ho.
  rewrite <-page_offset_mod in Ho. change PAGE_SIZE with (2 ^ 12) in *.
  pose proof (Z.div_mod (Z.land v ADDRESS_MASK) (2 ^ 12)) as Hd. rewrite Ha in Hd.
  assert (Hph : 0 <= phys_of v a < 2 ^ 47) by (unfold phys_of; lia).
  assert (Hf : frame_number (entry_frame_of v) = Z.land v ADDRESS_MASK / 2 ^ 12) by done.
  split; [|intros ? [= <-]; split; [done|]; rewrite Hf; unfold phys_of; lia].
  cbn [result_ok tr_frame tr_offset]. unfold Address_add, checked_add. unfold phys_of in Hph |- *.
  rewrite Frame_base_addr_raw by (rewrite Hf; lia). rewrite Hf. change PAGE_SIZE with (2 ^ 12).
  replace (Z.land v ADDRESS_MASK / 2 ^ 12 * 2 ^ 12) with (Z.land v ADDRESS_MASK) by lia.
  rewrite (proj2 (Z.ltb_lt _ _)) by lia. cbn [unwrap fmap exec_fmap mbind exec_bind]. by rewrite Address_new_physical.
Qed.

(** Dropping an address space removes its entry from the tracker and gives
    back to the global allocator exactly the frames its proxy had taken. *)
Theorem AddressSpace_drop_frees (k : Kernel) (self : AddressSpace) :
  fa_inv (k_frames k) -> Forall (fun f => 0 <= frame_number f < MAX_FRAMES) (space_allocated self) ->
  exists k', AddressSpace_drop k self = Done k' /\ fa_inv (k_frames k') /\
    (forall n, n ∈ free_set (bitmap (k_frames k')) <->
       n ∈ free_set (bitmap (k_frames k)) \/ Frame_new n ∈ space_allocated self) /\
    spaces (TRACKER k') = delete (space_name self, space_frame self) (spaces (TRACKER k)) /\ k_mem k' = k_mem k.
Proof.
  intros Hfa Hall. destruct (AddressSpace_drop_spec k self Hfa Hall) as (fa & E & Hfa' & Hset).
  eexists. split; [exact E|]. by split_and!.
Qed.

(** The frames that are free after start-up, exactly: the last reservation
    covers [framebuffer_addr + framebuffer_size] bytes from the framebuffer on. *)
Lemma init_frames_exact (b : BootInfo) (fa : FrameAllocator) :
  length (bitmap fa) = Z.to_nat BITMAP_LEN -> Forall region_valid (memory_map b) ->
  ForallOrdPairs regions_disjoint (memory_map b) ->
  0 <= kernel_start b <= kernel_end b -> kernel_end b < 2 ^ 47 ->
  0 <= framebuffer_addr b -> 0 <= framebuffer_size b -> framebuffer_addr b + framebuffer_size b < 2 ^ 47 ->
  exists fa', fa_inv fa' /\
  init_frames b fa = (if 64 * MEBIBYTE <? free_frames fa' * PAGE_SIZE then Done (fa', free_frames fa') else Panic) /\
  forall f, f ∈ free_set (bitmap fa') <->
    (f < MAX_FRAMES /\ exists r, r ∈ memory_map b /\ region_kind r = Free /\ region_covers r f) /\
    ~ reserved 0 MEBIBYTE f /\ ~ reserved (kernel_start b) (kernel_end b - kernel_start b) f /\
    ~ reserved (framebuffer_addr b) (framebuffer_addr b + framebuffer_size b) f.
Proof.
  intros Hl Hv Hd Hk Hke Hf0 Hfs Hft. unfold init_frames.
  destruct (init_spec fa (memory_map b) Hl Hv) as (f1 & -> & _ & _ & S1 & I1). specialize (I1 Hd). cbn [mbind exec_bind].
  rewrite !Address_new_physical by lia. unfold uint_range.
  destruct (reserve_range_spec f1 (mkAddress 0) MEBIBYTE I1) as (f2 & -> & I2 & S2); [cbn; lia|by vm_compute|]. cbn [mbind exec_bind].
  rewrite (wrap_small 64 (kernel_end b - _)) by (unfold uint_range; lia).
  destruct (reserve_range_spec f2 (mkAddress (kernel_start b)) (kernel_end b - kernel_start b) I2) as (f3 & -> & I3 & S3);
    [cbn; lia|unfold uint_range; lia|]. cbn [mbind exec_bind].
  rewrite (wrap_small 64 (framebuffer_addr b + _)) by (unfold uint_range; lia).
  destruct (reserve_range_spec f3 (mkAddress (framebuffer_addr b)) (framebuffer_addr b + framebuffer_size b) I3) as (f4 & -> & I4 & S4);
    [cbn; lia|unfold uint_range; lia|]. cbn [mbind exec_bind].
  assert (Hres : forall f, f ∈ free_set (bitmap f4) <->
    (f < MAX_FRAMES /\ exists r, r ∈ memory_map b /\ region_kind r = Free /\ region_covers r f) /\
    ~ reserved 0 MEBIBYTE f /\ ~ reserved (kernel_start b) (kernel_end b - kernel_start b) f /\
    ~ reserved (framebuffer_addr b) (framebuffer_addr b + framebuffer_size b) f).
  { intros f. rewrite S4, S3, S2, S1. unfold reserved. cbn [to_raw]. tauto. }
  pose proof (fa_count _ I4) as C4. pose proof (free_set_bound (bitmap f4)) as B4. clear S1 S2 S3 S4 I1 I2 I3.
  assert (Hw : wrap 64 (free_frames f4 * PAGE_SIZE) = free_frames f4 * PAGE_SIZE).
  { apply wrap_small. unfold uint_range, PAGE_SIZE, KIBIBYTE. frame_consts. lia. }
  destruct (decide (free_set (bitmap f4) = ∅)) as [He|Hne].
  - exists f4. split; [done|]. split; [|done]. rewrite (proj2 (free_set_empty_count f4 I4) He).
    unfold initial_frame_allocation_test, FrameAllocator_allocate.
    rewrite (proj2 (Z.eqb_eq _ _) (proj2 (free_set_empty_count f4 I4) He)). done.
  - destruct (initial_test_spec f4 I4 Hne) as (f5 & -> & I5 & S5). exists f5. split; [done|]. rewrite S5. split; [|done].
    cbn [mbind exec_bind]. rewrite Hw. replace (free_frames f5) with (free_frames f4) by (by rewrite C4, (fa_count _ I5), S5).
    by destruct (_ <? _).
Qed.

(** A region with more than 64 MiB outside the reservations is enough. *)
Lemma init_frames_done (b : BootInfo) (fa : FrameAllocator) (r : MemoryRegion) (first count : Z) :
  length (bitmap fa) = Z.to_nat BITMAP_LEN -> Forall region_valid (memory_map b) ->
  ForallOrdPairs regions_disjoint (memory_map b) ->
  0 <= kernel_start b <= kernel_end b -> kernel_end b < 2 ^ 47 ->
  0 <= framebuffer_addr b -> 0 <= framebuffer_size b -> framebuffer_addr b + framebuffer_size b < 2 ^ 47 ->
  r ∈ memory_map b -> region_kind r = Free -> first + count <= MAX_FRAMES -> 16384 < count ->
  (forall f, first <= f < first + count -> region_covers r f /\ ~ reserved 0 MEBIBYTE f /\
     ~ reserved (kernel_start b) (kernel_end b - kernel_start b) f /\ ~ reserved (framebuffer_addr b) (framebuffer_addr b + framebuffer_size b) f) ->
  exists fa', fa_inv fa' /\ init_frames b fa = Done (fa', free_frames fa') /\ count <= free_frames fa' /\
    (forall f, f ∈ free_set (bitmap fa') <->
       (f < MAX_FRAMES /\ exists r, r ∈ memory_map b /\ region_kind r = Free /\ region_covers r f) /\
       ~ reserved 0 MEBIBYTE f /\ ~ reserved (kernel_start b) (kernel_end b - kernel_start b) f /\
       ~ reserved (framebuffer_addr b) (framebuffer_addr b + framebuffer_size b) f).
Proof.
  intros Hl Hv Hd Hk Hke Hf0 Hfs Hft Hr Hkind Hmax Hcount Hin.
  destruct (init_frames_exact b fa Hl Hv Hd Hk Hke Hf0 Hfs Hft) as (fa' & Hinv & E & Hset).
  assert (Hfree : count <= free_frames fa').
  { rewrite (fa_count _ Hinv). assert (Hsub : list_to_set (seqZ first count) ⊆ free_set (bitmap fa')).
    { intros f Hf. apply elem_of_list_to_set, elem_of_seqZ in Hf. apply Hset. destruct (Hin f Hf) as (Hc & Hres). split; [|exact Hres].
      split; [lia|]. by exists r. }
    apply subseteq_size in Hsub. rewrite size_list_to_set in Hsub by apply NoDup_seqZ. rewrite length_seqZ in Hsub. lia. }
  rewrite (proj2 (Z.ltb_lt _ _)) in E by (unfold MEBIBYTE, PAGE_SIZE, KIBIBYTE; lia). by exists fa'.
Qed.

(** Start-up on a memory map of disjoint regions yields an exact allocator
    in which every free frame lies in a Free region, and none in the first
    MiB, in the kernel image or in the framebuffer; it panics exactly when not
    more than 64 MiB are left. *)
Theorem init_frames_safe (b : BootInfo) (fa : FrameAllocator) :
  length (bitmap fa) = Z.to_nat BITMAP_LEN -> Forall region_valid (memory_map b) ->
  ForallOrdPairs regions_disjoint (memory_map b) ->
  0 <= kernel_start b <= kernel_end b -> kernel_end b < 2 ^ 47 ->
  0 <= framebuffer_addr b -> 0 <= framebuffer_size b -> framebuffer_addr b + framebuffer_size b < 2 ^ 47 ->
  exists fa', fa_inv fa' /\
  init_frames b fa = (if 64 * MEBIBYTE <? free_frames fa' * PAGE_SIZE then Done (fa', free_frames fa') else Panic) /\
  forall f, f ∈ free_set (bitmap fa') ->
    (exists r, r ∈ memory_map b /\ region_kind r = Free /\ region_covers r f) /\
    ~ reserved 0 MEBIBYTE f /\ ~ reserved (kernel_start b) (kernel_end b - kernel_start b) f /\
    ~ reserved (framebuffer_addr b) (framebuffer_size b) f.
Proof.
  intros Hl Hv Hd Hk Hke Hf0 Hfs Hft. destruct (init_frames_exact b fa Hl Hv Hd Hk Hke Hf0 Hfs Hft) as (fa' & Hinv & E & Hset).
  exists fa'. split; [done|]. split; [done|]. intros f Hin. apply Hset in Hin as ([_ Hr] & N1 & N2 & N3). split; [done|]. split; [done|]. split; [done|].
  intros Hf. apply N3. eapply reserved_mono; [|exact Hf]. lia.
Qed.

(** ** Witnesses: a kernel with 64 free frames and an empty root table *)

Definition small_map : list MemoryRegion := [mkRegion 0x100000 0x40000 Free].

Lemma small_init : exists fa, FrameAllocator_init small_map FrameAllocator_new = Done fa /\ fa_inv fa /\ free_frames fa = 64 /\
  forall n, n ∈ free_set (bitmap fa) <-> 256 <= n < 320.
Proof.
  destruct (init_spec FrameAllocator_new small_map) as (fa & E & _ & _ & Hset & Hinv); [by vm_compute|repeat constructor; cbn; lia|].
  specialize (Hinv ltac:(repeat constructor)).
  assert (Hs : forall n, n ∈ free_set (bitmap fa) <-> 256 <= n < 320).
  { intros n. rewrite Hset. unfold region_covers, PAGE_SIZE, KIBIBYTE. split.
    - intros [_ (r & Hr & _ & Hc)]. apply list_elem_of_singleton in Hr as ->. cbn in Hc. lia.
    - intros Hn. split; [frame_consts; lia|]. eexists. split; [by left|]. cbn. split; [done|lia]. }
  exists fa. split; [done|]. split; [done|]. split; [|done]. rewrite (fa_count _ Hinv).
  replace (free_set (bitmap fa)) with (list_to_set (C := gset Z) (seqZ 256 64)).
  - rewrite size_list_to_set by apply NoDup_seqZ. by rewrite length_seqZ.
  - apply set_eq. intros n. rewrite Hs, elem_of_list_to_set, elem_of_seqZ. lia.
Qed.

Definition small_kernel (fa : FrameAllocator) : Kernel :=
  mkKernel ∅ fa [] (Frame_new 2) (mkSpace "" (Frame_new 2) []) KERNEL_MAPPING_BASE MemoryTracker_new.

Lemma small_kernel_ok fa : fa_inv fa -> (forall n, n ∈ free_set (bitmap fa) <-> 256 <= n < 320) ->
  kernel_ok (small_kernel fa) (Frame_new 2).
Proof.
  intros Hinv Hs. split; [done|]. apply empty_table_wf.
  - rewrite Hs. cbn. lia.
  - intros f i. cbn [k_mem small_kernel]. unfold mread. rewrite lookup_empty. cbn [default from_option id]. unfold uint_range. lia.
  - intros i _. reflexivity.
Qed.

Lemma map_pages_correct_witness : exists fa k' self',
  AddressSpace_map_pages (small_kernel fa) (mkSpace "" (Frame_new 2) []) "stack" (mkRange (Page_new 7) (Page_new 9))
    (Z.lor PRESENT WRITABLE) = Done (k', self', Ok tt) /\ kernel_ok k' (Frame_new 2).
Proof.
  destruct small_init as (fa & _ & Hinv & Hfree & Hs).
  destruct (map_pages_correct (small_kernel fa) (mkSpace "" (Frame_new 2) []) "stack" (mkRange (Page_new 7) (Page_new 9))
    (Z.lor PRESENT WRITABLE)) as (k' & self' & E & Hk & Hf & _).
  - by apply small_kernel_ok.
  - exact example_flags.
  - change (PageRange_pages _) with [Page_new 7; Page_new 8].
    intros q Hq. rewrite !elem_of_cons, elem_of_nil in Hq. destruct Hq as [->|[->|[]]];
      (split; [split; [left; vm_compute; done|cbn; lia]|vm_compute; done]).
  - change (PageRange_pages _) with [Page_new 7; Page_new 8]. cbn [small_kernel k_frames]. rewrite Hfree. cbn. lia.
  - exists fa, k', self'. split; [exact E|]. rewrite Hf in Hk. exact Hk.
Defined.

Lemma AddressSpace_new_shares_witness : exists fa k' s, AddressSpace_new (small_kernel fa) "init" None = Done (k', s) /\
  translate_page (k_mem k') (space_frame s) (Page_containing_addr (AddressDomain_base_addr UserStack)) = Done (Err NotMapped).
Proof.
  destruct small_init as (fa & _ & Hinv & Hfree & Hs).
  destruct (AddressSpace_new_shares (small_kernel fa) "init" None) as (k' & s & E & _ & Ht & _).
  - by apply small_kernel_ok.
  - reflexivity.
  - cbn [small_kernel k_frames]. rewrite Hfree. done.
  - exists fa, k', s. split; [exact E|]. rewrite Ht. reflexivity.
Defined.

Lemma AddressSpace_drop_frees_witness : exists fa k', AddressSpace_drop (small_kernel fa) (mkSpace "p" (Frame_new 9) [Frame_new 9]) = Done k' /\
  9 ∈ free_set (bitmap (k_frames k')).
Proof.
  destruct small_init as (fa & _ & Hinv & _).
  destruct (AddressSpace_drop_frees (small_kernel fa) (mkSpace "p" (Frame_new 9) [Frame_new 9]) Hinv) as (k' & E & _ & Hset & _).
  - cbn. apply Forall_singleton. cbn. frame_consts. lia.
  - exists fa, k'. split; [exact E|]. apply Hset. right. by left.
Defined.

Definition example_boot : BootInfo := mkBootInfo 0x200000 0x210000 [mkRegion 0x100000 (80 * MEBIBYTE) Free] 0x80000000 0x1000.

Lemma init_frames_safe_witness : exists fa', fa_inv fa' /\
  init_frames example_boot FrameAllocator_new
  = (if 64 * MEBIBYTE <? free_frames fa' * PAGE_SIZE then Done (fa', free_frames fa') else Panic).
Proof.
  destruct (init_frames_safe example_boot FrameAllocator_new) as (fa' & Hinv & E & _); try (cbn; lia).
  - by vm_compute.
  - apply Forall_singleton. split; [by vm_compute|]. split; by vm_compute.
  - apply FOP_cons; [constructor|constructor].
  - exists fa'. split; [exact Hinv|exact E].
Defined.

(** Growing a kernel mapping assumes that it is the last one: after
    another mapping has been created, [extend] finds the pages behind the
    first one taken and fails with [PageAlreadyMapped], although kernel
    mapping space and frames are left. *)
Theorem extend_fails_behind_other_mapping :
  (fa ← FrameAllocator_init small_map FrameAllocator_new;
   let space := mkSpace "shell.1" (Frame_new 3) [] in
   '(k, heap) ← KernelMapping_new (small_kernel fa) "heap" PAGE_SIZE (Z.lor PRESENT WRITABLE);
   '(k, _) ← KernelMapping_new k "section" PAGE_SIZE (Z.lor PRESENT WRITABLE);
   '(_, _, _, r) ← KernelMapping_extend k heap space (mkRange (Page_new 7) (Page_new 8));
   Done (match r with Err (PageAlreadyMapped _) => true | _ => false end)) = Done true /\
  (fa ← FrameAllocator_init small_map FrameAllocator_new;
   let space := mkSpace "shell.1" (Frame_new 3) [] in
   '(k, heap) ← KernelMapping_new (small_kernel fa) "heap" PAGE_SIZE (Z.lor PRESENT WRITABLE);
   '(_, _, _, r) ← KernelMapping_extend k heap space (mkRange (Page_new 7) (Page_new 8));
   Done (match r with Ok _ => true | Err _ => false end)) = Done true.
Proof. split; vm_compute; reflexivity. Qed.

(** ** PCI BARs in the tracker *)

Lemma bar_contains_spec addr pages : bar_contains addr pages = true <->
  page_number (range_start pages) <= page_number (Address_page addr) < page_number (range_end pages).
Proof. unfold bar_contains. rewrite andb_true_iff, Z.leb_le, Z.ltb_lt. done. Qed.

Lemma register_bars_keeps {W} `{Ports W} device slots : forall prev t (w : W) t' w' key,
  register_bars device slots prev t w = Done (t', w') ->
  (forall slot, slot ∈ slots -> key <> BarSlot_from_device device slot) -> pci_bars t' !! key = pci_bars t !! key.
Proof.
  induction slots as [|slot rest IH]; intros prev t w t' w' key; cbn [register_bars]; [by intros [= -> ->]|].
  intros Hr Hk. assert (Hk' : forall s, s ∈ rest -> key <> BarSlot_from_device device s) by (intros; apply Hk; by right).
  destruct prev; [by eapply IH|]. destruct (Device_bar device w slot) as [[w1 [bar|]]|]; cbn in Hr; [|by eapply IH|done].
  destruct (bar_pages bar) as [[pages|]|]; cbn in Hr; [|done|by eapply IH].
  rewrite (IH _ _ _ _ _ _ Hr Hk'). cbn. apply lookup_insert_ne. intros <-. apply (Hk slot); [by left|done].
Qed.

(** [get_pci_bar] finds a registered BAR that contains the address, and
    finds one whenever there is one; registering the BARs of a device touches
    no other device's entries. *)
Theorem get_pci_bar_correct {W} `{Ports W} (device : Device) (t t' : MemoryTracker) (w w' : W) (addr : Address) (other : BarSlot) :
  register_bars device (seqZ 0 6) false t w = Done (t', w') ->
  (slot_bus other, slot_device other, slot_function other) <> (dev_bus device, dev_device device, dev_function device) ->
  pci_bars t' !! other = pci_bars t !! other /\
  match get_pci_bar t' addr with
  | Some (slot, pages) => pci_bars t' !! slot = Some pages /\
      page_number (range_start pages) <= page_number (Address_page addr) < page_number (range_end pages)
  | None => forall slot pages, pci_bars t' !! slot = Some pages ->
      ~ (page_number (range_start pages) <= page_number (Address_page addr) < page_number (range_end pages))
  end.
Proof.
  intros Hr Ho. split.
  - eapply register_bars_keeps; [exact Hr|]. intros slot _ ->. by apply Ho.
  - unfold get_pci_bar. destruct (list_find _ _) as [[i [slot pages]]|] eqn:E; cbn.
    + apply list_find_Some in E as (El & Hc & _). apply list_elem_of_lookup_2, elem_of_map_to_list in El.
      split; [done|]. by apply bar_contains_spec.
    + intros slot pages Hl Hin. apply bar_contains_spec in Hin. apply list_find_None in E. rewrite Forall_forall in E.
      by apply (E (slot, pages)); [apply elem_of_map_to_list|].
Qed.

Lemma get_pci_bar_correct_witness : exists t' w',
  register_bars example_device (seqZ 0 6) false MemoryTracker_new example_machine = Done (t', w') /\
  pci_bars t' !! mkBarSlot 1 0 0 0 = None.
Proof.
  destruct (register_bars example_device (seqZ 0 6) false MemoryTracker_new example_machine) as [[t' w']|] eqn:E.
  - exists t', w'. split; [done|].
    destruct (get_pci_bar_correct example_device MemoryTracker_new t' example_machine w' (mkAddress 0) (mkBarSlot 1 0 0 0) E) as [Hk _]; [done|].
    exact Hk.
  - exfalso. cut (match register_bars example_device (seqZ 0 6) false MemoryTracker_new example_machine with Done _ => true | Panic => false end = true).
    + by rewrite E.
    + vm_compute. reflexivity.
Defined.
