(* ===== verification/Sharing.v ===== *)
(** * kernel/src/memory.rs: a kernel mapping in a process

    [KernelMapping::map_into] gives a process the frames of pages that the
    kernel has mapped: objects, stacks, heaps and message rings reach a
    process in this way. The tables of the process and of the kernel share
    entries, so that its correctness needs more than that of one tree: what
    [map_to] writes is confined to the tables below the level 4 entries of the
    process that it does not share, and to frames that were free. Proved: the
    two trees stay apart, so that the kernel's translations never change, and
    each page of the process translates to the frame of the kernel's page. *)

From Stdlib Require Import Lia.
From stdpp Require Import base numbers option strings tactics relations gmap fin_sets sets list.
From S2P Require Import Prelude BitUtils MemoryTypes FrameAllocator Paging Memory.

Local Open Scope Z_scope.

(** ** What the mapping functions write *)

Section Allocation.
Context {A : Type} {alloc_ops : FrameAlloc A} {alloc_laws : FrameAllocLaws A}.

(** A step of the allocator. *)
Definition alloc_step (a a' : A) : Prop := alloc_inv a /\ exists o, allocate_frame a = Done (a', o).

Lemma alloc_steps_avail a a' : rtc alloc_step a a' -> avail a' ⊆ avail a.
Proof.
  induction 1 as [|a a1 a' [Ha [o E]] _ IH]; [done|]. destruct (allocate_frame_spec a Ha) as (a2 & o2 & E2 & _ & Ho).
  rewrite E2 in E. injection E as -> ->. destruct o as [f|]; [destruct Ho as [_ Ho]; set_solver|destruct Ho as [_ ->]; done].
Qed.

End Allocation.

Section Confined.
Context {A : Type} {alloc_ops : FrameAlloc A} {alloc_laws : FrameAllocLaws A}.
Context (root : Frame) (private : Z -> Prop).
Implicit Types s : ptstate A.

(** The tables of a process that hold private entries: its root, and what is
    reached through a private level 4 entry. *)
Definition private_table (m : pmem) (h : Z) : Prop :=
  h = frame_number root \/ exists i q, private i /\ path 3 (i :: q) /\ walk m (frame_number root) (i :: q) = Ok h.

(** Only private tables and free frames are written, and the tables that are
    added were free. *)
Record confined s s' : Prop := {
  cf_alloc : rtc alloc_step (pt_alloc s) (pt_alloc s');
  cf_writes : forall h j, mread (pt_mem s') h j <> mread (pt_mem s) h j -> private_table (pt_mem s) h \/ h ∈ avail (pt_alloc s);
  cf_tables : forall q h, path 3 q -> walk (pt_mem s') (frame_number root) q = Ok h ->
    walk (pt_mem s) (frame_number root) q = Ok h \/ h ∈ avail (pt_alloc s)
}.

Lemma cf_avail s s' : confined s s' -> avail (pt_alloc s') ⊆ avail (pt_alloc s).
Proof. intros [Hc _ _]. by apply alloc_steps_avail. Qed.

Lemma cf_private s s' h : confined s s' -> private_table (pt_mem s') h -> private_table (pt_mem s) h \/ h ∈ avail (pt_alloc s).
Proof.
  intros [_ _ T] [->|(i & q & Hi & Hq & Hw)]; [by left; left|]. destruct (T _ _ Hq Hw) as [?|?]; [|by right]. left. right. eauto.
Qed.

Lemma confined_trans s1 s2 s3 : confined s1 s2 -> confined s2 s3 -> confined s1 s3.
Proof.
  intros C1 C2. pose proof (cf_avail _ _ C1) as Hav. split.
  - etrans; [apply C1|apply C2].
  - intros h j Hne. destruct (decide (mread (pt_mem s2) h j = mread (pt_mem s1) h j)) as [E|E]; [|by eapply C1].
    rewrite <-E in Hne. apply C2 in Hne as [Hp|Hin]; [by apply (cf_private s1 s2)|right; by apply Hav].
  - intros q h Hq Hw. apply C2 in Hw as [Hw|Hin]; [by apply C1 in Hw|right; by apply Hav|done].
Qed.

(** Writes to one private table. *)
Lemma confined_write s s' h : private_table (pt_mem s) h -> rtc alloc_step (pt_alloc s) (pt_alloc s') ->
  (forall g j, g <> h -> mread (pt_mem s') g j = mread (pt_mem s) g j) ->
  (forall q, path 3 q -> walk (pt_mem s') (frame_number root) q = walk (pt_mem s) (frame_number root) q) -> confined s s'.
Proof.
  intros Hh Ha Hw Hk. split; [done| |].
  - intros g j Hne. destruct (decide (g = h)) as [->|]; [by left|]. by rewrite Hw in Hne.
  - intros q g Hq Hwq. left. by rewrite <-Hk.
Qed.

(** Nothing is written. *)
Lemma confined_same s s' : pt_mem s' = pt_mem s -> rtc alloc_step (pt_alloc s) (pt_alloc s') -> confined s s'.
Proof. intros E Ha. split; [done| |]; rewrite E; [done|by left]. Qed.

Lemma confined_refl s : confined s s.
Proof. by apply confined_same. Qed.

(** The table that a walk along a private entry has reached. *)
Lemma walked_private m p i i4 q t : p ++ [i] = i4 :: q -> private i4 -> path 2 p -> walk m (frame_number root) p = Ok t ->
  private_table m t.
Proof.
  intros E Hi Hp Hw. destruct p as [|i' p]; [injection Hw as <-; by left|]. injection E as -> _.
  right. exists i4, p. split; [done|]. split; [eapply path_le; [|done]; lia|done].
Qed.

Section NextTable.
Context (s : ptstate A) (p : list Z) (i i4 : Z) (q : list Z) (t : Frame) (flags : Z).
Hypothesis (Hinv : pt_inv root s) (Hpi : p ++ [i] = i4 :: q) (Hi4 : private i4) (Hp : path 2 p) (Hi : table_index i).
Hypothesis (Hw : walk (pt_mem s) (frame_number root) p = Ok (frame_number t)) (Hfl : map_flags flags).
Let v : Z := mread (pt_mem s) (frame_number t) i.

Lemma next_table_new_confined s' r : v = 0 -> next_table t i flags s = Done (s', r) -> confined s s'.
Proof.
  intros Hv0. subst v. destruct Hinv as [Ha Hwf], Hfl as [Hok Hpr Hh]. pose proof (walked_private _ _ _ _ _ _ Hpi Hi4 Hp Hw) as Ht.
  destruct (allocate_frame_spec (pt_alloc s) Ha) as (a' & o & Ea & Ha' & Ho).
  unfold next_table, mapper_bind, load, mapper_alloc.
  rewrite PageTable_index_read, Hv0 by done. cbn [mbind exec_bind is_unused Z.eqb]. rewrite Ea.
  cbn [mbind exec_bind]. destruct o as [g|]; cycle 1.
  { destruct Ho as [_ ->]. intros [= <- _]. by apply confined_same. }
  destruct Ho as [Hg Hav]. pose proof (avail_physical _ _ Ha Hg) as Hphys.
  destruct (entry_set_frame_spec g flags Hphys Hok Hh) as (v & Ev & Hv & Hvp & _ & _ & Hvc).
  rewrite Hpr in Hvc. unfold mapper_exec, store. rewrite Ev.
  cbn [mbind exec_bind pt_mem pt_alloc pt_flushed set_mem]. rewrite PageTable_index_read by done.
  rewrite mread_mwrite, decide_True by done. cbn [mbind exec_bind]. unfold get_table.
  rewrite entry_frame_child, Hvc by done. cbn [mbind exec_bind].
  unfold mapper_clear, mapper_ret. cbn [mbind exec_bind set_mem pt_mem pt_alloc pt_flushed]. intros [= <- _].
  split; cbn [pt_mem pt_alloc set_mem].
  - apply rtc_once. split; eauto.
  - intros h j. rewrite (new_table_read (pt_mem s) (frame_number t) i (frame_number g) v).
    destruct (decide (h = _ /\ _)) as [[-> _]|]; [by right|]. destruct (decide _) as [[= -> ->]|]; [by left|done].
  - intros q' h Hq' Hwq. erewrite new_table_walk in Hwq by eauto. destruct (decide _) as [_|_]; [injection Hwq as <-; by right|by left].
Qed.

Lemma next_table_old_confined s' r : v <> 0 -> next_table t i flags s = Done (s', r) -> confined s s'.
Proof.
  intros Hne. destruct Hinv as [Ha Hwf]. pose proof (walked_private _ _ _ _ _ _ Hpi Hi4 Hp Hw) as Ht.
  pose proof (wf_words _ _ _ Hwf (frame_number t) i : uint_range 64 v) as Hv.
  assert (inner_entry v) as Hin by by eapply wf_inner.
  destruct (set_flags_child v flags Hv Hin Hne Hfl) as (Hv' & Hin' & Hc').
  unfold next_table. rewrite bind_load by done. fold v.
  unfold is_unused. rewrite (proj2 (Z.eqb_neq _ _) Hne). destruct (negb _ && negb _).
  - set (w := entry_set_flags _ _) in *. set (s1 := set_mem s (mwrite (pt_mem s) (frame_number t) i w)).
    destruct (next_table_tail root s1 p t i) as (r' & _ & Er); try done.
    { split; [done|]. by eapply same_child_wf. }
    { subst s1. cbn [pt_mem set_mem]. by rewrite same_child_walk. }
    { subst s1. cbn [pt_mem set_mem]. rewrite mread_mwrite, decide_True by done. by apply (same_child_nonzero v). }
    erewrite bind_done by reflexivity. fold s1. cbn beta iota. rewrite Er. intros [= <- _].
    apply (confined_write s s1 (frame_number t)); [done|done| |].
    + intros g j Hg. subst s1. cbn [pt_mem set_mem]. rewrite mread_mwrite, decide_False; [done|congruence].
    + intros q' _. subst s1. cbn [pt_mem set_mem]. by rewrite same_child_walk.
  - destruct (next_table_tail root s p t i) as (r' & _ & Er); try done.
    erewrite bind_done by reflexivity. cbn beta iota. rewrite Er. intros [= <- _]. apply confined_refl.
Qed.

Lemma next_table_confined s' r : next_table t i flags s = Done (s', r) -> confined s s'.
Proof. destruct (decide (v = 0)); [by apply next_table_new_confined|by apply next_table_old_confined]. Qed.
End NextTable.
(** One [next_table] on the way down. *)
Lemma next_table_step {R} (k : Frame -> mapper R) s s' r p i i4 q t flags : pt_inv root s -> p ++ [i] = i4 :: q -> private i4 ->
  path 2 p -> table_index i -> walk (pt_mem s) (frame_number root) p = Ok (frame_number t) -> map_flags flags ->
  mapper_bind (next_table t i flags) k s = Done (s', r) ->
  exists s1, pt_inv root s1 /\ confined s s1 /\
    ((exists t', walk (pt_mem s1) (frame_number root) (p ++ [i]) = Ok (frame_number t') /\ k t' s1 = Done (s', r)) \/ s' = s1).
Proof.
  intros Hinv Hpi Hi4 Hp Hi Hw Hfl. destruct (next_table_spec root s p t i flags Hinv) as (s1 & r1 & E & Hinv1 & _ & Hpost & _); [done..|].
  pose proof (next_table_confined s p i i4 q t flags Hinv Hpi Hi4 Hp Hi Hw Hfl s1 r1 E) as Hc.
  rewrite (bind_done _ _ _ _ _ E). destruct r1 as [t'|e]; intros Er; exists s1; (split; [done|]); (split; [done|]).
  - left. by exists t'.
  - right. congruence.
Qed.

Lemma map_to_confined s s' r page frame flags : pt_inv root s -> map_flags flags -> 0 <= frame_number frame < 2 ^ 35 ->
  private (Page_l4_index page) -> map_to root page frame flags s = Done (s', r) -> confined s s'.
Proof.
  intros Hinv Hfl Hf Hi4 E. destruct (page_indices page) as (H4 & H3 & H2 & H1). pose proof (parent_map_flags _ Hfl) as Hpf.
  destruct (path_3 _ _ _ H4 H3 H2) as (P0 & P1 & P2 & P3). unfold map_to in E. cbv zeta in E.
  destruct (next_table_step _ s s' r [] _ _ [] root _ Hinv eq_refl Hi4 ltac:(eapply path_le; [|done]; lia) H4 eq_refl Hpf E)
    as (s1 & Hinv1 & C1 & [(l3 & W1 & E1)| ->]); [|done].
  destruct (next_table_step _ s1 s' r [_] _ _ _ l3 _ Hinv1 eq_refl Hi4 ltac:(eapply path_le; [|done]; lia) H3 W1 Hpf E1)
    as (s2 & Hinv2 & C2 & [(l2 & W2 & E2)| ->]); [|by eapply confined_trans].
  destruct (next_table_step _ s2 s' r [_; _] _ _ _ l2 _ Hinv2 eq_refl Hi4 P2 H2 W2 Hpf E2)
    as (s3 & Hinv3 & C3 & Hl); cbn [app] in *.
  apply (confined_trans _ s1); [done|]. apply (confined_trans _ s2); [done|]. apply (confined_trans _ s3); [done|].
  destruct Hl as [(l1 & W3 & E3)| ->]; [|apply confined_refl]. rewrite bind_load in E3 by done.
  destruct (negb _); [injection E3 as <- _; apply confined_refl|].
  destruct (entry_set_frame_spec frame flags Hf (mf_ok _ Hfl) (mf_not_huge _ Hfl)) as (v & Ev & Hv & Hvp & _).
  unfold mapper_exec, mapper_bind, store, mapper_ret in E3. rewrite Ev in E3. cbn [mbind exec_bind] in E3. injection E3 as <- _.
  apply (confined_write _ _ (frame_number l1)); [|constructor| |]; cbn [pt_mem set_mem].
  - right. by exists (Page_l4_index page), [Page_l3_index page; Page_l2_index page].
  - intros g j Hg. rewrite mread_mwrite, decide_False; [done|congruence].
  - intros q Hq. by apply (leaf_write_walk _ _ _ (proj2 Hinv3) _ _ _ _ _ _ H4 H3 H2 W3).
Qed.
End Confined.

(** ** Two trees that stay apart *)

Lemma view_frame m root av i4 i3 i2 i1 v : pt_wf m root av -> table_index i4 -> table_index i3 -> table_index i2 -> table_index i1 ->
  view m root i4 i3 i2 i1 = Ok v -> 0 <= frame_number (entry_frame_of v) < 2 ^ 35.
Proof.
  intros Hwf H4 H3 H2 H1 Hv. unfold view in Hv. destruct (walk m root [i4; i3; i2]) as [h|] eqn:Ew; [|done].
  destruct (is_unused _); [done|]. injection Hv as <-.
  assert (phys_entry (mread m h i1)) as Hp by (apply (wf_leaf _ _ _ Hwf [i4; i3; i2]); [apply (path_3 _ _ _ H4 H3 H2)|done..]).
  destruct (entry_base (mread m h i1)) as (Hb & _); [by eapply wf_words|done|]. cbn [frame_number entry_frame_of Frame_new].
  unfold PAGE_SIZE, KIBIBYTE. Z.div_mod_to_equations. lia.
Qed.

(** ** The frames that a space takes and the frames that it maps *)

(** The proxy keeps the frames that it has taken from the free ones. *)
Lemma proxy_alloc_steps (p p' : Proxy) : rtc alloc_step p p' ->
  (forall f, f ∈ allocated_frames p -> f ∈ allocated_frames p') /\
  (forall f, f ∈ allocated_frames p' -> f ∈ allocated_frames p \/ (frame_number f ∈ avail p /\ frame_number f ∉ avail p')).
Proof.
  induction 1 as [|p p1 p' [Ha [o E]] Hr [IH1 IH2]]; [split; tauto|]. pose proof (alloc_steps_avail _ _ Hr) as Hav.
  pose proof E as E'. unfold allocate_frame, Proxy_FrameAlloc in E'.
  destruct (allocate_frame (proxy_global p)) as [[fa o']|] eqn:Ef; [|done]. injection E' as <- ->.
  destruct (allocate_frame_spec p Ha) as (p2 & o2 & E2 & _ & Ho). rewrite E2 in E. injection E as -> ->.
  cbn [allocated_frames] in IH1, IH2. destruct o as [g|].
  - destruct Ho as [Hg Hset]. rewrite Hset in IH2, Hav. split.
    + intros f Hf. apply IH1, elem_of_app. by left.
    + intros f Hf. destruct (IH2 f Hf) as [[Hin| ->%list_elem_of_singleton]%elem_of_app|[Hin Hout]]; [by left| |]; right; (split; [set_solver|]); [|done].
      intros Hin. apply Hav in Hin. set_solver.
  - destruct Ho as [_ Ho]. split; [done|]. intros f Hf. destruct (IH2 f Hf) as [?|[Hin Hout]]; [by left|right]. split; [|done].
    by rewrite Ho in Hin.
Qed.

Section Effects.
Context (root : Frame) (private : Z -> Prop) (lent : list Frame).
Implicit Types s : ptstate Proxy.

(** The pages that become mapped in the private part have frames that the
    space has taken itself, or that were lent to it. *)
Record effect s s' : Prop := {
  ef_confined : confined root private s s';
  ef_leaves : forall i4 i3 i2 i1 v, private i4 -> table_index i4 -> table_index i3 -> table_index i2 -> table_index i1 ->
    view (pt_mem s') (frame_number root) i4 i3 i2 i1 = Ok v ->
    (exists w, view (pt_mem s) (frame_number root) i4 i3 i2 i1 = Ok w /\ entry_frame_of w = entry_frame_of v) \/
    entry_frame_of v ∈ allocated_frames (pt_alloc s') ++ lent
}.

Lemma effect_same s s' : pt_mem s' = pt_mem s -> rtc alloc_step (pt_alloc s) (pt_alloc s') -> effect s s'.
Proof. intros E Ha. split; [by apply confined_same|]. rewrite E. eauto. Qed.

Lemma effect_trans s1 s2 s3 : effect s1 s2 -> effect s2 s3 -> effect s1 s3.
Proof.
  intros [C1 L1] [C2 L2]. split; [by eapply confined_trans|]. intros i4 i3 i2 i1 v Hp H4 H3 H2 H1 Hv.
  destruct (proxy_alloc_steps _ _ (cf_alloc _ _ _ _ C2)) as [Hg _].
  destruct (L2 _ _ _ _ _ Hp H4 H3 H2 H1 Hv) as [(w & Hw & <-)|?]; [|by right].
  destruct (L1 _ _ _ _ _ Hp H4 H3 H2 H1 Hw) as [?|[Hin|Hin]%elem_of_app]; [by left|right..]; apply elem_of_app; [left; by apply Hg|by right].
Qed.

Context (flags : Z) (Hflags : map_flags flags).

Lemma map_to_effect s s' r page frame : pt_inv root s -> 0 <= frame_number frame < 2 ^ 35 -> private (Page_l4_index page) ->
  frame ∈ allocated_frames (pt_alloc s) ++ lent -> map_to root page frame flags s = Done (s', r) -> pt_inv root s' /\ effect s s'.
Proof.
  intros Hinv Hf Hp Hin E. pose proof (map_to_confined root private s s' r page frame flags Hinv Hflags Hf Hp E) as Hc.
  destruct (map_to_spec root s page frame flags Hinv Hflags Hf) as (s1 & r1 & E1 & Hinv' & _ & _ & Hr). rewrite E1 in E. injection E as -> ->.
  split; [done|]. split; [done|]. intros i4 i3 i2 i1 v _ H4 H3 H2 H1 Hv.
  assert (Hr' : pt_extends root s s' \/ exists v, leaf_of v frame flags /\ forall i4 i3 i2 i1, table_index i4 -> table_index i3 ->
    table_index i2 -> table_index i1 -> view (pt_mem s') (frame_number root) i4 i3 i2 i1 =
    if decide ([i4; i3; i2; i1] = [Page_l4_index page; Page_l3_index page; Page_l2_index page; Page_l1_index page])
    then Ok v else view (pt_mem s) (frame_number root) i4 i3 i2 i1).
  { destruct (page_view root s page) as [|[]]; [left; apply Hr| |left; apply Hr|]; (destruct Hr as [(_ & _ & X)|[_ X]]; [by left|by right]). }
  destruct Hr' as [X|(w & Hl & Hview)].
  - rewrite (ext_view _ _ _ X) in Hv by done. eauto.
  - rewrite Hview in Hv by done. destruct (decide _) as [_|_]; [|by eauto]. injection Hv as ->. right.
    destruct (leaf_of_frame v frame flags Hflags Hf Hl) as [-> _]. apply elem_of_app in Hin as [Hin|Hin]; apply elem_of_app; [left|by right].
    by apply (proxy_alloc_steps _ _ (cf_alloc _ _ _ _ Hc)).
Qed.

(** Taking a frame. *)
Lemma take_effect s a f : pt_inv root s -> allocate_frame (pt_alloc s) = Done (a, Some f) ->
  let s1 := mkPt (pt_mem s) a (pt_flushed s) in
  pt_inv root s1 /\ effect s s1 /\ f ∈ allocated_frames a /\ 0 <= frame_number f < 2 ^ 35.
Proof.
  intros [Ha Hwf] E. cbv zeta. destruct (allocate_frame_spec (pt_alloc s) Ha) as (a1 & o1 & E1 & Ha1 & Ho).
  rewrite E in E1. injection E1 as <- <-. destruct Ho as [Hin Hset]. split; [split; [done|]|split; [|split]].
  - cbn [pt_mem pt_alloc]. eapply pt_wf_shrink; [|done]. rewrite Hset. set_solver.
  - apply effect_same; [done|]. apply rtc_once. split; [done|]. by exists (Some f).
  - unfold allocate_frame, Proxy_FrameAlloc in E. destruct (allocate_frame _) as [[fa o]|]; [|done]. injection E as <- ->.
    apply elem_of_app. right. by left.
  - by apply (avail_physical (pt_alloc s)).
Qed.

Lemma map_pages_loop_effect pages : forall s s' r, pt_inv root s -> (forall q, q ∈ pages -> private (Page_l4_index q)) ->
  map_pages_loop root pages flags s = Done (s', r) -> pt_inv root s' /\ effect s s'.
Proof.
  induction pages as [|page pages IH]; intros s s' r Hinv Hp E; cbn [map_pages_loop] in E.
  { injection E as <- _. split; [done|]. by apply effect_same. }
  unfold mapper_bind, mapper_alloc, mapper_exec in E. destruct (allocate_frame (pt_alloc s)) as [[a [f|]]|] eqn:Ea; cbn [mbind exec_bind unwrap] in E; [|done..].
  destruct (take_effect s a f Hinv Ea) as (Hinv1 & X1 & Hin & Hf). set (s1 := mkPt _ _ _) in *.
  destruct (map_to root page f flags s1) as [[s2 r2]|] eqn:Em; [|done]. cbn [mbind exec_bind] in E.
  destruct (map_to_effect s1 s2 r2 page f Hinv1 Hf) as [Hinv2 X2]; [apply Hp; by left|apply elem_of_app; by left|done|].
  assert (Hrest : forall s3, pt_mem s3 = pt_mem s2 -> pt_alloc s3 = pt_alloc s2 -> map_pages_loop root pages flags s3 = Done (s', r) ->
    pt_inv root s' /\ effect s s').
  { intros s3 Em3 Ea3 E3. destruct (IH s3 s' r) as [? X3]; [by unfold pt_inv; rewrite Em3, Ea3|intros q Hq; apply Hp; by right|done|].
    split; [done|]. eapply effect_trans; [exact X1|]. eapply effect_trans; [exact X2|]. eapply effect_trans; [|exact X3].
    apply effect_same; [done|]. by rewrite Ea3. }
  destruct r2 as [fl|[to| |]]; [by apply (Hrest (flush s2 fl))|destruct (decide (to = f)); [by apply (Hrest s2)|]|..];
    injection E as <- _; (split; [done|by eapply effect_trans]).
Qed.

Lemma map_pages_untracked_loop_effect pages : forall s s' r, pt_inv root s -> (forall q, q ∈ pages -> private (Page_l4_index q)) ->
  map_pages_untracked_loop root pages flags s = Done (s', r) -> pt_inv root s' /\ effect s s'.
Proof.
  induction pages as [|page pages IH]; intros s s' r Hinv Hp E; cbn [map_pages_untracked_loop] in E.
  { injection E as <- _. split; [done|]. by apply effect_same. }
  unfold mapper_bind, mapper_alloc, mapper_exec, mapper_flush in E.
  destruct (allocate_frame (pt_alloc s)) as [[a [f|]]|] eqn:Ea; cbn [mbind exec_bind unwrap] in E; [|done..].
  destruct (take_effect s a f Hinv Ea) as (Hinv1 & X1 & Hin & Hf). set (s1 := mkPt _ _ _) in *.
  destruct (map_to root page f flags s1) as [[s2 r2]|] eqn:Em; [|done]. cbn [mbind exec_bind] in E.
  destruct (map_to_effect s1 s2 r2 page f Hinv1 Hf) as [Hinv2 X2]; [apply Hp; by left|apply elem_of_app; by left|done|].
  destruct r2 as [fl|e]; [|injection E as <- _; split; [done|by eapply effect_trans]].
  destruct (IH (flush s2 fl) s' r) as [? X3]; [done|intros q Hq; apply Hp; by right|done|].
  split; [done|]. eapply effect_trans; [exact X1|]. eapply effect_trans; [exact X2|]. eapply effect_trans; [|exact X3].
  by apply effect_same.
Qed.
End Effects.

Section Apart.
Context (root kernel : Frame) (private : Z -> Prop) (flags : Z) (Hflags : map_flags flags).
Implicit Types s : ptstate Proxy.

(** No table of the kernel is a private table of the process. *)
Definition apart (m : pmem) : Prop := forall p h, path 3 p -> walk m (frame_number kernel) p = Ok h -> ~ private_table root private m h.

Record shared_inv s : Prop := {
  si_user : pt_inv root s;
  si_kernel : pt_wf (pt_mem s) (frame_number kernel) (avail (pt_alloc s));
  si_apart : apart (pt_mem s)
}.

(** Confined writes do not reach a tree that is apart. *)
Lemma confined_reads s s' : pt_wf (pt_mem s) (frame_number kernel) (avail (pt_alloc s)) -> apart (pt_mem s) -> confined root private s s' ->
  forall q h j, path 3 q -> walk (pt_mem s) (frame_number kernel) q = Ok h -> mread (pt_mem s') h j = mread (pt_mem s) h j.
Proof.
  intros Hk Hap Hc q h j Hq Hw. destruct (decide (mread (pt_mem s') h j = mread (pt_mem s) h j)) as [|Hne]; [done|].
  exfalso. destruct (cf_writes _ _ _ _ Hc _ _ Hne); [by apply (Hap q h)|by apply (wf_avail _ _ _ Hk q h)].
Qed.

Lemma confined_kernel s s' : shared_inv s -> pt_inv root s' -> confined root private s s' ->
  shared_inv s' /\ forall q, page_view kernel s' q = page_view kernel s q.
Proof.
  intros [Hu Hk Hap] Hu' Hc. pose proof (confined_reads s s' Hk Hap Hc) as Hsame. split; [split; [done| |]|].
  - eapply (same_tables_wf (pt_mem s)); [done| |by apply (cf_avail root private)|done]. apply Hu'.
  - intros p h Hp Hw Hpr. erewrite same_tables_walk in Hw by eauto.
    destruct (cf_private _ _ _ _ _ Hc Hpr); [by apply (Hap p h)|by apply (wf_avail _ _ _ Hk p h)].
  - intros q. destruct (page_indices q) as (H4 & H3 & H2 & _). by eapply same_tables_view.
Qed.

Lemma flush_shared s fl : shared_inv s -> shared_inv (flush s fl).
Proof. by intros []. Qed.

(** The private pages of the kernel have frames that it may lend. *)
Definition lends (lent : list Frame) s : Prop := forall page v, private (Page_l4_index page) ->
  page_view kernel s page = Ok v -> entry_frame_of v ∈ lent.

Lemma map_kernel_pages_loop_effect lent l : forall s s' r, shared_inv s -> lends lent s ->
  (forall q k, (q, k) ∈ l -> private (Page_l4_index q) /\ private (Page_l4_index k)) ->
  map_kernel_pages_loop root kernel l flags s = Done (s', r) -> pt_inv root s' /\ effect root private lent s s'.
Proof.
  induction l as [|[page kpage] l IH]; intros s s' r Hs Hlend Hp E; cbn [map_kernel_pages_loop] in E.
  { injection E as <- _. split; [apply Hs|]. by apply effect_same. }
  destruct (Hp page kpage) as [Hpq Hpk]; [by left|]. erewrite translate_page_view in E by apply Hs.
  destruct (view _ _ _ _ _ _) as [w|] eqn:Ew; cbn [mbind exec_bind result_ok unwrap] in E; [|done].
  destruct (page_indices kpage) as (K4 & K3 & K2 & K1). pose proof (view_frame _ _ _ _ _ _ _ _ (si_kernel _ Hs) K4 K3 K2 K1 Ew) as Hf.
  unfold mapper_bind, mapper_flush in E. destruct (map_to root page _ flags s) as [[s1 r1]|] eqn:Em; [|done]. cbn [mbind exec_bind] in E.
  destruct (map_to_effect root private lent flags Hflags s s1 r1 page _ (si_user _ Hs) Hf Hpq) as [Hinv1 X1]; [|done|].
  { apply elem_of_app. right. by apply (Hlend kpage). }
  destruct (confined_kernel s s1 Hs Hinv1 (ef_confined _ _ _ _ _ X1)) as [Hs1 Hk].
  destruct r1 as [fl|e]; [|by injection E as <- _].
  destruct (IH (flush s1 fl) s' r) as [? X2]; [by apply flush_shared| | |done|].
  - intros q v Hq Hv. apply (Hlend q v Hq). rewrite <-Hk. exact Hv.
  - intros q k Hin. apply Hp. by right.
  - split; [done|]. eapply effect_trans; [exact X1|]. eapply effect_trans; [|exact X2]. by apply effect_same.
Qed.

(** One page of the loop. *)
Lemma share_page s page w : shared_inv s -> canonical_page page -> private (Page_l4_index page) ->
  page_view root s page = Err NotMapped -> 0 <= frame_number (entry_frame_of w) < 2 ^ 35 ->
  exists s' r, map_to root page (entry_frame_of w) flags s = Done (s', r) /\ shared_inv s' /\ takes 3 s s' /\
    (forall q, page_view kernel s' q = page_view kernel s q) /\
    match r with
    | Ok fl => fl = mkFlush page /\ exists v, entry_frame_of v = entry_frame_of w /\ entry_flags v = flags /\
        forall q, canonical_page q -> page_view root s' q = if decide (q = page) then Ok v else page_view root s q
    | Err e => e = FrameAllocationFailed /\ avail (pt_alloc s') = ∅ /\ forall q, page_view root s' q = page_view root s q
    end.
Proof.
  intros Hs Hc Hpr Hun Hf. destruct (map_to_spec root s page (entry_frame_of w) flags (si_user _ Hs) Hflags Hf) as (s' & r & E & Hinv' & K & _ & Hr).
  apply (takes_le _ 3) in K; [|apply missing_tables_bound].
  pose proof (map_to_confined root private s s' r page _ flags (si_user _ Hs) Hflags Hf Hpr E) as Hcf.
  destruct (confined_kernel s s' Hs Hinv' Hcf) as [Hs' Hk]. exists s', r. split; [done|]. split; [done|]. split; [done|]. split; [done|].
  rewrite Hun in Hr. destruct Hr as [(-> & Hav & X)|[-> (v & Hv & Hview)]].
  - split; [done|]. split; [done|]. intros q. destruct (page_indices q) as (?&?&?&?). by apply (ext_view _ _ _ X).
  - split; [done|]. exists v. destruct (leaf_of_frame v _ flags Hflags Hf Hv) as [Hvf Hvfl]. split; [done|]. split; [done|].
    intros q Hq. destruct (page_indices q) as (?&?&?&?). unfold page_view at 1. rewrite Hview by done.
    destruct (decide (q = page)) as [->|Hne]; [by rewrite decide_True|rewrite decide_False; [done|]]. intros Hi. by apply Hne, page_indices_inj.
Qed.

Lemma map_kernel_pages_loop_spec l : forall s, shared_inv s -> NoDup l.*1 ->
  (forall q k, (q, k) ∈ l -> canonical_page q /\ private (Page_l4_index q) /\ page_view root s q = Err NotMapped /\
     exists w, page_view kernel s k = Ok w) ->
  exists s' r, map_kernel_pages_loop root kernel l flags s = Done (s', r) /\ shared_inv s' /\ takes (3 * Z.of_nat (length l)) s s' /\
    (forall q, page_view kernel s' q = page_view kernel s q) /\
    (forall q, canonical_page q -> q ∉ l.*1 -> page_view root s' q = page_view root s q) /\
    match r with
    | Ok _ => forall q k, (q, k) ∈ l -> exists v w, page_view root s' q = Ok v /\ page_view kernel s k = Ok w /\
        entry_frame_of v = entry_frame_of w /\ entry_flags v = flags
    | Err e => e = FrameAllocationFailed /\ avail (pt_alloc s') = ∅
    end.
Proof.
  induction l as [|[page kpage] l IH]; intros s Hs Hnd Hl; cbn [map_kernel_pages_loop].
  { exists s, (Ok tt). split; [done|]. split; [done|]. split; [by apply takes_same|]. split; [done|]. split; [done|]. by intros ?? ?%elem_of_nil. }
  destruct (Hl page kpage) as (Hc & Hpr & Hun & w & Hw); [by left|]. apply NoDup_cons in Hnd as [Hnin Hnd].
  erewrite translate_page_view by apply Hs. unfold page_view in Hw. rewrite Hw. cbn [mbind exec_bind result_ok unwrap].
  destruct (page_indices kpage) as (K4 & K3 & K2 & K1). pose proof (view_frame _ _ _ _ _ _ _ _ (si_kernel _ Hs) K4 K3 K2 K1 Hw) as Hf.
  destruct (share_page s page w Hs Hc Hpr Hun Hf) as (s1 & r & E & Hs1 & T1 & V1 & Hr). rewrite (bind_done _ _ _ _ _ E).
  destruct r as [fl|e]; cycle 1.
  { destruct Hr as (-> & Hav & V). exists s1, (Err FrameAllocationFailed). split; [done|]. split; [done|].
    split; [eapply takes_le; [|done]; cbn [length]; lia|]. split; [done|]. by split. }
  destruct Hr as (-> & v & Hvf & Hvfl & V). unfold mapper_flush. erewrite bind_done by reflexivity. cbn beta iota.
  destruct (IH (flush s1 (mkFlush page)) (flush_shared _ _ Hs1) Hnd) as (s' & r & E' & Hs' & T' & VK & VR & Hr).
  { intros q k Hin. destruct (Hl q k) as (Hcq & Hpq & Huq & wq & Hwq); [by right|]. split; [done|]. split; [done|].
    split; [|exists wq; rewrite <-Hwq; apply V1]. change (page_view root s1 q = Err NotMapped). rewrite V, decide_False; [done| |done].
    intros ->. apply Hnin. by apply (list_elem_of_fmap_2 fst l (page, k)). }
  exists s', r. split; [done|]. split; [done|]. split.
  { eapply takes_le; [|eapply takes_trans; [exact T1|exact T']]. cbn [length]. lia. }
  split; [intros q; by rewrite VK; apply V1|]. split.
  { intros q Hcq Hq. cbn [fmap list_fmap fst] in Hq. apply not_elem_of_cons in Hq as [Hne Hq]. rewrite VR by done.
    change (page_view root s1 q = page_view root s q). by rewrite V, decide_False. }
  destruct r as [[]|e]; [|done]. intros q k [[= -> ->]|Hin]%elem_of_cons.
  - exists v, w. split; [|done]. rewrite VR by done. change (page_view root s1 page = Ok v). by rewrite V, decide_True.
  - destruct (Hr q k Hin) as (v' & w' & Hv' & Hw' & Hrest). exists v', w'. split; [done|]. split; [|done]. rewrite <-Hw'. symmetry. apply V1.
Qed.
End Apart.

(** ** [map_into] *)

(** The level 4 entries that a new address space does not take over. *)
Definition private_entry (i : Z) : Prop := shared_entry None i = false.

(** The trees of a space and of the kernel are well formed and apart. *)
Definition space_apart (k : Kernel) (self : AddressSpace) : Prop :=
  shared_inv (space_frame self) (space_frame (k_space k)) private_entry (space_pt k self).

(** [AddressSpace::new] succeeds only in the kernel's space and with a frame. *)
Lemma AddressSpace_new_done k name k' s : kernel_ok k (space_frame (k_space k)) -> AddressSpace_new k name None = Done (k', s) ->
  is_current k (k_space k) = true /\ free_set (bitmap (k_frames k)) <> ∅.
Proof.
  intros [Hfa _] E. unfold AddressSpace_new in E. destruct (is_current k (k_space k)); [|done]. split; [done|]. intros He.
  cbn [rust_assert mbind exec_bind] in E. unfold allocate_frame, Proxy_FrameAlloc in E. cbn [proxy_global] in E.
  destruct (@allocate_frame_spec FrameAllocator _ FrameAllocator_laws (k_frames k) Hfa) as (fa & [f|] & Ef & _ & Ho); rewrite Ef in E; [|done].
  destruct Ho as [Hin _]. change (avail (k_frames k)) with (free_set (bitmap (k_frames k))) in Hin. rewrite He in Hin. by apply not_elem_of_empty in Hin.
Qed.

Lemma entry_not_inherited i : private_entry i -> table_index i -> i ∉ inherited_indices None.
Proof.
  unfold private_entry. intros Hi Ht Hin. rewrite (shared_entry_spec None i Ht) in Hi. apply bool_decide_eq_false in Hi. exact (Hi Hin).
Qed.

(** A new space is apart from the kernel's, whose tree it leaves alone, and
    its private part is empty. *)
Lemma AddressSpace_new_apart k name k' s : kernel_ok k (space_frame (k_space k)) -> AddressSpace_new k name None = Done (k', s) ->
  exists f, s = mkSpace name f [f] /\ frame_number f ∈ free_set (bitmap (k_frames k)) /\
    free_set (bitmap (k_frames k')) = free_set (bitmap (k_frames k)) ∖ {[frame_number f]} /\
    k_space k' = k_space k /\ space_apart k' s /\
    (forall h j, h <> frame_number f -> mread (k_mem k') h j = mread (k_mem k) h j) /\
    (forall i q, private_entry i -> path 3 (i :: q) -> walk (k_mem k') (frame_number f) (i :: q) = Err NotPresent) /\
    (forall i q h, path 3 (i :: q) -> walk (k_mem k') (frame_number f) (i :: q) = Ok h ->
       ~ private_entry i /\ walk (k_mem k) (frame_number (space_frame (k_space k))) (i :: q) = Ok h) /\
    (forall q, AddressSpace_translate_page k' (k_space k') q = AddressSpace_translate_page k (k_space k) q).
Proof.
  intros Hk E. destruct (AddressSpace_new_done _ _ _ _ Hk E) as [Hcur Hne].
  destruct (AddressSpace_new_spec k name None Hk Hcur Hne) as (k1 & s1 & f & E1 & -> & Hf & Hfa' & Hset & Ho & Hn & Hw & Hsp).
  rewrite E1 in E. injection E as -> <-. cbn [parent_of default] in Hn. destruct Hk as [Hfa Hwf].
  assert (Hpriv : forall i q, private_entry i -> path 3 (i :: q) -> walk (k_mem k') (frame_number f) (i :: q) = Err NotPresent).
  { intros i q Hi Hq. rewrite (new_root_walk _ _ _ _ _ _ Hwf Hf Ho Hn) by done. rewrite decide_False; [done|]. intros Hin.
    apply (entry_not_inherited i Hi); [|exact Hin]. destruct Hq as [_ Hq]. by apply Forall_inv in Hq. }
  assert (Hshare : forall i q h, path 3 (i :: q) -> walk (k_mem k') (frame_number f) (i :: q) = Ok h ->
    ~ private_entry i /\ walk (k_mem k) (frame_number (space_frame (k_space k))) (i :: q) = Ok h).
  { intros i q h Hq Hwq. split; [intros Hi; by rewrite Hpriv in Hwq|]. rewrite (new_root_walk _ _ _ _ _ _ Hwf Hf Ho Hn) in Hwq by done. by destruct (decide _). }
  exists f. split; [done|]. split; [done|]. split; [done|]. split; [done|].
  assert (Hsame := new_root_src_same _ _ _ _ _ Hwf Hf Ho).
  assert (Hwf' : pt_wf (k_mem k') (frame_number (space_frame (k_space k))) (free_set (bitmap (k_frames k')))).
  { rewrite Hset. eapply (same_tables_wf (k_mem k)); [done|done|set_solver|exact Hsame]. }
  split; [|split; [done|split; [done|split; [done|]]]]; cycle 1.
  { intros q. destruct (page_indices q) as (H4 & H3 & H2 & _). unfold AddressSpace_translate_page. rewrite Hsp.
    erewrite !translate_page_view by done. by erewrite same_tables_view by done. }
  split; rewrite ?Hsp; cbn [space_frame space_pt pt_mem pt_alloc].
  - split; [exact Hfa'|]. change (avail _) with (free_set (bitmap (k_frames k'))). rewrite Hset. by eapply new_root_wf.
  - exact Hwf'.
  - intros p h Hp. rewrite (same_tables_walk _ _ _ Hsame) by done. intros Hwp [->|(i & q & Hi & Hq & Hwq)].
    + exact (new_root_fresh _ _ _ _ Hwf Hf p _ Hp Hwp eq_refl).
    + by rewrite Hpriv in Hwq.
Qed.

Lemma PageRange_pages_nodup r : NoDup (PageRange_pages r).
Proof. unfold PageRange_pages. apply NoDup_fmap; [by intros ?? [= ->]|apply NoDup_seqZ]. Qed.

Lemma space_pt_back k self t : space_pt (pt_kernel k t) (pt_space self t) = t.
Proof. by destruct t as [? [] ?]. Qed.

Lemma translate_view {A av} t (s : ptstate A) sp q : k_mem t = pt_mem s -> pt_wf (pt_mem s) (frame_number (space_frame sp)) av ->
  AddressSpace_translate_page t sp q = Done (match page_view (space_frame sp) s q with Ok v => Some (entry_frame_of v) | Err _ => None end).
Proof.
  intros E Hwf. unfold AddressSpace_translate_page. rewrite E. erewrite translate_page_view by exact Hwf. unfold page_view. by destruct (view _ _ _ _ _ _).
Qed.

Lemma zipped_pages k self kpages pages q kq : space_apart k self ->
  (forall q, q ∈ pages -> canonical_page q /\ private_entry (Page_l4_index q) /\ translate_page (k_mem k) (space_frame self) q = Done (Err NotMapped)) ->
  (forall q, q ∈ kpages -> exists f, AddressSpace_translate_page k (k_space k) q = Done (Some f)) -> (q, kq) ∈ zip pages kpages ->
  canonical_page q /\ private_entry (Page_l4_index q) /\ page_view (space_frame self) (space_pt k self) q = Err NotMapped /\
    exists w, page_view (space_frame (k_space k)) (space_pt k self) kq = Ok w.
Proof.
  intros Hs Hq Hkq Hin. destruct (Hq q (elem_of_zip_l _ _ _ _ Hin)) as (Hc & Hp & Ht). split; [done|]. split; [done|]. split.
  - erewrite translate_page_view in Ht by apply (si_user _ _ _ _ Hs). unfold page_view. cbn [space_pt pt_mem]. by destruct (view _ _ _ _ _ _); congruence.
  - destruct (Hkq kq (elem_of_zip_r _ _ _ _ Hin)) as [f Hf].
    rewrite (translate_view k (space_pt k self) (k_space k) kq eq_refl (si_kernel _ _ _ _ Hs)) in Hf. destruct (page_view _ _ _); [eauto|done].
Qed.

(** C21: mapping a kernel mapping into a process makes each page of the range
    translate to the frame of the kernel's page at the same place, and changes
    neither another translation of the process nor any of the kernel, whose
    tree stays apart. It succeeds when there are three free frames for each
    page, and fails only when none is left. *)
Theorem map_into_shares (k : Kernel) (m : KMapping) (self : AddressSpace) (pages : PageRange) (flags : Z) :
  space_apart k self -> map_flags flags -> length (PageRange_pages (mapping_pages m)) = length (PageRange_pages pages) ->
  (forall q, q ∈ PageRange_pages pages -> canonical_page q /\ private_entry (Page_l4_index q) /\
     translate_page (k_mem k) (space_frame self) q = Done (Err NotMapped)) ->
  (forall q, q ∈ PageRange_pages (mapping_pages m) -> exists f, AddressSpace_translate_page k (k_space k) q = Done (Some f)) ->
  exists k' self' r, KernelMapping_map_into k m self pages flags = Done (k', self', r) /\
    space_frame self' = space_frame self /\ k_space k' = k_space k /\ space_apart k' self' /\
    (forall q, AddressSpace_translate_page k' (k_space k') q = AddressSpace_translate_page k (k_space k) q) /\
    (forall q, canonical_page q -> q ∉ PageRange_pages pages ->
       AddressSpace_translate_page k' self' q = AddressSpace_translate_page k self q) /\
    match r with
    | Ok _ => (forall n q kq, PageRange_pages pages !! n = Some q -> PageRange_pages (mapping_pages m) !! n = Some kq ->
        AddressSpace_translate_page k' self' q = AddressSpace_translate_page k (k_space k) kq) /\
        (mapping_name m, pages) ∈ default [] (spaces (TRACKER k') !! (space_name self, space_frame self))
    | Err e => e = FrameAllocationFailed /\ free_frames (k_frames k') = 0 /\
        free_frames (k_frames k) <= 3 * Z.of_nat (length (PageRange_pages pages))
    end.
Proof.
  intros Hs Hfl Hlen Hq Hkq. unfold KernelMapping_map_into, AddressSpace_map_kernel_pages_to.
  rewrite (proj2 (Nat.eqb_eq _ _) Hlen). cbn [rust_assert mbind exec_bind].
  set (root := space_frame self) in *. set (kernel := space_frame (k_space k)) in *.
  set (l := zip (PageRange_pages pages) (PageRange_pages (mapping_pages m))).
  assert (Hfst : l.*1 = PageRange_pages pages) by (apply fst_zip; lia).
  pose proof (si_user _ _ _ _ Hs) as Hu. pose proof (si_kernel _ _ _ _ Hs) as Hk.
  destruct (map_kernel_pages_loop_spec root kernel private_entry flags Hfl l (space_pt k self) Hs)
    as (s' & r & E & Hs' & K & VK & VR & Hr).
  { rewrite Hfst. apply PageRange_pages_nodup. }
  { intros q kq. by apply zipped_pages. }
  rewrite E. cbn [mbind exec_bind]. pose proof (si_user _ _ _ _ Hs') as [Ha' Hu']. pose proof (si_kernel _ _ _ _ Hs') as Hk'.
  set (k1 := pt_kernel k s'). set (self' := pt_space self s').
  assert (Hsame : forall t, k_mem t = pt_mem s' ->
    (forall q, AddressSpace_translate_page t (k_space k) q = AddressSpace_translate_page k (k_space k) q) /\
    (forall q, canonical_page q -> q ∉ PageRange_pages pages -> AddressSpace_translate_page t self' q = AddressSpace_translate_page k self q)).
  { intros t Et. split; intros q.
    - rewrite (translate_view t s' (k_space k) q Et Hk'), (translate_view k (space_pt k self) (k_space k) q eq_refl Hk). by rewrite VK.
    - intros Hcq Hnq. rewrite (translate_view t s' self' q Et Hu'), (translate_view k (space_pt k self) self q eq_refl (proj2 Hu)).
      change (space_frame self') with root. rewrite VR; [done..|by rewrite Hfst]. }
  destruct r as [[]|e]; eexists _, self', _; (split; [reflexivity|]); (split; [done|]); (split; [done|]);
    (split; [unfold space_apart; change (space_pt _ self') with (space_pt k1 self'); unfold k1, self'; by rewrite space_pt_back|]).
  - destruct (Hsame (set_tracker k1 (tracker_push (TRACKER k1) (space_name self', space_frame self') (mapping_name m, pages))) eq_refl) as [H1 H2].
    split; [exact H1|]. split; [exact H2|]. split.
    + intros n q kq Eq Ek. destruct (Hr q kq) as (v & w & Hv & Hw & Hvw & _).
      { apply (list_elem_of_lookup_2 _ n), lookup_zip_with_Some. eauto. }
      etrans; [eapply (translate_view _ s' self' q); [reflexivity|exact Hu']|].
      rewrite (translate_view k (space_pt k self) (k_space k) kq eq_refl Hk).
      change (space_frame self') with root. fold kernel. by rewrite Hv, Hw, Hvw.
    + cbn [TRACKER set_tracker spaces tracker_push]. rewrite lookup_insert_eq. apply elem_of_app. right. by left.
  - destruct (Hsame k1 eq_refl) as [H1 H2]. split; [exact H1|]. split; [exact H2|]. destruct Hr as [-> Hav]. split; [done|].
    rewrite (fa_count (k_frames k1) Ha'). destruct K as [_ K]. rewrite Hav in K. change (avail (pt_alloc s')) with (free_set (bitmap (k_frames k1))) in Hav.
    rewrite Hav. split; [done|].
    rewrite (fa_count (k_frames k) (proj1 Hu)), <-Hfst, length_fmap. rewrite size_empty in K. exact K.
Qed.

(** The kernel maps a page, creates a process and maps the page into it, at the
    same address. *)
Definition shared_page : Page := Page_containing_addr (Address_new KERNEL_MAPPING_BASE).
Definition shared_range : PageRange := mkRange shared_page (Page_new (page_number shared_page + 1)).

Lemma shared_pages : PageRange_pages shared_range = [shared_page].
Proof. by vm_compute. Qed.

Lemma map_into_shares_witness : exists k m self k' self' r, KernelMapping_map_into k m self shared_range (Z.lor PRESENT WRITABLE) = Done (k', self', r) /\
  space_apart k' self'.
Proof.
  destruct small_init as (fa & _ & Hinv & Hfree & Hs). pose proof (small_kernel_ok fa Hinv Hs) as [Hk0 Hwf0].
  destruct (map_pages_loop_spec (Frame_new 2) (Z.lor PRESENT WRITABLE) example_flags [shared_page] (space_pt (small_kernel fa) (k_space (small_kernel fa))))
    as (s1 & _ & [Ha1 Hwf1] & [_ K1] & Hmap & _).
  { by split. }
  { intros q ->%list_elem_of_singleton. split; [split; [right|]; by vm_compute|by vm_compute]. }
  { change (avail _) with (free_set (bitmap fa)). rewrite <-(fa_count _ Hinv), Hfree. done. }
  set (k1 := pt_kernel (small_kernel fa) s1).
  destruct (AddressSpace_new_spec k1 "p" None) as (k2 & s & f & E2 & _); [by split|done| |].
  { intros He. change (avail (pt_alloc s1)) with (free_set (bitmap (k_frames k1))) in K1. rewrite He, size_empty in K1.
    change (avail _) with (free_set (bitmap fa)) in K1. rewrite <-(fa_count _ Hinv), Hfree in K1. cbn in K1. lia. }
  destruct (AddressSpace_new_apart k1 "p" k2 s) as (f' & -> & _ & _ & Hsp & Hap & _ & Hpriv & _ & Htr); [by split|done|].
  destruct (map_into_shares k2 (mkMapping "page" 4096 shared_range 3) (mkSpace "p" f' [f']) shared_range (Z.lor PRESENT WRITABLE) Hap example_flags eq_refl)
    as (k' & self' & r & E & _ & _ & Hap' & _).
  - intros q. rewrite shared_pages. intros ->%list_elem_of_singleton. split; [split; [right|]; by vm_compute|]. split; [by vm_compute|].
    destruct (page_indices shared_page) as (H4 & H3 & H2 & _). erewrite translate_page_view by apply (proj2 (si_user _ _ _ _ Hap)).
    unfold view. cbn [space_frame space_pt pt_mem]. rewrite Hpriv; [done|by vm_compute|]. by apply path_3.
  - intros q. cbn [mapping_pages]. rewrite shared_pages. intros ->%list_elem_of_singleton. rewrite Htr.
    rewrite (translate_view k1 s1 (k_space k1) shared_page eq_refl Hwf1). specialize (Hmap shared_page).
    destruct Hmap as [(_ & v & Hv & _)|[Hn _]]; [split; [right|]; by vm_compute| |by destruct Hn; left].
    change (space_frame (k_space k1)) with (Frame_new 2). rewrite Hv. eauto.
  - exists k2, (mkMapping "page" 4096 shared_range 3), (mkSpace "p" f' [f']), k', self', r. split; [exact E|exact Hap'].
Defined.
