(* ===== verification/Isolation.v ===== *)
(** * kernel/src/memory.rs: address spaces are isolated from each other

    The kernel and the processes have page tables that share entries, and all
    of them take their tables and frames from one allocator. This file follows
    the address spaces of the kernel and of the live processes, over any
    sequence of the operations of [memory.rs] on the private part of a space:
    creating one, mapping pages, lending it kernel pages, growing such a
    mapping and dropping it. Proved: an operation on a space changes no
    translation of another; a mapped frame is never free, and two spaces share
    only frames of the kernel. The physical half is shared by intention:
    granting one process access to a physical page grants it to all, and when
    the page is not mapped, the kernel's tables are left with a freed one. *)

From Stdlib Require Import Lia.
From stdpp Require Import base numbers option strings tactics relations gmap fin_sets sets list.
From S2P Require Import Prelude BitUtils MemoryTypes FrameAllocator Paging Memory Sharing.

Local Open Scope Z_scope.

(** ** The invariant *)

(** The spaces by their owner: the kernel ([None]) or a process. *)
Definition owners : Type := option Z -> option AddressSpace.

Definition set_space_of (o : option Z) (s : option AddressSpace) (sp : owners) : owners := fun x => if decide (x = o) then s else sp x.

Definition is_table (m : pmem) (s : AddressSpace) (h : Z) : Prop := exists p, path 3 p /\ walk m (frame_number (space_frame s)) p = Ok h.

Definition leaf (m : pmem) (s : AddressSpace) (page : Page) : result Z TranslationError :=
  view m (frame_number (space_frame s)) (Page_l4_index page) (Page_l3_index page) (Page_l2_index page) (Page_l1_index page).

Abbreviation private_table_of s := (private_table (space_frame s) private_entry).
Abbreviation free k := (free_set (bitmap (k_frames k))).

(** Every tree is well formed; the private tables of a space are in no other
    tree; the frames that a process has taken are tables of no other space,
    are not free and are its own; the private part of a space maps its own
    frames and those of the kernel. *)
Record isolated (m : pmem) (av : gset Z) (sp : owners) : Prop := {
  iso_wf : forall o s, sp o = Some s -> pt_wf m (frame_number (space_frame s)) av;
  iso_apart : forall o o' s t h, o <> o' -> sp o = Some s -> sp o' = Some t -> is_table m s h -> ~ private_table_of t m h;
  iso_tables : forall o id s t h, o <> Some id -> sp o = Some s -> sp (Some id) = Some t -> is_table m s h -> Frame_new h ∉ space_allocated t;
  iso_owned : forall o s f, sp o = Some s -> f ∈ space_allocated s -> 0 <= frame_number f < MAX_FRAMES /\ frame_number f ∉ av;
  iso_owners : forall o o' s t f, o <> o' -> sp o = Some s -> sp o' = Some t -> f ∈ space_allocated s -> f ∉ space_allocated t;
  iso_leaves : forall o s K page v, sp o = Some s -> sp None = Some K -> private_entry (Page_l4_index page) ->
    leaf m s page = Ok v -> entry_frame_of v ∈ space_allocated s ++ space_allocated K
}.

Lemma private_is_table m s h : private_table_of s m h -> is_table m s h.
Proof.
  intros [->|(i & q & _ & Hq & Hw)]; [|by exists (i :: q)]. exists []. split; [split; [cbn; lia|by constructor]|done].
Qed.

Lemma table_not_free m av sp o s h : isolated m av sp -> sp o = Some s -> is_table m s h -> h ∉ av.
Proof. intros Hiso Hs (p & Hp & Hw). by apply (wf_avail _ _ _ (iso_wf _ _ _ Hiso o s Hs) p). Qed.

(** Spaces whose tables keep their words. *)
Section Same.
Context (m m' : pmem) (s : AddressSpace).
Hypothesis (Hsame : forall h j, is_table m s h -> mread m' h j = mread m h j).

Lemma same_reads q h j : path 3 q -> walk m (frame_number (space_frame s)) q = Ok h -> mread m' h j = mread m h j.
Proof. intros Hq Hw. apply Hsame. by exists q. Qed.

Lemma same_walk q : path 3 q -> walk m' (frame_number (space_frame s)) q = walk m (frame_number (space_frame s)) q.
Proof. by apply same_tables_walk, same_reads. Qed.

Lemma same_is_table h : is_table m' s h <-> is_table m s h.
Proof. unfold is_table. split; intros (p & Hp & Hw); exists p; (split; [done|]); [by rewrite <-same_walk|by rewrite same_walk]. Qed.

Lemma same_private h : private_table_of s m' h <-> private_table_of s m h.
Proof.
  unfold private_table. split; (intros [?|(i & q & Hi & Hq & Hw)]; [by left|]); right; exists i, q; (split; [done|]); (split; [done|]);
    [by rewrite <-same_walk|by rewrite same_walk].
Qed.

Lemma same_leaf page : leaf m' s page = leaf m s page.
Proof. destruct (page_indices page) as (H4 & H3 & H2 & _). by apply same_tables_view; [apply same_reads|..]. Qed.
End Same.

(** ** An operation on one space *)

Section Effect.
Context (k : Kernel) (sp : owners) (o : option Z) (s K : AddressSpace) (t' : ptstate Proxy).
Let m := k_mem k.
Let m' := pt_mem t'.
Let av' := avail (pt_alloc t').
Let s' := pt_space s t'.
Hypothesis (Hiso : isolated m (free k) sp) (Ho : sp o = Some s) (HK : sp None = Some K).
Hypothesis (Hinv : pt_inv (space_frame s) t') (Heff : effect (space_frame s) private_entry (space_allocated K) (space_pt k s) t').

Lemma effect_avail : av' ⊆ free k.
Proof. exact (cf_avail _ _ _ _ (ef_confined _ _ _ _ _ Heff)). Qed.

Lemma effect_kept f : f ∈ space_allocated s -> f ∈ space_allocated s'.
Proof. by apply (proxy_alloc_steps _ _ (cf_alloc _ _ _ _ (ef_confined _ _ _ _ _ Heff))). Qed.

Lemma effect_taken f : f ∈ space_allocated s' -> f ∈ space_allocated s \/ (frame_number f ∈ free k /\ frame_number f ∉ av').
Proof. by apply (proxy_alloc_steps _ _ (cf_alloc _ _ _ _ (ef_confined _ _ _ _ _ Heff))). Qed.

Lemma effect_reads x u h j : x <> o -> sp x = Some u -> is_table m u h -> mread m' h j = mread m h j.
Proof.
  intros Hx Hu Hh. destruct (decide (mread m' h j = mread m h j)) as [|Hne]; [done|]. exfalso.
  destruct (cf_writes _ _ _ _ (ef_confined _ _ _ _ _ Heff) _ _ Hne) as [Hp|Hin].
  - by apply (iso_apart _ _ _ Hiso x o u s h).
  - by apply (table_not_free _ _ _ _ _ _ Hiso Hu Hh).
Qed.

Lemma effect_table h : is_table m' s h -> is_table m s h \/ h ∈ free k.
Proof.
  intros (p & Hp & Hw). destruct (cf_tables _ _ _ _ (ef_confined _ _ _ _ _ Heff) p h Hp Hw); [left; by exists p|by right].
Qed.

Lemma effect_private h : private_table_of s m' h -> private_table_of s m h \/ h ∈ free k.
Proof. apply (cf_private _ _ _ _ _ (ef_confined _ _ _ _ _ Heff)). Qed.

Lemma effect_other_table x u h : x <> o -> sp x = Some u -> is_table m' u h -> is_table m u h.
Proof. intros Hx Hu. apply (same_is_table m m'). intros g j. by apply (effect_reads x). Qed.

Lemma effect_other_private x u h : x <> o -> sp x = Some u -> private_table_of u m' h -> private_table_of u m h.
Proof. intros Hx Hu. apply (same_private m m'). intros g j. by apply (effect_reads x). Qed.

(** No other space sees it. *)
Lemma effect_others x u page : x <> o -> sp x = Some u -> translate_page m' (space_frame u) page = translate_page m (space_frame u) page.
Proof.
  intros Hx Hu. pose proof (iso_wf _ _ _ Hiso x u Hu) as Hwf.
  assert (Hwf' : pt_wf m' (frame_number (space_frame u)) av').
  { apply (same_tables_wf m m' _ _ _ Hwf); [apply Hinv|apply effect_avail|]. apply same_reads. intros h j. by apply (effect_reads x). }
  erewrite !translate_page_view by done. fold (leaf m' u page) (leaf m u page). rewrite (same_leaf m m' u); [done|]. intros h j. by apply (effect_reads x).
Qed.

Lemma effect_tables_apart x y u w h : x <> y -> set_space_of o (Some s') sp x = Some u -> set_space_of o (Some s') sp y = Some w ->
  is_table m' u h -> ~ private_table_of w m' h.
Proof.
  unfold set_space_of. intros Hxy Hu Hw Hh Hp. destruct (decide (x = o)) as [->|Hx], (decide (y = o)) as [->|Hy]; [done| | |].
  - injection Hu as <-. pose proof (effect_other_private y w h Hy Hw Hp) as Hp'.
    destruct (effect_table h Hh) as [Ht|Hin]; [by apply (iso_apart _ _ _ Hiso o y s w h)|].
    exact (table_not_free _ _ _ _ _ _ Hiso Hw (private_is_table _ _ _ Hp') Hin).
  - injection Hw as <-. pose proof (effect_other_table x u h Hx Hu Hh) as Hh'.
    destruct (effect_private h Hp) as [Hp'|Hin]; [by apply (iso_apart _ _ _ Hiso x o u s h)|].
    exact (table_not_free _ _ _ _ _ _ Hiso Hu Hh' Hin).
  - apply (iso_apart _ _ _ Hiso x y u w h); [done..|by apply (effect_other_table x)|by apply (effect_other_private y)].
Qed.

Lemma effect_tables_owned x id u w h : x <> Some id -> set_space_of o (Some s') sp x = Some u ->
  set_space_of o (Some s') sp (Some id) = Some w -> is_table m' u h -> Frame_new h ∉ space_allocated w.
Proof.
  unfold set_space_of. intros Hxy Hu Hw Hh Hin. destruct (decide (x = o)) as [->|Hx], (decide (Some id = o)) as [Hy|Hy]; [by subst| | |].
  - injection Hu as <-. destruct (effect_table h Hh) as [Ht|Hf]; [by apply (iso_tables _ _ _ Hiso o id s w h)|].
    by destruct (iso_owned _ _ _ Hiso _ _ _ Hw Hin) as [_ []].
  - injection Hw as <-. pose proof (effect_other_table x u h Hx Hu Hh) as Hh'.
    destruct (effect_taken _ Hin) as [Hin'|[Hf _]]; [subst o; by apply (iso_tables _ _ _ Hiso x id u s h)|].
    exact (table_not_free _ _ _ _ _ _ Hiso Hu Hh' Hf).
  - apply (iso_tables _ _ _ Hiso x id u w h); [done..|by apply (effect_other_table x)|done].
Qed.

Lemma effect_owned x u f : set_space_of o (Some s') sp x = Some u -> f ∈ space_allocated u ->
  0 <= frame_number f < MAX_FRAMES /\ frame_number f ∉ av'.
Proof.
  unfold set_space_of. intros Hu Hin. pose proof effect_avail as Hav.
  assert (Hold : forall y w, sp y = Some w -> f ∈ space_allocated w -> 0 <= frame_number f < MAX_FRAMES /\ frame_number f ∉ av').
  { intros y w Hw Hf. destruct (iso_owned _ _ _ Hiso y w f Hw Hf) as [? Hn]. split; [done|]. intros Hi. by apply Hn, Hav. }
  destruct (decide (x = o)) as [->|Hx]; [injection Hu as <-|exact (Hold x u Hu Hin)].
  destruct (effect_taken f Hin) as [Hf|[Hf Hn]]; [exact (Hold o s Ho Hf)|]. split; [|done]. by apply elem_of_free_set in Hf as [? _].
Qed.

Lemma effect_owners x y u w f : x <> y -> set_space_of o (Some s') sp x = Some u -> set_space_of o (Some s') sp y = Some w ->
  f ∈ space_allocated u -> f ∉ space_allocated w.
Proof.
  assert (Hone : forall z v, z <> o -> sp z = Some v -> f ∈ space_allocated v -> f ∉ space_allocated s').
  { intros z v Hz Hv Hf Hin. destruct (effect_taken f Hin) as [Hin'|[Hfr _]]; [by apply (iso_owners _ _ _ Hiso z o v s f)|].
    by destruct (iso_owned _ _ _ Hiso _ _ _ Hv Hf) as [_ []]. }
  unfold set_space_of. intros Hxy Hu Hw Hf Hin. destruct (decide (x = o)) as [->|Hx], (decide (y = o)) as [->|Hy]; [done| | |].
  - injection Hu as <-. by apply (Hone y w).
  - injection Hw as <-. by apply (Hone x u).
  - by apply (iso_owners _ _ _ Hiso x y u w f).
Qed.

Lemma effect_lent x u K' page v : set_space_of o (Some s') sp x = Some u -> set_space_of o (Some s') sp None = Some K' ->
  private_entry (Page_l4_index page) -> leaf m' u page = Ok v -> entry_frame_of v ∈ space_allocated u ++ space_allocated K'.
Proof.
  unfold set_space_of. intros Hu HK' Hp Hv.
  assert (HKK : forall f, f ∈ space_allocated K -> f ∈ space_allocated K').
  { intros f Hf. destruct (decide (None = o)) as [Eo|]; [|congruence]. rewrite <-Eo in Ho. assert (E : s = K) by congruence. rewrite <-E in Hf. injection HK' as <-. by apply effect_kept. }
  rewrite elem_of_app. destruct (decide (x = o)) as [->|Hx].
  - injection Hu as <-. destruct (page_indices page) as (H4 & H3 & H2 & H1).
    destruct (ef_leaves _ _ _ _ _ Heff _ _ _ _ _ Hp H4 H3 H2 H1 Hv) as [(w & Hw & <-)|[?|?]%elem_of_app]; [|by left|right; by apply HKK].
    pose proof (iso_leaves _ _ _ Hiso o s K page w Ho HK Hp Hw) as [?|?]%elem_of_app; [left; by apply effect_kept|right; by apply HKK].
  - rewrite (same_leaf m m' u) in Hv by (intros g j; by apply (effect_reads x)).
    pose proof (iso_leaves _ _ _ Hiso x u K page v Hu HK Hp Hv) as [?|?]%elem_of_app; [by left|right; by apply HKK].
Qed.

Lemma effect_isolated : isolated m' av' (set_space_of o (Some s') sp).
Proof.
  split; [|apply effect_tables_apart|apply effect_tables_owned|apply effect_owned|apply effect_owners|apply effect_lent].
  unfold set_space_of. intros x u Hu. destruct (decide (x = o)) as [->|Hx]; [injection Hu as <-; apply Hinv|].
  apply (same_tables_wf m m' _ _ _ (iso_wf _ _ _ Hiso x u Hu)); [apply Hinv|apply effect_avail|].
  apply same_reads. intros h j. by apply (effect_reads x).
Qed.
End Effect.

(** ** Creating and dropping a space *)

Lemma isolated_ext m av sp sp' : (forall o, sp' o = sp o) -> isolated m av sp -> isolated m av sp'.
Proof. intros E [W A T O B V]. split; intros *; rewrite ?E; [apply W|apply A|apply T|apply O|apply B|apply V]. Qed.

Section New.
Context (k k' : Kernel) (sp : owners) (id : Z) (name : string) (f : Frame).
Let s : AddressSpace := mkSpace name f [f].
Hypothesis (Hiso : isolated (k_mem k) (free k) sp) (HK : sp None = Some (k_space k)).
Hypothesis (Hf : frame_number f ∈ free k) (Hset : free k' = free k ∖ {[frame_number f]}).
Hypothesis (Hwf : pt_wf (k_mem k') (frame_number f) (free k')).
Hypothesis (Hm : forall h j, h <> frame_number f -> mread (k_mem k') h j = mread (k_mem k) h j).
Hypothesis (Hpriv : forall i q, private_entry i -> path 3 (i :: q) -> walk (k_mem k') (frame_number f) (i :: q) = Err NotPresent).
Hypothesis (Hshare : forall i q h, path 3 (i :: q) -> walk (k_mem k') (frame_number f) (i :: q) = Ok h ->
  ~ private_entry i /\ walk (k_mem k) (frame_number (space_frame (k_space k))) (i :: q) = Ok h).

Lemma new_reads x u h j : sp x = Some u -> is_table (k_mem k) u h -> mread (k_mem k') h j = mread (k_mem k) h j.
Proof. intros Hu Hh. apply Hm. intros ->. by apply (table_not_free _ _ _ _ _ _ Hiso Hu Hh). Qed.

Lemma new_others_wf x u : sp x = Some u -> pt_wf (k_mem k') (frame_number (space_frame u)) (free k').
Proof.
  intros Hu. apply (same_tables_wf (k_mem k) (k_mem k') _ _ _ (iso_wf _ _ _ Hiso x u Hu)); [apply Hwf|rewrite Hset; set_solver|].
  apply same_reads. intros h j. by apply (new_reads x).
Qed.

Lemma new_others x u page : sp x = Some u -> translate_page (k_mem k') (space_frame u) page = translate_page (k_mem k) (space_frame u) page.
Proof.
  intros Hu. pose proof (iso_wf _ _ _ Hiso x u Hu). pose proof (new_others_wf x u Hu).
  erewrite !translate_page_view by done. fold (leaf (k_mem k') u page) (leaf (k_mem k) u page).
  rewrite (same_leaf (k_mem k) (k_mem k') u); [done|]. intros h j. by apply (new_reads x).
Qed.

Lemma new_other_table x u h : sp x = Some u -> is_table (k_mem k') u h -> is_table (k_mem k) u h.
Proof. intros Hu. apply (same_is_table (k_mem k) (k_mem k')). intros g j. by apply (new_reads x). Qed.

Lemma new_other_private x u h : sp x = Some u -> private_table_of u (k_mem k') h -> private_table_of u (k_mem k) h.
Proof. intros Hu. apply (same_private (k_mem k) (k_mem k')). intros g j. by apply (new_reads x). Qed.

(** The tables of the new space are its root and shared tables of the kernel. *)
Lemma new_table h : is_table (k_mem k') s h -> h = frame_number f \/ (is_table (k_mem k) (k_space k) h /\ ~ private_table_of (k_space k) (k_mem k) h).
Proof.
  intros ([|i q] & Hp & Hw); [injection Hw as <-; by left|right]. destruct (Hshare i q h Hp Hw) as [Hi Hwk]. split; [by exists (i :: q)|].
  pose proof (iso_wf _ _ _ Hiso None _ HK) as Hk. intros [->|(j & q' & Hj & Hq' & Hw')].
  - assert (i :: q = []) as [=]. apply (wf_inj _ _ _ Hk _ _ (frame_number (space_frame (k_space k)))); [done| |done|done]. split; [cbn; lia|by constructor].
  - assert (i :: q = j :: q') as [= -> _]; [|done]. by apply (wf_inj _ _ _ Hk _ _ h).
Qed.

Lemma new_private h : private_table_of s (k_mem k') h -> h = frame_number f.
Proof. intros [->|(i & q & Hi & Hq & Hw)]; [done|]. cbn [s space_frame] in Hw. by rewrite Hpriv in Hw. Qed.

Lemma new_not_table x u : sp x = Some u -> ~ is_table (k_mem k) u (frame_number f).
Proof. intros Hu Hh. by apply (table_not_free _ _ _ _ _ _ Hiso Hu Hh). Qed.

Lemma new_not_owned x u : sp x = Some u -> f ∉ space_allocated u.
Proof. intros Hu Hin. by destruct (iso_owned _ _ _ Hiso _ _ _ Hu Hin) as [_ []]. Qed.

Lemma new_isolated : sp (Some id) = None -> isolated (k_mem k') (free k') (set_space_of (Some id) (Some s) sp).
Proof.
  intros Hid. unfold set_space_of. split.
  - intros x u Hu. destruct (decide _); [by injection Hu as <-|by eapply new_others_wf].
  - intros x y u w h Hxy Hu Hw Hh Hp. destruct (decide (x = Some id)) as [->|Hx], (decide (y = Some id)) as [->|Hy]; [done| | |].
    + injection Hu as <-. apply (new_other_private y w h Hw) in Hp. destruct (new_table h Hh) as [->|[Ht Hn]].
      * by apply (new_not_table y w Hw), private_is_table.
      * destruct (decide (y = None)) as [->|]; [congruence|]. by apply (iso_apart _ _ _ Hiso None y (k_space k) w h).
    + injection Hw as <-. rewrite (new_private h Hp) in Hh. by apply (new_not_table x u Hu), (new_other_table x).
    + apply (iso_apart _ _ _ Hiso x y u w h); [done..|by apply (new_other_table x)|by apply (new_other_private y)].
  - intros x i u w h Hxy Hu Hw Hh Hin. destruct (decide (x = Some id)) as [->|Hx], (decide (Some i = Some id)) as [[= ->]|Hy]; [done| | |].
    + injection Hu as <-. destruct (new_table h Hh) as [->|[Ht _]]; [|by apply (iso_tables _ _ _ Hiso None i (k_space k) w h)].
      assert (E : Frame_new (frame_number f) = f) by by destruct f. rewrite E in Hin. by apply (new_not_owned _ _ Hw).
    + injection Hw as <-. apply list_elem_of_singleton in Hin. apply (new_not_table x u Hu), (new_other_table x); [done|]. by rewrite <-Hin.
    + apply (iso_tables _ _ _ Hiso x i u w h); [done..|by apply (new_other_table x)|done].
  - intros x u g Hu Hg. rewrite Hset, elem_of_difference, elem_of_singleton. destruct (decide _).
    + injection Hu as <-. apply list_elem_of_singleton in Hg as ->. split; [|tauto]. by apply elem_of_free_set in Hf as [? _].
    + destruct (iso_owned _ _ _ Hiso x u g Hu Hg). tauto.
  - intros x y u w g Hxy Hu Hw Hg Hin. destruct (decide (x = Some id)) as [->|Hx], (decide (y = Some id)) as [->|Hy]; [done| | |].
    + injection Hu as <-. apply list_elem_of_singleton in Hg as ->. by apply (new_not_owned y w Hw).
    + injection Hw as <-. apply list_elem_of_singleton in Hin as ->. by apply (new_not_owned x u Hu).
    + by apply (iso_owners _ _ _ Hiso x y u w g).
  - intros x u K page v Hu HK' Hp Hv. rewrite decide_False in HK' by done. destruct (decide _).
    + injection Hu as <-. destruct (page_indices page) as (H4 & H3 & H2 & _). unfold leaf, view in Hv. cbn [s space_frame] in Hv.
      rewrite Hpriv in Hv; [done|done|by apply path_3].
    + rewrite (same_leaf (k_mem k) (k_mem k') u) in Hv by (intros g j; by apply (new_reads x)).
      by apply (iso_leaves _ _ _ Hiso x u K page).
Qed.
End New.

(** The frames of a dropped process become free; nothing else refers to them. *)
Lemma drop_isolated m av av' sp id s : isolated m av sp -> sp (Some id) = Some s ->
  (forall n, n ∈ av' <-> n ∈ av \/ Frame_new n ∈ space_allocated s) -> isolated m av' (set_space_of (Some id) None sp).
Proof.
  intros Hiso Hs Hav. unfold set_space_of.
  assert (Hsp : forall x u, (if decide (x = Some id) then None else sp x) = Some u -> x <> Some id /\ sp x = Some u).
  { intros x u Hu. by destruct (decide _). }
  split.
  - intros x u [Hx Hu]%Hsp. pose proof (iso_wf _ _ _ Hiso x u Hu) as [W I A N L]. split; [done|done| |done|done].
    intros p h Hp Hw [Hin|Hin]%Hav; [by apply (A p h)|]. apply (iso_tables _ _ _ Hiso x id u s h); [done..| |done]. by exists p.
  - intros x y u w h Hxy [_ Hu]%Hsp [_ Hw]%Hsp. by apply (iso_apart _ _ _ Hiso x y).
  - intros x i u w h Hxy [_ Hu]%Hsp [_ Hw]%Hsp. by apply (iso_tables _ _ _ Hiso x i).
  - intros x u g [Hx Hu]%Hsp Hg. destruct (iso_owned _ _ _ Hiso x u g Hu Hg) as [Hr Hn]. split; [done|].
    rewrite Hav. intros [?|Hin]; [done|]. apply (iso_owners _ _ _ Hiso x (Some id) u s g); [done..|]. by destruct g.
  - intros x y u w g Hxy [_ Hu]%Hsp [_ Hw]%Hsp. by apply (iso_owners _ _ _ Hiso x y).
  - intros x u K page v [_ Hu]%Hsp [_ HK]%Hsp. by apply (iso_leaves _ _ _ Hiso x u K).
Qed.

(** ** The operations of the kernel on address spaces *)

(** The kernel and the spaces of the live processes, by their ids. *)
Definition World : Type := Kernel * gmap Z AddressSpace.

Definition space_of (w : World) : owners := fun o => match o with None => Some (k_space (w.1)) | Some id => w.2 !! id end.

Definition private_range (r : PageRange) : Prop := forall q, q ∈ PageRange_pages r -> private_entry (Page_l4_index q).

(** A step, with the spaces it works on. Ids are not used twice. *)
Inductive space_step : list (option Z) -> World -> World -> Prop :=
  | StepEnter k l o s : space_of (k, l) o = Some s -> space_step [] (k, l) (enter k s, l)
  | StepNew k l id name k' s : l !! id = None -> AddressSpace_new k name None = Done (k', s) ->
      space_step [Some id] (k, l) (k', <[id := s]> l)
  | StepMap k l id s name pages flags k' s' r : l !! id = Some s -> private_range pages -> map_flags flags ->
      AddressSpace_map_pages k s name pages flags = Done (k', s', r) -> space_step [Some id] (k, l) (k', <[id := s']> l)
  | StepKernelMapping k l name size flags k' m : map_flags flags -> private_range (mapping_pages m) ->
      KernelMapping_new k name size flags = Done (k', m) -> space_step [None] (k, l) (k', l)
  | StepMapInto k l id s m pages flags k' s' r : l !! id = Some s -> private_range pages -> private_range (mapping_pages m) -> map_flags flags ->
      KernelMapping_map_into k m s pages flags = Done (k', s', r) -> space_step [Some id] (k, l) (k', <[id := s']> l)
  | StepExtend k l id s m pages e k' m' s' r : l !! id = Some s -> private_range pages ->
      Page_add (range_end (mapping_pages m)) (PageRange_len pages) = Done e -> private_range (mkRange (range_end (mapping_pages m)) e) ->
      map_flags (mapping_flags m) -> KernelMapping_extend k m s pages = Done (k', m', s', r) ->
      space_step [None; Some id] (k, l) (k', <[id := s']> l)
  | StepDrop k l id s k' : l !! id = Some s -> AddressSpace_drop k s = Done k' -> space_step [Some id] (k, l) (k', delete id l).

Definition world_ok (w : World) : Prop := fa_inv (k_frames w.1) /\ isolated (k_mem w.1) (free w.1) (space_of w).

(** The spaces that a step does not work on stay, with their translations. *)
Definition untouched (touched : list (option Z)) (w w' : World) : Prop := forall o s, o ∉ touched -> space_of w o = Some s ->
  space_of w' o = Some s /\ forall page, translate_page (k_mem w'.1) (space_frame s) page = translate_page (k_mem w.1) (space_frame s) page.

Lemma untouched_trans t t' w1 w2 w3 : untouched t w1 w2 -> untouched t' w2 w3 -> untouched (t ++ t') w1 w3.
Proof.
  intros H1 H2 o s Ho Hs. rewrite elem_of_app in Ho. destruct (H1 o s) as [Hs2 E2]; [tauto|done|].
  destruct (H2 o s) as [Hs3 E3]; [tauto|done|]. split; [done|]. intros page. by rewrite E3.
Qed.

Lemma space_of_insert k l id s : forall o, space_of (k, <[id := s]> l) o = set_space_of (Some id) (Some s) (space_of (k, l)) o.
Proof.
  intros [i|]; unfold set_space_of; cbn [space_of fst snd]; [|by rewrite decide_False].
  destruct (decide (Some i = Some id)) as [[= ->]|Hne]; [by rewrite lookup_insert_eq|]. rewrite lookup_insert_ne; [done|congruence].
Qed.

Lemma space_of_delete k l id : forall o, space_of (k, delete id l) o = set_space_of (Some id) None (space_of (k, l)) o.
Proof.
  intros [i|]; unfold set_space_of; cbn [space_of fst snd]; [|by rewrite decide_False].
  destruct (decide (Some i = Some id)) as [[= ->]|Hne]; [by rewrite lookup_delete_eq|]. rewrite lookup_delete_ne; [done|congruence].
Qed.

(** An effect on the space of a process, or on the kernel's. *)
Lemma process_effect k l id s t' k' : world_ok (k, l) -> l !! id = Some s -> pt_inv (space_frame s) t' ->
  effect (space_frame s) private_entry (space_allocated (k_space k)) (space_pt k s) t' ->
  k_mem k' = pt_mem t' -> k_frames k' = proxy_global (pt_alloc t') -> k_space k' = k_space k ->
  world_ok (k', <[id := pt_space s t']> l) /\ untouched [Some id] (k, l) (k', <[id := pt_space s t']> l).
Proof.
  intros [Hfa Hiso] Hs Hinv Heff Em Ef Ek. unfold world_ok. cbn [fst]. rewrite Em, Ef. split; [split; [apply Hinv|]|].
  - apply (isolated_ext _ _ (set_space_of (Some id) (Some (pt_space s t')) (space_of (k, l)))).
    + intros o. rewrite space_of_insert. unfold set_space_of. destruct (decide _); [done|]. destruct o; [done|]. cbn. by rewrite Ek.
    + by apply (effect_isolated k (space_of (k, l)) (Some id) s (k_space k) t').
  - intros o u Ho Hu. assert (o <> Some id) as Hne by (intros ->; apply Ho; by left). split.
    + rewrite space_of_insert. unfold set_space_of. rewrite decide_False by done. destruct o; [done|]. cbn. by rewrite Ek.
    + intros page. cbn [fst]. rewrite Em. by apply (effect_others k (space_of (k, l)) (Some id) s (k_space k) t' Hiso Hs Hinv Heff o).
Qed.

Lemma kernel_effect k l t' k' : world_ok (k, l) -> pt_inv (space_frame (k_space k)) t' ->
  effect (space_frame (k_space k)) private_entry (space_allocated (k_space k)) (space_pt k (k_space k)) t' ->
  k_mem k' = pt_mem t' -> k_frames k' = proxy_global (pt_alloc t') -> k_space k' = pt_space (k_space k) t' ->
  world_ok (k', l) /\ untouched [None] (k, l) (k', l).
Proof.
  intros [Hfa Hiso] Hinv Heff Em Ef Ek. unfold world_ok. cbn [fst]. rewrite Em, Ef. split; [split; [apply Hinv|]|].
  - apply (isolated_ext _ _ (set_space_of None (Some (pt_space (k_space k) t')) (space_of (k, l)))).
    + intros [i|]; unfold set_space_of; [by rewrite decide_False|]. rewrite decide_True by done. cbn. by rewrite Ek.
    + by apply (effect_isolated k (space_of (k, l)) None (k_space k) (k_space k) t').
  - intros [i|] u Ho Hu; [|by destruct Ho; left]. split; [done|]. intros page. cbn [fst]. rewrite Em.
    by apply (effect_others k (space_of (k, l)) None (k_space k) (k_space k) t' Hiso eq_refl Hinv Heff (Some i)).
Qed.

Lemma world_pt_inv w o s : world_ok w -> space_of w o = Some s -> pt_inv (space_frame s) (space_pt w.1 s).
Proof. intros [Hfa Hiso] Hs. split; [done|]. by apply (iso_wf _ _ _ Hiso o). Qed.

Lemma world_shared k l id s : world_ok (k, l) -> l !! id = Some s -> space_apart k s /\
  lends (space_frame (k_space k)) private_entry (space_allocated (k_space k)) (space_pt k s).
Proof.
  intros Hw Hs. pose proof Hw as [Hfa Hiso]. split; [split|].
  - by apply (world_pt_inv (k, l) (Some id)).
  - by apply (iso_wf _ _ _ Hiso None).
  - intros p h Hp Hwk. apply (iso_apart _ _ _ Hiso None (Some id) (k_space k) s h); [done..|]. by exists p.
  - intros page v Hp Hv. by pose proof (iso_leaves _ _ _ Hiso None (k_space k) (k_space k) page v eq_refl eq_refl Hp Hv) as [?|?]%elem_of_app.
Qed.

(** [map_kernel_pages_to], whatever its result. *)
Lemma map_kernel_pages_world k l id s kpages pages flags k' s' r : world_ok (k, l) -> l !! id = Some s ->
  private_range pages -> private_range kpages -> map_flags flags ->
  AddressSpace_map_kernel_pages_to k s kpages pages flags = Done (k', s', r) ->
  world_ok (k', <[id := s']> l) /\ untouched [Some id] (k, l) (k', <[id := s']> l) /\ k_space k' = k_space k.
Proof.
  intros Hw Hs Hp Hkp Hfl E. unfold AddressSpace_map_kernel_pages_to in E. destruct (rust_assert _); [|done]. cbn [mbind exec_bind] in E.
  destruct (map_kernel_pages_loop _ _ _ _ _) as [[t' r']|] eqn:El; [|done]. cbn [mbind exec_bind] in E. injection E as <- <- _.
  destruct (world_shared k l id s Hw Hs) as [Hap Hlend].
  destruct (map_kernel_pages_loop_effect _ _ _ flags Hfl _ _ _ _ _ Hap Hlend (fun q kq Hin => conj (Hp q (elem_of_zip_l _ _ _ _ Hin)) (Hkp kq (elem_of_zip_r _ _ _ _ Hin))) El) as [Hinv Heff].
  destruct (process_effect k l id s t' (pt_kernel k t') Hw Hs Hinv Heff eq_refl eq_refl eq_refl) as [H1 H2]. done.
Qed.

(** Changes that no page table sees. *)
Lemma world_ok_same k k' l : k_mem k' = k_mem k -> k_frames k' = k_frames k -> k_space k' = k_space k ->
  world_ok (k, l) -> world_ok (k', l) /\ untouched [] (k, l) (k', l).
Proof.
  intros Em Ef Ek [Hfa Hiso]. unfold world_ok. cbn [fst]. rewrite Em, Ef. split; [split; [done|]|].
  - apply (isolated_ext _ _ (space_of (k, l))); [|done]. intros [i|]; cbn; by rewrite ?Ek.
  - intros [i|] u _ Hu; cbn in *; rewrite ?Ek, ?Em; done.
Qed.

Lemma kernel_map_world k l pages flags t' r (loop : Frame -> list Page -> Z -> mapper (A := Proxy) unit) :
  loop = map_pages_loop \/ loop = map_pages_untracked_loop ->
  world_ok (k, l) -> private_range pages -> map_flags flags ->
  loop (space_frame (k_space k)) (PageRange_pages pages) flags (space_pt k (k_space k)) = Done (t', r) ->
  pt_inv (space_frame (k_space k)) t' /\ effect (space_frame (k_space k)) private_entry (space_allocated (k_space k)) (space_pt k (k_space k)) t'.
Proof.
  intros Hloop Hw Hp Hfl El. pose proof (world_pt_inv (k, l) None (k_space k) Hw eq_refl) as Hi. cbn [fst] in Hi.
  destruct Hloop as [->| ->]; [by eapply map_pages_loop_effect|by eapply map_pages_untracked_loop_effect].
Qed.

Lemma step_map k l id s name pages flags k' s' r : world_ok (k, l) -> l !! id = Some s -> private_range pages -> map_flags flags ->
  AddressSpace_map_pages k s name pages flags = Done (k', s', r) -> world_ok (k', <[id := s']> l) /\ untouched [Some id] (k, l) (k', <[id := s']> l).
Proof.
  intros Hw Hs Hp Hfl E. unfold AddressSpace_map_pages in E.
  destruct (map_pages_loop _ _ _ _) as [[t' r']|] eqn:El; [|done]. cbn [mbind exec_bind] in E.
  destruct (map_pages_loop_effect (space_frame s) private_entry (space_allocated (k_space k)) flags Hfl _ _ _ _ (world_pt_inv (k, l) (Some id) s Hw Hs) Hp El) as [Hinv Heff].
  destruct r'; injection E as <- <- _; by apply process_effect.
Qed.

Lemma step_kernel_mapping k l name size flags k' m : world_ok (k, l) -> map_flags flags -> private_range (mapping_pages m) ->
  KernelMapping_new k name size flags = Done (k', m) -> world_ok (k', l) /\ untouched [None] (k, l) (k', l).
Proof.
  intros Hw Hfl Hp E. unfold KernelMapping_new in E. set (k0 := set_offset k _) in E.
  assert (Hw0 : world_ok (k0, l)) by by apply (world_ok_same k k0 l).
  destruct (PageRange_from_base_len _ _) as [pages|]; [|done]. cbn [mbind exec_bind] in E. destruct (rust_assert _); [|done]. cbn [mbind exec_bind] in E.
  unfold AddressSpace_map_pages in E. destruct (map_pages_loop _ _ _ _) as [[t' [[]|e]]|] eqn:El; cbn [mbind exec_bind] in E; [|done..].
  injection E as <- <-. cbn [mapping_pages] in Hp.
  destruct (kernel_map_world k0 l pages flags t' (Ok tt) map_pages_loop) as [Hinv Heff]; [by left|done..|].
  by apply (kernel_effect k0 l t').
Qed.

Lemma step_map_into k l id s m pages flags k' s' r : world_ok (k, l) -> l !! id = Some s -> private_range pages ->
  private_range (mapping_pages m) -> map_flags flags -> KernelMapping_map_into k m s pages flags = Done (k', s', r) ->
  world_ok (k', <[id := s']> l) /\ untouched [Some id] (k, l) (k', <[id := s']> l).
Proof.
  intros Hw Hs Hp Hm Hfl E. unfold KernelMapping_map_into in E.
  destruct (AddressSpace_map_kernel_pages_to _ _ _ _ _) as [[[k1 s1] r1]|] eqn:E1; [|done]. cbn [mbind exec_bind] in E.
  destruct (map_kernel_pages_world _ _ _ _ _ _ _ _ _ _ Hw Hs Hp Hm Hfl E1) as (Hw1 & Hu & _).
  destruct r1; injection E as <- <- _; [|done]. split; [by apply (world_ok_same k1)|exact Hu].
Qed.

Lemma step_extend k l id s m pages e k' m' s' r : world_ok (k, l) -> l !! id = Some s -> private_range pages ->
  Page_add (range_end (mapping_pages m)) (PageRange_len pages) = Done e -> private_range (mkRange (range_end (mapping_pages m)) e) ->
  map_flags (mapping_flags m) -> KernelMapping_extend k m s pages = Done (k', m', s', r) ->
  world_ok (k', <[id := s']> l) /\ untouched [None; Some id] (k, l) (k', <[id := s']> l).
Proof.
  intros Hw Hs Hp Ee Hk Hfl E. unfold KernelMapping_extend in E. rewrite Ee in E. cbn [mbind exec_bind] in E. unfold PageRange_new in E.
  set (k0 := set_offset k _) in E. assert (Hw0 : world_ok (k0, l)) by by apply (world_ok_same k k0 l).
  unfold AddressSpace_map_pages_untracked in E. destruct (map_pages_untracked_loop _ _ _ _) as [[t' r1]|] eqn:El; [|done]. cbn [mbind exec_bind] in E.
  destruct (kernel_map_world k0 l _ _ t' r1 map_pages_untracked_loop (or_intror eq_refl) Hw0 Hk Hfl El) as [Hinv Heff].
  set (k1 := set_kernel_space _ _) in E. destruct (kernel_effect k0 l t' k1 Hw0 Hinv Heff eq_refl eq_refl eq_refl) as [Hw1 Hu1].
  assert (Hsame : <[id := s]> l = l) by by apply insert_id.
  destruct r1 as [[]|e1]; [|injection E as <- _ <- _; rewrite Hsame; split; [done|]; intros o u Ho; apply Hu1; intros Hin; apply Ho; set_solver].
  destruct (AddressSpace_map_kernel_pages_to _ _ _ _ _) as [[[k2 s2] r2]|] eqn:E2; [|done]. cbn [mbind exec_bind] in E.
  destruct (map_kernel_pages_world k1 l id s _ _ _ _ _ _ Hw1 Hs Hp Hk Hfl E2) as (Hw2 & Hu2 & _).
  pose proof (untouched_trans _ _ _ _ _ Hu1 Hu2) as Hu.
  destruct r2 as [[]|e2]; [|by injection E as <- _ <- _]. destruct (spaces (TRACKER k2) !! _) as [ms|]; [|by injection E as <- _ <- _].
  destruct (set_mapping_end _ _ _); [|done]. cbn [mbind exec_bind] in E. injection E as <- _ <- _. split; [by apply (world_ok_same k2)|exact Hu].
Qed.

Lemma step_new k l id name k' s : world_ok (k, l) -> l !! id = None -> AddressSpace_new k name None = Done (k', s) ->
  world_ok (k', <[id := s]> l) /\ untouched [Some id] (k, l) (k', <[id := s]> l).
Proof.
  intros Hw Hid E. pose proof Hw as [Hfa Hiso]. assert (Hk : kernel_ok k (space_frame (k_space k))) by (split; [done|by apply (iso_wf _ _ _ Hiso None)]).
  destruct (AddressSpace_new_apart _ _ _ _ Hk E) as (f & -> & Hf & Hset & Hsp & Hap & Hm & Hpriv & Hshare & _).
  pose proof (si_user _ _ _ _ Hap) as [Hfa' Hwf']. split; [split; [done|]|].
  - apply (isolated_ext _ _ (set_space_of (Some id) (Some (mkSpace name f [f])) (space_of (k, l)))).
    + intros o. rewrite space_of_insert. unfold set_space_of. destruct (decide _); [done|]. destruct o; [done|]. cbn. by rewrite Hsp.
    + by apply (new_isolated k k' (space_of (k, l)) id name f).
  - intros o u Ho Hu. split.
    + rewrite space_of_insert. unfold set_space_of. rewrite decide_False by (intros ->; apply Ho; by left). destruct o; [done|]. cbn. by rewrite Hsp.
    + intros page. by eapply (new_others k k' (space_of (k, l)) f).
Qed.

Lemma step_drop k l id s k' : world_ok (k, l) -> l !! id = Some s -> AddressSpace_drop k s = Done k' ->
  world_ok (k', delete id l) /\ untouched [Some id] (k, l) (k', delete id l).
Proof.
  intros Hw Hs E. pose proof Hw as [Hfa Hiso]. destruct (AddressSpace_drop_spec k s Hfa) as (fa & E' & Hfa' & Hset).
  { apply Forall_forall. intros f Hf. by apply (iso_owned _ _ _ Hiso (Some id) s). }
  rewrite E' in E. injection E as <-. split; [split; [done|]|].
  - apply (isolated_ext _ _ (set_space_of (Some id) None (space_of (k, l)))).
    + intros o. rewrite space_of_delete. unfold set_space_of. destruct (decide _); [done|]. by destruct o.
    + by apply (drop_isolated (k_mem k) (free k) _ (space_of (k, l)) id s).
  - intros o u Ho Hu. split; [|done]. rewrite space_of_delete. unfold set_space_of. rewrite decide_False by (intros ->; apply Ho; by left). by destruct o.
Qed.

Lemma step_ok touched w w' : world_ok w -> space_step touched w w' -> world_ok w' /\ untouched touched w w'.
Proof.
  intros Hw Hstep. destruct Hstep as [k l o s Hs|k l id name k' s Hid E|k l id s name pages flags k' s' r Hs Hp Hfl E|k l name size flags k' m Hfl Hp E
    |k l id s m pages flags k' s' r Hs Hp Hm Hfl E|k l id s m pages e k' m' s' r Hs Hp Ee Hk Hfl E|k l id s k' Hs E].
  - by apply world_ok_same.
  - exact (step_new _ _ _ _ _ _ Hw Hid E).
  - exact (step_map _ _ _ _ _ _ _ _ _ _ Hw Hs Hp Hfl E).
  - exact (step_kernel_mapping _ _ _ _ _ _ _ Hw Hfl Hp E).
  - exact (step_map_into _ _ _ _ _ _ _ _ _ _ Hw Hs Hp Hm Hfl E).
  - exact (step_extend _ _ _ _ _ _ _ _ _ _ _ Hw Hs Hp Ee Hk Hfl E).
  - exact (step_drop _ _ _ _ _ Hw Hs E).
Qed.

(** ** Properties *)

Lemma initial_ok k : kernel_ok k (space_frame (k_space k)) -> space_allocated (k_space k) = [] ->
  (forall page, private_entry (Page_l4_index page) -> AddressSpace_translate_page k (k_space k) page = Done None) -> world_ok (k, ∅).
Proof.
  intros [Hfa Hwf] Hal Hpriv. split; [done|].
  assert (Hsp : forall o s, space_of (k, ∅) o = Some s -> o = None /\ s = k_space k).
  { intros [i|] s Hs; [|by injection Hs]. cbn in Hs. by rewrite lookup_empty in Hs. }
  split.
  - by intros o s [_ ->]%Hsp.
  - by intros o o' s t h Hne [-> _]%Hsp [-> _]%Hsp.
  - by intros o id s t h Hne [-> ->]%Hsp [? _]%Hsp.
  - intros o s f [_ ->]%Hsp Hf. rewrite Hal in Hf. by apply not_elem_of_nil in Hf.
  - by intros o o' s t f Hne [-> _]%Hsp [-> _]%Hsp.
  - intros o s K page v [_ ->]%Hsp _ Hp Hv. specialize (Hpriv page Hp).
    rewrite (translate_view k (space_pt k (k_space k)) (k_space k) page eq_refl Hwf) in Hpriv. change (page_view _ _ _) with (leaf (k_mem k) (k_space k) page) in Hpriv.
    cbn [fst] in Hv. by rewrite Hv in Hpriv.
Qed.

Lemma reachable_ok w w' : world_ok w -> rtc (fun w w' => exists touched, space_step touched w w') w w' -> world_ok w'.
Proof. intros Hw. induction 1 as [|w w1 w' [touched Hstep] _ IH]; [done|]. by apply IH, (step_ok touched w). Qed.

Lemma private_frame k l o s page f : world_ok (k, l) -> space_of (k, l) o = Some s -> private_entry (Page_l4_index page) ->
  AddressSpace_translate_page k s page = Done (Some f) -> f ∈ space_allocated s ++ space_allocated (k_space k).
Proof.
  intros [Hfa Hiso] Hs Hp E. rewrite (translate_view k (space_pt k s) s page eq_refl (iso_wf _ _ _ Hiso o s Hs)) in E.
  change (page_view _ _ _) with (leaf (k_mem k) s page) in E. destruct (leaf _ _ _) as [v|] eqn:Ev; [|done]. injection E as <-.
  by apply (iso_leaves _ _ _ Hiso o s (k_space k) page).
Qed.

(** C4: from start-up on, over any sequence of operations on the private parts
    of address spaces: a frame that a live space maps is not free, and belongs
    to that space or to the kernel; two spaces map the same frame only if it
    belongs to the kernel; and an operation changes no translation of a space
    that it does not work on. *)
Theorem spaces_isolated (k0 k : Kernel) (l : gmap Z AddressSpace) :
  kernel_ok k0 (space_frame (k_space k0)) -> space_allocated (k_space k0) = [] ->
  (forall page, private_entry (Page_l4_index page) -> AddressSpace_translate_page k0 (k_space k0) page = Done None) ->
  rtc (fun w w' => exists touched, space_step touched w w') (k0, ∅) (k, l) ->
  (forall o s page f, space_of (k, l) o = Some s -> private_entry (Page_l4_index page) ->
     AddressSpace_translate_page k s page = Done (Some f) ->
     frame_number f ∉ free_set (bitmap (k_frames k)) /\ (f ∈ space_allocated s \/ f ∈ space_allocated (k_space k)) /\
     forall o' s' page', o' <> o -> space_of (k, l) o' = Some s' -> private_entry (Page_l4_index page') ->
       AddressSpace_translate_page k s' page' = Done (Some f) -> f ∈ space_allocated (k_space k)) /\
  (forall touched w', space_step touched (k, l) w' -> untouched touched (k, l) w').
Proof.
  intros Hk Hal Hpriv Hr. pose proof (reachable_ok _ _ (initial_ok k0 Hk Hal Hpriv) Hr) as Hw. split; [|intros t w' Hs; by apply (step_ok t (k, l))].
  intros o s page f Hs Hp E. pose proof (private_frame k l o s page f Hw Hs Hp E) as Hf. apply elem_of_app in Hf. split; [|split; [done|]].
  - destruct Hf as [Hf|Hf]; [by apply (iso_owned _ _ _ (proj2 Hw) o s)|by apply (iso_owned _ _ _ (proj2 Hw) None (k_space k))].
  - intros o' s' page' Ho Hs' Hp' E'. pose proof (private_frame k l o' s' page' f Hw Hs' Hp' E') as Hf'. apply elem_of_app in Hf' as [Hf'|]; [|done].
    destruct Hf as [Hf|]; [|done]. by destruct (iso_owners _ _ _ (proj2 Hw) o' o s' s f Ho Hs' Hs Hf').
Qed.

(** ** The physical half *)

(** A user access is allowed when the entries of all levels allow it. *)
Fixpoint user_can_access_from (m : pmem) (t : Z) (indices : list Z) : bool :=
  match indices with
  | [] => true
  | i :: rest => flags_get (mread m t i) (flags_bitor PRESENT USER_ACCESSIBLE) &&
      match rest, child (mread m t i) with
      | [], _ => true
      | _, Ok t' => user_can_access_from m t' rest
      | _, Err _ => false
      end
  end.
Definition user_can_access (m : pmem) (l4 : Frame) (page : Page) : bool :=
  user_can_access_from m (frame_number l4) [Page_l4_index page; Page_l3_index page; Page_l2_index page; Page_l1_index page].

(** The kernel of the firmware's tables: pages 1 and 2 are mapped. *)
Definition physical_tables : pmem :=
  mwrite (mwrite (mwrite (mwrite (mwrite ∅ 2 0 0x3003) 3 0 0x4003) 4 0 0x5003) 5 1 0x1003) 5 2 0x2003.
Definition physical_kernel (fa : FrameAllocator) : Kernel :=
  mkKernel physical_tables fa [] (Frame_new 2) (mkSpace "" (Frame_new 2) []) KERNEL_MAPPING_BASE MemoryTracker_new.
Definition page_range (n : Z) : PageRange := mkRange (Page_new n) (Page_new (n + 1)).
Definition grant : Z := Z.lor (Z.lor PRESENT WRITABLE) USER_ACCESSIBLE.

(** A page of the physical half that is granted to one process can then be
    accessed by every process that has been granted any page there. *)
Theorem grant_reaches_others :
  (fa ← FrameAllocator_init small_map FrameAllocator_new;
   '(k, a) ← AddressSpace_new (physical_kernel fa) "a" None;
   '(k, b) ← AddressSpace_new k "b" None;
   '(k, a, _) ← AddressSpace_set_flags k a (page_range 1) grant;
   let before := user_can_access (k_mem k) (space_frame a) (Page_new 2) in
   '(k, b, _) ← AddressSpace_set_flags k b (page_range 2) grant;
   Done (before, user_can_access (k_mem k) (space_frame a) (Page_new 2))) = Done (false, true).
Proof. vm_compute. reflexivity. Qed.

(** Granting a page of the physical half that is not mapped succeeds, leaves it
    unmapped and puts new tables, which belong to the process, into the tables
    of the kernel. When the process ends, the kernel's tree refers to a frame
    that is free. *)
Theorem unmapped_grant_leaves_freed_table :
  (fa ← FrameAllocator_init small_map FrameAllocator_new;
   '(k, a) ← AddressSpace_new (physical_kernel fa) "a" None;
   '(k, a, r) ← AddressSpace_set_flags k a (page_range 0x40000) grant;
   t ← AddressSpace_translate_page k a (Page_new 0x40000);
   k ← AddressSpace_drop k a;
   Done (match r with Ok _ => true | Err _ => false end, t, match walk (k_mem k) 2 [0; 1] with Ok f => negb (frame_used (bitmap (k_frames k)) f) | Err _ => false end)) =
  Done (true, None, true).
Proof. vm_compute. reflexivity. Qed.

(** ** Witness: a process is created and gets a page *)

Lemma spaces_isolated_witness : exists k s f, AddressSpace_translate_page k s shared_page = Done (Some f) /\
  frame_number f ∉ free_set (bitmap (k_frames k)).
Proof.
  destruct small_init as (fa & _ & Hinv & Hfree & Hs). pose proof (small_kernel_ok fa Hinv Hs) as Hk0.
  assert (Hne : free_set (bitmap fa) <> ∅).
  { intros He. assert (256 ∈ free_set (bitmap fa)) as Hin by (apply Hs; lia). rewrite He in Hin. by apply not_elem_of_empty in Hin. }
  destruct (AddressSpace_new_spec (small_kernel fa) "p" None Hk0 eq_refl Hne) as (k1 & s & f & E1 & _).
  destruct (AddressSpace_new_apart _ _ _ _ Hk0 E1) as (g & -> & Hg & Hset & Hsp & Hap & _ & Hpriv & _).
  destruct (page_indices shared_page) as (H4 & H3 & H2 & _).
  assert (Hc : canonical_page shared_page) by (split; [right|]; by vm_compute).
  assert (Hun : page_view g (space_pt k1 (mkSpace "p" g [g])) shared_page = Err NotMapped).
  { unfold page_view, view. cbn [space_pt pt_mem]. rewrite Hpriv; [done|by vm_compute|by apply path_3]. }
  destruct (map_pages_loop_spec g (Z.lor PRESENT WRITABLE) example_flags [shared_page] (space_pt k1 (mkSpace "p" g [g])))
    as (t & E2 & [Ha2 Hwf2] & _ & Hmap & _).
  { apply Hap. }
  { intros q ->%list_elem_of_singleton. by rewrite Hun. }
  { change (avail _) with (free_set (bitmap (k_frames k1))). rewrite Hset. rewrite size_remove by exact Hg. cbn [small_kernel k_frames].
    pose proof (fa_count _ Hinv). cbn [length]. lia. }
  specialize (Hmap shared_page Hc). rewrite Hun in Hmap. destruct Hmap as [(_ & v & Hv & _)|[Hn _]]; [|by destruct Hn; left].
  set (s2 := pt_space (mkSpace "p" g [g]) t). set (k2 := set_tracker (pt_kernel k1 t) (tracker_push (TRACKER (pt_kernel k1 t)) ("p", g) ("stack", shared_range))).
  assert (Ht : AddressSpace_translate_page k2 s2 shared_page = Done (Some (entry_frame_of v))).
  { etrans; [eapply (translate_view k2 t s2 shared_page eq_refl Hwf2)|]. change (space_frame s2) with g. by rewrite Hv. }
  destruct (spaces_isolated (small_kernel fa) k2 (<[1 := s2]> (<[1 := mkSpace "p" g [g]]> ∅)) Hk0 eq_refl) as [Hfr _].
  - intros page _. rewrite (translate_view (small_kernel fa) (space_pt (small_kernel fa) (k_space (small_kernel fa))) (k_space (small_kernel fa)) page eq_refl (ko_tree _ _ Hk0)).
    reflexivity.
  - eapply rtc_l; [exists [Some 1]; apply (StepNew _ _ _ "p" k1); [apply lookup_empty|exact E1]|].
    apply rtc_once. exists [Some 1]. apply (StepMap _ _ _ (mkSpace "p" g [g]) "stack" shared_range (Z.lor PRESENT WRITABLE) k2 s2 (Ok tt)).
    + by rewrite lookup_insert_eq.
    + intros q. rewrite shared_pages. intros ->%list_elem_of_singleton. by vm_compute.
    + exact example_flags.
    + unfold AddressSpace_map_pages. rewrite shared_pages. cbn [space_frame]. rewrite E2. reflexivity.
  - exists k2, s2, (entry_frame_of v). split; [exact Ht|].
    apply (Hfr (Some 1) s2 shared_page); [|by vm_compute|exact Ht]. cbn. by rewrite lookup_insert_eq.
Defined.
