(* ===== verification/MemoryInit.v ===== *)
(** * kernel/src/memory.rs: start-up of the memory management

    [init] of [memory.rs] as a whole: the tracker, the kernel's address space,
    the frames, the heap, the framebuffer and the BARs. Proved: on the
    firmware's tables, with nothing mapped in the kernel's half, the 64 MiB
    that it asserts are enough for the heap and its page tables, so that it
    does not panic; each heap page has a frame of its own, no other translation
    changes, and the state it leaves is one from which address spaces stay
    isolated ([Isolation]). *)

From Stdlib Require Import Lia.
From stdpp Require Import base numbers list option strings tactics gmap fin_sets sets.
From S2P Require Import Prelude BitUtils MemoryTypes FrameAllocator Paging Pci Memory Sharing Isolation.

Local Open Scope Z_scope.
Local Open Scope u64_scope.

(** ** [init] *)

(** The part after the frames: the heap and the framebuffer's mapping. *)
Definition memory_init_heap (b : BootInfo) (k : Kernel) : exec (Kernel * KMapping) :=
  s ← init_heap k;
  let k := mkKernel (pt_mem s) (pt_alloc s) (pt_flushed s) (k_cr3 k) (k_space k) (KERNEL_MAPPING_OFFSET k) (TRACKER k) in
  o ← AddressSpace_translate_address k (k_space k) (Address_new KERNEL_HEAP_BASE);
  _ ← unwrap o;
  framebuffer ← framebuffer_mapping (framebuffer_addr b) (framebuffer_size b);
  Done (k, framebuffer).

(** The firmware's tables [m] and the register [cr3] that points to them. *)
Definition memory_init (b : BootInfo) (fa : FrameAllocator) (m : pmem) (cr3 : Frame) : exec (Kernel * KMapping) :=
  tracker ← MemoryTracker_init b MemoryTracker_new;
  space ← init_kernel_address_space cr3;
  _ ← rust_assert (is_current (mkKernel m fa [] cr3 space KERNEL_MAPPING_BASE tracker) space);
  '(fa, _) ← init_frames b fa;
  memory_init_heap b (mkKernel m fa [] cr3 space KERNEL_MAPPING_BASE tracker).

(** The loop over the PCI devices, on the iterator of [Pci]; [None] when the
    fuel runs out. *)
Fixpoint register_devices {W} `{Ports W} (fuel : nat) (it : DeviceIter) (t : MemoryTracker) (w : W) : option (exec (MemoryTracker * W)) :=
  match fuel with
  | O => None
  | S fuel' =>
      match DeviceIter_next it w with
      | (w, _, None) => Some (Done (t, w))
      | (w, it, Some device) =>
          match register_bars device (seqZ 0 6) false t w with
          | Done (t, w) => register_devices fuel' it t w
          | Panic => Some Panic
          end
      end
  end.

(** ** Lemmas: the loop over the devices ends *)

Section Devices.
Context {W : Type} `{Ports W}.
Implicit Types w : W.

(** The addresses that the iterator has not passed, whatever the devices say. *)
Definition iter_rank (it : DeviceIter) : Z :=
  (255 - it_bus it) * 256 + (32 - it_id it) * 8 + match multi_function it with Some (_, _, f) => 8 - f | None => 0 end.

Lemma first_open_in {A} (xs : list A) (open : A -> W -> W * option Device) : forall w w' x d,
  first_open xs open w = (w', Some (x, d)) -> x ∈ xs.
Proof.
  induction xs as [|y xs IH]; intros w w' x d E; [done|]. cbn in E. destruct (open y w) as [w1 [d1|]].
  - injection E as _ -> _. by left.
  - right. by eapply IH.
Qed.

Lemma multi_of_rank d bus id : 0 <= match multi_of d bus id with Some (_, _, f) => 8 - f | None => 0 end <= 7.
Proof. unfold multi_of. destruct (multiple_functions _); lia. Qed.

Lemma next_buses_rank it w w' it' d : iter_ok it -> next_buses it w = (w', it', Some d) ->
  iter_ok it' /\ 0 <= iter_rank it' < (255 - it_bus it) * 256.
Proof.
  intros (Hb & Hi & Hm) E. unfold next_buses in E. destruct (it_bus it <? 255) eqn:Hlt; [|done]. apply Z.ltb_lt in Hlt.
  destruct (first_open _ _ _) as [w1 [[[bus id] d1]|]] eqn:Ef; [|done]. injection E as <- <- <-. apply first_open_in in Ef.
  apply list_elem_of_bind in Ef as (bus' & Hin & Hbus). apply list_elem_of_fmap in Hin as (id' & [= -> ->] & Hid).
  apply elem_of_seqZ in Hbus, Hid. pose proof (multi_of_rank d1 bus' id') as Hr. unfold iter_ok, iter_rank. cbn [it_bus it_id multi_function].
  split; [split; [lia|split; [lia|apply multi_of_ok]]|lia].
Qed.

Lemma next_ids_rank it w w' it' d : iter_ok it -> next_ids it w = (w', it', Some d) ->
  iter_ok it' /\ 0 <= iter_rank it' < (255 - it_bus it) * 256 + (32 - it_id it) * 8.
Proof.
  intros Hok E. pose proof Hok as (Hb & Hi & Hm). unfold next_ids in E. destruct (if it_id it <=? 31 then _ else _) as [w1 [[id d1]|]] eqn:Ef.
  - destruct (it_id it <=? 31) eqn:Hle; [|done]. apply Z.leb_le in Hle. injection E as <- <- <-. apply first_open_in, elem_of_seqZ in Ef.
    pose proof (multi_of_rank d1 (it_bus it) id) as Hr. unfold iter_ok, iter_rank. cbn [it_bus it_id multi_function].
    split; [split; [lia|split; [lia|apply multi_of_ok]]|lia].
  - destruct (next_buses_rank it w1 w' it' d Hok E) as [Hok' Hr]. split; [done|lia].
Qed.

Lemma DeviceIter_next_rank it w w' it' d : iter_ok it -> DeviceIter_next it w = (w', it', Some d) ->
  iter_ok it' /\ 0 <= iter_rank it' < iter_rank it.
Proof.
  intros Hok E. pose proof Hok as (Hb & Hi & Hm). unfold DeviceIter_next in E. unfold iter_rank at 3.
  destruct (multi_function it) as [[[b i] f]|] eqn:Ef.
  - destruct (first_open _ _ _) as [w1 [[func d1]|]] eqn:Eo.
    + injection E as <- <- <-. apply first_open_in, elem_of_seqZ in Eo. unfold iter_ok, iter_rank. cbn [it_bus it_id multi_function].
      destruct (func <? 7) eqn:Hlt; [apply Z.ltb_lt in Hlt|apply Z.ltb_ge in Hlt]; (cbn; split; [split; [lia|split; [lia|lia || done]]|lia]).
    + apply next_ids_rank in E as [Hok' Hr]; [|exact (conj Hb (conj Hi I))]. cbn [it_bus it_id] in Hr. split; [done|lia].
  - apply next_ids_rank in E as [Hok' Hr]; [|done]. split; [done|lia].
Qed.

(** 65537 rounds are enough, whatever the ports answer. *)
Lemma register_devices_ends fuel : forall it t w, iter_ok it -> 0 <= iter_rank it < Z.of_nat fuel -> register_devices fuel it t w <> None.
Proof.
  induction fuel as [|fuel IH]; intros it t w Hok Hr; [lia|]. cbn [register_devices].
  destruct (DeviceIter_next it w) as [[w1 it'] [d|]] eqn:E; [|done]. destruct (DeviceIter_next_rank it w w1 it' d Hok E) as [Hok' Hr'].
  destruct (register_bars _ _ _ _ _) as [[t1 w2]|]; [|done]. apply IH; [done|lia].
Qed.
End Devices.

(** ** Lemmas: the tables that the heap needs *)

(** The pages of the heap, and the tables above them: 16 of level 1 under one of
    level 2. *)
Definition heap_start_page : Z := KERNEL_HEAP_BASE / PAGE_SIZE.
Definition heap_page_count : Z := KERNEL_HEAP_SIZE / PAGE_SIZE.
Definition heap_pages : list Page := Page_new <$> seqZ heap_start_page heap_page_count.
Definition HEAP_TABLES : Z := 16.

Lemma heap_pages_range : exists r, PageRange_from_base_size (Address_new KERNEL_HEAP_BASE) KERNEL_HEAP_SIZE = Done r /\ PageRange_pages r = heap_pages.
Proof.
  exists (mkRange (Page_new heap_start_page) (Page_new (heap_start_page + heap_page_count))). split; [vm_compute; reflexivity|].
  unfold PageRange_pages, heap_pages. cbn [range_start range_end page_number Page_new].
  by replace (heap_start_page + heap_page_count - heap_start_page) with heap_page_count by lia.
Qed.

Lemma heap_start_value : heap_start_page = 0xfffffe8000000.
Proof. vm_compute. reflexivity. Qed.

Lemma heap_start_in : Page_new heap_start_page ∈ heap_pages.
Proof. apply list_elem_of_fmap_2, elem_of_seqZ. change heap_page_count with 0x2000. lia. Qed.

Lemma heap_pages_ok q : q ∈ heap_pages -> Page_l4_index q = KERNEL_HEAP_L4_INDEX /\ Page_l3_index q = 0 /\ Page_l2_index q ∈ seqZ 0 HEAP_TABLES /\
  canonical_page q.
Proof.
  intros Hq. apply list_elem_of_fmap in Hq as (n & -> & Hn). apply elem_of_seqZ in Hn.
  rewrite heap_start_value in Hn. change heap_page_count with 0x2000 in Hn.
  assert (Hraw : to_raw (Page_base_addr (Page_new n)) = n * 2 ^ 12).
  { unfold Page_base_addr, Address_new_unchecked. cbn [to_raw page_number Page_new]. apply wrap_small. unfold uint_range, PAGE_SIZE, KIBIBYTE. lia. }
  unfold Page_l4_index, Page_l3_index, Page_l2_index, canonical_page, canonical. rewrite l4_index_div, l3_index_div, l2_index_div, elem_of_seqZ, Hraw.
  change KERNEL_HEAP_L4_INDEX with 509. unfold HEAP_TABLES. cbn [page_number Page_new].
  split_and!; Z.div_mod_to_equations; lia.
Qed.

Lemma sum_le (f f' : Z -> Z) l : (forall x, x ∈ l -> f' x <= f x) -> foldr Z.add 0 (f' <$> l) <= foldr Z.add 0 (f <$> l).
Proof.
  induction l as [|x l IH]; intros H; [done|]. cbn [fmap list_fmap foldr]. specialize (IH (fun y Hy => H y (list_elem_of_further y x l Hy))).
  pose proof (H x (list_elem_of_here x l)). lia.
Qed.

Lemma sum_drop (f f' : Z -> Z) l j : (forall x, x ∈ l -> f' x <= f x) -> j ∈ l -> f' j = 0 ->
  f j + foldr Z.add 0 (f' <$> l) <= foldr Z.add 0 (f <$> l).
Proof.
  induction l as [|x l IH]; intros H Hj H0; [by apply not_elem_of_nil in Hj|]. cbn [fmap list_fmap foldr].
  assert (Hl : forall y, y ∈ l -> f' y <= f y) by (intros y Hy; apply H; by right).
  pose proof (H x (list_elem_of_here x l)) as Hx. apply elem_of_cons in Hj as [->|Hj]; [pose proof (sum_le f f' l Hl)|pose proof (IH Hl Hj H0)]; lia.
Qed.

Lemma sum_elem (f : Z -> Z) l j : (forall x, x ∈ l -> 0 <= f x) -> j ∈ l -> f j <= foldr Z.add 0 (f <$> l).
Proof.
  intros Hf Hj. pose proof (sum_drop f (fun _ => 0) l j Hf Hj eq_refl) as H. enough (foldr Z.add 0 ((fun _ => 0) <$> l) = 0) by lia.
  clear. induction l as [|x l IH]; [done|]. cbn [fmap list_fmap foldr]. lia.
Qed.

(** ** Lemmas: the heap loop *)

Section HeapLoop.
Context (root : Frame).
Implicit Types s : ptstate FrameAllocator.

Definition heap_flags : Z := flags_bitor PRESENT WRITABLE.

Lemma heap_flags_ok : map_flags heap_flags.
Proof. exact example_flags. Qed.

Definition heap_missing s : Z := missing root s [KERNEL_HEAP_L4_INDEX] + missing root s [KERNEL_HEAP_L4_INDEX; 0] +
  foldr Z.add 0 ((fun j => missing root s [KERNEL_HEAP_L4_INDEX; 0; j]) <$> seqZ 0 HEAP_TABLES).

Lemma heap_missing_bound s : 0 <= heap_missing s <= 2 + HEAP_TABLES.
Proof.
  unfold heap_missing. pose proof (missing_bound root s [KERNEL_HEAP_L4_INDEX]). pose proof (missing_bound root s [KERNEL_HEAP_L4_INDEX; 0]).
  assert (Hsum : forall l, 0 <= foldr Z.add 0 ((fun j => missing root s [KERNEL_HEAP_L4_INDEX; 0; j]) <$> l) <= Z.of_nat (length l)).
  { induction l as [|j l IH]; [done|]. cbn [fmap list_fmap foldr length]. pose proof (missing_bound root s [KERNEL_HEAP_L4_INDEX; 0; j]). lia. }
  specialize (Hsum (seqZ 0 HEAP_TABLES)). rewrite length_seqZ in Hsum. change (Z.of_nat (Z.to_nat HEAP_TABLES)) with HEAP_TABLES in Hsum. lia.
Qed.

Lemma heap_path j : j ∈ seqZ 0 HEAP_TABLES -> path 3 [KERNEL_HEAP_L4_INDEX; 0; j].
Proof. intros Hj. apply elem_of_seqZ in Hj. unfold HEAP_TABLES in Hj. apply path_3; [by vm_compute|by vm_compute|]. unfold table_index. lia. Qed.

(** A page of the heap pays for the tables that it adds. *)
Lemma heap_missing_step s s' page v : Page_l4_index page = KERNEL_HEAP_L4_INDEX -> Page_l3_index page = 0 -> Page_l2_index page ∈ seqZ 0 HEAP_TABLES ->
  (forall q h, path 3 q -> walk (pt_mem s) (frame_number root) q = Ok h -> walk (pt_mem s') (frame_number root) q = Ok h) ->
  page_view root s' page = Ok v ->
  missing_tables root s (Page_l4_index page) (Page_l3_index page) (Page_l2_index page) + heap_missing s' <= heap_missing s.
Proof.
  intros H4 H3 H2 Hw Hv. pose proof (mapped_missing root s' page v Hv) as (M1 & M2 & M3). rewrite H4, H3 in *.
  unfold missing_tables, heap_missing. rewrite M1, M2.
  pose proof (sum_drop (fun j => missing root s [KERNEL_HEAP_L4_INDEX; 0; j]) (fun j => missing root s' [KERNEL_HEAP_L4_INDEX; 0; j])
    (seqZ 0 HEAP_TABLES) (Page_l2_index page)) as Hs. cbn beta in Hs.
  specialize (Hs ltac:(intros j Hj; apply missing_le; intros h; by apply Hw, heap_path) H2 M3). lia.
Qed.

Lemma heap_missing_page s page : Page_l4_index page = KERNEL_HEAP_L4_INDEX -> Page_l3_index page = 0 -> Page_l2_index page ∈ seqZ 0 HEAP_TABLES ->
  missing_tables root s (Page_l4_index page) (Page_l3_index page) (Page_l2_index page) <= heap_missing s.
Proof.
  intros -> -> H2. unfold missing_tables, heap_missing.
  pose proof (sum_elem (fun j => missing root s [KERNEL_HEAP_L4_INDEX; 0; j]) (seqZ 0 HEAP_TABLES) (Page_l2_index page)) as Hs. cbn beta in Hs.
  specialize (Hs ltac:(intros j _; apply missing_bound) H2). lia.
Qed.

Lemma init_heap_loop_spec pages : forall s, pt_inv root s -> NoDup pages ->
  (forall q, q ∈ pages -> Page_l4_index q = KERNEL_HEAP_L4_INDEX /\ Page_l3_index q = 0 /\ Page_l2_index q ∈ seqZ 0 HEAP_TABLES /\ canonical_page q /\
     page_view root s q = Err NotMapped) ->
  Z.of_nat (length pages) + heap_missing s < Z.of_nat (size (avail (pt_alloc s))) ->
  exists s', init_heap_loop root pages s = Done s' /\ pt_inv root s' /\ takes (Z.of_nat (length pages) + heap_missing s) s s' /\
    pages_mapped root heap_flags s s' pages /\ pages_distinct root s s'.
Proof.
  induction pages as [|page pages IH]; intros s Hinv Hnd Hq Hsz; cbn [init_heap_loop].
  { exists s. split; [done|]. split; [done|]. split; [|apply pages_mapped_nil].
    eapply takes_le; [|by apply takes_same]. pose proof (heap_missing_bound s). cbn [length]. lia. }
  apply NoDup_cons in Hnd as [Hnin Hnd]. destruct (Hq page) as (H4 & H3 & H2 & Hc & Hun); [by left|]. cbn [length] in Hsz.
  destruct (map_one_page root heap_flags heap_flags_ok s page Hinv Hc) as (f & a & s1 & r & Ea & Em & Hinv1 & K1 & Hw1 & Hm1 & Hr); [by rewrite Hun| |].
  { pose proof (heap_missing_page s page H4 H3 H2). lia. }
  rewrite Hun in Hr. subst r. rewrite Ea. cbn [mbind exec_bind unwrap]. unfold heap_flags in Em. rewrite Em. cbn [mbind exec_bind result_ok unwrap].
  assert (Hv : exists v, page_view root s1 page = Ok v).
  { specialize (Hm1 page Hc). rewrite Hun, decide_True in Hm1 by done. destruct Hm1 as (v & Hv & _). by exists v. }
  destruct Hv as [v Hv]. pose proof (heap_missing_step s s1 page v H4 H3 H2 Hw1 Hv) as Hmiss.
  destruct (IH (flush s1 (mkFlush page))) as (s' & E & Hinv' & K' & Hmap & Hdist); [done|done| | |].
  { intros q Hin. destruct (Hq q) as (Q4 & Q3 & Q2 & Qc & Qun); [by right|]. split; [done|]. split; [done|]. split; [done|]. split; [done|].
    specialize (Hm1 q Qc). rewrite Qun, decide_False in Hm1; [exact Hm1|]. by intros ->. }
  { change (heap_missing (flush s1 (mkFlush page))) with (heap_missing s1). cbn [flush pt_alloc]. destruct K1 as [_ K1]. lia. }
  exists s'. split; [exact E|]. split; [done|]. destruct K1 as [S1 N1], K' as [S2 N2]. cbn [flush pt_alloc] in S2, N2.
  change (heap_missing (flush s1 (mkFlush page))) with (heap_missing s1) in N2. split; [split; [set_solver|cbn [length]; lia]|].
  by apply (pages_mapped_cons root heap_flags s (flush s1 (mkFlush page))).
Qed.
End HeapLoop.

(** ** Lemmas: the other parts *)

(** A page has the indices of a canonical one. *)
Lemma canonical_twin page : exists q, canonical_page q /\ Page_l4_index q = Page_l4_index page /\ Page_l3_index q = Page_l3_index page /\
  Page_l2_index q = Page_l2_index page /\ Page_l1_index q = Page_l1_index page.
Proof.
  destruct (page_indices page) as (H4 & H3 & H2 & H1). destruct (from_table_indices_split _ _ _ _ H4 H3 H2 H1) as (E4 & E3 & E2 & E1 & _).
  set (a := Address_from_table_indices _ _ _ _) in *.
  assert (Hc : canonical a) by (subst a; rewrite from_table_indices_value by done; apply Address_new_canonical).
  destruct (containing_page_indices a Hc) as (Hq & Q4 & Q3 & Q2 & Q1). exists (Page_containing_addr a).
  rewrite Q4, Q3, Q2, Q1, E4, E3, E2, E1. done.
Qed.

Lemma base_size_done a size : 0 <= a < 2 ^ 47 -> 0 <= size < 2 ^ 47 -> exists r, PageRange_from_base_size (Address_new a) size = Done r.
Proof.
  intros Ha Hs. rewrite Address_new_id by (left; done). unfold PageRange_from_base_size, Page_add, Page_containing_addr, checked_add. cbn [to_raw page_number].
  destruct (div_ceil_spec size PAGE_SIZE) as [D1 D2]; [lia|done|]. set (c := div_ceil size PAGE_SIZE) in *. unfold PAGE_SIZE, KIBIBYTE in *.
  rewrite (proj2 (Z.ltb_lt _ _)) by (Z.div_mod_to_equations; lia). cbn. eauto.
Qed.

Lemma init_kernel_address_space_done cr3 : 0 <= frame_number cr3 < 2 ^ 35 -> init_kernel_address_space cr3 = Done (mkSpace "" cr3 []).
Proof.
  intros Hf. unfold init_kernel_address_space, Frame_from_base_addr.
  assert (E : Address_new (to_raw (Frame_base_addr cr3)) = Frame_base_addr cr3).
  { rewrite Address_new_id; [by destruct (Frame_base_addr cr3)|]. left. cbn [to_raw]. rewrite Frame_base_addr_raw by done. unfold PAGE_SIZE, KIBIBYTE. lia. }
  rewrite E, Frame_base_addr_aligned, Frame_containing_base by done. done.
Qed.

(** ** Properties *)

Section Start.
Context (m : pmem) (cr3 : Frame) (fa1 : FrameAllocator).
Hypothesis (Hfa : fa_inv fa1) (Hwf : pt_wf m (frame_number cr3) (free_set (bitmap fa1))).
Hypothesis (Hfree : 64 * MEBIBYTE < free_frames fa1 * PAGE_SIZE).
Hypothesis (Hupper : forall page, 256 <= Page_l4_index page -> translate_page m cr3 page = Done (Err NotMapped)).
Let s0 : ptstate FrameAllocator := mkPt m fa1 [].

Lemma upper_view page : 256 <= Page_l4_index page -> page_view cr3 s0 page = Err NotMapped.
Proof.
  intros Hp. specialize (Hupper page Hp). erewrite translate_page_view in Hupper by done. unfold page_view. cbn [s0 pt_mem]. by destruct (view _ _ _ _ _ _); congruence.
Qed.

(** 64 MiB are enough for the heap and its tables. *)
Lemma init_heap_done : exists s', init_heap_loop cr3 heap_pages s0 = Done s' /\ pt_inv cr3 s' /\ takes (heap_page_count + 2 + HEAP_TABLES) s0 s' /\
  pages_mapped cr3 heap_flags s0 s' heap_pages /\ pages_distinct cr3 s0 s'.
Proof.
  pose proof (heap_missing_bound cr3 s0) as Hb.
  assert (Hlen : Z.of_nat (length heap_pages) = heap_page_count) by (unfold heap_pages; rewrite length_fmap, length_seqZ; by vm_compute).
  destruct (init_heap_loop_spec cr3 heap_pages s0) as (s' & E & Hinv' & K & Hm & Hd).
  - by split.
  - unfold heap_pages. apply NoDup_fmap; [by intros ?? [= ->]|apply NoDup_seqZ].
  - intros q Hq. destruct (heap_pages_ok q Hq) as (H4 & H3 & H2 & Hc). split; [done|]. split; [done|]. split; [done|]. split; [done|].
    apply upper_view. rewrite H4. by vm_compute.
  - change (avail (pt_alloc s0)) with (free_set (bitmap fa1)). rewrite <-(fa_count _ Hfa), Hlen.
    change heap_page_count with 8192. unfold HEAP_TABLES in Hb. unfold MEBIBYTE, PAGE_SIZE, KIBIBYTE in Hfree. lia.
  - exists s'. split; [done|]. split; [done|]. split; [|exact (conj Hm Hd)]. rewrite Hlen in K. eapply takes_le; [|exact K]. lia.
Qed.
End Start.

Lemma tracker_done b : 0 <= kernel_start b <= kernel_end b -> kernel_end b < 2 ^ 47 -> 0 <= framebuffer_addr b -> 0 <= framebuffer_size b ->
  framebuffer_addr b + framebuffer_size b < 2 ^ 47 -> exists t, MemoryTracker_init b MemoryTracker_new = Done t.
Proof.
  intros Hk Hke Hf0 Hfs Hft. unfold MemoryTracker_init. rewrite wrap_small by (unfold uint_range; lia).
  destruct (base_size_done (kernel_start b) (kernel_end b - kernel_start b)) as [r1 ->]; [lia..|]. cbn [mbind exec_bind].
  destruct (base_size_done (framebuffer_addr b) (framebuffer_size b)) as [r2 ->]; [lia..|]. cbn [mbind exec_bind]. eauto.
Qed.

Lemma heap_start_indices : let a := Address_new KERNEL_HEAP_BASE in let p := Page_new heap_start_page in
  l4_index a = Page_l4_index p /\ l3_index a = Page_l3_index p /\ l2_index a = Page_l2_index p /\ l1_index a = Page_l1_index p.
Proof. vm_compute. repeat split. Qed.

Lemma init_heap_loop_of k : init_heap k = init_heap_loop (space_frame (k_space k)) heap_pages (mkPt (k_mem k) (k_frames k) (k_flushed k)).
Proof. unfold init_heap. destruct heap_pages_range as (r & Er & Ep). rewrite Er. cbn [mbind exec_bind]. by rewrite Ep. Qed.

(** [init] is the heap loop once the frames are known. *)
Lemma memory_init_steps b fa fa1 n m cr3 (s' : ptstate FrameAllocator) v :
  0 <= kernel_start b <= kernel_end b -> kernel_end b < 2 ^ 47 -> 0 <= framebuffer_addr b -> 0 <= framebuffer_size b ->
  framebuffer_addr b + framebuffer_size b < 2 ^ 47 -> init_frames b fa = Done (fa1, n) -> 0 <= frame_number cr3 < 2 ^ 35 ->
  init_heap_loop cr3 heap_pages (mkPt m fa1 []) = Done s' -> pt_inv cr3 s' -> page_view cr3 s' (Page_new heap_start_page) = Ok v ->
  exists k framebuffer, memory_init b fa m cr3 = Done (k, framebuffer) /\ k_mem k = pt_mem s' /\ k_frames k = pt_alloc s' /\
    k_space k = mkSpace "" cr3 [] /\ k_cr3 k = cr3.
Proof.
  intros Hk Hke Hf0 Hfs Hft E Hc Eh [_ Hwf'] Hv. unfold memory_init.
  destruct (tracker_done b Hk Hke Hf0 Hfs Hft) as [t ->]. rewrite (init_kernel_address_space_done cr3 Hc). cbn [mbind exec_bind].
  unfold is_current. cbn [k_cr3 space_frame]. rewrite Z.eqb_refl. cbn [rust_assert mbind exec_bind]. rewrite E. cbn [mbind exec_bind].
  unfold memory_init_heap. rewrite init_heap_loop_of. cbn [k_space k_mem k_frames k_flushed k_cr3 KERNEL_MAPPING_OFFSET TRACKER space_frame]. rewrite Eh. cbn [mbind exec_bind].
  set (k := mkKernel (pt_mem s') _ _ _ _ _ _).
  destruct (translate_address_view k (mkSpace "" cr3 []) _ (Address_new KERNEL_HEAP_BASE) Hwf') as [-> _].
  destruct heap_start_indices as (-> & -> & -> & ->). unfold page_view in Hv. cbn [k_mem k space_frame]. rewrite Hv. cbn [mbind exec_bind unwrap].
  unfold framebuffer_mapping. destruct (base_size_done (framebuffer_addr b) (framebuffer_size b)) as [r2 ->]; [lia..|]. cbn [mbind exec_bind].
  by exists k, (mkMapping "framebuffer" (framebuffer_size b) r2 (Z.lor PRESENT WRITABLE)).
Qed.

(** C7: on disjoint regions of memory, with the firmware's tables outside the
    free frames and nothing mapped in the upper half, the start-up of the
    memory management does not panic once it has found more than 64 MiB free.
    It maps the heap, each page to a frame of its own that was free, changes no
    other translation, maps nothing in the private part of the kernel's space
    and takes at most 18 frames more than the heap has pages. *)
Theorem memory_init_ready (b : BootInfo) (fa fa1 : FrameAllocator) (n : Z) (m : pmem) (cr3 : Frame) :
  length (bitmap fa) = Z.to_nat BITMAP_LEN -> Forall region_valid (memory_map b) -> ForallOrdPairs regions_disjoint (memory_map b) ->
  0 <= kernel_start b <= kernel_end b -> kernel_end b < 2 ^ 47 ->
  0 <= framebuffer_addr b -> 0 <= framebuffer_size b -> framebuffer_addr b + framebuffer_size b < 2 ^ 47 ->
  init_frames b fa = Done (fa1, n) -> 0 <= frame_number cr3 < 2 ^ 35 -> pt_wf m (frame_number cr3) (free_set (bitmap fa1)) ->
  (forall page, 256 <= Page_l4_index page -> translate_page m cr3 page = Done (Err NotMapped)) ->
  exists k framebuffer, memory_init b fa m cr3 = Done (k, framebuffer) /\ kernel_ok k (space_frame (k_space k)) /\
    k_space k = mkSpace "" cr3 [] /\ is_current k (k_space k) = true /\
    (forall page, private_entry (Page_l4_index page) -> AddressSpace_translate_page k (k_space k) page = Done None) /\
    (forall q, q ∈ heap_pages -> exists f, AddressSpace_translate_page k (k_space k) q = Done (Some f) /\
       frame_number f ∈ free_set (bitmap fa1) /\ frame_number f ∉ free_set (bitmap (k_frames k))) /\
    (forall q q' f, q ∈ heap_pages -> q' ∈ heap_pages -> AddressSpace_translate_page k (k_space k) q = Done (Some f) ->
       AddressSpace_translate_page k (k_space k) q' = Done (Some f) -> q = q') /\
    (forall q, canonical_page q -> q ∉ heap_pages -> translate_page (k_mem k) cr3 q = translate_page m cr3 q) /\
    free_frames fa1 <= free_frames (k_frames k) + heap_page_count + 18.
Proof.
  intros Hl Hv Hd Hk Hke Hf0 Hfs Hft E Hc Hwf Hupper.
  destruct (init_frames_exact b fa Hl Hv Hd Hk Hke Hf0 Hfs Hft) as (fa' & Hfa & E' & _). rewrite E' in E.
  destruct (64 * MEBIBYTE <? free_frames fa' * PAGE_SIZE) eqn:Hfree; [|done]. apply Z.ltb_lt in Hfree. injection E as -> <-.
  destruct (init_heap_done m cr3 fa1 Hfa Hwf Hfree Hupper) as (s' & Eh & [Ha' Hwf'] & K & Hm & Hdist).
  pose proof (upper_view m cr3 fa1 Hwf Hupper) as Hup.
  pose proof heap_start_in as H0.
  assert (Hmap : forall q, q ∈ heap_pages -> exists v, page_view cr3 s' q = Ok v /\ fresh_leaf heap_flags (mkPt m fa1 []) s' v).
  { intros q Hq. destruct (heap_pages_ok q Hq) as (H4 & _ & _ & Hcq). specialize (Hm q Hcq). rewrite Hup in Hm by (rewrite H4; by vm_compute).
    by destruct Hm as [[_ ?]|[? _]]. }
  destruct (Hmap _ H0) as (v0 & Hv0 & _).
  destruct (memory_init_steps b fa fa1 (free_frames fa1) m cr3 s' v0 Hk Hke Hf0 Hfs Hft E' Hc Eh (conj Ha' Hwf') Hv0)
    as (k & fb & Ek & Em & Ef & Esp & Ecr). exists k, fb. split; [done|]. rewrite Esp. cbn [space_frame].
  assert (Htr : forall q, AddressSpace_translate_page k (mkSpace "" cr3 []) q =
    Done (match page_view cr3 s' q with Ok v => Some (entry_frame_of v) | Err _ => None end)).
  { intros q. exact (translate_view k s' (mkSpace "" cr3 []) q Em Hwf'). }
  split; [split; rewrite ?Em, Ef; done|]. split; [done|]. split; [unfold is_current; rewrite Ecr; apply Z.eqb_refl|]. split; [|split; [|split; [|split]]].
  - intros page Hp. rewrite Htr. destruct (canonical_twin page) as (q & Hcq & Q4 & Q3 & Q2 & Q1).
    assert (page_view cr3 s' page = page_view cr3 s' q) as -> by (unfold page_view; by rewrite Q4, Q3, Q2, Q1).
    rewrite <-Q4 in Hp. apply orb_false_iff in Hp as [Hp1 Hp2]. apply Z.leb_gt in Hp1. apply Z.eqb_neq in Hp2.
    specialize (Hm q Hcq). rewrite Hup in Hm by lia. destruct Hm as [[Hin _]|[_ ->]]; [|done]. by destruct (heap_pages_ok q Hin) as [? _].
  - intros q Hq. destruct (Hmap q Hq) as (v & Hv' & _ & Hin & Hout). exists (entry_frame_of v). rewrite Htr, Hv'. rewrite Ef. done.
  - intros q q' f Hq Hq' E1 E2. rewrite Htr in E1, E2. destruct (Hmap q Hq) as (v & Hv1 & _), (Hmap q' Hq') as (v' & Hv2 & _). rewrite Hv1 in E1. rewrite Hv2 in E2.
    destruct (decide (q = q')) as [|Hne]; [done|exfalso]. destruct (heap_pages_ok q Hq) as (H4 & _ & _ & C1), (heap_pages_ok q' Hq') as (H4' & _ & _ & C2).
    apply (Hdist q q' v v' NotMapped NotMapped C1 C2 Hne); [apply Hup; rewrite H4; by vm_compute|apply Hup; rewrite H4'; by vm_compute|done|done|congruence].
  - intros q Hcq Hq. erewrite !translate_page_view by (rewrite ?Em; done). rewrite Em. specialize (Hm q Hcq). unfold page_view in Hm. cbn [pt_mem] in Hm.
    destruct (view m _ _ _ _ _) as [v|e]; [by rewrite Hm|]. by destruct Hm as [[? _]|[_ ->]].
  - destruct K as [_ K]. rewrite Ef. rewrite (fa_count _ Hfa), (fa_count (pt_alloc s') Ha'). unfold HEAP_TABLES in K. cbn [pt_alloc avail FrameAllocator_laws] in K. lia.
Qed.

(** The start of [example_boot] on empty tables. *)
Lemma example_frames : exists fa, fa_inv fa /\ init_frames example_boot FrameAllocator_new = Done (fa, free_frames fa) /\ 2 ∉ free_set (bitmap fa).
Proof.
  assert (H0 : reserved 0 MEBIBYTE 2) by (split; vm_compute; done).
  destruct (init_frames_done example_boot FrameAllocator_new (mkRegion 0x100000 (80 * MEBIBYTE) Free) 0x210 19000) as (fa & Hinv & E & _ & Hset); try (cbn; lia).
  - by vm_compute.
  - apply Forall_singleton. split; [by vm_compute|]. split; by vm_compute.
  - apply FOP_cons; [constructor|constructor].
  - by left.
  - done.
  - by vm_compute.
  - intros f Hf. unfold reserved, region_covers. cbn [example_boot kernel_start kernel_end framebuffer_addr framebuffer_size region_base region_size].
    change (0 / PAGE_SIZE + div_ceil MEBIBYTE PAGE_SIZE) with 0x100. change (0x200000 / PAGE_SIZE + div_ceil (0x210000 - 0x200000) PAGE_SIZE) with 0x210.
    change (0x80000000 / PAGE_SIZE) with 0x80000. unfold MEBIBYTE, PAGE_SIZE, KIBIBYTE. lia.
  - exists fa. split; [done|]. split; [done|]. intros Hin. apply Hset in Hin. tauto.
Qed.

Lemma memory_init_ready_witness : exists k framebuffer, memory_init example_boot FrameAllocator_new ∅ (Frame_new 2) = Done (k, framebuffer) /\
  exists f, AddressSpace_translate_page k (k_space k) (Page_new heap_start_page) = Done (Some f).
Proof.
  destruct example_frames as (fa & Hinv & E & H2).
  assert (Hwf : pt_wf ∅ (frame_number (Frame_new 2)) (free_set (bitmap fa))).
  { apply empty_table_wf; [exact H2| |].
    - intros f i. unfold mread. rewrite lookup_empty. cbn [default from_option id]. unfold uint_range. lia.
    - intros i _. reflexivity. }
  destruct (memory_init_ready example_boot FrameAllocator_new fa (free_frames fa) ∅ (Frame_new 2)) as (k & fb & Ek & _ & _ & _ & _ & Hheap & _); try (cbn; lia).
  - by vm_compute.
  - apply Forall_singleton. split; [by vm_compute|]. split; by vm_compute.
  - apply FOP_cons; [constructor|constructor].
  - exact E.
  - exact Hwf.
  - intros page _. erewrite translate_page_view by exact Hwf. reflexivity.
  - exists k, fb. split; [exact Ek|]. destruct (Hheap (Page_new heap_start_page)) as (f & Hf & _); [|by exists f]. exact heap_start_in.
Defined.
