(* ===== verification/LoaderState.v ===== *)
(** * kernel/src/loader.rs: the loader's state and its section maps

    Every object ever loaded has a number in [pool]; the [Arc]s that keep one
    alive are the entries of [objects] and the dependencies of live objects,
    so [Weak::upgrade] is a lookup guarded by [section_live]. A section is
    named by its object and its index. The range map is a sorted association
    list. A loading function runs in [M]: it threads the kernel, the address
    space and page it loads into and the loader, and returns a [result]; the
    effects of a failed run stay. [hoare] is its program logic. *)

From Stdlib Require Import Lia.
From stdpp Require Import base numbers option strings tactics gmap fin_maps fin_sets sorting list.
From S2P Require Import Prelude Pod Bytes MemoryTypes Paging Memory Symbols.

Local Open Scope Z_scope.

(** ** Sections and objects *)

Inductive SectionKind : Type :=
  | Text | Rodata | Data | Bss | TlsData | TlsBss | GccExceptTable | EhFrame.

#[export] Instance SectionKind_eq_dec : EqDecision SectionKind.
Proof. solve_decision. Defined.

Definition SectionKind_name (self : SectionKind) : list Z :=
  str match self with
  | Text => ".text"
  | Rodata => ".rodata"
  | Data => ".data"
  | Bss => ".bss"
  | TlsData => ".tdata"
  | TlsBss => ".tbss"
  | GccExceptTable => ".gcc_except_table"
  | EhFrame => ".eh_frame"
  end.

(** A reference to a section: the number of its object and its index there. *)
Definition SecRef : Type := nat * Z.

Record ObjSection : Type := mkObjSection {
  os_name : list Z;
  os_kind : SectionKind;
  os_global : bool;
  os_size : Z;
  os_addr : Address;
  os_mapping : KMapping;
  os_mapping_offset : Z;
  os_owner : nat
}.

Record Dependency : Type := mkDependency { target_section : SecRef; source_section : SecRef; source_name : list Z }.

Record LoadedObject : Type := mkObject {
  ob_name : list Z;
  ob_sections : gmap Z ObjSection;
  global_sections : gset Z;
  data_sections : gset Z;
  tls_sections : gset Z;
  dependencies : list Dependency;
  executable_mapping : option KMapping;
  read_only_mapping : option KMapping;
  read_write_mapping : option KMapping
}.

Record LoaderState : Type := mkLoader {
  pool : gmap nat LoadedObject;
  next_object : nat;
  objects : gmap (list Z) nat;
  sections : gmap (list Z) SecRef;
  sections_by_addr : list ((Z * Z) * SecRef);
  contents : Memory_bytes (* of the kernel mappings *)
}.

Definition Loader_new (initial : Z -> Z) : LoaderState := mkLoader ∅ 0 ∅ ∅ [] (mkBytes ∅ initial).

Definition upd_pool (l : LoaderState) (p : gmap nat LoadedObject) : LoaderState :=
  mkLoader p (next_object l) (objects l) (sections l) (sections_by_addr l) (contents l).
Definition upd_objects (l : LoaderState) (o : gmap (list Z) nat) : LoaderState :=
  mkLoader (pool l) (next_object l) o (sections l) (sections_by_addr l) (contents l).
Definition upd_sections (l : LoaderState) (m : gmap (list Z) SecRef) : LoaderState :=
  mkLoader (pool l) (next_object l) (objects l) m (sections_by_addr l) (contents l).
Definition upd_by_addr (l : LoaderState) (b : list ((Z * Z) * SecRef)) : LoaderState :=
  mkLoader (pool l) (next_object l) (objects l) (sections l) b (contents l).
Definition upd_contents (l : LoaderState) (c : Memory_bytes) : LoaderState :=
  mkLoader (pool l) (next_object l) (objects l) (sections l) (sections_by_addr l) c.

(** ** References *)

Definition section_at_ref (l : LoaderState) (r : SecRef) : option ObjSection :=
  pool l !! r.1 ≫= fun o => ob_sections o !! r.2.

(** An object that the map of objects holds. *)
Definition object_live (l : LoaderState) (o : nat) : bool :=
  bool_decide (o ∈ (snd <$> map_to_list (objects l))).

(** A section that a live object holds, as its own or as a dependency. *)
Definition section_live (l : LoaderState) (r : SecRef) : bool :=
  object_live l r.1 ||
  existsb (fun o => existsb (fun d => bool_decide (source_section d = r) || bool_decide (target_section d = r))
      (from_option dependencies [] (pool l !! o)))
    (snd <$> map_to_list (objects l)).

(** [Weak::upgrade]. *)
Definition upgrade (l : LoaderState) (r : SecRef) : option ObjSection :=
  if section_live l r then section_at_ref l r else None.

(** ** The range map, a [BTreeMap<(Address, usize), _>] *)

Definition key_compare (a b : Z * Z) : comparison :=
  match a.1 ?= b.1 with Eq => a.2 ?= b.2 | c => c end.

Fixpoint btree_insert (k : Z * Z) (v : SecRef) (m : list ((Z * Z) * SecRef)) : list ((Z * Z) * SecRef) :=
  match m with
  | [] => [(k, v)]
  | (k', v') :: m' =>
      match key_compare k k' with
      | Lt => (k, v) :: m
      | Eq => (k, v) :: m'
      | Gt => (k', v') :: btree_insert k v m'
      end
  end.

(** ** Section manipulation *)

Definition get_object (self : LoaderState) (name : list Z) : option nat := objects self !! name.
Definition get_section (self : LoaderState) (name : list Z) : option SecRef := sections self !! name.

(** The order in which a hash map is searched is unspecified; here it is that
    of [map_to_list]. *)
Definition get_text_section (self : LoaderState) (prefix suffix : list Z) : option SecRef :=
  (fun p => p.2.2) <$> list_find (fun '(name, section) =>
    match upgrade self section with
    | Some s => bool_decide (os_kind s = Text)
    | None => false
    end && starts_with name prefix && ends_with name suffix = true) (map_to_list (sections self)).

(** [get_section_for_addr]: the first range that contains the address. *)
Fixpoint find_by_addr (m : list ((Z * Z) * SecRef)) (addr : Address) : exec (option SecRef) :=
  match m with
  | [] => Done None
  | ((section_addr, section_size), section) :: m =>
      if section_addr <=? to_raw addr then
        end_ ← Address_add (mkAddress section_addr) section_size;
        if to_raw addr <? to_raw end_ then Done (Some section) else find_by_addr m addr
      else find_by_addr m addr
  end.
Definition get_section_for_addr (self : LoaderState) (addr : Address) : exec (option SecRef) :=
  find_by_addr (sections_by_addr self) addr.

Definition add_alias_to_section (self : LoaderState) (name : list Z) (section : SecRef) : LoaderState :=
  upd_sections self (<[name := section]> (sections self)).

(** [add_sections]: the number it returns counts the new global names. *)
Definition add_section (p : SecRef * ObjSection) (st : LoaderState * Z) : LoaderState * Z :=
  let '(self, added_count) := st in
  let '(r, new_section) := p in
  let self := upd_by_addr self (btree_insert (to_raw (os_addr new_section), os_size new_section) r (sections_by_addr self)) in
  if os_global new_section then
    let added_count := match sections self !! os_name new_section with Some _ => added_count | None => added_count + 1 end in
    (upd_sections self (<[os_name new_section := r]> (sections self)), added_count)
  else (self, added_count).

Definition add_sections (self : LoaderState) (new_sections : list (SecRef * ObjSection)) : LoaderState * Z :=
  foldl (fun st p => add_section p st) (self, 0) new_sections.

(** The sections of an object with their references, in the order of the
    map. *)
Definition object_sections (o : nat) (m : gmap Z ObjSection) : list (SecRef * ObjSection) :=
  (fun p => ((o, p.1), p.2)) <$> map_to_list m.

(** ** The loading monad *)

Inductive LoadError : Type :=
  | Message (s : string)
  | OutOfFuel.

Record LoadState : Type := mkLoad {
  ls_kernel : Kernel;
  ls_space : AddressSpace;
  ls_page : Page;
  ls_loader : LoaderState
}.

Definition M (A : Type) : Type := LoadState -> exec (LoadState * result A LoadError).

#[export] Instance M_ret : MRet M := fun A a s => Done (s, Ok a).
#[export] Instance M_bind : MBind M := fun A B f m s =>
  '(s, r) ← m s;
  match r with
  | Ok a => f a s
  | Err e => Done (s, Err e)
  end.

Definition m_fail {A} (e : string) : M A := fun s => Done (s, Err (Message e)).
Definition m_panic {A} : M A := fun _ => Panic.
(** A computation that may panic, and one whose error is returned with [?]. *)
Definition m_exec {A} (m : exec A) : M A := fun s => a ← m; Done (s, Ok a).
Definition m_try {A} (m : exec (result A string)) : M A := fun s =>
  r ← m;
  match r with
  | Ok a => Done (s, Ok a)
  | Err e => Done (s, Err (Message e))
  end.
Definition m_loader {A} (f : LoaderState -> A) : M A := fun s => Done (s, Ok (f (ls_loader s))).
Definition m_upd (f : LoaderState -> LoaderState) : M unit := fun s =>
  Done (mkLoad (ls_kernel s) (ls_space s) (ls_page s) (f (ls_loader s)), Ok tt).
(** Runs a computation and returns its result, whatever it is. *)
Definition m_catch {A} (m : M A) : M (result A LoadError) := fun s => '(s, r) ← m s; Done (s, Ok r).
Definition m_raise {A} (e : LoadError) : M A := fun s => Done (s, Err e).

(** A loop whose body may fail, over a list and over an ELF file's sections. *)
Fixpoint m_for {A S} (xs : list A) (body : A -> S -> M S) (s : S) : M S :=
  match xs with
  | [] => mret s
  | x :: xs => s ← body x s; m_for xs body s
  end.

Definition m_body {A S} (body : A -> S -> M S) (x : A) (st : LoadState * S) : exec (LoadState * S + LoadState * LoadError) :=
  '(s, r) ← body x st.2 st.1;
  Done (match r with Ok a => inl (s, a) | Err e => inr (s, e) end).

Definition m_loop {A S} (loop : (A -> LoadState * S -> exec (LoadState * S + LoadState * LoadError)) ->
    LoadState * S -> exec (LoadState * S + LoadState * LoadError)) (body : A -> S -> M S) (s : S) : M S := fun ls =>
  r ← loop (m_body body) (ls, s);
  match r with
  | inl (ls, s) => Done (ls, Ok s)
  | inr (ls, e) => Done (ls, Err e)
  end.

(** ** A program logic *)

(** Every run that does not panic takes a state in [P] to a result and a state
    in [Q]. *)
Definition hoare {A} (P : LoadState -> Prop) (m : M A) (Q : result A LoadError -> LoadState -> Prop) : Prop :=
  forall s s' r, P s -> m s = Done (s', r) -> Q r s'.

Lemma hoare_ret {A} (P : LoadState -> Prop) (a : A) Q : (forall s, P s -> Q (Ok a) s) -> hoare P (mret a) Q.
Proof. intros H s s' r Hs. injection 1 as <- <-. auto. Qed.

Lemma M_bind_inv {A B} (m : M A) (k : A -> M B) s s' r : (m ≫= k) s = Done (s', r) ->
  exists s1 r1, m s = Done (s1, r1) /\ match r1 with Ok a => k a s1 = Done (s', r) | Err e => s' = s1 /\ r = Err e end.
Proof.
  intros H. unfold mbind, M_bind in H. exec_inv H. destruct x as [s1 [a|e]]; [by exists s1, (Ok a)|].
  injection H as <- <-. by exists s1, (Err e).
Qed.

(** Running a bind step by step. *)
Lemma M_bind_ok {A B} (m : M A) (k : A -> M B) s s1 a : m s = Done (s1, Ok a) -> (m ≫= k) s = k a s1.
Proof. intros H. unfold mbind, M_bind. by rewrite H. Qed.

Lemma M_bind_err {A B} (m : M A) (k : A -> M B) s s1 e : m s = Done (s1, Err e) -> (m ≫= k) s = Done (s1, Err e).
Proof. intros H. unfold mbind, M_bind. by rewrite H. Qed.

Lemma m_exec_ok {A} (m : exec A) s a : m = Done a -> m_exec m s = Done (s, Ok a).
Proof. unfold m_exec. by intros ->. Qed.

Lemma m_try_ok {A} (m : exec (result A string)) s r :
  m = Done r -> m_try m s = Done (s, match r with Ok a => Ok a | Err e => Err (Message e) end).
Proof. unfold m_try. intros ->. by destruct r. Qed.

Lemma m_try_inv {A} (m : exec (result A string)) s s' r : m_try m s = Done (s', r) ->
  s' = s /\ match r with Ok a => m = Done (Ok a) | Err (Message e) => m = Done (Err e) | Err OutOfFuel => False end.
Proof. unfold m_try. intros H. exec_inv H. destruct x; by injection H as <- <-. Qed.

Lemma m_exec_inv {A} (m : exec A) s s' r : m_exec m s = Done (s', r) -> s' = s /\ exists a, r = Ok a /\ m = Done a.
Proof. unfold m_exec. intros H. exec_inv H. injection H as <- <-. eauto. Qed.

Lemma hoare_bind {A B} P (m : M A) (k : A -> M B) R Q :
  hoare P m R -> (forall a, hoare (R (Ok a)) (k a) Q) -> (forall e s, R (Err e) s -> Q (Err e) s) -> hoare P (m ≫= k) Q.
Proof.
  intros Hm Hk He s s' r Hs H. unfold mbind, M_bind in H. exec_inv H. destruct x as [s1 [a|e]].
  - by apply (Hk a s1 s' r); [apply (Hm s)|].
  - injection H as <- <-. apply He. by apply (Hm s).
Qed.

Lemma hoare_conseq {A} (P P' : LoadState -> Prop) (m : M A) Q Q' :
  hoare P' m Q' -> (forall s, P s -> P' s) -> (forall r s, Q' r s -> Q r s) -> hoare P m Q.
Proof. intros Hm HP HQ s s' r Hs H. eapply HQ, Hm; eauto. Qed.

Lemma hoare_pre {A} (P P' : LoadState -> Prop) (m : M A) Q : (forall s, P s -> P' s) -> hoare P' m Q -> hoare P m Q.
Proof. intros HP Hm s s' r Hs H. eapply Hm; eauto. Qed.

(** [m] keeps [I] and does not run out of fuel. *)
Definition keeps {A} (I : LoadState -> Prop) (m : M A) : Prop :=
  hoare I m (fun r s => I s /\ r <> Err OutOfFuel).

Section keeps.
Context (I : LoadState -> Prop).

Lemma keeps_ret {A} (a : A) : keeps I (mret a).
Proof. by apply hoare_ret. Qed.

Lemma keeps_bind {A B} (m : M A) (k : A -> M B) : keeps I m -> (forall a, keeps I (k a)) -> keeps I (m ≫= k).
Proof.
  intros Hm Hk. apply hoare_bind with (fun r s => I s /\ r <> Err OutOfFuel); [done| |].
  - intros a s s' r [Hs _]. by apply Hk.
  - intros e s [Hs He]. split; [done|congruence].
Qed.

Lemma keeps_fail {A} e : keeps I (@m_fail A e).
Proof. intros s s' r Hs [= <- <-]. done. Qed.

Lemma keeps_panic {A} : keeps I (@m_panic A).
Proof. intros s s' r Hs [=]. Qed.

Lemma keeps_exec {A} (m : exec A) : keeps I (m_exec m).
Proof. intros s s' r Hs H. unfold m_exec in H. exec_inv H. injection H as <- <-. done. Qed.

Lemma keeps_try {A} (m : exec (result A string)) : keeps I (m_try m).
Proof. intros s s' r Hs H. unfold m_try in H. exec_inv H. destruct x; injection H as <- <-; done. Qed.

Lemma keeps_loader {A} (f : LoaderState -> A) : keeps I (m_loader f).
Proof. intros s s' r Hs [= <- <-]. done. Qed.

Lemma keeps_for {A S} (xs : list A) (body : A -> S -> M S) :
  (forall x s, keeps I (body x s)) -> forall s, keeps I (m_for xs body s).
Proof.
  intros Hb. induction xs as [|x xs IH]; intros s; cbn [m_for]; [apply keeps_ret|].
  apply keeps_bind; [apply Hb|done].
Qed.

Lemma keeps_raise {A} e : e <> OutOfFuel -> keeps I (@m_raise A e).
Proof. intros He s s' r Hs [= <- <-]. split; [done|congruence]. Qed.

(** Loops over the sections of a file. *)
Lemma keeps_iter {T A S} (next : T -> exec (option A * T)) (body : A -> S -> M S) :
  (forall x s, keeps I (body x s)) -> forall fuel it ls s o, I ls -> iter_loop next (m_body body) fuel it (ls, s) = Done o ->
  match o with
  | Some (inl (ls, _)) => I ls
  | Some (inr (ls, e)) => I ls /\ e <> OutOfFuel
  | None => True
  end.
Proof.
  intros Hb fuel. induction fuel as [|fuel IH]; intros it ls s o Hls H; cbn [iter_loop] in H; [by injection H as <-|].
  exec_inv H. destruct x as [[a|] it']; [|by injection H as <-]. exec_inv H. unfold m_body in E0. cbn [fst snd] in E0.
  exec_inv E0. destruct x0 as [ls1 r]. injection E0 as <-. destruct (Hb a s ls ls1 r Hls E1) as [Hls1 Hr].
  destruct r as [s1|e]; [by apply IH in H|]. injection H as <-. split; [done|congruence].
Qed.

Lemma keeps_loop {T A S} (next : T -> exec (option A * T)) it fuel (body : A -> S -> M S) :
  (forall x s, keeps I (body x s)) -> forall s,
  keeps I (m_loop (fun b st => o ← iter_loop next b fuel it st; unwrap o) body s).
Proof.
  intros Hb s ls ls' r Hls H. unfold m_loop in H. cbn beta in H. exec_inv H. exec_inv E.
  pose proof (keeps_iter next body Hb fuel it ls s x0 Hls E0) as Hx. destruct x0 as [o|]; [|done]. cbn in E. injection E as ->.
  destruct x as [[ls1 s1]|[ls1 e]]; injection H as <- <-; cbn in Hx; [by split|]. destruct Hx. split; [done|congruence].
Qed.
End keeps.
