(* ===== verification/ObjectLoader.v ===== *)
(** * kernel/src/loader.rs: loading and linking objects

    An object file is measured ([allocate_section_mappings]), its sections are
    copied into kernel mappings and recorded ([load_object_sections]), made
    known ([add_sections]), and its relocations are applied, loading the
    objects that define missing symbols on the way. The recursion between
    relocation and loading takes fuel; [load_fuel] is enough. Objects are read
    from the boot file system; [vec_addr] is the address of the buffer of the
    n-th read and [demangle] the third-party demangler. *)

From Stdlib Require Import Lia.
From stdpp Require Import base numbers option strings tactics gmap fin_maps fin_sets list.
From S2P Require Import Prelude BitUtils Pod Bytes Elf MemoryTypes Paging Memory Symbols LoaderState.

Local Open Scope Z_scope.
Local Open Scope u64_scope.

(** ** The size of the mappings *)

Definition has_flag (flags f : Z) : bool := Z.land flags f =? f.

(** [usize::next_multiple_of], which divides by its argument. *)
Definition next_multiple (a align : Z) : exec Z :=
  if align =? 0 then Panic else Done (next_multiple_of 64 a align).

Record Lens : Type := mkLens { executable_len : Z; read_only_len : Z; read_write_len : Z }.

(** The section whose size, alignment and offset stand for this one's: for
    an empty section the next, if it is at the same offset. *)
Definition measured_section (file : ElfFile) (section_index : Z) (section : SectionHeader) (name : result (list Z) string)
  : exec (result SectionHeader string) :=
  if (sh_size section =? 0) && negb (match name with Ok n => bool_decide (n = str ".text") | Err _ => false end) then
    next ← get_section_header file (wrap 16 (section_index + 1));
    match next with
    | Ok next_sec => Done (Ok (if sh_off next_sec =? sh_off section then next_sec else section))
    | Err _ => Done (Err "couldn't get next section for a zero-sized section"%string)
    end
  else Done (Ok section).

Definition measure_section (file : ElfFile) (p : Z * SectionHeader) (lens : Lens) : exec (Lens + string) :=
  let '(section_index, section) := p in
  let section_flags := sh_flags section in
  if Z.land section_flags SHF_ALLOC =? 0 then Done (inl lens)
  else
    name ← SectionHeader_get_name section file;
    r ← measured_section file section_index section name;
    match r with
    | Err e => Done (inr e)
    | Ok section =>
        let size := sh_size section in
        let align := sh_align section in
        if has_flag section_flags SHF_EXECINSTR then
          n ← next_multiple size align;
          Done (inl (mkLens (Z.max (executable_len lens) (sh_off section ⊞ n)) (read_only_len lens) (read_write_len lens)))
        else if has_flag section_flags SHF_TLS then
          if has_type section ProgBits then
            n ← next_multiple (read_only_len lens) align;
            Done (inl (mkLens (executable_len lens) (n ⊞ size) (read_write_len lens)))
          else Done (inl lens)
        else if has_flag section_flags SHF_WRITE then
          n ← next_multiple (read_write_len lens) align;
          Done (inl (mkLens (executable_len lens) (read_only_len lens) (n ⊞ size)))
        else
          n ← next_multiple (read_only_len lens) align;
          Done (inl (mkLens (executable_len lens) (n ⊞ size) (read_write_len lens)))
    end.

Definition section_lens (file : ElfFile) : exec (result Lens string) :=
  r ← section_for_enum file (measure_section file) (mkLens 0 0 0);
  Done (match r with inl lens => Ok lens | inr e => Err e end).

Record SectionMappings : Type := mkMappings {
  executable : option KMapping; read_only : option KMapping; read_write : option KMapping
}.

(** [(len > 0).then(|| KernelMapping::new(..))], in the kernel of the state. *)
Definition new_mapping (name : list Z) (len flags : Z) : M (option KMapping) := fun s =>
  if 0 <? len then
    '(k, m) ← KernelMapping_new (ls_kernel s) (string_of_bytes name) len flags;
    Done (mkLoad k (ls_space s) (ls_page s) (ls_loader s), Ok (Some m))
  else Done (s, Ok None).

Definition allocate_section_mappings (object_name : list Z) (file : ElfFile) : M SectionMappings :=
  lens ← m_try (section_lens file);
  let flags := Z.lor PRESENT USER_ACCESSIBLE in
  executable ← new_mapping (object_name ++ str ".x") (executable_len lens) flags;
  read_only ← new_mapping (object_name ++ str ".r") (read_only_len lens) (Z.lor flags NO_EXECUTE);
  read_write ← new_mapping (object_name ++ str ".w") (read_write_len lens) (Z.lor (Z.lor flags WRITABLE) NO_EXECUTE);
  mret (mkMappings executable read_only read_write).

(** ** Writing into mappings *)

(** [mapping.as_slice_mut(offset, len)]. *)
Definition m_slice (m : KMapping) (offset len : Z) : M (Address * Z) := fun s =>
  r ← KernelMapping_as_slice_mut (ls_kernel s) m offset len;
  Done (s, Ok r).

Definition store_bytes (a : Address) (bs : list Z) : M unit :=
  m_upd (fun l => upd_contents l (write_memory (contents l) (to_raw a) bs)).

(** [dst.copy_from_slice(src)] and [dst.fill(0)]. *)
Definition copy_from_slice (dst : Address * Z) (src : list Z) : M unit :=
  _ ← m_exec (rust_assert (dst.2 =? Z.of_nat (length src)));
  store_bytes dst.1 src.
Definition fill0 (dst : Address * Z) : M unit := store_bytes dst.1 (replicate (Z.to_nat dst.2) 0).

(** Maps a new mapping at the start page, which moves behind it. *)
Definition map_mapping (o : option KMapping) : M unit := fun s =>
  match o with
  | None => Done (s, Ok tt)
  | Some m =>
      pages ← PageRange_from_start_len (ls_page s) (PageRange_len (mapping_pages m));
      '(k, space, r) ← KernelMapping_map_into (ls_kernel s) m (ls_space s) pages (Z.lor PRESENT USER_ACCESSIBLE);
      _ ← unwrap (result_ok r);
      Done (mkLoad k space (range_end pages) (ls_loader s), Ok tt)
  end.

(** The [.text] sections are copied at once, from the start of the file. *)
Definition copy_text (o : option KMapping) (file : ElfFile) : M unit :=
  match o with
  | None => mret tt
  | Some m =>
      let text_size := mapping_size m in
      if slice_len (input file) <? text_size then
        m_fail "end of last `.text` section was miscalculated to be beyond ELF file bounds"
      else
        dst ← m_slice m 0 text_size;
        copy_from_slice dst (take (Z.to_nat text_size) (slice_bytes (input file)))
  end.

(** ** Loading sections *)

(** The indices of the sections of global functions, objects and TLS. *)
Definition add_global (entry : SymbolTableEntry) (globals : gset Z) : gset Z :=
  match get_binding entry with
  | Ok Global_ =>
      match Symbol_get_type entry with
      | Ok Func | Ok Object | Ok Tls => {[ shndx entry ]} ∪ globals
      | _ => globals
      end
  | _ => globals
  end.
Definition global_section_indices (symbol_table : list SymbolTableEntry) : gset Z :=
  foldl (fun g e => add_global e g) ∅ symbol_table.

(** The macro [symbol_name_after_prefix!]. *)
Inductive AfterPrefix : Type := NameAfter (name : list Z) | SkipSection | NoName (e : string).

Definition symbol_name_after_prefix (sec_name : list Z) (prefix : string) : AfterPrefix :=
  match str_get_from sec_name (length (str prefix)) with
  | Some name => NameAfter name
  | None =>
      if bool_decide (sec_name ∈ [str ".text"; str ".rodata"; str ".data"; str ".bss"]) then SkipSection
      else NoName ("failed to get the " +:+ prefix +:+ " section's name after '" +:+ prefix +:+ "'")
  end.

Definition strip_dot (name : list Z) : list Z := default name (strip_prefix name (str ".")).

(** The locals of the loop of [load_object_sections]. *)
Record Loading : Type := mkLoading {
  loaded_sections : gmap Z ObjSection;
  l_data_sections : gset Z;
  l_tls_sections : gset Z;
  rodata_offset : Z;
  data_offset : Z
}.

Definition insert_section (st : Loading) (i : Z) (s : ObjSection) : Loading :=
  mkLoading (<[i := s]> (loaded_sections st)) (l_data_sections st) (l_tls_sections st) (rodata_offset st) (data_offset st).
Definition set_rodata_offset (st : Loading) (o : Z) : Loading :=
  mkLoading (loaded_sections st) (l_data_sections st) (l_tls_sections st) o (data_offset st).
Definition set_data (st : Loading) (i o : Z) : Loading :=
  mkLoading (loaded_sections st) ({[ i ]} ∪ l_data_sections st) (l_tls_sections st) (rodata_offset st) o.

(** The section loaded in place of an empty one. *)
Definition resolve_section (file : ElfFile) (section_index : Z) (section : SectionHeader) : exec (result SectionHeader string) :=
  if sh_size section =? 0 then
    next ← get_section_header file (wrap 16 (section_index + 1));
    match next with
    | Ok next_section => Done (Ok (if sh_off next_section =? sh_off section then next_section else section))
    | Err _ => Done (Err "couldn't get the section following a zero-sized section"%string)
    end
  else Done (Ok section).

(** Copies or clears a section's data; [None] is data of another kind. *)
Definition store_section (file : ElfFile) (section : SectionHeader) (dst : Address * Z) : M (option unit) :=
  d ← m_exec (get_data section file);
  match d with
  | Ok (SD_Undefined sec_data) => _ ← copy_from_slice dst (slice_bytes sec_data); mret (Some tt)
  | Ok SD_Empty => _ ← fill0 dst; mret (Some tt)
  | _ => mret None
  end.

Section load.
(** [format!("{:#}", demangle(name))] and [demangle(name).to_string()]. *)
Context (demangle demangle_full : list Z -> list Z).
Context (unicode_alphanumeric : list Z -> bool).
(** The objects of the boot file system, their raw names and bytes. *)
Context (root_object_map : list (list Z * list Z)).
Context (vec_addr : nat -> Z).

(** What the loop of [load_object_sections] reads. *)
Record LoadEnv : Type := mkEnv { le_file : ElfFile; le_maps : SectionMappings; le_globals : gset Z; le_owner : nat }.

Definition load_text (env : LoadEnv) (index : Z) (section_name : list Z) (section : SectionHeader) (st : Loading) : M Loading :=
  match executable (le_maps env) with
  | None => mret st
  | Some m =>
      let is_global := bool_decide (index ∈ le_globals env) in
      match symbol_name_after_prefix section_name ".text." with
      | SkipSection => mret st
      | NoName e => m_fail e
      | NameAfter name =>
          let name := strip_dot name in
          name ← (if is_global && starts_with name (str "unlikely.")
                  then m_try (Done (ok_or (str_get_from name (length (str "unlikely."))) "failed to get `.text.unlikely.` section's name"%string))
                  else mret name);
          let text_offset := sh_off section in
          section_addr ← m_exec (Address_add (KernelMapping_addr m) text_offset);
          mret (insert_section st index
            (mkObjSection (demangle name) Text is_global (sh_size section) section_addr m text_offset (le_owner env)))
      end
  end.

(** A thread-local section is prepared and then refused. *)
Definition load_tls (env : LoadEnv) (index : Z) (section_name : list Z) (section : SectionHeader) (st : Loading) : M Loading :=
  match read_only (le_maps env) with
  | None => mret st
  | Some m =>
      let is_bss := has_type section NoBits in
      match symbol_name_after_prefix section_name (if is_bss then ".tbss." else ".tdata.") with
      | SkipSection => mret st
      | NoName e => m_fail e
      | NameAfter _ =>
          rodata_offset ← m_exec (next_multiple (rodata_offset st) (sh_align section));
          _ ← (if is_bss then mret tt
               else
                 slice ← m_slice m rodata_offset (sh_size section);
                 d ← m_exec (get_data section (le_file env));
                 match d with
                 | Ok (SD_Undefined sec_data) => copy_from_slice slice (slice_bytes sec_data)
                 | _ => m_fail "couldn't get data for `.tdata` section"
                 end);
          m_fail "TODO: TLS section initialization"
      end
  end.

Definition load_data (env : LoadEnv) (index : Z) (section_name : list Z) (section : SectionHeader) (st : Loading) : M Loading :=
  match read_write (le_maps env) with
  | None => mret st
  | Some m =>
      let is_bss := has_type section NoBits in
      match symbol_name_after_prefix section_name (if is_bss then ".bss." else ".data.") with
      | SkipSection => mret st
      | NoName e => m_fail e
      | NameAfter name =>
          let name := strip_dot name in
          data_offset ← m_exec (next_multiple (data_offset st) (sh_align section));
          _ ← m_exec (rust_assert (data_offset <? mapping_size m));
          section_addr ← m_exec (Address_add (KernelMapping_addr m) data_offset);
          slice ← m_slice m data_offset (sh_size section);
          o ← store_section (le_file env) section slice;
          match o with
          | None => m_fail "couldn't get data for `.data` section"
          | Some _ =>
              mret (set_data (insert_section st index
                (mkObjSection (demangle name) (if is_bss then Bss else Data) (bool_decide (index ∈ le_globals env))
                   (sh_size section) section_addr m data_offset (le_owner env))) index (data_offset ⊞ sh_size section))
          end
      end
  end.

(** The four kinds of read-only sections differ in the name, the kind and
    the error. *)
Definition load_rodata (env : LoadEnv) (index : Z) (section : SectionHeader) (name : list Z) (kind : SectionKind)
    (is_global : bool) (error : string) (m : KMapping) (st : Loading) : M Loading :=
  rodata_offset ← m_exec (next_multiple (rodata_offset st) (sh_align section));
  _ ← m_exec (rust_assert (rodata_offset <? mapping_size m));
  section_addr ← m_exec (Address_add (KernelMapping_addr m) rodata_offset);
  slice ← m_slice m rodata_offset (sh_size section);
  o ← store_section (le_file env) section slice;
  match o with
  | None => m_fail error
  | Some _ =>
      mret (set_rodata_offset (insert_section st index
        (mkObjSection name kind is_global (sh_size section) section_addr m rodata_offset (le_owner env)))
        (rodata_offset ⊞ sh_size section))
  end.

Definition load_read_only (env : LoadEnv) (index : Z) (section_name : list Z) (section : SectionHeader) (st : Loading) : M Loading :=
  let is_global := bool_decide (index ∈ le_globals env) in
  if starts_with section_name (str ".rodata") then
    match read_only (le_maps env) with
    | None => mret st
    | Some m =>
        match symbol_name_after_prefix section_name ".rodata." with
        | SkipSection => mret st
        | NoName e => m_fail e
        | NameAfter name =>
            load_rodata env index section (demangle name) Rodata is_global "couldn't get data for `.rodata` section" m st
        end
    end
  else if starts_with section_name (str ".lrodata") then
    match read_only (le_maps env) with
    | None => mret st
    | Some m =>
        match symbol_name_after_prefix section_name ".lrodata." with
        | SkipSection => mret st
        | NoName e => m_fail e
        | NameAfter name =>
            load_rodata env index section (demangle (strip_dot name)) Rodata is_global
              "couldn't get data for `.lrodata` section" m st
        end
    end
  else if starts_with section_name (str ".gcc_except_table") then
    match read_only (le_maps env) with
    | None => mret st
    | Some m =>
        load_rodata env index section (SectionKind_name GccExceptTable) GccExceptTable false
          "couldn't get data for `.gcc_except_table` section" m st
    end
  else if bool_decide (section_name = str ".eh_frame") then
    match read_only (le_maps env) with
    | None => mret st
    | Some m =>
        load_rodata env index section (SectionKind_name EhFrame) EhFrame false
          "couldn't get data for `.eh_frame` section" m st
    end
  else m_fail "encountered unhandled section".

(** The body of the loop of [load_object_sections]. *)
Definition load_section (env : LoadEnv) (p : Z * SectionHeader) (st : Loading) : M Loading :=
  let '(section_index, section) := p in
  let section_flags := sh_flags section in
  if Z.land section_flags SHF_ALLOC =? 0 then mret st
  else
    section_name ← m_try (SectionHeader_get_name section (le_file env));
    section ← m_try (resolve_section (le_file env) section_index section);
    let is_write := has_flag section_flags SHF_WRITE in
    let is_exec := has_flag section_flags SHF_EXECINSTR in
    let is_tls := has_flag section_flags SHF_TLS in
    if is_exec && negb is_write then load_text env section_index section_name section st
    else if is_tls then load_tls env section_index section_name section st
    else if is_write then load_data env section_index section_name section st
    else load_read_only env section_index section_name section st.

(** The object enters the pool when its sections are known: nobody can
    reach it before. *)
Definition new_object : M nat := fun s =>
  let l := ls_loader s in
  Done (mkLoad (ls_kernel s) (ls_space s) (ls_page s)
    (mkLoader (pool l) (S (next_object l)) (objects l) (sections l) (sections_by_addr l) (contents l)), Ok (next_object l)).

Definition load_object_sections (object_name : list Z) (object_bytes : Slice) : M (nat * ElfFile) :=
  elf_file ← m_try (ElfFile_new object_bytes);
  if negb (bool_decide (Header_get_type (header elf_file) = OF_Relocatable)) then m_fail "not a relocatable ELF file"
  else
    maps ← allocate_section_mappings object_name elf_file;
    _ ← map_mapping (executable maps);
    _ ← map_mapping (read_only maps);
    _ ← map_mapping (read_write maps);
    _ ← copy_text (executable maps) elf_file;
    object ← new_object;
    symbol_table ← m_try (get_symbol_table elf_file);
    let globals := global_section_indices symbol_table in
    st ← m_loop (section_for_enum elf_file) (load_section (mkEnv elf_file maps globals object)) (mkLoading ∅ ∅ ∅ 0 0);
    _ ← m_upd (fun l => upd_pool l (<[object :=
      mkObject (demangle_full object_name) (loaded_sections st) globals (l_data_sections st) (l_tls_sections st) []
        (executable maps) (read_only maps) (read_write maps)]> (pool l)));
    mret (object, elf_file).

(** ** Relocation *)

Definition R_X86_64_64 : Z := 1.
Definition R_X86_64_PC32 : Z := 2.
Definition R_X86_64_PLT32 : Z := 4.
Definition R_X86_64_32 : Z := 10.
Definition R_X86_64_32S : Z := 11.
Definition R_X86_64_PC64 : Z := 24.

(** [&mut target_slice[range]] as an address. *)
Definition sub_slice (slice : Address * Z) (start end_ : Z) : exec Address :=
  _ ← rust_assert ((start <=? end_) && (end_ <=? slice.2));
  Done (mkAddress (to_raw slice.1 + start)).

Definition write_relocation (relocation_entry : Rela) (target_slice : Address * Z) (target_offset : Z) (source_addr : Address) : M unit :=
  let source_addr := to_raw source_addr in
  let typ := Rela_get_type relocation_entry in
  if typ =? R_X86_64_64 then
    target_ref ← m_exec (sub_slice target_slice target_offset (target_offset ⊞ 8));
    let source_value := source_addr ⊞ rela_addend relocation_entry in
    store_bytes target_ref (le_split 8 source_value)
  else if typ =? R_X86_64_PC64 then
    target_ref ← m_exec (sub_slice target_slice target_offset (target_offset ⊞ 8));
    let source_value := (source_addr ⊞ rela_addend relocation_entry) ⊟ to_raw target_ref in
    store_bytes target_ref (le_split 8 source_value)
  else if (typ =? R_X86_64_32) || (typ =? R_X86_64_32S) || (typ =? R_X86_64_PC32) || (typ =? R_X86_64_PLT32) then
    m_fail "32-bit relocations are not supported"
  else m_fail "unsupported relocation type".

(** Inserting into a set of dependencies, which are equal when their source
    names are. *)
Definition insert_dependency (d : Dependency) (ds : list Dependency) : list Dependency :=
  if existsb (fun d' => bool_decide (source_name d' = source_name d)) ds then ds else ds ++ [d].

Definition add_dependency (object : nat) (d : Dependency) (l : LoaderState) : LoaderState :=
  match pool l !! object with
  | Some o =>
      upd_pool l (<[object := mkObject (ob_name o) (ob_sections o) (global_sections o) (data_sections o) (tls_sections o)
        (insert_dependency d (dependencies o)) (executable_mapping o) (read_only_mapping o) (read_write_mapping o)]> (pool l))
  | None => l
  end.

(** ** The boot file system *)

(** [RootObjectInfo::name_str]: [trim_matches] strips zeros on both sides. *)
Fixpoint trim_zeros (s : list Z) : list Z :=
  match s with
  | b :: s' => if b =? 0 then trim_zeros s' else s
  | [] => []
  end.
Definition name_str (raw : list Z) : exec (list Z) :=
  _ ← rust_assert (utf8_valid raw);
  Done (rev (trim_zeros (rev (trim_zeros raw)))).

Definition strip_suffix (s p : list Z) : option (list Z) :=
  if ends_with s p then Some (take (length s - length p) s) else None.

Fixpoint list_names (objs : list (list Z * list Z)) (prefix : list Z) : exec (list (list Z)) :=
  match objs with
  | [] => Done []
  | (raw, _) :: objs =>
      name ← name_str raw;
      names ← list_names objs prefix;
      Done (if starts_with name prefix then (str "/" ++ name ++ str ".o") :: names else names)
  end.

Definition fs_list (dir_path : list Z) : exec (list (list Z)) :=
  prefix ← unwrap (strip_prefix dir_path (str "/"));
  list_names root_object_map prefix.

Fixpoint find_object (objs : list (list Z * list Z)) (needle : list Z) : exec (result (list Z) string) :=
  match objs with
  | [] => Done (Err "failed to read object"%string)
  | (raw, bytes) :: objs =>
      name ← name_str raw;
      if bool_decide (name = needle) then Done (Ok bytes) else find_object objs needle
  end.

Definition fs_read (path : list Z) : exec (result (list Z) string) :=
  p ← unwrap (strip_prefix path (str "/"));
  needle ← unwrap (strip_suffix p (str ".o"));
  find_object root_object_map needle.

(** [GlobalObjectProvider::read_object]. *)
Definition read_object (name : list Z) : exec (result (list Z) string) :=
  if negb (starts_with name (str "/")) then
    paths ← fs_list (str "/" ++ name);
    match list_find (fun object_name => object_name = str "/" ++ name ++ str ".o") paths with
    | Some (_, path) => fs_read path
    | None => Done (Err "no object found"%string)
    end
  else fs_read name.

(** The bytes in a new buffer. *)
Definition m_read_object (name : list Z) : M Slice :=
  bytes ← m_try (read_object name);
  n ← m_loader next_object;
  mret (mkSlice (vec_addr n) bytes).

(** ** Linking *)

(** The aliases for symbols that have no section of their own. *)
Definition fmt_aliases : list (list Z * list Z) :=
  [(str "<usize as core::fmt::Display>::fmt", str "<u64 as core::fmt::Display>::fmt");
   (str "<u64 as core::fmt::LowerHex>::fmt", str "<usize as core::fmt::LowerHex>::fmt");
   (str "<u64 as core::fmt::UpperHex>::fmt", str "<usize as core::fmt::UpperHex>::fmt")].

(** [load] is [load_object_impl]. *)
Fixpoint load_crates (load : list Z -> Slice -> M nat) (crates : list (list Z)) (name : list Z) : M SecRef :=
  match crates with
  | [] => m_fail "section not found"
  | object_name :: crates =>
      o ← m_loader (fun l => get_object l object_name);
      match o with
      | Some _ => load_crates load crates name
      | None =>
          bytes ← m_read_object object_name;
          _ ← load object_name bytes;
          r ← m_loader (fun l => sections l !! name);
          match r with
          | Some section => mret section
          | None => load_crates load crates name
          end
      end
  end.

Definition get_or_load_section (load : list Z -> Slice -> M nat) (name : list Z) : M SecRef :=
  r ← m_loader (fun l => sections l !! name);
  match r with
  | Some section => mret section
  | None =>
      match list_find (fun a => a.1 = name) fmt_aliases with
      | Some (_, (_, ref_name)) =>
          section ← m_loader (fun l => sections l !! ref_name);
          match section with
          | Some section => _ ← m_upd (fun l => add_alias_to_section l name section); mret section
          | None => m_panic
          end
      | None => load_crates load (crate_names_in_symbol unicode_alphanumeric name) name
      end
  end.

(** The section a relocation refers to: one of the object's own, or one of
    another object, which becomes a dependency. [None] skips the entry. *)
Definition source_of (load : list Z -> Slice -> M nat) (file : ElfFile) (object : nat) (target : SecRef) (target_name : list Z)
    (source_entry : SymbolTableEntry) : M (option ObjSection) :=
  own ← m_loader (fun l => section_at_ref l (object, shndx source_entry));
  match own with
  | Some section => mret (Some section)
  | None =>
      name ← m_exec (Symbol_get_name source_entry file);
      match name with
      | Err _ => m_fail "couldn't get name of source section"
      | Ok name =>
          name ← (if starts_with name (str ".data.rel.ro.")
                  then m_try (Done (ok_or (str_get_from name (length (str ".data.rel.ro."))) "couldn't get name of `.data.rel.ro.` section"%string))
                  else mret name);
          r ← m_catch (get_or_load_section load (demangle name));
          match r with
          | Ok section =>
              o ← m_loader (fun l => upgrade l section);
              match o with
              | None => m_fail "couldn't upgrade section reference for relocation entry"
              | Some s =>
                  _ ← m_upd (add_dependency object (mkDependency target section (os_name s)));
                  mret (Some s)
              end
          | Err OutOfFuel => m_raise OutOfFuel
          | Err e => if contains target_name (str "f16") then mret None else m_raise e
          end
      end
  end.

Definition relocate_entry (load : list Z -> Slice -> M nat) (file : ElfFile) (symbol_table : list SymbolTableEntry) (object : nat)
    (target : SecRef) (t : ObjSection) (target_slice : Address * Z) (rela_entry : Rela) (_ : unit) : M unit :=
  source_entry ← m_exec (unwrap (symbol_table !! Z.to_nat (get_symbol_table_index rela_entry)));
  o ← source_of load file object target (os_name t) source_entry;
  match o with
  | None => mret tt
  | Some source_section =>
      let target_offset := os_mapping_offset t ⊞ rela_offset rela_entry in
      addr ← m_exec (Address_add (os_addr source_section) (value source_entry));
      write_relocation rela_entry target_slice target_offset addr
  end.

Definition relocate_section (load : list Z -> Slice -> M nat) (file : ElfFile) (symbol_table : list SymbolTableEntry) (object : nat)
    (section : SectionHeader) (_ : unit) : M unit :=
  if has_type section RelaType && negb (sh_size section =? 0) then
    d ← m_exec (get_data section file);
    match d with
    | Ok (SD_Rela rela_array) =>
        let target := (object, sh_info section) in
        o ← m_loader (fun l => section_at_ref l target);
        match o with
        | None => m_fail "target section was not loaded for `rela` section"
        | Some t =>
            target_slice ← m_slice (os_mapping t) 0 (os_mapping_offset t ⊞ os_size t);
            m_for rela_array (relocate_entry load file symbol_table object target t target_slice) tt
        end
    | _ => m_fail "found `rela` section that wasn't able to be parsed"
    end
  else mret tt.

Definition relocate_object_sections (load : list Z -> Slice -> M nat) (file : ElfFile) (object : nat) : M unit :=
  symbol_table ← m_try (get_symbol_table file);
  m_loop (section_for file) (relocate_section load file symbol_table object) tt.

Definition register_sections (object : nat) (l : LoaderState) : LoaderState :=
  (add_sections l (object_sections object (from_option ob_sections ∅ (pool l !! object)))).1.

Definition register_object (object_name : list Z) (object : nat) (l : LoaderState) : LoaderState :=
  upd_objects l (<[object_name := object]> (objects l)).

(** [fuel] bounds the depth of nested loads. *)
Fixpoint load_object_impl (fuel : nat) (object_name : list Z) (object_bytes : Slice) : M nat :=
  match fuel with
  | O => m_raise OutOfFuel
  | S fuel =>
      '(object, elf_file) ← load_object_sections object_name object_bytes;
      _ ← m_upd (register_sections object);
      _ ← m_upd (register_object object_name object);
      _ ← relocate_object_sections (load_object_impl fuel) elf_file object;
      mret object
  end.

(** An object is registered under its name or under its path. *)
Definition object_names : list (list Z) :=
  omap (fun o => match name_str o.1 with Done n => Some n | Panic => None end) root_object_map.
Definition loadable : gset (list Z) :=
  list_to_set (object_names ++ ((fun n => str "/" ++ n ++ str ".o") <$> object_names)).

(** One more than the names there are to load. *)
Definition load_fuel : nat := S (2 * length root_object_map).

Definition load_object (object_name : list Z) : M nat :=
  object_bytes ← m_read_object object_name;
  load_object_impl load_fuel object_name object_bytes.

(** ** Lemmas: nested loads end *)

(** At most [n] names of [X] are not registered. *)
Definition room (X : gset (list Z)) (n : nat) (s : LoadState) : Prop :=
  (size (X ∖ dom (objects (ls_loader s))) <= n)%nat.

(** At most [n] names of [X] are not registered, and those of [m] are, as
    they were. *)
Definition grown (X : gset (list Z)) (n : nat) (m : gmap (list Z) nat) (s : LoadState) : Prop :=
  room X n s /\ m ⊆ objects (ls_loader s).

Lemma grown_grows X n m s s' : objects (ls_loader s) ⊆ objects (ls_loader s') -> grown X n m s -> grown X n m s'.
Proof.
  unfold grown, room. intros Hd [Hs Hm]. split; [|by etransitivity]. etransitivity; [|exact Hs]. apply subseteq_size.
  apply subseteq_dom in Hd. set_solver.
Qed.

Section growing.
(** Any predicate that more registered objects keep. *)
Context (I : LoadState -> Prop).
Hypothesis I_grows : forall s s', objects (ls_loader s) ⊆ objects (ls_loader s') -> I s -> I s'.

Lemma keeps_upd f : (forall l, objects l ⊆ objects (f l)) -> keeps I (m_upd f).
Proof. intros Hf s s' r Hs [= <- <-]. split; [|done]. apply (I_grows s); [apply Hf|done]. Qed.

Lemma keeps_slice m offset len : keeps I (m_slice m offset len).
Proof. intros s s' r Hs H. unfold m_slice in H. exec_inv H. injection H as <- <-. done. Qed.

Lemma keeps_new_mapping name len flags : keeps I (new_mapping name len flags).
Proof.
  intros s s' r Hs H. unfold new_mapping in H. case_if_in H; [|by injection H as <- <-].
  exec_cases H. injection H as <- <-. split; [|done]. by apply (I_grows s).
Qed.

Lemma keeps_map_mapping o : keeps I (map_mapping o).
Proof.
  intros s s' r Hs H. unfold map_mapping in H. destruct o; [|by injection H as <- <-].
  exec_cases H. injection H as <- <-. split; [|done]. by apply (I_grows s).
Qed.

Lemma keeps_new_object : keeps I new_object.
Proof. intros s s' r Hs [= <- <-]. split; [|done]. by apply (I_grows s). Qed.

Lemma keeps_store_bytes a bs : keeps I (store_bytes a bs).
Proof. by apply keeps_upd. Qed.

Create HintDb keeps.
#[local] Hint Resolve keeps_ret keeps_fail keeps_panic keeps_exec keeps_try keeps_loader keeps_slice keeps_new_mapping
  keeps_map_mapping keeps_new_object keeps_store_bytes : keeps.

(** Splits a loading function along its binds and branches. *)
Ltac keeps_solve :=
  repeat first
    [ solve [eauto with keeps]
    | apply keeps_bind; [|intros ?]
    | match goal with
      | |- context [match ?x with _ => _ end] => destruct x
      end ].

Lemma keeps_write_relocation rela slice off src : keeps I (write_relocation rela slice off src).
Proof. unfold write_relocation. keeps_solve. Qed.

Lemma keeps_load_section env p st : keeps I (load_section env p st).
Proof.
  unfold load_section, load_text, load_tls, load_data, load_read_only, load_rodata, store_section, copy_from_slice, fill0.
  destruct p as [i h]. keeps_solve.
Qed.

Lemma keeps_load_object_sections name bytes : keeps I (load_object_sections name bytes).
Proof.
  unfold load_object_sections, allocate_section_mappings, copy_text, copy_from_slice.
  assert (forall (f : ElfFile) env st, keeps I (m_loop (section_for_enum f) (load_section env) st)) as Hloop.
  { intros f env st. unfold section_for_enum. apply (keeps_loop _ (enumerate_next (SectionIter_next f)) (0, 0)).
    intros. apply keeps_load_section. }
  assert (forall f, (forall l, objects (f l) = objects l) -> keeps I (m_upd f)) as Hupd.
  { intros f Hf. apply keeps_upd. intros l. by rewrite Hf. }
  keeps_solve.
Qed.

End growing.

Lemma register_sections_objects object l : objects (register_sections object l) = objects l.
Proof.
  unfold register_sections, add_sections.
  assert (forall xs st, objects (foldl (fun st p => add_section p st) st xs).1 = objects st.1) as Hf.
  { induction xs as [|[r x] xs IH]; intros [l' c]; [done|]. cbn [foldl]. rewrite IH. unfold add_section. by destruct (os_global x). }
  by rewrite Hf.
Qed.

(** Only names of the file system can be read. *)
Lemma find_object_name needle bytes : forall objs, find_object objs needle = Done (Ok bytes) ->
  needle ∈ omap (fun o : list Z * list Z => match name_str o.1 with Done n => Some n | Panic => None end) objs.
Proof.
  induction objs as [|[raw bs] objs IH]; [done|]. cbn [find_object omap list_omap fst]. intros H. exec_inv H.
  case_bool_decide; [subst x; left|right; by apply IH].
Qed.

Lemma strip_prefix_Some a p r : strip_prefix a p = Some r -> a = p ++ r.
Proof.
  unfold strip_prefix. destruct (starts_with a p) eqn:E; [|done]. intros [= <-]. apply starts_with_spec in E as [r ->].
  by rewrite drop_app_length.
Qed.

Lemma strip_suffix_Some a p r : strip_suffix a p = Some r -> a = r ++ p.
Proof.
  unfold strip_suffix, ends_with. destruct (_ && _) eqn:E; [|done]. intros [= <-]. apply andb_prop in E as [_ E].
  apply bool_decide_eq_true in E. rewrite <-(take_drop (length a - length p) a) at 1. by rewrite E.
Qed.

Lemma fs_read_name path bytes : fs_read path = Done (Ok bytes) -> exists n, path = str "/" ++ n ++ str ".o" /\ n ∈ object_names.
Proof.
  unfold fs_read. intros H. exec_inv H. exec_inv H. apply find_object_name in H.
  destruct (strip_prefix path _) eqn:E1; [|done]. destruct (strip_suffix x _) eqn:E2; [|done]. cbn in E, E0. simplify_eq.
  apply strip_prefix_Some in E1. apply strip_suffix_Some in E2. subst. by exists x0.
Qed.

Lemma read_object_name name bytes : read_object name = Done (Ok bytes) -> name ∈ loadable.
Proof.
  unfold read_object, loadable. intros H. apply elem_of_list_to_set, elem_of_app. destruct (starts_with name _) eqn:E; cbn [negb] in H.
  - apply fs_read_name in H as (n & -> & Hn). right. apply list_elem_of_fmap. by exists n.
  - exec_inv H. destruct (list_find _ x) as [[k path]|] eqn:Ef; [|done]. apply list_find_Some in Ef as (_ & -> & _).
    apply fs_read_name in H as (n & En & Hn). apply app_inv_head, app_inv_tail in En. subst n. by left.
Qed.

Lemma m_read_object_spec name s s' r : m_read_object name s = Done (s', r) ->
  s' = s /\ r <> Err OutOfFuel /\ ((exists b, r = Ok b) -> name ∈ loadable).
Proof.
  intros H. apply M_bind_inv in H as (s1 & r1 & H1 & H2). apply m_try_inv in H1 as [-> Hr].
  destruct r1 as [bytes|[e|]]; [| |done].
  - injection H2 as <- <-. split; [done|]. split; [done|]. intros _. by eapply read_object_name.
  - destruct H2 as [-> ->]. split; [done|]. split; [congruence|]. by intros [? [=]].
Qed.

Lemma hoare_loader {A} P (f : LoaderState -> A) : hoare P (m_loader f) (fun r s => P s /\ r = Ok (f (ls_loader s))).
Proof. intros s s' r Hs [= <- <-]. done. Qed.

Section nested.
Context (load : list Z -> Slice -> M nat) (I : LoadState -> Prop).
Hypothesis I_grows : forall s s', objects (ls_loader s) ⊆ objects (ls_loader s') -> I s -> I s'.
(** A nested load has one name fewer to register. *)
Hypothesis load_ok : forall name bytes, name ∈ loadable ->
  hoare (fun s => I s /\ objects (ls_loader s) !! name = None) (load name bytes)
    (fun r s => I s /\ r <> Err OutOfFuel).

Lemma keeps_load_crates name crates : keeps I (load_crates load crates name).
Proof.
  induction crates as [|c crates IH]; [apply keeps_fail|]. cbn [load_crates].
  eapply hoare_bind; [apply hoare_loader| |]; cbn beta; [|intros e s [_ [=]]].
  intros o. destruct o as [o|]; [apply (hoare_pre _ I); [by intros s [Hs _]|apply IH]|].
  apply hoare_bind with (fun r s => I s /\ r <> Err OutOfFuel /\ objects (ls_loader s) !! c = None /\
    ((exists b, r = Ok b) -> c ∈ loadable)).
  { intros s s' r [Hs Ho] H. apply m_read_object_spec in H as (-> & Hr & Hl). unfold get_object in Ho. by injection Ho as <-. }
  2:{ intros e s (Hs & He & _). split; [done|congruence]. }
  intros bytes. apply hoare_bind with (fun r s => I s /\ r <> Err OutOfFuel).
  { intros s s' r (Hs & _ & Ho & Hl) H. apply (load_ok c bytes) with (s := s); eauto. }
  2:{ intros e s (Hs & He). split; [done|congruence]. }
  intros a. apply (hoare_pre _ I); [by intros s [Hs _]|].
  apply keeps_bind; [apply keeps_loader|]. intros [r|]; [apply keeps_ret|apply IH].
Qed.

Lemma keeps_get_or_load name : keeps I (get_or_load_section load name).
Proof.
  unfold get_or_load_section. apply keeps_bind; [apply keeps_loader|]. intros [r|]; [apply keeps_ret|].
  destruct (list_find _ fmt_aliases) as [[? [? ref_name]]|]; [|apply keeps_load_crates].
  apply keeps_bind; [apply keeps_loader|]. intros [r|]; [|apply keeps_panic].
  apply keeps_bind; [by apply (keeps_upd I)|]. intros _. apply keeps_ret.
Qed.

Lemma keeps_source_of file object target name entry : keeps I (source_of load file object target name entry).
Proof.
  unfold source_of. apply keeps_bind; [apply keeps_loader|]. intros [s|]; [apply keeps_ret|].
  apply keeps_bind; [apply keeps_exec|]. intros [nm|]; [|apply keeps_fail].
  apply keeps_bind; [destruct (starts_with nm _); [apply keeps_try|apply keeps_ret]|]. intros nm'.
  apply hoare_bind with (fun r s => I s /\ r <> Err OutOfFuel /\ r <> Ok (Err OutOfFuel)).
  { intros s s' r Hs H. unfold m_catch in H. exec_inv H. destruct x as [s1 r1]. injection H as <- <-.
    destruct (keeps_get_or_load _ s s1 r1 Hs E). split; [done|]. split; [done|congruence]. }
  2:{ intros e s (Hs & He & _). split; [done|congruence]. }
  intros [sec|[msg|]].
  - apply (hoare_pre _ I); [by intros s (Hs & _)|].
    apply keeps_bind; [apply keeps_loader|]. intros [o|]; [|apply keeps_fail].
    apply keeps_bind; [apply (keeps_upd I); [done|]|intros; apply keeps_ret]. intros l. unfold add_dependency. by destruct (pool l !! object).
  - apply (hoare_pre _ I); [by intros s (Hs & _)|]. destruct (contains _ _); [apply keeps_ret|by apply keeps_raise].
  - intros s s' r (_ & _ & Hc). by destruct Hc.
Qed.

Lemma keeps_relocate file object : keeps I (relocate_object_sections load file object).
Proof.
  unfold relocate_object_sections. apply keeps_bind; [apply keeps_try|]. intros symbols. unfold section_for.
  apply (keeps_loop _ (SectionIter_next file) 0). intros h []. unfold relocate_section. destruct (_ && _); [|apply keeps_ret].
  apply keeps_bind; [apply keeps_exec|]. intros [[]|]; try apply keeps_fail.
  apply keeps_bind; [apply keeps_loader|]. intros [t|]; [|apply keeps_fail].
  apply keeps_bind; [apply (keeps_slice I)|]. intros slice. apply keeps_for. intros rela []. unfold relocate_entry.
  apply keeps_bind; [apply keeps_exec|]. intros entry. apply keeps_bind; [apply keeps_source_of|]. intros [src|]; [|apply keeps_ret].
  apply keeps_bind; [apply keeps_exec|]. intros addr. by apply (keeps_write_relocation I).
Qed.
End nested.

Lemma room_mono X Y n s : X ⊆ Y -> room Y n s -> room X n s.
Proof. unfold room. intros H Hs. etransitivity; [|exact Hs]. apply subseteq_size. set_solver. Qed.

(** A name that is not registered leaves one name fewer. *)
Lemma room_without name n s : name ∈ loadable -> objects (ls_loader s) !! name = None -> room loadable n s ->
  n <> 0%nat /\ room (loadable ∖ {[name]}) (n - 1) s.
Proof.
  unfold room. intros Hin Hnone Hs. apply not_elem_of_dom in Hnone. split.
  - intros ->. assert (loadable ∖ dom (objects (ls_loader s)) ≡ ∅) as He by (apply size_empty_iff; lia). set_solver.
  - replace (loadable ∖ {[name]} ∖ dom (objects (ls_loader s))) with (loadable ∖ dom (objects (ls_loader s)) ∖ {[name]}) by set_solver.
    rewrite size_difference; [rewrite size_singleton; lia|]. set_solver.
Qed.

Lemma room_with name n s : n <> 0%nat -> room (loadable ∖ {[name]}) (n - 1) s -> room loadable n s.
Proof.
  unfold room. set (Y := loadable ∖ {[name]} ∖ dom (objects (ls_loader s))). intros Hn Hs.
  assert (size (loadable ∖ dom (objects (ls_loader s))) <= size ({[name]} ∪ Y))%nat as Hle.
  { apply subseteq_size. intros x Hx. unfold Y. destruct (decide (x = name)); set_solver. }
  assert (size ({[name]} ∪ Y) = size (C := gset (list Z)) {[name]} + size Y)%nat as Hu by (apply size_union; unfold Y; set_solver).
  rewrite Hu, size_singleton in Hle. lia.
Qed.

(** What a load does when [n] other names are left. *)
Definition load_spec (load : list Z -> Slice -> M nat) (n : nat) : Prop := forall name bytes m, m !! name = None ->
  hoare (grown (loadable ∖ {[name]}) n m) (load name bytes)
    (fun r s => grown (loadable ∖ {[name]}) n m s /\ r <> Err OutOfFuel /\ forall id, r = Ok id -> objects (ls_loader s) !! name = Some id).

Lemma relocate_spec load n m file object : (n <> 0%nat -> load_spec load (n - 1)) ->
  keeps (grown loadable n m) (relocate_object_sections load file object).
Proof.
  intros Hload. apply (keeps_relocate load (grown loadable n m)); [intros s s'; apply grown_grows|].
  intros name bytes Hin s s' r [[Hroom Hsub] Hnone] H. destruct (room_without name n s Hin Hnone Hroom) as [Hn0 Hroom'].
  assert (m !! name = None) as Hm by (eapply lookup_weaken_None; [exact Hnone|exact Hsub]).
  destruct (Hload Hn0 name bytes m Hm s s' r (conj Hroom' Hsub) H) as ([Hr Hsub'] & ? & _).
  split; [|done]. split; [|done]. by apply (room_with name).
Qed.

(** With the object itself set aside, [n] names are left and the fuel is
    larger. The names registered before stay so; once its sections are
    known, the object is registered, whatever the relocation returns. *)
Lemma load_object_impl_spec fuel : forall n, (n < fuel)%nat -> load_spec (load_object_impl fuel) n.
Proof.
  induction fuel as [|fuel IH]; intros n Hn name bytes m Hm; [lia|]. cbn [load_object_impl].
  set (I := grown (loadable ∖ {[name]}) n m). assert (forall s s', objects (ls_loader s) ⊆ objects (ls_loader s') -> I s -> I s') as Hgrow
    by (intros s s'; apply grown_grows).
  apply hoare_bind with (fun r s => I s /\ r <> Err OutOfFuel); [by apply (keeps_load_object_sections I)| |intros e s [Hs He]; split; [done|split; congruence]].
  intros [object file].
  apply hoare_bind with (fun r s => I s /\ r <> Err OutOfFuel); [| |intros e s [Hs He]; split; [done|split; congruence]].
  { apply (hoare_pre _ I); [by intros s [Hs _]|]. apply (keeps_upd I Hgrow). intros l. by rewrite register_sections_objects. }
  intros u. set (J := grown loadable n (<[name := object]> m)).
  assert (forall s, J s -> I s /\ objects (ls_loader s) !! name = Some object) as HJ.
  { intros s [Hs Hsub]. split; [split|].
    - eapply room_mono, Hs. set_solver.
    - etransitivity; [|exact Hsub]. by apply insert_subseteq.
    - eapply lookup_weaken; [|exact Hsub]. apply lookup_insert_eq. }
  apply hoare_bind with (fun r s => J s /\ r <> Err OutOfFuel); [| |intros e s [Hs He]; destruct (HJ s Hs); split; [done|split; congruence]].
  { intros s s' r [[Hs Hsub] _] [= <- <-]. split; [|done]. split; unfold room in *; cbn.
    - etransitivity; [|exact Hs]. apply subseteq_size. set_solver.
    - by apply insert_mono. }
  intros u'. apply hoare_bind with (fun r s => J s /\ r <> Err OutOfFuel).
  - apply (hoare_pre _ J); [by intros s [Hs _]|]. apply relocate_spec. intros Hn0. apply IH. lia.
  - intros a s s' r [Hs _] [= <- <-]. destruct (HJ s Hs). split; [done|]. split; [done|]. by intros id [= <-].
  - intros e s [Hs He]. destruct (HJ s Hs). split; [done|]. split; congruence.
Qed.

Lemma size_list_le (l : list (list Z)) : (size (list_to_set l : gset (list Z)) <= length l)%nat.
Proof.
  induction l as [|x l IH]; [done|]. cbn [list_to_set length].
  pose proof (size_union_alt (C := gset (list Z)) {[x]} (list_to_set l)) as H. rewrite H, size_singleton.
  pose proof (subseteq_size (list_to_set l ∖ {[x]} : gset (list Z)) (list_to_set l) ltac:(set_solver)). lia.
Qed.

Lemma object_names_length : (length object_names <= length root_object_map)%nat.
Proof.
  unfold object_names. induction root_object_map as [|o os IH]; [done|]. cbn. destruct (name_str o.1); cbn; lia.
Qed.

Lemma loadable_size : (size loadable < load_fuel)%nat.
Proof.
  unfold loadable, load_fuel. pose proof (size_list_le (object_names ++ ((fun n => str "/" ++ n ++ str ".o") <$> object_names))) as H.
  rewrite length_app, length_fmap in H. pose proof object_names_length. lia.
Qed.

End load.
