(* ===== verification/Bootloader.v ===== *)
(** * bootloader/src/main.rs

    The bootloader: the kernel's segments are copied to their addresses, the
    object files of the boot volume into pages of their own, and the firmware's
    memory map is turned into the kernel's. The firmware's services are the
    arguments of these functions: the bytes of the files, the answers of
    [allocate_pages], the memory map and the display mode. A failing service
    panics. Memory is a map from addresses to bytes.

    What the kernel makes of the result is proved here as well: the names of
    the objects are read back, and the frames of the objects are free. *)

From Stdlib Require Import Lia.
From stdpp Require Import base numbers list option strings tactics gmap.
From S2P Require Import Prelude Pod Bytes Elf Symbols MemoryTypes FrameAllocator Memory LoaderState ObjectLoader Framebuffer.

Local Open Scope Z_scope.
Local Open Scope u64_scope.

(** ** The kernel *)

Notation Bytes := (gmap Z Z).

(** [bytes[start..stop]]. *)
Definition byte_slice (bytes : list Z) (start stop : Z) : exec (list Z) :=
  _ ← rust_assert ((start <=? stop) && (stop <=? Z.of_nat (length bytes)));
  Done (take (Z.to_nat (stop - start)) (drop (Z.to_nat start) bytes)).

Definition is_load (h : ProgramHeader) : exec bool :=
  match ProgramHeader_get_type h with
  | Ok PH_Load => Done true
  | Ok _ => Done false
  | Err _ => Panic
  end.

(** The body of the first loop: the range of the addresses. *)
Definition grow_range (h : ProgramHeader) (range : Z * Z) : exec (Z * Z + unit) :=
  is_segment ← is_load h;
  if (is_segment : bool) then Done (inl (Z.min (fst range) (virtual_addr h), Z.max (snd range) (virtual_addr h ⊞ mem_size h)))
  else Done (inl range).

(** The body of the second loop: a segment is copied, and the rest cleared. *)
Definition copy_segment (buf : list Z) (h : ProgramHeader) (m : Bytes) : exec (Bytes + unit) :=
  is_segment ← is_load h;
  if (is_segment : bool) then
    _ ← rust_assert (file_size h <=? mem_size h);
    bytes ← byte_slice buf (p_offset h) (p_offset h ⊞ file_size h);
    Done (inl (write_bytes m (virtual_addr h) (bytes ++ replicate (Z.to_nat (mem_size h - file_size h)) 0)))
  else Done (inl m).

Definition loop_result {S} (r : S + unit) : exec S := match r with inl s => Done s | inr _ => Panic end.

(** [allocate_pages addr count] is whether the firmware has these pages free. *)
Definition load_kernel (allocate_pages : Z -> Z -> bool) (buf : Slice) (m : Bytes) : exec (Z * Z * Z * Bytes) :=
  r ← ElfFile_new buf;
  elf ← unwrap (result_ok r);
  r ← program_for elf grow_range (2 ^ 64 - 1, 0);
  '(start_addr, end_addr) ← loop_result r;
  let page_count := div_ceil (end_addr ⊟ start_addr) PAGE_SIZE in
  _ ← rust_assert (allocate_pages start_addr page_count);
  r ← program_for elf (copy_segment (slice_bytes buf)) m;
  m ← loop_result r;
  Done (start_addr, end_addr, entry_point (body (header elf)), m).

(** ** The objects *)

Definition MAX_OBJECT_NAME_LEN : nat := 32.

Record RootObjectInfo : Type := mkRootObject { ro_name : list Z; ro_addr : Z; ro_size : Z }.

(** A file of the boot volume: its name, its bytes, and the address of the
    pages that the firmware allocates for it. *)
Record BootFile : Type := mkBootFile { bf_name : list Z; bf_bytes : list Z; bf_addr : Z }.

Definition load_root_object (file : BootFile) (m : Bytes) : exec (option RootObjectInfo * Bytes) :=
  if negb (ends_with (bf_name file) (str ".o")) then Done (None, m)
  else
    let size := Z.of_nat (length (bf_bytes file)) in
    let page_count := div_ceil size PAGE_SIZE in
    let read_end := Z.min size (page_count ⊠ PAGE_SIZE) in
    _ ← rust_assert (read_end =? size);
    let m := write_bytes m (bf_addr file) (bf_bytes file ++ replicate (Z.to_nat (page_count ⊠ PAGE_SIZE - read_end)) 0) in
    let actual_name_end := (length (bf_name file) - 2)%nat in
    _ ← rust_assert (bool_decide (actual_name_end <= MAX_OBJECT_NAME_LEN)%nat);
    let name := take actual_name_end (bf_name file) ++ replicate (MAX_OBJECT_NAME_LEN - actual_name_end) 0 in
    Done (Some (mkRootObject name (bf_addr file) size), m).

Fixpoint load_root_objects (files : list BootFile) (m : Bytes) : exec (list RootObjectInfo * Bytes) :=
  match files with
  | [] => Done ([], m)
  | file :: files =>
      '(o, m) ← load_root_object file m;
      '(objects, m) ← load_root_objects files m;
      Done (match o with Some info => info :: objects | None => objects end, m)
  end.

(** ** The memory map *)

(** The types of memory of the UEFI specification. *)
Definition EFI_LOADER_CODE : Z := 1.
Definition EFI_LOADER_DATA : Z := 2.
Definition EFI_BOOT_SERVICES_CODE : Z := 3.
Definition EFI_BOOT_SERVICES_DATA : Z := 4.
Definition EFI_CONVENTIONAL : Z := 7.

Record MemoryDescriptor : Type := mkDescriptor { desc_ty : Z; phys_start : Z; desc_page_count : Z }.

Definition region_of (desc : MemoryDescriptor) : MemoryRegion :=
  mkRegion (phys_start desc) (desc_page_count desc ⊠ PAGE_SIZE)
    (if (desc_ty desc =? EFI_CONVENTIONAL) || (desc_ty desc =? EFI_LOADER_CODE) || (desc_ty desc =? EFI_LOADER_DATA)
        || (desc_ty desc =? EFI_BOOT_SERVICES_CODE) || (desc_ty desc =? EFI_BOOT_SERVICES_DATA)
     then Free else Uefi (desc_ty desc)).

(** The map at the exit of the boot services must fit the space that was
    allocated for an earlier one. *)
Definition memory_regions (earlier_len : nat) (descs : list MemoryDescriptor) : exec (list MemoryRegion) :=
  _ ← rust_assert (bool_decide (length descs <= earlier_len + 8)%nat);
  Done (region_of <$> descs).

(** ** The display *)

Inductive GopPixelFormat : Type := GopRgb | GopBgr | GopBitmask | GopBltOnly.

Record GopMode : Type := mkGopMode {
  gop_width : Z; gop_height : Z; gop_stride : Z; gop_format : GopPixelFormat; gop_fb_addr : Z; gop_fb_size : Z
}.

Definition get_display_info (mode : GopMode) : exec DisplayInfo :=
  '(format, addr, size) ← match gop_format mode with
    | GopRgb => Done (RGBX8, gop_fb_addr mode, gop_fb_size mode)
    | GopBgr => Done (BGRX8, gop_fb_addr mode, gop_fb_size mode)
    | GopBltOnly => Done (NONE, 0, 0)
    | GopBitmask => Panic
    end;
  Done (mkDisplayInfo (wrap 32 (gop_width mode)) (wrap 32 (gop_height mode)) (wrap 32 (gop_stride mode)) format addr size).

(** ** Writing bytes *)

Lemma write_bytes_out m a bytes b : b < a \/ a + Z.of_nat (length bytes) <= b -> write_bytes m a bytes !! b = m !! b.
Proof. intros Hb. rewrite write_bytes_lookup. by case_if; [lia|]. Qed.

Lemma write_bytes_in m a bytes i : 0 <= i < Z.of_nat (length bytes) -> write_bytes m a bytes !! (a + i) = bytes !! Z.to_nat i.
Proof. intros Hi. rewrite write_bytes_lookup, (proj2 (Z.leb_le a _)), (proj2 (Z.ltb_lt (a + i) _)) by lia. cbn [andb]. f_equal. lia. Qed.

(** ** The kernel's segments *)

(** The program headers of a file, as its iterator yields them. *)
Definition program_headers (elf : ElfFile) (phs : list ProgramHeader) : Prop :=
  yields (ProgramIter_next elf) 0 phs /\ (length phs < program_fuel elf)%nat.

Lemma program_for_list {S R} elf phs (f : ProgramHeader -> S -> exec (S + R)) s : program_headers elf phs -> program_for elf f s = for_ret phs f s.
Proof. intros [Hy Hl]. unfold program_for. rewrite (iter_loop_yields _ f _ _ Hy) by done. by destruct (for_ret phs f s). Qed.

Definition load_segment (h : ProgramHeader) : bool := p_type h =? 1.

(** What the code needs of the headers: their types are known, and a loaded
    segment lies in the file and in the address space. *)
Definition header_fits (buf : list Z) (h : ProgramHeader) : Prop :=
  (exists t, ProgramHeader_get_type h = Ok t) /\
  (load_segment h = true -> 0 <= virtual_addr h /\ virtual_addr h + mem_size h < 2 ^ 64 /\ 0 <= file_size h <= mem_size h /\
     0 <= p_offset h /\ p_offset h + file_size h <= Z.of_nat (length buf)).

Lemma is_load_spec h : (exists t, ProgramHeader_get_type h = Ok t) -> is_load h = Done (load_segment h).
Proof.
  intros [t Ht]. unfold is_load, load_segment. rewrite Ht. unfold ProgramHeader_get_type in Ht.
  destruct (Z.eqb_spec (p_type h) 1) as [E|E]; [rewrite E in Ht; by injection Ht as <-|].
  destruct t; try done. exfalso. destruct (p_type h) as [|p|p]; [done| |].
  - do 3 (destruct p as [p|p|]; try done); repeat case_match; done.
  - repeat case_match; done.
Qed.

Lemma grow_range_eq h r : (exists t, ProgramHeader_get_type h = Ok t) -> grow_range h r =
  Done (inl (if load_segment h then (Z.min (fst r) (virtual_addr h), Z.max (snd r) (virtual_addr h ⊞ mem_size h)) else r)).
Proof. intros Ht. unfold grow_range. rewrite is_load_spec by done. cbn [mbind exec_bind]. by destruct (load_segment h). Qed.

Lemma grow_range_spec buf phs : Forall (header_fits buf) phs -> forall s e, exists s' e', for_ret phs grow_range (s, e) = Done (inl (s', e')) /\
  s' <= s /\ e <= e' /\ forall h, h ∈ phs -> load_segment h = true -> s' <= virtual_addr h /\ virtual_addr h + mem_size h <= e'.
Proof.
  induction 1 as [|h phs [Ht Hfit] _ IH]; intros s e; cbn [for_ret].
  { exists s, e. split; [done|]. split; [lia|]. split; [lia|]. intros h Hh. by apply elem_of_nil in Hh. }
  rewrite grow_range_eq by done. cbn [mbind exec_bind]. destruct (load_segment h) eqn:El; cbn [fst snd].
  - destruct (Hfit eq_refl) as (Hv & Hm & Hf & _). rewrite wrap_small by (split; lia).
    destruct (IH (Z.min s (virtual_addr h)) (Z.max e (virtual_addr h + mem_size h))) as (s' & e' & E & Hs & He & Hall).
    exists s', e'. split; [exact E|]. split; [lia|]. split; [lia|]. intros h' [->|Hin]%elem_of_cons Hl; [lia|by apply Hall].
  - destruct (IH s e) as (s' & e' & E & Hs & He & Hall). exists s', e'. split; [exact E|]. split; [done|]. split; [done|].
    intros h' [->|Hin]%elem_of_cons Hl; [congruence|by apply Hall].
Qed.

(** The byte of a segment. *)
Definition segment_byte (buf : list Z) (h : ProgramHeader) (i : Z) : option Z :=
  if i <? file_size h then buf !! Z.to_nat (p_offset h + i) else Some 0.

Definition in_segment (h : ProgramHeader) (b : Z) : Prop := load_segment h = true /\ virtual_addr h <= b < virtual_addr h + mem_size h.

Definition segments_disjoint (h g : ProgramHeader) : Prop := forall b, in_segment h b -> in_segment g b -> False.

Lemma copy_segment_spec buf h m : Z.of_nat (length buf) < 2 ^ 63 -> header_fits buf h -> exists m', copy_segment buf h m = Done (inl m') /\
  (forall i, in_segment h (virtual_addr h + i) -> m' !! (virtual_addr h + i) = segment_byte buf h i) /\
  (forall b, ~ in_segment h b -> m' !! b = m !! b).
Proof.
  intros Hbuf [Ht Hfit]. unfold copy_segment, in_segment. rewrite is_load_spec by done. cbn [mbind exec_bind].
  destruct (load_segment h) eqn:El; [|exists m; split; [done|]; split; [by intros i [? _]|done]].
  destruct (Hfit eq_refl) as (Hv & Hm & Hf & Ho & Hend). rewrite (proj2 (Z.leb_le _ _)) by lia. cbn [rust_assert mbind exec_bind].
  unfold byte_slice. rewrite wrap_small by (split; lia). rewrite (proj2 (Z.leb_le _ _)), (proj2 (Z.leb_le _ _)) by lia. cbn [andb rust_assert mbind exec_bind].
  replace (p_offset h + file_size h - p_offset h) with (file_size h) by lia.
  set (bytes := take (Z.to_nat (file_size h)) (drop (Z.to_nat (p_offset h)) buf)).
  assert (Hlb : length bytes = Z.to_nat (file_size h)) by (unfold bytes; rewrite length_take, length_drop; lia).
  eexists. split; [reflexivity|]. split.
  - intros i [_ Hi]. rewrite write_bytes_in by (rewrite length_app, length_replicate; lia). unfold segment_byte. destruct (Z.ltb_spec i (file_size h)).
    + rewrite lookup_app_l by lia. unfold bytes. rewrite lookup_take_lt by lia. rewrite lookup_drop. f_equal. lia.
    + rewrite lookup_app_r by lia. rewrite lookup_replicate_2 by lia. done.
  - intros b Hb. apply write_bytes_out. rewrite length_app, length_replicate.
    destruct (Z.lt_ge_cases b (virtual_addr h)); [by left|right]. destruct (Z.lt_ge_cases b (virtual_addr h + mem_size h)); [exfalso; by apply Hb|lia].
Qed.

Lemma copy_segments_spec buf phs : Z.of_nat (length buf) < 2 ^ 63 -> Forall (header_fits buf) phs -> ForallOrdPairs segments_disjoint phs -> forall m,
  exists m', for_ret phs (copy_segment buf) m = Done (inl m') /\
  (forall h i, h ∈ phs -> in_segment h (virtual_addr h + i) -> m' !! (virtual_addr h + i) = segment_byte buf h i) /\
  (forall b, (forall h, h ∈ phs -> ~ in_segment h b) -> m' !! b = m !! b).
Proof.
  intros Hbuf Hall. induction Hall as [|h phs Hfit Hall IH]; intros Hdis m; cbn [for_ret].
  { exists m. split; [done|]. split; [intros h i Hh; by apply elem_of_nil in Hh|done]. }
  inversion Hdis as [|? ? Hd Hdis']; subst. destruct (copy_segment_spec buf h m Hbuf Hfit) as (m1 & -> & Hin & Hout). cbn [mbind exec_bind].
  destruct (IH Hdis' m1) as (m2 & -> & Hin2 & Hout2). exists m2. split; [done|]. split.
  - intros h' i [->|Hh]%elem_of_cons Hi; [|by apply Hin2]. rewrite Hout2; [by apply Hin|].
    intros g Hg Hgi. rewrite List.Forall_forall in Hd. apply (Hd g) with (virtual_addr h + i); [by apply list_elem_of_In|done|done].
  - intros b Hb. rewrite Hout2 by (intros g Hg; apply Hb; by right). apply Hout, Hb. by left.
Qed.

(** C33: Loading the kernel puts each PT_LOAD segment at its address, the bytes of
    the file followed by zeros, inside the reported range, and writes nothing
    else; it fails only when the firmware cannot give it the pages. *)
Theorem load_kernel_places allocate_pages buf elf phs m : Z.of_nat (length (slice_bytes buf)) < 2 ^ 63 ->
  ElfFile_new buf = Done (Ok elf) -> program_headers elf phs -> Forall (header_fits (slice_bytes buf)) phs -> ForallOrdPairs segments_disjoint phs ->
  exists start stop m', load_kernel allocate_pages buf m =
    (if allocate_pages start (div_ceil (stop ⊟ start) PAGE_SIZE) then Done (start, stop, entry_point (body (header elf)), m') else Panic) /\
  (forall h, h ∈ phs -> load_segment h = true -> start <= virtual_addr h /\ virtual_addr h + mem_size h <= stop) /\
  (forall h i, h ∈ phs -> in_segment h (virtual_addr h + i) -> m' !! (virtual_addr h + i) = segment_byte (slice_bytes buf) h i) /\
  (forall b, (forall h, h ∈ phs -> ~ in_segment h b) -> m' !! b = m !! b).
Proof.
  intros Hbuf Helf Hphs Hfit Hdis. destruct (grow_range_spec (slice_bytes buf) phs Hfit (2 ^ 64 - 1) 0) as (start & stop & E1 & _ & _ & Hrange).
  destruct (copy_segments_spec (slice_bytes buf) phs Hbuf Hfit Hdis m) as (m' & E2 & Hin & Hout).
  exists start, stop, m'. split; [|done]. unfold load_kernel. rewrite Helf. cbn [mbind exec_bind result_ok unwrap].
  rewrite !(program_for_list elf phs) by done. rewrite E1. cbn [mbind exec_bind loop_result].
  destruct (allocate_pages _ _); cbn [rust_assert mbind exec_bind]; [|done]. by rewrite E2.
Qed.

(** A file with one segment of four bytes, three of them in the file. *)
Definition example_segment : ProgramHeader := mkProgramHeader 1 5 120 0x200000 0x200000 3 4 4096.
Definition example_kernel_body : HeaderBody := mkBody 2 62 1 0x200001 64 0 0 64 56 1 64 0 0.
Definition example_kernel : Slice :=
  mkSlice 4096 (to_bytes example_ident ++ to_bytes example_kernel_body ++ ProgramHeader_bytes example_segment ++ [7; 8; 9]).

Lemma load_kernel_places_witness : exists start stop m',
  load_kernel (fun _ _ => true) example_kernel ∅ = Done (start, stop, 0x200001, m') /\ m' !! 0x200001 = Some 8 /\ m' !! 0x200003 = Some 0.
Proof.
  destruct (load_kernel_places (fun _ _ => true) example_kernel (mkElf example_kernel (mkHeader example_ident example_kernel_body)) [example_segment] ∅)
    as (start & stop & m' & E & _ & Hin & _).
  - by vm_compute.
  - by vm_compute.
  - split; [|by vm_compute]. apply yields_cons with 1; [by vm_compute|]. apply yields_nil with 1. by vm_compute.
  - apply Forall_singleton. split; [by exists PH_Load|]. intros _. by vm_compute.
  - apply FOP_cons; [constructor|constructor].
  - exists start, stop, m'. split; [exact E|]. split.
    + apply (Hin example_segment 1); [by left|by vm_compute].
    + apply (Hin example_segment 3); [by left|by vm_compute].
Defined.

(** ** The objects of the boot volume *)

(** What the kernel finds in the map of root objects: the names, and the bytes
    in memory. *)
Definition read_bytes (m : Bytes) (a n : Z) : list Z := (fun i => default 0 (m !! (a + i))) <$> seqZ 0 n.
Definition root_object_map (m : Bytes) (objects : list RootObjectInfo) : list (list Z * list Z) :=
  (fun o => (ro_name o, read_bytes m (ro_addr o) (ro_size o))) <$> objects.

(** The name of an object file without its suffix. *)
Definition base_name (file : BootFile) : list Z := take (length (bf_name file) - 2) (bf_name file).

Definition object_file (file : BootFile) : bool := ends_with (bf_name file) (str ".o").

(** The pages of a file. *)
Definition file_pages (file : BootFile) (b : Z) : Prop :=
  bf_addr file <= b < bf_addr file + div_ceil (Z.of_nat (length (bf_bytes file))) PAGE_SIZE * PAGE_SIZE.
Definition pages_apart (f g : BootFile) : Prop := forall b, file_pages f b -> file_pages g b -> False.

Record boot_file_ok (file : BootFile) : Prop := {
  name_utf8 : utf8_valid (base_name file) = true;
  name_chars : Forall (fun b => b <> 0) (base_name file);
  name_fits : (length (base_name file) <= MAX_OBJECT_NAME_LEN)%nat;
  bytes_fit : Z.of_nat (length (bf_bytes file)) < 2 ^ 62
}.

Lemma utf8_valid_zeros n : forall k bs, (length bs <= k)%nat -> utf8_valid bs = true -> utf8_valid (bs ++ replicate n 0) = true.
Proof.
  induction k as [|k IH]; intros bs Hl H.
  { destruct bs; [|cbn in Hl; lia]. cbn [app]. clear. induction n as [|n IHn]; [done|]. exact IHn. }
  destruct bs as [|b0 r0]; [by apply (IH []); cbn; [lia|]|]. cbn [length] in Hl. cbn [utf8_valid app] in *.
  destruct (b0 <? 128); [apply IH; [lia|done]|]. destruct r0 as [|b1 r1]; [done|]. cbn [app length] in *.
  destruct (in_range 0xC2 0xDF b0); [bool_hyps; rewrite andb_true_iff; split; [done|apply IH; [lia|done]]|].
  destruct r1 as [|b2 r2]; [done|]. cbn [app length] in *. destruct (in_range 0xE0 0xEF b0).
  { rewrite !andb_true_iff in *. destruct H as [[? ?] ?]. split; [done|]. apply IH; [lia|done]. }
  destruct r2 as [|b3 r3]; [done|]. cbn [app length] in *. destruct (in_range 0xF0 0xF4 b0); [|done].
  rewrite !andb_true_iff in *. destruct H as [[? ?] ?]. split; [done|]. apply IH; [lia|done].
Qed.

Lemma trim_zeros_id s : Forall (fun b => b <> 0) s -> trim_zeros s = s.
Proof. intros H. destruct s as [|b s]; [done|]. apply Forall_cons in H as [Hb _]. cbn. by rewrite (proj2 (Z.eqb_neq b 0)). Qed.

Lemma trim_zeros_app n s : trim_zeros (replicate n 0 ++ s) = trim_zeros s.
Proof. induction n; [done|]. cbn. done. Qed.

(** A padded name is read back. *)
Lemma name_str_padded s n : utf8_valid s = true -> Forall (fun b => b <> 0) s -> name_str (s ++ replicate n 0) = Done s.
Proof.
  intros Hu Hs. unfold name_str. rewrite (utf8_valid_zeros n (length s) s) by done. cbn [rust_assert mbind exec_bind]. f_equal.
  destruct s as [|b s].
  - cbn [app]. rewrite <- (app_nil_r (replicate n 0)), trim_zeros_app. done.
  - pose proof Hs as Hs0. apply Forall_cons in Hs as [Hb Hs]. assert (E : trim_zeros ((b :: s) ++ replicate n 0) = (b :: s) ++ replicate n 0) by (cbn; by rewrite (proj2 (Z.eqb_neq b 0))).
    rewrite E, rev_app_distr. assert (Er : rev (replicate n 0) = replicate n 0) by (change (rev (replicate n 0)) with (List.rev (replicate n 0)); rewrite List.rev_alt; apply reverse_replicate). rewrite Er, trim_zeros_app.
    rewrite trim_zeros_id; [by rewrite rev_involutive|]. apply Forall_rev. by apply Forall_cons.
Qed.

Lemma object_name file : object_file file = true -> bf_name file = base_name file ++ str ".o".
Proof.
  unfold object_file, ends_with, base_name. intros H. bool_hyps. apply bool_decide_eq_true_1 in H0. change (length (str ".o")) with 2%nat in *.
  rewrite <- (take_drop (length (bf_name file) - 2) (bf_name file)) at 1. f_equal. exact H0.
Qed.

Lemma pages_size n : 0 <= n < 2 ^ 62 -> n <= div_ceil n PAGE_SIZE ⊠ PAGE_SIZE /\ div_ceil n PAGE_SIZE ⊠ PAGE_SIZE = div_ceil n PAGE_SIZE * PAGE_SIZE.
Proof.
  intros Hn. destruct (div_ceil_spec n PAGE_SIZE) as [H1 H2]; [lia|done|]. unfold PAGE_SIZE, KIBIBYTE in *.
  rewrite wrap_small by (split; lia). lia.
Qed.

Lemma load_root_object_spec file m : boot_file_ok file -> exists m', (forall b, ~ file_pages file b -> m' !! b = m !! b) /\
  if object_file file then load_root_object file m = Done (Some (mkRootObject (base_name file ++ replicate (32 - length (base_name file)) 0) (bf_addr file) (Z.of_nat (length (bf_bytes file)))), m') /\
      forall i, 0 <= i < Z.of_nat (length (bf_bytes file)) -> m' !! (bf_addr file + i) = bf_bytes file !! Z.to_nat i
  else load_root_object file m = Done (None, m').
Proof.
  intros [Hu Hc Hn Hb]. unfold load_root_object, object_file. destruct (ends_with (bf_name file) (str ".o")) eqn:E; cbn [negb]; [|by exists m].
  destruct (pages_size (Z.of_nat (length (bf_bytes file)))) as [Hle Hpages]; [lia|]. set (n := Z.of_nat (length (bf_bytes file))) in *.
  rewrite Z.min_l by lia. rewrite Z.eqb_refl. cbn [rust_assert mbind exec_bind].
  assert (Hlen : length (base_name file) = (length (bf_name file) - 2)%nat) by (unfold base_name; rewrite length_take; lia).
  rewrite bool_decide_eq_true_2 by (rewrite <- Hlen; done). cbn [rust_assert mbind exec_bind].
  set (pad := div_ceil n PAGE_SIZE ⊠ PAGE_SIZE) in *. change (take (length (bf_name file) - 2) (bf_name file)) with (base_name file). rewrite <- Hlen.
  eexists. split; [|split; [reflexivity|]].
  - intros b Hout. apply write_bytes_out. rewrite length_app, length_replicate. unfold file_pages in Hout. fold n in Hout. rewrite <- Hpages in Hout. lia.
  - intros i Hi. rewrite write_bytes_in by (rewrite length_app; lia). apply lookup_app_l. lia.
Qed.

(** What is reported of an object, and what the kernel sees of it. *)
Definition object_info (file : BootFile) : RootObjectInfo :=
  mkRootObject (base_name file ++ replicate (32 - length (base_name file)) 0) (bf_addr file) (Z.of_nat (length (bf_bytes file))).
Definition object_entry (file : BootFile) : list Z * list Z := (base_name file ++ replicate (32 - length (base_name file)) 0, bf_bytes file).

Lemma read_bytes_eq m a bytes : (forall i, 0 <= i < Z.of_nat (length bytes) -> m !! (a + i) = bytes !! Z.to_nat i) -> read_bytes m a (Z.of_nat (length bytes)) = bytes.
Proof.
  intros H. unfold read_bytes. apply list_eq. intros i. rewrite list_lookup_fmap. destruct (decide (i < length bytes)%nat) as [Hi|Hi].
  - rewrite lookup_seqZ_lt by lia. cbn [fmap option_fmap option_map]. rewrite H by lia. replace (Z.to_nat (0 + Z.of_nat i)) with i by lia.
    by destruct (lookup_lt_is_Some_2 bytes i Hi) as [x ->].
  - rewrite lookup_seqZ_ge by lia. cbn. symmetry. apply lookup_ge_None_2. lia.
Qed.

Lemma file_in_pages file i : boot_file_ok file -> 0 <= i < Z.of_nat (length (bf_bytes file)) -> file_pages file (bf_addr file + i).
Proof. intros [_ _ _ Hb] Hi. unfold file_pages. destruct (pages_size (Z.of_nat (length (bf_bytes file)))) as [H1 H2]; [lia|]. lia. Qed.

Lemma load_root_objects_spec files : Forall boot_file_ok files -> ForallOrdPairs pages_apart files -> forall m,
  exists m', load_root_objects files m = Done (object_info <$> filter (fun f => object_file f = true) files, m') /\
  (forall b, (forall f, f ∈ files -> ~ file_pages f b) -> m' !! b = m !! b) /\
  (forall f, f ∈ files -> object_file f = true -> read_bytes m' (bf_addr f) (Z.of_nat (length (bf_bytes f))) = bf_bytes f).
Proof.
  induction 1 as [|file files Hok Hall IH]; intros Hap m; cbn [load_root_objects].
  { exists m. split; [done|]. split; [done|]. intros f Hf. by apply elem_of_nil in Hf. }
  inversion Hap as [|? ? Hd Hap']; subst. destruct (load_root_object_spec file m Hok) as (m1 & Hout1 & H1).
  destruct (IH Hap' m1) as (m2 & E2 & Hout2 & Hin2). exists m2.
  assert (Hkeep : forall b, file_pages file b -> m2 !! b = m1 !! b).
  { intros b Hb. apply Hout2. intros f Hf Hfb. rewrite List.Forall_forall in Hd. apply (Hd f) with b; [by apply list_elem_of_In|done|done]. }
  split; [|split].
  - rewrite filter_cons. destruct (object_file file) eqn:E.
    + destruct H1 as [-> _]. cbn [mbind exec_bind]. rewrite E2. cbn [mbind exec_bind]. by rewrite decide_True by done.
    + rewrite H1. cbn [mbind exec_bind]. rewrite E2. cbn [mbind exec_bind]. by rewrite decide_False by done.
  - intros b Hb. rewrite Hout2 by (intros f Hf; apply Hb; by right). apply Hout1, Hb. by left.
  - intros f [->|Hf]%elem_of_cons Ho; [|by apply Hin2]. rewrite Ho in H1. destruct H1 as [_ H1]. apply read_bytes_eq. intros i Hi.
    rewrite Hkeep by by apply file_in_pages. by apply H1.
Qed.

Lemma find_object_entry files file : Forall boot_file_ok files -> NoDup (base_name <$> files) -> file ∈ files ->
  find_object (object_entry <$> files) (base_name file) = Done (Ok (bf_bytes file)).
Proof.
  induction 1 as [|f files [Hu Hc _ _] Hall IH]; intros Hnd Hin; [by apply elem_of_nil in Hin|]. cbn [fmap list_fmap] in Hnd. apply NoDup_cons in Hnd as [Hnin Hnd].
  cbn [fmap list_fmap object_entry find_object]. rewrite name_str_padded by done. cbn [mbind exec_bind]. case_bool_decide as Heq.
  - apply elem_of_cons in Hin as [->|Hin]; [done|]. exfalso. apply Hnin. rewrite Heq. by apply list_elem_of_fmap_2.
  - apply elem_of_cons in Hin as [->|Hin]; [done|]. by apply IH.
Qed.



(** ** What the kernel makes of the memory map *)

Definition descriptor_ok (d : MemoryDescriptor) : Prop := 0 <= phys_start d /\ 0 <= desc_page_count d /\ phys_start d + desc_page_count d * PAGE_SIZE < 2 ^ 47.

Lemma region_of_spec d : descriptor_ok d -> region_valid (region_of d) /\ region_base (region_of d) = phys_start d /\
  region_size (region_of d) = desc_page_count d * PAGE_SIZE.
Proof.
  intros (H1 & H2 & H3). unfold region_valid, region_of. cbn [region_base region_size]. unfold PAGE_SIZE, KIBIBYTE in *.
  rewrite wrap_small by (split; lia). lia.
Qed.

(** Pages that the firmware allocated for the bootloader, as those of the object
    files, of the memory map and of the list of objects, are reported as Free;
    the kernel reserves only the first MiB, its own segments and the
    framebuffer. After start-up every other frame of them is free, so that the
    frame allocator may hand out the frames of objects that the loader has yet
    to read. *)
Theorem loader_data_is_free earlier_len descs regions kstart kend fbaddr fbsize fa fa' free d f :
  memory_regions earlier_len descs = Done regions -> Forall descriptor_ok descs ->
  ForallOrdPairs regions_disjoint regions -> length (bitmap fa) = Z.to_nat BITMAP_LEN ->
  0 <= kstart <= kend -> kend < 2 ^ 47 -> 0 <= fbaddr -> 0 <= fbsize -> fbaddr + fbsize < 2 ^ 47 ->
  init_frames (mkBootInfo kstart kend regions fbaddr fbsize) fa = Done (fa', free) ->
  d ∈ descs -> desc_ty d = EFI_LOADER_DATA -> phys_start d <= f * PAGE_SIZE -> (f + 1) * PAGE_SIZE <= phys_start d + desc_page_count d * PAGE_SIZE ->
  f < MAX_FRAMES -> ~ reserved 0 MEBIBYTE f -> ~ reserved kstart (kend - kstart) f -> ~ reserved fbaddr (fbaddr + fbsize) f ->
  f ∈ free_set (bitmap fa').
Proof.
  intros Hr Hd Hdis Hl Hk Hke Hf0 Hfs Hft Hinit Hin Hty Hlo Hhi Hmax N1 N2 N3.
  unfold memory_regions in Hr. case_bool_decide; [|done]. cbn [rust_assert mbind exec_bind] in Hr. injection Hr as <-.
  assert (Hv : Forall region_valid (region_of <$> descs)) by (apply Forall_fmap; eapply Forall_impl; [exact Hd|]; intros x Hx; by apply region_of_spec).
  destruct (init_frames_exact (mkBootInfo kstart kend (region_of <$> descs) fbaddr fbsize) fa Hl Hv Hdis Hk Hke Hf0 Hfs Hft) as (fa1 & _ & E & Hset).
  rewrite E in Hinit. destruct (_ <? _); [|done]. injection Hinit as <- _. apply Hset. cbn [memory_map kernel_start kernel_end framebuffer_addr framebuffer_size].
  split; [|done]. split; [done|].
  exists (region_of d). split; [by apply list_elem_of_fmap_2|]. split; [unfold region_of; cbn [region_kind]; by rewrite Hty|].
  destruct (region_of_spec d) as (_ & Eb & Es); [by eapply (proj1 (Forall_forall _ _)) in Hin|]. unfold region_covers. rewrite Eb, Es. lia.
Qed.

(** The pages of an object at 2 MiB, between the kernel and 128 MiB of free memory. *)
Lemma loader_data_is_free_witness :
  let descs := [mkDescriptor EFI_LOADER_DATA 0x200000 1; mkDescriptor EFI_CONVENTIONAL 0x400000 0x8000] in
  exists fa free, init_frames (mkBootInfo 0x100000 0x110000 (region_of <$> descs) 0 0x1000) FrameAllocator_new = Done (fa, free) /\
    0x200 ∈ free_set (bitmap fa).
Proof.
  set (descs := [mkDescriptor EFI_LOADER_DATA 0x200000 1; mkDescriptor EFI_CONVENTIONAL 0x400000 0x8000]).
  assert (Hd : Forall descriptor_ok descs) by (apply Forall_cons; split; [by vm_compute|apply Forall_singleton; by vm_compute]).
  assert (Hdis : ForallOrdPairs regions_disjoint (region_of <$> descs)).
  { apply FOP_cons; [|apply FOP_cons; constructor]. apply List.Forall_cons; [left; by vm_compute|by apply List.Forall_nil]. }
  assert (Hl : length (bitmap FrameAllocator_new) = Z.to_nat BITMAP_LEN) by (by vm_compute).
  assert (Hv : Forall region_valid (region_of <$> descs)) by (apply Forall_fmap; eapply Forall_impl; [exact Hd|]; intros x Hx; by apply region_of_spec).
  set (b := mkBootInfo 0x100000 0x110000 (region_of <$> descs) 0 0x1000).
  assert (Hk : 0 <= kernel_start b <= kernel_end b) by (cbn; lia). assert (Hke : kernel_end b < 2 ^ 47) by (cbn; lia).
  assert (Hf0 : 0 <= framebuffer_addr b) by (cbn; lia). assert (Hfs : 0 <= framebuffer_size b) by (cbn; lia).
  assert (Hft : framebuffer_addr b + framebuffer_size b < 2 ^ 47) by (cbn; lia).
  destruct (init_frames_done b FrameAllocator_new (region_of (mkDescriptor EFI_CONVENTIONAL 0x400000 0x8000)) 0x400 0x8000 Hl Hv Hdis Hk Hke Hf0 Hfs Hft)
    as (fa & _ & E & _ & _); [by right; left|done|by vm_compute|done| |].
  { intros f Hf. unfold b, reserved, region_covers. cbn [kernel_start kernel_end framebuffer_addr framebuffer_size].
    change (region_base _) with 0x400000. change (region_size _) with 0x8000000.
    change (0 / PAGE_SIZE + div_ceil MEBIBYTE PAGE_SIZE) with 0x100. change (0x100000 / PAGE_SIZE + div_ceil (0x110000 - 0x100000) PAGE_SIZE) with 0x110.
    change (0 / PAGE_SIZE + div_ceil (0 + 0x1000) PAGE_SIZE) with 1. unfold PAGE_SIZE, KIBIBYTE. lia. }
  exists fa, (free_frames fa). split; [exact E|].
  apply (loader_data_is_free 0 descs (region_of <$> descs) 0x100000 0x110000 0 0x1000 FrameAllocator_new fa (free_frames fa) (mkDescriptor EFI_LOADER_DATA 0x200000 1)
    0x200 eq_refl Hd Hdis Hl Hk Hke Hf0 Hfs Hft E ltac:(by left) eq_refl ltac:(by vm_compute) ltac:(by vm_compute) ltac:(by vm_compute)).
  - unfold reserved. change (0 / PAGE_SIZE + div_ceil MEBIBYTE PAGE_SIZE) with 0x100. lia.
  - unfold reserved. change (0x100000 / PAGE_SIZE + div_ceil (0x110000 - 0x100000) PAGE_SIZE) with 0x110. lia.
  - unfold reserved. change (0 / PAGE_SIZE + div_ceil (0 + 0x1000) PAGE_SIZE) with 1. lia.
Defined.
