(* ===== verification/Boot.v ===== *)
(** * From the firmware's memory map to the frames of the kernel

    The bootloader translates the memory map ([Bootloader]), memory::init marks
    its free regions and reserves what is in use ([Memory]), and from then on
    page tables, address spaces and mappings take frames from the allocator
    and give them back ([FrameAllocator]). Proved here of the whole: the
    frames in use are distinct frames of usable memory. *)

From Stdlib Require Import Lia.
From stdpp Require Import base numbers option tactics gmap fin_sets list relations.
From S2P Require Import Prelude MemoryTypes FrameAllocator Memory Bootloader.

Local Open Scope Z_scope.

(** ** What the firmware describes *)

(** The types of memory that the kernel may use once the boot services are gone. *)
Definition usable (d : MemoryDescriptor) : bool :=
  bool_decide (desc_ty d ∈ [EFI_CONVENTIONAL; EFI_LOADER_CODE; EFI_LOADER_DATA; EFI_BOOT_SERVICES_CODE; EFI_BOOT_SERVICES_DATA]).

Definition descriptor_end (d : MemoryDescriptor) : Z := phys_start d + desc_page_count d * PAGE_SIZE.

(** The page of a frame lies in the described memory, or next to it. *)
Definition page_within (f : Z) (d : MemoryDescriptor) : Prop := phys_start d <= f * PAGE_SIZE /\ (f + 1) * PAGE_SIZE <= descriptor_end d.
Definition page_outside (f : Z) (d : MemoryDescriptor) : Prop := (f + 1) * PAGE_SIZE <= phys_start d \/ descriptor_end d <= f * PAGE_SIZE.

Definition descriptors_disjoint (d e : MemoryDescriptor) : Prop := descriptor_end d <= phys_start e \/ descriptor_end e <= phys_start d.

(** What the bootloader hands to the kernel: the map, the kernel's image and
    the framebuffer. *)
Record Handover : Type := mkHandover { h_descs : list MemoryDescriptor; h_kernel : Z * Z; h_framebuffer : Z * Z }.

Definition boot_info_of (h : Handover) : BootInfo :=
  mkBootInfo (h_kernel h).1 (h_kernel h).2 (region_of <$> h_descs h) (h_framebuffer h).1 (h_framebuffer h).2.

Record handover_ok (h : Handover) : Prop := {
  ho_descs : Forall descriptor_ok (h_descs h);
  ho_disjoint : ForallOrdPairs descriptors_disjoint (h_descs h);
  ho_kernel : 0 <= (h_kernel h).1 <= (h_kernel h).2 /\ (h_kernel h).2 < 2 ^ 47;
  ho_framebuffer : 0 <= (h_framebuffer h).1 /\ 0 <= (h_framebuffer h).2 /\ (h_framebuffer h).1 + (h_framebuffer h).2 < 2 ^ 47
}.

(** ** The frames in use *)

(** Taking a frame, and giving back one that is in use. *)
Inductive frames_step : FrameAllocator * gset Z -> FrameAllocator * gset Z -> Prop :=
  | frames_take fa fa' held f : FrameAllocator_allocate fa = Done (fa', Ok f) -> frames_step (fa, held) (fa', {[frame_number f]} ∪ held)
  | frames_give fa fa' held f r : frame_number f ∈ held -> FrameAllocator_deallocate fa f = Done (fa', r) ->
      frames_step (fa, held) (fa', held ∖ {[frame_number f]}).

(** The frames are divided among the free ones and those in use. *)
Record frames_own (all : gset Z) (s : FrameAllocator * gset Z) : Prop := {
  fo_inv : fa_inv s.1;
  fo_all : free_set (bitmap s.1) ∪ s.2 = all;
  fo_disjoint : free_set (bitmap s.1) ## s.2
}.

Lemma frames_own_step all s s' : (forall f, f ∈ all -> 0 <= f < MAX_FRAMES) -> frames_own all s -> frames_step s s' -> frames_own all s'.
Proof.
  intros Hall [Hinv Hun Hdis] Hst. destruct Hst as [fa fa' held f E|fa fa' held f r Hin E]; cbn [fst snd] in *.
  - destruct (allocate_spec fa Hinv) as (fa1 & r1 & E1 & Hinv1 & Hr). rewrite E1 in E. injection E as -> ->. destruct Hr as (Hf & Es & _).
    split; cbn [fst snd]; [done| |]; rewrite Es; [|set_solver]. rewrite <- Hun. apply set_eq. intros x. rewrite !elem_of_union, elem_of_difference, elem_of_singleton.
    destruct (decide (x = frame_number f)) as [->|]; set_solver.
  - assert (Hb : 0 <= frame_number f < MAX_FRAMES) by (apply Hall; set_solver).
    destruct (deallocate_spec fa f Hinv) as (fa1 & r1 & E1 & Hinv1 & Hr); [lia|]. rewrite E1 in E. injection E as -> ->.
    rewrite (proj2 (Z.leb_gt _ _)) in Hr by lia. destruct Hr as (_ & Es & _).
    split; cbn [fst snd]; [done| |]; rewrite Es; [|set_solver]. rewrite <- Hun. apply set_eq. intros x. rewrite !elem_of_union, elem_of_difference, elem_of_singleton.
    destruct (decide (x = frame_number f)) as [->|]; set_solver.
Qed.

Lemma frames_own_run all s s' : (forall f, f ∈ all -> 0 <= f < MAX_FRAMES) -> frames_own all s -> rtc frames_step s s' -> frames_own all s'.
Proof. intros Hall Hs Hr. induction Hr; eauto using frames_own_step. Qed.

(** ** The free frames after start-up *)

Lemma ordered_pairs_in {A} (R : A -> A -> Prop) l x y : (forall a b, R a b -> R b a) -> ForallOrdPairs R l -> x ∈ l -> y ∈ l -> x <> y -> R x y.
Proof.
  intros Hsym H. induction H as [|a l Ha _ IH]; intros Hx Hy Hne; [by apply elem_of_nil in Hx|]. rewrite List.Forall_forall in Ha.
  apply elem_of_cons in Hx as [->|Hx], Hy as [->|Hy]; [done| | |by apply IH].
  - by apply Ha, list_elem_of_In.
  - by apply Hsym, Ha, list_elem_of_In.
Qed.

Lemma region_kind_usable d : region_kind (region_of d) = Free <-> usable d = true.
Proof.
  unfold region_of, usable. cbn [region_kind]. rewrite bool_decide_eq_true. rewrite !elem_of_cons, elem_of_nil.
  split.
  - destruct (_ || _) eqn:E; [|done]. intros _. bool_hyps. rewrite !orb_true_iff, !Z.eqb_eq in E. tauto.
  - intros H. by rewrite (proj2 (orb_true_iff _ _)) by (rewrite !orb_true_iff, !Z.eqb_eq; tauto).
Qed.

Lemma region_covers_page d f : descriptor_ok d -> region_covers (region_of d) f <-> page_within f d.
Proof. intros Hd. destruct (region_of_spec d Hd) as (_ & Eb & Es). unfold region_covers, page_within, descriptor_end. by rewrite Eb, Es. Qed.

(** The frames that are free after start-up. *)
Definition boot_frame (h : Handover) (f : Z) : Prop :=
  f < MAX_FRAMES /\ (exists d, d ∈ h_descs h /\ usable d = true /\ page_within f d) /\
  ~ reserved 0 MEBIBYTE f /\ ~ reserved (h_kernel h).1 ((h_kernel h).2 - (h_kernel h).1) f /\
  ~ reserved (h_framebuffer h).1 ((h_framebuffer h).1 + (h_framebuffer h).2) f.

Lemma boot_frames_exact h fa fa' n : handover_ok h -> length (bitmap fa) = Z.to_nat BITMAP_LEN -> init_frames (boot_info_of h) fa = Done (fa', n) ->
  fa_inv fa' /\ forall f, f ∈ free_set (bitmap fa') <-> boot_frame h f.
Proof.
  intros [Hd Hdis (Hk & Hke) (Hf0 & Hfs & Hft)] Hl E. pose proof (proj1 (Forall_forall _ _) Hd) as Hdi.
  assert (Hv : Forall region_valid (memory_map (boot_info_of h))) by (apply Forall_fmap; eapply Forall_impl; [exact Hd|]; intros x Hx; by apply region_of_spec).
  assert (Hdis' : ForallOrdPairs regions_disjoint (memory_map (boot_info_of h))).
  { cbn [boot_info_of memory_map]. clear -Hdis Hd. induction Hdis as [|d ds Hh Hdis IH]; [constructor|]. apply Forall_cons in Hd as [Hd0 Hd].
    cbn [fmap list_fmap]. specialize (IH Hd). constructor; [|exact IH]. rewrite List.Forall_forall in *. intros r Hr. apply List.in_map_iff in Hr as (e & <- & He).
    destruct (region_of_spec e) as (_ & E2 & E3); [by apply Hd|].
    unfold regions_disjoint. destruct (region_of_spec d Hd0) as (_ & E4 & E5). rewrite E2, E3, E4, E5. exact (Hh e He). }
  destruct (init_frames_exact (boot_info_of h) fa Hl Hv Hdis' Hk Hke Hf0 Hfs Hft) as (fa1 & Hinv & E1 & Hset).
  rewrite E1 in E. destruct (_ <? _); [|done]. injection E as -> _. split; [done|]. intros f. rewrite Hset. unfold boot_frame. cbn [boot_info_of memory_map kernel_start kernel_end framebuffer_addr framebuffer_size].
  split.
  - intros ((Hm & r & Hr & Hk1 & Hc) & N). apply list_elem_of_fmap in Hr as (d & -> & Hin). split; [done|]. split; [|done]. exists d.
    split; [done|]. split; [by apply region_kind_usable|]. by apply region_covers_page in Hc; [|by apply Hdi].
  - intros (Hm & (d & Hin & Hu & Hw) & N). split; [|done]. split; [done|]. exists (region_of d). split; [by apply list_elem_of_fmap_2|].
    split; [by apply region_kind_usable|]. apply region_covers_page; [by apply Hdi|done].
Qed.

(** A page within usable memory overlaps no memory of another type. *)
Lemma page_within_apart h d e f : handover_ok h -> d ∈ h_descs h -> e ∈ h_descs h -> usable d = true -> usable e = false -> page_within f d -> page_outside f e.
Proof.
  intros Hok Hd He Hu Hn [H1 H2]. assert (Hne : d <> e) by congruence. unfold page_outside.
  assert (Hdis : descriptors_disjoint d e); [|unfold descriptors_disjoint in Hdis; lia].
  apply (ordered_pairs_in descriptors_disjoint (h_descs h)); [|by apply ho_disjoint|done|done|done]. unfold descriptors_disjoint. intros a b. lia.
Qed.

(** ** Properties *)


(** A page of an object of the loader, and 128 MiB of free memory. *)
Definition sample_handover : Handover :=
  mkHandover [mkDescriptor EFI_LOADER_DATA 0x200000 1; mkDescriptor EFI_CONVENTIONAL 0x400000 0x8000] (0x100000, 0x110000) (0, 0x1000).

Lemma sample_handover_ok : handover_ok sample_handover.
Proof.
  split.
  - apply Forall_cons; split; [by vm_compute|apply Forall_singleton; by vm_compute].
  - apply FOP_cons; [|apply FOP_cons; constructor]. apply List.Forall_cons; [left; by vm_compute|by apply List.Forall_nil].
  - cbn. lia.
  - cbn. lia.
Qed.

Lemma sample_boot : exists fa n, init_frames (boot_info_of sample_handover) FrameAllocator_new = Done (fa, n).
Proof.
  pose proof sample_handover_ok as Hok. set (b := boot_info_of sample_handover).
  assert (Hl : length (bitmap FrameAllocator_new) = Z.to_nat BITMAP_LEN) by (by vm_compute).
  assert (Hv : Forall region_valid (memory_map b)) by (apply Forall_fmap; eapply Forall_impl; [exact (ho_descs _ Hok)|]; intros x Hx; by apply region_of_spec).
  assert (Hdis : ForallOrdPairs regions_disjoint (memory_map b)).
  { apply FOP_cons; [|apply FOP_cons; constructor]. apply List.Forall_cons; [left; by vm_compute|by apply List.Forall_nil]. }
  destruct (ho_kernel _ Hok) as [Hk Hke]. destruct (ho_framebuffer _ Hok) as (Hf0 & Hfs & Hft).
  destruct (init_frames_done b FrameAllocator_new (region_of (mkDescriptor EFI_CONVENTIONAL 0x400000 0x8000)) 0x400 0x8000 Hl Hv Hdis Hk Hke Hf0 Hfs Hft)
    as (fa & _ & E & _ & _); [by right; left|done|by vm_compute|done| |by exists fa, (free_frames fa)].
  intros f Hf. unfold b, boot_info_of, sample_handover, reserved, region_covers.
  cbn [kernel_start kernel_end framebuffer_addr framebuffer_size h_kernel h_framebuffer fst snd].
  change (region_base _) with 0x400000. change (region_size _) with 0x8000000.
  change (0 / PAGE_SIZE + div_ceil MEBIBYTE PAGE_SIZE) with 0x100. change (0x100000 / PAGE_SIZE + div_ceil (0x110000 - 0x100000) PAGE_SIZE) with 0x110.
  change (0 / PAGE_SIZE + div_ceil (0 + 0x1000) PAGE_SIZE) with 1. unfold PAGE_SIZE, KIBIBYTE. lia.
Qed.

