(* ===== verification/Linking.v ===== *)
(** * kernel/src/loader.rs: what loading and linking guarantee

    The size pass and the loading pass over the sections agree, so that the
    copies stay inside the mappings; a relocation changes eight bytes to the
    value its type asks for; what is registered can be found again. *)

From Stdlib Require Import Lia.
From stdpp Require Import base numbers option strings tactics gmap fin_maps fin_sets list.
From S2P Require Import Prelude BitUtils Pod Bytes Elf MemoryTypes FrameAllocator Paging Memory Symbols LoaderState ObjectLoader.

Local Open Scope Z_scope.
Local Open Scope u64_scope.

(** ** Relocations *)

Definition stored (s : LoadState) (a : Address) (bs : list Z) : LoadState :=
  mkLoad (ls_kernel s) (ls_space s) (ls_page s)
    (upd_contents (ls_loader s) (write_memory (contents (ls_loader s)) (to_raw a) bs)).

Lemma store_run a bs s : store_bytes a bs s = Done (stored s a bs, Ok tt).
Proof. done. Qed.

Lemma read_stored_word s a v : uint_range 64 v -> read_word (contents (ls_loader (stored s a (le_split 8 v)))) (to_raw a) = v.
Proof. apply read_write_word. Qed.

Lemma read_stored_other s a bs x : (x < to_raw a \/ to_raw a + Z.of_nat (length bs) <= x) ->
  read_byte (contents (ls_loader (stored s a bs))) x = read_byte (contents (ls_loader s)) x.
Proof. apply read_write_other. Qed.

(** C27: An absolute relocation makes the word at its place [S + A], a relative one
    [S + A - P], modulo 2^64; no other byte changes. *)
Theorem relocation_value e slice off src s : 0 <= off -> off + 8 <= slice.2 -> slice.2 < 2 ^ 64 ->
  Rela_get_type e = R_X86_64_64 \/ Rela_get_type e = R_X86_64_PC64 ->
  let place := to_raw slice.1 + off in
  exists s', write_relocation e slice off src s = Done (s', Ok tt) /\
    read_word (contents (ls_loader s')) place =
      (to_raw src + rela_addend e - (if Rela_get_type e =? R_X86_64_64 then 0 else place)) mod 2 ^ 64 /\
    (forall x, x < place \/ place + 8 <= x -> read_byte (contents (ls_loader s')) x = read_byte (contents (ls_loader s)) x) /\
    ls_kernel s' = ls_kernel s /\ ls_space s' = ls_space s.
Proof.
  intros H0 H1 H2 Ht place. unfold write_relocation.
  assert (sub_slice slice off (off ⊞ 8) = Done (mkAddress place)) as Hsub.
  { unfold sub_slice. rewrite wrap_small by (unfold uint_range; lia).
    rewrite (proj2 (Z.leb_le off _)), (proj2 (Z.leb_le _ slice.2)) by lia. done. }
  assert (forall v, exists s', store_bytes (mkAddress place) (le_split 8 (wrap 64 v)) s = Done (s', Ok tt) /\
    read_word (contents (ls_loader s')) place = v mod 2 ^ 64 /\
    (forall x, x < place \/ place + 8 <= x -> read_byte (contents (ls_loader s')) x = read_byte (contents (ls_loader s)) x) /\
    ls_kernel s' = ls_kernel s /\ ls_space s' = ls_space s) as Hst.
  { intros v. exists (stored s (mkAddress place) (le_split 8 (wrap 64 v))). split; [done|]. split.
    - apply (read_stored_word s (mkAddress place)). apply wrap_range. lia.
    - split; [|done]. intros x Hx. apply read_stored_other. rewrite le_split_length. cbn [to_raw]. lia. }
  destruct Ht as [Ht|Ht]; rewrite Ht; cbn [Z.eqb Pos.eqb R_X86_64_64 R_X86_64_PC64];
    rewrite (M_bind_ok _ _ s s (mkAddress place)) by (by apply m_exec_ok); cbn [to_raw].
  - rewrite Z.sub_0_r. apply Hst.
  - rewrite wrap_sub_idemp. apply Hst.
Qed.

(** Every other relocation type is an error and changes nothing. *)
Theorem relocation_unsupported e slice off src s :
  Rela_get_type e <> R_X86_64_64 -> Rela_get_type e <> R_X86_64_PC64 ->
  exists msg, write_relocation e slice off src s = Done (s, Err (Message msg)).
Proof.
  intros H1 H2. unfold write_relocation. rewrite (proj2 (Z.eqb_neq _ R_X86_64_64)), (proj2 (Z.eqb_neq _ R_X86_64_PC64)) by done.
  destruct (_ || _); eexists; done.
Qed.

(** ** The two passes over the sections agree *)

Lemma next_multiple_inv a b n : next_multiple a b = Done n -> b <> 0 /\ n = next_multiple_of 64 a b.
Proof. unfold next_multiple. case_if; [done|]. by intros [= <-]. Qed.

Lemma next_multiple_ok a b : b <> 0 -> next_multiple a b = Done (next_multiple_of 64 a b).
Proof. intros H. unfold next_multiple. by rewrite (proj2 (Z.eqb_neq b 0)). Qed.

(** Without overflow the next multiple is at most a multiple away, and it
    grows with its argument. *)
Lemma next_multiple_of_bounds a b : 0 <= a -> 0 < b -> a + b < 2 ^ 64 ->
  a <= next_multiple_of 64 a b < a + b /\ next_multiple_of 64 a b mod b = 0.
Proof.
  intros Ha Hb Hab. unfold next_multiple_of. pose proof (Z.mod_pos_bound a b Hb). pose proof (Z.div_mod a b ltac:(lia)).
  case_if; [split; lia|]. rewrite wrap_small by (unfold uint_range; lia). split; [lia|].
  replace (a + (b - a mod b)) with ((a / b + 1) * b) by lia. apply Z.mod_mul. lia.
Qed.

Lemma next_multiple_of_mono a a' b : 0 <= a <= a' -> 0 < b -> a' + b < 2 ^ 64 ->
  next_multiple_of 64 a b <= next_multiple_of 64 a' b.
Proof.
  intros Ha Hb Hab. destruct (next_multiple_of_bounds a b) as [[H1 H2] H3]; [lia..|].
  destruct (next_multiple_of_bounds a' b) as [[H1' H2'] H3']; [lia..|].
  destruct (Z.le_gt_cases (next_multiple_of 64 a b) (next_multiple_of 64 a' b)) as [|Hlt]; [done|].
  apply Z.mod_divide in H3 as [q Eq]; [|lia]. apply Z.mod_divide in H3' as [q' Eq']; [|lia]. assert (q' + 1 <= q) by nia. assert ((q' + 1) * b <= q * b) by nia. lia.
Qed.

(** Loops over a list of sections. *)
Lemma for_ret_body {A S} (body : A -> S -> M S) xs : forall s ls,
  for_ret xs (m_body body) (ls, s) =
    ('(ls, r) ← m_for xs body s ls; Done (match r with Ok a => inl (ls, a) | Err e => inr (ls, e) end)).
Proof.
  induction xs as [|x xs IH]; intros s ls; [done|]. cbn [for_ret m_for].
  assert (m_body body x (ls, s) = ('(ls, r) ← body x s ls; Done (match r with Ok a => inl (ls, a) | Err e => inr (ls, e) end))) as -> by done.
  destruct (body x s ls) as [[ls1 [s1|e]]|] eqn:E; cbn [mbind exec_bind].
  - rewrite (M_bind_ok _ _ _ _ _ E). apply IH.
  - by rewrite (M_bind_err _ _ _ _ _ E).
  - unfold mbind, M_bind. by rewrite E.
Qed.

Lemma m_loop_for {A S} (body : A -> S -> M S) xs s ls : m_loop (for_ret xs) body s ls = m_for xs body s ls.
Proof. unfold m_loop. rewrite for_ret_body. by destruct (m_for xs body s ls) as [[ls1 [s1|e]]|]. Qed.

Section layout.
Context (demangle : list Z -> list Z).
Context (file : ElfFile) (maps : SectionMappings) (globals : gset Z) (owner : nat).
(** The sizes the first pass found; the mappings have them. *)
Context (final : Lens).
Context (k : Kernel).

(** A mapping of [len] bytes that does not reach the end of the address
    space, or none when there is nothing to map. *)
Definition mapping_of_len (o : option KMapping) (len : Z) : Prop :=
  match o with
  | Some m => mapping_size m = len /\ 0 <= to_raw (KernelMapping_addr m) /\ to_raw (KernelMapping_addr m) + len < 2 ^ 64
  | None => len <= 0
  end.

Record maps_ok : Prop := {
  mo_exec : mapping_of_len (executable maps) (executable_len final);
  mo_ro : mapping_of_len (read_only maps) (read_only_len final);
  mo_rw : mapping_of_len (read_write maps) (read_write_len final);
  mo_current : is_current k (k_space k) = true
}.

(** A section the second pass passes over because of its name. *)
Definition placeholder (p : Z * SectionHeader) (h : SectionHeader) (name : list Z) : Prop :=
  if has_flag (sh_flags p.2) SHF_WRITE
  then symbol_name_after_prefix name (if has_type h NoBits then ".bss." else ".data.") = SkipSection
  else starts_with name (str ".rodata") = true /\ symbol_name_after_prefix name ".rodata." = SkipSection.

(** What is asked of an allocated section: not both executable and writable,
    not thread-local, readable contents, and not empty unless it is a
    placeholder. [h] is the header that stands for it. *)
Record section_ok (p : Z * SectionHeader) (h : SectionHeader) : Prop := {
  so_flags : has_flag (sh_flags p.2) SHF_EXECINSTR = true -> has_flag (sh_flags p.2) SHF_WRITE = false;
  so_tls : has_flag (sh_flags p.2) SHF_TLS = false;
  so_resolve : resolve_section file p.1 p.2 = Done (Ok h);
  so_wf : pod_wf h;
  so_bound : sh_off h + sh_size h + sh_align h < 2 ^ 64;
  so_data : has_flag (sh_flags p.2) SHF_EXECINSTR = false -> exists d, get_data h file = Done d;
  so_text : has_flag (sh_flags p.2) SHF_EXECINSTR = false -> SectionHeader_get_name p.2 file <> Done (Ok (str ".text"));
  so_size : forall name, SectionHeader_get_name p.2 file = Done (Ok name) -> 0 < sh_size h \/ placeholder p h name
}.

Definition allocated (p : Z * SectionHeader) : bool := negb (Z.land (sh_flags p.2) SHF_ALLOC =? 0).

(** The space a section can take, and the sum over a list. *)
Definition cost (h : SectionHeader) : Z := sh_size h + sh_align h.

Inductive sections_ok : list (Z * SectionHeader) -> Z -> Prop :=
  | ok_nil : sections_ok [] 0
  | ok_skip p ps c : allocated p = false -> sections_ok ps c -> sections_ok (p :: ps) c
  | ok_cons p ps h c : allocated p = true -> section_ok p h -> sections_ok ps c -> sections_ok (p :: ps) (cost h + c).

Lemma sections_ok_nonneg ps c : sections_ok ps c -> 0 <= c.
Proof.
  induction 1 as [|p ps c _ _ IH|p ps h c _ Hp _ IH]; [done|done|]. destruct (so_wf _ _ Hp) as (_&_&_&_&_&Hs&_&_&Ha&_).
  unfold cost, uint_range in *. lia.
Qed.

(** The first pass' sizes bound the second pass' offsets. *)
Definition offsets_ok (lens : Lens) (st : Loading) : Prop :=
  0 <= rodata_offset st <= read_only_len lens /\ 0 <= data_offset st <= read_write_len lens.

Definition lens_le (l l' : Lens) : Prop :=
  executable_len l <= executable_len l' /\ read_only_len l <= read_only_len l' /\ read_write_len l <= read_write_len l'.

(** Room for [c] more bytes in both data mappings without overflow. *)
Definition lens_room (l : Lens) (c : Z) : Prop :=
  0 <= executable_len l < 2 ^ 64 /\ 0 <= read_only_len l /\ read_only_len l + c < 2 ^ 64 /\
  0 <= read_write_len l /\ read_write_len l + c < 2 ^ 64.

(** ** The first pass *)

Lemma header_range h : pod_wf h -> 0 <= sh_off h /\ 0 <= sh_size h /\ 0 <= sh_align h.
Proof. intros (_&_&_&_&Ho&Hs&_&_&Ha&_). unfold uint_range in *. lia. Qed.

Lemma measured_resolved p h name : resolve_section file p.1 p.2 = Done (Ok h) -> name <> Ok (str ".text") ->
  measured_section file p.1 p.2 name = Done (Ok h).
Proof.
  intros Hr Hn. unfold resolve_section, measured_section in *.
  assert (match name with Ok n => bool_decide (n = str ".text") | Err _ => false end = false) as ->
    by (destruct name; [apply bool_decide_eq_false; congruence|done]).
  rewrite andb_true_r. destruct (sh_size p.2 =? 0); [|done]. destruct (get_section_header _ _) as [[n|]|]; [|done|done]. done.
Qed.

(** What measuring an allocated section does to the sizes. *)
Definition measured (p : Z * SectionHeader) (h : SectionHeader) (l l' : Lens) : Prop :=
  if has_flag (sh_flags p.2) SHF_EXECINSTR then
    read_only_len l' = read_only_len l /\ read_write_len l' = read_write_len l /\
    executable_len l <= executable_len l' < 2 ^ 64 /\
    (SectionHeader_get_name p.2 file <> Done (Ok (str ".text")) -> sh_off h <= executable_len l')
  else if has_flag (sh_flags p.2) SHF_WRITE then
    read_only_len l' = read_only_len l /\ executable_len l' = executable_len l /\ 0 < sh_align h /\
    read_write_len l' = next_multiple_of 64 (read_write_len l) (sh_align h) ⊞ sh_size h
  else
    read_write_len l' = read_write_len l /\ executable_len l' = executable_len l /\ 0 < sh_align h /\
    read_only_len l' = next_multiple_of 64 (read_only_len l) (sh_align h) ⊞ sh_size h.

Lemma measure_exec h l l' : pod_wf h -> sh_off h + sh_size h + sh_align h < 2 ^ 64 -> 0 <= executable_len l < 2 ^ 64 ->
  (n ← next_multiple (sh_size h) (sh_align h);
   Done (inl (mkLens (Z.max (executable_len l) (sh_off h ⊞ n)) (read_only_len l) (read_write_len l)))) = Done (inl l' : Lens + string) ->
  read_only_len l' = read_only_len l /\ read_write_len l' = read_write_len l /\
  executable_len l <= executable_len l' < 2 ^ 64 /\ sh_off h <= executable_len l'.
Proof.
  intros Hwf Hb Hl H. pose proof (header_range h Hwf). exec_inv H. apply next_multiple_inv in E as [Ha ->]. injection H as <-.
  destruct (next_multiple_of_bounds (sh_size h) (sh_align h)) as [[? ?] _]; [lia..|].
  rewrite wrap_small by (unfold uint_range; lia). cbn. lia.
Qed.

Lemma measure_section_spec p h l l' : allocated p = true -> section_ok p h -> 0 <= executable_len l < 2 ^ 64 ->
  measure_section file p l = Done (inl l') -> measured p h l l'.
Proof.
  intros Hal Hok Hex H. destruct p as [i sh]. destruct Hok as [Hf Ht Hr Hwf Hb _ Htext _]. cbn [fst snd] in *.
  unfold measure_section, measured, allocated in *. cbn [fst snd] in *. rewrite (proj1 (negb_true_iff _) Hal) in H. exec_inv H.
  destruct (has_flag (sh_flags sh) SHF_EXECINSTR) eqn:Eex.
  - destruct (decide (x = Ok (str ".text"))) as [->|Hx].
    + exec_inv H. destruct x as [h'|]; [|done]. exec_inv H. injection H as <-. cbn.
      pose proof (wrap_range 64 (sh_off h' + x) ltac:(lia)) as Hw. unfold uint_range in Hw. split; [done|]. split; [done|]. split; [lia|].
      intros Hn. by destruct Hn.
    + pose proof (measured_resolved (i, sh) h x Hr Hx) as Hm. cbn [fst snd] in Hm. rewrite Hm in H. cbn [mbind exec_bind] in H.
      destruct (measure_exec h l l' Hwf Hb Hex H) as (? & ? & ? & ?). done.
  - assert (x <> Ok (str ".text")) as Hx by (intros ->; by apply Htext).
    pose proof (measured_resolved (i, sh) h x Hr Hx) as Hm. cbn [fst snd] in Hm. rewrite Hm in H. cbn [mbind exec_bind] in H. rewrite Ht in H.
    pose proof (header_range h Hwf). destruct (has_flag (sh_flags sh) SHF_WRITE); exec_inv H;
      apply next_multiple_inv in E0 as [Ha ->]; injection H as <-; cbn; (split; [done|split; [done|split; [lia|done]]]).
Qed.

(** The sizes grow, and by no more than the cost. *)
Lemma measured_room p h l l' c : section_ok p h -> 0 <= c -> lens_room l (cost h + c) -> measured p h l l' ->
  lens_le l l' /\ lens_room l' c.
Proof.
  intros Hok Hc (H1 & H2 & H3 & H4 & H5) Hm. pose proof (header_range h (so_wf _ _ Hok)). unfold cost, lens_le, lens_room, measured in *.
  destruct (has_flag _ SHF_EXECINSTR); [lia|].
  destruct (has_flag _ SHF_WRITE); destruct Hm as (Hm1 & Hm2 & Hal & Hm3);
    [destruct (next_multiple_of_bounds (read_write_len l) (sh_align h)) as [? _]
    |destruct (next_multiple_of_bounds (read_only_len l) (sh_align h)) as [? _]]; try lia;
    rewrite wrap_small in Hm3 by (unfold uint_range; lia); lia.
Qed.

(** ** The second pass *)

(** A run that does not panic, leaves the kernel alone, and ends in [Q] when
    it succeeds. *)
Definition runs {A} (m : M A) (ls : LoadState) (Q : A -> Prop) : Prop :=
  exists ls' r, m ls = Done (ls', r) /\ ls_kernel ls' = ls_kernel ls /\ forall a, r = Ok a -> Q a.

Lemma runs_ret {A} (a : A) ls (Q : A -> Prop) : Q a -> runs (mret a) ls Q.
Proof. intros H. exists ls, (Ok a). split; [done|]. split; [done|]. by intros ? [= <-]. Qed.

Lemma runs_fail {A} e ls (Q : A -> Prop) : runs (m_fail e) ls Q.
Proof. by exists ls, (Err (Message e)). Qed.

Lemma runs_bind {A B} (m : M A) (f : A -> M B) ls R Q :
  runs m ls R -> (forall a ls', ls_kernel ls' = ls_kernel ls -> R a -> runs (f a) ls' Q) -> runs (m ≫= f) ls Q.
Proof.
  intros (ls1 & [a|e] & H1 & K1 & HR) Hf.
  - destruct (Hf a ls1 K1 (HR a eq_refl)) as (ls2 & r & H2 & K2 & HQ). exists ls2, r.
    rewrite (M_bind_ok _ _ _ _ _ H1). split; [done|]. split; [congruence|done].
  - exists ls1, (Err e). rewrite (M_bind_err _ _ _ _ _ H1). done.
Qed.

Lemma runs_exec {A} (m : exec A) a ls (Q : A -> Prop) : m = Done a -> Q a -> runs (m_exec m) ls Q.
Proof. intros -> H. exists ls, (Ok a). split; [done|]. split; [done|]. by intros ? [= <-]. Qed.

Lemma runs_try {A} (m : exec (result A string)) r ls (Q : A -> Prop) : m = Done r -> (forall a, r = Ok a -> Q a) -> runs (m_try m) ls Q.
Proof.
  intros -> H. destruct r as [a|e]; [exists ls, (Ok a)|exists ls, (Err (Message e))]; (split; [done|split; [done|]]); [|done].
  intros ? [= <-]. auto.
Qed.

Lemma runs_weaken {A} (m : M A) ls (Q Q' : A -> Prop) : runs m ls Q -> (forall a, Q a -> Q' a) -> runs m ls Q'.
Proof. intros (ls' & r & H & K & HQ) Hw. exists ls', r. auto. Qed.

Lemma runs_slice m offset len ls : is_current (ls_kernel ls) (k_space (ls_kernel ls)) = true ->
  0 <= offset -> 0 <= len -> offset + len <= mapping_size m ->
  0 <= to_raw (KernelMapping_addr m) -> to_raw (KernelMapping_addr m) + mapping_size m < 2 ^ 64 ->
  runs (m_slice m offset len) ls (fun r => r.2 = len).
Proof.
  intros Hc Ho Hl Hle Ha0 Ha. exists ls. eexists. split; [|split; [done|]].
  - unfold m_slice, KernelMapping_as_slice_mut. rewrite Hc, wrap_small by (unfold uint_range; lia).
    rewrite (proj2 (Z.leb_le (offset + len) _)) by done. cbn [rust_assert mbind exec_bind].
    unfold Address_add, checked_add. rewrite (proj2 (Z.ltb_lt (to_raw (KernelMapping_addr m) + offset) _)) by lia. cbn. done.
  - by intros r [= <-].
Qed.

Lemma Address_add_done a b : 0 <= to_raw a + b < 2 ^ 64 -> exists x, Address_add a b = Done x.
Proof. intros H. unfold Address_add, checked_add. rewrite (proj2 (Z.ltb_lt _ _)) by lia. cbn. eauto. Qed.

Lemma get_data_size h s : pod_wf h -> sh_off h + sh_size h < 2 ^ 64 ->
  get_data h file = Done (Ok (SD_Undefined s)) -> Z.of_nat (length (slice_bytes s)) = sh_size h.
Proof.
  intros Hwf Hb H. pose proof (header_range h Hwf) as (Ho & Hs & _). unfold get_data in H.
  destruct (SectionHeader_get_type h) as [t|] eqn:Et; cbn [try_bind mbind exec_bind] in H; [|done].
  assert (raw_data h file = Done s) as Hraw by (destruct t; exec_cases H; congruence).
  unfold raw_data in Hraw. rewrite Et in Hraw. exec_inv Hraw. apply slice_range_len in Hraw as [Hl _]; [|done].
  rewrite wrap_small in Hl by (unfold uint_range; lia). unfold slice_len in Hl. lia.
Qed.

Lemma runs_store a bs ls : runs (store_bytes a bs) ls (fun _ => True).
Proof. by exists (stored ls a bs), (Ok tt). Qed.

Lemma runs_store_section h dst d ls : pod_wf h -> sh_off h + sh_size h < 2 ^ 64 -> get_data h file = Done d -> dst.2 = sh_size h ->
  runs (store_section file h dst) ls (fun _ => True).
Proof.
  intros Hwf Hb Hd Hdst. unfold store_section. apply runs_bind with (fun x => x = d); [by apply runs_exec with d|].
  intros ? ls1 K1 ->. destruct d as [[]|]; try by apply runs_ret.
  - apply runs_bind with (fun _ => True); [apply runs_store|]. intros. by apply runs_ret.
  - apply runs_bind with (fun _ => True); [|intros; by apply runs_ret]. unfold copy_from_slice.
    apply runs_bind with (fun _ => True); [|intros; apply runs_store]. apply runs_exec with tt; [|done].
    rewrite (get_data_size h s), Hdst, Z.eqb_refl by done. done.
Qed.

Definition env : LoadEnv := mkEnv file maps globals owner.

(** The aligned offset of a data section, and where it ends. *)
Lemma data_offsets off len len' h c : 0 <= off <= len -> 0 < sh_align h -> pod_wf h -> 0 <= c -> len + (cost h + c) < 2 ^ 64 ->
  len' = next_multiple_of 64 len (sh_align h) ⊞ sh_size h ->
  next_multiple off (sh_align h) = Done (next_multiple_of 64 off (sh_align h)) /\
  0 <= next_multiple_of 64 off (sh_align h) /\ next_multiple_of 64 off (sh_align h) + sh_size h <= len' /\ len' < 2 ^ 64.
Proof.
  intros Hoff Hal Hwf Hc Hb ->. pose proof (header_range h Hwf). unfold cost in Hb.
  pose proof (next_multiple_of_mono off len (sh_align h) ltac:(lia) Hal ltac:(lia)).
  destruct (next_multiple_of_bounds len (sh_align h)) as [? _]; [lia..|].
  destruct (next_multiple_of_bounds off (sh_align h)) as [? _]; [lia..|].
  split; [apply next_multiple_ok; lia|]. rewrite wrap_small by (unfold uint_range; lia). lia.
Qed.

(** Storing a data section at its aligned offset. *)
Lemma runs_place h d m off len ls : pod_wf h -> sh_off h + sh_size h < 2 ^ 64 -> get_data h file = Done d ->
  ls_kernel ls = k -> is_current k (k_space k) = true ->
  mapping_of_len (Some m) len -> 0 < sh_size h -> 0 <= off -> off + sh_size h <= len ->
  rust_assert (off <? mapping_size m) = Done tt /\
  (exists a, Address_add (KernelMapping_addr m) off = Done a) /\
  runs (m_slice m off (sh_size h)) ls (fun r => r.2 = sh_size h).
Proof.
  intros Hwf Hb Hd Hk Hcur (Hm1 & Hm2 & Hm3) Hs Ho Hle. split; [|split].
  - by rewrite (proj2 (Z.ltb_lt _ _)) by lia.
  - apply Address_add_done. lia.
  - apply runs_slice; [by rewrite Hk|lia..].
Qed.

Lemma load_rodata_runs i h name kind g err m st ls d l l' c : maps_ok -> ls_kernel ls = k -> read_only maps = Some m ->
  pod_wf h -> sh_off h + sh_size h < 2 ^ 64 -> get_data h file = Done d -> 0 < sh_size h -> 0 < sh_align h ->
  offsets_ok l st -> 0 <= c -> lens_room l (cost h + c) -> read_only_len l' <= read_only_len final ->
  read_write_len l' = read_write_len l -> read_only_len l' = next_multiple_of 64 (read_only_len l) (sh_align h) ⊞ sh_size h ->
  runs (load_rodata env i h name kind g err m st) ls (offsets_ok l').
Proof.
  intros [_ Hro _ Hcur] Hk Em Hwf Hb Hd Hs Hal [Hoff1 Hoff2] Hc (_ & _ & Hroom & _) Hfin Hrw Hlen. rewrite Em in Hro.
  destruct (data_offsets (rodata_offset st) (read_only_len l) (read_only_len l') h c) as (Hn & Hn0 & Hend & Hlt); [done..|].
  unfold load_rodata. apply runs_bind with (fun x => x = next_multiple_of 64 (rodata_offset st) (sh_align h)); [by eapply runs_exec|].
  intros ? ls1 K1 ->. destruct (runs_place h d m (next_multiple_of 64 (rodata_offset st) (sh_align h)) (read_only_len final) ls1) as (H1 & (a & H2) & H3);
    try done; [congruence|lia|].
  apply runs_bind with (fun _ => True); [by eapply runs_exec|]. intros _ ls2 K2 _.
  apply runs_bind with (fun _ => True); [by eapply runs_exec|]. intros a' ls3 K3 _.
  apply runs_bind with (fun r => r.2 = sh_size h).
  { destruct Hro as (Hm1 & Hm2 & Hm3). apply runs_slice; [|lia..]. replace (ls_kernel ls3) with k by congruence. done. }
  intros slice ls4 K4 Hsl. apply runs_bind with (fun _ => True); [by eapply runs_store_section|]. intros [u|] ls5 K5 _; [|apply runs_fail].
  apply runs_ret. unfold offsets_ok. cbn [rodata_offset data_offset set_rodata_offset insert_section].
  rewrite wrap_small by (unfold uint_range; lia). rewrite Hrw. lia.
Qed.

Lemma offsets_grow l l' st : lens_le l l' -> offsets_ok l st -> offsets_ok l' st.
Proof. unfold lens_le, offsets_ok. lia. Qed.

Lemma load_data_runs i name h m st ls d l l' c : lens_le l l' -> maps_ok -> ls_kernel ls = k -> read_write maps = Some m ->
  pod_wf h -> sh_off h + sh_size h < 2 ^ 64 -> get_data h file = Done d ->
  0 < sh_size h \/ symbol_name_after_prefix name (if has_type h NoBits then ".bss." else ".data.") = SkipSection -> 0 < sh_align h ->
  offsets_ok l st -> 0 <= c -> lens_room l (cost h + c) -> read_write_len l' <= read_write_len final ->
  read_only_len l' = read_only_len l -> read_write_len l' = next_multiple_of 64 (read_write_len l) (sh_align h) ⊞ sh_size h ->
  runs (load_data demangle env i name h st) ls (offsets_ok l').
Proof.
  intros Hgrow [_ _ Hrwm Hcur] Hk Em Hwf Hb Hd Hs Hal [Hoff1 Hoff2] Hc (_ & _ & _ & _ & Hroom) Hfin Hro Hlen. rewrite Em in Hrwm.
  destruct (data_offsets (data_offset st) (read_write_len l) (read_write_len l') h c) as (Hn & Hn0 & Hend & Hlt); [done..|].
  unfold load_data. cbn [env le_maps le_file le_globals le_owner]. rewrite Em.
  destruct (symbol_name_after_prefix name _) as [nm| |e] eqn:En; [|apply runs_ret|apply runs_fail].
  2:{ by apply (offsets_grow l l'). }
  destruct Hs as [Hs|Hs]; [|done].
  apply runs_bind with (fun x => x = next_multiple_of 64 (data_offset st) (sh_align h)); [by eapply runs_exec|].
  intros ? ls1 K1 ->. destruct (runs_place h d m (next_multiple_of 64 (data_offset st) (sh_align h)) (read_write_len final) ls1) as (H1 & (a & H2) & H3);
    try done; [congruence|lia|].
  apply runs_bind with (fun _ => True); [by eapply runs_exec|]. intros _ ls2 K2 _.
  apply runs_bind with (fun _ => True); [by eapply runs_exec|]. intros a' ls3 K3 _.
  apply runs_bind with (fun r => r.2 = sh_size h).
  { destruct Hrwm as (Hm1 & Hm2 & Hm3). apply runs_slice; [|lia..]. replace (ls_kernel ls3) with k by congruence. done. }
  intros slice ls4 K4 Hsl. apply runs_bind with (fun _ => True); [by eapply runs_store_section|]. intros [u|] ls5 K5 _; [|apply runs_fail].
  apply runs_ret. unfold offsets_ok. cbn [rodata_offset data_offset set_data insert_section].
  rewrite wrap_small by (unfold uint_range; lia). rewrite Hro. lia.
Qed.

Lemma load_text_runs i name h st ls l : maps_ok -> pod_wf h ->
  (name <> str ".text" -> sh_off h <= executable_len final) -> offsets_ok l st ->
  runs (load_text demangle env i name h st) ls (offsets_ok l).
Proof.
  intros [Hex _ _ _] Hwf Hoff Hst. pose proof (header_range h Hwf) as (Ho & _). unfold load_text. cbn [env le_maps].
  destruct (executable maps) as [m|] eqn:Em; [|by apply runs_ret].
  destruct (symbol_name_after_prefix name ".text.") as [nm| |e] eqn:En; [|by apply runs_ret|apply runs_fail].
  assert (name <> str ".text") as Hn by (intros ->; vm_compute in En; done). specialize (Hoff Hn). destruct Hex as (Hm1 & Hm2 & Hm3).
  apply runs_bind with (fun _ => True).
  { destruct (_ && _); [|by apply runs_ret]. eapply runs_try; done. }
  intros nm' ls1 _ _. destruct (Address_add_done (KernelMapping_addr m) (sh_off h)) as [a Ha]; [lia|].
  apply runs_bind with (fun _ => True); [by eapply runs_exec|]. intros. by apply runs_ret.
Qed.

Lemma load_section_runs p h st ls l l' c : allocated p = true -> section_ok p h -> maps_ok -> ls_kernel ls = k ->
  (exists n, SectionHeader_get_name p.2 file = Done n) -> measured p h l l' ->
  offsets_ok l st -> 0 <= c -> lens_room l (cost h + c) -> lens_le l' final ->
  runs (load_section demangle env p st) ls (offsets_ok l').
Proof.
  intros Hal Hok Hmaps Hk (n & Hn) Hm Hst Hc Hroom (Hf1 & Hf2 & Hf3).
  destruct (measured_room p h l l' c Hok Hc Hroom Hm) as [Hgrow _]. pose proof (offsets_grow l l' st Hgrow Hst) as Hst'.
  destruct Hok as [Hf Ht Hr Hwf Hb Hd Htext Hsz]. pose proof (header_range h Hwf) as (Ho & Hs & Ha).
  destruct p as [i sh]. unfold measured, placeholder, allocated in *. cbn [fst snd] in *.
  unfold load_section. rewrite (proj1 (negb_true_iff _) Hal). cbn [env le_file]. rewrite Ht.
  apply runs_bind with (fun a => n = Ok a); [eapply runs_try; done|]. intros name ls1 K1 ->.
  apply runs_bind with (fun a => a = h); [eapply runs_try; [done|by intros ? [= <-]]|]. intros ? ls2 K2 ->.
  destruct (has_flag (sh_flags sh) SHF_EXECINSTR) eqn:Eex.
  - rewrite Hf by done. cbn [andb negb]. destruct Hm as (Hm1 & Hm2 & Hm3 & Hm4).
    apply load_text_runs; [done|done| |done].
    intros Hne. assert (sh_off h <= executable_len l'); [apply Hm4; congruence|lia].
  - cbn [andb]. destruct (Hd eq_refl) as [d Hdata]. specialize (Hsz name Hn).
    destruct (has_flag (sh_flags sh) SHF_WRITE); destruct Hm as (Hm1 & Hm2 & Hal' & Hm3).
    + destruct (read_write maps) as [m|] eqn:Em.
      * apply (load_data_runs i name h m st ls2 d l l' c); try done; [congruence|lia].
      * unfold load_data. cbn [env le_maps]. rewrite Em. by apply runs_ret.
    + unfold load_read_only. cbn [env le_maps le_globals]. destruct (read_only maps) as [m|] eqn:Em.
      2:{ repeat (case_match; try apply runs_fail; try by apply runs_ret). }
      assert (forall name' kind g err, 0 < sh_size h -> runs (load_rodata env i h name' kind g err m st) ls2 (offsets_ok l')) as Hrun.
      { intros name' kind g err Hpos. apply (load_rodata_runs i h name' kind g err m st ls2 d l l' c); try done; [congruence|lia]. }
      destruct (starts_with name (str ".rodata")) eqn:Ero.
      { destruct (symbol_name_after_prefix name ".rodata.") as [nm| |e] eqn:Enm; [|by apply runs_ret|apply runs_fail].
        apply Hrun. by destruct Hsz as [|[_ ?]]. }
      assert (0 < sh_size h) as Hpos by (by destruct Hsz as [|[? _]]).
      destruct (starts_with name (str ".lrodata")).
      { destruct (symbol_name_after_prefix name ".lrodata.") as [nm| |e]; [by apply Hrun|by apply runs_ret|apply runs_fail]. }
      destruct (starts_with name (str ".gcc_except_table")); [by apply Hrun|].
      destruct (bool_decide _); [by apply Hrun|apply runs_fail].
Qed.

Lemma measure_skip p l : allocated p = false -> measure_section file p l = Done (inl l).
Proof. destruct p as [i sh]. unfold allocated, measure_section. cbn [snd]. intros H%negb_false_iff. by rewrite H. Qed.

Lemma measured_name p l l' : allocated p = true -> measure_section file p l = Done (inl l') ->
  exists n, SectionHeader_get_name p.2 file = Done n.
Proof.
  destruct p as [i sh]. unfold allocated, measure_section. cbn [snd]. intros H%negb_true_iff. rewrite H. intros Hm. exec_inv Hm. eauto.
Qed.

Lemma measure_all_grows ps c : sections_ok ps c -> forall l, lens_room l c ->
  for_ret ps (measure_section file) l = Done (inl final) -> lens_le l final.
Proof.
  induction 1 as [|p ps c Hal _ IH|p ps h c Hal Hp Hps IH]; intros l Hroom H; cbn [for_ret] in H.
  - injection H as ->. unfold lens_le. lia.
  - rewrite measure_skip in H by done. by apply IH.
  - exec_inv H. destruct x as [l'|]; [|done]. pose proof (sections_ok_nonneg ps c Hps) as Hc.
    apply measure_section_spec with (h := h) in E; [|done|done|apply Hroom].
    destruct (measured_room p h l l' c Hp Hc Hroom E) as [Hle Hroom']. specialize (IH l' Hroom' H). unfold lens_le in *. lia.
Qed.

Lemma load_all_runs ps c : sections_ok ps c -> maps_ok -> forall l st ls, lens_room l c -> ls_kernel ls = k -> offsets_ok l st ->
  for_ret ps (measure_section file) l = Done (inl final) ->
  runs (m_for ps (load_section demangle env) st) ls (offsets_ok final).
Proof.
  intros Hps Hmaps. induction Hps as [|p ps c Hal _ IH|p ps h c Hal Hp Hps IH]; intros l st ls Hroom Hk Hst H; cbn [for_ret m_for] in *.
  - apply runs_ret. by injection H as <-.
  - rewrite measure_skip in H by done. apply runs_bind with (fun st' => st' = st).
    + destruct p as [i sh]. unfold load_section, allocated in *. cbn [snd] in Hal. apply negb_false_iff in Hal. rewrite Hal. by apply runs_ret.
    + intros ? ls' K ->. apply (IH l); [done|congruence|done|done].
  - exec_inv H. destruct x as [l'|]; [|done]. pose proof (sections_ok_nonneg ps c Hps) as Hc.
    destruct (measured_name p l l' Hal E) as [n Hn].
    apply measure_section_spec with (h := h) in E; [|done|done|apply Hroom].
    destruct (measured_room p h l l' c Hp Hc Hroom E) as [Hle Hroom'].
    pose proof (measure_all_grows ps c Hps l' Hroom' H) as Hfin.
    apply runs_bind with (offsets_ok l'); [by apply (load_section_runs p h st ls l l' c); eauto|].
    intros st' ls' K Hst'. apply (IH l'); [done|congruence|done|done].
Qed.
End layout.


(** ** What stays registered *)

Section registered.
Context (demangle demangle_full : list Z -> list Z) (unicode_alphanumeric : list Z -> bool)
  (root_object_map : list (list Z * list Z)) (vec_addr : nat -> Z).

(** A load, nested loads included, never replaces another object; when it
    succeeds the object it returns is the one registered under its name. *)
Theorem load_object_registers name s s' r :
  load_object demangle demangle_full unicode_alphanumeric root_object_map vec_addr name s = Done (s', r) ->
  (forall n o, n <> name -> objects (ls_loader s) !! n = Some o -> objects (ls_loader s') !! n = Some o) /\
  (forall id, r = Ok id -> objects (ls_loader s') !! name = Some id).
Proof.
  intros H. apply M_bind_inv in H as (s1 & r1 & H1 & H2). apply m_read_object_spec in H1 as (-> & _ & _).
  destruct r1 as [bytes|e]; [|destruct H2 as [-> ->]; split; [done|congruence]].
  destruct (load_object_impl_spec demangle demangle_full unicode_alphanumeric root_object_map vec_addr (load_fuel root_object_map)
    (size (loadable root_object_map)) (loadable_size root_object_map) name bytes (delete name (objects (ls_loader s))) (lookup_delete_eq _ _) s s' r)
    as ([_ Hsub] & _ & Hid); [|done|].
  { split; [unfold room; apply subseteq_size; set_solver|apply delete_subseteq]. }
  split; [|done]. intros n o Hn Ho. eapply lookup_weaken; [|exact Hsub]. by rewrite lookup_delete_ne.
Qed.

(** When an object's sections could be loaded but its relocation fails, the
    object stays registered: later lookups take it for loaded. *)
Theorem failed_load_stays name bytes s s1 s' id file e :
  load_object_sections demangle demangle_full name bytes s = Done (s1, Ok (id, file)) ->
  load_object_impl demangle demangle_full unicode_alphanumeric root_object_map vec_addr (load_fuel root_object_map) name bytes s = Done (s', Err e) ->
  get_object (ls_loader s') name = Some id.
Proof.
  intros H1 H. unfold load_fuel in H. cbn [load_object_impl] in H. rewrite (M_bind_ok _ _ _ _ _ H1) in H. cbn beta iota in H.
  erewrite M_bind_ok in H by done. erewrite M_bind_ok in H by done. apply M_bind_inv in H as (s2 & r2 & H2 & H3).
  destruct r2 as [[]|e']; [done|]. destruct H3 as [-> _].
  apply (relocate_spec demangle demangle_full unicode_alphanumeric root_object_map vec_addr _ (size (loadable root_object_map)) {[name := id]}) in H2
    as [[_ Hsub] _].
  - unfold get_object. eapply lookup_weaken; [|exact Hsub]. by rewrite lookup_singleton_eq.
  - intros Hn0. pose proof (loadable_size root_object_map) as Hsz. unfold load_fuel in Hsz. apply load_object_impl_spec. lia.
  - split; [unfold room; apply subseteq_size; set_solver|]. apply map_singleton_subseteq_l. cbn. apply lookup_insert_eq.
Qed.
End registered.

(** ** Looking sections up *)

(** The range map stays sorted by address and size, and insertion is the
    insertion of a map. *)
Definition key_lt (a b : Z * Z) : Prop := a.1 < b.1 \/ (a.1 = b.1 /\ a.2 < b.2).

Inductive by_addr_sorted : list ((Z * Z) * SecRef) -> Prop :=
  | sorted_nil : by_addr_sorted []
  | sorted_cons k v m : Forall (fun p => key_lt k p.1) m -> by_addr_sorted m -> by_addr_sorted ((k, v) :: m).

Lemma key_compare_spec a b : match key_compare a b with Lt => key_lt a b | Eq => a = b | Gt => key_lt b a end.
Proof.
  destruct a as [a1 a2], b as [b1 b2]. unfold key_compare, key_lt. cbn.
  destruct (Z.compare_spec a1 b1) as [->|H|H]; [|lia..]. destruct (Z.compare_spec a2 b2) as [->|H|H]; [done|lia..].
Qed.

Lemma key_lt_trans a b c : key_lt a b -> key_lt b c -> key_lt a c.
Proof. unfold key_lt. lia. Qed.

Lemma btree_insert_elem k v m : by_addr_sorted m -> forall k' v',
  (k', v') ∈ btree_insert k v m <-> (k', v') = (k, v) \/ (k' <> k /\ (k', v') ∈ m).
Proof.
  induction 1 as [|k0 v0 m Hk _ IH]; intros k' v'; cbn [btree_insert].
  - rewrite elem_of_cons, elem_of_nil. tauto.
  - pose proof (key_compare_spec k k0) as Hc. destruct (key_compare k k0).
    + subst k0. rewrite !elem_of_cons. split; [|intros [->|[? [[=]|?]]]; [by left|done|by right]].
      intros [->|Hin]; [by left|]. destruct (decide (k' = k)) as [->|]; [|right; auto].
      rewrite Forall_forall in Hk. specialize (Hk _ Hin). unfold key_lt in Hk. cbn in Hk. lia.
    + rewrite elem_of_cons. split; [|intros [->|[? ?]]; [by left|by right]]. intros [->|Hin]; [by left|]. right. split; [|done]. intros ->.
      apply elem_of_cons in Hin as [[= -> ->]|Hin]; [unfold key_lt in Hc; lia|].
      rewrite Forall_forall in Hk. specialize (Hk _ Hin). unfold key_lt in *. cbn in Hk. lia.
    + rewrite elem_of_cons, IH, elem_of_cons. split.
      * intros [[= -> ->]|[?|[? ?]]]; [|by left|auto]. right. split; [|by left]. intros ->. unfold key_lt in Hc. lia.
      * intros [?|[? [?|?]]]; auto.
Qed.

Lemma btree_insert_sorted k v m : by_addr_sorted m -> by_addr_sorted (btree_insert k v m).
Proof.
  intros Hm. induction Hm as [|k0 v0 m Hk Hm IH]; cbn [btree_insert]; [repeat constructor|].
  pose proof (key_compare_spec k k0) as Hc. destruct (key_compare k k0).
  - subst k0. by constructor.
  - constructor; [|by constructor]. constructor; [done|]. eapply Forall_impl; [exact Hk|]. intros p Hp. by eapply key_lt_trans.
  - constructor; [|done]. apply Forall_forall. intros [k' v'] Hin. apply btree_insert_elem in Hin as [[= -> ->]|[_ Hin]]; [done| |done].
    rewrite Forall_forall in Hk. by apply (Hk (k', v')).
Qed.

Definition range_contains (a : Z) (p : (Z * Z) * SecRef) : bool := (p.1.1 <=? a) && (a <? p.1.1 + p.1.2).

(** The section found for an address is the first range that contains it, and
    there is none only if no range does. *)
Theorem section_for_addr_spec l addr :
  (forall p, p ∈ sections_by_addr l -> canonical (mkAddress (p.1.1 + p.1.2))) ->
  get_section_for_addr l addr =
    Done ((fun x => x.2.2) <$> list_find (fun p => range_contains (to_raw addr) p = true) (sections_by_addr l)).
Proof.
  unfold get_section_for_addr. induction (sections_by_addr l) as [|[[a n] r] m IH]; intros Hm; [done|].
  cbn [find_by_addr list_find]. pose proof (Hm ((a, n), r) ltac:(left)) as Hc. cbn [fst snd] in Hc.
  pose proof (canonical_range _ Hc) as Hr. unfold uint_range in Hr. cbn [to_raw] in Hr.
  specialize (IH (fun p Hp => Hm p (list_elem_of_further _ _ _ Hp))).
  assert ((if a <=? to_raw addr then end_ ← Address_add (mkAddress a) n;
           if to_raw addr <? to_raw end_ then Done (Some r) else find_by_addr m addr else find_by_addr m addr) =
          if range_contains (to_raw addr) ((a, n), r) then Done (Some r) else find_by_addr m addr) as ->.
  { unfold range_contains. cbn [fst snd]. destruct (a <=? to_raw addr); [|done]. unfold Address_add, checked_add. cbn [to_raw].
    rewrite (proj2 (Z.ltb_lt (a + n) _)) by lia. cbn [unwrap fmap exec_fmap mbind exec_bind andb]. rewrite Address_new_id by done. done. }
  rewrite IH. destruct (range_contains (to_raw addr) ((a, n), r)) eqn:E.
  - by rewrite decide_True.
  - rewrite decide_False by congruence. by destruct (list_find _ m) as [[? ?]|].
Qed.

(** ** Registering sections *)

(** The names that hold a section after registering a list: a global section
    is found under its name, unless a later one of the list took it; other
    names keep what they had. The number returned is how many names are new. *)
Lemma add_sections_app l c xs : foldl (fun st p => add_section p st) (l, c) xs =
  ((add_sections l xs).1, c + (add_sections l xs).2).
Proof.
  unfold add_sections. assert (forall c d, foldl (fun st p => add_section p st) (l, c + d) xs =
    ((foldl (fun st p => add_section p st) (l, d) xs).1, c + (foldl (fun st p => add_section p st) (l, d) xs).2)) as H.
  { revert l. induction xs as [|[r x] xs IH]; intros l c' d; [done|]. cbn [foldl]. unfold add_section at 2 4 6.
    destruct (os_global x); [|apply IH]. cbn [sections upd_by_addr]. destruct (sections l !! os_name x); [apply IH|].
    rewrite <-Z.add_assoc. apply IH. }
  specialize (H c 0). by rewrite Z.add_0_r in H.
Qed.

Theorem add_sections_names xs l :
  (forall n, (forall r x, (r, x) ∈ xs -> os_global x = true -> os_name x <> n) -> sections (add_sections l xs).1 !! n = sections l !! n) /\
  (forall r x, (r, x) ∈ xs -> os_global x = true ->
     exists r' x', sections (add_sections l xs).1 !! os_name x = Some r' /\ (r', x') ∈ xs /\ os_name x' = os_name x) /\
  (add_sections l xs).2 = Z.of_nat (size (dom (sections (add_sections l xs).1))) - Z.of_nat (size (dom (sections l))).
Proof.
  revert l. induction xs as [|[r x] xs IH]; intros l.
  { split; [done|]. split; [by intros ? ? ?%elem_of_nil|]. cbn. lia. }
  assert (add_sections l ((r, x) :: xs) = ((add_sections (add_section (r, x) (l, 0)).1 xs).1,
    (add_section (r, x) (l, 0)).2 + (add_sections (add_section (r, x) (l, 0)).1 xs).2)) as E.
  { unfold add_sections at 1. cbn [foldl]. destruct (add_section (r, x) (l, 0)) as [l1 c1]. apply add_sections_app. }
  rewrite E. cbn [fst snd]. clear E. set (l1 := (add_section (r, x) (l, 0)).1). destruct (IH l1) as (H1 & H2 & H3).
  assert (sections l1 = if os_global x then <[os_name x := r]> (sections l) else sections l) as Es
    by (unfold l1, add_section; by destruct (os_global x)).
  split; [|split].
  - intros n Hn. rewrite H1 by (intros r' x' Hin; apply (Hn r'); by right). rewrite Es.
    destruct (os_global x) eqn:Eg; [|done]. rewrite lookup_insert_ne; [done|]. apply (Hn r); [by left|done].
  - intros r0 x0 Hin Hg. apply elem_of_cons in Hin as [[= -> ->]|Hin].
    + destruct (decide (Exists (fun p : SecRef * ObjSection => os_global p.2 = true /\ os_name p.2 = os_name x) xs)) as [Hex|Hex].
      * apply Exists_exists in Hex as ([r' x'] & Hin & Hg' & Hname). cbn in *. destruct (H2 r' x' Hin Hg') as (r2 & x2 & ? & ? & ?).
        exists r2, x2. split; [congruence|]. split; [by right|congruence].
      * exists r, x. split; [|split; [by left|done]]. rewrite H1; [by rewrite Es, Hg, lookup_insert_eq|].
        intros r' x' Hin Hg' Hname. apply Hex, Exists_exists. by exists (r', x').
    + destruct (H2 r0 x0 Hin Hg) as (r2 & x2 & ? & ? & ?). exists r2, x2. split; [done|]. split; [by right|done].
  - rewrite H3, Es. unfold add_section. destruct (os_global x); cbn [snd sections upd_by_addr]; [|lia].
    rewrite dom_insert_L. destruct (sections l !! os_name x) eqn:El.
    + assert ({[os_name x]} ∪ dom (sections l) = dom (sections l)) as ->.
      { apply elem_of_dom_2 in El. set_solver. } lia.
    + apply not_elem_of_dom in El.
      assert (size ({[os_name x]} ∪ dom (sections l)) = size (C := gset (list Z)) {[os_name x]} + size (dom (sections l)))%nat as -> by (apply size_union; set_solver).
      rewrite size_singleton. lia.
Qed.

(** ** An object file: a function [main] whose first word refers to a variable *)

Definition prog_names : list Z :=
  0 :: str ".text.main" ++ 0 :: str ".rela.text.main" ++ 0 :: str ".data.x" ++ 0 :: str ".symtab" ++ 0 :: str ".strtab" ++ 0 :: str ".shstrtab" ++ [0].
Definition prog_strtab : list Z := 0 :: str "main" ++ 0 :: str "x" ++ [0].
Definition prog_symbols : list SymbolTableEntry := [mkSym 0 0 0 0 0 0; mkSym 1 0x12 0 1 0 8; mkSym 6 0x01 0 3 0 8].
Definition prog_relas : list Rela := [mkRela 0 (2 * 2 ^ 32 + 1) 5].
Definition prog_blob : list Z :=
  pad8 ([1; 2; 3; 4; 5; 6; 7; 8] ++ [9; 9; 9; 9; 9; 9; 9; 9] ++ encode_array prog_relas ++ encode_array prog_symbols ++ prog_strtab ++ prog_names).
Definition prog_headers : list SectionHeader := [
  mkSectionHeader 0 0 0 0 0 0 0 0 0 0;
  mkSectionHeader 1 1 6 0 64 8 0 0 8 0;
  mkSectionHeader 12 4 0 0 80 24 4 1 8 24;
  mkSectionHeader 28 1 3 0 72 8 0 0 8 0;
  mkSectionHeader 36 2 0 0 104 72 5 1 8 24;
  mkSectionHeader 44 3 0 0 176 8 0 0 1 0;
  mkSectionHeader 52 3 0 0 184 62 0 0 1 0].
Definition prog_body : HeaderBody := mkBody 1 62 1 0 0 (64 + Z.of_nat (length prog_blob)) 0 64 0 0 64 7 6.
Definition prog_bytes : list Z := elf_image example_ident prog_body prog_blob prog_headers.
Definition prog_file : ElfFile := mkElf (mkSlice 4096 prog_bytes) (mkHeader example_ident prog_body).

Lemma prog_headers_wf : Forall pod_wf prog_headers.
Proof. repeat constructor; cbn; unfold uint_range; lia. Qed.

Lemma prog_body_wf : pod_wf prog_body.
Proof. repeat constructor; cbn; unfold uint_range; lia. Qed.

Lemma prog_table : table_ok prog_file /\ section_headers prog_file = prog_headers.
Proof.
  apply image_table; auto using example_ident_wf, prog_headers_wf, prog_body_wf; try reflexivity; cbn; unfold SHN_LORESERVE; lia.
Qed.

Definition same (x : list Z) : list Z := x.

(** It is loaded from the boot file system into an address space of a machine
    with 64 free frames: [main] is global, and its first word becomes the
    address of [x] plus five. *)
Definition prog_objects : list (list Z * list Z) := [(str "main", prog_bytes)].

Definition prog_load (s : LoadState) : exec (LoadState * result nat LoadError) :=
  load_object same same no_unicode prog_objects (fun _ => 4096) (str "main") s.

Definition prog_state (fa : FrameAllocator) : LoadState :=
  mkLoad (small_kernel fa) (mkSpace "p" (Frame_new 3) []) (Page_new 7) (Loader_new (fun _ => 0)).

Definition prog_result (s : LoadState) (id : nat) : option (list (list Z * SecRef) * Z * option Address) :=
  m ← upgrade (ls_loader s) (id, 1);
  Some (map_to_list (sections (ls_loader s)), read_word (contents (ls_loader s)) (to_raw (os_addr m)),
        os_addr <$> upgrade (ls_loader s) (id, 3)).

Definition prog_run : option (list (list Z * SecRef) * Z * option Address) :=
  match FrameAllocator_init small_map FrameAllocator_new ≫= fun fa => prog_load (prog_state fa) with
  | Done (s, Ok id) => prog_result s id
  | _ => None
  end.

Example prog_linked : prog_run =
  Some ([(str "main", (0%nat, 1))], 18446742974197927941, Some (mkAddress 18446742974197927936)).
Proof. vm_compute. reflexivity. Qed.

(** ** Witnesses *)

Definition prog_kernel : LoadState := prog_state FrameAllocator_new.

Lemma relocation_value_witness : exists s',
  write_relocation (mkRela 0 (2 * 2 ^ 32 + 24) 5) (mkAddress 4096, 32) 8 (mkAddress 100) prog_kernel = Done (s', Ok tt) /\
  read_word (contents (ls_loader s')) 4104 = (100 + 5 - 4104) mod 2 ^ 64.
Proof.
  destruct (relocation_value (mkRela 0 (2 * 2 ^ 32 + 24) 5) (mkAddress 4096, 32) 8 (mkAddress 100) prog_kernel)
    as (s' & H1 & H2 & _); [done|done|done|by right|]. exists s'. split; [exact H1|exact H2].
Defined.

Lemma relocation_unsupported_witness : exists msg,
  write_relocation (mkRela 0 (2 * 2 ^ 32 + 2) 5) (mkAddress 4096, 32) 8 (mkAddress 100) prog_kernel = Done (prog_kernel, Err (Message msg)).
Proof. apply relocation_unsupported; vm_compute; discriminate. Defined.

Definition prog_mapping (name : string) (len p : Z) : KMapping := mkMapping name len (mkRange (Page_new p) (Page_new (p + 1))) PRESENT.
Definition prog_maps : SectionMappings := mkMappings (Some (prog_mapping "main.x" 72 7)) None (Some (prog_mapping "main.w" 8 8)).

Lemma prog_sections_ok : sections_ok prog_file (zip (seqZ 0 (Z.of_nat (length (section_headers prog_file)))) (section_headers prog_file)) 32.
Proof.
  rewrite (proj2 prog_table).
  assert (forall i h, In h prog_headers -> 0 < sh_size h -> has_flag (sh_flags h) SHF_TLS = false ->
    sh_off h + sh_size h + sh_align h < 2 ^ 64 ->
    (has_flag (sh_flags h) SHF_EXECINSTR = false -> exists d, get_data h prog_file = Done d) ->
    (has_flag (sh_flags h) SHF_EXECINSTR = true -> has_flag (sh_flags h) SHF_WRITE = false) ->
    (has_flag (sh_flags h) SHF_EXECINSTR = false -> SectionHeader_get_name h prog_file <> Done (Ok (str ".text"))) ->
    section_ok prog_file (i, h) h) as Hsec.
  { intros i h Hin Hs Ht Hb Hd Hw Htext. split; try done.
    - unfold resolve_section. cbn [fst snd]. by rewrite (proj2 (Z.eqb_neq (sh_size h) 0)) by lia.
    - pose proof prog_headers_wf as Hwf. rewrite Forall_forall in Hwf. by apply Hwf, list_elem_of_In.
    - by left. }
  change (seqZ 0 (Z.of_nat (length prog_headers))) with [0; 1; 2; 3; 4; 5; 6].
  change 32 with (16 + (16 + 0)). unfold prog_headers. cbn [zip zip_with].
  apply ok_skip; [done|]. apply (ok_cons _ _ _ (mkSectionHeader 1 1 6 0 64 8 0 0 8 0)); [done| |].
  { apply Hsec; try done. unfold prog_headers. cbn [In]. tauto. }
  apply ok_skip; [done|]. apply (ok_cons _ _ _ (mkSectionHeader 28 1 3 0 72 8 0 0 8 0)); [done| |].
  { apply Hsec; try done; [unfold prog_headers; cbn [In]; tauto|]; intros _; eexists; vm_compute; reflexivity. }
  do 3 (apply ok_skip; [done|]). apply ok_nil.
Qed.


Definition small_frames : FrameAllocator :=
  match FrameAllocator_init small_map FrameAllocator_new with Done fa => fa | Panic => FrameAllocator_new end.

Definition ends_ok {A} (check : A -> bool) (m : exec (LoadState * result A LoadError)) : bool :=
  match m with Done (_, Ok a) => check a | _ => false end.
Definition ends_err {A} (m : exec (LoadState * result A LoadError)) : bool :=
  match m with Done (_, Err _) => true | _ => false end.

Lemma ends_ok_inv {A} (check : A -> bool) m : ends_ok check m = true -> exists s a, m = Done (s, Ok a) /\ check a = true.
Proof. destruct m as [[s [a|e]]|]; try done. by exists s, a. Qed.
Lemma ends_err_inv {A} (m : exec (LoadState * result A LoadError)) : ends_err m = true -> exists s e, m = Done (s, Err e).
Proof. destruct m as [[s [a|e]]|]; try done. by exists s, e. Qed.

Lemma load_object_registers_witness : exists s' id,
  load_object same same no_unicode prog_objects (fun _ => 4096) (str "main") (prog_state small_frames) = Done (s', Ok id) /\
  objects (ls_loader s') !! str "main" = Some id.
Proof.
  destruct (ends_ok_inv (Nat.eqb 0) (load_object same same no_unicode prog_objects (fun _ => 4096) (str "main") (prog_state small_frames))
    ltac:(vm_compute; reflexivity)) as (s' & id & E & _). exists s', id. split; [exact E|].
  exact (proj2 (load_object_registers same same no_unicode prog_objects (fun _ => 4096) (str "main") (prog_state small_frames) s' (Ok id) E) id eq_refl).
Defined.

(** An object whose relocations are for a section that is not loaded. *)
Definition broken_headers : list SectionHeader := [
  mkSectionHeader 0 0 0 0 0 0 0 0 0 0;
  mkSectionHeader 1 1 0 0 64 8 0 0 8 0;
  mkSectionHeader 12 4 0 0 80 24 4 1 8 24;
  mkSectionHeader 28 1 0 0 72 8 0 0 8 0;
  mkSectionHeader 36 2 0 0 104 72 5 1 8 24;
  mkSectionHeader 44 3 0 0 176 8 0 0 1 0;
  mkSectionHeader 52 3 0 0 184 62 0 0 1 0].
Definition broken_slice : Slice := mkSlice 4096 (elf_image example_ident prog_body prog_blob broken_headers).

Lemma failed_load_stays_witness : exists s' id e,
  load_object_impl same same no_unicode [] (fun _ => 4096) (load_fuel []) (str "broken") broken_slice prog_kernel = Done (s', Err e) /\
  get_object (ls_loader s') (str "broken") = Some id.
Proof.
  destruct (ends_ok_inv (fun _ => true) (load_object_sections same same (str "broken") broken_slice prog_kernel) ltac:(vm_compute; reflexivity))
    as (s1 & [id file] & E1 & _).
  destruct (ends_err_inv (load_object_impl same same no_unicode [] (fun _ => 4096) (load_fuel []) (str "broken") broken_slice prog_kernel)
    ltac:(vm_compute; reflexivity)) as (s' & e & E2). exists s', id, e. split; [exact E2|].
  exact (failed_load_stays same same no_unicode [] (fun _ => 4096) (str "broken") broken_slice prog_kernel s1 s' id file e E1 E2).
Defined.

Lemma section_for_addr_spec_witness :
  get_section_for_addr (upd_by_addr (Loader_new (fun _ => 0)) [((4096, 16), (0%nat, 1)); ((4112, 8), (0%nat, 2))]) (mkAddress 4115) =
  Done (Some (0%nat, 2)).
Proof.
  rewrite section_for_addr_spec; [vm_compute; reflexivity|]. intros p Hp. cbn in Hp.
  repeat (apply elem_of_cons in Hp as [->|Hp]; [unfold canonical; cbn; lia|]). by apply elem_of_nil in Hp.
Defined.
