(* ===== verification/Heap.v ===== *)
(** * crates/heap: the linked-list first-fit heap

    Models [llff.rs] and [heap.rs]. The hole list is a singly linked list of
    headers stored in the free memory itself, each reachable only through its
    predecessor; it is modelled as the list of its holes in link order, behind
    the dummy head the allocator owns. Arithmetic wraps at 64 bits. The
    abstract state is the set of free bytes. *)

From Stdlib Require Import Lia.
From stdpp Require Import base numbers list option tactics.
From S2P Require Import Prelude MemoryTypes.

Local Open Scope Z_scope.
Local Open Scope u64_scope.

(** ** Layouts and holes *)

Record Layout : Type := mkLayout { layout_size : Z; layout_align : Z }.

(** [Layout::from_size_align]: the alignment is a power of two and the size
    rounded up to it does not exceed [isize::MAX]. *)
Definition is_power_of_two (n : Z) : bool := (0 <? n) && (2 ^ Z.log2 n =? n).
Definition Layout_from_size_align (size align : Z) : option Layout :=
  if is_power_of_two align && (size <=? 2 ^ 63 - align) then Some (mkLayout size align) else None.

Record HoleInfo : Type := mkHole { hole_addr : Z; hole_size : Z }.

(** [size_of::<Hole>()] and [align_of::<Hole>()]: a [usize] and a reference. *)
Definition MIN_ALLOC_SIZE : Z := 16.
Definition HOLE_ALIGN : Z := 8.

Record Allocation : Type := mkAllocation {
  alloc_info : HoleInfo;
  front_padding : option HoleInfo;
  back_padding : option HoleInfo
}.

Definition align_layout_for_hole (layout : Layout) : exec Layout :=
  let size := layout_size layout in
  let size := if size <? MIN_ALLOC_SIZE then MIN_ALLOC_SIZE else size in
  let size := align_up size HOLE_ALIGN in
  unwrap (Layout_from_size_align size (layout_align layout)).

Definition split_hole (hole : HoleInfo) (required_layout : Layout) : option Allocation :=
  let required_size := layout_size required_layout in
  let required_align := layout_align required_layout in
  let '(aligned_addr, front_padding) :=
    if hole_addr hole =? align_up (hole_addr hole) required_align then (hole_addr hole, None)
    else
      let aligned_addr := align_up (hole_addr hole ⊞ MIN_ALLOC_SIZE) required_align in
      (aligned_addr, Some (mkHole (hole_addr hole) (aligned_addr ⊟ hole_addr hole))) in
  if hole_addr hole ⊞ hole_size hole <? aligned_addr ⊞ required_size then None
  else
    let aligned_hole := mkHole aligned_addr (hole_size hole ⊟ (aligned_addr ⊟ hole_addr hole)) in
    if hole_size aligned_hole =? required_size then
      Some (mkAllocation (mkHole (hole_addr aligned_hole) required_size) front_padding None)
    else if hole_size aligned_hole ⊟ required_size <? MIN_ALLOC_SIZE then None
    else
      Some (mkAllocation (mkHole (hole_addr aligned_hole) required_size) front_padding
        (Some (mkHole (hole_addr aligned_hole ⊞ required_size) (hole_size aligned_hole ⊟ required_size)))).

(** ** The free functions [allocate_first_fit] and [deallocate] *)

(** [ptr.write(Hole {..., next: previous.next.take()}); previous.next = Some(ptr)]. *)
Definition link (padding : option HoleInfo) (next : list HoleInfo) : list HoleInfo :=
  match padding with Some h => h :: next | None => next end.

(** The holes behind [previous], after the call, and the allocated block. *)
Fixpoint allocate_first_fit (holes : list HoleInfo) (layout : Layout) : list HoleInfo * result HoleInfo unit :=
  match holes with
  | [] => ([], Err tt)
  | current :: rest =>
      match split_hole current layout with
      | Some a =>
          (link (front_padding a) (link (back_padding a) rest), Ok (alloc_info a))
      | None => let '(rest', r) := allocate_first_fit rest layout in (current :: rest', r)
      end
  end.

(** The loop at [hole] with the holes [rest] behind it; the dummy head is the
    hole of size 0. *)
Fixpoint deallocate (hole : HoleInfo) (rest : list HoleInfo) (addr size : Z) : exec (HoleInfo * list HoleInfo) :=
  _ ← rust_assert (MIN_ALLOC_SIZE <=? size);
  let haddr := if hole_size hole =? 0 then 0 else hole_addr hole in
  _ ← rust_assert (haddr ⊞ hole_size hole <=? addr);
  match rest with
  | next :: rest' =>
      if (haddr ⊞ hole_size hole =? addr) && (addr ⊞ size =? hole_addr next) then
        Done (mkHole (hole_addr hole) (hole_size hole ⊞ (size ⊞ hole_size next)), rest')
      else if haddr ⊞ hole_size hole =? addr then
        Done (mkHole (hole_addr hole) (hole_size hole ⊞ size), rest)
      else if addr ⊞ size =? hole_addr next then
        deallocate hole rest' addr (size ⊞ hole_size next)
      else if hole_addr next <=? addr then
        '(next', rest'') ← deallocate next rest' addr size;
        Done (hole, next' :: rest'')
      else Done (hole, mkHole addr size :: rest)
  | [] =>
      if haddr ⊞ hole_size hole =? addr then Done (mkHole (hole_addr hole) (hole_size hole ⊞ size), [])
      else Done (hole, [mkHole addr size])
  end.

(** ** [HoleList] and [Heap] *)

Record HoleList : Type := mkHoleList { hl_first : HoleInfo; hl_holes : list HoleInfo }.

Definition HoleList_empty : HoleList := mkHoleList (mkHole 0 0) [].

Definition HoleList_init (haddr hsize : Z) : HoleList :=
  let aligned_hole_addr := align_up haddr HOLE_ALIGN in
  mkHoleList (mkHole 0 0) [mkHole aligned_hole_addr (saturating_sub hsize (aligned_hole_addr ⊟ haddr))].

(** [NonNull::new(..).unwrap()] panics on the null pointer. *)
Definition HoleList_allocate_first_fit (l : HoleList) (layout : Layout)
  : exec (HoleList * result (Z * Layout) unit) :=
  aligned_layout ← align_layout_for_hole layout;
  let '(holes, r) := allocate_first_fit (hl_holes l) aligned_layout in
  match r with
  | Ok info =>
      if hole_addr info =? 0 then Panic
      else Done (mkHoleList (hl_first l) holes, Ok (hole_addr info, aligned_layout))
  | Err e => Done (mkHoleList (hl_first l) holes, Err e)
  end.

Definition HoleList_deallocate (l : HoleList) (ptr : Z) (layout : Layout) : exec (HoleList * Layout) :=
  aligned_layout ← align_layout_for_hole layout;
  '(first, holes) ← deallocate (hl_first l) (hl_holes l) ptr (layout_size aligned_layout);
  Done (mkHoleList first holes, aligned_layout).

Record Heap : Type := mkHeap { heap_used : Z; heap_holes : HoleList }.

Definition Heap_empty : Heap := mkHeap 0 HoleList_empty.

Definition Heap_init (heap_bottom heap_size : Z) (h : Heap) : Heap :=
  mkHeap 0 (HoleList_init heap_bottom heap_size).

Definition Heap_allocate_first_fit (h : Heap) (layout : Layout) : exec (Heap * result Z unit) :=
  '(holes, r) ← HoleList_allocate_first_fit (heap_holes h) layout;
  match r with
  | Ok (ptr, aligned_layout) => Done (mkHeap (heap_used h ⊞ layout_size aligned_layout) holes, Ok ptr)
  | Err e => Done (mkHeap (heap_used h) holes, Err e)
  end.

Definition Heap_deallocate (h : Heap) (ptr : Z) (layout : Layout) : exec Heap :=
  '(holes, aligned_layout) ← HoleList_deallocate (heap_holes h) ptr layout;
  Done (mkHeap (heap_used h ⊟ layout_size aligned_layout) holes).

(** [heap.rs]: the global allocator; its lock is held for the whole call. *)
Definition HEAP_BASE_ADDR : Z := to_raw (AddressDomain_base_addr UserHeap).
Definition HEAP_DEFAULT_SIZE : Z := 8 * MEBIBYTE.

Definition Allocator_new : Heap := Heap_empty.
Definition Allocator_init (base_addr size : Z) (h : Heap) : Heap := Heap_init base_addr size h.

Definition Allocator_alloc (h : Heap) (layout : Layout) : exec (Heap * Z) :=
  '(h, r) ← Heap_allocate_first_fit h layout;
  Done (h, match r with Ok p => p | Err _ => 0 end).

Definition Allocator_dealloc (h : Heap) (ptr : Z) (layout : Layout) : exec Heap := Heap_deallocate h ptr layout.

(** ** Abstraction: free bytes *)

Definition in_hole (h : HoleInfo) (b : Z) : Prop := hole_addr h <= b < hole_addr h + hole_size h.
Definition free_byte (l : list HoleInfo) (b : Z) : Prop := exists h, h ∈ l /\ in_hole h b.

Definition hole_ok (h : HoleInfo) : Prop :=
  MIN_ALLOC_SIZE <= hole_size h /\ (8 | hole_addr h) /\ (8 | hole_size h).

(** Holes in increasing order from [lo] on, never touching, all below [hi]. *)
Fixpoint holes_wf (lo hi : Z) (l : list HoleInfo) : Prop :=
  match l with
  | [] => True
  | h :: l' => hole_ok h /\ lo < hole_addr h /\ hole_addr h + hole_size h <= hi /\
               holes_wf (hole_addr h + hole_size h) hi l'
  end.

(** A request the theorems cover: a power-of-two alignment, and no address
    computation beyond the top of the heap [hi] wraps around. *)
Record layout_ok (hi : Z) (ly : Layout) : Prop := {
  lo_align : exists k, 0 <= k < 62 /\ layout_align ly = 2 ^ k;
  lo_size : 0 <= layout_size ly;
  lo_fits : hi + layout_size ly + layout_align ly + 64 < 2 ^ 64;
  lo_isize : layout_size ly + layout_align ly + 64 < 2 ^ 63
}.

(** The size really allocated. *)
Definition block_size (ly : Layout) : Z := align_up (Z.max (layout_size ly) MIN_ALLOC_SIZE) HOLE_ALIGN.

(** ** Lemmas: splitting *)

Lemma align_up_eq_iff a k : 0 <= k < 64 -> 0 <= a -> a + 2 ^ k - 1 < 2 ^ 64 ->
  (a = align_up a (2 ^ k) <-> (2 ^ k | a)).
Proof.
  intros Hk Ha Hb. split; [|intros; symmetry; by apply align_up_aligned].
  intros E. rewrite E. by apply align_up_bounds.
Qed.

Lemma pow2_div_8 k a : 0 <= k -> (2 ^ k | a) -> (8 | a) \/ (forall b, (8 | b) -> (2 ^ k | b)).
Proof.
  intros Hk Ha. change 8 with (2 ^ 3). destruct (Z.le_gt_cases 3 k).
  - left. eapply Z.divide_trans; [|done]. exists (2 ^ (k - 3)). rewrite <-Z.pow_add_r by lia. f_equal. lia.
  - right. intros b Hb. eapply Z.divide_trans; [|done]. exists (2 ^ (3 - k)). rewrite <-Z.pow_add_r by lia. f_equal. lia.
Qed.

(** A request after [align_layout_for_hole]. *)
Record req_ok (hi : Z) (ly : Layout) : Prop := {
  rq_align : exists k, 0 <= k < 62 /\ layout_align ly = 2 ^ k;
  rq_min : MIN_ALLOC_SIZE <= layout_size ly;
  rq_mult : (8 | layout_size ly);
  rq_fits : hi + layout_size ly + layout_align ly + 32 < 2 ^ 64
}.

(** A block carved out of a hole: what is left in front and behind is nothing
    or a hole of its own. *)
Record split_at (h : HoleInfo) (ly : Layout) (a : Allocation) : Prop := {
  sa_size : hole_size (alloc_info a) = layout_size ly;
  sa_align : (layout_align ly | hole_addr (alloc_info a));
  sa_mult : (8 | hole_addr (alloc_info a));
  sa_front : match front_padding a with
    | None => hole_addr (alloc_info a) = hole_addr h
    | Some f => hole_addr f = hole_addr h /\ hole_addr f + hole_size f = hole_addr (alloc_info a) /\ hole_ok f
    end;
  sa_back : match back_padding a with
    | None => hole_addr (alloc_info a) + layout_size ly = hole_addr h + hole_size h
    | Some b => hole_addr b = hole_addr (alloc_info a) + layout_size ly /\
                hole_addr b + hole_size b = hole_addr h + hole_size h /\ hole_ok b
    end
}.

(** The aligned start of the block and the front padding. *)
Lemma aligned_start h ly hi : hole_ok h -> 0 < hole_addr h -> hole_addr h + hole_size h <= hi -> req_ok hi ly ->
  exists p f, (if hole_addr h =? align_up (hole_addr h) (layout_align ly) then (hole_addr h, None)
     else (align_up (hole_addr h ⊞ MIN_ALLOC_SIZE) (layout_align ly),
           Some (mkHole (hole_addr h) (align_up (hole_addr h ⊞ MIN_ALLOC_SIZE) (layout_align ly) ⊟ hole_addr h)))) = (p, f) /\
    (layout_align ly | p) /\ (8 | p) /\ hole_addr h <= p <= hole_addr h + 16 + layout_align ly /\
    match f with None => p = hole_addr h
    | Some g => hole_addr g = hole_addr h /\ hole_addr g + hole_size g = p /\ hole_ok g end.
Proof.
  intros (Hmin & H8 & Hs8) Hpos Hhi [(k & Hk & Hal) Hrm Hr8 Hfit]. rewrite Hal in *. unfold MIN_ALLOC_SIZE in *.
  assert (0 < 2 ^ k) by lia.
  destruct (hole_addr h =? _) eqn:E; bool_hyps.
  - exists (hole_addr h), None. split; [done|]. apply align_up_eq_iff in E; [|lia..]. split; [done|]. split; [done|]. split; [lia|done].
  - rewrite align_up_eq_iff in E by lia. rewrite (wrap_small 64 (_ + 16)) by (unfold uint_range; lia).
    destruct (align_up_bounds (hole_addr h + 16) k) as [Hd Hle]; [lia..|]. set (p := align_up _ _) in *.
    assert (8 | p) as Hp8 by (destruct (pow2_div_8 k p) as [?|Hb]; [lia|done|done|exfalso; by apply E, Hb]).
    rewrite (wrap_small 64 (p - _)) by (unfold uint_range; lia).
    eexists p, _. split; [reflexivity|]. split; [done|]. split; [done|]. split; [lia|].
    cbn [hole_addr hole_size]. split; [done|]. split; [lia|]. split; [unfold MIN_ALLOC_SIZE; cbn; lia|].
    split; [done|]. by apply Z.divide_sub_r.
Qed.

Lemma split_hole_spec h ly hi a : hole_ok h -> 0 < hole_addr h -> hole_addr h + hole_size h <= hi -> req_ok hi ly ->
  split_hole h ly = Some a -> split_at h ly a.
Proof.
  intros Hok Hpos Hhi Hrq. destruct (aligned_start h ly hi Hok Hpos Hhi Hrq) as (p & f & Epf & Hpa & Hp8 & Hpr & Hf).
  destruct Hok as (Hmin & H8 & Hs8), Hrq as [(k & Hk & Hal) Hrm Hr8 Hfit]. unfold MIN_ALLOC_SIZE in *.
  assert (0 < layout_align ly) by (rewrite Hal; lia). unfold split_hole. cbv zeta. unfold MIN_ALLOC_SIZE. rewrite Epf.
  assert (Hw : wrap 64 (p - hole_addr h) = p - hole_addr h) by (apply wrap_small; unfold uint_range; lia).
  rewrite Hw, !(wrap_small 64 (_ + _)) by (unfold uint_range; lia). cbn [hole_addr hole_size].
  destruct (_ <? _) eqn:E; bool_hyps; [done|].
  assert (wrap 64 (hole_size h - (p - hole_addr h)) = hole_addr h + hole_size h - p) as ->.
  { rewrite wrap_small; [lia|]. unfold uint_range. lia. }
  destruct (_ =? layout_size ly) eqn:E2; bool_hyps.
  - intros [= <-]. split; cbn [alloc_info front_padding back_padding hole_addr hole_size]; [done|done|done|done|lia].
  - rewrite (wrap_small 64 (_ - layout_size ly)) by (unfold uint_range; lia).
    destruct (_ <? 16) eqn:E3; bool_hyps; [done|]. intros [= <-].
    split; cbn [alloc_info front_padding back_padding hole_addr hole_size]; [done|done|done|done|].
    rewrite (wrap_small 64 (p + _)) by (unfold uint_range; lia).
    split; [done|]. split; [lia|]. split; cbn [hole_addr hole_size]; [unfold MIN_ALLOC_SIZE; lia|]. split; [by apply Z.divide_add_r|].
    apply Z.divide_sub_r; [|done]. apply Z.divide_sub_r; [|done]. by apply Z.divide_add_r.
Qed.

(** ** Lemmas: hole lists *)

Lemma free_byte_nil x : free_byte [] x <-> False.
Proof. split; [|done]. intros (h & []%not_elem_of_nil & _). Qed.

Lemma free_byte_cons h l x : free_byte (h :: l) x <-> in_hole h x \/ free_byte l x.
Proof.
  unfold free_byte. split.
  - intros (g & [->|Hg]%elem_of_cons & Hx); [by left|right; eauto].
  - intros [?|(g & ? & ?)]; [exists h; split; [by left|done]|exists g; split; [by right|done]].
Qed.

Lemma holes_wf_bounds lo hi l x : holes_wf lo hi l -> free_byte l x -> lo < x < hi.
Proof.
  revert lo. induction l as [|h l IH]; intros lo; [by intros _ []%free_byte_nil|].
  intros ((Hm & _) & Hlo & Hhi & Hl) [Hx|Hx]%free_byte_cons; unfold in_hole, MIN_ALLOC_SIZE in *; [lia|].
  specialize (IH _ Hl Hx). lia.
Qed.

Lemma holes_wf_lower lo lo' hi l : lo' <= lo -> holes_wf lo hi l -> holes_wf lo' hi l.
Proof. destruct l; [done|]. cbn. intros ? (? & ? & ? & ?). split_and!; [apply H0..|lia|done|done]. Qed.

Lemma wf_pos hi h : hole_ok h -> hole_addr h + hole_size h <= hi -> hole_addr h < hi.
Proof. intros (Hm & _). unfold MIN_ALLOC_SIZE in Hm. lia. Qed.

(** Replacing a hole by what is left of it around a block. *)
Lemma split_at_holes lo hi h l ly a : holes_wf lo hi (h :: l) -> MIN_ALLOC_SIZE <= layout_size ly -> split_at h ly a ->
  let l' := link (front_padding a) (link (back_padding a) l) in
  holes_wf lo hi l' /\ (forall x, in_hole (alloc_info a) x -> in_hole h x) /\
  (forall x, free_byte l' x <-> free_byte (h :: l) x /\ ~ in_hole (alloc_info a) x).
Proof.
  intros (Hok & Hlo & Hhi & Hl) Hmin [Hs _ _ Hf Hb]. cbv zeta. unfold MIN_ALLOC_SIZE in *.
  assert (Hbd : forall x, free_byte l x -> hole_addr h + hole_size h < x < hi) by (intros; by eapply holes_wf_bounds).
  destruct (front_padding a) as [f|], (back_padding a) as [b|]; cbn [link holes_wf].
  all: repeat match goal with H : _ /\ _ |- _ => destruct H end.
  all: split; [|split].
  all: try (intros x; unfold hole_ok, MIN_ALLOC_SIZE, in_hole in *; lia).
  all: try (intros x; rewrite !free_byte_cons; specialize (Hbd x); unfold hole_ok, MIN_ALLOC_SIZE, in_hole in *; intuition lia).
  all: try (by (eapply holes_wf_lower; [|done]; unfold hole_ok, MIN_ALLOC_SIZE in *; lia)).
  all: split_and!; try (done || lia || tauto).
  all: first [eapply holes_wf_lower; [|done]; lia | unfold hole_ok, MIN_ALLOC_SIZE in *; lia].
Qed.

Lemma first_fit_spec l : forall lo hi ly, 0 <= lo -> holes_wf lo hi l -> req_ok hi ly ->
  match allocate_first_fit l ly with
  | (l', Ok b) => holes_wf lo hi l' /\ hole_size b = layout_size ly /\ (layout_align ly | hole_addr b) /\ (8 | hole_addr b) /\
      lo < hole_addr b /\ (forall x, in_hole b x -> free_byte l x) /\
      (forall x, free_byte l' x <-> free_byte l x /\ ~ in_hole b x)
  | (l', Err _) => l' = l /\ forall h, h ∈ l -> split_hole h ly = None
  end.
Proof.
  induction l as [|h l IH]; intros lo hi ly Hlo Hwf Hrq; cbn [allocate_first_fit].
  { split; [done|]. intros h []%not_elem_of_nil. }
  pose proof Hwf as (Hok & Hlt & Hhi & Hl). destruct (split_hole h ly) as [a|] eqn:Es.
  - pose proof (split_hole_spec h ly hi a Hok ltac:(lia) Hhi Hrq Es) as Ha.
    destruct (split_at_holes lo hi h l ly a Hwf (rq_min _ _ Hrq) Ha) as (Hwf' & Hin & Hfree).
    destruct Ha as [Hs Hal H8 Hf _]. split; [done|]. split; [done|]. split; [done|]. split; [done|].
    split; [|split; [|done]].
    + destruct (front_padding a); [|lia]. destruct Hf as (? & ? & Hm & _). unfold MIN_ALLOC_SIZE in Hm. lia.
    + intros x Hx. apply free_byte_cons. left. by apply Hin.
  - assert (16 <= hole_size h) as Hm16 by apply Hok. assert (0 <= hole_addr h + hole_size h) by lia.
    specialize (IH _ hi ly H Hl Hrq). destruct (allocate_first_fit l ly) as [l' [b|e]].
    + destruct IH as (Hwf' & Hs & Hal & H8 & Hb & Hin & Hfree). split; [done|]. split; [done|]. split; [done|]. split; [done|].
      split; [lia|]. split; [intros x Hx; apply free_byte_cons; right; by apply Hin|].
      intros x. rewrite !free_byte_cons, Hfree. split; [|tauto]. intros [Hx|?]; [|tauto]. split; [by left|].
      unfold in_hole in *. lia.
    + destruct IH as [-> Hno]. split; [done|]. intros g [->|Hg]%elem_of_cons; [done|by apply Hno].
Qed.

(** ** Lemmas: freeing *)

(** The hole the loop stands at: the dummy head or a real hole. *)
Definition hole_head (h : HoleInfo) : Prop := h = mkHole 0 0 \/ (hole_ok h /\ 0 < hole_addr h).

Definition dealloc_post (hole : HoleInfo) (rest : list HoleInfo) (addr size hi : Z) (hole' : HoleInfo) (rest' : list HoleInfo) : Prop :=
  hole_addr hole' = hole_addr hole /\ (hole_size hole = 0 -> hole' = hole) /\ hole_head hole' /\
  hole_addr hole' + hole_size hole' <= hi /\ holes_wf (hole_addr hole' + hole_size hole') hi rest' /\
  forall x, (in_hole hole' x \/ free_byte rest' x) <-> (in_hole hole x \/ free_byte rest x \/ addr <= x < addr + size).

Lemma head_addr h : hole_head h -> (if hole_size h =? 0 then 0 else hole_addr h) = hole_addr h.
Proof. intros [-> |[(Hm & _) _]]; [done|]. unfold MIN_ALLOC_SIZE in Hm. by rewrite (proj2 (Z.eqb_neq _ _)) by lia. Qed.

Lemma head_nonneg h : hole_head h -> 0 <= hole_addr h /\ 0 <= hole_size h.
Proof. intros [-> |[(Hm & _) ?]]; [cbn; lia|]. unfold MIN_ALLOC_SIZE in Hm. lia. Qed.

(** A block appended to a real hole. *)
Lemma head_grow h n : hole_head h -> 0 < hole_addr h + hole_size h -> 0 <= n -> (8 | n) ->
  hole_head (mkHole (hole_addr h) (hole_size h + n)) /\ hole_size h <> 0.
Proof.
  intros [-> |[(Hm & H8 & Hs8) ?]]; cbn; [lia|]. intros _ Hn Hn8. unfold MIN_ALLOC_SIZE in Hm. split; [|lia].
  right. cbn. split; [|done]. split; cbn; [unfold MIN_ALLOC_SIZE; lia|]. split; [done|]. by apply Z.divide_add_r.
Qed.

Lemma dealloc_spec rest : forall hole addr size hi, hole_head hole -> 0 < addr ->
  holes_wf (hole_addr hole + hole_size hole) hi rest -> MIN_ALLOC_SIZE <= size -> (8 | addr) -> (8 | size) ->
  hole_addr hole + hole_size hole <= addr -> addr + size <= hi -> hi < 2 ^ 64 ->
  (forall x, addr <= x < addr + size -> ~ free_byte rest x) ->
  exists hole' rest', deallocate hole rest addr size = Done (hole', rest') /\ dealloc_post hole rest addr size hi hole' rest'.
Proof.
  induction rest as [|next rest IH]; intros hole addr size hi Hh Ha Hwf Hm Ha8 Hs8 Hend Hhi Htop Hdis;
    pose proof (head_nonneg _ Hh) as [Hh1 Hh2]; pose proof Hm as Hm'; unfold MIN_ALLOC_SIZE in Hm';
    cbn [deallocate]; rewrite (proj2 (Z.leb_le MIN_ALLOC_SIZE size) Hm), head_addr by done; cbn [rust_assert mbind exec_bind];
    rewrite (wrap_small 64 (hole_addr hole + hole_size hole)) by (unfold uint_range; lia);
    rewrite (proj2 (Z.leb_le _ _) Hend); cbn [rust_assert mbind exec_bind].
  - destruct (_ =? addr) eqn:E; bool_hyps.
    + destruct (head_grow hole size Hh) as [Hg Hne]; [lia|lia|done|].
      rewrite (wrap_small 64) by (unfold uint_range; lia). eexists _, _. split; [reflexivity|].
      split; [done|]. split; [done|]. split; [done|]. split; [cbn; lia|]. split; [done|].
      intros x. rewrite !free_byte_nil. unfold in_hole. cbn [hole_addr hole_size]. lia.
    + eexists _, _. split; [reflexivity|]. split; [done|]. split; [done|]. split; [done|]. split; [lia|].
      split; [cbn; unfold hole_ok; cbn; split_and!; (done || lia)|].
      intros x. rewrite free_byte_cons, !free_byte_nil. unfold in_hole. cbn [hole_addr hole_size]. tauto.
  - destruct Hwf as (Hok & Hlt & Hnhi & Hl). pose proof Hok as (Hnm & Hn8 & Hns8). unfold MIN_ALLOC_SIZE in Hnm.
    rewrite (wrap_small 64 (addr + size)) by (unfold uint_range; lia).
    assert (Hdn : forall x, addr <= x < addr + size -> ~ in_hole next x /\ ~ free_byte rest x).
    { intros x Hx. specialize (Hdis x Hx). rewrite free_byte_cons in Hdis. tauto. }
    assert (Hdr : forall x, addr <= x < addr + size -> ~ free_byte rest x) by (intros x Hx; by apply Hdn).
    assert (Hcase : addr + size <= hole_addr next \/ hole_addr next + hole_size next <= addr).
    { destruct (Z.le_gt_cases (addr + size) (hole_addr next)); [by left|right].
      destruct (Z.le_gt_cases (hole_addr next + hole_size next) addr); [done|]. exfalso.
      apply (proj1 (Hdn (Z.max addr (hole_addr next)) ltac:(lia))). unfold in_hole. lia. }
    destruct (_ =? addr) eqn:E1, (addr + size =? hole_addr next) eqn:E2; bool_hyps; cbn [andb].
    + destruct (head_grow hole (size + hole_size next) Hh) as [Hg Hne]; [lia|lia|by apply Z.divide_add_r|].
      rewrite (wrap_small 64 (size + _)), (wrap_small 64) by (unfold uint_range; lia).
      eexists _, _. split; [reflexivity|]. split; [done|]. split; [done|]. split; [done|]. cbn [hole_addr hole_size].
      split; [lia|]. split; [by replace (hole_addr hole + _) with (hole_addr next + hole_size next) by lia|].
      intros x. rewrite free_byte_cons. unfold in_hole. cbn [hole_addr hole_size]. intuition lia.
    + destruct (head_grow hole size Hh) as [Hg Hne]; [lia|lia|done|].
      rewrite (wrap_small 64) by (unfold uint_range; lia).
      eexists _, _. split; [reflexivity|]. split; [done|]. split; [done|]. split; [done|]. cbn [hole_addr hole_size].
      split; [lia|]. split; [cbn; split_and!; (apply Hok || done || lia)|].
      intros x. rewrite free_byte_cons. unfold in_hole. cbn [hole_addr hole_size]. intuition lia.
    + rewrite (wrap_small 64) by (unfold uint_range; lia).
      destruct (IH hole addr (size + hole_size next) hi) as (hole' & rest' & E & Hpost); try done.
      * eapply holes_wf_lower; [|done]. lia.
      * unfold MIN_ALLOC_SIZE. lia.
      * by apply Z.divide_add_r.
      * lia.
      * intros x Hx Hf. destruct (Z.lt_ge_cases x (addr + size)); [apply (Hdr x); [lia|done]|].
        pose proof (holes_wf_bounds _ _ _ _ Hl Hf). lia.
      * exists hole', rest'. split; [done|]. destruct Hpost as (P1 & P2 & P3 & P4 & P5 & P6).
        split; [done|]. split; [done|]. split; [done|]. split; [done|]. split; [done|].
        intros x. rewrite P6, free_byte_cons. unfold in_hole. intuition lia.
    + destruct (hole_addr next <=? addr) eqn:E3; bool_hyps.
      * destruct (IH next addr size hi) as (next' & rest' & E & Hpost); try done; [right; split; [done|lia]|lia|].
        rewrite E. cbn [mbind exec_bind]. exists hole, (next' :: rest'). split; [done|].
        destruct Hpost as (P1 & P2 & P3 & P4 & P5 & P6). split; [done|]. split; [done|]. split; [done|]. split; [lia|].
        split; [|intros x; rewrite !free_byte_cons, P6; tauto].
        destruct P3 as [-> |[Hok' _]]; [cbn in P1; lia|]. cbn. split; [done|]. split; [lia|]. by split.
      * eexists _, _. split; [reflexivity|]. split; [done|]. split; [done|]. split; [done|]. split; [lia|].
        split; [cbn; unfold hole_ok; cbn; split_and!; (done || lia)|].
        intros x. rewrite !free_byte_cons. unfold in_hole. cbn [hole_addr hole_size]. tauto.
Qed.

(** ** Lemmas: the heap *)

Definition heap_free (h : Heap) (x : Z) : Prop := free_byte (hl_holes (heap_holes h)) x.

(** The invariant of a heap that ends at [hi]. *)
Record heap_ok (hi : Z) (h : Heap) : Prop := {
  ho_first : hl_first (heap_holes h) = mkHole 0 0;
  ho_holes : holes_wf 0 hi (hl_holes (heap_holes h));
  ho_top : 0 <= hi < 2 ^ 64;
  ho_used : uint_range 64 (heap_used h)
}.

Lemma block_size_spec ly hi : layout_ok hi ly -> 0 <= hi ->
  (8 | block_size ly) /\ Z.max (layout_size ly) 16 <= block_size ly < Z.max (layout_size ly) 16 + 8 /\
  align_layout_for_hole ly = Done (mkLayout (block_size ly) (layout_align ly)) /\
  req_ok hi (mkLayout (block_size ly) (layout_align ly)).
Proof.
  intros [(k & Hk & Hal) Hs Hf Hi] Hhi. assert (0 < 2 ^ k) by lia. unfold block_size, HOLE_ALIGN, MIN_ALLOC_SIZE.
  destruct (align_up_bounds (Z.max (layout_size ly) 16) 3) as [Hd Hle]; [lia..|]. change (2 ^ 3) with 8 in *.
  set (b := align_up _ 8) in *. split; [done|]. split; [lia|]. split.
  - unfold align_layout_for_hole, MIN_ALLOC_SIZE, HOLE_ALIGN. cbv zeta.
    assert ((if layout_size ly <? 16 then 16 else layout_size ly) = Z.max (layout_size ly) 16) as -> by (case_if; lia).
    fold b. unfold Layout_from_size_align, is_power_of_two. rewrite Hal, Z.log2_pow2, Z.eqb_refl by lia.
    rewrite (proj2 (Z.ltb_lt 0 _)), (proj2 (Z.leb_le b _)) by lia. done.
  - split; cbn [layout_size layout_align]; [by exists k|unfold MIN_ALLOC_SIZE; lia|done|lia].
Qed.

(** A hole that starts aligned and is an exact fit, or leaves room for another
    hole, is always used. *)
Lemma split_hole_complete h ly hi : hole_ok h -> 0 < hole_addr h -> hole_addr h + hole_size h <= hi -> req_ok hi ly ->
  (layout_align ly | hole_addr h) ->
  hole_size h = layout_size ly \/ layout_size ly + MIN_ALLOC_SIZE <= hole_size h -> split_hole h ly <> None.
Proof.
  intros (Hm & H8 & Hs8) Hpos Hhi [(k & Hk & Hal) Hrm Hr8 Hfit] Hd Hsz. unfold MIN_ALLOC_SIZE in *. rewrite Hal in *.
  unfold split_hole. cbv zeta. rewrite Hal, align_up_aligned, Z.eqb_refl by (done || lia).
  rewrite Z.sub_diag, (wrap_small 64 0), !(wrap_small 64 (_ + _)) by (unfold uint_range; lia).
  rewrite (proj2 (Z.ltb_ge _ _)) by lia. cbn [hole_size hole_addr]. rewrite Z.sub_0_r, (wrap_small 64 (hole_size h)) by (unfold uint_range; lia).
  destruct (_ =? _) eqn:E; bool_hyps; [done|]. unfold MIN_ALLOC_SIZE.
  rewrite (wrap_small 64 (hole_size h - _)), (proj2 (Z.ltb_ge _ _)) by (unfold uint_range; lia). done.
Qed.

Lemma heap_alloc_spec hi h ly : heap_ok hi h -> layout_ok hi ly ->
  exists h' r, Heap_allocate_first_fit h ly = Done (h', r) /\ heap_ok hi h' /\
  match r with
  | Ok p => (layout_align ly | p) /\ (8 | p) /\ 0 < p /\
      (forall x, p <= x < p + block_size ly -> heap_free h x) /\
      (forall x, heap_free h' x <-> heap_free h x /\ ~ (p <= x < p + block_size ly)) /\
      heap_used h' = heap_used h ⊞ block_size ly
  | Err _ => h' = h /\ forall g, g ∈ hl_holes (heap_holes h) -> split_hole g (mkLayout (block_size ly) (layout_align ly)) = None
  end.
Proof.
  intros [Hf Hwf Htop Hu] Hly. destruct (block_size_spec ly hi Hly) as (_ & Hbs & Eal & Hrq); [lia|].
  pose proof (first_fit_spec _ 0 hi _ ltac:(lia) Hwf Hrq) as Hff.
  unfold Heap_allocate_first_fit, HoleList_allocate_first_fit. rewrite Eal. cbn [mbind exec_bind].
  destruct (allocate_first_fit _ _) as [l' [b|e]]; cbn [layout_size layout_align] in Hff.
  - destruct Hff as (Hwf' & Hs & Hal & H8 & Hb & Hin & Hfree). rewrite (proj2 (Z.eqb_neq (hole_addr b) 0)) by lia.
    cbn [mbind exec_bind]. eexists _, _. split; [reflexivity|]. unfold heap_free. cbn [heap_holes hl_holes heap_used layout_size].
    split; [split; cbn [heap_holes hl_first hl_holes heap_used]; [done|done|done|apply wrap_range; lia]|].
    unfold in_hole in *. rewrite Hs in *. by split_and!.
  - destruct Hff as [-> Hno]. cbn [mbind exec_bind]. eexists _, _. split; [reflexivity|].
    destruct h as [u [f l]]. split; [by split|done].
Qed.

Lemma heap_dealloc_spec hi h p ly : heap_ok hi h -> layout_ok hi ly -> 0 < p -> (8 | p) -> p + block_size ly <= hi ->
  (forall x, p <= x < p + block_size ly -> ~ heap_free h x) ->
  exists h', Heap_deallocate h p ly = Done h' /\ heap_ok hi h' /\
    (forall x, heap_free h' x <-> heap_free h x \/ p <= x < p + block_size ly) /\
    heap_used h' = heap_used h ⊟ block_size ly.
Proof.
  intros [Hf Hwf Htop Hu] Hly Hp Hp8 Hhi Hdis. destruct (block_size_spec ly hi Hly) as (Hb8 & Hbs & Eal & Hrq); [lia|].
  destruct (dealloc_spec (hl_holes (heap_holes h)) (hl_first (heap_holes h)) p (block_size ly) hi)
    as (first & holes & E & P1 & P2 & P3 & P4 & P5 & P6); try done; rewrite ?Hf; cbn [hole_addr hole_size];
    [by left|done|unfold MIN_ALLOC_SIZE; lia|lia|lia|].
  unfold Heap_deallocate, HoleList_deallocate. rewrite Eal. cbn [mbind exec_bind layout_size]. rewrite E. cbn [mbind exec_bind layout_size].
  assert (first = mkHole 0 0) as -> by (rewrite P2; rewrite Hf; done).
  eexists. split; [reflexivity|]. split; [split; cbn [heap_holes hl_first hl_holes heap_used]; [done|done|done|apply wrap_range; lia]|].
  split; [|done]. intros x. unfold heap_free. cbn [heap_holes hl_holes]. specialize (P6 x). rewrite Hf in P6.
  unfold in_hole in P6. cbn [hole_addr hole_size] in P6. intuition lia.
Qed.

(** A well-formed hole list is determined by its free bytes. *)
Lemma holes_wf_head lo hi h l : holes_wf lo hi (h :: l) ->
  free_byte (h :: l) (hole_addr h) /\ ~ free_byte (h :: l) (hole_addr h + hole_size h) /\
  (forall x, free_byte (h :: l) x -> hole_addr h <= x) /\
  (forall x, hole_addr h <= x < hole_addr h + hole_size h -> free_byte (h :: l) x) /\
  (forall x, free_byte l x <-> free_byte (h :: l) x /\ hole_addr h + hole_size h <= x).
Proof.
  intros ((Hm & _) & Hlo & Hhi & Hl). unfold MIN_ALLOC_SIZE in Hm.
  assert (Hb : forall x, free_byte l x -> hole_addr h + hole_size h < x < hi) by (intros; by eapply holes_wf_bounds).
  setoid_rewrite free_byte_cons. unfold in_hole. split; [lia|].
  split; [intros [?|H%Hb]; lia|]. split; [intros x [?|H%Hb]; lia|]. split; [tauto|].
  intros x. specialize (Hb x). intuition lia.
Qed.

Lemma holes_wf_unique l1 : forall lo1 lo2 hi l2, holes_wf lo1 hi l1 -> holes_wf lo2 hi l2 ->
  (forall x, free_byte l1 x <-> free_byte l2 x) -> l1 = l2.
Proof.
  induction l1 as [|h1 l1 IH]; intros lo1 lo2 hi [|h2 l2] H1 H2 Hx; [done| | |].
  - destruct (holes_wf_head _ _ _ _ H2) as (Hf & _). by apply Hx, free_byte_nil in Hf.
  - destruct (holes_wf_head _ _ _ _ H1) as (Hf & _). by apply Hx, free_byte_nil in Hf.
  - destruct (holes_wf_head _ _ _ _ H1) as (F1 & N1 & L1 & A1 & T1), (holes_wf_head _ _ _ _ H2) as (F2 & N2 & L2 & A2 & T2).
    pose proof (L2 _ (proj1 (Hx _) F1)). pose proof (L1 _ (proj2 (Hx _) F2)). assert (hole_addr h1 = hole_addr h2) as Ea by lia.
    pose proof H1 as ((Hm1 & _) & _ & _ & Hl1). pose proof H2 as ((Hm2 & _) & _ & _ & Hl2). unfold MIN_ALLOC_SIZE in *.
    assert (hole_size h1 = hole_size h2) as Es.
    { destruct (Z.lt_trichotomy (hole_size h1) (hole_size h2)) as [Hlt|[?|Hlt]]; [|done|]; exfalso.
      - apply N1, Hx, A2. lia.
      - apply N2, Hx, A1. lia. }
    assert (h1 = h2) as -> by (destruct h1, h2; cbn in *; congruence). f_equal.
    eapply IH; [exact Hl1|exact Hl2|]. intros x. by rewrite T1, T2, Hx.
Qed.

Lemma double_free_lemma rest : forall hole addr size hi, hole_head hole -> holes_wf (hole_addr hole + hole_size hole) hi rest ->
  MIN_ALLOC_SIZE <= size -> addr + size < 2 ^ 64 -> hi < 2 ^ 64 ->
  hole_addr hole + hole_size hole < 2 ^ 64 -> (in_hole hole addr \/ free_byte rest addr) ->
  deallocate hole rest addr size = Panic.
Proof.
  induction rest as [|next rest IH]; intros hole addr size hi Hh Hwf Hm Ht Hhi Hend Hfree;
    pose proof (head_nonneg _ Hh) as [Hh1 Hh2]; pose proof Hm as Hm'; unfold MIN_ALLOC_SIZE in Hm'; unfold in_hole in Hfree;
    cbn [deallocate]; rewrite (proj2 (Z.leb_le MIN_ALLOC_SIZE size) Hm), head_addr by done; cbn [rust_assert mbind exec_bind];
    rewrite (wrap_small 64 (hole_addr hole + hole_size hole)) by (unfold uint_range; lia).
  - rewrite free_byte_nil in Hfree. rewrite (proj2 (Z.leb_gt (hole_addr hole + hole_size hole) addr)) by lia. done.
  - destruct (Z.lt_ge_cases addr (hole_addr hole + hole_size hole)) as [Hlt|Hge]; [by rewrite (proj2 (Z.leb_gt (hole_addr hole + hole_size hole) addr)) by lia|].
    rewrite (proj2 (Z.leb_le (hole_addr hole + hole_size hole) addr)) by lia. cbn [rust_assert mbind exec_bind]. destruct Hfree as [?|Hfree]; [lia|].
    destruct Hwf as (Hok & Hlt & Hnhi & Hl). pose proof Hok as (Hnm & _). unfold MIN_ALLOC_SIZE in Hnm.
    assert (hole_addr next <= addr) as Hna.
    { apply free_byte_cons in Hfree as [?|Hf]; [unfold in_hole in *; lia|]. pose proof (holes_wf_bounds _ _ _ _ Hl Hf). lia. }
    rewrite (wrap_small 64 (addr + size)) by (unfold uint_range; lia).
    rewrite (proj2 (Z.eqb_neq _ addr)), (proj2 (Z.eqb_neq (addr + size) _)), (proj2 (Z.leb_le _ addr)) by lia. cbn [andb].
    rewrite (IH next addr size hi); [done|right; split; [done|lia]|done|done|done|done|lia|].
    by apply free_byte_cons in Hfree.
Qed.

(** ** Properties *)

(** The heap a process gets: [Allocator::init] on the default user heap. *)
Definition default_heap : Heap := Allocator_init HEAP_BASE_ADDR HEAP_DEFAULT_SIZE Allocator_new.
Definition default_top : Z := HEAP_BASE_ADDR + HEAP_DEFAULT_SIZE.

Lemma default_heap_ok : heap_ok default_top default_heap.
Proof.
  split; [reflexivity| |vm_compute; split; done|vm_compute; split; done].
  split; [|vm_compute; done]. split; [vm_compute; done|]. split; (apply Z.mod_divide; [done|reflexivity]).
Qed.

Lemma example_layout : layout_ok default_top (mkLayout 100 32).
Proof. split; cbn; [exists 5; split; [lia|done]|lia|vm_compute; done|lia]. Qed.

(** [Heap::init] yields a heap that satisfies the invariant and whose free
    bytes are exactly those of the region from its first 8-byte boundary. *)
Theorem Heap_init_free (h : Heap) (bottom size : Z) :
  0 < bottom -> 32 <= size -> (8 | size) -> (8 | bottom) -> bottom + size < 2 ^ 64 ->
  heap_ok (bottom + size) (Heap_init bottom size h) /\
  (forall x, heap_free (Heap_init bottom size h) x <-> bottom <= x < bottom + size) /\ heap_used (Heap_init bottom size h) = 0.
Proof.
  intros Hb Hs H8 Hb8 Ht. assert (align_up bottom HOLE_ALIGN = bottom) as Hal.
  { unfold HOLE_ALIGN. change 8 with (2 ^ 3). apply align_up_aligned; [lia..|done]. }
  unfold Heap_init, HoleList_init, heap_free. cbv zeta. rewrite Hal, Z.sub_diag.
  unfold saturating_sub. rewrite (wrap_small 64 0), Z.sub_0_r, Z.max_r by (unfold uint_range; lia). split; [|split; [|done]].
  - split; cbn [heap_holes hl_first hl_holes heap_used holes_wf hole_addr hole_size]; [done| |lia|unfold uint_range; lia].
    unfold hole_ok, MIN_ALLOC_SIZE. cbn [hole_addr hole_size]. split_and!; done || lia.
  - intros x. cbn [heap_holes hl_holes]. rewrite free_byte_cons, free_byte_nil. unfold in_hole. cbn [hole_addr hole_size]. tauto.
Qed.

Lemma Heap_init_free_witness : heap_ok (4096 + 64) (Heap_init 4096 64 Heap_empty).
Proof. apply (Heap_init_free Heap_empty 4096 64); try lia; [by exists 8|by exists 512]. Defined.



(** An allocation fails only when no hole starts at the alignment and
    either fits the block exactly or leaves at least a minimal hole behind it. *)
Theorem Heap_allocate_fails_only_full (hi : Z) (h h' : Heap) (ly : Layout) (e : unit) :
  heap_ok hi h -> layout_ok hi ly -> Heap_allocate_first_fit h ly = Done (h', Err e) ->
  forall g, g ∈ hl_holes (heap_holes h) -> (layout_align ly | hole_addr g) ->
    hole_size g <> block_size ly /\ hole_size g < block_size ly + MIN_ALLOC_SIZE.
Proof.
  intros Hh Hly E g Hg Hal. destruct (heap_alloc_spec hi h ly Hh Hly) as (h1 & r & E1 & _ & Hr).
  rewrite E1 in E. injection E as -> ->. destruct Hr as [_ Hno]. specialize (Hno g Hg).
  destruct (block_size_spec ly hi Hly) as (_ & _ & _ & Hrq); [apply Hh|].
  assert (Hgok : forall l lo, 0 <= lo -> holes_wf lo hi l -> g ∈ l -> hole_ok g /\ 0 < hole_addr g /\ hole_addr g + hole_size g <= hi).
  { clear. induction l as [|f l IH]; intros lo Hlo; [by intros _ ?%not_elem_of_nil|].
    intros (Hok & Hlt & Hhi & Hl) [->|Hin]%elem_of_cons; [split; [done|lia]|]. eapply (IH _ _ Hl Hin). }
  Unshelve. 2:{ destruct Hok as (Hm & _). unfold MIN_ALLOC_SIZE in Hm. lia. }
  destruct (Hgok _ 0 ltac:(lia) (ho_holes _ _ Hh) Hg) as (Hok & Hpos & Htop).
  destruct (Z.eq_dec (hole_size g) (block_size ly)) as [Heq|Hne];
    [|destruct (Z.lt_ge_cases (hole_size g) (block_size ly + MIN_ALLOC_SIZE)); [done|]];
    exfalso; eapply (split_hole_complete g _ hi Hok Hpos Htop Hrq); try done; cbn; lia.
Qed.

Lemma Heap_allocate_fails_only_full_witness :
  exists h', Heap_allocate_first_fit (Heap_init 4096 64 Heap_empty) (mkLayout 100 8) = Done (h', Err tt) /\
  hole_size (mkHole 4096 64) < block_size (mkLayout 100 8) + MIN_ALLOC_SIZE.
Proof.
  assert (E : Heap_allocate_first_fit (Heap_init 4096 64 Heap_empty) (mkLayout 100 8)
    = Done (Heap_init 4096 64 Heap_empty, Err tt)) by (vm_compute; reflexivity).
  exists (Heap_init 4096 64 Heap_empty). split; [exact E|].
  apply (Heap_allocate_fails_only_full 4160 (Heap_init 4096 64 Heap_empty) (Heap_init 4096 64 Heap_empty) (mkLayout 100 8) tt).
  - split; cbn; [done| |lia|unfold uint_range; lia]. unfold hole_ok, MIN_ALLOC_SIZE. cbn.
    split_and!; try (done || lia); [by exists 512|by exists 8].
  - split; cbn; [exists 3; split; [lia|done]|lia|lia|lia].
  - exact E.
  - cbn. left.
  - by exists 512.
Defined.

(** C19: freeing a block that is not free adds exactly its bytes to the free
    bytes, merging with the neighbouring holes so that the invariant is kept;
    nothing panics. *)
Theorem Heap_deallocate_correct (hi : Z) (h : Heap) (p : Z) (ly : Layout) :
  heap_ok hi h -> layout_ok hi ly -> 0 < p -> (8 | p) -> p + block_size ly <= hi ->
  (forall x, p <= x < p + block_size ly -> ~ heap_free h x) ->
  exists h', Heap_deallocate h p ly = Done h' /\ heap_ok hi h' /\
    (forall x, heap_free h' x <-> heap_free h x \/ p <= x < p + block_size ly) /\
    heap_used h' = heap_used h ⊟ block_size ly.
Proof. apply heap_dealloc_spec. Qed.

Lemma Heap_deallocate_correct_witness : exists h', Heap_deallocate (mkHeap 32 (mkHoleList (mkHole 0 0) [mkHole 4096 64])) 8192 (mkLayout 20 8) = Done h' /\
  heap_used h' = 8.
Proof.
  destruct (Heap_deallocate_correct 16384 (mkHeap 32 (mkHoleList (mkHole 0 0) [mkHole 4096 64])) 8192 (mkLayout 20 8))
    as (h' & E & _ & _ & Hu).
  - split; cbn; [done| |lia|unfold uint_range; lia]. unfold hole_ok, MIN_ALLOC_SIZE. cbn.
    split_and!; try (done || lia); [by exists 512|by exists 8].
  - split; cbn; [exists 3; split; [lia|done]|lia|lia|lia].
  - lia.
  - by exists 1024.
  - vm_compute. done.
  - intros x Hx. change (block_size _) with 24 in Hx. unfold heap_free. cbn. rewrite free_byte_cons, free_byte_nil. unfold in_hole. cbn. lia.
  - exists h'. split; [exact E|]. rewrite Hu. reflexivity.
Defined.

(** An allocation followed by its deallocation restores the heap exactly,
    hole list and usage counter included. *)
Theorem alloc_dealloc_roundtrip (hi : Z) (h h' : Heap) (p : Z) (ly : Layout) :
  heap_ok hi h -> layout_ok hi ly -> Heap_allocate_first_fit h ly = Done (h', Ok p) ->
  Heap_deallocate h' p ly = Done h.
Proof.
  intros Hh Hly E. destruct (heap_alloc_spec hi h ly Hh Hly) as (h1 & r & E1 & Hh' & Hr).
  rewrite E1 in E. injection E as -> ->. destruct Hr as (_ & H8 & Hp & Hin & Hfree & Hu).
  destruct (block_size_spec ly hi Hly) as (_ & Hbs & _); [apply Hh|].
  pose proof (ho_holes _ _ Hh) as Hwf.
  destruct (heap_dealloc_spec hi h' p ly Hh' Hly Hp H8) as (h2 & E2 & Hh2 & Hfree2 & Hu2).
  { pose proof (holes_wf_bounds _ _ _ _ Hwf (Hin (p + block_size ly - 1) ltac:(lia))). lia. }
  { intros x Hx [_ Hn]%Hfree. by apply Hn. }
  rewrite E2. f_equal. destruct Hh as [Hf _ _ Hr0], Hh2 as [Hf2 Hwf2 _ _].
  assert (hl_holes (heap_holes h2) = hl_holes (heap_holes h)) as Hl.
  { eapply holes_wf_unique; [exact Hwf2|exact Hwf|]. intros x. fold (heap_free h2 x) (heap_free h x).
    rewrite Hfree2, Hfree. specialize (Hin x). destruct (decide (p <= x < p + block_size ly)); tauto. }
  assert (heap_used h2 = heap_used h) as Hused.
  { rewrite Hu2, Hu, wrap_sub_idemp. replace (heap_used h + _ - _) with (heap_used h) by lia. by apply wrap_small. }
  destruct h as [u [f l]], h2 as [u2 [f2 l2]]. cbn in *. congruence.
Qed.

Lemma alloc_dealloc_roundtrip_witness : exists h' p, Heap_allocate_first_fit default_heap (mkLayout 100 32) = Done (h', Ok p) /\
  Heap_deallocate h' p (mkLayout 100 32) = Done default_heap.
Proof.
  eexists _, _. split; [vm_compute; reflexivity|].
  apply (alloc_dealloc_roundtrip default_top default_heap); [apply default_heap_ok|apply example_layout|vm_compute; reflexivity].
Defined.

(** Freeing a block whose first byte is already free is always caught: the
    deallocation panics instead of corrupting the hole list. *)
Theorem double_free_panics (hi : Z) (h : Heap) (p : Z) (ly : Layout) :
  heap_ok hi h -> layout_ok hi ly -> heap_free h p -> Heap_deallocate h p ly = Panic.
Proof.
  intros Hh Hly Hfree. pose proof Hh as [Hf Hwf Htop _]. destruct (block_size_spec ly hi Hly) as (_ & Hbs & Eal & [_ _ _ Hfit]); [lia|].
  pose proof (holes_wf_bounds _ _ _ _ Hwf Hfree). destruct Hly as [(k & Hk & Hal) _ _ _]. cbn in Hfit.
  assert (0 < 2 ^ k) by lia.
  unfold Heap_deallocate, HoleList_deallocate. rewrite Eal. cbn [mbind exec_bind layout_size].
  rewrite (double_free_lemma _ _ _ _ hi); rewrite ?Hf; cbn [hole_addr hole_size]; try (done || lia); [by left|unfold MIN_ALLOC_SIZE; lia|by right].
Qed.

Lemma double_free_panics_witness : Heap_deallocate default_heap HEAP_BASE_ADDR (mkLayout 100 32) = Panic.
Proof.
  apply (double_free_panics default_top); [apply default_heap_ok|apply example_layout|].
  exists (mkHole HEAP_BASE_ADDR HEAP_DEFAULT_SIZE). split; [vm_compute; left|]. split; vm_compute; done.
Defined.

(** Without the bound on the request the size check wraps around: on the
    default 8 MiB user heap a request of 4 TiB succeeds, and returns a block
    that runs past the end of the address space. *)
Theorem huge_request_wraps :
  exists h' p, Heap_allocate_first_fit default_heap (mkLayout (2 ^ 42) 8) = Done (h', Ok p) /\
    HEAP_DEFAULT_SIZE < 2 ^ 42 /\ 2 ^ 64 < p + 2 ^ 42.
Proof. eexists _, _. split; [vm_compute; reflexivity|]. split; vm_compute; done. Qed.
