(* ===== verification/Process.v ===== *)
(** * crates/process: the process ABI and the shell's message queues

    Models [process.rs]: the result convention of [translate_address], the
    policies and priorities, the messages between kernel and shell, the
    bounded ring [SizedQueue] they travel in and [SizedString]. The ring is
    related to the list of its pending elements, and its operations are proved
    to be the queue operations on that list as long as it is not full. *)

From Stdlib Require Import Lia.
From stdpp Require Import base numbers list option tactics.
From S2P Require Import Prelude.

Local Open Scope Z_scope.
Local Open Scope u64_scope.

(** ** [translate_address] *)

Inductive TranslateAddressError : Type := PermissionDenied | AddressNotMapped.

(** The decoding of the value [int 0x42] leaves in [rax]. *)
Definition translate_address_result (rax : Z) : exec (result Z TranslateAddressError) :=
  let num := as_signed 64 rax in
  if num <? 0 then
    if num =? -1 then Done (Err PermissionDenied)
    else if num =? -2 then Done (Err AddressNotMapped)
    else Panic
  else Done (Ok (wrap 64 num)).

(** ** Policies and priorities *)

Inductive AccessPolicy : Type := PolicyAll | PolicyNormal.

Definition AccessPolicy_default : AccessPolicy := PolicyNormal.

Inductive Priority : Type := PriorityNone | PriorityNormal | PriorityIdle.

(** The discriminants, in the order of the derived [Ord]. *)
Definition Priority_repr (p : Priority) : Z :=
  match p with PriorityNone => 0 | PriorityNormal => 32 | PriorityIdle => 255 end.

#[export] Instance Priority_eq_dec : EqDecision Priority.
Proof. solve_decision. Defined.
#[export] Instance AccessPolicy_eq_dec : EqDecision AccessPolicy.
Proof. solve_decision. Defined.

(** ** [SizedString]: [SIZE] bytes *)

Definition SizedString : Type := list Z.

Definition SizedString_new_truncate (size : nat) (string : list Z) : SizedString :=
  let len := Nat.min (length string) size in
  take len string ++ drop len (replicate size 0).

(** [str::trim_matches('\0')] on the bytes. *)
Fixpoint trim_start (l : list Z) : list Z :=
  match l with
  | b :: l' => if b =? 0 then trim_start l' else l
  | [] => []
  end.
Definition trim_end (l : list Z) : list Z := reverse (trim_start (reverse l)).

Definition SizedString_as_str (s : SizedString) : list Z := trim_end (trim_start s).

(** ** Messages *)

Inductive ShellInput : Type :=
  | AccessModuleRequest (addr process_id : Z) (process_name module_name section_name : SizedString).

Inductive ShellOutput : Type :=
  | ExitProcess (code : Z)
  | StartProcess (name : SizedString)
  | AllowModuleAccess (addr process_id : Z).

Definition unblocks_process (o : ShellOutput) : bool :=
  match o with ExitProcess _ | AllowModuleAccess _ _ => true | StartProcess _ => false end.

(** ** [SizedQueue] *)

Definition SHELL_INPUT_QUEUE_SIZE : Z := 8.

Record SizedQueue (T : Type) : Type := mkQueue {
  queue_inner : list (option T);
  push_cursor : Z;
  pop_cursor : Z
}.
Arguments mkQueue {T} _ _ _.
Arguments queue_inner {T} _.
Arguments push_cursor {T} _.
Arguments pop_cursor {T} _.

Definition SizedQueue_new {T} (size : Z) : SizedQueue T :=
  mkQueue (replicate (Z.to_nat size) None) 0 0.

(** Array accesses panic out of bounds. *)
Definition SizedQueue_push {T} (size : Z) (q : SizedQueue T) (element : T) : exec (SizedQueue T) :=
  _ ← unwrap (queue_inner q !! Z.to_nat (push_cursor q));
  let inner := <[Z.to_nat (push_cursor q) := Some element]> (queue_inner q) in
  let cursor := push_cursor q ⊞ 1 in
  Done (mkQueue inner (if size <=? cursor then 0 else cursor) (pop_cursor q)).

Definition SizedQueue_pop {T} (size : Z) (q : SizedQueue T) : exec (SizedQueue T * option T) :=
  element ← unwrap (queue_inner q !! Z.to_nat (pop_cursor q));
  let inner := <[Z.to_nat (pop_cursor q) := None]> (queue_inner q) in
  if element is Some _ then
    let cursor := pop_cursor q ⊞ 1 in
    Done (mkQueue inner (push_cursor q) (if size <=? cursor then 0 else cursor), element)
  else Done (mkQueue inner (push_cursor q) (pop_cursor q), element).

Record ShellQueue : Type := mkShellQueue {
  shell_input : SizedQueue ShellInput;
  shell_output : SizedQueue ShellOutput
}.

Definition ShellQueue_new : ShellQueue :=
  mkShellQueue (SizedQueue_new SHELL_INPUT_QUEUE_SIZE) (SizedQueue_new SHELL_INPUT_QUEUE_SIZE).

(** ** Abstraction: the list of pending elements *)

(** Slot [k] after the pop cursor holds the [k]-th pending element, if any. *)
Record queue_repr {T} (size : Z) (q : SizedQueue T) (l : list T) : Prop := {
  qr_size : 0 < size < 2 ^ 63;
  qr_length : length (queue_inner q) = Z.to_nat size;
  qr_fits : Z.of_nat (length l) <= size;
  qr_pop : 0 <= pop_cursor q < size;
  qr_push : push_cursor q = (pop_cursor q + Z.of_nat (length l)) mod size;
  qr_slots : forall k, 0 <= k < size ->
    queue_inner q !! Z.to_nat ((pop_cursor q + k) mod size) = Some (l !! Z.to_nat k)
}.

Lemma mod_add_inj size p k j : 0 <= k < size -> 0 <= j < size -> (p + k) mod size = (p + j) mod size -> k = j.
Proof.
  intros Hk Hj E. assert ((k - j) mod size = 0) as H0.
  { replace (k - j) with ((p + k) - (p + j)) by lia. rewrite Zminus_mod, E, Z.sub_diag. done. }
  apply Z.mod_divide in H0 as [c Hc]; [|lia]. assert (c = 0) by nia. nia.
Qed.

Lemma mod_succ size c : 0 < size < 2 ^ 63 -> 0 <= c < size ->
  (if size <=? c ⊞ 1 then 0 else c ⊞ 1) = (c + 1) mod size.
Proof.
  intros Hs Hc. rewrite wrap_small by (unfold uint_range; lia). case_if.
  - replace (c + 1) with size by lia. by rewrite Z.mod_same by lia.
  - by rewrite Z.mod_small by lia.
Qed.

Lemma queue_repr_new {T} size : 0 < size < 2 ^ 63 -> queue_repr size (@SizedQueue_new T size) [].
Proof.
  intros Hs. split; cbn [SizedQueue_new queue_inner push_cursor pop_cursor length]; [done| |lia|lia| |].
  - apply length_replicate.
  - by rewrite Z.mod_small by lia.
  - intros k Hk. rewrite Z.mod_small by lia. apply lookup_replicate_2. lia.
Qed.

(** The pending elements are determined by the ring. *)
Lemma queue_repr_inj {T} size (q : SizedQueue T) l l' : queue_repr size q l -> queue_repr size q l' -> l = l'.
Proof.
  intros [_ _ Hf _ _ Hs] [_ _ Hf' _ _ Hs']. apply list_eq. intros i. destruct (Z.lt_ge_cases (Z.of_nat i) size) as [Hlt|Hge].
  - pose proof (Hs (Z.of_nat i) ltac:(lia)) as H1. rewrite Hs', Nat2Z.id in H1 by lia. congruence.
  - by rewrite !lookup_ge_None_2 by lia.
Qed.

Lemma push_index {T} size (q : SizedQueue T) l : queue_repr size q l -> 0 <= push_cursor q < size.
Proof. intros [? ? ? ? -> ?]. apply Z.mod_pos_bound. lia. Qed.

Lemma SizedQueue_push_spec {T} size (q : SizedQueue T) l e : queue_repr size q l -> Z.of_nat (length l) < size ->
  exists q', SizedQueue_push size q e = Done q' /\ queue_repr size q' (l ++ [e]).
Proof.
  intros Hr Hl. pose proof (push_index _ _ _ Hr) as Hp. destruct Hr as [Hs Hlen Hf Hpop Hpush Hslots].
  unfold SizedQueue_push.
  destruct (lookup_lt_is_Some_2 (queue_inner q) (Z.to_nat (push_cursor q))) as [x ->]; [lia|].
  cbn [unwrap mbind exec_bind]. rewrite mod_succ by done. eexists. split; [reflexivity|].
  split; cbn [queue_inner push_cursor pop_cursor]; [done|by rewrite length_insert|rewrite length_app; cbn; lia|done| |].
  - rewrite Hpush, Zplus_mod_idemp_l, length_app. f_equal. cbn. lia.
  - intros k Hk. destruct (decide (k = Z.of_nat (length l))) as [->|Hne].
    + rewrite Hpush, list_lookup_insert_eq by (rewrite Hlen; apply Z2Nat.inj_lt; lia).
      rewrite Nat2Z.id, lookup_app_r, Nat.sub_diag by lia. done.
    + rewrite list_lookup_insert_ne, Hslots by (done || (intros E%Z2Nat.inj;
        [rewrite Hpush in E; apply mod_add_inj in E; lia|lia|apply Z.mod_pos_bound; lia])).
      f_equal. destruct (decide (k < Z.of_nat (length l))).
      * by rewrite lookup_app_l by lia.
      * rewrite lookup_ge_None_2, (lookup_ge_None_2 (l ++ _)) by (rewrite ?length_app; cbn; lia). done.
Qed.

Lemma pop_nil_spec {T} size (q : SizedQueue T) : queue_repr size q [] ->
  exists q', SizedQueue_pop size q = Done (q', None) /\ queue_repr size q' [].
Proof.
  intros Hr. destruct Hr as [Hs Hlen Hf Hpop Hpush Hslots]. unfold SizedQueue_pop.
  pose proof (Hslots 0 ltac:(lia)) as H0. rewrite Z.add_0_r, Z.mod_small in H0 by lia.
  rewrite H0. cbn. eexists. split; [reflexivity|]. rewrite list_insert_id by done. by destruct q.
Qed.

Lemma pop_cons_spec {T} size (q : SizedQueue T) x l : queue_repr size q (x :: l) ->
  exists q', SizedQueue_pop size q = Done (q', Some x) /\ queue_repr size q' l.
Proof.
  intros Hr. destruct Hr as [Hs Hlen Hf Hpop Hpush Hslots]. unfold SizedQueue_pop. cbn [length] in *.
  pose proof (Hslots 0 ltac:(lia)) as H0. rewrite Z.add_0_r, Z.mod_small in H0 by lia.
  rewrite H0. cbn [unwrap mbind exec_bind lookup list_lookup Z.to_nat]. rewrite mod_succ by done.
  eexists. split; [reflexivity|].
  split; cbn [queue_inner push_cursor pop_cursor]; [done|by rewrite length_insert|lia|apply Z.mod_pos_bound; lia| |].
  - rewrite Hpush, Zplus_mod_idemp_l. f_equal. lia.
  - intros k Hk. rewrite Zplus_mod_idemp_l. replace (pop_cursor q + 1 + k) with (pop_cursor q + (k + 1)) by lia.
    destruct (decide (k = size - 1)) as [->|Hne].
    + replace (pop_cursor q + (size - 1 + 1)) with (pop_cursor q + 1 * size) by lia.
      rewrite Z_mod_plus_full, Z.mod_small by lia. rewrite list_lookup_insert_eq by lia.
      by rewrite lookup_ge_None_2 by lia.
    + rewrite list_lookup_insert_ne, Hslots by (lia || (intros E%Z2Nat.inj; [|lia|apply Z.mod_pos_bound; lia];
        rewrite <-(Z.mod_small (pop_cursor q) size), <-(Z.add_0_r (pop_cursor q)) in E at 1 by lia;
        apply mod_add_inj in E; lia)).
      replace (Z.to_nat (k + 1)) with (S (Z.to_nat k)) by lia. done.
Qed.

(** A sequence of queue operations and the elements its pops return. *)
Inductive queue_op (T : Type) : Type := OpPush (e : T) | OpPop.
Arguments OpPush {T} e.
Arguments OpPop {T}.

Fixpoint run_queue {T} (size : Z) (q : SizedQueue T) (ops : list (queue_op T)) : exec (list (option T)) :=
  match ops with
  | [] => Done []
  | OpPush e :: ops' => q' ← SizedQueue_push size q e; run_queue size q' ops'
  | OpPop :: ops' => '(q', o) ← SizedQueue_pop size q; os ← run_queue size q' ops'; Done (o :: os)
  end.

(** The specification: a list; [None] when a push finds it full. *)
Fixpoint spec_queue {T} (size : Z) (l : list T) (ops : list (queue_op T)) : option (list (option T)) :=
  match ops with
  | [] => Some []
  | OpPush e :: ops' => if Z.of_nat (length l) <? size then spec_queue size (l ++ [e]) ops' else None
  | OpPop :: ops' => os ← spec_queue size (tail l) ops'; Some (head l :: os)
  end.

Lemma run_queue_spec {T} size (ops : list (queue_op T)) : forall q l os, queue_repr size q l ->
  spec_queue size l ops = Some os -> run_queue size q ops = Done os.
Proof.
  induction ops as [|[e|] ops IH]; intros q l os Hr; cbn [spec_queue run_queue].
  - by intros [= <-].
  - case_if; [|done]. intros Hs. destruct (SizedQueue_push_spec size q l e Hr Hif) as (q' & -> & Hr'). cbn. by eapply IH.
  - destruct (spec_queue size (tail l) ops) as [os'|] eqn:E; [|done]. intros [= <-].
    destruct l as [|x l]; cbn [tail head] in *.
    + destruct (pop_nil_spec size q Hr) as (q' & -> & Hr'). cbn. by rewrite (IH _ _ _ Hr' E).
    + destruct (pop_cons_spec size q x l Hr) as (q' & -> & Hr'). cbn. by rewrite (IH _ _ _ Hr' E).
Qed.

(** Pushing to a full ring overwrites the oldest slot. *)
Lemma push_full_spec {T} size (q : SizedQueue T) x l e : queue_repr size q (x :: l) ->
  Z.of_nat (length (x :: l)) = size ->
  exists q', SizedQueue_push size q e = Done q' /\
    queue_inner q' !! Z.to_nat (pop_cursor q') = Some (Some e) /\ pop_cursor q' = pop_cursor q.
Proof.
  intros Hr Hl. pose proof (push_index _ _ _ Hr) as Hp. destruct Hr as [Hs Hlen Hf Hpop Hpush Hslots].
  unfold SizedQueue_push.
  destruct (lookup_lt_is_Some_2 (queue_inner q) (Z.to_nat (push_cursor q))) as [y ->]; [lia|].
  cbn [unwrap mbind exec_bind]. eexists. split; [reflexivity|]. cbn [queue_inner pop_cursor]. split; [|done].
  rewrite Hl in Hpush. replace (pop_cursor q + size) with (pop_cursor q + 1 * size) in Hpush by lia.
  rewrite Z_mod_plus_full, Z.mod_small in Hpush by lia. rewrite Hpush, list_lookup_insert_eq by lia. done.
Qed.

(** ** Lemmas: strings *)

Lemma trim_start_zeros n l : trim_start (replicate n 0 ++ l) = trim_start l.
Proof. induction n; [done|]. cbn. done. Qed.

Lemma trim_start_nonzero l : (forall b, head l = Some b -> b <> 0) -> trim_start l = l.
Proof. destruct l as [|b l]; [done|]. intros H. cbn. by rewrite (proj2 (Z.eqb_neq _ _)) by by apply H. Qed.

Lemma new_truncate_eq size s :
  SizedString_new_truncate size s = take size s ++ replicate (size - length s) 0.
Proof.
  unfold SizedString_new_truncate. rewrite drop_replicate. destruct (Nat.le_ge_cases (length s) size).
  - rewrite Nat.min_l by done. by rewrite !take_ge by lia.
  - rewrite Nat.min_r by done. by rewrite Nat.sub_diag, (proj2 (Nat.sub_0_le size (length s))) by lia.
Qed.

(** ** Properties *)

(** C32: the ring implements a bounded FIFO: for every sequence of pushes and
    pops that never pushes onto a full queue, the pops return exactly what
    the list specification returns, and nothing panics. *)
Theorem SizedQueue_refines_fifo {T} (size : Z) (ops : list (queue_op T)) (os : list (option T)) :
  0 < size < 2 ^ 63 -> spec_queue size [] ops = Some os ->
  run_queue size (SizedQueue_new size) ops = Done os.
Proof. intros Hs. apply run_queue_spec. by apply queue_repr_new. Qed.

Lemma SizedQueue_refines_fifo_witness :
  run_queue 2 (SizedQueue_new 2) [OpPush 1; OpPush 2; OpPop; OpPush 3; OpPop; OpPop; OpPop]
  = Done [Some 1; Some 2; Some 3; None].
Proof. apply (SizedQueue_refines_fifo 2); [lia|reflexivity]. Defined.

(** A push to a full ring silently overwrites the oldest pending element,
    and the next pop returns the newest one: the oldest message is lost and
    the order is not kept. *)
Theorem SizedQueue_push_full_loses_oldest {T} (size : Z) (q : SizedQueue T) (x : T) (l : list T) (e : T) :
  queue_repr size q (x :: l) -> Z.of_nat (length (x :: l)) = size ->
  exists q' q'', SizedQueue_push size q e = Done q' /\ SizedQueue_pop size q' = Done (q'', Some e).
Proof.
  intros Hr Hl. destruct (push_full_spec size q x l e Hr Hl) as (q' & Hq & Hslot & _).
  unfold SizedQueue_pop. exists q'. rewrite Hslot. cbn. by eexists.
Qed.

Lemma SizedQueue_push_full_loses_oldest_witness : exists q q' q'',
  SizedQueue_push 2 q 3 = Done q' /\ SizedQueue_pop 2 q' = Done (q'', Some 3) /\ queue_repr 2 q [1; 2].
Proof.
  destruct (SizedQueue_push_spec 2 (SizedQueue_new 2) [] 1) as (q1 & _ & Hr1); [apply queue_repr_new; lia|cbn; lia|].
  destruct (SizedQueue_push_spec 2 q1 [1] 2 Hr1) as (q2 & _ & Hr2); [cbn; lia|].
  destruct (SizedQueue_push_full_loses_oldest 2 q2 1 [2] 3 Hr2) as (q' & q'' & H1 & H2); [reflexivity|].
  by exists q2, q', q''.
Defined.

(** A string without NUL bytes at either end survives the round trip
    through [SizedString] cut to the buffer's size, provided the cut does not
    end in NUL. *)
Theorem SizedString_roundtrip (size : nat) (s : list Z) :
  (forall b, head s = Some b -> b <> 0) -> (forall b, head (reverse (take size s)) = Some b -> b <> 0) ->
  length (SizedString_new_truncate size s) = size /\
  SizedString_as_str (SizedString_new_truncate size s) = take size s.
Proof.
  intros Hh Hl. rewrite new_truncate_eq. split.
  { rewrite length_app, length_replicate, length_take. lia. }
  unfold SizedString_as_str. destruct (decide (take size s = [])) as [->|Hne].
  { cbn [app]. rewrite <-(app_nil_r (replicate _ 0)), trim_start_zeros. done. }
  rewrite trim_start_nonzero.
  - unfold trim_end. rewrite reverse_app, reverse_replicate, trim_start_zeros, trim_start_nonzero, reverse_involutive; done.
  - intros b. destruct s as [|c s], size; try done. cbn. intros [= ->]. by apply Hh.
Qed.

Lemma SizedString_roundtrip_witness :
  SizedString_as_str (SizedString_new_truncate 3 [115; 104; 101; 108; 108]) = [115; 104; 101].
Proof. apply (SizedString_roundtrip 3); intros b; cbn; intros [= <-]; lia. Defined.

(** Decoding the kernel's reply: a physical address below 2^63 comes back
    as is, -1 and -2 are the two errors, and any other negative value panics. *)
Theorem translate_address_result_decodes (rax : Z) :
  uint_range 64 rax ->
  (rax < 2 ^ 63 -> translate_address_result rax = Done (Ok rax)) /\
  translate_address_result (2 ^ 64 - 1) = Done (Err PermissionDenied) /\
  translate_address_result (2 ^ 64 - 2) = Done (Err AddressNotMapped) /\
  (2 ^ 63 <= rax < 2 ^ 64 - 2 -> translate_address_result rax = Panic).
Proof.
  intros Hr. split; [|split; [reflexivity|split; [reflexivity|]]].
  - intros Hlt. unfold translate_address_result, as_signed. change (64 - 1) with 63.
    rewrite (proj2 (Z.ltb_lt rax (2 ^ 63))) by lia. rewrite (proj2 (Z.ltb_ge rax 0)) by (unfold uint_range in Hr; lia).
    by rewrite wrap_small.
  - intros Hge. unfold translate_address_result, as_signed. change (64 - 1) with 63.
    rewrite (proj2 (Z.ltb_ge rax (2 ^ 63))) by lia. rewrite (proj2 (Z.ltb_lt (rax - 2 ^ 64) 0)) by lia.
    rewrite !(proj2 (Z.eqb_neq _ _)) by lia. done.
Qed.

Lemma translate_address_result_decodes_witness : translate_address_result 4096 = Done (Ok 4096).
Proof. apply (translate_address_result_decodes 4096); unfold uint_range; lia. Defined.
