(* ===== verification/Input.v ===== *)
(** * crates/input: the global input event queue

    Models [input.rs]. The queue is an array of 64 optional events; a push
    takes the first empty slot or, when there is none, drops the oldest event
    and returns it. Draining is lazy in the source, so it is modelled with the
    number of events its consumer asks for. *)

From Stdlib Require Import Lia.
From stdpp Require Import base numbers list option tactics.
From S2P Require Import Prelude.

Local Open Scope Z_scope.

Definition QUEUE_SIZE : nat := 64.

Inductive InputEvent : Type :=
  | KeyPress (code : Z)
  | MouseMove (delta_x delta_y : Z)
  | MouseWheel (delta : Z).

Abbreviation InputQueue := (list (option InputEvent)).

Definition InputQueue_new : InputQueue := replicate QUEUE_SIZE None.

(** [iter().position(|event| event.is_none())]. *)
Fixpoint position_none (q : InputQueue) : option nat :=
  match q with
  | [] => None
  | None :: _ => Some 0%nat
  | Some _ :: q' => S <$> position_none q'
  end.

(** [slice::rotate_left(1)]. *)
Definition rotate_left_1 (q : InputQueue) : InputQueue :=
  match q with [] => [] | e :: q' => q' ++ [e] end.

(** [&mut self] after the call and the returned [missed_event]. *)
Definition InputQueue_push (q : InputQueue) (event : InputEvent) : exec (InputQueue * option InputEvent) :=
  match position_none q with
  | Some null_index => Done (<[null_index := Some event]> q, None)
  | None =>
      missed_event ← unwrap (q !! 0%nat);
      let q := <[0%nat := None]> q in
      let q := rotate_left_1 q in
      if decide (QUEUE_SIZE - 1 < length q)%nat
      then Done (<[(QUEUE_SIZE - 1)%nat := Some event]> q, missed_event)
      else Panic
  end.

(** [iter_mut().flat_map(|event| event.take())], asked for [n] events. *)
Fixpoint InputQueue_drain (q : InputQueue) (n : nat) : InputQueue * list InputEvent :=
  match q, n with
  | _, O => (q, [])
  | [], _ => ([], [])
  | None :: q', _ => let '(r, es) := InputQueue_drain q' n in (None :: r, es)
  | Some e :: q', S n' => let '(r, es) := InputQueue_drain q' n' in (None :: r, e :: es)
  end.

(** ** Abstraction: the pending events, packed at the front *)

Definition input_repr (q : InputQueue) (l : list InputEvent) : Prop :=
  (length l <= QUEUE_SIZE)%nat /\ q = (Some <$> l) ++ replicate (QUEUE_SIZE - length l) None.

Lemma position_none_packed l n : position_none ((Some <$> l) ++ replicate n None) =
  match n with O => None | S _ => Some (length l) end.
Proof. induction l as [|e l IH]; cbn; [by destruct n|]. rewrite IH. by destruct n. Qed.

Lemma input_repr_new : input_repr InputQueue_new [].
Proof. split; [cbn; lia|done]. Qed.

Lemma input_push_spec q l e : input_repr q l -> (length l < QUEUE_SIZE)%nat ->
  exists q', InputQueue_push q e = Done (q', None) /\ input_repr q' (l ++ [e]).
Proof.
  intros [_ ->] Hl. unfold InputQueue_push. rewrite position_none_packed.
  destruct (QUEUE_SIZE - length l)%nat as [|n] eqn:En; [lia|]. eexists. split; [reflexivity|].
  split; [rewrite length_app; cbn; lia|]. rewrite length_app, fmap_app. cbn [length].
  replace (QUEUE_SIZE - (length l + 1))%nat with n by lia.
  rewrite insert_app_r_alt by by rewrite length_fmap. rewrite length_fmap, Nat.sub_diag.
  rewrite <-app_assoc. done.
Qed.

Lemma input_push_full_spec q x l e : input_repr q (x :: l) -> length (x :: l) = QUEUE_SIZE ->
  exists q', InputQueue_push q e = Done (q', Some x) /\ input_repr q' (l ++ [e]).
Proof.
  intros [_ ->] Hl. unfold InputQueue_push. rewrite position_none_packed, Hl, Nat.sub_diag. cbn [replicate].
  rewrite app_nil_r. cbn [fmap list_fmap unwrap mbind exec_bind lookup list_lookup insert list_insert rotate_left_1].
  assert (length (Some <$> l) = (QUEUE_SIZE - 1)%nat) as Hlen by (rewrite length_fmap; cbn in Hl; lia).
  rewrite decide_True by (rewrite length_app, Hlen; cbn; lia). eexists. split; [reflexivity|].
  split; [rewrite length_app; cbn in *; lia|].
  assert (length (l ++ [e]) = QUEUE_SIZE) as -> by (rewrite length_app; cbn in *; lia).
  rewrite Nat.sub_diag. cbn [replicate]. rewrite app_nil_r, fmap_app.
  rewrite insert_app_r_alt by (rewrite Hlen; done). rewrite Hlen, Nat.sub_diag. done.
Qed.

Lemma drain_none n k : InputQueue_drain (replicate n None) k = (replicate n None, []).
Proof. induction n as [|n IH]; [by destruct k|]. cbn. destruct k; [done|]. by rewrite IH. Qed.

Lemma input_drain_spec l : forall m n, (length l <= n)%nat ->
  InputQueue_drain ((Some <$> l) ++ replicate m None) n = (replicate (length l + m) None, l).
Proof.
  induction l as [|e l IH]; intros m n Hn; [apply drain_none|]. destruct n as [|n]; cbn in Hn; [lia|].
  cbn. rewrite IH by lia. done.
Qed.

(** ** Properties *)

(** A push keeps the events in arrival order: it appends to a queue with
    room and returns nothing; on a full queue it drops and returns exactly the
    oldest event. *)
Theorem InputQueue_push_order (q : InputQueue) (l : list InputEvent) (e : InputEvent) :
  input_repr q l ->
  exists q', InputQueue_push q e = Done (q', if decide (length l < QUEUE_SIZE)%nat then None else head l) /\
    input_repr q' (if decide (length l < QUEUE_SIZE)%nat then l ++ [e] else tail l ++ [e]).
Proof.
  intros Hr. destruct (decide _) as [Hl|Hl]; [by apply input_push_spec|].
  assert (length l = QUEUE_SIZE) by (destruct Hr; lia). destruct l as [|x l]; [done|]. by apply input_push_full_spec.
Qed.

Lemma InputQueue_push_order_witness : exists q', InputQueue_push InputQueue_new (KeyPress 30) = Done (q', None) /\
  input_repr q' [KeyPress 30].
Proof. apply (InputQueue_push_order InputQueue_new []). apply input_repr_new. Defined.

(** Draining completely returns all pending events in arrival order and
    leaves the queue empty. *)
Theorem InputQueue_drain_all (q : InputQueue) (l : list InputEvent) (n : nat) :
  input_repr q l -> (length l <= n)%nat -> InputQueue_drain q n = (InputQueue_new, l).
Proof.
  intros [Hl ->] Hn. rewrite input_drain_spec by done. by replace (length l + (QUEUE_SIZE - length l))%nat with QUEUE_SIZE by lia.
Qed.

Lemma InputQueue_drain_all_witness : InputQueue_drain (Some (KeyPress 1) :: replicate 63 None) 64 = (InputQueue_new, [KeyPress 1]).
Proof. apply (InputQueue_drain_all _ [KeyPress 1]); [split; [unfold QUEUE_SIZE; cbn; lia|reflexivity]|cbn; lia]. Defined.

(** A consumer that stops after one of three events breaks the order: the
    next event pushed fills the freed front slot and is returned before the
    two older ones. *)
Theorem InputQueue_partial_drain_reorders (a b c d : InputEvent) :
  let q := (Some <$> [a; b; c]) ++ replicate 61 None in
  input_repr q [a; b; c] /\
  let '(q1, taken) := InputQueue_drain q 1 in
  taken = [a] /\
  exists q2, InputQueue_push q1 d = Done (q2, None) /\ (InputQueue_drain q2 64).2 = [d; b; c].
Proof.
  split; [split; [unfold QUEUE_SIZE; cbn; lia|reflexivity]|]. split; [reflexivity|]. eexists. split; reflexivity.
Qed.
