(* ===== verification/Desktop.v ===== *)
(** * shell/src/shell.rs: the desktop

    The screen that the shell draws at start, and the part of its main loop
    that moves the pointer and composites its three layers: the panels, the
    text and the pointer. Proved: the pointer stays on the display, and no
    event can make the shell panic or write outside the frame buffer; and how
    the pointer disappears when it moves left or up. *)

From Stdlib Require Import Lia SpecFloat.
From stdpp Require Import base numbers option tactics gmap list.
From S2P Require Import Prelude Float32 Rounding Geometry Font Framebuffer Composite Input.

Local Open Scope Z_scope.

Definition BG_COLOR : Color := Color_rgb 0x1E 0x1E 0x22.
Definition FG_COLOR : Color := Color_rgb 0xA7 0xA7 0xAD.
Definition PANEL_COLOR : Color := Color_rgb 0x2B 0x2B 0x33.

Definition POINTER_HEIGHT : Z := 16.
Definition POINTER_WIDTH : Z := 10.

(** The columns of the pointer. *)
Definition POINTER_IMAGE : list (list Color) :=
  let O := COLOR_NONE in let F := COLOR_BLACK in let B := COLOR_WHITE in [
    [B; B; B; B; B; B; B; B; B; B; B; B; B; B; O; O];
    [O; B; F; F; F; F; F; F; F; F; F; F; F; B; O; O];
    [O; O; B; F; F; F; F; F; F; F; F; F; F; B; O; O];
    [O; O; O; B; F; F; F; F; F; F; F; F; F; B; O; O];
    [O; O; O; O; B; F; F; F; F; F; F; F; F; F; B; O];
    [O; O; O; O; O; B; F; F; F; F; F; F; F; F; F; B];
    [O; O; O; O; O; O; B; F; F; F; F; F; F; F; F; B];
    [O; O; O; O; O; O; O; B; F; F; F; B; B; B; B; B];
    [O; O; O; O; O; O; O; O; B; F; B; O; O; O; O; O];
    [O; O; O; O; O; O; O; O; O; B; O; O; O; O; O; O]
  ].

(** The buffers of [main]: the frame buffer and the three layers, and the
    display's size as numbers. *)
Record Screen : Type := mkScreen {
  framebuffer : Framebuffer; top_fb : ColorBuffer; bottom_fb : ColorBuffer; mouse_fb : ColorBuffer
}.

(** The buffers for a frame buffer and the addresses of the three allocations. *)
Definition make_screen (fb : Framebuffer) (mouse_fb_ptr top_fb_ptr bottom_fb_ptr : Z) : Screen :=
  mkScreen fb (to_color_buffer (with_new_addr fb top_fb_ptr)) (to_color_buffer (with_new_addr fb bottom_fb_ptr))
    (to_color_buffer (Framebuffer_new mouse_fb_ptr POINTER_WIDTH POINTER_HEIGHT)).

(** The loops that draw the pointer into its layer. *)
Definition draw_pointer (buf : ColorBuffer) (m : Words) : exec Words :=
  for_range (Z.to_nat POINTER_HEIGHT) 0 (fun y =>
    for_range (Z.to_nat POINTER_WIDTH) 0 (fun x m =>
      column ← unwrap (POINTER_IMAGE !! Z.to_nat x);
      color ← unwrap (column !! Z.to_nat y);
      cb_draw_pixel buf (ipoint x y) color m)) m.

Definition display_width (s : Screen) : f32 := of_int (s_width (fb_surface (framebuffer s))).
Definition display_height (s : Screen) : f32 := of_int (s_height (fb_surface (framebuffer s))).

(** The numbers 1.31, 1.07 and 2.0 as they are compiled. *)
Definition VIEW_X_RATIO : f32 := of_bits 0x3fa7ae14.
Definition VIEW_Y_RATIO : f32 := of_bits 0x3f88f5c3.
Definition two : f32 := of_int 2.

Definition view_area (s : Screen) : Area :=
  let view_width := fdiv (display_width s) VIEW_X_RATIO in
  let view_height := fdiv (display_height s) VIEW_Y_RATIO in
  let view_x_offset := fsub (display_width s) view_width in
  let view_y_offset := fdiv (fsub (display_height s) view_height) two in
  Area_new (Point_new view_x_offset view_y_offset) (Size_new view_width view_height).

(** "Rhubarb v0.0.0". *)
Definition BAR_TEXT : list Z := [82; 104; 117; 98; 97; 114; 98; 32; 118; 48; 46; 48; 46; 48].

Definition bar_text_y_offset (s : Screen) : f32 := fdiv (fsub (Area_y (view_area s)) (of_int CHAR_HEIGHT)) two.

(** [None] when the fuel of a character runs out. *)
Fixpoint draw_text (fuel : nat) (buf : ColorBuffer) (pos : Point) (text : list Z) (column : Z) (m : Words) : exec (option Words) :=
  match text with
  | [] => Done (Some m)
  | ch :: text =>
      o ← cb_draw_ascii_char fuel buf ch FG_COLOR COLOR_NONE pos column 0 m;
      match o with None => Done None | Some m => draw_text fuel buf pos text (column + 1) m end
  end.

Definition initial_mouse_pos (s : Screen) : Point := Point_new (fdiv (display_width s) two) (fdiv (display_height s) two).

(** The bottom right pixel, which is drawn first to extend the heap once. *)
Definition last_pixel (s : Surface) : Point := Point_const_sub (Point_add_size Point_ORIGIN (asize (surface_area s))) Point_ONE_ONE.

Definition screen_layers (s : Screen) (mouse_pos : Point) : list (ColorBuffer * Point) :=
  [(bottom_fb s, Point_ORIGIN); (top_fb s, Point_ORIGIN); (mouse_fb s, mouse_pos)].

(** The drawing before the main loop. *)
Definition draw_desktop (fuel : nat) (s : Screen) (m : Words) : exec (option Words) :=
  m ← clear_screen (framebuffer s) BG_COLOR m;
  m ← draw_pointer (mouse_fb s) m;
  m ← cb_draw_pixel (top_fb s) (last_pixel (cb_surface (top_fb s))) COLOR_NONE m;
  let m := cb_clear_screen (top_fb s) COLOR_NONE m in
  m ← cb_draw_pixel (bottom_fb s) (last_pixel (cb_surface (bottom_fb s))) COLOR_NONE m;
  let m := cb_clear_screen (bottom_fb s) BG_COLOR m in
  m ← cb_fill_area (bottom_fb s) (view_area s) PANEL_COLOR m;
  o ← draw_text fuel (top_fb s) (Point_new (of_int 5) (bar_text_y_offset s)) BAR_TEXT 0 m;
  match o with
  | None => Done None
  | Some m => m ← composite None (screen_layers s (initial_mouse_pos s)) (framebuffer s) m; Done (Some m)
  end.

(** ** Input *)

Record InputState : Type := mkInputState { mouse_pos : Point }.

(** One coordinate of the pointer after a movement. *)
Definition move_axis (display pos delta : f32) : f32 := fmax (fmin (fsub display fone) (fadd pos delta)) fzero.

Definition move_mouse (s : Screen) (st : InputState) (delta_x delta_y : Z) : InputState :=
  mkInputState (Point_new (move_axis (display_width s) (px (mouse_pos st)) (of_int delta_x))
                          (move_axis (display_height s) (py (mouse_pos st)) (of_int delta_y))).

(** What is drawn again after a movement. *)
Definition mouse_damage (old_mouse_pos : Point) (delta_x delta_y : Z) : Area :=
  Area_new old_mouse_pos (Size_new (fadd (of_int POINTER_WIDTH) (fabs (of_int delta_x))) (fadd (of_int POINTER_HEIGHT) (fabs (of_int delta_y)))).

(** The body of the loop over the events; [inr] leaves the main loop. *)
Definition handle_event (s : Screen) (event : InputEvent) (stm : InputState * Words) : exec ((InputState * Words) + Words) :=
  let '(st, m) := stm in
  let redraw (damage : Area) (st : InputState) :=
    m ← composite (Some damage) (screen_layers s (mouse_pos st)) (framebuffer s) m;
    Done (inl (st, m)) in
  match event with
  | KeyPress code => if code =? 16 then Done (inr m) else redraw (Area_from_size (surface_size (fb_surface (framebuffer s)))) st
  | MouseMove delta_x delta_y => redraw (mouse_damage (mouse_pos st) delta_x delta_y) (move_mouse s st delta_x delta_y)
  | MouseWheel _ => Done (inl (st, m))
  end.

(** [for event in GLOBAL_INPUT_QUEUE.lock().drain()]. *)
Definition handle_events (s : Screen) (events : list InputEvent) (stm : InputState * Words) : exec ((InputState * Words) + Words) :=
  for_ret events (handle_event s) stm.

(** ** The pointer *)

(** A coordinate of a display of [n] pixels. *)
Definition on_axis (n : Z) (x : f32) : Prop := finite x /\ 0 <= rank x <= (n - 1) * 2 ^ 149.
Definition on_display (s : Screen) (p : Point) : Prop :=
  on_axis (s_width (fb_surface (framebuffer s))) (px p) /\ on_axis (s_height (fb_surface (framebuffer s))) (py p).

Lemma move_axis_on n x d : 1 <= n < 2 ^ 22 -> valid x -> valid d -> on_axis n (move_axis (of_int n) x d).
Proof.
  intros Hn Vx Vd. unfold move_axis. change fone with (of_int 1). rewrite fsub_int by lia.
  destruct (edge_rank (n - 1)) as (V & N & R & _); [lia|]. assert (Va : valid (fadd x d)) by (by apply fadd_valid).
  destruct (fmin_le_l _ _ V Va N) as [Nm Rm]. assert (Vm : valid (fmin (of_int (n - 1)) (fadd x d))) by (by apply fmin_valid).
  destruct (fmax_rank _ fzero Vm ltac:(done) Nm ltac:(done)) as [Nx Rx]. change (rank fzero) with 0 in Rx. rewrite R in Rm.
  split; [|lia]. apply (finite_rank _ n); [lia|by apply fmax_valid|done|lia].
Qed.

(** The state of the screen: small buffers, and a known format. *)
Record screen_ok (s : Screen) : Prop := {
  screen_fb : small_surface (fb_surface (framebuffer s));
  screen_size : POINTER_WIDTH <= s_width (fb_surface (framebuffer s)) /\ 1 <= s_height (fb_surface (framebuffer s));
  screen_format : format_ok (fb_format (framebuffer s));
  screen_top : small_surface (cb_surface (top_fb s));
  screen_bottom : small_surface (cb_surface (bottom_fb s));
  screen_mouse : s_width (cb_surface (mouse_fb s)) = POINTER_WIDTH /\ s_height (cb_surface (mouse_fb s)) = POINTER_HEIGHT
}.

(** Redrawing the layers, with a damage at least as wide as the pointer. *)
Lemma redraw_paints s p damage m : screen_ok s -> on_display s p -> valid_area damage -> flt (Area_width damage) (of_int POINTER_WIDTH) = false ->
  exists m', composite (Some damage) (screen_layers s p) (framebuffer s) m = Done m' /\ paints (fb_surface (framebuffer s)) (fun _ => True) m m'.
Proof.
  intros [Hfb Hsz Hfmt Htop Hbot [Hmw Hmh]] [[Fx Hx] [Fy Hy]] Hd Hw. unfold composite, screen_layers. cbn [for_each].
  destruct (composite_at_origin (Some damage) (bottom_fb s) (framebuffer s) m Hbot Hfb Hfmt ltac:(by intros d [= <-])) as (m1 & -> & P1). cbn [mbind exec_bind].
  destruct (composite_at_origin (Some damage) (top_fb s) (framebuffer s) m1 Htop Hfb Hfmt ltac:(by intros d [= <-])) as (m2 & -> & P2). cbn [mbind exec_bind].
  destruct (composite_placed (Some damage) (mouse_fb s) (framebuffer s) p m2) as (m3 & -> & P3); [split; rewrite ?Hmw, ?Hmh; unfold POINTER_WIDTH, POINTER_HEIGHT; lia|done|done|split; by apply finite_valid|by apply finite_not_nan|by apply finite_not_nan|lia|lia| |].
  { unfold shrinks. cbn [surface_size swidth Size_new]. by rewrite Hmw, Hw. }
  cbn [mbind exec_bind]. exists m3. split; [done|]. eapply paints_trans; [exact P1|]. by eapply paints_trans.
Qed.

(** 32-bit deltas. *)
Definition event_ok (e : InputEvent) : Prop :=
  match e with MouseMove dx dy => - 2 ^ 31 <= dx < 2 ^ 31 /\ - 2 ^ 31 <= dy < 2 ^ 31 | _ => True end.

Lemma damage_side n d : 0 <= n < 2 ^ 22 -> Z.abs d <= 2 ^ 32 -> valid (fadd (of_int n) (fabs (of_int d))) /\ flt (fadd (of_int n) (fabs (of_int d))) (of_int n) = false.
Proof.
  intros Hn Hd. destruct (edge_rank n) as (V & N & R & F); [lia|]. destruct (of_int_finite d Hd) as [[Vd Pd] _].
  destruct (fabs_spec (of_int d) Vd) as (Va & Na & Ra). assert (Fa : finite (fabs (of_int d))) by (split; [done|by destruct (of_int d)]).
  destruct (fadd_faithful _ _ F Fa) as (Vs & Ns & Hs). split; [done|]. rewrite flt_rank by done. apply Z.ltb_ge.
  apply (Hs _ V N). lia.
Qed.

Lemma handle_event_spec s event st m : screen_ok s -> event_ok event -> on_display s (mouse_pos st) ->
  exists r, handle_event s event (st, m) = Done r /\
    match r with
    | inl (st', m') => on_display s (mouse_pos st') /\ paints (fb_surface (framebuffer s)) (fun _ => True) m m'
    | inr m' => m' = m
    end.
Proof.
  intros Hs He Hp. pose proof Hs as [[Hw Hh] [Hw1 Hh1] _ _ _ _]. unfold POINTER_WIDTH in Hw1. destruct event as [code|dx dy|delta]; cbn [handle_event].
  - destruct (code =? 16); [by exists (inr m)|]. destruct (edge_rank (s_width (fb_surface (framebuffer s)))) as (V & N & R & _); [lia|].
    destruct (redraw_paints s (mouse_pos st) (Area_from_size (surface_size (fb_surface (framebuffer s)))) m Hs Hp) as (m' & -> & P).
    { split; [done|]. split; cbn [asize Area_from_size surface_size Size_new swidth sheight]; apply edge_rank; lia. }
    { cbn [Area_width asize Area_from_size surface_size Size_new swidth]. rewrite flt_int by (unfold POINTER_WIDTH; lia). apply Z.ltb_ge. unfold POINTER_WIDTH. lia. }
    cbn [mbind exec_bind]. by exists (inl (st, m')).
  - destruct He as [Hdx Hdy]. destruct Hp as [[Fx Hx] [Fy Hy]].
    assert (Hp' : on_display s (mouse_pos (move_mouse s st dx dy))).
    { split; apply move_axis_on; [lia|by apply finite_valid|apply of_int_valid_any|lia|by apply finite_valid|apply of_int_valid_any]. }
    destruct (damage_side POINTER_WIDTH dx) as [Vw Lw]; [unfold POINTER_WIDTH; lia|lia|]. destruct (damage_side POINTER_HEIGHT dy) as [Vh _]; [unfold POINTER_HEIGHT; lia|lia|].
    destruct (redraw_paints s _ (mouse_damage (mouse_pos st) dx dy) m Hs Hp') as (m' & -> & P); [|done|].
    { split; split; [by apply finite_valid|by apply finite_valid|done|done]. }
    cbn [mbind exec_bind]. by exists (inl (move_mouse s st dx dy, m')).
  - exists (inl (st, m)). split; [done|]. split; [done|apply paints_refl].
Qed.

(** C23: Whatever the input driver reports, with any 32-bit movements, in any order:
    handling the events does not panic, leaves the pointer on the display, and
    writes no word outside the frame buffer. *)
Theorem handle_events_safe s events st m : screen_ok s -> Forall event_ok events -> on_display s (mouse_pos st) ->
  exists r, handle_events s events (st, m) = Done r /\
    match r with
    | inl (st', m') => on_display s (mouse_pos st') /\ paints (fb_surface (framebuffer s)) (fun _ => True) m m'
    | inr m' => paints (fb_surface (framebuffer s)) (fun _ => True) m m'
    end.
Proof.
  intros Hs. unfold handle_events. revert st m. induction events as [|e events IH]; intros st m Hev Hp; cbn [for_ret].
  - exists (inl (st, m)). split; [done|]. split; [done|apply paints_refl].
  - apply Forall_cons in Hev as [He Hev]. destruct (handle_event_spec s e st m Hs He Hp) as ([[st1 m1]|m1] & -> & P); cbn [mbind exec_bind].
    + destruct P as [Hp1 P1]. destruct (IH st1 m1 Hev Hp1) as (r & -> & Q). exists r. split; [done|].
      destruct r as [[st2 m2]|m2]; [destruct Q as [? ?]; split; [done|]|]; by eapply paints_trans.
    + exists (inr m1). split; [done|]. subst m1. apply paints_refl.
Qed.

(** A 16 by 4 display; the buffers follow each other in memory. *)
Definition demo_screen : Screen := make_screen (Framebuffer_new 0x1000 16 4) 0x2000 0x3000 0x4000.

Lemma handle_events_safe_witness : exists r,
  handle_events demo_screen [MouseMove (- 2 ^ 31) 5; KeyPress 30; MouseMove 7 (2 ^ 31 - 1); MouseWheel 1; KeyPress 16] (mkInputState (ipoint 3 2), ∅) = Done r.
Proof.
  destruct (handle_events_safe demo_screen [MouseMove (- 2 ^ 31) 5; KeyPress 30; MouseMove 7 (2 ^ 31 - 1); MouseWheel 1; KeyPress 16] (mkInputState (ipoint 3 2)) ∅) as (r & E & _).
  - split; [by split|by split|by left|by split|by split|by split].
  - repeat (apply Forall_cons; split; [cbn; lia|]). apply Forall_nil. done.
  - split; (split; [by vm_compute|by vm_compute]).
  - by exists r.
Defined.

(** *** Movements to the left *)

Lemma move_axis_int n x d : 1 <= n < 2 ^ 22 -> Z.abs x < 2 ^ 22 -> Z.abs d < 2 ^ 22 ->
  move_axis (of_int n) (of_int x) (of_int d) = of_int (Z.max (Z.min (n - 1) (x + d)) 0).
Proof.
  intros Hn Hx Hd. unfold move_axis. change fone with (of_int 1). rewrite fsub_int, fadd_int, fmin_int by lia.
  rewrite <- of_int_zero. by rewrite fmax_int by lia.
Qed.

Lemma fabs_int z : Z.abs z < 2 ^ 24 -> fabs (of_int z) = of_int (Z.abs z).
Proof.
  intros Hz. destruct (of_int_valid z Hz) as (V & N & R). destruct (of_int_valid (Z.abs z)) as (_ & _ & R'); [lia|].
  destruct (fabs_spec (of_int z) V) as (Va & _ & Ra). apply plain_rank_inj; [|apply of_int_plain; lia|rewrite Ra, R, R'; lia].
  split; [done|]. destruct (of_int_plain z Hz) as [_ P]. by destruct (of_int z).
Qed.

(** The damage of a movement starts at the old position of the pointer, also
    when the pointer moves left. After a movement to the left by its width or
    more, its new place is outside the damage: the layers below are drawn again
    over the old place, and the pointer nowhere. *)
Theorem pointer_lost_moving_left s x y dx dy m : screen_ok s -> Z.abs dx < 2 ^ 20 -> Z.abs dy < 2 ^ 20 ->
  0 <= x < s_width (fb_surface (framebuffer s)) -> 0 <= y < s_height (fb_surface (framebuffer s)) ->
  dx <= - POINTER_WIDTH -> 0 <= x + dx ->
  handle_event s (MouseMove dx dy) (mkInputState (ipoint x y), m) =
    (m' ← composite (Some (mouse_damage (ipoint x y) dx dy)) [(bottom_fb s, Point_ORIGIN); (top_fb s, Point_ORIGIN)] (framebuffer s) m;
     Done (inl (move_mouse s (mkInputState (ipoint x y)) dx dy, m'))).
Proof.
  intros [[Hw Hh] _ _ _ _ [Hmw Hmh]] Hdx Hdy Hx Hy Hleft Hnew. unfold POINTER_WIDTH, POINTER_HEIGHT in *. cbn [handle_event mouse_pos].
  set (W := s_width (fb_surface (framebuffer s))) in *. set (H := s_height (fb_surface (framebuffer s))) in *.
  assert (Hlost : forall m, composite_buffer (Some (mouse_damage (ipoint x y) dx dy)) (mouse_fb s) (framebuffer s)
      (mouse_pos (move_mouse s (mkInputState (ipoint x y)) dx dy)) m = Done m).
  { intros m0. unfold composite_buffer, composite_bounds. destruct (_ || _ || _ || _); [done|].
    unfold Area_intersects, Area_max_x, Area_x, Area_with_pos, mouse_damage, move_mouse, display_width, ipoint. fold W H.
    cbn [apos asize px py Area_new Area_width Area_from_size surface_area surface_size Size_new swidth sheight Point_new mouse_pos].
    rewrite Hmw, !move_axis_int by lia. rewrite (fadd_int _ 10) by lia. rewrite (flt_int x) by lia.
    rewrite (proj2 (Z.ltb_ge x _)) by lia. by rewrite andb_false_r. }
  unfold composite, screen_layers. cbn [for_each].
  destruct (composite_buffer _ (bottom_fb s) _ _ m) as [m1|]; cbn [mbind exec_bind]; [|done].
  destruct (composite_buffer _ (top_fb s) _ _ m1) as [m2|]; cbn [mbind exec_bind]; [|done].
  by rewrite Hlost.
Qed.

Lemma pointer_lost_moving_left_witness :
  handle_event demo_screen (MouseMove (- 10) 0) (mkInputState (ipoint 12 0), ∅) =
    (m' ← composite (Some (mouse_damage (ipoint 12 0) (- 10) 0)) [(bottom_fb demo_screen, Point_ORIGIN); (top_fb demo_screen, Point_ORIGIN)] (framebuffer demo_screen) ∅;
     Done (inl (move_mouse demo_screen (mkInputState (ipoint 12 0)) (- 10) 0, m'))).
Proof.
  apply (pointer_lost_moving_left demo_screen 12 0 (- 10) 0 ∅); [|unfold POINTER_WIDTH; cbn; lia..].
  split; [by split|by split|by left|by split|by split|by split].
Defined.

(** The damage is an area of the target, but its edges are compared with the
    source's own coordinates: of a 4 by 4 source at (2, 0), the damage of the two
    first columns of the target's copy draws the two last ones. *)
Example damage_in_wrong_coordinates :
  let source := mkColorBuffer (mkSurface 0x2000 4 4) in let target := Framebuffer_new 0x1000 8 4 in
  exists m', composite_buffer (Some (iarea 2 0 2 2)) source target (ipoint 2 0) (cb_clear_screen source COLOR_WHITE ∅) = Done m' /\
    (fun i => load m' (pixel_addr (fb_surface target) i 0)) <$> [2; 3; 4; 5] = [0; 0; 0xffffff; 0xffffff].
Proof. eexists. split; by vm_compute. Qed.

(** ** The start *)

Definition outside (s : Surface) (b : Z) : Prop := forall i j, in_surface s i j -> b <> pixel_addr s i j.

(** The words outside some buffers are kept. *)
Definition keeps (P : Z -> Prop) (m m' : Words) : Prop := forall b, P b -> m' !! b = m !! b.

Definition runs (P : Z -> Prop) (f : Words -> exec Words) : Prop := forall m, exists m', f m = Done m' /\ keeps P m m'.

Lemma draws_bind P f g : runs P f -> runs P g -> runs P (fun m => m ← f m; g m).
Proof.
  intros Hf Hg m. destruct (Hf m) as (m1 & -> & K1). cbn [mbind exec_bind]. destruct (Hg m1) as (m2 & -> & K2).
  exists m2. split; [done|]. intros b Hb. by rewrite K2, K1.
Qed.

Lemma runs_for_range P n : forall i (f : Z -> Words -> exec Words), (forall j, i <= j < i + Z.of_nat n -> runs P (f j)) -> runs P (for_range n i f).
Proof.
  intros i f Hf m. destruct (for_range_inv (fun _ m' => keeps P m m') f n i m) as (m' & E & K); [done| |by exists m'].
  intros j t Hj Ht. destruct (Hf j Hj t) as (t' & -> & K'). exists t'. split; [done|]. intros b Hb. by rewrite K', Ht.
Qed.

Lemma runs_paints (P : Z -> Prop) s f : (forall b, P b -> outside s b) ->
  (forall m, exists m', f m = Done m' /\ paints s (fun _ => True) m m') -> runs P f.
Proof. intros Hs Hf m. destruct (Hf m) as (m' & -> & Hp). exists m'. split; [done|]. intros b Hb. apply (paints_only _ _ _ _ _ Hp). by apply Hs. Qed.

Lemma runs_draws (P : Z -> Prop) s draw word p c : (forall b, P b -> outside s b) -> draws_pixels s draw word -> valid_point p -> runs P (draw p c).
Proof. intros Hs Hd Hp. apply (runs_paints P s); [done|]. intros m. destruct (Hd p c m Hp) as (m' & E & D). exists m'. split; [done|]. by eexists. Qed.

Lemma clear_surface_keeps s v m : surface_ok s -> keeps (outside s) m (clear_surface s v m).
Proof.
  intros Hs b Hb. unfold clear_surface. rewrite surface_len_eq by done. destruct Hs as [Hw Hh]. apply fill_words_out. intros i Hi.
  assert (Hi' : 0 <= i < s_width s * s_height s) by lia. assert (0 < s_width s) by nia.
  pose proof (Z.div_mod i (s_width s) ltac:(lia)). pose proof (Z.mod_pos_bound i (s_width s) ltac:(lia)).
  replace (s_ptr s + 4 * i) with (pixel_addr s (i mod s_width s) (i / s_width s)) by (unfold pixel_addr, word_addr; lia).
  apply Hb. split; [done|]. split; [apply Z.div_pos; lia|apply Z.div_lt_upper_bound; lia].
Qed.

Lemma pointer_pixel x y : 0 <= x < POINTER_WIDTH -> 0 <= y < POINTER_HEIGHT ->
  exists column color, POINTER_IMAGE !! Z.to_nat x = Some column /\ column !! Z.to_nat y = Some color.
Proof.
  unfold POINTER_WIDTH, POINTER_HEIGHT. intros Hx Hy.
  assert (Hall : Forall (fun c => length c = 16%nat) POINTER_IMAGE) by (apply (bool_decide_unpack _); by vm_compute).
  assert (Hlen : length POINTER_IMAGE = 10%nat) by done.
  destruct (lookup_lt_is_Some_2 POINTER_IMAGE (Z.to_nat x)) as [column Hc]; [rewrite Hlen; lia|].
  pose proof (proj1 (Forall_lookup _ _) Hall _ _ Hc) as Hcl. cbn beta in Hcl.
  destruct (lookup_lt_is_Some_2 column (Z.to_nat y)) as [color Hcol]; [rewrite Hcl; lia|]. by exists column, color.
Qed.

Lemma draw_pointer_runs (P : Z -> Prop) buf : surface_ok (cb_surface buf) -> (forall b, P b -> outside (cb_surface buf) b) -> runs P (draw_pointer buf).
Proof.
  intros Hs HP. apply runs_for_range. intros y Hy. apply runs_for_range. intros x Hx m. unfold POINTER_WIDTH, POINTER_HEIGHT in *.
  destruct (pointer_pixel x y) as (column & color & -> & Hcol); [unfold POINTER_WIDTH; lia|unfold POINTER_HEIGHT; lia|]. cbn [unwrap mbind exec_bind]. rewrite Hcol. cbn [unwrap mbind exec_bind].
  apply (runs_draws P (cb_surface buf) _ Color_word (ipoint x y) color HP); [by apply cb_draw_pixel_draws|]. split; apply of_int_valid_any.
Qed.

Lemma draw_text_runs (P : Z -> Prop) fuel buf pos text : (145 <= fuel)%nat -> surface_ok (cb_surface buf) -> (forall b, P b -> outside (cb_surface buf) b) -> valid_point pos ->
  Forall (fun ch => 0 <= ch) text -> forall column m, exists m', draw_text fuel buf pos text column m = Done (Some m') /\ keeps P m m'.
Proof.
  intros Hfuel Hs HP Hp. induction text as [|ch text IH]; intros Htext column m; cbn [draw_text]; [by exists m|]. apply Forall_cons in Htext as [Hch Htext].
  destruct (draw_char_ends (cb_surface buf) (cb_draw_pixel buf) Color_word Hs (cb_draw_pixel_draws buf Hs) fuel ch FG_COLOR COLOR_NONE pos column 0 m Hfuel Hch Hp) as (m1 & E1 & P1).
  unfold cb_draw_ascii_char. rewrite E1. cbn [mbind exec_bind]. destruct (IH Htext (column + 1) m1) as (m2 & -> & K2). exists m2. split; [done|].
  intros b Hb. rewrite K2 by done. apply (paints_only _ _ _ _ _ P1). by apply HP.
Qed.

Lemma view_area_valid s : valid_area (view_area s) /\ valid (bar_text_y_offset s).
Proof.
  assert (Hdiv : forall x y, valid x -> finite y -> 0 < rank y -> valid (fdiv x y)) by (by intros; apply fdiv_valid).
  assert (H1 : finite VIEW_X_RATIO /\ 0 < rank VIEW_X_RATIO) by (split; by vm_compute).
  assert (H2 : finite VIEW_Y_RATIO /\ 0 < rank VIEW_Y_RATIO) by (split; by vm_compute).
  assert (H3 : finite two /\ 0 < rank two) by (split; by vm_compute).
  assert (Hw : valid (fdiv (display_width s) VIEW_X_RATIO)) by (apply Hdiv; [apply of_int_valid_any|apply H1..]).
  assert (Hh : valid (fdiv (display_height s) VIEW_Y_RATIO)) by (apply Hdiv; [apply of_int_valid_any|apply H2..]).
  assert (Hy : valid (Area_y (view_area s))).
  { cbn [view_area Area_y Area_new apos Point_new py]. apply Hdiv; [|apply H3..]. apply fsub_valid; [apply of_int_valid_any|done]. }
  split; [split; split|].
  - cbn [view_area Area_new apos Point_new px]. apply fsub_valid; [apply of_int_valid_any|done].
  - exact Hy.
  - exact Hw.
  - exact Hh.
  - apply Hdiv; [|apply H3..]. apply fsub_valid; [exact Hy|apply of_int_valid_any].
Qed.

(** The initial position of the pointer is not negative. *)
Lemma half_spec n : 0 <= n < 2 ^ 22 -> valid (fdiv (of_int n) two) /\ is_nan (fdiv (of_int n) two) = false /\ 0 <= rank (fdiv (of_int n) two).
Proof.
  intros Hn. destruct (edge_rank n) as (V & N & R & F); [lia|]. destruct (fdiv_sign (of_int n) two F) as (Hv & Hnan & Hr); [by vm_compute|by vm_compute|].
  split; [done|]. split; [done|]. apply Hr. lia.
Qed.

(** No word outside the four buffers is written. *)
Definition outside_screen (s : Screen) (b : Z) : Prop :=
  outside (fb_surface (framebuffer s)) b /\ outside (cb_surface (top_fb s)) b /\ outside (cb_surface (bottom_fb s)) b /\ outside (cb_surface (mouse_fb s)) b.

(** The drawing at start, for every size of the display: no clamp, slice or
    lookup panics, the loops over the pixels of the characters end, and no word
    outside the frame buffer and the three layers is written. *)
Theorem draw_desktop_safe fuel s m : (145 <= fuel)%nat -> screen_ok s ->
  exists m', draw_desktop fuel s m = Done (Some m') /\ forall b, outside_screen s b -> m' !! b = m !! b.
Proof.
  intros Hfuel [Hfb Hsz Hfmt Htop Hbot [Hmw Hmh]]. set (P := outside_screen s).
  assert (PF : forall b, P b -> outside (fb_surface (framebuffer s)) b) by (by intros b (? & ? & ? & ?)).
  assert (PT : forall b, P b -> outside (cb_surface (top_fb s)) b) by (by intros b (? & ? & ? & ?)).
  assert (PB : forall b, P b -> outside (cb_surface (bottom_fb s)) b) by (by intros b (? & ? & ? & ?)).
  assert (PM : forall b, P b -> outside (cb_surface (mouse_fb s)) b) by (by intros b (? & ? & ? & ?)).
  assert (KM : small_surface (cb_surface (mouse_fb s))) by (split; rewrite ?Hmw, ?Hmh; unfold POINTER_WIDTH, POINTER_HEIGHT; lia).
  pose proof (small_ok _ Hfb) as OF. pose proof (small_ok _ Htop) as OT. pose proof (small_ok _ Hbot) as OB. pose proof (small_ok _ KM) as OM.
  destruct (view_area_valid s) as [[[Vx Vy] [Vw Vh]] Vt].
  assert (Hlast : forall t, surface_ok t -> valid_point (last_pixel t)).
  { intros t [? ?]. unfold last_pixel. split; cbn [px py Point_const_sub Point_new Point_add_size Point_ORIGIN asize surface_area Area_from_size surface_size Size_new swidth sheight Point_ONE_ONE];
      (apply fsub_valid; [apply fadd_valid; [done|apply of_int_valid_any]|apply of_int_valid_any]). }
  assert (R1 : runs P (clear_screen (framebuffer s) BG_COLOR)).
  { intros m0. unfold clear_screen. destruct Hfmt as [->| ->]; cbn [to_u32 mbind exec_bind]; (eexists; split; [reflexivity|]); intros b Hb; by apply clear_surface_keeps, PF. }
  assert (R2 : runs P (draw_pointer (mouse_fb s))) by (by apply draw_pointer_runs).
  assert (R3 : forall c, runs P (cb_draw_pixel (top_fb s) (last_pixel (cb_surface (top_fb s))) c)).
  { intros c. apply (runs_draws P (cb_surface (top_fb s)) _ Color_word); [done|by apply cb_draw_pixel_draws|by apply Hlast]. }
  assert (R4 : forall c, runs P (cb_draw_pixel (bottom_fb s) (last_pixel (cb_surface (bottom_fb s))) c)).
  { intros c. apply (runs_draws P (cb_surface (bottom_fb s)) _ Color_word); [done|by apply cb_draw_pixel_draws|by apply Hlast]. }
  assert (R5 : runs P (cb_fill_area (bottom_fb s) (view_area s) PANEL_COLOR)).
  { intros m0. destruct (fill_surface_draws (cb_surface (bottom_fb s)) (view_area s) (Color_word PANEL_COLOR) m0 OB Vx Vy Vw Vh) as (m1 & E & D).
    exists m1. split; [exact E|]. intros b Hb. apply (drawn_only _ _ _ _ D). by apply PB. }
  destruct (half_spec (s_width (fb_surface (framebuffer s))) (small_width _ Hfb)) as (Vmx & Nmx & Rmx).
  destruct (half_spec (s_height (fb_surface (framebuffer s))) (small_height _ Hfb)) as (Vmy & Nmy & Rmy).
  assert (R6 : runs P (composite None (screen_layers s (initial_mouse_pos s)) (framebuffer s))).
  { apply (draws_bind P (composite_buffer None (bottom_fb s) (framebuffer s) Point_ORIGIN)).
    { apply (runs_paints P _ _ PF). intros m0. by apply composite_at_origin. }
    apply (draws_bind P (composite_buffer None (top_fb s) (framebuffer s) Point_ORIGIN)).
    { apply (runs_paints P _ _ PF). intros m0. by apply composite_at_origin. }
    apply (draws_bind P (composite_buffer None (mouse_fb s) (framebuffer s) (initial_mouse_pos s)) Done); [|intros m0; by exists m0].
    apply (runs_paints P _ _ PF). intros m0. by apply composite_placed. }
  unfold draw_desktop. destruct (R1 m) as (m1 & -> & K1). cbn [mbind exec_bind]. destruct (R2 m1) as (m2 & -> & K2). cbn [mbind exec_bind].
  destruct (R3 COLOR_NONE m2) as (m3 & -> & K3). cbn [mbind exec_bind]. pose proof (clear_surface_keeps (cb_surface (top_fb s)) (Color_word COLOR_NONE) m3 OT) as K4.
  fold (cb_clear_screen (top_fb s) COLOR_NONE m3) in K4. set (m4 := cb_clear_screen (top_fb s) COLOR_NONE m3) in *.
  destruct (R4 COLOR_NONE m4) as (m5 & -> & K5). cbn [mbind exec_bind]. pose proof (clear_surface_keeps (cb_surface (bottom_fb s)) (Color_word BG_COLOR) m5 OB) as K6.
  fold (cb_clear_screen (bottom_fb s) BG_COLOR m5) in K6. set (m6 := cb_clear_screen (bottom_fb s) BG_COLOR m5) in *.
  destruct (R5 m6) as (m7 & -> & K7). cbn [mbind exec_bind].
  destruct (draw_text_runs P fuel (top_fb s) (Point_new (of_int 5) (bar_text_y_offset s)) BAR_TEXT Hfuel OT PT ltac:(split; [apply of_int_valid_any|exact Vt])
    ltac:(unfold BAR_TEXT; repeat (apply Forall_cons; split; [lia|]); by apply Forall_nil) 0 m7) as (m8 & -> & K8). cbn [mbind exec_bind].
  destruct (R6 m8) as (m9 & -> & K9). cbn [mbind exec_bind]. exists m9. split; [done|]. intros b Hb.
  by rewrite K9, K8, K7, K6, K5, K4, K3, K2, K1 by (done || by apply PT || by apply PB).
Qed.

Lemma draw_desktop_safe_witness : exists m', draw_desktop 145 demo_screen ∅ = Done (Some m') /\ m' !! 0x5000 = None.
Proof.
  destruct (draw_desktop_safe 145 demo_screen ∅) as (m' & E & K); [lia|by split; [by split|by split|by left|by split|by split|by split]|].
  exists m'. split; [exact E|]. rewrite K; [done|]. repeat split; intros i j [Hi Hj]; unfold pixel_addr, word_addr; cbn in *; unfold POINTER_WIDTH, POINTER_HEIGHT in *; lia.
Defined.
