(* ===== verification/VirtioInput.v ===== *)
(** * drivers/virtio/src/virtio_input.rs and the input driver

    A VIRTIO input device keeps every descriptor of its queue with the device;
    [poll] takes the events the device has written and gives each descriptor
    back. [moves] are the device's steps, one before each pop. The second part
    is shell/apps/input-driver: the events it passes on. *)

From Stdlib Require Import Lia.
From stdpp Require Import base numbers option strings tactics gmap list.
From S2P Require Import Prelude Pod Bytes Pci Virtqueue VirtioDevice Input.

Local Open Scope Z_scope.

(** ** Codes *)

Definition event_types : list (string * Z) := [
  ("EV_SYN", 0x00); ("EV_KEY", 0x01); ("EV_REL", 0x02); ("EV_ABS", 0x03); ("EV_MSC", 0x04); ("EV_SW", 0x05);
  ("EV_LED", 0x11); ("EV_SND", 0x12); ("EV_REP", 0x14); ("EV_FF", 0x15); ("EV_PWR", 0x16); ("EV_FF_STATUS", 0x17)]%string.

Definition rel_codes : list (string * Z) := [
  ("REL_X", 0x00); ("REL_Y", 0x01); ("REL_Z", 0x02); ("REL_RX", 0x03); ("REL_RY", 0x04); ("REL_RZ", 0x05);
  ("REL_HWHEEL", 0x06); ("REL_DIAL", 0x07); ("REL_WHEEL", 0x08); ("REL_MISC", 0x09); ("REL_RESERVED", 0x0a);
  ("REL_WHEEL_HI_RES", 0x0b); ("REL_HWHEEL_HI_RES", 0x0c)]%string.

Definition key_codes : list (string * Z) := [
  ("KEY_RESERVED", 0); ("KEY_ESC", 1); ("KEY_1", 2); ("KEY_2", 3); ("KEY_3", 4); ("KEY_4", 5); ("KEY_5", 6);
  ("KEY_6", 7); ("KEY_7", 8); ("KEY_8", 9); ("KEY_9", 10); ("KEY_0", 11); ("KEY_MINUS", 12); ("KEY_EQUAL", 13);
  ("KEY_BACKSPACE", 14); ("KEY_TAB", 15); ("KEY_Q", 16); ("KEY_W", 17); ("KEY_E", 18); ("KEY_R", 19); ("KEY_T", 20);
  ("KEY_Y", 21); ("KEY_U", 22); ("KEY_I", 23); ("KEY_O", 24); ("KEY_P", 25); ("KEY_LEFTBRACE", 26);
  ("KEY_RIGHTBRACE", 27); ("KEY_ENTER", 28); ("KEY_LEFTCTRL", 29); ("KEY_A", 30); ("KEY_S", 31); ("KEY_D", 32);
  ("KEY_F", 33); ("KEY_G", 34); ("KEY_H", 35); ("KEY_J", 36); ("KEY_K", 37); ("KEY_L", 38); ("KEY_SEMICOLON", 39);
  ("KEY_APOSTROPHE", 40); ("KEY_GRAVE", 41); ("KEY_LEFTSHIFT", 42); ("KEY_BACKSLASH", 43); ("KEY_Z", 44);
  ("KEY_X", 45); ("KEY_C", 46); ("KEY_V", 47); ("KEY_B", 48); ("KEY_N", 49); ("KEY_M", 50); ("KEY_COMMA", 51);
  ("KEY_DOT", 52); ("KEY_SLASH", 53); ("KEY_RIGHTSHIFT", 54); ("KEY_KPASTERISK", 55); ("KEY_LEFTALT", 56);
  ("KEY_SPACE", 57); ("KEY_CAPSLOCK", 58); ("KEY_F1", 59); ("KEY_F2", 60); ("KEY_F3", 61); ("KEY_F4", 62);
  ("KEY_F5", 63); ("KEY_F6", 64); ("KEY_F7", 65); ("KEY_F8", 66); ("KEY_F9", 67); ("KEY_F10", 68);
  ("KEY_NUMLOCK", 69); ("KEY_SCROLLLOCK", 70); ("KEY_RIGHTALT", 100); ("KEY_LINEFEED", 101); ("KEY_HOME", 102);
  ("KEY_UP", 103); ("KEY_PAGEUP", 104); ("KEY_LEFT", 105); ("KEY_RIGHT", 106); ("KEY_END", 107); ("KEY_DOWN", 108);
  ("KEY_PAGEDOWN", 109); ("KEY_INSERT", 110); ("KEY_DELETE", 111); ("KEY_LEFTMETA", 125); ("KEY_RIGHTMETA", 126);
  ("BTN_LEFT", 0x110); ("BTN_RIGHT", 0x111); ("BTN_MIDDLE", 0x112); ("BTN_SIDE", 0x113); ("BTN_EXTRA", 0x114);
  ("BTN_FORWARD", 0x115); ("BTN_BACK", 0x116); ("BTN_TASK", 0x117); ("BTN_GEAR_DOWN", 0x150); ("BTN_GEAR_UP", 0x151)]%string.

Definition code (table : list (string * Z)) (name : string) : Z :=
  default 0 (snd <$> (list_find (fun e => e.1 = name) table ≫= fun p => Some p.2)).

Definition EV_SYN : Z := code event_types "EV_SYN".
Definition EV_KEY : Z := code event_types "EV_KEY".
Definition EV_REL : Z := code event_types "EV_REL".
Definition REL_X : Z := code rel_codes "REL_X".
Definition REL_Y : Z := code rel_codes "REL_Y".
Definition REL_WHEEL : Z := code rel_codes "REL_WHEEL".
Definition KEY_Q : Z := code key_codes "KEY_Q".

(** ** Events *)

Record VirtioInputEvent : Type := mkInputEvent { ie_type : Z; ie_code : Z; ie_value : Z }.

#[export] Instance Pod_InputEvent : Pod VirtioInputEvent := {|
  size_of := 8;
  align_of := 4;
  from_bytes bs := mkInputEvent (field 2 0 bs) (field 2 2 bs) (field 4 4 bs)
|}.

Definition InputEvent_bytes (e : VirtioInputEvent) : list Z := le_split 2 (ie_type e) ++ le_split 2 (ie_code e) ++ le_split 4 (ie_value e).
Definition InputEvent_wf (e : VirtioInputEvent) : Prop := uint_range 16 (ie_type e) /\ uint_range 16 (ie_code e) /\ uint_range 32 (ie_value e).

#[export] Instance Encoding_InputEvent : PodEncoding VirtioInputEvent.
Proof.
  refine {| to_bytes := InputEvent_bytes; pod_wf := InputEvent_wf |}.
  - done.
  - by exists 2.
  - unfold InputEvent_bytes. encoding_length.
  - unfold InputEvent_bytes. encoding_bytes.
  - unfold InputEvent_bytes, InputEvent_wf. encoding_from.
  - unfold InputEvent_wf. encoding_wf.
Defined.

Definition InputEvent_default : VirtioInputEvent := mkInputEvent 0 0 0.

Definition INPUT_EVENT_SIZE : Z := size_of VirtioInputEvent.

(** ** The device *)

Record InputDevice : Type := mkInputDevice { virtio_device : VirtioDevice; event_queue : Virtqueue }.

Definition INPUT_QUEUE : nat := 64.

Definition push_event (q : Virtqueue) (memory : Memory_bytes) : exec (Virtqueue * Memory_bytes * result unit unit) :=
  push InputEvent_default INPUT_QUEUE q memory [DeviceWrite].

(** [while event_queue.push(&msg).is_ok() {}]; [None] when the fuel runs out. *)
Fixpoint fill (fuel : nat) (q : Virtqueue) (memory : Memory_bytes) : exec (option (Virtqueue * Memory_bytes)) :=
  match fuel with
  | O => Done None
  | S fuel =>
      '(q, memory, r) ← push_event q memory;
      match r with
      | Ok _ => fill fuel q memory
      | Err _ => Done (Some (q, memory))
      end
  end.

(** The loop of [poll]; [None] when the device has no more moves. *)
Fixpoint poll (moves : list (Virtqueue * Memory_bytes -> Virtqueue * Memory_bytes)) (out : list VirtioInputEvent)
    (s : Virtqueue * Memory_bytes) : exec (option (Virtqueue * Memory_bytes * list VirtioInputEvent)) :=
  match moves with
  | [] => Done None
  | move :: moves =>
      let '(q, memory) := move s in
      '(q, r) ← pop INPUT_QUEUE 1 q memory;
      match r with
      | None => Done (Some (q, memory, out))
      | Some resp_list =>
          event ← unwrap (resp_list !! 0%nat);
          event ← unwrap event;
          '(q, memory, r) ← push_event q memory;
          _ ← unwrap (result_ok r);
          poll moves (out ++ [event]) (q, memory)
      end
  end.

Section new.
Context {W : Type} `{Ports W, Mmio W} (fuel : nat) (translate : Z -> option Z) (box_addr : nat -> Z).

(** [Device::new]; the inner [None] is an endless capability list. *)
Definition InputDevice_new (d : Device) (memory : Memory_bytes) (w : W)
    : exec (W * option (result (InputDevice * Memory_bytes) string)) :=
  '(w, r) ← VirtioDevice_new fuel d w;
  match r with
  | None => Done (w, None)
  | Some (Err e) => Done (w, Some (Err e))
  | Some (Ok virtio) =>
      r ← initialize fuel virtio 0 (fun w =>
        '(w, memory, q) ← initialize_queue translate box_addr INPUT_QUEUE INPUT_EVENT_SIZE virtio 0 memory w;
        Done (w, (memory, q))) w;
      match r with
      | None => Done (w, None)
      | Some (w, (memory, q)) =>
          r ← fill (S INPUT_QUEUE) q memory;
          '(q, memory) ← unwrap r;
          Done (w, Some (Ok (mkInputDevice virtio q, memory)))
      end
  end.
End new.

(** ** shell/apps/input-driver *)

(** [as i32]. *)
Definition convert_input_event (event : VirtioInputEvent) : option InputEvent :=
  if ie_type event =? EV_SYN then None
  else if ie_type event =? EV_KEY then
    if ie_value event =? 0 then Some (KeyPress (ie_code event)) else None
  else if ie_type event =? EV_REL then
    let delta := as_signed 32 (ie_value event) in
    if ie_code event =? REL_X then Some (MouseMove delta 0)
    else if ie_code event =? REL_Y then Some (MouseMove 0 delta)
    else if ie_code event =? REL_WHEEL then Some (MouseWheel delta)
    else None
  else None.

(** The body of the driver's loop for the events of one poll: [inr] when it
    exits the process. *)
Definition forward_event (event : VirtioInputEvent) (q : InputQueue) : exec (InputQueue + InputQueue) :=
  match convert_input_event event with
  | None => Done (inl q)
  | Some e =>
      let exit := match e with KeyPress code => code =? KEY_Q | _ => false end in
      '(q, _) ← InputQueue_push q e;
      if exit then Done (inr q) else Done (inl q)
  end.

Definition forward_events (events : list VirtioInputEvent) (q : InputQueue) : exec (InputQueue + InputQueue) :=
  for_ret events forward_event q.

(** ** Queues of single descriptors *)

(** Every descriptor is a chain of its own. *)
Definition all_single (q : Virtqueue) : Prop := forall i D, descs q !! i = Some D -> desc_next D = 0.

Record single_wf (q : Virtqueue) : Prop := {
  sw_queue : queue_wf (T := VirtioInputEvent) INPUT_QUEUE q;
  sw_single : all_single q
}.

(** One descriptor goes to the device; the buffers of the others stay. *)
Lemma push_event_ok q memory h rest : single_wf q -> free q = h :: rest ->
  exists q' memory', push_event q memory = Done (q', memory', Ok tt) /\ single_wf q' /\ free q' = rest /\
    available_descriptors q' = <[h := false]> (available_descriptors q) /\
    device_area (storage q') = device_area (storage q) /\ pop_index q' = pop_index q /\
    (forall i D, descs q !! i = Some D -> exists D', descs q' !! i = Some D' /\ desc_addr D' = desc_addr D) /\
    (forall i D, i <> h -> descs q !! i = Some D -> read_buffer (T := VirtioInputEvent) memory' D = read_buffer memory D).
Proof.
  intros [Hq Hs] Hf. destruct (push_ok InputEvent_default INPUT_QUEUE q memory [DeviceWrite] Hq) as (q' & memory' & E & Hp & Hq').
  { cbn. lia. }
  { rewrite Hf. cbn. lia. }
  { repeat constructor; cbn; unfold uint_range; lia. }
  destruct Hp as [Ha Hw _ _ Hd Hi _]. cbn [length] in *. rewrite Hf in *. cbn [take] in *.
  exists q', memory'. split; [exact E|]. split; [split; [done|]|].
  { intros i D' HD'. destruct (lookup_lt_is_Some_2 (descs q) i) as [D HD].
    { rewrite <-(mw_length _ _ _ _ _ _ _ _ Hw). by eapply lookup_lt_Some. }
    destruct (decide (i = h)) as [->|Hne].
    - destruct (mw_desc _ _ _ _ _ _ _ _ Hw 0%nat h DeviceWrite D) as [Hn _]; [lia|done|done|done|].
      rewrite HD' in Hn. injection Hn as ->. cbn. by apply (Hs h).
    - rewrite (mw_other _ _ _ _ _ _ _ _ Hw) in HD'; [by apply (Hs i)|]. cbn. rewrite list_elem_of_singleton. done. }
  split.
  { rewrite (free_ext (upd_available q (<[h := false]> (available_descriptors q)))) by done.
    destruct (take_descriptor_spec q) as [_ H]. by apply (H h rest). }
  split; [done|]. split; [done|]. split; [done|]. split; [apply (mw_addr _ _ _ _ _ _ _ _ Hw)|].
  intros i D Hne HD. unfold read_buffer. f_equal. apply read_memory_ext. intros x Hx.
  apply (mw_memory _ _ _ _ _ _ _ _ Hw). intros d D' ->%list_elem_of_singleton HD'.
  pose proof (wf_apart _ _ Hq i h D D' Hne HD HD'). lia.
Qed.

Lemma fill_spec memory : forall n q, single_wf q -> length (free q) = n ->
  exists q' memory', fill (S n) q memory = Done (Some (q', memory')) /\ single_wf q' /\ free q' = [] /\
    device_area (storage q') = device_area (storage q) /\ pop_index q' = pop_index q.
Proof.
  intros n. revert memory. induction n as [|n IH]; intros memory q Hq Hl; cbn [fill].
  - exists q, memory. assert (free q = []) as Hf by by apply nil_length_inv. unfold push_event.
    rewrite push_full; [done|unfold INPUT_QUEUE; cbn; lia|rewrite Hf; cbn; lia].
  - destruct (free q) as [|h rest] eqn:Hf; [done|]. destruct (push_event_ok q memory h rest Hq Hf) as (q1 & m1 & E & Hq1 & Hf1 & _ & Hd & Hi & _).
    rewrite E. cbn [mbind exec_bind]. destruct (IH m1 q1 Hq1) as (q' & m' & E' & Hq' & Hf' & Hd' & Hi'); [by rewrite Hf1; injection Hl|].
    exists q', m'. split; [exact E'|]. split_and!; [done|done|congruence|congruence].
Qed.

(** ** Polling *)

(** The device has used the chains [heads], which the driver has not popped. *)
Record pending (q : Virtqueue) (heads : list nat) : Prop := {
  pe_idx : device_idx (device_area (storage q)) = pop_index q + Z.of_nat (length heads);
  pe_range : 0 <= pop_index q /\ pop_index q + Z.of_nat (length heads) < 2 ^ 16;
  pe_heads : NoDup heads;
  pe_bound : Forall (fun h => (h < INPUT_QUEUE)%nat) heads;
  pe_ring : forall i h, heads !! i = Some h -> exists e,
    device_ring (device_area (storage q)) !! Z.to_nat ((pop_index q + Z.of_nat i) mod Z.of_nat INPUT_QUEUE) = Some e /\
    used_id e = Z.of_nat h
}.

Lemma free_single q h : free q = [] -> (h < length (available_descriptors q))%nat ->
  free (upd_available q (<[h := true]> (available_descriptors q))) = [h].
Proof.
  intros Hf Hh. set (q' := upd_available q _).
  assert (free q' ≡ₚ [h]) as Hp; [|by apply Permutation_singleton_r in Hp].
  apply NoDup_Permutation; [apply free_NoDup|apply NoDup_singleton|]. intros i. rewrite elem_of_free, list_elem_of_singleton. cbn.
  destruct (decide (i = h)) as [->|Hne]; [split; [done|]; intros _; by apply list_lookup_insert_eq|].
  rewrite list_lookup_insert_ne by done. rewrite <-elem_of_free, Hf. split; [by intros ?%elem_of_nil|done].
Qed.

Lemma chain_values_ext {T : Type} `{Pod T} memory memory' area area' hs :
  (forall h D, h ∈ hs -> area !! h = Some D -> exists D', area' !! h = Some D' /\ desc_addr D' = desc_addr D /\
     read_buffer (T := T) memory' D = read_buffer memory D) ->
  (forall h, h ∈ hs -> is_Some (area !! h)) ->
  chain_values (T := T) memory' area' hs = chain_values memory area hs.
Proof.
  intros Hv Hall. unfold chain_values. induction hs as [|h hs IH]; [done|]. cbn [omap list_omap].
  destruct (Hall h) as [D HD]; [by left|]. destruct (Hv h D) as (D' & HD' & Ha & Hr); [by left|done|].
  rewrite HD, HD'. cbn. rewrite IH.
  - f_equal. rewrite <-Hr. unfold read_buffer. by rewrite Ha.
  - intros i E Hi HE. apply Hv; [by right|done].
  - intros i Hi. apply Hall. by right.
Qed.

Lemma poll_pending heads : forall q memory out, single_wf q -> free q = [] -> pending q heads ->
  exists q' memory', poll (replicate (S (length heads)) (fun s => s)) out (q, memory) =
      Done (Some (q', memory', out ++ chain_values memory (descs q) heads)) /\
    single_wf q' /\ free q' = [] /\ pop_index q' = device_idx (device_area (storage q')).
Proof.
  induction heads as [|h heads IH]; intros q memory out Hq Hf [Hidx Hrange Hnd Hb Hring].
  - exists q, memory. cbn [length replicate poll]. unfold pop. cbn in Hidx. rewrite Z.add_0_r in Hidx. rewrite (proj2 (Z.eqb_eq _ _) Hidx).
    cbn. rewrite app_nil_r. done.
  - change (replicate (S (length (h :: heads))) (fun s => s))
      with ((fun s : Virtqueue * Memory_bytes => s) :: replicate (S (length heads)) (fun s => s)).
    remember (replicate (S (length heads)) (fun s : Virtqueue * Memory_bytes => s)) as moves eqn:Em.
    cbn [poll]. destruct (Hring 0%nat h eq_refl) as (e & He & Hid). rewrite Z.add_0_r in He.
    apply Forall_cons in Hb as [Hh Hb]. apply NoDup_cons in Hnd as [Hnew Hnd].
    assert (length (available_descriptors q) = INPUT_QUEUE) as Hav by apply (wf_available _ _ (sw_queue q Hq)).
    assert (length (descs q) = INPUT_QUEUE) as Hdl by apply (wf_descs _ _ (sw_queue q Hq)).
    destruct (lookup_lt_is_Some_2 (descs q) h) as [D HD]; [lia|].
    cbn [length] in Hidx, Hrange. rewrite Nat2Z.inj_succ in Hidx, Hrange.
    rewrite (pop_ok INPUT_QUEUE q memory [] h e);
      [|lia|exact He|done|exists D; split; [done|by apply (sw_single q Hq h)]|constructor; [lia|constructor]].
    cbn [mbind exec_bind mark foldr]. unfold chain_values. cbn [omap list_omap fmap option_fmap option_map list_fmap]. rewrite HD.
    cbn [fmap option_fmap option_map list_fmap unwrap lookup list_lookup mbind exec_bind].
    set (q1 := upd_pop_index _ _).
    assert (pop_index q1 = pop_index q + 1) as Hp1 by (apply wrap_small; unfold uint_range; lia).
    assert (free q1 = [h]) as Hf1 by (rewrite <-(free_single q h) by (done || lia); by apply free_ext).
    assert (single_wf q1) as Hq1.
    { destruct Hq as [[] Hs]. split; [|done]. constructor; try done. cbn. by rewrite length_insert. }
    destruct (push_event_ok q1 memory h [] Hq1 Hf1) as (q2 & m2 & E2 & Hq2 & Hf2 & _ & Hd2 & Hi2 & Ha2 & Hm2).
    rewrite E2. cbn [mbind exec_bind result_ok unwrap].
    destruct (IH q2 m2 (out ++ [read_buffer memory D]) Hq2 Hf2) as (q' & m' & E' & Hq' & Hf' & Hi').
    { constructor; rewrite ?Hd2, ?Hi2, ?Hp1; try done; [change (device_area (storage q1)) with (device_area (storage q)); lia|lia|].
      intros i k Hk. destruct (Hring (S i) k Hk) as (e' & He' & Hid'). exists e'. split; [|done]. rewrite <-He'.
      change (device_area (storage q1)) with (device_area (storage q)). do 3 f_equal. lia. }
    exists q', m'. split; [|done]. rewrite E'. rewrite <-app_assoc. cbn [app]. repeat f_equal.
    apply chain_values_ext.
    + intros i Di Hi HDi. destruct (Ha2 i Di HDi) as (D' & HD' & Haddr). exists D'. split; [done|]. split; [done|].
      apply (Hm2 i); [by intros ->|exact HDi].
    + intros i Hi. apply lookup_lt_is_Some_2. rewrite Forall_forall in Hb. specialize (Hb i Hi). lia.
Qed.

(** ** Properties *)


(** A device that is set up has every descriptor of its queue, and nothing is
    pending. *)
Theorem InputDevice_new_full {W : Type} `{Ports W, Mmio W} fuel translate box_addr d memory w w' dev memory' :
  boxes_apart translate box_addr INPUT_QUEUE INPUT_EVENT_SIZE ->
  InputDevice_new fuel translate box_addr d memory w = Done (w', Some (Ok (dev, memory'))) ->
  single_wf (event_queue dev) /\ free (event_queue dev) = [] /\ pending (event_queue dev) [].
Proof.
  intros Hap E. unfold InputDevice_new in E. exec_inv E. destruct x as [w1 [[virtio|]|]]; [|done|done].
  exec_inv E. destruct x as [[w2 [m q]]|]; [|done]. unfold initialize in E1. exec_inv E1. destruct x as [w3|]; [|done].
  destruct (read_status _ _) as [w4 status] in E1. exec_inv E1. exec_inv E1. destruct x0 as [w5 [m' q']]. injection E1 as <- <- <-.
  exec_inv E4. destruct x0 as [[w6 m''] q'']. injection E4 as <- <- <-.
  apply (initialize_queue_ready (T := VirtioInputEvent)) in E1 as (Hq & Hf & Hs & Hp & Hd & _); [|unfold INPUT_QUEUE; lia|by vm_compute|done].
  destruct (fill_spec m'' INPUT_QUEUE q'') as (q1 & m1 & Ef & Hq1 & Hf1 & Hd1 & Hp1); [by split|by rewrite Hf, length_seq|].
  rewrite Ef in E. cbn [mbind exec_bind unwrap] in E. injection E as _ <- _. cbn [event_queue].
  split; [done|]. split; [done|]. constructor; cbn; rewrite ?Hd1, ?Hp1, ?Hp, ?Hd; try done; constructor.
Qed.

Definition index_ok (s : Virtqueue * Memory_bytes) : Prop := uint_range 16 (device_idx (device_area (storage s.1))).

(** A move of the device: its index stays a 16-bit integer. *)
Definition keeps_index (move : Virtqueue * Memory_bytes -> Virtqueue * Memory_bytes) : Prop := forall s,
  index_ok s -> pop_index (move s).1 = pop_index s.1 /\ index_ok (move s).

Lemma pop_advances q memory q' r : 2 ^ 16 <= pop_index q < 2 ^ 64 - 1 -> uint_range 16 (device_idx (device_area (storage q))) ->
  pop (T := VirtioInputEvent) INPUT_QUEUE 1 q memory = Done (q', r) ->
  r <> None /\ pop_index q' = pop_index q + 1 /\ device_area (storage q') = device_area (storage q).
Proof.
  intros Hp Hi E. unfold pop in E. rewrite (proj2 (Z.eqb_neq _ _)) in E by (unfold uint_range in Hi; lia).
  exec_inv E. exec_inv E. destruct x0 as [q1 out]. injection E as <- <-. split; [done|]. cbn.
  assert (pop_index q1 = pop_index q /\ device_area (storage q1) = device_area (storage q)) as [-> ->];
    [|split; [apply wrap_small; unfold uint_range; lia|done]].
  cbn [pop_chain] in E1. exec_inv E1. unfold return_descriptor in E1. exec_inv E1. exec_inv E2. injection E2 as <-.
  case_if_in E1; [by injection E1 as <- _|done].
Qed.

Lemma push_event_keeps q memory q' memory' r : push_event q memory = Done (q', memory', r) -> r = Ok tt ->
  pop_index q' = pop_index q /\ device_area (storage q') = device_area (storage q).
Proof.
  intros E ->. unfold push_event, push in E. exec_inv E. exec_inv E. destruct x0 as [q1 [ds|]]; [|done].
  rewrite reserve_spec in E1. case_if_in E1; [|done]. injection E1 as <- <-. exec_inv E. destruct x0 as [area m]. exec_inv E.
  injection E as <- _. done.
Qed.

(** After 65536 events a poll never returns: whatever the device does from
    then on, [pop_index] has left the range of the 16-bit index it is compared
    with, so the loop never sees an empty ring. *)
Theorem poll_never_returns moves : forall out s r, Forall keeps_index moves -> index_ok s ->
  2 ^ 16 <= pop_index s.1 -> pop_index s.1 + Z.of_nat (length moves) < 2 ^ 64 - 1 ->
  poll moves out s <> Done (Some r).
Proof.
  induction moves as [|move moves IH]; intros out s r Hm Hs Hp Hlen E; [done|]. cbn [length poll] in *.
  apply Forall_cons in Hm as [Hmove Hm]. destruct (Hmove s Hs) as [Hmp Hmd]. destruct (move s) as [q0 m0]. unfold index_ok in Hmd. cbn [fst] in *.
  exec_inv E. destruct x as [q1 o]. destruct (pop_advances q0 m0 q1 o) as (Ho & Hp1 & Hd1); [lia|done|done|].
  destruct o as [resp|]; [|done]. exec_inv E. exec_inv E. exec_inv E. destruct x1 as [[q2 m2] [[]|]]; [|done]. cbn [result_ok unwrap mbind exec_bind] in E.
  apply push_event_keeps in E3 as [Hp2 Hd2]; [|done].
  refine (IH _ (q2, m2) r Hm _ _ _ E); unfold index_ok; cbn [fst]; [by rewrite Hd2, Hd1|lia|lia].
Qed.

(** An event that ends the driver. *)
Definition quits (event : VirtioInputEvent) : bool :=
  match convert_input_event event with Some (KeyPress code) => code =? KEY_Q | _ => false end.

(** The events up to the first that ends the driver. *)
Fixpoint until_quit (events : list VirtioInputEvent) : list VirtioInputEvent :=
  match events with
  | [] => []
  | e :: events => if quits e then [e] else e :: until_quit events
  end.

(** The driver passes on exactly the key and pointer events it was given, in
    order, up to the first press of Q, at which it exits. *)
Theorem forward_events_spec events : forall q l, input_repr q l ->
  (length l + length (omap convert_input_event (until_quit events)) <= Input.QUEUE_SIZE)%nat ->
  exists q', forward_events events q = Done (if existsb quits events then inr q' else inl q') /\
    input_repr q' (l ++ omap convert_input_event (until_quit events)).
Proof.
  induction events as [|e events IH]; intros q l Hq Hl.
  - exists q. cbn. by rewrite app_nil_r.
  - unfold forward_events in *. cbn [for_ret existsb until_quit] in *. unfold forward_event, quits in *.
    destruct (convert_input_event e) as [ev|] eqn:Ee; cbn [omap list_omap length] in Hl |- *; rewrite ?Ee in Hl |- *.
    2:{ destruct (IH q l Hq) as (q' & E & Hq'); [exact Hl|]. cbn [mbind exec_bind orb]. by exists q'. }
    assert (forall b : bool, (length l + length (omap convert_input_event (if b then [e] else e :: until_quit events)) <= Input.QUEUE_SIZE)%nat ->
      (length l < Input.QUEUE_SIZE)%nat) as Hroom by (intros [] Hb; cbn [omap list_omap] in Hb; rewrite Ee in Hb; cbn [length] in Hb; lia).
    destruct (input_push_spec q l ev Hq (Hroom _ Hl)) as (q1 & E1 & Hq1). rewrite E1. cbn [mbind exec_bind].
    destruct (match ev with KeyPress code => code =? KEY_Q | _ => false end); cbn [mbind exec_bind orb omap list_omap] in *; rewrite ?Ee in *.
    + exists q1. split; [done|]. exact Hq1.
    + destruct (IH q1 (l ++ [ev]) Hq1) as (q' & E & Hq'); [rewrite length_app; cbn [length] in *; lia|].
      exists q'. split; [done|]. by rewrite <-app_assoc in Hq'.
Qed.

(** ** Witnesses *)

(** The device has used descriptors 5 and 2, in this order. *)
Definition used_queue (pop device : Z) : Virtqueue :=
  mkVirtqueue 0 (mkStorage ((fun i => mkDesc (8 * i) 8 2 0) <$> seqZ 0 64) (mkAvailableRing 0 64 (seqZ 0 64) 0)
    (mkUsedRing 0 device ([mkUsedElement 5 8; mkUsedElement 2 8] ++ replicate 62 (mkUsedElement 0 8)) 0)) pop 0 (replicate 64 false).

Definition used_memory : Memory_bytes :=
  write_memory (write_memory (mkBytes ∅ (fun _ => 0)) 40 (to_bytes (mkInputEvent 1 16 0))) 16 (to_bytes (mkInputEvent 2 0 7)).

Lemma used_queue_wf pop device : single_wf (used_queue pop device).
Proof.
  split.
  - constructor; try (cbn; done). intros i j D E Hij HD HE. cbn [descs used_queue storage descriptor_area] in HD, HE.
    rewrite list_lookup_fmap in HD, HE. destruct (seqZ 0 64 !! i) as [a|] eqn:Ea; [|done]. destruct (seqZ 0 64 !! j) as [b|] eqn:Eb; [|done].
    apply lookup_seqZ in Ea as [-> _], Eb as [-> _]. injection HD as <-. injection HE as <-. cbn. lia.
  - intros i D HD. cbn [descs used_queue storage descriptor_area] in HD. rewrite list_lookup_fmap in HD.
    by destruct (seqZ 0 64 !! i); [injection HD as <-|].
Qed.


Definition device_of (r : exec (VirtioMachine * option (result (InputDevice * Memory_bytes) string))) : option (InputDevice * Memory_bytes) :=
  match r with Done (_, Some (Ok x)) => Some x | _ => None end.

Lemma device_of_inv r x : device_of r = Some x -> exists w, r = Done (w, Some (Ok x)).
Proof. destruct r as [[w [[y|]|]]|]; cbn; try done. intros [= ->]. by exists w. Qed.

Lemma InputDevice_new_full_witness : exists w' dev memory',
  InputDevice_new 10 Some example_box example_device (mkBytes ∅ (fun _ => 0)) example_virtio = Done (w', Some (Ok (dev, memory'))) /\
  free (event_queue dev) = [].
Proof.
  destruct (device_of (InputDevice_new 10 Some example_box example_device (mkBytes ∅ (fun _ => 0)) example_virtio)) as [[dev memory']|] eqn:E;
    [|vm_compute in E; discriminate E].
  apply device_of_inv in E as (w' & E). exists w', dev, memory'. split; [exact E|].
  apply (InputDevice_new_full 10 Some example_box example_device (mkBytes ∅ (fun _ => 0)) example_virtio w' dev memory'); [|exact E].
  apply example_boxes_apart. by vm_compute.
Defined.

Lemma poll_never_returns_witness : ~ exists r, poll (replicate 1000 (fun s => s)) [] (used_queue 65536 0, used_memory) = Done (Some r).
Proof.
  intros [r Hr]. revert Hr. apply poll_never_returns.
  - apply Forall_replicate. by intros s Hs.
  - cbn. unfold index_ok, uint_range. cbn. lia.
  - cbn. lia.
  - rewrite length_replicate. cbn. lia.
Defined.

Definition some_events : list VirtioInputEvent :=
  [mkInputEvent 2 0 (2 ^ 32 - 3); mkInputEvent 0 0 0; mkInputEvent 1 16 0; mkInputEvent 1 30 0].

Lemma forward_events_spec_witness : exists q', forward_events some_events InputQueue_new = Done (inr q') /\
  input_repr q' [MouseMove (-3) 0; KeyPress 16].
Proof.
  destruct (forward_events_spec some_events InputQueue_new [] input_repr_new ltac:(vm_compute; lia)) as (q' & E & Hr).
  exists q'. split; [exact E|]. replace [MouseMove (-3) 0; KeyPress 16] with ([] ++ omap convert_input_event (until_quit some_events)) by by vm_compute.
  exact Hr.
Defined.
