(* ===== verification/SpinMutex.v ===== *)
(** * crates/spin-mutex: locks

    Models [spin_mutex.rs]. The atomic operations are
    functions on the lock word; a thread is a program counter inside [lock],
    [try_lock] or a critical section, and an interleaving of threads is a
    sequence of atomic steps. The weak compare-exchange may fail spuriously. *)

From Stdlib Require Import Lia.
From stdpp Require Import base numbers list option tactics gmap relations.
From S2P Require Import Prelude.

(** ** The lock word and its atomic operations *)

Record Mutex (T : Type) : Type := mkMutex { lock_word : bool; lock_data : T }.
Arguments mkMutex {T} _ _.
Arguments lock_word {T} _.
Arguments lock_data {T} _.

Definition LOCKED : bool := true.
Definition UNLOCKED : bool := false.

Definition Mutex_new {T} (data : T) : Mutex T := mkMutex UNLOCKED data.
Definition Mutex_into_inner {T} (m : Mutex T) : T := lock_data m.
Definition is_locked {T} (m : Mutex T) : bool := lock_word m.
Definition force_unlock {T} (m : Mutex T) : Mutex T := mkMutex false (lock_data m).

(** [compare_exchange]: the new word and whether it succeeded. *)
Definition compare_exchange (word current new : bool) : bool * bool :=
  if Bool.eqb word current then (new, true) else (word, false).

(** [compare_exchange_weak]: as above, but it may fail spuriously. *)
Definition compare_exchange_weak (spurious word current new : bool) : bool * bool :=
  if spurious then (word, false) else compare_exchange word current new.

(** The mutex after the call and whether a guard was returned. *)
Definition try_lock {T} (m : Mutex T) : Mutex T * bool :=
  let '(word, ok) := compare_exchange (lock_word m) UNLOCKED LOCKED in
  (mkMutex word (lock_data m), ok).

Definition try_lock_weak {T} (spurious : bool) (m : Mutex T) : Mutex T * bool :=
  let '(word, ok) := compare_exchange_weak spurious (lock_word m) UNLOCKED LOCKED in
  (mkMutex word (lock_data m), ok).

(** [Mutex::lock] where no one else runs: [None] after [spins] attempts. *)
Fixpoint lock_alone {T} (spins : nat) (m : Mutex T) : option (Mutex T) :=
  match spins with
  | O => None
  | S spins => let '(m', ok) := try_lock_weak false m in if ok then Some m' else lock_alone spins m
  end.

Lemma lock_alone_spec {T} spins (m : Mutex T) :
  lock_alone spins m = if lock_word m then None else match spins with O => None | S _ => Some (mkMutex true (lock_data m)) end.
Proof. destruct m as [[] d]; induction spins as [|spins IH]; try done. Qed.

(** [Deref]/[DerefMut] of the guard, and its [Drop]. *)
Definition Guard_deref {T} (m : Mutex T) : T := lock_data m.
Definition Guard_deref_mut {T} (m : Mutex T) (v : T) : Mutex T := mkMutex (lock_word m) v.
Definition Guard_drop {T} (m : Mutex T) : Mutex T := mkMutex false (lock_data m).

(** ** Threads *)

(** Where a thread is: outside, about to try the exchange of [lock], in the
    inner waiting loop, or holding a guard. *)
Inductive thread_pc : Type := Outside | Trying | Waiting | Holding.

#[export] Instance thread_pc_eq_dec : EqDecision thread_pc.
Proof. solve_decision. Defined.

Inductive lock_action (T : Type) : Type :=
  | CallLock | Exchange (spurious : bool) | Poll | CallTryLock | Update (f : T -> T) | DropGuard.
Arguments CallLock {T}.
Arguments Exchange {T} spurious.
Arguments Poll {T}.
Arguments CallTryLock {T}.
Arguments Update {T} f.
Arguments DropGuard {T}.

(** One atomic step of one thread: [Mutex::lock] is [CallLock], then
    [Exchange] until it succeeds, with [Poll] (the [while self.is_locked()]
    loop around [spin_loop]) in between. *)
Definition thread_step {T} (a : lock_action T) (m : Mutex T) (pc : thread_pc) : option (Mutex T * thread_pc) :=
  match a, pc with
  | CallLock, Outside => Some (m, Trying)
  | Exchange spurious, Trying =>
      let '(m', ok) := try_lock_weak spurious m in Some (m', if ok then Holding else Waiting)
  | Poll, Waiting => Some (m, if is_locked m then Waiting else Trying)
  | CallTryLock, Outside => let '(m', ok) := try_lock m in Some (m', if ok then Holding else Outside)
  | Update f, Holding => Some (Guard_deref_mut m (f (Guard_deref m)), Holding)
  | DropGuard, Holding => Some (Guard_drop m, Outside)
  | _, _ => None
  end.

Record lock_system (T : Type) : Type := mkLockSys { sys_mutex : Mutex T; sys_threads : gmap nat thread_pc }.
Arguments mkLockSys {T} _ _.
Arguments sys_mutex {T} _.
Arguments sys_threads {T} _.

Definition sys_step_fn {T} (t : nat) (a : lock_action T) (s : lock_system T) : option (lock_system T) :=
  pc ← sys_threads s !! t;
  '(m', pc') ← thread_step a (sys_mutex s) pc;
  Some (mkLockSys m' (<[t := pc']> (sys_threads s))).

Inductive sys_step {T} : lock_system T -> lock_system T -> Prop :=
  | SysStep t a s s' : sys_step_fn t a s = Some s' -> sys_step s s'.

(** [n] threads outside a fresh mutex. *)
Definition sys_init {T} (data : T) (n : nat) : lock_system T :=
  mkLockSys (Mutex_new data) (list_to_map ((fun t => (t, Outside)) <$> seq 0 n)).

(** ** Invariant *)

(** The lock word is set exactly when some thread holds a guard, and no two
    threads hold one. *)
Record lock_inv {T} (s : lock_system T) : Prop := {
  li_word : lock_word (sys_mutex s) = true <-> exists t, sys_threads s !! t = Some Holding;
  li_unique : forall t u, sys_threads s !! t = Some Holding -> sys_threads s !! u = Some Holding -> t = u
}.

Lemma lock_inv_init {T} (data : T) n : lock_inv (sys_init data n).
Proof.
  assert (Hout : forall t pc, sys_threads (sys_init data n) !! t = Some pc -> pc = Outside).
  { intros t pc Hl. apply elem_of_list_to_map_2 in Hl. apply list_elem_of_fmap in Hl as (? & [= -> ->] & _). done. }
  split; [split; [done|]|]; [intros [t Ht]|intros t u Ht]; by apply Hout in Ht.
Qed.

(** The effect of a step on the word and on the thread's own counter. *)
Lemma thread_step_word {T} (a : lock_action T) m pc m' pc' : thread_step a m pc = Some (m', pc') ->
  (pc <> Holding /\ pc' <> Holding /\ lock_word m' = lock_word m) \/
  (pc = Holding /\ pc' = Holding /\ lock_word m' = lock_word m) \/
  (pc <> Holding /\ pc' = Holding /\ lock_word m = false /\ lock_word m' = true) \/
  (pc = Holding /\ pc' <> Holding /\ lock_word m' = false).
Proof.
  destruct m as [w d]. destruct a as [|[]| | | |], pc; cbn; try done; try destruct w; intros [= <- <-]; cbn; tauto || naive_solver.
Qed.

Lemma lock_inv_step {T} (s s' : lock_system T) : lock_inv s -> sys_step s s' -> lock_inv s'.
Proof.
  intros [Hw Hu] Hs. destruct Hs as [t a s s' E]. unfold sys_step_fn in E.
  destruct (sys_threads s !! t) as [pc|] eqn:Ht; cbn in E; [|done].
  destruct (thread_step a (sys_mutex s) pc) as [[m' pc']|] eqn:Et; cbn in E; [|done]. injection E as <-.
  assert (Hoth : forall u, u <> t -> <[t:=pc']> (sys_threads s) !! u = sys_threads s !! u) by (intros; by rewrite lookup_insert_ne).
  destruct (thread_step_word _ _ _ _ _ Et) as [(H1 & H2 & Hm)|[(-> & -> & Hm)|[(H1 & -> & Hm0 & Hm)|(-> & H2 & Hm)]]]; split; cbn [sys_mutex sys_threads].
  - rewrite Hm, Hw. split; intros [u Hu']; exists u; destruct (decide (u = t)) as [->|]; rewrite ?lookup_insert_eq, ?Hoth in *; congruence.
  - intros u v. destruct (decide (u = t)) as [->|], (decide (v = t)) as [->|]; rewrite ?lookup_insert_eq, ?Hoth by done; try congruence. apply Hu.
  - rewrite Hm, Hw. split; intros [u Hu']; (destruct (decide (u = t)) as [->|]; [exists t|exists u]); rewrite ?lookup_insert_eq, ?Hoth in *; done.
  - intros u v. destruct (decide (u = t)) as [->|], (decide (v = t)) as [->|]; rewrite ?lookup_insert_eq, ?Hoth by done; [done|..]; intros; by apply Hu.
  - rewrite Hm. split; [|done]. intros _. exists t. by rewrite lookup_insert_eq.
  - assert (Hno : forall u, sys_threads s !! u <> Some Holding).
    { intros u Hu'. assert (lock_word (sys_mutex s) = true) by (apply Hw; eauto). congruence. }
    intros u v. destruct (decide (u = t)) as [->|], (decide (v = t)) as [->|]; rewrite ?lookup_insert_eq, ?Hoth by done; [done|..]; intros; exfalso; eapply Hno; eauto.
  - rewrite Hm. split; [done|]. intros [u Hu']. destruct (decide (u = t)) as [->|]; [rewrite lookup_insert_eq in Hu'; congruence|].
    rewrite Hoth in Hu' by done. by assert (u = t) by by apply Hu.
  - intros u v. destruct (decide (u = t)) as [->|], (decide (v = t)) as [->|]; rewrite ?lookup_insert_eq, ?Hoth by done; try congruence. apply Hu.
Qed.

Lemma lock_inv_reachable {T} (s s' : lock_system T) : lock_inv s -> rtc sys_step s s' -> lock_inv s'.
Proof. intros Hi Hr. induction Hr; [done|]. eauto using lock_inv_step. Qed.

(** ** Properties *)

(** C30: mutual exclusion: in every state any interleaving of [lock],
    [try_lock], guard accesses and guard drops reaches, at most one thread
    holds a guard, and the lock word is set exactly while one does. *)
Theorem mutual_exclusion {T} (data : T) (n : nat) (s : lock_system T) :
  rtc sys_step (sys_init data n) s ->
  (forall t u, sys_threads s !! t = Some Holding -> sys_threads s !! u = Some Holding -> t = u) /\
  (is_locked (sys_mutex s) = true <-> exists t, sys_threads s !! t = Some Holding).
Proof. intros Hr. destruct (lock_inv_reachable _ _ (lock_inv_init data n) Hr) as [Hw Hu]. by split. Qed.

Lemma mutual_exclusion_witness :
  exists s, rtc sys_step (sys_init 0 2) s /\ sys_threads s !! 0 = Some Holding /\ is_locked (sys_mutex s) = true.
Proof.
  eexists. assert (Hr : rtc sys_step (sys_init 0 2) (mkLockSys (mkMutex true 0) {[0 := Holding; 1 := Outside]})).
  { eapply rtc_l; [apply (SysStep 0 CallTryLock); vm_compute; reflexivity|apply rtc_refl]. }
  split; [exact Hr|]. split; [reflexivity|]. apply (mutual_exclusion 0 2 _ Hr). exists 0. reflexivity.
Defined.

(** The protected data changes only in steps of the thread that holds the
    guard. *)
Theorem data_changes_only_under_guard {T} (data : T) (n : nat) (s s' : lock_system T) (t : nat) (a : lock_action T) :
  rtc sys_step (sys_init data n) s -> sys_step_fn t a s = Some s' ->
  lock_data (sys_mutex s') <> lock_data (sys_mutex s) ->
  sys_threads s !! t = Some Holding /\ is_locked (sys_mutex s) = true /\
  (forall u, sys_threads s !! u = Some Holding -> u = t).
Proof.
  intros Hr E Hd. destruct (lock_inv_reachable _ _ (lock_inv_init data n) Hr) as [Hw Hu]. unfold sys_step_fn in E.
  destruct (sys_threads s !! t) as [pc|] eqn:Ht; cbn in E; [|done].
  destruct (thread_step a (sys_mutex s) pc) as [[m' pc']|] eqn:Et; cbn in E; [|done]. injection E as <-. cbn in Hd.
  assert (pc = Holding) as ->.
  { destruct (sys_mutex s) as [w d]. destruct a as [|[]| | | |], pc; cbn in Et; try done; try destruct w; injection Et as <- <-; done. }
  split; [done|]. split; [apply Hw; eauto|]. intros u Hu'. by apply Hu.
Qed.

Lemma data_changes_only_under_guard_witness :
  sys_threads (mkLockSys (mkMutex true 0) {[0 := Holding; 1 := Outside]}) !! 0 = Some Holding.
Proof.
  apply (data_changes_only_under_guard 0 2 (mkLockSys (mkMutex true 0) {[0 := Holding; 1 := Outside]})
    (mkLockSys (mkMutex true 1) {[0 := Holding; 1 := Outside]}) 0 (Update S)).
  - eapply rtc_l; [apply (SysStep 0 CallTryLock); vm_compute; reflexivity|apply rtc_refl].
  - vm_compute. reflexivity.
  - cbn. lia.
Defined.

(** A waiting thread gets the lock: once the mutex is free, a thread in
    the waiting loop of [lock] that runs for two steps without a spurious
    failure holds the guard. *)
Theorem free_lock_is_acquired {T} (s : lock_system T) (t : nat) :
  is_locked (sys_mutex s) = false -> sys_threads s !! t = Some Waiting ->
  exists s1 s2, sys_step_fn t Poll s = Some s1 /\ sys_step_fn t (Exchange false) s1 = Some s2 /\
    sys_threads s2 !! t = Some Holding /\ lock_data (sys_mutex s2) = lock_data (sys_mutex s).
Proof.
  intros Hf Ht. destruct s as [[w d] ts]. unfold is_locked in Hf. cbn in *. subst w.
  unfold sys_step_fn. cbn [sys_threads]. rewrite Ht. cbn. eexists _, _. split; [reflexivity|].
  cbn. rewrite lookup_insert_eq. cbn. split; [reflexivity|]. cbn. by rewrite lookup_insert_eq.
Qed.

Lemma free_lock_is_acquired_witness : exists s1 s2,
  sys_step_fn 3 Poll (mkLockSys (mkMutex false 7) {[3 := Waiting]}) = Some s1 /\
  sys_step_fn 3 (Exchange false) s1 = Some s2 /\ sys_threads s2 !! 3 = Some Holding.
Proof.
  destruct (free_lock_is_acquired (mkLockSys (mkMutex false 7) {[3 := Waiting]}) 3) as (s1 & s2 & H1 & H2 & H3 & _);
    [reflexivity|reflexivity|]. by exists s1, s2.
Defined.
