(* ===== verification/DeferMutex.v ===== *)
(** * crates/defer-mutex: a lock that gives way

    Models [defer_mutex.rs], and the stress test of [spin_mutex.rs] as the
    program that uses a lock: workers that each add one to a shared counter a
    number of times, with a load and a store under the lock. Proved: no
    addition is lost under any interleaving, on one processor with the
    scheduler's round robin the workers end, and a worker that waits gives
    the processor up by itself, which one that spins does not. *)

From Stdlib Require Import Lia.
From stdpp Require Import base numbers option tactics list relations.
From S2P Require Import Prelude SpinMutex.

Local Open Scope Z_scope.

(** ** The lock *)

Record DeferMutex (T : Type) : Type := mkDefer { defer_inner : Mutex T }.
Arguments mkDefer {T} _.
Arguments defer_inner {T} _.

Definition DeferMutex_new {T} (data : T) : DeferMutex T := mkDefer (Mutex_new data).

(** A process inside [lock]: about to try the exchange, or in the inner loop. *)
Inductive LockPc : Type := LockTry | LockWait.

(** One step of [DeferMutex::lock]: the lock, where it goes on ([None] with
    the guard), and whether it has deferred. *)
Definition DeferMutex_lock_step {T} (spurious : bool) (l : DeferMutex T) (pc : LockPc) : DeferMutex T * option LockPc * bool :=
  match pc with
  | LockTry => let '(m, ok) := try_lock_weak spurious (defer_inner l) in (mkDefer m, if ok then None else Some LockWait, false)
  | LockWait => if is_locked (defer_inner l) then (l, Some LockWait, true) else (l, Some LockTry, false)
  end.

(** [Mutex::lock] is the same loop, but it stays on the processor. *)
Definition Mutex_lock_step {T} (spurious : bool) (l : Mutex T) (pc : LockPc) : Mutex T * option LockPc * bool :=
  match pc with
  | LockTry => let '(m, ok) := try_lock_weak spurious l in (m, if ok then None else Some LockWait, false)
  | LockWait => if is_locked l then (l, Some LockWait, false) else (l, Some LockTry, false)
  end.

(** ** The workers of the stress test *)

Inductive WorkerPc : Type := Between | Locking (pc : LockPc) | Locked | Loaded (v : Z) | Stored.

(** A worker and the additions it still has to finish. *)
Record Worker : Type := mkWorker { rounds : nat; worker_pc : WorkerPc }.

(** A step of [inc] with either lock; [None] when it has returned. *)
Definition worker_step (deferring spurious : bool) (m : Mutex unit) (count : Z) (w : Worker) : option (Mutex unit * Z * Worker * bool) :=
  match worker_pc w with
  | Between => match rounds w with O => None | S _ => Some (m, count, mkWorker (rounds w) (Locking LockTry), false) end
  | Locking pc =>
      let '(m', pc', deferred) :=
        if deferring then let '(l, pc', d) := DeferMutex_lock_step spurious (mkDefer m) pc in (defer_inner l, pc', d) else Mutex_lock_step spurious m pc in
      Some (m', count, mkWorker (rounds w) (match pc' with Some pc' => Locking pc' | None => Locked end), deferred)
  | Locked => Some (m, count, mkWorker (rounds w) (Loaded count), false)
  | Loaded v => Some (m, wrap 32 (v + 1), mkWorker (rounds w) Stored, false)
  | Stored => Some (Guard_drop m, count, mkWorker (pred (rounds w)) Between, false)
  end.

Record Stress : Type := mkStress { stress_lock : Mutex unit; stress_count : Z; stress_workers : list Worker }.

(** [K] workers that add [J] times. *)
Definition stress_start (J K : nat) : Stress := mkStress (Mutex_new tt) 0 (replicate K (mkWorker J Between)).

(** Any worker takes a step. *)
Inductive stress_step (deferring : bool) : Stress -> Stress -> Prop :=
  | worker_steps spurious m count l w r m' count' w' d : worker_step deferring spurious m count w = Some (m', count', w', d) ->
      stress_step deferring (mkStress m count (l ++ w :: r)) (mkStress m' count' (l ++ w' :: r)).

Definition finished (w : Worker) : Prop := rounds w = 0%nat /\ worker_pc w = Between.

(** ** One processor *)

(** The worker on the processor runs for at most [k] steps; the last component
    says whether it has given the processor up by itself. The exchange of the
    x86 does not fail spuriously. *)
Fixpoint turn (deferring : bool) (k : nat) (m : Mutex unit) (count : Z) (w : Worker) : Mutex unit * Z * Worker * bool :=
  match k with
  | O => (m, count, w, false)
  | S k =>
      match worker_step deferring false m count w with
      | None => (m, count, w, true)
      | Some (m', count', w', true) => (m', count', w', true)
      | Some (m', count', w', false) => turn deferring k m' count' w'
      end
  end.

(** Round robin: each worker runs for at least one step, and goes to the end of
    the queue when its time is up, when it defers and when it has returned. *)
Definition one_turn (deferring : bool) (k : nat) (s : Stress) : Stress :=
  match stress_workers s with
  | [] => s
  | w :: ws => let '(m, count, w', _) := turn deferring (S k) (stress_lock s) (stress_count s) w in mkStress m count (ws ++ [w'])
  end.

Fixpoint turns (deferring : bool) (ks : list nat) (s : Stress) : Stress :=
  match ks with [] => s | k :: ks => turns deferring ks (one_turn deferring k s) end.

(** ** The invariant *)

Definition holding (w : Worker) : nat := match worker_pc w with Locked | Loaded _ | Stored => 1 | _ => 0 end.
Definition to_store (w : Worker) : nat := match worker_pc w with Stored => pred (rounds w) | _ => rounds w end.

Fixpoint total (f : Worker -> nat) (ws : list Worker) : nat := match ws with [] => 0%nat | w :: ws => (f w + total f ws)%nat end.

Lemma total_app f l r : total f (l ++ r) = (total f l + total f r)%nat.
Proof. induction l as [|w l IH]; cbn; [done|]. rewrite IH. lia. Qed.

Lemma total_mid f l w r : total f (l ++ w :: r) = (f w + total f (l ++ r))%nat.
Proof. rewrite (total_app f l (w :: r)), (total_app f l r). cbn. lia. Qed.

Lemma total_zero f ws w : total f ws = 0%nat -> w ∈ ws -> f w = 0%nat.
Proof. intros Ht Hw. induction Hw as [|w x ws _ IH]; cbn in Ht; [lia|]. apply IH. lia. Qed.

Lemma total_replicate f n w : total f (replicate n w) = (n * f w)%nat.
Proof. induction n as [|n IH]; cbn; [done|]. by rewrite IH. Qed.

(** What holds of a worker next to the lock and the counter. *)
Definition worker_ok (count : Z) (w : Worker) : Prop :=
  (worker_pc w = Between \/ (1 <= rounds w)%nat) /\ forall v, worker_pc w = Loaded v -> v = count.

(** [sum]: the additions that are asked for. *)
Record stress_inv (sum : nat) (s : Stress) : Prop := {
  st_lock : total holding (stress_workers s) = if lock_word (stress_lock s) then 1%nat else 0%nat;
  st_workers : Forall (worker_ok (stress_count s)) (stress_workers s);
  st_count : 0 <= stress_count s;
  st_sum : stress_count s + Z.of_nat (total to_store (stress_workers s)) = Z.of_nat sum
}.

Lemma stress_inv_start J K : stress_inv (K * J) (stress_start J K).
Proof.
  split; cbn [stress_start stress_workers stress_lock stress_count]; rewrite ?total_replicate; cbn [holding to_store worker_pc rounds Mutex_new lock_word UNLOCKED].
  - lia.
  - apply Forall_replicate. split; [by left|done].
  - lia.
  - lia.
Qed.

Lemma stress_inv_perm sum m count ws ws' : ws ≡ₚ ws' -> stress_inv sum (mkStress m count ws) -> stress_inv sum (mkStress m count ws').
Proof.
  intros Hp [H1 H2 H3 H4]. assert (Ht : forall f, total f ws' = total f ws) by (intros f; clear -Hp; induction Hp; cbn; lia).
  cbn in *. split; cbn; rewrite ?Ht; try done. by rewrite <- Hp.
Qed.

(** What a step does: nothing to the lock and the counter, or it takes the
    lock, stores, or releases the lock. *)
Inductive worker_effect : Mutex unit -> Z -> Worker -> Mutex unit -> Z -> Worker -> Prop :=
  | effect_none m count w w' : holding w' = holding w -> to_store w' = to_store w -> worker_effect m count w m count w'
  | effect_take m m' count w w' : lock_word m = false -> lock_word m' = true -> holding w = 0%nat -> holding w' = 1%nat -> to_store w' = to_store w ->
      worker_effect m count w m' count w'
  | effect_store m count w w' : holding w = 1%nat -> holding w' = 1%nat -> to_store w = S (to_store w') -> worker_effect m count w m (wrap 32 (count + 1)) w'
  | effect_drop m m' count w w' : lock_word m' = false -> holding w = 1%nat -> holding w' = 0%nat -> to_store w' = to_store w -> worker_effect m count w m' count w'.

Lemma worker_step_spec deferring spurious m count w m' count' w' d : worker_step deferring spurious m count w = Some (m', count', w', d) ->
  worker_ok count w -> worker_effect m count w m' count' w' /\ worker_ok count' w'.
Proof.
  destruct m as [b []], w as [n pc]. unfold worker_step, worker_ok, DeferMutex_lock_step, Mutex_lock_step, try_lock_weak, compare_exchange_weak, compare_exchange.
  cbn [worker_pc rounds defer_inner is_locked lock_word lock_data]. intros E [Hn Hv]. destruct pc as [|[]| |v|].
  - destruct n as [|n]; [done|]. injection E as <- <- <- <-. split; [by apply effect_none|]. cbn. split; [right; lia|done].
  - destruct Hn as [?|Hn]; [done|]. destruct deferring, spurious, b; cbn in E; injection E as <- <- <- <-; (split; [first [by apply effect_none|by apply effect_take]|split; [by right|done]]).
  - destruct Hn as [?|Hn]; [done|]. destruct deferring, b; cbn in E; injection E as <- <- <- <-; (split; [by apply effect_none|split; [by right|done]]).
  - destruct Hn as [?|Hn]; [done|]. injection E as <- <- <- <-. split; [by apply effect_none|]. cbn. split; [by right|]. by intros v [= ->].
  - destruct Hn as [?|Hn]; [done|]. injection E as <- <- <- <-. rewrite (Hv v eq_refl). split; [apply effect_store; cbn; lia|]. cbn. split; [by right|done].
  - destruct Hn as [?|Hn]; [done|]. injection E as <- <- <- <-. split; [by apply effect_drop|]. cbn. split; [by left|done].
Qed.

Lemma stress_inv_step deferring sum s s' : Z.of_nat sum < 2 ^ 32 -> stress_inv sum s -> stress_step deferring s s' -> stress_inv sum s'.
Proof.
  intros Hsum [Hl Hw Hc Ht] Hst. destruct Hst as [spurious m count l w r m' count' w' d E]. cbn [stress_workers stress_lock stress_count] in *.
  rewrite total_mid in Hl, Ht. apply Forall_app in Hw as [Hwl Hwr]. apply Forall_cons in Hwr as [Hw Hwr].
  destruct (worker_step_spec _ _ _ _ _ _ _ _ _ E Hw) as [Heff Hw'].
  assert (Hoth : count' = count \/ Forall (fun x => holding x = 0%nat) l /\ Forall (fun x => holding x = 0%nat) r).
  { destruct Heff; try (by left). right. assert (Hz : total holding (l ++ r) = 0%nat) by (destruct (lock_word m); lia).
    split; apply Forall_forall; intros x Hx; apply (total_zero holding (l ++ r)); rewrite ?elem_of_app; tauto. }
  assert (Hkeep : forall ws, Forall (worker_ok count) ws -> count' = count \/ Forall (fun x => holding x = 0%nat) ws -> Forall (worker_ok count') ws).
  { intros ws H [->|H0]; [done|]. rewrite Forall_forall in H, H0 |- *. intros x Hx. destruct (H x Hx) as [Hn _]. split; [exact Hn|].
    intros v Hv. specialize (H0 x Hx). unfold holding in H0. by rewrite Hv in H0. }
  split; cbn [stress_workers stress_lock stress_count]; rewrite ?total_mid.
  - destruct Heff as [m count w w' A1 A2|m m' count w w' A1 A2 A3 A4 A5|m count w w' A1 A2 A3|m m' count w w' A1 A2 A3 A4]; [lia|rewrite A1 in Hl; rewrite A2; lia|lia|rewrite A1; destruct (lock_word m); lia].
  - apply Forall_app. split; [apply Hkeep; tauto|]. apply Forall_cons. split; [exact Hw'|apply Hkeep; tauto].
  - destruct Heff; [done|done| |done]. pose proof (wrap_range 32 (count + 1) ltac:(lia)). unfold uint_range in *. lia.
  - destruct Heff as [m count w w' A1 A2|m m' count w w' A1 A2 A3 A4 A5|m count w w' A1 A2 A3|m m' count w w' A1 A2 A3 A4]; [lia|lia| |lia].
    rewrite wrap_small by (unfold uint_range; lia). lia.
Qed.

(** ** Progress on one processor *)

(** The steps that a worker still has to make, not counting those in vain. *)
Definition steps_left (w : Worker) : nat :=
  (5 * rounds w - match worker_pc w with Between => 0 | Locking _ => 1 | Locked => 2 | Loaded _ => 3 | Stored => 4 end)%nat.

Lemma turn_steps deferring k : forall m count w ws m' count' w' e, turn deferring k m count w = (m', count', w', e) ->
  rtc (stress_step deferring) (mkStress m count (w :: ws)) (mkStress m' count' (w' :: ws)).
Proof.
  induction k as [|k IH]; intros m count w ws m' count' w' e E; cbn [turn] in E; [injection E as <- <- <- _; apply rtc_refl|].
  destruct (worker_step deferring false m count w) as [[[[m1 c1] w1] []]|] eqn:Ew.
  - injection E as <- <- <- _. apply rtc_once, (worker_steps deferring false m count [] w ws m1 c1 w1 true Ew).
  - eapply rtc_l; [apply (worker_steps deferring false m count [] w ws m1 c1 w1 false Ew)|]. by eapply IH.
  - injection E as <- <- <- _. apply rtc_refl.
Qed.

Lemma stress_inv_run deferring sum s s' : Z.of_nat sum < 2 ^ 32 -> stress_inv sum s -> rtc (stress_step deferring) s s' -> stress_inv sum s'.
Proof. intros Hsum Hs Hr. induction Hr; eauto using stress_inv_step. Qed.

Lemma one_turn_inv deferring sum k s : Z.of_nat sum < 2 ^ 32 -> stress_inv sum s -> stress_inv sum (one_turn deferring k s).
Proof.
  intros Hsum Hs. destruct s as [m count [|w ws]]; [done|]. unfold one_turn. cbn [stress_workers stress_lock stress_count].
  destruct (turn deferring (S k) m count w) as [[[m' count'] w'] e] eqn:E. apply (stress_inv_perm sum m' count' (w' :: ws)); [apply Permutation_cons_append|].
  eapply stress_inv_run; [done|exact Hs|by eapply turn_steps].
Qed.

(** One step of a worker that runs alone. *)
Lemma step_left deferring m count w m' count' w' d : worker_ok count w -> worker_step deferring false m count w = Some (m', count', w', d) ->
  ((steps_left w' < steps_left w)%nat /\ d = false) \/
  (m' = m /\ steps_left w' = steps_left w /\ ((lock_word m = true /\ exists pc pc', worker_pc w = Locking pc /\ worker_pc w' = Locking pc') \/
     (lock_word m = false /\ worker_pc w = Locking LockWait /\ worker_pc w' = Locking LockTry /\ d = false))).
Proof.
  destruct m as [b []], w as [n pc]. unfold worker_step, worker_ok, DeferMutex_lock_step, Mutex_lock_step, try_lock_weak, compare_exchange_weak, compare_exchange, steps_left.
  cbn [worker_pc rounds defer_inner is_locked lock_word lock_data]. intros [Hn _] E. destruct pc as [|[]| |v|].
  - destruct n as [|n]; [done|]. injection E as <- <- <- <-. left. cbn [rounds worker_pc]. split; [lia|done].
  - destruct Hn as [?|Hn]; [done|]. destruct deferring, b; cbn in E; injection E as <- <- <- <-; cbn [rounds worker_pc].
    1,3: right; split; [done|]; split; [done|]; left; split; [done|]; by eexists _, _.
    all: left; split; [lia|done].
  - destruct Hn as [?|Hn]; [done|]. destruct deferring, b; cbn in E; injection E as <- <- <- <-; cbn [rounds worker_pc].
    1,3: right; split; [done|]; split; [done|]; left; split; [done|]; by eexists _, _.
    all: right; split; [done|]; split; [done|]; by right.
  - destruct Hn as [?|Hn]; [done|]. injection E as <- <- <- <-. left. cbn [rounds worker_pc]. split; [lia|done].
  - destruct Hn as [?|Hn]; [done|]. injection E as <- <- <- <-. left. cbn [rounds worker_pc]. split; [lia|done].
  - destruct Hn as [?|Hn]; [done|]. injection E as <- <- <- <-. left. cbn [rounds worker_pc]. split; [lia|done].
Qed.

Lemma step_none deferring m count w : worker_step deferring false m count w = None <-> finished w.
Proof.
  destruct w as [n pc]. unfold finished, worker_step. cbn [rounds worker_pc]. split.
  - destruct pc as [|[]| | |]; [destruct n; by cbn|..]; destruct deferring; cbn; repeat case_match; try done.
  - by intros [-> ->].
Qed.

(** A turn: the worker gets on, or waits in vain and changes nothing. *)
Lemma turn_left deferring k : forall m count w m' count' w' e, worker_ok count w -> turn deferring k m count w = (m', count', w', e) ->
  (steps_left w' < steps_left w)%nat \/
  (m' = m /\ count' = count /\ steps_left w' = steps_left w /\ ((w' = w /\ (k = 0%nat \/ finished w)) \/
    (exists pc pc', worker_pc w = Locking pc /\ worker_pc w' = Locking pc' /\ (lock_word m = false -> pc' = LockTry)))).
Proof.
  induction k as [|k IH]; intros m count w m' count' w' e Hw E; cbn [turn] in E.
  { injection E as <- <- <- _. right. split_and!; try done. left. split; [done|by left]. }
  destruct (worker_step deferring false m count w) as [[[[m1 c1] w1] d]|] eqn:Ew.
  2:{ injection E as <- <- <- _. apply step_none in Ew. right. split_and!; try done. left. split; [done|by right]. }
  destruct (worker_step_spec _ _ _ _ _ _ _ _ _ Ew Hw) as [_ Hw1].
  destruct (step_left _ _ _ _ _ _ _ _ Hw Ew) as [[Hlt ->]|(-> & Hle & Hcase)].
  - apply IH in E; [|exact Hw1]. left. destruct E as [?|(_ & _ & -> & _)]; lia.
  - assert (Hc1 : c1 = count).
    { clear -Ew Hcase. unfold worker_step in Ew. destruct Hcase as [(_ & pc & pc' & Hp & _)|(_ & Hp & _)]; rewrite Hp in Ew;
        destruct deferring; cbn in Ew; repeat case_match; try done; by injection Ew. }
    subst c1. assert (Hloc : exists pc pc', worker_pc w = Locking pc /\ worker_pc w1 = Locking pc' /\ (lock_word m = false -> pc' = LockTry)).
    { destruct Hcase as [(Hl & pc & pc' & H1 & H2)|(Hl & H1 & H2 & _)]; [exists pc, pc'; by rewrite Hl|by exists LockWait, LockTry]. }
    destruct d; [injection E as <- <- <- _; right; split_and!; try done; by right|].
    apply IH in E; [|exact Hw1]. destruct E as [?|(-> & -> & El & Hc)]; [left; lia|]. right. split_and!; [done|done|lia|]. right.
    destruct Hloc as (pc & pc1 & H1 & H2 & H3). destruct Hc as [[-> _]|(pc2 & pc3 & H4 & H5 & H6)]; [by exists pc, pc1|exists pc, pc3; split; [done|]; by split].
Qed.

(** A worker that does not wait gets on. *)
Lemma turn_gets_on deferring k m count w m' count' w' e : worker_ok count w -> turn deferring (S k) m count w = (m', count', w', e) ->
  ~ finished w -> (match worker_pc w with Locking pc => lock_word m = false /\ pc = LockTry | _ => True end) -> (steps_left w' < steps_left w)%nat.
Proof.
  intros Hw E Hf Hpc. cbn [turn] in E. destruct (worker_step deferring false m count w) as [[[[m1 c1] w1] d]|] eqn:Ew; [|by apply step_none in Ew].
  destruct (worker_step_spec _ _ _ _ _ _ _ _ _ Ew Hw) as [_ Hw1].
  destruct (step_left _ _ _ _ _ _ _ _ Hw Ew) as [[Hlt ->]|(_ & _ & Hcase)].
  - apply turn_left in E as [?|(_ & _ & -> & _)]; [lia|lia|exact Hw1].
  - exfalso. destruct Hcase as [(Hl & pc & pc' & H1 & _)|(Hl & H1 & _)]; rewrite H1 in Hpc; destruct Hpc as [H2 H3]; congruence.
Qed.

(** ** The queue *)

Definition left_sum (s : Stress) : nat := total steps_left (stress_workers s).

(** A worker that gets on when it is its turn. *)
Definition ready (m : Mutex unit) (w : Worker) : Prop :=
  ~ finished w /\ match worker_pc w with Locking pc => lock_word m = false /\ pc = LockTry | _ => True end.

Section queue.
Context (deferring : bool) (sum : nat) (Hsum : Z.of_nat sum < 2 ^ 32).

Lemma one_turn_spec k s w ws : stress_inv sum s -> stress_workers s = w :: ws -> exists w', stress_workers (one_turn deferring k s) = ws ++ [w'] /\
  stress_inv sum (one_turn deferring k s) /\
  ((left_sum (one_turn deferring k s) < left_sum s)%nat \/
   (stress_lock (one_turn deferring k s) = stress_lock s /\ left_sum (one_turn deferring k s) = left_sum s /\ ~ ready (stress_lock s) w /\
    (worker_pc w = Locking LockWait -> lock_word (stress_lock s) = false -> worker_pc w' = Locking LockTry))).
Proof.
  intros Hs Hws. pose proof (one_turn_inv deferring sum k s Hsum Hs) as Hi. pose proof (st_workers _ _ Hs) as Hok. rewrite Hws in Hok. apply Forall_cons in Hok as [Hok _].
  unfold one_turn, left_sum in *. rewrite Hws in *. destruct (turn deferring (S k) (stress_lock s) (stress_count s) w) as [[[m' count'] w'] e] eqn:E.
  exists w'. cbn [stress_workers stress_lock]. split; [done|]. split; [exact Hi|]. rewrite total_app. cbn [total].
  destruct (turn_left _ _ _ _ _ _ _ _ _ Hok E) as [Hlt|(-> & _ & El & Hc)]; [left; lia|].
  assert (Hdec : {ready (stress_lock s) w} + {~ ready (stress_lock s) w}).
  { unfold ready, finished. destruct w as [[|n] [|[]| | |]]; cbn; destruct (lock_word (stress_lock s)); (right; naive_solver) || (left; naive_solver). }
  destruct Hdec as [[Hf Hpc]|Hn]; [left; pose proof (turn_gets_on _ _ _ _ _ _ _ _ _ Hok E Hf Hpc); lia|right].
  split; [done|]. split; [lia|]. split; [exact Hn|]. intros Hw Hl. destruct Hc as [[-> [?|[_ Hb]]]|(pc & pc' & H1 & H2 & H3)]; [done|congruence|]. by rewrite H2, H3.
Qed.

Lemma turns_mono ks : forall s, stress_inv sum s -> (left_sum (turns deferring ks s) <= left_sum s)%nat.
Proof.
  induction ks as [|k ks IH]; intros s Hs; [done|]. cbn [turns]. destruct (stress_workers s) as [|w ws] eqn:Hws.
  - assert (E : one_turn deferring k s = s) by (unfold one_turn; by rewrite Hws). rewrite E. by apply IH.
  - destruct (one_turn_spec k s w ws Hs Hws) as (w' & _ & Hi & Hc). specialize (IH _ Hi). lia.
Qed.

Lemma ready_gets_on l : forall s w r ks, stress_inv sum s -> stress_workers s = l ++ w :: r -> ready (stress_lock s) w -> (length l < length ks)%nat ->
  (left_sum (turns deferring ks s) < left_sum s)%nat.
Proof.
  induction l as [|x l IH]; intros s w r [|k ks] Hs Hws Hr Hl; cbn [length app] in *; try lia; cbn [turns].
  - destruct (one_turn_spec k s w r Hs Hws) as (w' & _ & Hi & Hc). pose proof (turns_mono ks _ Hi). destruct Hc as [?|(_ & _ & Hn & _)]; [lia|done].
  - destruct (one_turn_spec k s x _ Hs Hws) as (x' & Hw' & Hi & Hc). destruct Hc as [?|(E1 & E2 & _)]; [pose proof (turns_mono ks _ Hi); lia|].
    rewrite <- E2. apply (IH _ w (r ++ [x'])); [exact Hi|by rewrite Hw', <- app_assoc|by rewrite E1|lia].
Qed.

Lemma waiting_gets_on l : forall s w r ks, stress_inv sum s -> stress_workers s = l ++ w :: r -> lock_word (stress_lock s) = false ->
  worker_pc w = Locking LockWait -> (length l + 1 + length (stress_workers s) <= length ks)%nat -> (left_sum (turns deferring ks s) < left_sum s)%nat.
Proof.
  induction l as [|x l IH]; intros s w r [|k ks] Hs Hws Hf Hw Hl; cbn [length app] in *; try lia; cbn [turns].
  - destruct (one_turn_spec k s w r Hs Hws) as (w' & Hw' & Hi & Hc). destruct Hc as [?|(E1 & E2 & _ & Hc)]; [pose proof (turns_mono ks _ Hi); lia|].
    rewrite <- E2. apply (ready_gets_on r _ w' []); [exact Hi|exact Hw'| |rewrite Hws in Hl; cbn in Hl; lia].
    specialize (Hc Hw Hf). unfold ready, finished. rewrite E1, Hc. by split; [intros [_ ?]|].
  - destruct (one_turn_spec k s x _ Hs Hws) as (x' & Hw' & Hi & Hc). destruct Hc as [?|(E1 & E2 & _)]; [pose proof (turns_mono ks _ Hi); lia|].
    rewrite <- E2. apply (IH _ w (r ++ [x'])); [exact Hi|by rewrite Hw', <- app_assoc|by rewrite E1|done|].
    rewrite Hw'. rewrite Hws in Hl. cbn in Hl. rewrite !length_app in *. cbn in *. lia.
Qed.

(** Within two rounds somebody gets on. *)
Lemma two_rounds s ks : stress_inv sum s -> (exists w, w ∈ stress_workers s /\ ~ finished w) -> (2 * length (stress_workers s) <= length ks)%nat ->
  (left_sum (turns deferring ks s) < left_sum s)%nat.
Proof.
  intros Hs (w & Hw & Hf) Hl. assert (Hpos : forall l x r, stress_workers s = l ++ x :: r -> (length l + 1 <= length (stress_workers s))%nat)
    by (intros l x r ->; rewrite length_app; cbn; lia).
  destruct (lock_word (stress_lock s)) eqn:Hlock.
  - pose proof (st_lock _ _ Hs) as Ht. rewrite Hlock in Ht. assert (Hh : exists x, x ∈ stress_workers s /\ holding x = 1%nat).
    { clear -Ht. induction (stress_workers s) as [|x ws IH]; [done|]. cbn in Ht. destruct (holding x) as [|[|n]] eqn:Hx; [|exists x; split; [by left|done]|lia].
      destruct IH as (y & Hy & Hy'); [lia|]. exists y. split; [by right|done]. }
    destruct Hh as (x & Hx & Hx'). apply list_elem_of_split in Hx as (l & r & E). apply (ready_gets_on l s x r); [done|done| |pose proof (Hpos _ _ _ E); lia].
    unfold ready, finished, holding in *. destruct (worker_pc x); [done|done|split; [by intros [_ ?]|done]..].
  - apply list_elem_of_split in Hw as (l & r & E). pose proof (Hpos _ _ _ E). destruct (worker_pc w) as [|[]| | |] eqn:Hp.
    3: apply (waiting_gets_on l s w r); [done..|lia].
    all: apply (ready_gets_on l s w r); [done|done|unfold ready; rewrite Hp; by split|lia].
Qed.

Lemma turns_inv ks : forall s, stress_inv sum s -> stress_inv sum (turns deferring ks s) /\ length (stress_workers (turns deferring ks s)) = length (stress_workers s).
Proof.
  induction ks as [|k ks IH]; intros s Hs; [done|]. cbn [turns]. destruct (IH (one_turn deferring k s)) as [H1 H2]; [by apply one_turn_inv|].
  split; [exact H1|]. rewrite H2. destruct (stress_workers s) as [|w ws] eqn:Hws; [unfold one_turn; rewrite Hws; cbn; by rewrite Hws|].
  destruct (one_turn_spec k s w ws Hs Hws) as (w' & -> & _). rewrite length_app. cbn. lia.
Qed.

Lemma turns_app ks ks' : forall s, turns deferring (ks ++ ks') s = turns deferring ks' (turns deferring ks s).
Proof. induction ks as [|k ks IH]; intros s; [done|]. cbn [turns app]. apply IH. Qed.

Lemma finished_dec (w : Worker) : finished w \/ ~ finished w.
Proof. destruct w as [[|n] []]; unfold finished; cbn; naive_solver. Qed.

Lemma steps_left_zero count w : worker_ok count w -> steps_left w = 0%nat -> finished w.
Proof. destruct w as [n pc]. unfold worker_ok, steps_left, finished. cbn. intros [[->|Hn] _] H0; [split; [lia|done]|destruct pc; (split; [lia|done]) || lia]. Qed.

Lemma all_finish B : forall s ks, stress_inv sum s -> (left_sum s <= B)%nat -> (2 * length (stress_workers s) * B <= length ks)%nat ->
  Forall finished (stress_workers (turns deferring ks s)).
Proof.
  assert (Hdec : forall ws, Forall finished ws \/ exists w, w ∈ ws /\ ~ finished w).
  { induction ws as [|w ws [IH|(x & Hx & Hf)]]; [by left|destruct (finished_dec w) as [Hf|Hf]; [left; by constructor|right; exists w; split; [by left|done]]|
    right; exists x; split; [by right|done]]. }
  induction B as [|B IH]; intros s ks Hs Hb Hl.
  - destruct (turns_inv ks s Hs) as [Hi _]. pose proof (turns_mono ks s Hs) as Hm. destruct (Hdec (stress_workers (turns deferring ks s))) as [|(w & Hw & Hf)]; [done|exfalso].
    assert (H0 : steps_left w = 0%nat) by (apply (total_zero _ (stress_workers (turns deferring ks s))); [unfold left_sum in *; lia|done]).
    apply Hf. by apply (steps_left_zero (stress_count (turns deferring ks s))); [eapply (proj1 (Forall_forall _ _)); [exact (st_workers _ _ Hi)|]|].
  - set (n := (2 * length (stress_workers s))%nat) in *. rewrite <- (take_drop n ks), turns_app.
    destruct (turns_inv (take n ks) s Hs) as [Hi Hn].
    destruct (Hdec (stress_workers s)) as [Hall|Hex].
    + apply IH; [exact Hi| |rewrite Hn, length_drop; nia]. pose proof (turns_mono (take n ks) s Hs) as Hm.
      assert (H0 : left_sum s = 0%nat); [|lia]. clear -Hall. unfold left_sum. induction Hall as [|w ws [H1 H2] _ IHw]; [done|]. cbn [total]. rewrite IHw.
      unfold steps_left. rewrite H1, H2. done.
    + assert (Hlt : (left_sum (turns deferring (take n ks) s) < left_sum s)%nat).
      { apply two_rounds; [done|done|]. rewrite length_take. nia. }
      apply IH; [exact Hi|lia|]. rewrite Hn, length_drop. fold n. nia.
Qed.
End queue.

(** ** Giving way *)

(** Whether the next step of [lock] is in vain. *)
Definition in_vain (m : Mutex unit) (w : Worker) : nat :=
  match worker_pc w with Locking LockTry => if lock_word m then 1 else 0 | Locking LockWait => if lock_word m then 0 else 1 | _ => 0 end.

Lemma deferring_turn_ends k : forall m count w, worker_ok count w -> (2 * steps_left w + in_vain m w < k)%nat -> (turn true k m count w).2 = true.
Proof.
  induction k as [|k IH]; intros m count w Hw Hk; [lia|]. cbn [turn]. destruct (worker_step true false m count w) as [[[[m1 c1] w1] d]|] eqn:Ew; [|done].
  destruct d; [done|]. destruct (worker_step_spec _ _ _ _ _ _ _ _ _ Ew Hw) as [_ Hw1]. apply IH; [exact Hw1|].
  destruct (step_left _ _ _ _ _ _ _ _ Hw Ew) as [[Hlt _]|(-> & -> & [(Hl & pc & pc' & H1 & H2)|(Hl & H1 & H2 & _)])].
  - assert (in_vain m1 w1 <= 1)%nat by (unfold in_vain; repeat case_match; lia). lia.
  - unfold in_vain in *. rewrite H1, Hl in Hk. rewrite H2, Hl. unfold worker_step in Ew. rewrite H1 in Ew. destruct pc; cbn in Ew.
    + rewrite (surjective_pairing (try_lock_weak false m)) in Ew. unfold try_lock_weak, compare_exchange_weak, compare_exchange in Ew. rewrite Hl in Ew. cbn in Ew.
      injection Ew as _ _ <-. injection H2 as <-. lia.
    + unfold is_locked in Ew. rewrite Hl in Ew. discriminate Ew.
  - unfold in_vain in *. rewrite H1, Hl in Hk. rewrite H2, Hl. lia.
Qed.

(** ** Properties *)

Lemma finished_count sum s : stress_inv sum s -> Forall finished (stress_workers s) -> stress_count s = Z.of_nat sum /\ lock_word (stress_lock s) = false.
Proof.
  intros [Hl _ _ Ht] Hf. assert (H0 : total to_store (stress_workers s) = 0%nat /\ total holding (stress_workers s) = 0%nat).
  { clear -Hf. induction Hf as [|w ws [H1 H2] _ [IH1 IH2]]; [done|]. cbn [total]. unfold to_store at 1, holding at 1. rewrite H1, H2. by split. }
  destruct H0 as [H1 H2]. rewrite H1 in Ht. rewrite H2 in Hl. split; [lia|]. by destruct (lock_word (stress_lock s)).
Qed.

(** No addition is lost: with either lock, however the workers' loads, stores
    and lock operations interleave and however often the exchange fails
    without a reason, once all have returned the counter is the number of
    additions asked for and the lock is free. *)
Theorem no_lost_addition deferring J K s : Z.of_nat (K * J) < 2 ^ 32 -> rtc (stress_step deferring) (stress_start J K) s -> Forall finished (stress_workers s) ->
  stress_count s = Z.of_nat (K * J) /\ is_locked (stress_lock s) = false.
Proof. intros Hs Hr Hf. eapply finished_count; [|exact Hf]. eapply stress_inv_run; [exact Hs|apply stress_inv_start|exact Hr]. Qed.

(** C31: On one processor with round robin the stress test ends, whatever the time
    that each turn is given: [10 * K * K * J] turns are enough, for the
    deferring lock and for the spinning one, and nothing is lost. And a turn
    in which a worker has to wait ends by itself with the deferring lock,
    after a number of steps known in advance, but never with the other. *)
Theorem stress_ends J K : Z.of_nat (K * J) < 2 ^ 32 ->
  (forall deferring ks, (10 * K * (K * J) <= length ks)%nat -> let s := turns deferring ks (stress_start J K) in
     Forall finished (stress_workers s) /\ stress_count s = Z.of_nat (K * J)) /\
  (forall sum s w k, stress_inv sum s -> w ∈ stress_workers s -> (10 * rounds w + 1 < k)%nat -> (turn true k (stress_lock s) (stress_count s) w).2 = true) /\
  (forall s w, lock_word (stress_lock s) = true -> worker_pc w = Locking LockWait -> forall k, (turn false k (stress_lock s) (stress_count s) w).2 = false).
Proof.
  intros Hs. split; [|split].
  - intros deferring ks Hl. cbv zeta. assert (Hf : Forall finished (stress_workers (turns deferring ks (stress_start J K)))).
    { apply (all_finish deferring (K * J) Hs (5 * (K * J)) (stress_start J K) ks (stress_inv_start J K)).
      - unfold left_sum, stress_start. cbn [stress_workers]. rewrite total_replicate. unfold steps_left. cbn. lia.
      - cbn [stress_start stress_workers]. rewrite length_replicate. lia. }
    split; [exact Hf|]. apply (finished_count (K * J)); [|exact Hf]. apply turns_inv; [exact Hs|apply stress_inv_start].
  - intros sum s w k Hi Hw Hk. apply deferring_turn_ends; [by eapply (proj1 (Forall_forall _ _)); [exact (st_workers _ _ Hi)|]|].
    assert (in_vain (stress_lock s) w <= 1)%nat by (unfold in_vain; repeat case_match; lia). unfold steps_left. lia.
  - intros s w Hl Hw k. induction k as [|k IH]; [done|]. cbn [turn]. destruct s as [[b []] c ws]. cbn in Hl. subst b.
    destruct w as [n pc]. cbn in Hw. subst pc. exact IH.
Qed.

(** ** Witnesses *)

(** Two workers that take turns step by step. *)
Lemma stress_ends_witness : let s := turns true (replicate 40 1%nat) (stress_start 1 2) in Forall finished (stress_workers s) /\ stress_count s = 2.
Proof. exact (proj1 (stress_ends 1 2 eq_refl) true (replicate 40 1%nat) ltac:(by vm_compute)). Defined.

(** One worker that adds once: it takes five steps. *)
Lemma no_lost_addition_witness : exists s, rtc (stress_step true) (stress_start 1 1) s /\ Forall finished (stress_workers s) /\ stress_count s = 1.
Proof.
  set (s := mkStress (mkMutex false tt) 1 [mkWorker 0 Between]).
  assert (Hr : rtc (stress_step true) (stress_start 1 1) s).
  { do 5 (eapply rtc_l; [eapply (worker_steps true false _ _ [] _ []); reflexivity|cbn [app]]). apply rtc_refl. }
  assert (Hf : Forall finished (stress_workers s)) by (by repeat constructor).
  exists s. split; [exact Hr|]. split; [exact Hf|]. exact (proj1 (no_lost_addition true 1 1 s eq_refl Hr Hf)).
Defined.
