(* ===== verification/UnitTests.v ===== *)
(** * The program's unit tests, on the model

    The [#[test]] functions under src/, translated like the code they test: a
    test is a boolean that is true when its assertions hold, or a proposition
    where it compares instructions. Each is evaluated, so that the definitions
    of the other files answer as the program does. The tests of
    [spin_mutex.rs] that spawn threads are the subject of [SpinMutex] and
    [DeferMutex]; [access_during_unwind] needs unwinding, and [print] asserts
    nothing. *)

From Stdlib Require Import Lia.
From stdpp Require Import base numbers option tactics list relations.
From S2P Require Import Prelude BitUtils MemoryTypes Float32 Geometry Pci SpinMutex DeferMutex Asm.

Local Open Scope Z_scope.

(** ** memory-types *)

Definition returns {A} (test : A -> bool) (e : exec A) : bool := match e with Done a => test a | Panic => false end.
Definition panics {A} (e : exec A) : bool := match e with Done _ => false | Panic => true end.

Definition frame_smoke : bool :=
  let frame := Frame_new 7 in
  (frame_number frame =? 7) && (to_raw (Frame_base_addr frame) =? 7 * PAGE_SIZE) &&
  returns (fun frame => frame_number frame =? 0x300) (Frame_containing_addr (Address_new 0x300111)).

Definition address_smoke : bool :=
  let addr := Address_new PAGE_SIZE in
  is_page_aligned addr && (to_raw addr =? PAGE_SIZE) &&
  let addr := Address_new 0x3777 in
  negb (is_page_aligned addr) && (to_raw (page_align_down addr) =? 0x3000) && (to_raw (page_align_up addr) =? 0x4000) &&
  bool_decide (Address_domain addr = Physical) &&
  let page := Page_new 7 in
  (page_number page =? 7) && (to_raw (Page_base_addr page) =? 7 * PAGE_SIZE) &&
  let page := Page_containing_addr (Address_new 0x300111) in
  (page_number page =? 0x300).

Definition USER_STACK_BASE : Z := to_raw (Address_from_l4_index USER_STACK_L4_INDEX).
Definition USER_CODE_BASE : Z := to_raw (Address_from_l4_index USER_CODE_L4_INDEX).
Definition USER_HEAP_BASE : Z := to_raw (Address_from_l4_index USER_HEAP_L4_INDEX).
Definition KERNEL_HEAP_BASE : Z := to_raw (Address_from_l4_index KERNEL_HEAP_L4_INDEX).
Definition KERNEL_MAPPING_BASE : Z := to_raw (Address_from_l4_index KERNEL_MAPPING_L4_INDEX).

Definition domains : bool :=
  forallb (fun '(addr, domain) => bool_decide (Address_domain (Address_new addr) = domain))
    [(USER_STACK_BASE, UserStack); (USER_CODE_BASE, UserCode); (USER_HEAP_BASE, UserHeap); (KERNEL_HEAP_BASE, KernelHeap);
     (KERNEL_MAPPING_BASE, KernelMapping); (USER_STACK_BASE - 1, Invalid); (USER_CODE_BASE - 1, UserStack); (USER_HEAP_BASE - 1, UserCode);
     (KERNEL_HEAP_BASE - 1, UserHeap); (KERNEL_MAPPING_BASE - 1, KernelHeap)].

Definition addr_truncates : bool :=
  (to_raw (Address_new 0) =? 0) &&
  (to_raw (Address_new (wshl 64 1 VIRTUAL_MEMORY_SHIFT)) =? VIRTUAL_MEMORY_OFFSET) &&
  (to_raw (Address_new 43) =? 43) &&
  (to_raw (Address_new (wshl 64 5555 VIRTUAL_MEMORY_SHIFT)) =? VIRTUAL_MEMORY_OFFSET).

Definition addr_overflow : bool := panics (Address_add (Address_new MAX_VIRTUAL_ADDR) 1).
Definition addr_underflow : bool := panics (Address_sub (Address_new 0) 1).

Example memory_tests_pass : frame_smoke && address_smoke && domains && addr_truncates && addr_overflow && addr_underflow = true.
Proof. vm_compute. reflexivity. Qed.

(** ** bit-utils *)

Definition range_smoke : bool :=
  (bit_range 64 43 (Some 5) (Some 31) (Some 16) =? 1) &&
  let num := 0x35 in
  (bit_range 8 num (Some 0) (Some 0) None =? 1) && (bit_range 8 num (Some 0) (Some 3) None =? 5) &&
  (bit_range 8 num (Some 2) (Some 6) None =? 0xD) && (bit_range 8 num None None None =? 0x35) &&
  let num := 0x91 in
  (bit_range 32 num (Some 4) (Some 4) None =? 0x10) && (bit_range 32 num None (Some 3) None =? 1) &&
  (bit_range 32 num (Some 2) None None =? 0x24) && (bit_range 32 num None (Some 5) None =? 0x11) &&
  let NUM := 0xBF0D in
  (bit_range 16 NUM (Some 1) (Some 9) (Some 8) =? 0x86) && (bit_range 16 NUM (Some 8) None (Some 8) =? 0xBF) &&
  (bit_range 16 NUM (Some 4) (Some 12) (Some 8) =? 0xF0) &&
  let RANGED_NUM := bit_range 32 0xFEFEFEFE (Some 2) (Some 7) (Some 32) in
  (RANGED_NUM =? 31) && bit_test 32 RANGED_NUM 0 && bit_test 32 RANGED_NUM 1 && bit_test 32 RANGED_NUM 2 && bit_test 32 RANGED_NUM 3 &&
  bit_test 32 RANGED_NUM 4 && negb (bit_test 32 RANGED_NUM 5).

Definition flags_smoke : bool :=
  let A := flag 8 0 in let B := flag 8 2 in let C := flag 8 7 in
  (flags_ALL 8 [0; 2; 7] =? flags_bitor (flags_bitor A B) C) &&
  (flags_bits (flags_bitor A B) =? 5) && (flags_bits (flags_bitor B C) =? 0x84) && (flags_bits (flags_bitor A C) =? 0x81).

Definition field_smoke : bool :=
  let test_caps := Z.shiftl 43 32 + Z.shiftl 29 16 + Z.shiftl 1 13 + Z.shiftl 0 15 + Z.shiftl 7 8 + Z.shiftl 2 0 in
  (bit_field_range 64 32 test_caps 32 64 =? 43) && (bit_field_range 64 16 test_caps 16 32 =? 29) && negb (bit_test 64 test_caps 15) &&
  bit_test 64 test_caps 13 && (bit_field_range 64 8 test_caps 8 13 =? 7) && (bit_field_range 64 8 test_caps 0 8 =? 2).

Example bit_tests_pass : range_smoke && flags_smoke && field_smoke = true.
Proof. vm_compute. reflexivity. Qed.

(** ** math *)

(** The derived [PartialEq]. *)
Definition Point_eqb (p q : Point) : bool := feq (px p) (px q) && feq (py p) (py q).
Definition Size_eqb (s t : Size) : bool := feq (swidth s) (swidth t) && feq (sheight s) (sheight t).

Definition point_smoke : bool :=
  Point_eqb (Point_const_sub Point_ONE_ONE Point_ONE_ONE) Point_ORIGIN && Point_eqb (Point_const_add Point_ONE_ONE (Point_neg Point_ONE_ONE)) Point_ORIGIN.

Definition size_smoke : bool :=
  Size_eqb (Size_const_sub Size_ONE Size_ONE) Size_ZERO && Size_eqb (Size_const_add Size_ONE (Size_neg Size_ONE)) Size_ZERO.

Definition containment : bool :=
  let area := iarea (-5) (-2) 10 10 in
  Area_contains area (ipoint 1 1) && Area_contains area (ipoint (-5) (-2)) && Area_contains area (ipoint 4 7) &&
  negb (Area_contains area (ipoint 5 8)) && negb (Area_contains area (ipoint (-5) (-3))) && negb (Area_contains area (ipoint (-6) (-2))).

Definition intersection : bool :=
  let area_1 := iarea (-5) (-2) 10 10 in let area_2 := iarea 4 7 1 1 in let area_3 := iarea 5 8 1 1 in
  Area_intersects area_1 area_2 && negb (Area_intersects area_1 area_3) && negb (Area_intersects area_2 area_3).

Example math_tests_pass : point_smoke && size_smoke && containment && intersection = true.
Proof. vm_compute. reflexivity. Qed.

(** ** pci *)

Definition header_type_works : bool :=
  let a := 0x81 in let b := 2 in multiple_functions a && (HeaderType_get a =? 1) && negb (multiple_functions b) && (HeaderType_get b =? 2).

Example pci_tests_pass : header_type_works = true.
Proof. vm_compute. reflexivity. Qed.

(** ** spin-mutex, without threads *)

(** [mutex.lock()] and what is done with its guard, which is then dropped. *)
Definition with_lock {T} (m : Mutex T) (f : T -> T) : option (Mutex T) := m ← lock_alone 1 m; Some (Guard_drop (Guard_deref_mut m (f (Guard_deref m)))).

Definition mutex_smoke : bool :=
  match (m ← with_lock (Mutex_new tt) id; with_lock m id) with Some m => negb (is_locked m) | None => false end.

Definition mutex_try_lock : bool :=
  let '(m, a) := try_lock (Mutex_new 43) in
  let first := a && (Guard_deref m =? 43) in
  let '(m, b) := try_lock m in
  let m := Guard_drop m in
  let '(m, c) := try_lock m in
  first && negb b && c && (Guard_deref m =? 43).

Definition mutex_into_inner : bool := Mutex_into_inner (Mutex_new 43) =? 43.

Definition mutex_unsized_data : bool :=
  match (m ← with_lock (Mutex_new [2; 3; 5]) (fun b => <[2%nat := 11]> (<[0%nat := 7]> b)); lock_alone 1 m) with
  | Some m => bool_decide (Guard_deref m = [7; 3; 11])
  | None => false
  end.

Definition mutex_force_unlock : bool :=
  match lock_alone 1 (Mutex_new tt) with Some lock => (try_lock (force_unlock lock)).2 | None => false end.

Example mutex_tests_pass : mutex_smoke && mutex_try_lock && mutex_into_inner && mutex_unsized_data && mutex_force_unlock = true.
Proof. vm_compute. reflexivity. Qed.

(** The test [stress]: its 2 * 3 threads add 1000 times. *)
Definition stress : Stress := stress_start 1000 (2 * 3).

(** Whatever the interleaving, [assert_eq!(COUNT, J * K * 2)] holds. *)
Lemma stress_passes s : rtc (stress_step false) stress s -> Forall finished (stress_workers s) -> stress_count s = 1000 * 3 * 2.
Proof.
  intros Hr Hf. apply (finished_count (6 * 1000)); [|exact Hf]. eapply stress_inv_run; [|apply stress_inv_start|exact Hr].
  rewrite Nat2Z.inj_mul. reflexivity.
Qed.

(** ** abi: the disassembler *)

(** [while let Ok(instruction) = disassembler.next()]: the instructions, the
    error that ends the loop and the offset then. *)
Fixpoint decode_all (fuel : nat) (d : Disassembler) : exec (option (list Instruction * DisassemblyError * Z)) :=
  match fuel with
  | O => Done None
  | S fuel =>
      '(d, r) ← next d;
      match r with
      | Err e => Done (Some ([], e, offset d))
      | Ok i => rest ← decode_all fuel d; Done (match rest with Some (l, e, o) => Some (i :: l, e, o) | None => None end)
      end
  end.

(** All of [instructions] is decoded, to [expected]. *)
Definition decodes_to (instructions : list Z) (expected : list Instruction) : Prop :=
  decode_all (S (length instructions)) (Disassembler_new instructions) = Done (Some (expected, PartialInstruction, Z.of_nat (length instructions))).

Definition asm_smoke : Prop :=
  decodes_to [0x55; 0x48; 0x89; 0xe5; 0x48; 0x8b; 0x06; 0x48; 0x89; 0x07; 0x5d; 0xc3]
    [PUSH (OperandRegister RBP); MOV (OperandRegister RBP) (OperandRegister RSP);
     MOV (OperandRegister RAX) (OperandMemory (Some RSI) None 1 0); MOV (OperandMemory (Some RDI) None 1 0) (OperandRegister RAX);
     POP (OperandRegister RBP); RET].

Definition parse_with_sib_and_disp : Prop :=
  decodes_to
    [0x4a; 0x8b; 0x04; 0x17;
     0x4e; 0x8b; 0x5c; 0x17; 0x08;
     0x4e; 0x8b; 0x04; 0x12;
     0x4a; 0x8b; 0x5c; 0x12; 0x08;
     0x4a; 0x89; 0x84; 0xed; 0x28; 0xfd; 0xff; 0xff;
     0x8b; 0x3c; 0x81;
     0x89; 0x8c; 0x85; 0x18; 0xff; 0xff; 0xff;
     0x48; 0x8b; 0x75; 0xc8;
     0x4c; 0x8d; 0x61; 0xff;
     0x4d; 0x8d; 0x6c; 0x24; 0xff;
     0x4c; 0x8d; 0x2c; 0xd5; 0xd0; 0xfd; 0xff; 0xff;
     0x8d; 0x91; 0x00; 0x00; 0x80; 0x3f]
    [MOV (OperandRegister RAX) (OperandMemory (Some RDI) (Some R10) 1 0);
     MOV (OperandRegister R11) (OperandMemory (Some RDI) (Some R10) 1 8);
     MOV (OperandRegister R8) (OperandMemory (Some RDX) (Some R10) 1 0);
     MOV (OperandRegister RBX) (OperandMemory (Some RDX) (Some R10) 1 8);
     MOV (OperandMemory (Some RBP) (Some R13) 8 (-0x2d8)) (OperandRegister RAX);
     MOV (OperandRegister RDI) (OperandMemory (Some RCX) (Some RAX) 4 0);
     MOV (OperandMemory (Some RBP) (Some RAX) 4 (-0xe8)) (OperandRegister RCX);
     MOV (OperandRegister RSI) (OperandMemory (Some RBP) None 1 (-0x38));
     LEA (OperandRegister R12) (OperandMemory (Some RCX) None 1 (-0x1));
     LEA (OperandRegister R13) (OperandMemory (Some R12) None 1 (-0x1));
     LEA (OperandRegister R13) (OperandMemory None (Some RDX) 8 (-0x230));
     LEA (OperandRegister RDX) (OperandMemory (Some RCX) None 1 0x3f800000)].

Example asm_tests_pass : asm_smoke /\ parse_with_sib_and_disp.
Proof. split; vm_compute; reflexivity. Qed.
