(* ===== verification/Scheduler.v ===== *)
(** * kernel/src/scheduler.rs: the process scheduler

    The scheduler with the globals it works on: the kernel's memory state, the
    process-id counter, the CPU's FPU state and I/O permission, and the shell's
    message queues. The object loader is used through the [Loader] interface.
    An interrupt is the sequence the source runs: save the interrupted
    context, run the handler's body, schedule the next process. *)

From Stdlib Require Import Lia.
From stdpp Require Import base numbers list option strings pretty tactics gmap.
From S2P Require Import Prelude Pod BitUtils MemoryTypes FrameAllocator Paging Memory Process.

Local Open Scope Z_scope.
Local Open Scope u64_scope.

(** ** Contexts *)

Record CpuRegisters : Type := mkRegs {
  r15 : Z; r14 : Z; r13 : Z; r12 : Z; r11 : Z; r10 : Z; r9 : Z; r8 : Z;
  rsi : Z; rdi : Z; rbp : Z; rdx : Z; rcx : Z; rbx : Z; rax : Z
}.

Definition CpuRegisters_EMPTY : CpuRegisters := mkRegs 0 0 0 0 0 0 0 0 0 0 0 0 0 0 0.

Definition set_rax (r : CpuRegisters) (v : Z) : CpuRegisters :=
  mkRegs (r15 r) (r14 r) (r13 r) (r12 r) (r11 r) (r10 r) (r9 r) (r8 r) (rsi r) (rdi r) (rbp r) (rdx r) (rcx r) (rbx r) v.

(** x86_64's [InterruptStackFrameValue]. *)
Record StackFrame : Type := mkFrameValue {
  instruction_pointer : Z; code_segment : Z; cpu_flags : Z; stack_pointer : Z; stack_segment : Z
}.

Record ExecutionContext : Type := mkContext { registers : CpuRegisters; ctx_frame : StackFrame }.

(** [RFlags::INTERRUPT_FLAG] (bit 9). *)
Definition INTERRUPT_FLAG : Z := 512.

(** [VirtAddr::new] panics on a non-canonical address. *)
Definition VirtAddr_new (a : Z) : exec Z :=
  if to_raw (Address_new a) =? a then Done a else Panic.

(** A 512-byte FXSAVE image. *)
Definition FxSaveArea : Type := list Z.

(** ** Processes *)

Record Process : Type := mkProcess {
  proc_id : Z;
  proc_name : string;
  access_policy : AccessPolicy;
  priority : Priority;
  address_space : AddressSpace;
  context : option ExecutionContext;
  heap_mapping : option KMapping;
  allow_io : bool;
  fxsave_area : FxSaveArea
}.

Definition set_context (p : Process) (c : option ExecutionContext) : Process :=
  mkProcess (proc_id p) (proc_name p) (access_policy p) (priority p) (address_space p) c (heap_mapping p) (allow_io p) (fxsave_area p).
Definition set_fxsave (p : Process) (a : FxSaveArea) : Process :=
  mkProcess (proc_id p) (proc_name p) (access_policy p) (priority p) (address_space p) (context p) (heap_mapping p) (allow_io p) a.
Definition set_space (p : Process) (s : AddressSpace) : Process :=
  mkProcess (proc_id p) (proc_name p) (access_policy p) (priority p) s (context p) (heap_mapping p) (allow_io p) (fxsave_area p).

(** ** The run queue: [BTreeMap<Priority, VecDeque<Process>>]

    A missing key and an empty deque are the same to every operation; the
    map's iteration order is that of the discriminants. *)

Record RunQueue : Type := mkRunQueue { q_none : list Process; q_normal : list Process; q_idle : list Process }.

Definition RunQueue_new : RunQueue := mkRunQueue [] [] [].

Definition rq_push (q : RunQueue) (p : Process) : RunQueue :=
  match priority p with
  | PriorityNone => mkRunQueue (q_none q ++ [p]) (q_normal q) (q_idle q)
  | PriorityNormal => mkRunQueue (q_none q) (q_normal q ++ [p]) (q_idle q)
  | PriorityIdle => mkRunQueue (q_none q) (q_normal q) (q_idle q ++ [p])
  end.

(** [values_mut().find(|q| !q.is_empty())] and [pop_front]. *)
Definition rq_pop (q : RunQueue) : option (Process * RunQueue) :=
  match q_none q, q_normal q, q_idle q with
  | p :: r, n, i => Some (p, mkRunQueue r n i)
  | [], p :: r, i => Some (p, mkRunQueue [] r i)
  | [], [], p :: r => Some (p, mkRunQueue [] [] r)
  | [], [], [] => None
  end.

Definition rq_all (q : RunQueue) : list Process := q_none q ++ q_normal q ++ q_idle q.

(** ** The loader, as the scheduler uses it *)

(** What the scheduler and the fault handler read of a loaded section: its
    mapping, its name and the name of its object, if that is still loaded. *)
Record LoadedSection : Type := mkSection { section_mapping : KMapping; section_name : string; section_owner : option string }.

Class Loader (L : Type) : Type := {
  (** [load_object] into the space at the page, then the [mapping_offset] of
      the object's [main]. *)
  load_main : L -> Kernel -> AddressSpace -> string -> Page -> exec (L * Kernel * AddressSpace * Z);
  (** [get_section_for_addr] and [Weak::upgrade]. *)
  section_for_addr : L -> Address -> option LoadedSection
}.

(** ** State *)

Record Sys (L : Type) : Type := mkSys {
  current : option Process;
  queue : RunQueue;
  blocked : list Process;
  shell_queue : option ShellQueue;
  kernel : Kernel;
  PROCESS_ID : Z;
  fpu : FxSaveArea;
  io_allowed : bool;
  loader : L
}.
Arguments mkSys {L} _ _ _ _ _ _ _ _ _.
Arguments current {L} _.
Arguments queue {L} _.
Arguments blocked {L} _.
Arguments shell_queue {L} _.
Arguments kernel {L} _.
Arguments PROCESS_ID {L} _.
Arguments fpu {L} _.
Arguments io_allowed {L} _.
Arguments loader {L} _.

(** The segment selectors and static addresses the scheduler reads. *)
Record Selectors : Type := mkSelectors { kernel_code : Z; kernel_data : Z; user_code : Z; user_data : Z }.

Definition IDLE_PROCESS_ID : Z := 0.
Definition DEFAULT_KERNEL_STACK_SIZE : Z := PAGE_SIZE * 8.
Definition DEFAULT_USER_STACK_SIZE : Z := PAGE_SIZE * 16.

(** ** Lemmas: the run queue *)

(** Every process waits in the deque of its priority. *)
Record rq_ok (q : RunQueue) : Prop := {
  ok_none : Forall (fun p => priority p = PriorityNone) (q_none q);
  ok_normal : Forall (fun p => priority p = PriorityNormal) (q_normal q);
  ok_idle : Forall (fun p => priority p = PriorityIdle) (q_idle q)
}.

Lemma rq_push_all q p : rq_all (rq_push q p) ≡ₚ p :: rq_all q.
Proof. unfold rq_all, rq_push. destruct (priority p); cbn [q_none q_normal q_idle]; solve_Permutation. Qed.

Lemma rq_push_ok q p : rq_ok q -> rq_ok (rq_push q p).
Proof.
  intros [H0 H1 H2]. unfold rq_push. destruct (priority p) eqn:E; split; cbn; try done;
    apply Forall_app; (split; [done|by apply Forall_singleton]).
Qed.

Lemma rq_pop_all q : match rq_pop q with Some (p, q') => rq_all q = p :: rq_all q' | None => rq_all q = [] end.
Proof. destruct q as [[|? ?] [|? ?] [|? ?]]; reflexivity. Qed.

Lemma rq_pop_ok q p q' : rq_ok q -> rq_pop q = Some (p, q') -> rq_ok q'.
Proof.
  intros [H0 H1 H2] E. destruct q as [[|? ?] [|? ?] [|? ?]]; cbn in *; simplify_eq;
    split; cbn; try done; by eapply Forall_inv_tail.
Qed.

Lemma rq_pop_some q p : p ∈ rq_all q -> exists p' q', rq_pop q = Some (p', q').
Proof.
  intros Hin. pose proof (rq_pop_all q) as Hp. destruct (rq_pop q) as [[p' q']|]; [by exists p', q'|].
  rewrite Hp in Hin. by apply not_elem_of_nil in Hin.
Qed.

(** The process taken has the smallest discriminant of all that wait. *)
Lemma rq_pop_first q p q' : rq_ok q -> rq_pop q = Some (p, q') ->
  Forall (fun p' => Priority_repr (priority p) <= Priority_repr (priority p')) (rq_all q').
Proof.
  intros [H0 H1 H2] E. apply Forall_forall. intros x Hx. unfold rq_all in Hx. rewrite !elem_of_app in Hx.
  rewrite Forall_forall in H0, H1, H2.
  destruct q as [[|a l] [|b l'] [|c l'']]; cbn [rq_pop q_none q_normal q_idle] in *; simplify_eq; cbn [q_none q_normal q_idle] in Hx;
    rewrite ?elem_of_nil in Hx;
    first [rewrite (H0 p) by left|rewrite (H1 p) by left|rewrite (H2 p) by left];
    first [by destruct (priority x)|idtac];
    destruct Hx as [Hx|[Hx|Hx]]; try done;
    first [rewrite (H2 x) by first [exact Hx|by right]|rewrite (H1 x) by first [exact Hx|by right]]; cbn; lia.
Qed.

Section Scheduler.
Context {L : Type} `{Loader L}.
Context (selectors : Selectors) (idle_loop kernel_stack_top : Z) (INIT_FXSAVE_AREA : FxSaveArea).
Implicit Types s : Sys L.

Definition upd_current s (c : option Process) : Sys L :=
  mkSys c (queue s) (blocked s) (shell_queue s) (kernel s) (PROCESS_ID s) (fpu s) (io_allowed s) (loader s).
Definition upd_queue s (q : RunQueue) : Sys L :=
  mkSys (current s) q (blocked s) (shell_queue s) (kernel s) (PROCESS_ID s) (fpu s) (io_allowed s) (loader s).
Definition upd_blocked s (b : list Process) : Sys L :=
  mkSys (current s) (queue s) b (shell_queue s) (kernel s) (PROCESS_ID s) (fpu s) (io_allowed s) (loader s).
Definition upd_shell s (q : option ShellQueue) : Sys L :=
  mkSys (current s) (queue s) (blocked s) q (kernel s) (PROCESS_ID s) (fpu s) (io_allowed s) (loader s).
Definition upd_kernel s (k : Kernel) : Sys L :=
  mkSys (current s) (queue s) (blocked s) (shell_queue s) k (PROCESS_ID s) (fpu s) (io_allowed s) (loader s).
Definition upd_id s (n : Z) : Sys L :=
  mkSys (current s) (queue s) (blocked s) (shell_queue s) (kernel s) n (fpu s) (io_allowed s) (loader s).
Definition upd_cpu s (f : FxSaveArea) (io : bool) : Sys L :=
  mkSys (current s) (queue s) (blocked s) (shell_queue s) (kernel s) (PROCESS_ID s) f io (loader s).
Definition upd_loader s (l : L) : Sys L :=
  mkSys (current s) (queue s) (blocked s) (shell_queue s) (kernel s) (PROCESS_ID s) (fpu s) (io_allowed s) l.

(** ** Operations *)

Definition add_to_queue s (p : Process) : Sys L := upd_queue s (rq_push (queue s) p).

(** [init]: the idle process; [shell] is the shared queue of [shell::QUEUE]. *)
Definition Scheduler_init s (shell : option ShellQueue) : exec (Sys L) :=
  '(k, space) ← AddressSpace_new (kernel s) "idle" None;
  ip ← VirtAddr_new idle_loop;
  sp ← VirtAddr_new (kernel_stack_top ⊟ 8);
  let s := upd_kernel s k in
  let s := add_to_queue s (mkProcess IDLE_PROCESS_ID "idle" PolicyAll PriorityIdle space
    (Some (mkContext CpuRegisters_EMPTY (mkFrameValue ip (kernel_code selectors) INTERRUPT_FLAG sp (kernel_code selectors))))
    None true INIT_FXSAVE_AREA) in
  shell ← unwrap shell;
  Done (upd_shell s (Some shell)).

Definition run_kernel_process s (name : string) (entry_point : Z) (stack_size : option Z) : exec (Sys L) :=
  let id := PROCESS_ID s in
  let s := upd_id s (id ⊞ 1) in
  '(k, space) ← AddressSpace_new (kernel s) (name +:+ "." +:+ pretty id) (Some (k_space (kernel s)));
  let stack_size := default DEFAULT_KERNEL_STACK_SIZE stack_size in
  let stack_top_addr := AddressDomain_base_addr UserCode in
  pages ← PageRange_from_end_size (Address_page stack_top_addr) stack_size;
  '(k, space, _) ← AddressSpace_map_pages k space ("kernel_stack." +:+ pretty id) pages (Z.lor PRESENT WRITABLE);
  ip ← VirtAddr_new entry_point;
  sp ← VirtAddr_new (to_raw stack_top_addr ⊟ 8);
  let context := mkContext CpuRegisters_EMPTY (mkFrameValue ip (kernel_code selectors) INTERRUPT_FLAG sp (kernel_data selectors)) in
  Done (add_to_queue (upd_kernel s k)
    (mkProcess id name PolicyAll PriorityNormal space (Some context) None true INIT_FXSAVE_AREA)).

Definition run_user_process s (name : string) (stack_size : option Z) (io : bool) (policy : AccessPolicy) : exec (Sys L) :=
  let id := PROCESS_ID s in
  let s := upd_id s (id ⊞ 1) in
  '(k, space) ← AddressSpace_new (kernel s) (name +:+ "." +:+ pretty id) None;
  let user_code_addr := AddressDomain_base_addr UserCode in
  '(l, k, space, offset) ← load_main (loader s) k space name (Address_page user_code_addr);
  entry_point ← Address_add user_code_addr offset;
  let stack_size := default DEFAULT_USER_STACK_SIZE stack_size in
  let stack_top_addr := AddressDomain_base_addr UserCode in
  _ ← rust_assert (to_raw stack_top_addr mod 16 =? 0);
  pages ← PageRange_from_end_size (Address_page stack_top_addr) stack_size;
  '(k, space, r) ← AddressSpace_map_pages k space ("user_stack." +:+ pretty id) pages
    (Z.lor (Z.lor (Z.lor PRESENT WRITABLE) USER_ACCESSIBLE) NO_EXECUTE);
  _ ← unwrap (result_ok r);
  ip ← VirtAddr_new (to_raw entry_point);
  sp ← VirtAddr_new (to_raw stack_top_addr ⊟ 8);
  let context := mkContext CpuRegisters_EMPTY (mkFrameValue ip (user_code selectors) INTERRUPT_FLAG sp (user_data selectors)) in
  Done (add_to_queue (upd_loader (upd_kernel s k) l)
    (mkProcess id name policy PriorityNormal space (Some context) None io INIT_FXSAVE_AREA)).

(** The reply of the shell that [schedule_next] handles. A process whose
    mapping fails, or whose section is gone, is dropped (its address space
    with it). *)
Definition drop_process s (p : Process) : exec (Sys L) :=
  k ← AddressSpace_drop (kernel s) (address_space p); Done (upd_kernel s k).

Definition handle_output s (output : ShellOutput) : exec (Sys L) :=
  match output with
  | ExitProcess _ =>
      match blocked s with
      | [] => Panic
      | p :: rest => drop_process (upd_blocked s rest) p
      end
  | StartProcess name => run_user_process s (string_of_bytes (SizedString_as_str name)) None true PolicyNormal
  | AllowModuleAccess addr process_id =>
      match blocked s with
      | [] => Panic
      | p :: rest =>
          let s := upd_blocked s rest in
          if process_id =? proc_id p then
            match section_for_addr (loader s) (Address_new addr) with
            | Some section =>
                let m := section_mapping section in
                '(k, space, r) ← KernelMapping_map_into (kernel s) m (address_space p) (mapping_pages m) (mapping_flags m);
                let s := upd_kernel s k in
                let p := set_space p space in
                match r with
                | Err _ => drop_process s p
                | Ok _ => Done (add_to_queue s p)
                end
            | None => drop_process s p
            end
          else Panic
      end
  end.

(** Pops one message of the shell, if there is one, and handles it. *)
Definition poll_shell s : exec (Sys L) :=
  let s := upd_kernel s (enter (kernel s) (k_space (kernel s))) in
  match shell_queue s with
  | None => Done s
  | Some sq =>
      '(out, o) ← SizedQueue_pop SHELL_INPUT_QUEUE_SIZE (shell_output sq);
      let s := upd_shell s (Some (mkShellQueue (shell_input sq) out)) in
      match o with
      | None => Done s
      | Some output => handle_output s output
      end
  end.

(** The second half of [schedule_next]: the current process, or the next one. *)
Definition pick_next s : exec (Sys L * Process) :=
  match current s with
  | Some p => Done (upd_kernel s (enter (kernel s) (address_space p)), p)
  | None =>
      match rq_pop (queue s) with
      | None => Panic
      | Some (p, q) =>
          let s := upd_queue s q in
          let s := upd_kernel s (enter (kernel s) (address_space p)) in
          Done (upd_cpu s (fxsave_area p) (allow_io p), p)
      end
  end.

(** Returns the context to resume; it is taken out of the process. *)
Definition schedule_next s : exec (Sys L * ExecutionContext) :=
  s ← poll_shell s;
  '(s, p) ← pick_next s;
  match context p with
  | None => Panic
  | Some c => Done (upd_current s (Some (set_context p None)), c)
  end.

Definition set_current_context s (c : ExecutionContext) : exec (Sys L) :=
  match current s with
  | None => Panic
  | Some p =>
      match context p with
      | Some _ => Panic
      | None => Done (upd_current s (Some (set_fxsave (set_context p (Some c)) (fpu s))))
      end
  end.

Definition preempt_current s : exec (Sys L) :=
  match current s with
  | None => Panic
  | Some p => Done (add_to_queue (upd_current s None) p)
  end.

Definition block_current s (request : ShellInput) : exec (Sys L) :=
  match current s with
  | None => Panic
  | Some p =>
      let s := upd_current s None in
      let s := upd_kernel s (enter (kernel s) (k_space (kernel s))) in
      let s := upd_blocked s (blocked s ++ [p]) in
      match shell_queue s with
      | None => Panic
      | Some sq =>
          inp ← SizedQueue_push SHELL_INPUT_QUEUE_SIZE (shell_input sq) request;
          Done (upd_shell s (Some (mkShellQueue inp (shell_output sq))))
      end
  end.

(** ** Interrupt handlers: save, run the body, schedule *)

Definition interrupt s (c : ExecutionContext) (body : Sys L -> exec (Sys L)) : exec (Sys L * ExecutionContext) :=
  s ← set_current_context s c; s ← body s; schedule_next s.

Definition defer_body s : exec (Sys L) := preempt_current s.

(** The process is dropped at the end of the body. *)
Definition exit_body s : exec (Sys L) :=
  match current s with
  | None => Panic
  | Some p =>
      let s := upd_current s None in
      match context p with
      | None => Panic
      | Some _ => drop_process (upd_kernel s (enter (kernel s) (k_space (kernel s)))) p
      end
  end.

Definition translate_addr_body s : exec (Sys L) :=
  match current s with
  | None => Panic
  | Some p =>
      match context p with
      | None => Panic
      | Some c =>
          let virt_addr := Address_new (rdi (registers c)) in
          o ← AddressSpace_translate_address (kernel s) (address_space p) virt_addr;
          let value := match o with Some phys_addr => to_raw phys_addr | None => 2 ^ 64 - 2 end in
          Done (upd_current s (Some (set_context p (Some (mkContext (set_rax (registers c) value) (ctx_frame c))))))
      end
  end.

(** ** Start-up: [main] runs the shell, then [scheduler::run] *)

Definition boot s (shell : option ShellQueue) : exec (Sys L * ExecutionContext) :=
  s ← run_user_process s "shell" None true PolicyAll; s ← Scheduler_init s shell; schedule_next s.

(** ** The invariant *)

Definition procs s : list Process := option_list (current s) ++ rq_all (queue s) ++ blocked s.
Definition waiting s : list Process := rq_all (queue s) ++ blocked s.
Definition ids s : list Z := proc_id <$> procs s.

Definition is_idle (p : Process) : Prop :=
  proc_id p = IDLE_PROCESS_ID /\ priority p = PriorityIdle /\ access_policy p = PolicyAll.

Record sched_inv s : Prop := {
  si_queue : rq_ok (queue s);
  si_waiting : Forall (fun p => is_Some (context p)) (waiting s);
  si_ids : NoDup (ids s);
  si_fresh : Forall (fun n => 0 <= n < PROCESS_ID s) (ids s);
  si_idle : exists p, p ∈ option_list (current s) ++ rq_all (queue s) /\ is_idle p;
  si_blocked : Forall (fun p => access_policy p = PolicyNormal) (blocked s)
}.

(** Between interrupts a process runs, and its context is on the CPU. *)
Definition running s : Prop := exists p, current s = Some p /\ context p = None.

Lemma ids_submseteq s s' : (ids s' ⊆+ ids s) -> PROCESS_ID s' = PROCESS_ID s ->
  NoDup (ids s) -> Forall (fun n => 0 <= n < PROCESS_ID s) (ids s) ->
  NoDup (ids s') /\ Forall (fun n => 0 <= n < PROCESS_ID s') (ids s').
Proof.
  intros Hs Hp Hn Hf. rewrite Hp. apply submseteq_Permutation in Hs as [l Hl].
  rewrite Hl in Hn, Hf. apply NoDup_app in Hn as (? & _ & _). apply Forall_app in Hf as [? _]. done.
Qed.

(** ** Saving, blocking and dropping *)

Lemma set_current_context_spec s c : running s -> exists p, current s = Some p /\
  set_current_context s c = Done (upd_current s (Some (set_fxsave (set_context p (Some c)) (fpu s)))).
Proof. intros (p & Hc & Hn). exists p. unfold set_current_context. by rewrite Hc, Hn. Qed.

(** A state whose current process differs only in context and FPU image. *)
Lemma sched_inv_current s p p' : sched_inv s -> current s = Some p ->
  proc_id p' = proc_id p -> priority p' = priority p -> access_policy p' = access_policy p ->
  sched_inv (upd_current s (Some p')).
Proof.
  intros [Hq Hw Hi Hf (i & Hin & Hid) Hb] Hc E1 E2 E3.
  assert (ids (upd_current s (Some p')) = ids s) as He.
  { unfold ids, procs. cbn. rewrite Hc. cbn. by rewrite E1. }
  split; [done|done|by rewrite He|by rewrite He| |done]. cbn. rewrite Hc in Hin. cbn in Hin.
  apply elem_of_cons in Hin as [->|Hin].
  - exists p'. split; [left|]. destruct Hid as (? & ? & ?). split_and!; congruence.
  - exists i. split; [by right|done].
Qed.

Lemma sched_inv_preempt s p : sched_inv s -> current s = Some p -> is_Some (context p) ->
  sched_inv (add_to_queue (upd_current s None) p).
Proof.
  intros [Hq Hw Hi Hf (i & Hin & Hid) Hb] Hc Hs.
  assert (He : ids (add_to_queue (upd_current s None) p) ≡ₚ ids s).
  { unfold ids, procs. cbn. rewrite Hc, rq_push_all. done. }
  destruct (ids_submseteq s (add_to_queue (upd_current s None) p)) as [Hn Hf']; [by rewrite He|done..|].
  split; [by apply rq_push_ok| |done|done| |done].
  - unfold waiting. cbn. rewrite rq_push_all. by apply Forall_cons.
  - exists i. split; [|done]. cbn. rewrite rq_push_all. rewrite Hc in Hin. exact Hin.
Qed.

(** The current process leaves. *)
Lemma sched_inv_leave s p k : sched_inv s -> current s = Some p -> ~ is_idle p ->
  sched_inv (upd_kernel (upd_current s None) k).
Proof.
  intros [Hq Hw Hi Hf (i & Hin & Hid) Hb] Hc Hni. rewrite Hc in Hin. cbn in Hin.
  destruct (ids_submseteq s (upd_kernel (upd_current s None) k)) as [Hn Hf']; [|done..|].
  { unfold ids, procs. cbn. rewrite Hc. cbn. by apply submseteq_cons. }
  split; [done..| |done]. exists i. split; [|done]. cbn. by apply elem_of_cons in Hin as [->|Hin].
Qed.

Lemma sched_inv_block s p k q : sched_inv s -> current s = Some p -> is_Some (context p) -> access_policy p = PolicyNormal ->
  sched_inv (upd_shell (upd_blocked (upd_kernel (upd_current s None) k) (blocked s ++ [p])) q).
Proof.
  intros [Hq Hw Hi Hf (i & Hin & Hid) Hb] Hc Hs Hpol. rewrite Hc in Hin. cbn in Hin.
  set (s' := upd_shell _ _). assert (He : ids s' ≡ₚ ids s).
  { unfold ids, procs. cbn. rewrite Hc. cbn [option_list app]. apply fmap_Permutation. solve_Permutation. }
  destruct (ids_submseteq s s') as [Hn Hf']; [by rewrite He|done..|].
  split; [done| |done|done| |].
  - unfold waiting in *. cbn. rewrite app_assoc. apply Forall_app. split; [done|]. by apply Forall_singleton.
  - exists i. split; [|done]. cbn. apply elem_of_cons in Hin as [->|Hin]; [|done].
    destruct Hid as (_ & _ & Hall). congruence.
  - cbn. apply Forall_app. split; [done|]. by apply Forall_singleton.
Qed.

(** The first blocked process is dropped, or put in the run queue. *)
Lemma sched_inv_unblock s p rest k : sched_inv s -> blocked s = p :: rest ->
  sched_inv (upd_kernel (upd_blocked s rest) k) /\
  forall sp, sched_inv (add_to_queue (upd_kernel (upd_blocked s rest) k) (set_space p sp)).
Proof.
  intros [Hq Hw Hi Hf (i & Hin & Hid) Hb] Hbl. unfold waiting in Hw. rewrite Hbl in Hw, Hb.
  apply Forall_app in Hw as [Hw1 Hw2]. inversion_clear Hw2 as [|?? Hp Hw3]. inversion_clear Hb as [|?? _ Hb'].
  split.
  - destruct (ids_submseteq s (upd_kernel (upd_blocked s rest) k)) as [Hn Hf']; [|done..|].
    { unfold ids, procs. cbn. rewrite Hbl. apply fmap_submseteq. repeat apply submseteq_skips_l. by apply submseteq_cons. }
    split; [done| |done|done| |done]; [|by exists i]. by apply Forall_app.
  - intros sp. set (s' := add_to_queue _ _). assert (He : ids s' ≡ₚ ids s).
    { unfold ids, procs. cbn. rewrite Hbl, rq_push_all, !fmap_app. cbn. solve_Permutation. }
    destruct (ids_submseteq s s') as [Hn Hf']; [by rewrite He|done..|].
    split; [by apply rq_push_ok| |done|done| |done].
    + unfold waiting. cbn. rewrite rq_push_all. apply Forall_cons. split; [done|]. by apply Forall_app.
    + exists i. split; [|done]. cbn. rewrite rq_push_all. rewrite elem_of_app in Hin |- *. rewrite elem_of_cons. tauto.
Qed.

(** A new process joins the run queue. *)
Lemma sched_inv_start s p k l : sched_inv s -> PROCESS_ID s + 1 < 2 ^ 64 -> proc_id p = PROCESS_ID s -> is_Some (context p) ->
  sched_inv (add_to_queue (upd_loader (upd_kernel (upd_id s (PROCESS_ID s ⊞ 1)) k) l) p).
Proof.
  intros [Hq Hw Hi Hf (i & Hin & Hid) Hb] Hlt Hp Hs. set (s' := add_to_queue _ _).
  assert (Hpos : 0 <= PROCESS_ID s).
  { destruct (Forall_forall (fun n => 0 <= n < PROCESS_ID s) (ids s)) as [HF _]. specialize (HF Hf (proc_id i)).
    enough (proc_id i ∈ ids s) as Hm by (specialize (HF Hm); lia). apply list_elem_of_fmap_2.
    unfold procs. rewrite app_assoc. apply elem_of_app. by left. }
  assert (He : ids s' ≡ₚ PROCESS_ID s :: ids s).
  { unfold ids, procs. cbn. rewrite rq_push_all, !fmap_app. cbn. rewrite Hp. solve_Permutation. }
  assert (Hid' : PROCESS_ID s' = PROCESS_ID s + 1) by (cbn; apply wrap_small; unfold uint_range; lia).
  split; [by apply rq_push_ok| | | | |done].
  - unfold waiting. cbn. rewrite rq_push_all. by apply Forall_cons.
  - rewrite He. apply NoDup_cons. split; [|done]. intros Hm. rewrite Forall_forall in Hf. specialize (Hf _ Hm). lia.
  - rewrite He, Hid'. apply Forall_cons. split; [lia|]. eapply Forall_impl; [exact Hf|]. cbn. lia.
  - exists i. split; [|done]. cbn. rewrite rq_push_all. rewrite elem_of_app in Hin |- *. rewrite elem_of_cons. tauto.
Qed.

(** ** Polling the shell *)

Lemma run_user_process_inv s name stack io policy s' : run_user_process s name stack io policy = Done s' ->
  exists p k l, s' = add_to_queue (upd_loader (upd_kernel (upd_id s (PROCESS_ID s ⊞ 1)) k) l) p /\
    proc_id p = PROCESS_ID s /\ is_Some (context p).
Proof.
  unfold run_user_process. intros Hr. cbn zeta in Hr. exec_cases Hr. injection Hr as <-.
  eexists _, _, _. split; [reflexivity|]. split; [done|]. by eexists.
Qed.

(** What handling a message leaves alone. *)
Definition poll_frame s s' : Prop :=
  current s' = current s /\ fpu s' = fpu s /\ io_allowed s' = io_allowed s /\
  (forall p, p ∈ rq_all (queue s) -> p ∈ rq_all (queue s')).

Lemma poll_frame_push s s' p : current s' = current s -> fpu s' = fpu s -> io_allowed s' = io_allowed s ->
  queue s' = rq_push (queue s) p -> poll_frame s s'.
Proof. intros ? ? ? E. split_and!; try done. intros x Hx. rewrite E, rq_push_all. by right. Qed.

Lemma poll_frame_same s s' : current s' = current s -> fpu s' = fpu s -> io_allowed s' = io_allowed s ->
  queue s' = queue s -> poll_frame s s'.
Proof. intros ? ? ? E. split_and!; try done. intros x Hx. by rewrite E. Qed.

Lemma drop_process_inv s p s' : drop_process s p = Done s' -> exists k, s' = upd_kernel s k.
Proof. unfold drop_process. intros Hr. exec_inv Hr. injection Hr as <-. by eexists. Qed.

Lemma handle_output_inv s o s' : sched_inv s -> PROCESS_ID s + 1 < 2 ^ 64 -> handle_output s o = Done s' ->
  sched_inv s' /\ poll_frame s s'.
Proof.
  intros Hinv Hlt. unfold handle_output. destruct o as [code|name|addr pid].
  - destruct (blocked s) as [|p rest] eqn:Hb; [done|]. intros (k & ->)%drop_process_inv.
    destruct (sched_inv_unblock s p rest k Hinv Hb) as [Hs _]. split; [exact Hs|]. by apply poll_frame_same.
  - intros (p & k & l & -> & Hp & Hc)%run_user_process_inv. split; [by apply sched_inv_start|]. by eapply poll_frame_push.
  - destruct (blocked s) as [|p rest] eqn:Hb; [done|]. case_if; [|done]. cbn [loader upd_blocked].
    destruct (section_for_addr _ _) as [sec|].
    2:{ intros (k & ->)%drop_process_inv. destruct (sched_inv_unblock s p rest k Hinv Hb) as [Hs _].
        split; [exact Hs|]. by apply poll_frame_same. }
    intros Hr. exec_inv Hr. destruct x as [[k sp] r].
    destruct r as [[]|e].
    + injection Hr as <-. destruct (sched_inv_unblock s p rest k Hinv Hb) as [_ Hs]. split; [exact (Hs sp)|]. by eapply poll_frame_push.
    + apply drop_process_inv in Hr as (k' & ->). destruct (sched_inv_unblock s p rest k' Hinv Hb) as [Hs _].
      split; [exact Hs|]. by apply poll_frame_same.
Qed.

Lemma sched_inv_kernel s k : sched_inv s -> sched_inv (upd_kernel s k).
Proof. by intros [? ? ? ? ? ?]. Qed.
Lemma sched_inv_shell s q : sched_inv s -> sched_inv (upd_shell s q).
Proof. by intros [? ? ? ? ? ?]. Qed.

Lemma poll_shell_inv s s' : sched_inv s -> PROCESS_ID s + 1 < 2 ^ 64 -> poll_shell s = Done s' ->
  sched_inv s' /\ poll_frame s s'.
Proof.
  intros Hinv Hlt. unfold poll_shell. cbn [shell_queue upd_kernel].
  destruct (shell_queue s) as [sq|].
  2:{ intros [= <-]. split; [by apply sched_inv_kernel|]. by apply poll_frame_same. }
  intros Hr. exec_inv Hr. destruct x as [out [o|]].
  - apply handle_output_inv in Hr as [Hs Hf]; [|by apply sched_inv_shell, sched_inv_kernel|done]. by split.
  - injection Hr as <-. split; [by apply sched_inv_shell, sched_inv_kernel|]. by apply poll_frame_same.
Qed.

(** No message of the shell is pending. *)
Definition quiet s : Prop :=
  match shell_queue s with
  | None => True
  | Some sq => queue_repr SHELL_INPUT_QUEUE_SIZE (shell_output sq) []
  end.

Lemma poll_shell_quiet s : quiet s -> exists s', poll_shell s = Done s' /\ quiet s' /\
  current s' = current s /\ queue s' = queue s /\ blocked s' = blocked s /\ PROCESS_ID s' = PROCESS_ID s /\
  kernel s' = enter (kernel s) (k_space (kernel s)) /\ fpu s' = fpu s /\ io_allowed s' = io_allowed s /\ loader s' = loader s /\
  shell_input <$> shell_queue s' = shell_input <$> shell_queue s.
Proof.
  unfold quiet, poll_shell. cbn [shell_queue upd_kernel]. destruct (shell_queue s) as [sq|] eqn:E.
  - intros Hq. destruct (pop_nil_spec _ _ Hq) as (out & -> & Hq'). cbn [mbind exec_bind].
    eexists. split; [reflexivity|]. by split_and!.
  - intros _. eexists. split; [reflexivity|]. cbn [shell_queue upd_kernel]. rewrite E. by split_and!.
Qed.

(** ** Scheduling *)

(** The outcome of picking a process: [p] runs, its saved context [c] is
    resumed, its FPU image is loaded and its address space is active. *)
Record resumed s' (p : Process) (c : ExecutionContext) : Prop := {
  res_current : current s' = Some (set_context p None);
  res_context : context p = Some c;
  res_space : k_cr3 (kernel s') = space_frame (address_space p)
}.

Lemma schedule_current s p : current s = Some p -> is_Some (context p) -> exists c,
  (forall s1, poll_shell s = Done s1 -> current s1 = current s ->
    schedule_next s = Done (upd_current (upd_kernel s1 (enter (kernel s1) (address_space p))) (Some (set_context p None)), c)) /\
  context p = Some c.
Proof.
  intros Hc [c Hs]. exists c. split; [|done]. intros s1 E H1. unfold schedule_next. rewrite E. cbn [mbind exec_bind].
  unfold pick_next. rewrite H1, Hc. cbn [mbind exec_bind]. by rewrite Hs.
Qed.

Lemma sched_inv_pick s p q k f io : sched_inv s -> current s = None -> rq_pop (queue s) = Some (p, q) ->
  sched_inv (upd_current (upd_cpu (upd_kernel (upd_queue s q) k) f io) (Some (set_context p None))).
Proof.
  intros [Hq Hw Hi Hf (i & Hin & Hid) Hb] Hc E. pose proof (rq_pop_all (queue s)) as Hall. rewrite E in Hall.
  unfold waiting in Hw. rewrite Hall in Hw. inversion_clear Hw as [|?? _ Hw'].
  set (s' := upd_current _ _). assert (He : ids s' = ids s).
  { unfold ids, procs. cbn. rewrite Hc, Hall. done. }
  split; [by eapply rq_pop_ok|exact Hw'|by rewrite He|by rewrite He| |done].
  rewrite Hc, Hall in Hin. cbn in Hin |- *. apply elem_of_cons in Hin as [->|Hin].
  - exists (set_context p None). split; [left|done].
  - exists i. split; [by right|done].
Qed.

Lemma schedule_next_inv s s' c : sched_inv s -> PROCESS_ID s + 1 < 2 ^ 64 -> schedule_next s = Done (s', c) ->
  sched_inv s' /\ running s' /\ exists p, resumed s' p c.
Proof.
  intros Hinv Hlt. unfold schedule_next. intros Hr. exec_inv Hr. rename x into s1.
  apply poll_shell_inv in E as [H1 _]; [|done..]. unfold pick_next in Hr. destruct (current s1) as [p|] eqn:Hc.
  - cbn [mbind exec_bind] in Hr. destruct (context p) as [c0|] eqn:Hp; [|done]. injection Hr as <- <-.
    split; [|split; [by eexists|exists p; by split]].
    apply (sched_inv_current (upd_kernel s1 (enter (kernel s1) (address_space p))) p); try done. by apply sched_inv_kernel.
  - destruct (rq_pop (queue s1)) as [[p q]|] eqn:Hq; [|done]. cbn [mbind exec_bind] in Hr.
    destruct (context p) as [c0|] eqn:Hp; [|done]. injection Hr as <- <-.
    split; [by apply sched_inv_pick|]. split; [by eexists|]. exists p. by split.
Qed.

(** With no message pending, the next process is the first of the run queue. *)
Lemma schedule_next_quiet s : sched_inv s -> quiet s -> current s = None ->
  exists p q c s', rq_pop (queue s) = Some (p, q) /\ schedule_next s = Done (s', c) /\ resumed s' p c /\
    queue s' = q /\ blocked s' = blocked s /\ PROCESS_ID s' = PROCESS_ID s /\ quiet s' /\
    fpu s' = fxsave_area p /\ io_allowed s' = allow_io p /\ k_frames (kernel s') = k_frames (kernel s) /\
    shell_input <$> shell_queue s' = shell_input <$> shell_queue s.
Proof.
  intros Hinv Hquiet Hc. destruct (poll_shell_quiet s Hquiet) as (s1 & E & Hq1 & C1 & Q1 & B1 & P1 & K1 & _ & _ & _ & I1).
  destruct (si_idle _ Hinv) as (i & Hin & _). rewrite Hc in Hin. destruct (rq_pop_some _ _ Hin) as (p & q & Hp).
  pose proof (rq_pop_all (queue s)) as Hall. rewrite Hp in Hall. pose proof (si_waiting _ Hinv) as Hw. unfold waiting in Hw.
  rewrite Hall in Hw. inversion_clear Hw as [|?? [c Hctx] _].
  exists p, q, c. unfold schedule_next. rewrite E. cbn [mbind exec_bind]. unfold pick_next. rewrite C1, Hc, Q1, Hp.
  cbn [mbind exec_bind]. rewrite Hctx. eexists. split; [done|]. split; [reflexivity|].
  split; [by split|]. cbn. rewrite K1. by split_and!.
Qed.

(** ** Whole interrupts *)

Lemma Scheduler_init_inv s shell s' : Scheduler_init s shell = Done s' -> exists p k sh,
  s' = upd_shell (add_to_queue (upd_kernel s k) p) (Some sh) /\ is_idle p /\ is_Some (context p).
Proof.
  unfold Scheduler_init. intros Hr. exec_cases Hr. injection Hr as <-.
  eexists _, _, _. split; [reflexivity|]. split; [done|by eexists].
Qed.

Lemma empty_boot_inv s p0 p k0 l k sh : current s = None -> queue s = RunQueue_new -> blocked s = [] -> PROCESS_ID s = 1 ->
  proc_id p0 = 1 -> is_Some (context p0) -> is_idle p -> is_Some (context p) ->
  let s' := upd_shell (add_to_queue (upd_kernel (add_to_queue (upd_loader (upd_kernel (upd_id s (1 ⊞ 1)) k0) l) p0) k) p) (Some sh) in
  sched_inv s' /\ current s' = None /\ PROCESS_ID s' = 2.
Proof.
  intros Hc Hq Hb Hi Hp0 Hs0 Hid Hs. cbv zeta. set (s' := upd_shell _ _).
  assert (Hall : rq_all (queue s') ≡ₚ [p; p0]).
  { cbn. rewrite !rq_push_all, Hq. done. }
  assert (Hids : ids s' ≡ₚ [0; 1]).
  { unfold ids, procs. cbn [current s' upd_shell add_to_queue upd_queue upd_kernel upd_loader upd_id]. rewrite Hc. cbn [option_list app].
    rewrite Hall. cbn [blocked s' upd_shell add_to_queue upd_queue upd_kernel upd_loader upd_id]. rewrite Hb. cbn.
    destruct Hid as (-> & _). by rewrite Hp0. }
  split; [|split; [exact Hc|reflexivity]]. split.
  - cbn. apply rq_push_ok, rq_push_ok. rewrite Hq. by split.
  - unfold waiting. rewrite Hall. cbn. rewrite Hb. by repeat apply Forall_cons_2.
  - rewrite Hids. apply NoDup_cons. split; [by intros H0%list_elem_of_singleton|]. apply NoDup_singleton.
  - rewrite Hids. change (PROCESS_ID s') with 2. repeat apply Forall_cons_2; [lia|lia|done].
  - exists p. split; [|done]. cbn [current s' upd_shell add_to_queue upd_queue upd_kernel upd_loader upd_id]. rewrite Hc.
    cbn [option_list app]. rewrite Hall. by left.
  - cbn. by rewrite Hb.
Qed.

Definition save s (p : Process) (c : ExecutionContext) : Process := set_fxsave (set_context p (Some c)) (fpu s).

(** The state after the current process [p] has been saved. *)
Lemma saved_inv s p c : sched_inv s -> current s = Some p -> context p = None ->
  set_current_context s c = Done (upd_current s (Some (save s p c))) /\ sched_inv (upd_current s (Some (save s p c))).
Proof.
  intros Hinv Hc Hn. split.
  - unfold set_current_context. by rewrite Hc, Hn.
  - by eapply sched_inv_current.
Qed.

(** The interrupt bodies: deferring (also what the timer does), translating,
    the exit of a process other than the idle one, and blocking on the shell
    for a process under the normal policy. *)
Inductive handler s : (Sys L -> exec (Sys L)) -> Prop :=
  | handler_defer : handler s defer_body
  | handler_translate : handler s translate_addr_body
  | handler_exit p : current s = Some p -> proc_id p <> IDLE_PROCESS_ID -> handler s exit_body
  | handler_block p req : current s = Some p -> access_policy p = PolicyNormal -> handler s (fun s => block_current s req).

Lemma handler_inv s p c body s1 : handler s body -> sched_inv s -> current s = Some p ->
  body (upd_current s (Some (save s p c))) = Done s1 ->
  sched_inv s1 /\ PROCESS_ID s1 = PROCESS_ID s /\ (forall x, x ∈ rq_all (queue s) -> x ∈ rq_all (queue s1)).
Proof.
  intros Hh Hinv Hc. assert (Hsv : sched_inv (upd_current s (Some (save s p c)))) by by eapply sched_inv_current.
  destruct Hh as [| |p' Hc' Hid|p' req Hc' Hpol]; try (assert (p' = p) as -> by congruence).
  - intros [= <-]. split; [by apply sched_inv_preempt|]. split; [done|]. intros x Hx. cbn. rewrite rq_push_all. by right.
  - unfold translate_addr_body. cbn [current upd_current context save set_fxsave set_context]. intros Hr. exec_inv Hr.
    injection Hr as <-. split; [by eapply sched_inv_current|done].
  - unfold exit_body. cbn [current upd_current context save set_fxsave set_context]. intros (k & ->)%drop_process_inv.
    split; [|done]. apply (sched_inv_leave s p k Hinv Hc). by intros (? & _).
  - unfold block_current. cbn [current upd_current shell_queue upd_blocked upd_kernel].
    destruct (shell_queue s) as [sq|]; [|done]. intros Hr. exec_inv Hr. injection Hr as <-. split; [|done].
    by apply (sched_inv_block (upd_current s (Some (save s p c)))).
Qed.

(** The id counter is far from wrapping. *)
Definition counter_ok s : Prop := PROCESS_ID s + 1 < 2 ^ 64.

(** One interrupt, or an action of the shell on the shared queues. *)
Inductive sched_step : Sys L -> Sys L -> Prop :=
  | step_interrupt s c body s' c' : counter_ok s -> handler s body -> interrupt s c body = Done (s', c') -> sched_step s s'
  | step_shell s q : sched_step s (upd_shell s q).

(** An interrupt is its body on the saved state, then scheduling. *)
Lemma interrupt_split s p c body s' c' : handler s body -> sched_inv s -> current s = Some p -> context p = None ->
  interrupt s c body = Done (s', c') ->
  exists s1, body (upd_current s (Some (save s p c))) = Done s1 /\ schedule_next s1 = Done (s', c') /\
    sched_inv s1 /\ PROCESS_ID s1 = PROCESS_ID s /\ (forall x, x ∈ rq_all (queue s) -> x ∈ rq_all (queue s1)).
Proof.
  intros Hh Hinv Hc Hn Hi. unfold interrupt in Hi. destruct (saved_inv s p c Hinv Hc Hn) as [E Hi1]. rewrite E in Hi.
  cbn [mbind exec_bind] in Hi. exec_inv Hi. exists x. split; [done|]. split; [done|]. by eapply handler_inv.
Qed.

Lemma sched_step_inv s s' : sched_step s s' -> sched_inv s -> running s -> sched_inv s' /\ running s'.
Proof.
  intros Hstep. destruct Hstep as [s c body s' c' Hk Hh Hi|s q]; intros Hinv (p & Hc & Hn).
  - apply (interrupt_split s p) in Hi as (s1 & _ & Hs & H1 & H2 & _); [|done..].
    apply schedule_next_inv in Hs as (? & ? & _); [done|done|]. unfold counter_ok in Hk. by rewrite H2.
  - split; [by apply sched_inv_shell|]. by exists p.
Qed.

Lemma schedule_next_waiting s s' c x : sched_inv s -> counter_ok s -> schedule_next s = Done (s', c) -> x ∈ rq_all (queue s) ->
  x ∈ rq_all (queue s') \/ (resumed s' x c /\ fpu s' = fxsave_area x /\ io_allowed s' = allow_io x).
Proof.
  intros Hinv Hlt. unfold schedule_next. intros Hr Hx. exec_inv Hr. rename x0 into s1.
  apply poll_shell_inv in E as [H1 (Hc1 & _ & _ & Hsub)]; [|done..]. apply Hsub in Hx. unfold pick_next in Hr.
  destruct (current s1) as [p|] eqn:Hc.
  - cbn [mbind exec_bind] in Hr. destruct (context p) as [c0|] eqn:Hp; [|done]. injection Hr as <- <-. by left.
  - destruct (rq_pop (queue s1)) as [[p q]|] eqn:Hq; [|done]. cbn [mbind exec_bind] in Hr.
    destruct (context p) as [c0|] eqn:Hp; [|done]. injection Hr as <- <-.
    pose proof (rq_pop_all (queue s1)) as Hall. rewrite Hq in Hall. rewrite Hall in Hx.
    apply elem_of_cons in Hx as [->|Hx]; [right|by left]. by split.
Qed.

(** ** Deferring *)

Lemma interrupt_run s p c body : sched_inv s -> current s = Some p -> context p = None ->
  interrupt s c body = (s1 ← body (upd_current s (Some (save s p c))); schedule_next s1).
Proof. intros Hinv Hc Hn. unfold interrupt. by destruct (saved_inv s p c Hinv Hc Hn) as [-> _]. Qed.

(** Preempting with no message pending. *)
Lemma defer_spec s p c : sched_inv s -> quiet s -> current s = Some p -> context p = None ->
  exists x q c' s', rq_pop (rq_push (queue s) (save s p c)) = Some (x, q) /\ interrupt s c defer_body = Done (s', c') /\
    resumed s' x c' /\ queue s' = q /\ blocked s' = blocked s /\ quiet s' /\ sched_inv s' /\
    fpu s' = fxsave_area x /\ io_allowed s' = allow_io x.
Proof.
  intros Hinv Hq Hc Hn. rewrite (interrupt_run s p) by done. unfold defer_body, preempt_current.
  cbn [current upd_current mbind exec_bind]. set (s1 := add_to_queue _ _).
  assert (H1 : sched_inv s1).
  { apply (sched_inv_preempt (upd_current s (Some (save s p c)))); [by eapply sched_inv_current|done|by eexists]. }
  destruct (schedule_next_quiet s1 H1 Hq eq_refl) as (x & q & c' & s' & Hp & Hs & Hr & Hqu & Hbl & _ & Hq' & Hf & Hio & _).
  exists x, q, c', s'. split; [exact Hp|]. split; [exact Hs|]. split; [done|]. split; [done|]. split; [exact Hbl|]. split; [done|].
  split; [|by split]. clear Hf Hio. unfold schedule_next in Hs. destruct (poll_shell_quiet s1 Hq) as (s2 & E & _ & C2 & Q2 & B2 & P2 & _).
  rewrite E in Hs. cbn [mbind exec_bind] in Hs. unfold pick_next in Hs. rewrite C2, Q2, Hp in Hs. cbn [current s1 add_to_queue upd_queue upd_current mbind exec_bind] in Hs.
  destruct (context x); [|done]. injection Hs as <- <-. apply sched_inv_pick; [|by rewrite C2|by rewrite Q2].
  destruct H1 as [A1 A2 A3 A4 A5 A6]. unfold waiting, ids, procs in *.
  split; unfold waiting, ids, procs; rewrite ?C2, ?Q2, ?B2, ?P2; done.
Qed.

(** Repeated deferral, and the ids of the processes resumed. *)
Fixpoint defers s (cs : list ExecutionContext) : exec (Sys L * list Z) :=
  match cs with
  | [] => Done (s, [])
  | c :: cs' =>
      '(s, _) ← interrupt s c defer_body;
      id ← unwrap (proc_id <$> current s);
      '(s, out) ← defers s cs';
      Done (s, id :: out)
  end.

(** Round robin on a list. *)
Fixpoint round_robin (n : nat) (cycle : list Z) : list Z :=
  match n, cycle with
  | S n', x :: rest => x :: round_robin n' (rest ++ [x])
  | _, _ => []
  end.

Lemma round_robin_prefix : forall l n r, (length l <= n)%nat -> exists out, round_robin n (l ++ r) = l ++ out.
Proof.
  induction l as [|x l IH]; intros n r Hn; [by eexists|]. destruct n as [|n]; [cbn in Hn; lia|]. cbn in Hn. cbn.
  rewrite <-app_assoc. destruct (IH n (r ++ [x]) ltac:(lia)) as [out ->]. by exists out.
Qed.

Lemma defers_spec cs : forall s p, sched_inv s -> quiet s -> current s = Some p -> context p = None ->
  priority p = PriorityNormal -> q_none (queue s) = [] ->
  exists s', defers s cs = Done (s', round_robin (length cs) ((proc_id <$> q_normal (queue s)) ++ [proc_id p])).
Proof.
  induction cs as [|c cs IH]; intros s p Hinv Hq Hc Hn Hpr Hno; [by eexists|].
  destruct (defer_spec s p c Hinv Hq Hc Hn) as (x & q & c' & s1 & Hp & Hi & [Hr1 _ _] & Hqu & _ & Hq1 & Hinv1 & _).
  cbn [defers]. rewrite Hi. cbn [mbind exec_bind]. rewrite Hr1. cbn [fmap option_fmap option_map unwrap mbind exec_bind].
  pose proof (ok_normal _ (si_queue _ Hinv)) as Hnorm. unfold rq_push in Hp. cbn [priority save set_fxsave set_context] in Hp.
  rewrite Hpr in Hp. unfold rq_pop in Hp. cbn [q_none q_normal q_idle] in Hp. rewrite Hno in Hp.
  destruct (q_normal (queue s)) as [|y l] eqn:Hl; cbn [app] in Hp; injection Hp as <- <-.
  - destruct (IH s1 (set_context (save s p c) None)) as [s' ->]; try done; try (by rewrite Hqu).
    rewrite Hqu. cbn. by eexists.
  - inversion_clear Hnorm. destruct (IH s1 (set_context y None)) as [s' ->]; try done; try (by rewrite Hqu).
    rewrite Hqu. cbn [q_normal fmap list_fmap app length round_robin mbind exec_bind]. rewrite fmap_app. cbn. by eexists.
Qed.

(** ** Properties *)

(** C2: from start-up on (the shell is created, then the idle process, then
    the first process runs), whatever interrupts happen and whatever the
    shell writes into the shared queues: exactly one process runs, with its
    context on the CPU; every other process has a saved context and waits in
    the deque of its priority or is blocked; process ids are unique and below
    the counter; the idle process is never lost and never blocked. *)
Theorem scheduler_invariant (s0 s1 s : Sys L) (shell : option ShellQueue) (c : ExecutionContext) :
  current s0 = None -> queue s0 = RunQueue_new -> blocked s0 = [] -> PROCESS_ID s0 = 1 ->
  boot s0 shell = Done (s1, c) -> rtc sched_step s1 s -> sched_inv s /\ running s.
Proof.
  intros Hc Hq Hb Hi Hboot Hsteps. assert (H1 : sched_inv s1 /\ running s1).
  { unfold boot in Hboot. exec_inv Hboot. apply run_user_process_inv in E as (p0 & k0 & l & -> & Hp0 & Hs0).
    exec_inv Hboot. apply Scheduler_init_inv in E as (p & k & sh & -> & Hid & Hs). rewrite Hi in *.
    destruct (empty_boot_inv s0 p0 p k0 l k sh) as (Hinv & _ & Hcnt); [done..|].
    apply schedule_next_inv in Hboot as (? & ? & _); [done|exact Hinv|]. rewrite Hcnt. lia. }
  clear Hboot. induction Hsteps as [|a b d Hstep _ IH]; [done|]. apply IH. destruct H1. by eapply sched_step_inv.
Qed.

(** C13: a waiting process is never altered: over any interrupt it stays in the
    run queue as it was, or it is the one resumed, and then with exactly the
    context and FPU image it was saved with, its own I/O permission and its
    own page table active. *)
Theorem resume_exact (s s' : Sys L) (c c' : ExecutionContext) (body : Sys L -> exec (Sys L)) (x : Process) :
  sched_inv s -> running s -> counter_ok s -> handler s body -> interrupt s c body = Done (s', c') -> x ∈ rq_all (queue s) ->
  x ∈ rq_all (queue s') \/ (resumed s' x c' /\ fpu s' = fxsave_area x /\ io_allowed s' = allow_io x).
Proof.
  intros Hinv (p & Hc & Hn) Hk Hh Hi Hx. apply (interrupt_split s p) in Hi as (s1 & _ & Hs & H1 & H2 & Hsub); [|done..].
  eapply schedule_next_waiting; [done| |done|by apply Hsub]. unfold counter_ok in *. by rewrite H2.
Qed.

(** Deferring with no message of the shell pending never panics: the
    interrupted process is saved at the end of its deque and the first
    process of the most urgent non-empty deque is resumed; no process is lost
    or duplicated, and no process with a smaller discriminant waits, so the
    idle process runs only when nothing else can. *)
Theorem defer_schedules (s : Sys L) (p : Process) (c : ExecutionContext) :
  sched_inv s -> quiet s -> current s = Some p -> context p = None ->
  exists x c' s', interrupt s c defer_body = Done (s', c') /\ resumed s' x c' /\ fpu s' = fxsave_area x /\
    x :: rq_all (queue s') ≡ₚ save s p c :: rq_all (queue s) /\ ids s' ≡ₚ ids s /\
    Forall (fun y => Priority_repr (priority x) <= Priority_repr (priority y)) (rq_all (queue s')) /\
    sched_inv s' /\ running s' /\ quiet s'.
Proof.
  intros Hinv Hq Hc Hn. destruct (defer_spec s p c Hinv Hq Hc Hn) as (x & q & c' & s' & Hp & Hi & Hr & Hqu & Hbl & Hq' & Hinv' & Hf & _).
  exists x, c', s'. split; [done|]. split; [done|]. split; [done|].
  pose proof (rq_pop_all (rq_push (queue s) (save s p c))) as Hall. rewrite Hp in Hall.
  assert (Hperm : x :: rq_all (queue s') ≡ₚ save s p c :: rq_all (queue s)) by by rewrite Hqu, <-Hall, rq_push_all.
  split; [done|]. destruct Hr as [Hr1 Hr2 _]. split.
  { unfold ids, procs. rewrite Hr1, Hc, Hbl. apply (fmap_Permutation proc_id) in Hperm. cbn in Hperm |- *.
    rewrite !fmap_app, !app_comm_cons. by rewrite Hperm. }
  split; [rewrite Hqu; eapply rq_pop_first; [|exact Hp]; apply rq_push_ok, Hinv|]. split; [done|]. split; [|done].
  by exists (set_context x None).
Qed.

(** C39: round robin: as long as the shell is silent and no process of higher
    priority waits, successive deferrals resume the normal processes in queue
    order, then the one that was running, and so on in a cycle; so every one
    of them runs within one round. *)
Theorem defer_round_robin (s : Sys L) (p : Process) (cs : list ExecutionContext) :
  sched_inv s -> quiet s -> current s = Some p -> context p = None -> priority p = PriorityNormal -> q_none (queue s) = [] ->
  let cycle := (proc_id <$> q_normal (queue s)) ++ [proc_id p] in
  exists s', defers s cs = Done (s', round_robin (length cs) cycle) /\
    ((length cycle <= length cs)%nat -> forall id, id ∈ cycle -> id ∈ round_robin (length cs) cycle).
Proof.
  intros Hinv Hq Hc Hn Hpr Hno cycle. destruct (defers_spec cs s p) as [s' Hs]; [done..|]. exists s'. split; [exact Hs|].
  intros Hl id Hid. destruct (round_robin_prefix cycle (length cs) [] Hl) as [out Ho]. rewrite app_nil_r in Ho. rewrite Ho.
  apply elem_of_app. by left.
Qed.

(** The exit of a process with no message pending never panics: exactly
    that process leaves the system, exactly the frames of its address space
    become free again, while the kernel's table is the active one, and the
    first process of the run queue is resumed. *)
Theorem exit_reclaims (s : Sys L) (p : Process) (c : ExecutionContext) :
  sched_inv s -> quiet s -> current s = Some p -> context p = None -> proc_id p <> IDLE_PROCESS_ID ->
  fa_inv (k_frames (kernel s)) ->
  Forall (fun f => 0 <= frame_number f < MAX_FRAMES) (space_allocated (address_space p)) ->
  exists s1 x c' s', exit_body (upd_current s (Some (save s p c))) = Done s1 /\
    k_cr3 (kernel s1) = space_frame (k_space (kernel s)) /\
    interrupt s c exit_body = Done (s', c') /\ resumed s' x c' /\ rq_all (queue s) = x :: rq_all (queue s') /\
    ids s ≡ₚ proc_id p :: ids s' /\ fa_inv (k_frames (kernel s')) /\
    (forall n, n ∈ free_set (bitmap (k_frames (kernel s'))) <->
       n ∈ free_set (bitmap (k_frames (kernel s))) \/ Frame_new n ∈ space_allocated (address_space p)).
Proof.
  intros Hinv Hq Hc Hn Hid Hfa Hfr. rewrite (interrupt_run s p) by done.
  set (k0 := enter (kernel s) (k_space (kernel s))).
  destruct (AddressSpace_drop_spec k0 (address_space p)) as (fa & E & Hfa' & Hset); [done..|].
  assert (Hb : exists s1, exit_body (upd_current s (Some (save s p c))) = Done s1 /\ s1 = upd_kernel (upd_current s None)
     (mkKernel (k_mem k0) fa (k_flushed k0) (k_cr3 k0) (k_space k0) (KERNEL_MAPPING_OFFSET k0)
        (tracker_remove (TRACKER k0) (space_name (address_space p), space_frame (address_space p))))).
  { eexists. split; [|reflexivity]. unfold exit_body, drop_process.
    cbn [current upd_current context save set_fxsave set_context kernel upd_kernel address_space]. fold k0. rewrite E. done. }
  destruct Hb as (s1 & Hb & Hs1). rewrite Hb. cbn [mbind exec_bind].
  assert (H1 : sched_inv s1) by (rewrite Hs1; apply (sched_inv_leave s p _ Hinv Hc); by intros (? & _)).
  destruct (schedule_next_quiet s1 H1) as (x & q & c' & s' & Hp & Hs & Hr & Hqu & Hbl & _ & _ & _ & _ & Hk & _); [by rewrite Hs1..|].
  exists s1, x, c', s'. split; [done|]. split; [by rewrite Hs1|]. split; [exact Hs|]. split; [done|].
  pose proof (rq_pop_all (queue s1)) as Hall. rewrite Hp, <-Hqu in Hall.
  assert (Hq1 : queue s1 = queue s) by by rewrite Hs1. rewrite Hq1 in Hall. split; [done|]. split.
  { unfold ids, procs. destruct Hr as [Hr _ _]. rewrite Hr, Hc, Hbl, Hall. replace (blocked s1) with (blocked s) by by rewrite Hs1. done. }
  rewrite Hk, Hs1. done.
Qed.

(** The address translation call of a user process, through to the decoded
    result: with well-formed page tables and no message pending it never
    panics, the same process goes on with only [rax] changed, and it gets the
    physical address of a mapped address or [AddressNotMapped]. *)
Theorem translate_syscall (s : Sys L) (p : Process) (c : ExecutionContext) (av : gset Z) :
  sched_inv s -> quiet s -> current s = Some p -> context p = None ->
  pt_wf (k_mem (kernel s)) (frame_number (space_frame (address_space p))) av ->
  let addr := Address_new (rdi (registers c)) in
  exists s' v, interrupt s c translate_addr_body = Done (s', mkContext (set_rax (registers c) v) (ctx_frame c)) /\
    current s' = Some (set_fxsave p (fpu s)) /\ queue s' = queue s /\
    match translate_addr (k_mem (kernel s)) (space_frame (address_space p)) addr with
    | Done (Ok tr) => translate_address_result v = Done (Ok (frame_number (tr_frame tr) * PAGE_SIZE + tr_offset tr))
    | Done (Err _) => translate_address_result v = Done (Err AddressNotMapped)
    | Panic => False
    end.
Proof.
  intros Hinv Hq Hc Hn Hwf addr. rewrite (interrupt_run s p) by done.
  destruct (translate_address_view (kernel s) (address_space p) av addr Hwf) as [Ht Hph].
  unfold translate_addr_body. cbn [current upd_current context save set_fxsave set_context kernel address_space registers ctx_frame].
  fold addr. rewrite Ht. cbn [mbind exec_bind]. set (v := match _ with Some _ => _ | None => _ end). set (s1 := upd_current _ _).
  assert (Hq1 : quiet s1) by exact Hq. destruct (poll_shell_quiet s1 Hq1) as (s2 & E & _ & C2 & Q2 & _).
  unfold schedule_next. rewrite E. cbn [mbind exec_bind]. unfold pick_next. rewrite C2.
  cbn [current s1 upd_current mbind exec_bind context set_context set_fxsave].
  eexists _, v. split; [reflexivity|]. cbn [current upd_current queue upd_kernel]. split.
  { unfold set_context, set_fxsave, save. cbn. by rewrite <-Hn. }
  split; [by rewrite Q2|]. erewrite translate_addr_view by done. subst v.
  destruct (view _ _ _ _ _ _) as [e|er]; [|reflexivity]. cbn [tr_frame tr_offset frame_number entry_frame_of Frame_new to_raw].
  destruct (Hph e eq_refl) as [Hr Hv]. unfold translate_address_result, as_signed. change (64 - 1) with 63.
  rewrite (proj2 (Z.ltb_lt (phys_of e addr) (2 ^ 63))) by lia. rewrite (proj2 (Z.ltb_ge (phys_of e addr) 0)) by lia.
  rewrite wrap_small by (unfold uint_range; lia). by rewrite Hv.
Qed.
End Scheduler.

(** ** Witnesses: a running process, a waiting one and the idle process *)

(** A loader without modules. *)
Inductive NoModules : Type := no_modules.

#[export] Instance NoModules_loader : Loader NoModules := {|
  load_main l k space _ _ := Done (l, k, space, 0);
  section_for_addr _ _ := None
|}.

Definition example_selectors : Selectors := mkSelectors 8 16 27 35.
Definition example_frame : StackFrame := mkFrameValue 4096 27 INTERRUPT_FLAG 8192 35.
Definition example_context (v : Z) : ExecutionContext := mkContext (set_rax CpuRegisters_EMPTY v) example_frame.

Definition example_process (id : Z) (pr : Priority) (pol : AccessPolicy) (c : option ExecutionContext) : Process :=
  mkProcess id "p" pol pr (mkSpace "p" (Frame_new 2) [Frame_new 9]) c None false [id].

Definition example_sys_of {L} (l : L) (fa : FrameAllocator) : Sys L :=
  mkSys (Some (example_process 1 PriorityNormal PolicyNormal None))
    (mkRunQueue [] [example_process 2 PriorityNormal PolicyNormal (Some (example_context 2))]
       [example_process 0 PriorityIdle PolicyAll (Some (example_context 0))])
    [] (Some ShellQueue_new) (small_kernel fa) 3 [1] false l.

Definition example_sys : FrameAllocator -> Sys NoModules := example_sys_of no_modules.

Lemma example_inv_of {L} (l : L) fa :
  sched_inv (example_sys_of l fa) /\ running (example_sys_of l fa) /\ quiet (example_sys_of l fa).
Proof.
  split; [|split; [by eexists|]].
  - split.
    + split; repeat apply Forall_cons_2; done.
    + repeat apply Forall_cons_2; try done; by eexists.
    + cbn. repeat (apply NoDup_cons; split; [rewrite ?elem_of_cons, elem_of_nil; lia|]). apply NoDup_nil_2.
    + cbn. repeat apply Forall_cons_2; try done; lia.
    + eexists. split; [right; right; left|done].
    + apply Forall_nil_2.
  - cbn. apply queue_repr_new. unfold SHELL_INPUT_QUEUE_SIZE. lia.
Qed.

Lemma example_inv fa : sched_inv (example_sys fa) /\ running (example_sys fa) /\ quiet (example_sys fa).
Proof. apply example_inv_of. Qed.

Definition boot_sys (fa : FrameAllocator) : Sys NoModules :=
  mkSys None RunQueue_new [] None (small_kernel fa) 1 [] false no_modules.

(** The system of the examples boots. *)
Lemma example_boots : exists fa s1 c, boot example_selectors 4096 8192 [] (boot_sys fa) (Some ShellQueue_new) = Done (s1, c).
Proof.
  destruct (FrameAllocator_init small_map FrameAllocator_new) as [fa|] eqn:Ef.
  2:{ exfalso. destruct small_init as (fa & E & _). rewrite E in Ef. discriminate Ef. }
  destruct (boot example_selectors 4096 8192 [] (boot_sys fa) (Some ShellQueue_new)) as [[s1 c]|] eqn:E; [by exists fa, s1, c|].
  exfalso. cut ((fa ← FrameAllocator_init small_map FrameAllocator_new;
    r ← boot example_selectors 4096 8192 [] (boot_sys fa) (Some ShellQueue_new); Done true) = Done true).
  - rewrite Ef. cbn [mbind exec_bind]. rewrite E. discriminate.
  - vm_compute. reflexivity.
Qed.

Lemma scheduler_invariant_witness : exists fa s1 c,
  boot example_selectors 4096 8192 [] (boot_sys fa) (Some ShellQueue_new) = Done (s1, c) /\ sched_inv s1 /\ running s1.
Proof.
  destruct example_boots as (fa & s1 & c & E). exists fa, s1, c. split; [exact E|].
  exact (scheduler_invariant example_selectors 4096 8192 [] (boot_sys fa) s1 s1 (Some ShellQueue_new) c
    eq_refl eq_refl eq_refl eq_refl E (rtc_refl _ _)).
Defined.

Lemma resume_exact_witness : exists fa s' c',
  interrupt example_selectors [] (example_sys fa) (example_context 1) defer_body = Done (s', c') /\
  (let x := example_process 2 PriorityNormal PolicyNormal (Some (example_context 2)) in
   x ∈ rq_all (queue s') \/ (resumed s' x c' /\ fpu s' = fxsave_area x /\ io_allowed s' = allow_io x)).
Proof.
  exists FrameAllocator_new. destruct (example_inv FrameAllocator_new) as (Hinv & Hrun & _).
  eexists _, _. split; [reflexivity|].
  eapply (resume_exact example_selectors [] (example_sys FrameAllocator_new) _ (example_context 1) _ defer_body); try done.
  - apply handler_defer.
  - left.
Defined.

Lemma defer_schedules_witness : exists fa x c' s',
  interrupt example_selectors [] (example_sys fa) (example_context 1) defer_body = Done (s', c') /\ resumed s' x c'.
Proof.
  exists FrameAllocator_new. destruct (example_inv FrameAllocator_new) as (Hinv & _ & Hq).
  destruct (defer_schedules example_selectors [] (example_sys FrameAllocator_new) _ (example_context 1) Hinv Hq eq_refl eq_refl)
    as (x & c' & s' & E & Hr & _). by exists x, c', s'.
Defined.

Lemma defer_round_robin_witness : exists fa s',
  defers example_selectors [] (example_sys fa) [example_context 1; example_context 2; example_context 1] = Done (s', [2; 1; 2]).
Proof.
  exists FrameAllocator_new. destruct (example_inv FrameAllocator_new) as (Hinv & _ & Hq).
  destruct (defer_round_robin example_selectors [] (example_sys FrameAllocator_new) _
    [example_context 1; example_context 2; example_context 1] Hinv Hq eq_refl eq_refl eq_refl eq_refl) as (s' & E & _).
  exists s'. exact E.
Defined.

Lemma exit_reclaims_witness : exists fa s' c',
  interrupt example_selectors [] (example_sys fa) (example_context 1) exit_body = Done (s', c') /\
  9 ∈ free_set (bitmap (k_frames (kernel s'))).
Proof.
  destruct small_init as (fa & _ & Hfa & _). exists fa. destruct (example_inv fa) as (Hinv & _ & Hq).
  destruct (exit_reclaims example_selectors [] (example_sys fa) _ (example_context 1) Hinv Hq eq_refl eq_refl)
    as (s1 & x & c' & s' & _ & _ & E & _ & _ & _ & _ & Hset); [done|exact Hfa| |].
  - apply Forall_singleton. cbn. frame_consts. lia.
  - exists s', c'. split; [exact E|]. apply Hset. right. left.
Defined.

Lemma translate_syscall_witness : exists fa s' v,
  interrupt example_selectors [] (example_sys fa) (example_context 1) translate_addr_body
  = Done (s', mkContext (set_rax CpuRegisters_EMPTY v) example_frame) /\ translate_address_result v = Done (Err AddressNotMapped).
Proof.
  destruct small_init as (fa & _ & Hfa & _ & Hs). exists fa. destruct (example_inv fa) as (Hinv & _ & Hq).
  destruct (small_kernel_ok fa Hfa Hs) as [_ Hwf].
  destruct (translate_syscall example_selectors [] (example_sys fa) _ (example_context 1) _ Hinv Hq eq_refl eq_refl Hwf)
    as (s' & v & E & _ & _ & Ht). exists s', v. split; [exact E|]. exact Ht.
Defined.
