(* ===== verification/KernelLoader.v ===== *)
(** * The object loader as the scheduler's loader, and loader::init

    [Loader LoaderState]: what the scheduler and the fault handlers ask of the
    loader, answered by [ObjectLoader]. [loader_init] is [loader::init]: the
    objects loaded at start, the aliases for symbols the compiler expects, and
    the kernel's values written into the loaded variables. *)

From Stdlib Require Import Lia.
From stdpp Require Import base numbers option strings tactics gmap fin_maps fin_sets list.
From S2P Require Import Prelude Pod Bytes MemoryTypes FrameAllocator Paging Memory Process Scheduler Symbols LoaderState ObjectLoader Linking.

Local Open Scope Z_scope.
Local Open Scope u64_scope.

Definition FUNDAMENTAL_SYMBOLS : list (list Z) := str <$> [
  "fmaxf"; "fminf"; "memcmp"; "memcpy"; "memmove"; "memset"; "strlen"; "__addsf3"; "__divsf3"; "__divdf3"; "__eqsf2";
  "__extendhfsf2"; "__fixsfsi"; "__fixunssfdi"; "__floatdidf"; "__floatdisf"; "__floatsisf"; "__floatundisf"; "__gedf2";
  "__gesf2"; "__gtsf2"; "__ltdf2"; "__muldf3"; "__mulsf3"; "__nedf2"; "__nesf2"; "__subsf3"; "__truncsfhf2"; "__udivti3";
  "__umodti3"; "__unordsf2"]%string.

(** The values [init] stores: the TSC's frequency and period, and the
    framebuffer of the boot information. *)
Record InitValues : Type := mkInit {
  TSC_FREQUENCY_KHZ : Z; TSC_PERIOD_FS : Z; fb_addr : Z; fb_size : Z; fb_stride : Z; fb_height : Z
}.

Section kernel_loader.
Context (demangle demangle_full : list Z -> list Z) (unicode_alphanumeric : list Z -> bool)
  (root_object_map : list (list Z * list Z)) (vec_addr : nat -> Z).

(** [load_object(..)], then [get_text_section(name, "main")], both
    unwrapped, of [run_user_process]. *)
Definition loader_load_main (l : LoaderState) (k : Kernel) (space : AddressSpace) (name : string) (page : Page)
  : exec (LoaderState * Kernel * AddressSpace * Z) :=
  '(s, r) ← load_object demangle demangle_full unicode_alphanumeric root_object_map vec_addr (str name) (mkLoad k space page l);
  _ ← unwrap (result_ok r);
  section ← unwrap (get_text_section (ls_loader s) (str name) (str "main"));
  section ← unwrap (upgrade (ls_loader s) section);
  Done (ls_loader s, ls_kernel s, ls_space s, os_mapping_offset section).

(** [get_section_for_addr(..).and_then(|weak| weak.upgrade())]. The search
    cannot panic while the registered ranges are canonical
    ([section_for_addr_spec]). *)
Definition loader_section_for_addr (l : LoaderState) (addr : Address) : option LoadedSection :=
  match get_section_for_addr l addr with
  | Done (Some r) =>
      s ← upgrade l r;
      Some (mkSection (os_mapping s) (string_of_bytes (os_name s))
        (if object_live l (os_owner s) then (fun o => string_of_bytes (ob_name o)) <$> pool l !! os_owner s else None))
  | _ => None
  end.

#[local] Instance LoaderState_loader : Loader LoaderState := {|
  load_main := loader_load_main;
  section_for_addr := loader_section_for_addr
|}.

(** [global_loader().load_object(name, &AddressSpace::new(space, None), page)
    .unwrap()]; the temporary address space is dropped. *)
Definition load_at_init (name space_name : string) (k : Kernel) (l : LoaderState) : exec (Kernel * LoaderState * nat) :=
  '(k, space) ← AddressSpace_new k space_name None;
  '(s, r) ← load_object demangle demangle_full unicode_alphanumeric root_object_map vec_addr (str name)
    (mkLoad k space (Address_page (Address_from_table_indices USER_HEAP_L4_INDEX 0 0 0)) l);
  id ← unwrap (result_ok r);
  k ← AddressSpace_drop (ls_kernel s) (ls_space s);
  Done (k, ls_loader s, id).

(** [object.sections.values().find(|section| section.name == name)], in the
    order of the map. *)
Definition section_by_name (l : LoaderState) (id : nat) (name : list Z) : option SecRef :=
  o ← pool l !! id;
  (fun p => (id, p.2.1)) <$> list_find (fun p => os_name p.2 = name) (map_to_list (ob_sections o)).

(** The loops that alias a section of an object to its own name. *)
Definition alias_sections (id : nat) (names : list (list Z)) (l : LoaderState) : exec LoaderState :=
  for_each names (fun name l =>
    section ← unwrap (section_by_name l id name);
    Done (add_alias_to_section l name section)) l.

(** [with_symbol_value]: the variable must be zero and takes a new value. *)
Definition set_symbol_value (name : string) (v : Z) (l : LoaderState) : exec LoaderState :=
  r ← unwrap (get_section l (str name));
  s ← unwrap (upgrade l r);
  a ← KernelMapping_as_mut (os_mapping s) 8 (os_mapping_offset s);
  _ ← rust_assert (read_word (contents l) (to_raw a) =? 0);
  Done (upd_contents l (write_memory (contents l) (to_raw a) (le_split 8 v))).

Definition init_fundamental_symbols (k : Kernel) (l : LoaderState) : exec (Kernel * LoaderState) :=
  '(k, l, _) ← load_at_init "hardware" "load_hardware" k l;
  '(k, l, _) ← load_at_init "panic" "load_panic" k l;
  '(k, l, object) ← load_at_init "lang" "load_fundamental" k l;
  l ← alias_sections object FUNDAMENTAL_SYMBOLS l;
  Done (k, l).

Definition loader_init (values : InitValues) (k : Kernel) (l : LoaderState) : exec (Kernel * LoaderState) :=
  '(k, l) ← init_fundamental_symbols k l;
  '(k, l, math_object) ← load_at_init "math" "load_math" k l;
  l ← alias_sections math_object [str "__ltsf2"; str "__lesf2"] l;
  '(k, l, _) ← load_at_init "time" "load_time" k l;
  '(k, l, _) ← load_at_init "framebuffer" "load_framebuffer" k l;
  '(k, l, _) ← load_at_init "heap" "load_heap" k l;
  l ← set_symbol_value "hardware::TSC_FREQUENCY_KHZ" (TSC_FREQUENCY_KHZ values) l;
  l ← set_symbol_value "hardware::TSC_PERIOD_FS" (TSC_PERIOD_FS values) l;
  l ← set_symbol_value "framebuffer::FRAMEBUFFER_ADDR" (fb_addr values) l;
  l ← set_symbol_value "framebuffer::FRAMEBUFFER_SIZE" (fb_size values) l;
  l ← set_symbol_value "framebuffer::FRAMEBUFFER_WIDTH" (fb_stride values) l;
  l ← set_symbol_value "framebuffer::FRAMEBUFFER_HEIGHT" (fb_height values) l;
  Done (k, l).

(** ** Theorems *)

(** A program the scheduler starts: its object is registered under its name
    and kept alive by the loader, every other object is still there, and
    the entry offset is that of a text section whose name begins with the
    program's and ends with [main]. *)
Theorem load_main_entry l k space name page l' k' space' offset :
  load_main l k space name page = Done (l', k', space', offset) ->
  (exists id, objects l' !! str name = Some id /\ object_live l' id = true) /\
  (forall n o, n <> str name -> objects l !! n = Some o -> objects l' !! n = Some o) /\
  exists n r s, sections l' !! n = Some r /\ upgrade l' r = Some s /\ os_kind s = Text /\ os_mapping_offset s = offset /\
    starts_with n (str name) = true /\ ends_with n (str "main") = true.
Proof.
  intros H. unfold load_main, LoaderState_loader, loader_load_main in H. exec_inv H. destruct x as [s r]. exec_inv H. exec_inv H. exec_inv H.
  injection H as <- <- <- <-. destruct r as [id|]; [|done].
  destruct (load_object_registers demangle demangle_full unicode_alphanumeric root_object_map vec_addr (str name) _ s (Ok id) E) as [Hold Hid].
  split; [|split; [exact Hold|]].
  - exists id. split; [by apply Hid|]. apply bool_decide_eq_true, list_elem_of_fmap. exists (str name, id). split; [done|].
    by apply elem_of_map_to_list, Hid.
  - destruct (get_text_section (ls_loader s) (str name) (str "main")) as [x0'|] eqn:Et; [|done]. cbn in E1. injection E1 as ->.
    unfold get_text_section in Et. destruct (list_find _ _) as [[i [n r]]|] eqn:El; [|done]. cbn in Et. injection Et as ->.
    apply list_find_Some in El as (Hl & Hp & _). destruct (upgrade (ls_loader s) x0) as [sec|] eqn:Eu; [|done]. cbn in E2. injection E2 as ->.
    apply andb_prop in Hp as [Hp Hend]. apply andb_prop in Hp as [Hk Hstart]. apply bool_decide_eq_true in Hk.
    exists n, x0, x1. split; [|done]. apply list_elem_of_lookup_2, elem_of_map_to_list in Hl. done.
Qed.

(** Setting a loaded variable makes its word the new value and changes no
    other byte; a variable that is not zero is refused by a panic. *)
Theorem set_symbol_value_spec name v l l' : uint_range 64 v -> set_symbol_value name v l = Done l' ->
  exists r s a, get_section l (str name) = Some r /\ upgrade l r = Some s /\
    KernelMapping_as_mut (os_mapping s) 8 (os_mapping_offset s) = Done a /\
    read_word (contents l) (to_raw a) = 0 /\ read_word (contents l') (to_raw a) = v /\
    forall x, x < to_raw a \/ to_raw a + 8 <= x -> read_byte (contents l') x = read_byte (contents l) x.
Proof.
  intros Hv H. unfold set_symbol_value in H. exec_inv H. exec_inv H. exec_inv H. exec_inv H. injection H as <-.
  destruct (get_section l (str name)) as [r|]; [|done]. cbn in E. injection E as ->.
  destruct (upgrade l x) as [sec|] eqn:Eu; [|done]. cbn in E0. injection E0 as ->.
  exists x, x0, x1. split; [done|]. split; [done|]. split; [done|].
  unfold rust_assert in E2. case_if_in E2; [|done]. split; [done|].
  set (s0 := mkLoad (mkKernel ∅ FrameAllocator_new [] (Frame_new 0) (mkSpace "" (Frame_new 0) []) 0 MemoryTracker_new)
    (mkSpace "" (Frame_new 0) []) (Page_new 0) l).
  split; [apply (read_stored_word s0 x1 v Hv)|]. intros y Hy. apply (read_stored_other s0 x1 (le_split 8 v) y).
  by rewrite le_split_length.
Qed.
End kernel_loader.

(** ** Witnesses *)

Definition offset_is (n : Z) (m : exec (LoaderState * Kernel * AddressSpace * Z)) : bool :=
  match m with Done (_, _, _, o) => o =? n | Panic => false end.

Lemma offset_is_inv n m : offset_is n m = true -> exists l k space, m = Done (l, k, space, n).
Proof. destruct m as [[[[l k] space] o]|]; [|done]. cbn. intros ->%Z.eqb_eq. by exists l, k, space. Qed.

Lemma load_main_entry_witness : exists l' k' space',
  loader_load_main same same no_unicode prog_objects (fun _ => 4096) (Loader_new (fun _ => 0)) (small_kernel small_frames)
    (mkSpace "p" (Frame_new 3) []) "main" (Page_new 7) = Done (l', k', space', 64) /\
  exists id, objects l' !! str "main" = Some id /\ object_live l' id = true.
Proof.
  destruct (offset_is_inv 64 (loader_load_main same same no_unicode prog_objects (fun _ => 4096) (Loader_new (fun _ => 0)) (small_kernel small_frames)
    (mkSpace "p" (Frame_new 3) []) "main" (Page_new 7)) ltac:(vm_compute; reflexivity)) as (l' & k' & space' & E).
  exists l', k', space'. split; [exact E|].
  exact (proj1 (load_main_entry same same no_unicode prog_objects (fun _ => 4096) (Loader_new (fun _ => 0)) (small_kernel small_frames)
    (mkSpace "p" (Frame_new 3) []) "main" (Page_new 7) l' k' space' 64 E)).
Defined.

Definition var_section : ObjSection :=
  mkObjSection (str "time::TICKS") Data true 8 (mkAddress 28672) (prog_mapping "time.w" 8 7) 0 0.
Definition var_loader : LoaderState :=
  mkLoader {[0%nat := mkObject (str "time") {[3 := var_section]} {[3]} {[3]} ∅ [] None None None]} 1 {[str "time" := 0%nat]}
    {[str "time::TICKS" := (0%nat, 3)]} [] (mkBytes ∅ (fun _ => 0)).

Lemma set_symbol_value_spec_witness : exists l', set_symbol_value "time::TICKS" 7 var_loader = Done l' /\
  read_word (contents l') 28672 = 7.
Proof.
  eexists. split; [vm_compute; reflexivity|].
  destruct (set_symbol_value_spec "time::TICKS" 7 var_loader _ ltac:(by split) ltac:(vm_compute; reflexivity)) as (r & s & a & E1 & E2 & E3 & _ & E & _).
  vm_compute in E1. injection E1 as <-. vm_compute in E2. injection E2 as <-. vm_compute in E3. injection E3 as <-. exact E.
Defined.
