(* ===== verification/Shell.v ===== *)
(** * shell/src/shell.rs: the shell's side of the message queues

    Models the loop of the shell that answers the kernel's requests, and the
    protocol the two sides run over the shared [ShellQueue]: a process blocks
    with a request, the shell answers it, the scheduler unblocks the process
    at the front of [blocked]. The scheduler asserts that the answer is for
    that process; here it is proved that it is, as long as neither ring
    overflows, and that it is not when nine processes block at once.

    The input lock is held during the body of the loop, so a request and its
    answer are one step; [ShellLocks] takes the locks one step at a time. *)

From Stdlib Require Import Lia.
From stdpp Require Import base numbers list option strings tactics gmap relations.
From S2P Require Import Prelude BitUtils MemoryTypes FrameAllocator Paging Memory Process Scheduler.

Local Open Scope Z_scope.

(** ** The request loop *)

Definition service (input : ShellInput) : ShellOutput :=
  match input with AccessModuleRequest addr process_id _ _ _ => AllowModuleAccess addr process_id end.

(** One iteration; [None] when no request is pending. *)
Definition serve_one (q : ShellQueue) : exec (option ShellQueue) :=
  '(inp, o) ← SizedQueue_pop SHELL_INPUT_QUEUE_SIZE (shell_input q);
  match o with
  | None => Done None
  | Some input =>
      out ← SizedQueue_push SHELL_INPUT_QUEUE_SIZE (shell_output q) (service input);
      Done (Some (mkShellQueue inp out))
  end.

(** The [while let] loop. *)
Fixpoint serve (fuel : nat) (q : ShellQueue) : exec (option ShellQueue) :=
  match fuel with
  | O => Done None
  | S fuel' => o ← serve_one q; match o with None => Done (Some q) | Some q' => serve fuel' q' end
  end.

(** The message sent before the main loop. *)
Definition start_input_driver (q : ShellQueue) : exec ShellQueue :=
  out ← SizedQueue_push SHELL_INPUT_QUEUE_SIZE (shell_output q)
    (StartProcess (SizedString_new_truncate 32 [105; 110; 112; 117; 116; 95; 100; 114; 105; 118; 101; 114]));
  Done (mkShellQueue (shell_input q) out).

(** ** The pending messages *)

Record pending (q : ShellQueue) (outs : list ShellOutput) (ins : list ShellInput) : Prop := {
  pending_out : queue_repr SHELL_INPUT_QUEUE_SIZE (shell_output q) outs;
  pending_in : queue_repr SHELL_INPUT_QUEUE_SIZE (shell_input q) ins
}.

Definition request_id (i : ShellInput) : Z := match i with AccessModuleRequest _ pid _ _ _ => pid end.

(** The process an answer is for. *)
Definition answer_id (o : ShellOutput) : option Z :=
  match o with AllowModuleAccess _ pid => Some pid | _ => None end.

Lemma serve_one_spec q outs ins : pending q outs ins -> (ins <> [] -> Z.of_nat (length outs) < 8) ->
  match ins with
  | [] => serve_one q = Done None
  | i :: ins' => exists q', serve_one q = Done (Some q') /\ pending q' (outs ++ [service i]) ins'
  end.
Proof.
  intros [Ho Hi] Hl. unfold serve_one. destruct ins as [|i ins].
  - by destruct (pop_nil_spec _ _ Hi) as (inp & -> & _).
  - destruct (pop_cons_spec _ _ _ _ Hi) as (inp & -> & Hi'). cbn [mbind exec_bind].
    destruct (SizedQueue_push_spec _ _ _ (service i) Ho (Hl ltac:(done))) as (out & -> & Ho'). cbn. eexists. by split.
Qed.

Lemma serve_spec : forall ins fuel q outs, pending q outs ins -> Z.of_nat (length outs + length ins) <= 8 ->
  (length ins < fuel)%nat ->
  exists q', serve fuel q = Done (Some q') /\ pending q' (outs ++ (service <$> ins)) [].
Proof.
  induction ins as [|i ins IH]; intros fuel q outs Hp Hl Hf; (destruct fuel as [|fuel]; [cbn in Hf; lia|]); cbn in Hl; cbn [serve].
  - pose proof (serve_one_spec q outs [] Hp ltac:(done)) as E. cbn in E. rewrite E. cbn. exists q. by rewrite app_nil_r.
  - destruct (serve_one_spec q outs (i :: ins) Hp ltac:(lia)) as (q' & -> & Hp'). cbn [mbind exec_bind].
    destruct (IH fuel q' (outs ++ [service i]) Hp') as (q2 & -> & Hp2); [rewrite length_app; cbn; lia|cbn in Hf; lia|].
    exists q2. split; [done|]. by rewrite <-app_assoc in Hp2.
Qed.

(** ** The protocol *)

Section Protocol.
Context {L : Type} `{Loader L} (selectors : Selectors) (INIT_FXSAVE_AREA : FxSaveArea).
Implicit Types s : Sys L.

(** The answers and requests in flight are those of the blocked processes, in
    their order; the shell sends no other unblocking message. *)
Definition shell_ok s : Prop := exists q outs ins, shell_queue s = Some q /\ pending q outs ins /\
  Forall (fun o => match o with ExitProcess _ => False | _ => True end) outs /\
  omap answer_id outs ++ (request_id <$> ins) = proc_id <$> blocked s.

Definition outputs_pending s (n : Z) : Prop :=
  forall q outs ins, shell_queue s = Some q -> pending q outs ins -> Z.of_nat (length outs) = n.

(** The steps that touch the queues or [blocked]; a request is pushed only
    while fewer than eight processes are blocked, an answer only while the
    output ring has room. *)
Inductive proto_step : Sys L -> Sys L -> Prop :=
  | proto_block s p req s' : current s = Some p -> request_id req = proc_id p -> Z.of_nat (length (blocked s)) < 8 ->
      block_current s req = Done s' -> proto_step s s'
  | proto_serve s q q' n : shell_queue s = Some q -> outputs_pending s n -> n < 8 ->
      serve_one q = Done (Some q') -> proto_step s (upd_shell s (Some q'))
  | proto_start s q q' n : shell_queue s = Some q -> outputs_pending s n -> n < 8 ->
      start_input_driver q = Done q' -> proto_step s (upd_shell s (Some q'))
  | proto_poll s s' : poll_shell selectors INIT_FXSAVE_AREA s = Done s' -> proto_step s s'
  | proto_other s s' : blocked s' = blocked s -> shell_queue s' = shell_queue s -> proto_step s s'.

Lemma shell_ok_ext s s' : blocked s' = blocked s -> shell_queue s' = shell_queue s -> shell_ok s -> shell_ok s'.
Proof. intros E1 E2 (q & outs & ins & ?). exists q, outs, ins. by rewrite E1, E2. Qed.

Lemma shell_ok_push s q q' outs ins o : pending q outs ins -> pending q' (outs ++ [o]) ins ->
  Forall (fun o => match o with ExitProcess _ => False | _ => True end) outs ->
  omap answer_id outs ++ (request_id <$> ins) = proc_id <$> blocked s ->
  answer_id o = None -> (if o is ExitProcess _ then False else True) -> shell_ok (upd_shell s (Some q')).
Proof.
  intros Hp Hp' Hf He Ha Hne. exists q', (outs ++ [o]), ins. split; [done|]. split; [done|]. split.
  - apply Forall_app. split; [done|]. apply Forall_singleton. by destruct o.
  - rewrite omap_app. cbn. by rewrite Ha, app_nil_r.
Qed.

Lemma run_user_process_frame s name st io pol s' : run_user_process selectors INIT_FXSAVE_AREA s name st io pol = Done s' ->
  blocked s' = blocked s /\ shell_queue s' = shell_queue s.
Proof. by intros (p & k & l & -> & _)%run_user_process_inv. Qed.

(** Handling a message removes the front of [blocked] exactly when the
    message is an answer. *)
Lemma handle_output_frame s o s' : handle_output selectors INIT_FXSAVE_AREA s o = Done s' ->
  shell_queue s' = shell_queue s /\
  (if unblocks_process o then exists p, blocked s = p :: blocked s' else blocked s' = blocked s).
Proof.
  unfold handle_output. destruct o as [code|name|addr pid]; cbn [unblocks_process].
  - destruct (blocked s) as [|p rest]; [done|]. intros (k & ->)%drop_process_inv. split; [done|]. by exists p.
  - intros [-> ->]%run_user_process_frame. done.
  - destruct (blocked s) as [|p rest]; [done|]. case_if; [|done].
    destruct (section_for_addr _ _) as [sec|]; [|intros (k & ->)%drop_process_inv; split; [done|]; by exists p].
    intros Hr. exec_inv Hr. destruct x as [[k sp] [[]|e]].
    + injection Hr as <-. split; [done|]. by exists p.
    + apply drop_process_inv in Hr as (k' & ->). split; [done|]. by exists p.
Qed.

Lemma poll_shell_ok s s' : shell_ok s -> poll_shell selectors INIT_FXSAVE_AREA s = Done s' -> shell_ok s'.
Proof.
  intros (q & outs & ins & Hq & [Ho Hi] & Hf & He). unfold poll_shell. cbn [shell_queue upd_kernel]. rewrite Hq.
  destruct outs as [|o outs].
  - destruct (pop_nil_spec _ _ Ho) as (out & -> & Ho'). cbn [mbind exec_bind]. intros [= <-]. by exists (mkShellQueue (shell_input q) out), [], ins.
  - destruct (pop_cons_spec _ _ _ _ Ho) as (out & -> & Ho'). cbn [mbind exec_bind]. intros Hr.
    apply handle_output_frame in Hr as [E1 E2]. inversion_clear Hf as [|?? Hne Hf'].
    exists (mkShellQueue (shell_input q) out), outs, ins. split; [by rewrite E1|]. split; [by split|]. split; [done|].
    destruct o as [code|name|addr pid]; cbn in E2, He; [done|by rewrite E2|].
    destruct E2 as [p E2]. rewrite E2 in He. cbn in He. by injection He.
Qed.

Lemma proto_step_ok s s' : proto_step s s' -> shell_ok s -> shell_ok s'.
Proof.
  intros Hst. destruct Hst as [s p req s' Hc Hid Hl Hb|s q q' n Hq Hn Hlt Hs|s q q' n Hq Hn Hlt Hs|s s' Hp|s s' E1 E2].
  - intros (q & outs & ins & Hq & [Ho Hi] & Hf & He). unfold block_current in Hb. rewrite Hc in Hb.
    cbn [shell_queue upd_blocked upd_kernel upd_current] in Hb. rewrite Hq in Hb.
    assert (Hil : Z.of_nat (length ins) < SHELL_INPUT_QUEUE_SIZE).
    { apply (f_equal length) in He. rewrite length_app, !length_fmap in He. unfold SHELL_INPUT_QUEUE_SIZE. lia. }
    destruct (SizedQueue_push_spec _ _ _ req Hi Hil) as (inp & E & Hi'). rewrite E in Hb. cbn [mbind exec_bind] in Hb. injection Hb as <-.
    exists (mkShellQueue inp (shell_output q)), outs, (ins ++ [req]). split; [done|]. split; [by split|]. split; [done|].
    cbn. rewrite !fmap_app, app_assoc, He. cbn. by rewrite Hid.
  - intros (q0 & outs & ins & Hq0 & Hp & Hf & He). assert (q0 = q) as -> by congruence. specialize (Hn _ _ _ Hq Hp).
    pose proof (serve_one_spec q outs ins Hp ltac:(lia)) as Hsp. destruct ins as [|i ins]; [by rewrite Hsp in Hs|].
    destruct Hsp as (q1 & E & Hp1). rewrite E in Hs. injection Hs as ->. exists q', (outs ++ [service i]), ins.
    split; [done|]. split; [done|]. split.
    + apply Forall_app. split; [done|]. apply Forall_singleton. by destruct i.
    + rewrite omap_app. cbn. rewrite <-He. destruct i. cbn. by rewrite <-app_assoc.
  - intros (q0 & outs & ins & Hq0 & Hp & Hf & He). assert (q0 = q) as -> by congruence. specialize (Hn _ _ _ Hq Hp). unfold start_input_driver in Hs.
    exec_inv Hs. injection Hs as <-. destruct Hp as [Ho Hi].
    destruct (SizedQueue_push_spec _ _ _ (StartProcess (SizedString_new_truncate 32 [105; 110; 112; 117; 116; 95; 100; 114; 105; 118; 101; 114])) Ho)
      as (out & E' & Ho'); [unfold SHELL_INPUT_QUEUE_SIZE; lia|]. rewrite E' in E. injection E as <-.
    by eapply (shell_ok_push s q _ outs ins).
  - intros Hok. by eapply poll_shell_ok.
  - by apply shell_ok_ext.
Qed.

(** ** Properties *)

(** C15: the answers of the shell are for the right processes: from a state in
    which the messages in flight match the blocked processes, after any
    interleaving of blocking, serving, polling and other kernel work that
    overflows neither ring, the next answer is for the process at the front of
    [blocked], so the scheduler's assertion on the process id holds. *)
Theorem shell_answers_match (s0 s : Sys L) (q : ShellQueue) (outs : list ShellOutput) (ins : list ShellInput) (addr pid : Z) :
  shell_ok s0 -> rtc proto_step s0 s -> shell_queue s = Some q -> pending q (AllowModuleAccess addr pid :: outs) ins ->
  exists p rest, blocked s = p :: rest /\ proc_id p = pid.
Proof.
  intros H0 Hr Hq Hp. assert (Hok : shell_ok s).
  { clear Hq Hp. induction Hr as [|a b c Hst _ IH]; [done|]. apply IH. by eapply proto_step_ok. }
  destruct Hok as (q' & outs' & ins' & Hq' & Hp' & _ & He). simplify_eq.
  assert (outs' = AllowModuleAccess addr pid :: outs) as ->.
  { eapply queue_repr_inj; [apply Hp'|apply Hp]. }
  cbn in He. destruct (blocked s) as [|p rest]; [done|]. cbn in He. injection He as He _. by exists p, rest.
Qed.
End Protocol.

(** The request loop ends: with at most eight messages in both rings it
    answers every pending request, in order, and leaves none. *)
Theorem serve_drains (q : ShellQueue) (outs : list ShellOutput) (ins : list ShellInput) (fuel : nat) :
  pending q outs ins -> Z.of_nat (length outs + length ins) <= 8 -> (length ins < fuel)%nat ->
  exists q', serve fuel q = Done (Some q') /\ pending q' (outs ++ (service <$> ins)) [].
Proof. intros. by apply serve_spec. Qed.

(** ** Witnesses *)

Definition example_request (pid : Z) : ShellInput := AccessModuleRequest (pid * 4096) pid [] [] [].

Definition proto_sys (p : Process) : Sys NoModules :=
  mkSys (Some p) RunQueue_new [] (Some ShellQueue_new) (small_kernel FrameAllocator_new) 10 [] false no_modules.

Definition proto_process (id : Z) : Process := example_process id PriorityNormal PolicyNormal (Some (example_context id)).

Lemma pending_new : pending ShellQueue_new [] [].
Proof. split; apply queue_repr_new; unfold SHELL_INPUT_QUEUE_SIZE; lia. Qed.

Lemma serve_drains_witness : exists q q', pending q [] [example_request 5] /\ serve 2 q = Done (Some q') /\
  pending q' [AllowModuleAccess (5 * 4096) 5] [].
Proof.
  destruct pending_new as [Ho Hi]. destruct (SizedQueue_push_spec _ _ _ (example_request 5) Hi) as (inp & _ & Hi'); [done|].
  exists (mkShellQueue inp (shell_output ShellQueue_new)).
  destruct (serve_drains (mkShellQueue inp (shell_output ShellQueue_new)) [] [example_request 5] 2) as (q' & E & Hp);
    [by split|cbn; lia|cbn; lia|]. exists q'. split; [by split|]. split; [exact E|exact Hp].
Defined.

Lemma shell_answers_match_witness : exists s q ins, shell_queue s = Some q /\ pending q [AllowModuleAccess (5 * 4096) 5] ins /\
  exists p rest, blocked (L := NoModules) s = p :: rest /\ proc_id p = 5.
Proof.
  destruct pending_new as [Ho Hi]. destruct (SizedQueue_push_spec _ _ _ (example_request 5) Hi) as (inp & E1 & Hi'); [done|].
  set (q1 := mkShellQueue inp (shell_output ShellQueue_new)). assert (Hp1 : pending q1 [] [example_request 5]) by by split.
  destruct (serve_one_spec q1 [] [example_request 5] Hp1) as (q2 & E2 & Hp2); [cbn; lia|].
  set (s0 := proto_sys (proto_process 5)).
  destruct (block_current s0 (example_request 5)) as [s1|] eqn:Hb; [|vm_compute in Hb; discriminate Hb].
  assert (Hq1 : shell_queue s1 = Some q1).
  { unfold block_current in Hb. cbn [s0 proto_sys current shell_queue upd_blocked upd_kernel upd_current shell_input ShellQueue_new] in Hb.
    cbn [shell_input ShellQueue_new] in E1. rewrite E1 in Hb. cbn [mbind exec_bind] in Hb. injection Hb as <-. reflexivity. }
  assert (Hn : outputs_pending s1 0).
  { intros q outs ins Hq Hp. assert (q = q1) as -> by congruence.
    by rewrite (queue_repr_inj _ _ _ _ (pending_out _ _ _ Hp) (pending_out _ _ _ Hp1)). }
  exists (upd_shell s1 (Some q2)), q2, []. split; [reflexivity|]. split; [exact Hp2|].
  apply (shell_answers_match example_selectors [] s0 (upd_shell s1 (Some q2)) q2 [] [] (5 * 4096) 5).
  - exists ShellQueue_new, [], []. split; [reflexivity|]. split; [apply pending_new|]. split; [apply Forall_nil_2|reflexivity].
  - apply (rtc_l _ _ s1); [by apply (proto_block _ _ s0 (proto_process 5) (example_request 5))|].
    apply rtc_once. by apply (proto_serve _ _ s1 q1 q2 0).
  - reflexivity.
  - exact Hp2.
Defined.

(** ** Overflow *)

(** The processes block one after the other. *)
Fixpoint block_all (s : Sys NoModules) (ps : list Z) : exec (Sys NoModules) :=
  match ps with
  | [] => Done s
  | id :: ps' => s ← block_current (upd_current s (Some (proto_process id))) (example_request id); block_all s ps'
  end.

(** Nine processes that block before the shell runs overflow the request
    ring: the first answer is for the ninth process while the first one is at
    the front, the scheduler's assertion fails and the kernel panics. With
    eight it does not. *)
Theorem nine_blocked_processes_panic :
  let run (ids : list Z) :=
    s ← block_all (proto_sys (proto_process 0)) ids;
    q ← unwrap (shell_queue s);
    q ← serve 10 q;
    poll_shell example_selectors [] (upd_shell s q) in
  run [1; 2; 3; 4; 5; 6; 7; 8; 9] = Panic /\ run [1; 2; 3; 4; 5; 6; 7; 8] <> Panic.
Proof. split; vm_compute; [reflexivity|discriminate]. Qed.
