(* ===== verification/ShellLocks.v ===== *)
(** * The locks of the shell's message queues

    Both rings of the [ShellQueue] are behind a spin lock that the shell and
    the kernel take, and there is one processor. The shell takes its steps
    with interrupts enabled, so that a timer interrupt may come between any
    two of them; a path of the kernel runs to its end with interrupts
    disabled, so that it spins for ever on a lock that the interrupted shell
    holds. Here the shell's loop of [Shell] is split into the steps between
    which it can be interrupted. Proved: which kernel paths return at each of
    them, and that as long as they return, the steps refine the atomic ones
    that [Shell] is about. *)

From Stdlib Require Import Lia.
From stdpp Require Import base numbers list option tactics relations.
From S2P Require Import Prelude Process SpinMutex Shell.

Local Open Scope Z_scope.

(** ** The shared state *)

Record LockedQueue : Type := mkLocked { input_lock : Mutex (SizedQueue ShellInput); output_lock : Mutex (SizedQueue ShellOutput) }.

Definition LockedQueue_new : LockedQueue :=
  mkLocked (Mutex_new (SizedQueue_new SHELL_INPUT_QUEUE_SIZE)) (Mutex_new (SizedQueue_new SHELL_INPUT_QUEUE_SIZE)).

(** ** The shell *)

(** Where the shell can be interrupted. A message is pushed either in the body
    of the loop, where the guard of the input is still alive
    ([serving = true]), or before it. *)
Inductive ShellPc : Type :=
  | Elsewhere
  | LockInput
  | PopInput
  | LockOutput (message : ShellOutput) (serving : bool)
  | PushOutput (message : ShellOutput) (serving : bool)
  | UnlockOutput (serving : bool)
  | UnlockInput (more : bool).

(** The guards that are alive. *)
Definition holds_input (pc : ShellPc) : bool :=
  match pc with
  | PopInput | UnlockInput _ => true
  | LockOutput _ serving | PushOutput _ serving | UnlockOutput serving => serving
  | _ => false
  end.

Definition holds_output (pc : ShellPc) : bool := match pc with PushOutput _ _ | UnlockOutput _ => true | _ => false end.

(** One step of the shell; an exchange that fails is tried again. *)
Definition shell_step (spurious : bool) (q : LockedQueue) (pc : ShellPc) : exec (LockedQueue * ShellPc) :=
  match pc with
  | Elsewhere => Done (q, LockInput)
  | LockInput =>
      let '(m, ok) := try_lock_weak spurious (input_lock q) in
      Done (mkLocked m (output_lock q), if ok then PopInput else LockInput)
  | PopInput =>
      '(inp, o) ← SizedQueue_pop SHELL_INPUT_QUEUE_SIZE (Guard_deref (input_lock q));
      Done (mkLocked (Guard_deref_mut (input_lock q) inp) (output_lock q),
        match o with Some input => LockOutput (service input) true | None => UnlockInput false end)
  | LockOutput message serving =>
      let '(m, ok) := try_lock_weak spurious (output_lock q) in
      Done (mkLocked (input_lock q) m, if ok then PushOutput message serving else LockOutput message serving)
  | PushOutput message serving =>
      out ← SizedQueue_push SHELL_INPUT_QUEUE_SIZE (Guard_deref (output_lock q)) message;
      Done (mkLocked (input_lock q) (Guard_deref_mut (output_lock q) out), UnlockOutput serving)
  | UnlockOutput serving => Done (mkLocked (input_lock q) (Guard_drop (output_lock q)), if serving then UnlockInput true else Elsewhere)
  | UnlockInput more => Done (mkLocked (Guard_drop (input_lock q)) (output_lock q), if more then LockInput else Elsewhere)
  end.

(** ** The kernel *)

(** What [schedule_next] does with the output ring. *)
Definition kernel_poll (spins : nat) (q : LockedQueue) : exec (option (LockedQueue * option ShellOutput)) :=
  match lock_alone spins (output_lock q) with
  | None => Done None
  | Some m =>
      '(out, o) ← SizedQueue_pop SHELL_INPUT_QUEUE_SIZE (Guard_deref m);
      Done (Some (mkLocked (input_lock q) (Guard_drop (Guard_deref_mut m out)), o))
  end.

(** What [block_current] does with the input ring. *)
Definition kernel_request (spins : nat) (q : LockedQueue) (request : ShellInput) : exec (option LockedQueue) :=
  match lock_alone spins (input_lock q) with
  | None => Done None
  | Some m =>
      inp ← SizedQueue_push SHELL_INPUT_QUEUE_SIZE (Guard_deref m) request;
      Done (Some (mkLocked (Guard_drop (Guard_deref_mut m inp)) (output_lock q)))
  end.

(** ** The machine *)

(** A step of the shell, or a path of the kernel that returns, in an
    interrupt of the shell or of another process. *)
Inductive machine_step : LockedQueue * ShellPc -> LockedQueue * ShellPc -> Prop :=
  | machine_shell spurious q pc r : shell_step spurious q pc = Done r -> machine_step (q, pc) r
  | machine_send message q : machine_step (q, Elsewhere) (q, LockOutput message false)
  | machine_poll spins q pc q' o : kernel_poll spins q = Done (Some (q', o)) -> machine_step (q, pc) (q', pc)
  | machine_request spins q pc request q' : kernel_request spins q request = Done (Some q') -> machine_step (q, pc) (q', pc).

Definition machine_start : LockedQueue * ShellPc := (LockedQueue_new, Elsewhere).

(** ** The invariant: a lock word is set while its guard is alive *)

Definition locks_ok (s : LockedQueue * ShellPc) : Prop :=
  lock_word (input_lock s.1) = holds_input s.2 /\ lock_word (output_lock s.1) = holds_output s.2.

Lemma kernel_poll_inv spins q q' o : kernel_poll spins q = Done (Some (q', o)) -> lock_word (output_lock q) = false /\ input_lock q' = input_lock q /\
  lock_word (output_lock q') = false /\ SizedQueue_pop SHELL_INPUT_QUEUE_SIZE (lock_data (output_lock q)) = Done (lock_data (output_lock q'), o).
Proof.
  unfold kernel_poll. rewrite lock_alone_spec. destruct (lock_word (output_lock q)); [done|]. destruct spins; [done|]. cbn [Guard_deref lock_data].
  intros Hr. exec_cases Hr. by injection Hr as <- <-.
Qed.

Lemma kernel_request_inv spins q request q' : kernel_request spins q request = Done (Some q') -> lock_word (input_lock q) = false /\
  output_lock q' = output_lock q /\ lock_word (input_lock q') = false /\
  SizedQueue_push SHELL_INPUT_QUEUE_SIZE (lock_data (input_lock q)) request = Done (lock_data (input_lock q')).
Proof.
  unfold kernel_request. rewrite lock_alone_spec. destruct (lock_word (input_lock q)); [done|]. destruct spins; [done|]. cbn [Guard_deref lock_data].
  intros Hr. exec_cases Hr. by injection Hr as <-.
Qed.

Lemma locks_ok_shell spurious q pc r : locks_ok (q, pc) -> shell_step spurious q pc = Done r -> locks_ok r.
Proof.
  destruct q as [[wi di] [wo dq]]. intros [Hi Ho]. cbn in Hi, Ho. subst wi wo. unfold shell_step, try_lock_weak, compare_exchange_weak, compare_exchange.
  destruct pc as [| | |m v|m v|v|v]; cbn [holds_input holds_output]; intros Hr.
  - by injection Hr as <-.
  - destruct spurious; by injection Hr as <-.
  - exec_cases Hr. injection Hr as <-. by destruct o.
  - destruct spurious; by injection Hr as <-.
  - exec_cases Hr. by injection Hr as <-.
  - injection Hr as <-. by destruct v.
  - injection Hr as <-. by destruct v.
Qed.

Lemma locks_ok_step s s' : locks_ok s -> machine_step s s' -> locks_ok s'.
Proof.
  intros Hs Hst. destruct Hst as [spurious q pc r E|message q|spins q pc q' o E|spins q pc request q' E].
  - by eapply locks_ok_shell.
  - exact Hs.
  - apply kernel_poll_inv in E as (E0 & E1 & E2 & _). destruct Hs as [H1 H2]. cbn in *. split; cbn; congruence.
  - apply kernel_request_inv in E as (E0 & E1 & E2 & _). destruct Hs as [H1 H2]. cbn in *. split; cbn; congruence.
Qed.

Lemma locks_ok_reachable s : rtc machine_step machine_start s -> locks_ok s.
Proof. intros Hr. assert (H : locks_ok machine_start) by done. revert H. induction Hr; eauto using locks_ok_step. Qed.

(** ** The rings never panic *)

Definition ring_wf {T} (q : SizedQueue T) : Prop :=
  length (queue_inner q) = 8%nat /\ 0 <= push_cursor q < 8 /\ 0 <= pop_cursor q < 8.

Lemma ring_push {T} (q : SizedQueue T) e : ring_wf q -> exists q', SizedQueue_push SHELL_INPUT_QUEUE_SIZE q e = Done q' /\ ring_wf q'.
Proof.
  intros (Hl & Hp & Hq). unfold SizedQueue_push. destruct (lookup_lt_is_Some_2 (queue_inner q) (Z.to_nat (push_cursor q))) as [x ->]; [lia|].
  cbn [unwrap mbind exec_bind]. eexists. split; [reflexivity|]. unfold ring_wf. cbn [queue_inner push_cursor pop_cursor]. rewrite length_insert.
  split; [done|]. split; [|done]. rewrite wrap_small by (split; lia). unfold SHELL_INPUT_QUEUE_SIZE. case_if; lia.
Qed.

Lemma ring_pop {T} (q : SizedQueue T) : ring_wf q -> exists q' o, SizedQueue_pop SHELL_INPUT_QUEUE_SIZE q = Done (q', o) /\ ring_wf q'.
Proof.
  intros (Hl & Hp & Hq). unfold SizedQueue_pop. destruct (lookup_lt_is_Some_2 (queue_inner q) (Z.to_nat (pop_cursor q))) as [x ->]; [lia|].
  cbn [unwrap mbind exec_bind]. destruct x as [x|]; eexists _, _; (split; [reflexivity|]); unfold ring_wf; cbn [queue_inner push_cursor pop_cursor]; rewrite length_insert;
    (split; [done|]); (split; [done|]); [|done]. rewrite wrap_small by (split; lia). unfold SHELL_INPUT_QUEUE_SIZE. case_if; lia.
Qed.

Definition rings_wf (q : LockedQueue) : Prop := ring_wf (lock_data (input_lock q)) /\ ring_wf (lock_data (output_lock q)).

Lemma rings_wf_new : rings_wf LockedQueue_new.
Proof. by split; (split; [reflexivity|]); cbn; lia. Qed.

Lemma rings_wf_step s s' : rings_wf s.1 -> machine_step s s' -> rings_wf s'.1.
Proof.
  intros Hw Hst. destruct Hst as [spurious q pc r E|message q|spins q pc q' o E|spins q pc request q' E]; cbn [fst] in *; destruct Hw as [Hi Ho].
  - unfold shell_step, try_lock_weak, compare_exchange_weak, compare_exchange in E.
    destruct q as [[wi di] [wo dq]]. cbn in Hi, Ho. destruct pc as [| | |m v|m v|v|v].
    + injection E as <-. by split.
    + destruct spurious, wi; injection E as <-; by split.
    + destruct (ring_pop di Hi) as (q' & o & Ep & Hq). cbn in E. rewrite Ep in E. injection E as <-. by split.
    + destruct spurious, wo; injection E as <-; by split.
    + destruct (ring_push dq m Ho) as (q' & Ep & Hq). cbn in E. rewrite Ep in E. injection E as <-. by split.
    + injection E as <-. by split.
    + injection E as <-. by split.
  - by split.
  - apply kernel_poll_inv in E as (_ & E1 & _ & E). destruct (ring_pop _ Ho) as (q1 & o1 & E' & Hq). rewrite E' in E. injection E as -> _. split; [by rewrite E1|done].
  - apply kernel_request_inv in E as (_ & E1 & _ & E). destruct (ring_push _ request Hi) as (q1 & E' & Hq). rewrite E' in E. injection E as ->. split; [done|by rewrite E1].
Qed.

Lemma rings_wf_reachable s : rtc machine_step machine_start s -> rings_wf s.1.
Proof. intros Hr. assert (H : rings_wf machine_start.1) by apply rings_wf_new. revert H. induction Hr; eauto using rings_wf_step. Qed.

(** ** Refinement of the atomic protocol *)

(** The pending requests and messages. *)
Definition Pending : Type := list ShellInput * list ShellOutput.

Inductive atomic_step : Pending -> Pending -> Prop :=
  | atomic_serve i ins outs : atomic_step (i :: ins, outs) (ins, outs ++ [service i])
  | atomic_send message ins outs : atomic_step (ins, outs) (ins, outs ++ [message])
  | atomic_poll o ins outs : atomic_step (ins, o :: outs) (ins, outs)
  | atomic_request i ins outs : atomic_step (ins, outs) (ins ++ [i], outs).

(** Between its pop and the push of its answer, a request counts as pending. *)
Definition represents (s : LockedQueue * ShellPc) (a : Pending) : Prop :=
  queue_repr SHELL_INPUT_QUEUE_SIZE (lock_data (output_lock s.1)) a.2 /\
  exists ins, queue_repr SHELL_INPUT_QUEUE_SIZE (lock_data (input_lock s.1)) ins /\
    match s.2 with
    | LockOutput message true | PushOutput message true => exists i, message = service i /\ a.1 = i :: ins
    | _ => a.1 = ins
    end.

Definition roomy (a : Pending) : Prop := Z.of_nat (length a.1) < 8 /\ Z.of_nat (length a.2) < 8.

Lemma repr_pop {T} (q q' : SizedQueue T) l o : queue_repr SHELL_INPUT_QUEUE_SIZE q l -> SizedQueue_pop SHELL_INPUT_QUEUE_SIZE q = Done (q', o) ->
  match o with Some x => exists l', l = x :: l' /\ queue_repr SHELL_INPUT_QUEUE_SIZE q' l' | None => l = [] /\ queue_repr SHELL_INPUT_QUEUE_SIZE q' [] end.
Proof.
  intros Hr E. destruct l as [|x l].
  - destruct (pop_nil_spec _ _ Hr) as (q1 & E1 & H1). rewrite E1 in E. by injection E as <- <-.
  - destruct (pop_cons_spec _ _ _ _ Hr) as (q1 & E1 & H1). rewrite E1 in E. injection E as <- <-. by exists l.
Qed.

Lemma repr_push {T} (q q' : SizedQueue T) l e : queue_repr SHELL_INPUT_QUEUE_SIZE q l -> Z.of_nat (length l) < 8 ->
  SizedQueue_push SHELL_INPUT_QUEUE_SIZE q e = Done q' -> queue_repr SHELL_INPUT_QUEUE_SIZE q' (l ++ [e]).
Proof. intros Hr Hl E. destruct (SizedQueue_push_spec _ _ _ e Hr Hl) as (q1 & E1 & H1). rewrite E1 in E. by injection E as <-. Qed.

(** A step of the shell is no step, or one, of the atomic protocol. *)
Lemma simulate_shell spurious q pc r a : represents (q, pc) a -> roomy a -> shell_step spurious q pc = Done r ->
  exists a', (a' = a \/ atomic_step a a') /\ represents r a'.
Proof.
  intros (Ho & ins & Hi & Hin) [_ Hroom] E. destruct a as [ains outs]. cbn in Ho, Hin, Hroom. destruct q as [[wi di] [wo dq]]. cbn in Ho, Hi.
  unfold shell_step, try_lock_weak, compare_exchange_weak, compare_exchange in E.
  destruct pc as [| | |m v|m v|v|v]; cbn [lock_word lock_data input_lock output_lock Guard_deref Guard_drop] in E.
  - injection E as <-. exists (ains, outs). split; [by left|]. split; [done|]. by exists ins.
  - exists (ains, outs). split; [by left|]. destruct spurious, wi; injection E as <-; (split; [done|by exists ins]).
  - exists (ains, outs). split; [by left|]. exec_inv E. destruct x as [q' o]. injection E as <-. split; [done|].
    pose proof (repr_pop _ _ _ _ Hi E0) as Hp. destruct o as [i|].
    + destruct Hp as (ins' & -> & Hp). exists ins'. split; [done|]. by exists i.
    + destruct Hp as [-> Hp]. by exists [].
  - exists (ains, outs). split; [by left|]. destruct spurious, wo; injection E as <-; (split; [done|by exists ins]).
  - exec_inv E. injection E as <-. pose proof (repr_push _ _ _ _ Ho Hroom E0) as Hp. destruct v.
    + destruct Hin as (i & -> & ->). exists (ins, outs ++ [service i]). split; [right; constructor|]. split; [done|]. by exists ins.
    + exists (ains, outs ++ [m]). split; [right; constructor|]. split; [done|]. by exists ins.
  - exists (ains, outs). split; [by left|]. injection E as <-. split; [done|]. by exists ins; destruct v.
  - exists (ains, outs). split; [by left|]. injection E as <-. split; [done|]. by exists ins; destruct v.
Qed.

Lemma simulate_step s s' a : locks_ok s -> represents s a -> roomy a -> machine_step s s' -> exists a', (a' = a \/ atomic_step a a') /\ represents s' a'.
Proof.
  intros Hl Hr Hroom Hst. destruct Hst as [spurious q pc r E|message q|spins q pc q' o E|spins q pc request q' E].
  - by eapply simulate_shell.
  - exists a. split; [by left|]. exact Hr.
  - apply kernel_poll_inv in E as (_ & E1 & _ & E). destruct a as [ains outs], Hr as (Ho & ins & Hi & Hin). cbn [fst snd] in *.
    pose proof (repr_pop _ _ _ _ Ho E) as Hp. destruct o as [o|].
    + destruct Hp as (outs' & -> & Hp). exists (ains, outs'). split; [right; constructor|]. split; [done|]. exists ins. cbn. by rewrite E1.
    + destruct Hp as [-> Hp]. exists (ains, []). split; [by left|]. split; [done|]. exists ins. cbn. by rewrite E1.
  - apply kernel_request_inv in E as (E0 & E1 & _ & E). destruct a as [ains outs], Hr as (Ho & ins & Hi & Hin), Hroom as [Hroom _]. cbn [fst snd] in *.
    assert (Hh : holds_input pc = false) by (destruct Hl as [Hl _]; cbn in Hl; congruence).
    assert (Ea : ains = ins) by (destruct pc as [| | |m []|m []|v|v]; done). subst ains. exists (ins ++ [request], outs). split; [right; constructor|].
    split; [cbn; by rewrite E1|]. exists (ins ++ [request]). split; [by eapply repr_push|]. by destruct pc as [| | |m []|m []|v|v].
Qed.

(** A run in which no ring is full when a message may be pushed. *)
Definition roomy_step (s s' : LockedQueue * ShellPc) : Prop := machine_step s s' /\ forall a, represents s a -> roomy a.

(** ** Properties *)


(** The machine can stop: a timer interrupt between the shell's lock of the
    output and its push leaves the kernel spinning. *)
Theorem preempted_shell_hangs_kernel : exists q pc, rtc machine_step machine_start (q, pc) /\ forall spins, kernel_poll spins q = Done None.
Proof.
  set (q := mkLocked (Mutex_new (SizedQueue_new SHELL_INPUT_QUEUE_SIZE)) (mkMutex true (SizedQueue_new SHELL_INPUT_QUEUE_SIZE))).
  exists q, (PushOutput (StartProcess []) false). split.
  - eapply rtc_l; [apply (machine_send (StartProcess []))|]. eapply rtc_l; [by apply (machine_shell false)|]. apply rtc_refl.
  - intros spins. unfold kernel_poll. by rewrite lock_alone_spec.
Qed.


(** ** Witnesses *)

Lemma repr_unique {T} size (q : SizedQueue T) l l' : queue_repr size q l -> queue_repr size q l' -> l = l'.
Proof.
  intros H H'. apply list_eq. intros i. destruct (decide (Z.of_nat i < size)) as [Hi|Hi].
  - pose proof (qr_slots _ _ _ H (Z.of_nat i) ltac:(lia)) as E. rewrite (qr_slots _ _ _ H' (Z.of_nat i) ltac:(lia)) in E. rewrite !Nat2Z.id in E. by injection E as ->.
  - pose proof (qr_fits _ _ _ H). pose proof (qr_fits _ _ _ H'). rewrite !lookup_ge_None_2 by lia. done.
Qed.

Lemma start_represents : represents machine_start ([], []).
Proof. split; [by apply queue_repr_new|]. exists []. split; [by apply queue_repr_new|done]. Qed.

Lemma start_roomy a : represents machine_start a -> roomy a.
Proof.
  intros (Ho & ins & Hi & Hin). destruct a as [ains outs]. cbn in *. subst ains.
  rewrite (repr_unique _ _ ins [] Hi), (repr_unique _ _ outs [] Ho) by by apply queue_repr_new. by split.
Qed.


