(* ===== verification/Idt.v ===== *)
(** * kernel/src/idt.rs: page faults and protection faults

    The page fault handler composed with the scheduler and the memory
    subsystem: saving the context, the decision on the faulting address, the
    change of the process's address space, and the return through
    [schedule]. [scheduler::exit] is the software interrupt it is, taken from
    inside the handler: it runs the exit handler with the context of the
    fault handler itself. *)

From Stdlib Require Import Lia.
From stdpp Require Import base numbers list option strings pretty tactics gmap relations.
From S2P Require Import Prelude BitUtils MemoryTypes FrameAllocator Paging Pci Memory Process Scheduler.

Local Open Scope Z_scope.
Local Open Scope u64_scope.

Record PageFaultContext : Type := mkFault {
  pf_registers : CpuRegisters;
  pf_error_code : Z;
  pf_rip : Address;
  pf_cs : Z;
  pf_rflags : Z;
  pf_rsp : Address;
  pf_ss : Z
}.

(** [PageFaultErrorCode::USER_MODE]. *)
Definition USER_MODE : Z := 4.

Definition bytes_of_string (s : string) : list Z :=
  (fun a => Z.of_nat (Ascii.nat_of_ascii a)) <$> String.list_ascii_of_string s.

Definition set_heap (p : Process) (m : option KMapping) : Process :=
  mkProcess (proc_id p) (proc_name p) (access_policy p) (priority p) (address_space p) (context p) m (allow_io p) (fxsave_area p).

Definition result_is_err {A E} (r : result A E) : bool := match r with Ok _ => false | Err _ => true end.

(** The opcodes of the port I/O instructions. *)
Definition IO_PORT_OPCODES : list Z := [0xE4; 0xE5; 0xE6; 0xE7; 0xEC; 0xED; 0xEE; 0xEF].

Lemma user_flags : map_flags (Z.lor (Z.lor PRESENT WRITABLE) USER_ACCESSIBLE).
Proof. split; [split; [unfold uint_range; by vm_compute|reflexivity]|reflexivity|reflexivity]. Qed.

Section Idt.
Context {L : Type} `{Loader L} (selectors : Selectors) (INIT_FXSAVE_AREA : FxSaveArea).
Implicit Types s : Sys L.

(** [scheduler::exit] inside a handler running with context [kc]. *)
Definition scheduler_exit s (kc : ExecutionContext) : exec (Sys L * ExecutionContext) :=
  interrupt selectors INIT_FXSAVE_AREA s kc exit_body.

(** Saving the interrupted context. *)
Definition fault_save s (f : PageFaultContext) : exec (Sys L) :=
  rip ← VirtAddr_new (to_raw (pf_rip f));
  rsp ← VirtAddr_new (to_raw (pf_rsp f));
  set_current_context s (mkContext (pf_registers f)
    (mkFrameValue rip (wrap 16 (pf_cs f)) (pf_rflags f) rsp (wrap 16 (pf_ss f)))).

(** A fault in the user heap: the mapping is created or extended up to the
    faulting page. Returns whether the process has to exit. *)
Definition heap_fault s (addr : Address) : exec (Sys L * bool) :=
  match current s with
  | None => Panic
  | Some process =>
      heap_offset ← Address_sub addr (to_raw (AddressDomain_base_addr UserHeap));
      if GIBIBYTE <=? to_raw heap_offset then Done (s, true)
      else
        let heap_base_page := Page_containing_addr (AddressDomain_base_addr UserHeap) in
        new_heap_end_page ← Page_add (Address_page addr) 1;
        match heap_mapping process with
        | Some m =>
            current_heap_end_page ← Page_add heap_base_page (PageRange_len (mapping_pages m));
            let extension_pages := PageRange_new current_heap_end_page new_heap_end_page in
            _ ← rust_assert (0 <? PageRange_len extension_pages);
            '(k, m, space, r) ← KernelMapping_extend (kernel s) m (address_space process) extension_pages;
            Done (upd_current (upd_kernel s k) (Some (set_heap (set_space process space) (Some m))), result_is_err r)
        | None =>
            let flags := Z.lor (Z.lor (Z.lor PRESENT WRITABLE) USER_ACCESSIBLE) NO_EXECUTE in
            let pages := PageRange_new heap_base_page new_heap_end_page in
            let mapping_size := PageRange_len pages ⊠ PAGE_SIZE in
            '(k, m) ← KernelMapping_new (kernel s) ("user_heap." +:+ proc_name process) mapping_size flags;
            '(k, space, r) ← KernelMapping_map_into k m (address_space process) pages flags;
            let process := set_space process space in
            Done (upd_current (upd_kernel s k) (Some (if result_is_err r then process else set_heap process (Some m))), result_is_err r)
        end
  end.

(** [address_space.set_flags] on the current process. *)
Definition set_current_flags s (process : Process) (pages : PageRange) (flags : Z) : exec (Sys L * bool) :=
  '(k, space, r) ← AddressSpace_set_flags (kernel s) (address_space process) pages flags;
  Done (upd_current (upd_kernel s k) (Some (set_space process space)), result_is_err r).

(** A fault outside the user heap at an address no section holds: the
    framebuffer, a PCI BAR or a physical page is made accessible. *)
Definition unowned_fault s (fb : option KMapping) (addr : Address) : exec (Sys L * bool) :=
  match current s with
  | None => Panic
  | Some process =>
      fb_mapping ← unwrap fb;
      let fb_addr := to_raw (KernelMapping_addr fb_mapping) in
      let fb_mapping_end := fb_addr ⊞ mapping_size fb_mapping in
      let raw_addr := to_raw addr in
      if (fb_addr <=? raw_addr) && (raw_addr <? fb_mapping_end) then
        set_current_flags s process (mapping_pages fb_mapping) (Z.lor (mapping_flags fb_mapping) USER_ACCESSIBLE)
      else
        match get_pci_bar (TRACKER (kernel s)) addr with
        | Some (_, bar_pages) => set_current_flags s process bar_pages (Z.lor (Z.lor PRESENT WRITABLE) USER_ACCESSIBLE)
        | None =>
            if decide (Address_domain addr = Physical) then
              pages ← PageRange_from_start_len (Address_page addr) 1;
              set_current_flags s process pages (Z.lor (Z.lor PRESENT WRITABLE) USER_ACCESSIBLE)
            else Done (s, true)
        end
  end.

Definition access_request (addr : Address) (process : Process) (section : LoadedSection) (owner : string) : ShellInput :=
  AccessModuleRequest (to_raw addr) (proc_id process)
    (SizedString_new_truncate 32 (bytes_of_string (proc_name process)))
    (SizedString_new_truncate 32 (bytes_of_string owner))
    (SizedString_new_truncate 32 (bytes_of_string (section_name section))).

(** A fault at a loaded section: it is mapped at once, or the process asks the
    shell and waits. *)
Definition section_fault s (section : LoadedSection) (addr : Address) : exec (Sys L * bool) :=
  match current s with
  | None => Panic
  | Some process =>
      match access_policy process with
      | PolicyAll =>
          let m := section_mapping section in
          '(k, space, r) ← KernelMapping_map_into (kernel s) m (address_space process) (mapping_pages m) (mapping_flags m);
          Done (upd_current (upd_kernel s k) (Some (set_space process space)), result_is_err r)
      | PolicyNormal =>
          owner ← unwrap (section_owner section);
          s ← block_current s (access_request addr process section owner);
          Done (s, false)
      end
  end.

(** [__page_fault_handler]: [cr2] is the faulting address, [fb] the global
    framebuffer mapping and [kc] the handler's own context. *)
Definition page_fault_handler s (fb : option KMapping) (f : PageFaultContext) (cr2 : Z) (kc : ExecutionContext)
  : exec (Sys L * ExecutionContext) :=
  s ← fault_save s f;
  let addr := Address_new cr2 in
  if negb (flags_get (pf_error_code f) USER_MODE) then Panic
  else
    let domain := Address_domain addr in
    let finish (r : Sys L * bool) := if r.2 then scheduler_exit r.1 kc else schedule_next selectors INIT_FXSAVE_AREA r.1 in
    if decide (domain = Invalid) then
      match current s with None => Panic | Some _ => scheduler_exit s kc end
    else if decide (domain = UserHeap) then heap_fault s addr ≫= finish
    else
      match section_for_addr (loader s) addr with
      | None => unowned_fault s fb addr ≫= finish
      | Some section => section_fault s section addr ≫= finish
      end.

(** [general_protection_fault_handler]. *)
Definition general_protection_fault_handler s (opcode : Z) (kc : ExecutionContext) : exec (Sys L * ExecutionContext) :=
  if bool_decide (opcode ∈ IO_PORT_OPCODES) then
    _ ← rust_assert (negb (is_current (kernel s) (k_space (kernel s))));
    scheduler_exit s kc
  else Panic.

(** ** Lemmas *)

(** The context the handler saves. *)
Definition fault_context (f : PageFaultContext) : ExecutionContext :=
  mkContext (pf_registers f) (mkFrameValue (to_raw (pf_rip f)) (wrap 16 (pf_cs f)) (pf_rflags f) (to_raw (pf_rsp f)) (wrap 16 (pf_ss f))).

Lemma VirtAddr_new_inv a b : VirtAddr_new a = Done b -> b = a.
Proof. unfold VirtAddr_new. case_if; [by intros [= <-]|done]. Qed.

Lemma fault_save_inv s f s1 : fault_save s f = Done s1 -> exists p, current s = Some p /\ context p = None /\
  s1 = upd_current s (Some (save s p (fault_context f))).
Proof.
  unfold fault_save. intros Hr. exec_inv Hr. apply VirtAddr_new_inv in E as ->. exec_inv Hr. apply VirtAddr_new_inv in E as ->.
  unfold set_current_context in Hr. destruct (current s) as [p|]; [|done]. destruct (context p) eqn:Hn; [done|].
  injection Hr as <-. by exists p.
Qed.

(** A canonical address survives [VirtAddr::new]. *)
Lemma fault_save_run s p f : to_raw (Address_new (to_raw (pf_rip f))) = to_raw (pf_rip f) ->
  to_raw (Address_new (to_raw (pf_rsp f))) = to_raw (pf_rsp f) -> current s = Some p -> context p = None ->
  fault_save s f = Done (upd_current s (Some (save s p (fault_context f)))).
Proof.
  intros H1 H2 Hc Hn. unfold fault_save, VirtAddr_new. rewrite H1, H2, !Z.eqb_refl. cbn [mbind exec_bind].
  unfold set_current_context. by rewrite Hc, Hn.
Qed.

(** The exit call inside the handler meets a process that is already saved. *)
Lemma nested_exit_panics s p c kc : current s = Some p -> context p = Some c -> scheduler_exit s kc = Panic.
Proof. intros Hc Hs. unfold scheduler_exit, interrupt, set_current_context. by rewrite Hc, Hs. Qed.

(** The accesses the handler means to answer by ending the process. *)
Definition illegal_access s (fb : option KMapping) (addr : Address) : Prop :=
  match Address_domain addr with
  | Invalid => True
  | UserHeap => exists off, Address_sub addr (to_raw (AddressDomain_base_addr UserHeap)) = Done off /\ GIBIBYTE <= to_raw off
  | Physical => False
  | _ => section_for_addr (loader s) addr = None /\ get_pci_bar (TRACKER (kernel s)) addr = None /\
      exists m, fb = Some m /\
        ~ (to_raw (KernelMapping_addr m) <= to_raw addr < to_raw (KernelMapping_addr m) ⊞ mapping_size m)
  end.

Lemma outside_range (a b x : Z) : ~ (a <= x < b) -> (a <=? x) && (x <? b) = false.
Proof. intros Hn. destruct (a <=? x) eqn:E1, (x <? b) eqn:E2; try done. bool_hyps. lia. Qed.

(** Updates of the saved process that keep its identity. *)
Definition same_process (p p' : Process) : Prop :=
  proc_id p' = proc_id p /\ priority p' = priority p /\ access_policy p' = access_policy p /\ context p' = context p /\
  fxsave_area p' = fxsave_area p.

(** What the three kinds of fault do to the scheduler: the invariant holds, and
    the process [p] is still the current, saved one, or waits for the shell. *)
Definition fault_result s (p : Process) (r : Sys L * bool) : Prop :=
  sched_inv r.1 /\ PROCESS_ID r.1 = PROCESS_ID s /\ fpu r.1 = fpu s /\ queue r.1 = queue s /\
  exists p', same_process p p' /\
    ((current r.1 = Some p' /\ blocked r.1 = blocked s) \/ (r.2 = false /\ current r.1 = None /\ blocked r.1 = blocked s ++ [p'])).

Section Faults.
Context (s : Sys L) (p : Process) (c : ExecutionContext).
Context (Hinv : sched_inv s) (Hc : current s = Some p) (Hs : context p = Some c).

Lemma fault_unchanged e : fault_result s p (s, e).
Proof. split_and!; try done. exists p. split; [done|]. by left. Qed.

Lemma fault_keeps p' k e : same_process p p' -> fault_result s p (upd_current (upd_kernel s k) (Some p'), e).
Proof.
  intros (E1 & E2 & E3 & E4). split; [|split_and!; try done; exists p'; split; [done|by left]].
  apply (sched_inv_current (upd_kernel s k) p); try done. by apply sched_inv_kernel.
Qed.

Lemma heap_fault_inv addr r : heap_fault s addr = Done r -> fault_result s p r.
Proof.
  unfold heap_fault. rewrite Hc. intros Hr. exec_inv Hr. case_if_in Hr; [injection Hr as <-; apply fault_unchanged|].
  exec_inv Hr. destruct (heap_mapping p) as [m|].
  - exec_cases Hr. injection Hr as <-. by apply fault_keeps.
  - exec_cases Hr. injection Hr as <-. apply fault_keeps. by destruct (result_is_err _).
Qed.

Lemma set_current_flags_inv pages flags r : set_current_flags s p pages flags = Done r -> fault_result s p r.
Proof. intros Hr. unfold set_current_flags in Hr. exec_cases Hr. injection Hr as <-. by apply fault_keeps. Qed.

Lemma unowned_fault_inv fb addr r : unowned_fault s fb addr = Done r -> fault_result s p r.
Proof.
  unfold unowned_fault. rewrite Hc. intros Hr. exec_inv Hr. case_if_in Hr; [by eapply set_current_flags_inv|].
  destruct (get_pci_bar _ _) as [[slot pages]|]; [by eapply set_current_flags_inv|].
  destruct (decide _); [|injection Hr as <-; apply fault_unchanged]. exec_inv Hr. by eapply set_current_flags_inv.
Qed.

Lemma section_fault_inv sec addr r : section_fault s sec addr = Done r -> fault_result s p r.
Proof.
  unfold section_fault. rewrite Hc. intros Hr. destruct (access_policy p) eqn:Hpol.
  - exec_cases Hr. injection Hr as <-. by apply fault_keeps.
  - exec_inv Hr. exec_inv Hr. injection Hr as <-. unfold block_current in E0. rewrite Hc in E0.
    cbn [shell_queue upd_blocked upd_kernel upd_current] in E0. destruct (shell_queue s) as [sq|]; [|done].
    exec_inv E0. injection E0 as <-. split; [by apply (sched_inv_block s p)|]. split_and!; try done. exists p. split; [done|]. by right.
Qed.
End Faults.

(** A page fault that is answered. *)
Lemma page_fault_inv s s' fb f cr2 kc c' : sched_inv s -> page_fault_handler s fb f cr2 kc = Done (s', c') ->
  exists p s2, current s = Some p /\ context p = None /\
    fault_result (upd_current s (Some (save s p (fault_context f)))) (save s p (fault_context f)) (s2, false) /\
    schedule_next selectors INIT_FXSAVE_AREA s2 = Done (s', c').
Proof.
  intros Hinv. unfold page_fault_handler. intros Hr. exec_inv Hr. apply fault_save_inv in E as (p & Hc & Hn & ->).
  case_if_in Hr; [done|]. set (s1 := upd_current s _) in *. set (pv := save s p (fault_context f)) in *. exists p.
  assert (H1 : sched_inv s1) by by eapply sched_inv_current.
  assert (Hc1 : current s1 = Some pv) by done. assert (Hs1 : context pv = Some (fault_context f)) by done.
  assert (Hfin : forall m : exec (Sys L * bool), m ≫= (fun r : Sys L * bool => if r.2 then scheduler_exit r.1 kc else schedule_next selectors INIT_FXSAVE_AREA r.1) = Done (s', c') ->
    (forall r, m = Done r -> fault_result s1 pv r) -> exists s2, current s = Some p /\ context p = None /\
      fault_result s1 pv (s2, false) /\ schedule_next selectors INIT_FXSAVE_AREA s2 = Done (s', c')).
  { intros m Hm Hf. destruct m as [[s2 e]|] eqn:Em; [|done]. cbn in Hm. specialize (Hf _ eq_refl).
    destruct e; [|by exists s2]. destruct Hf as (_ & _ & _ & _ & p2 & (_ & _ & _ & E4 & _) & [[C2 _]|[? _]]); [|done].
    rewrite (nested_exit_panics s2 p2 (fault_context f)) in Hm; [done|done|]. by rewrite E4. }
  destruct (decide _); [by rewrite (nested_exit_panics s1 pv (fault_context f)) in Hr|].
  destruct (decide _); [apply (Hfin _ Hr); intros; by eapply (heap_fault_inv s1 pv)|].
  destruct (section_for_addr _ _); apply (Hfin _ Hr); intros; [by eapply (section_fault_inv s1 pv)|by eapply (unowned_fault_inv s1 pv)].
Qed.

(** ** Properties *)


(** The page fault handler keeps the scheduler's invariant: whenever it
    returns, with a grown heap, with newly accessible pages or with the
    process blocked on the shell, exactly one process runs, all others are
    saved, and ids, priorities and the idle process are in order. *)
Theorem page_fault_invariant (s s' : Sys L) (fb : option KMapping) (f : PageFaultContext) (cr2 : Z) (kc c' : ExecutionContext) :
  sched_inv s -> running s -> counter_ok s -> page_fault_handler s fb f cr2 kc = Done (s', c') -> sched_inv s' /\ running s'.
Proof.
  intros Hinv _ Hk Hr. apply page_fault_inv in Hr as (p & s2 & _ & _ & (H2 & Hp & _) & Hs); [|done].
  apply schedule_next_inv in Hs as (? & ? & _); [done|done|]. unfold counter_ok in Hk. cbn in Hp. by rewrite Hp.
Qed.

(** A fault whose context can be saved, in user mode. *)
Record user_fault s (p : Process) (f : PageFaultContext) : Prop := {
  uf_current : current s = Some p;
  uf_running : context p = None;
  uf_rip : to_raw (Address_new (to_raw (pf_rip f))) = to_raw (pf_rip f);
  uf_rsp : to_raw (Address_new (to_raw (pf_rsp f))) = to_raw (pf_rsp f);
  uf_user : flags_get (pf_error_code f) USER_MODE = true
}.

Lemma page_fault_run s p fb f cr2 kc : user_fault s p f ->
  Address_domain (Address_new cr2) <> Invalid -> Address_domain (Address_new cr2) <> UserHeap ->
  page_fault_handler s fb f cr2 kc =
    let s1 := upd_current s (Some (save s p (fault_context f))) in
    (match section_for_addr (loader s) (Address_new cr2) with
     | None => unowned_fault s1 fb (Address_new cr2)
     | Some section => section_fault s1 section (Address_new cr2)
     end) ≫= fun r : Sys L * bool => if r.2 then scheduler_exit r.1 kc else schedule_next selectors INIT_FXSAVE_AREA r.1.
Proof.
  intros [Hc Hn H1 H2 Hu] D1 D2. unfold page_fault_handler. rewrite (fault_save_run s p) by done. cbn [mbind exec_bind].
  rewrite Hu, !decide_False by done. cbn [negb]. cbv zeta. cbn [loader upd_current]. by destruct (section_for_addr _ _).
Qed.

(** A user process under the normal policy that touches a loaded section it
    may not see is blocked with its context saved, its request (address, own
    id and the names) is appended to the shell's queue, and the next process
    runs: with room in the queue and no answer pending nothing panics. *)
Theorem section_fault_blocks (s : Sys L) (p : Process) (fb : option KMapping) (f : PageFaultContext) (cr2 : Z)
    (kc : ExecutionContext) (section : LoadedSection) (owner : string) (sq : ShellQueue) (ins : list ShellInput) :
  let addr := Address_new cr2 in
  sched_inv s -> quiet s -> user_fault s p f -> access_policy p = PolicyNormal ->
  Address_domain addr <> Invalid -> Address_domain addr <> UserHeap ->
  section_for_addr (loader s) addr = Some section -> section_owner section = Some owner ->
  shell_queue s = Some sq -> queue_repr SHELL_INPUT_QUEUE_SIZE (shell_input sq) ins -> Z.of_nat (length ins) < SHELL_INPUT_QUEUE_SIZE ->
  exists x c' s' inp, page_fault_handler s fb f cr2 kc = Done (s', c') /\ resumed s' x c' /\
    rq_all (queue s) = x :: rq_all (queue s') /\ blocked s' = blocked s ++ [save s p (fault_context f)] /\
    shell_input <$> shell_queue s' = Some inp /\
    queue_repr SHELL_INPUT_QUEUE_SIZE inp (ins ++ [access_request addr p section owner]).
Proof.
  intros addr Hinv Hq Hf Hpol D1 D2 Hsec Hown Hsq Hins Hlen. rewrite (page_fault_run s p) by done. cbv zeta. fold addr. rewrite Hsec.
  set (pv := save s p (fault_context f)). unfold section_fault. cbn [current upd_current access_policy pv save set_fxsave set_context].
  rewrite Hpol, Hown. cbn [unwrap mbind exec_bind]. fold pv. unfold block_current at 1. cbn [current upd_current shell_queue upd_blocked upd_kernel].
  rewrite Hsq. change (access_request addr pv section owner) with (access_request addr p section owner).
  destruct (SizedQueue_push_spec _ _ _ (access_request addr p section owner) Hins Hlen) as (inp & -> & Hin). cbn [mbind exec_bind fst snd].
  set (s2 := upd_shell _ _). assert (H2 : sched_inv s2).
  { apply (sched_inv_block (upd_current s (Some pv)) pv); [by eapply sched_inv_current; [|apply Hf|..]|done|by eexists|done]. }
  assert (Hq2 : quiet s2) by (unfold quiet in Hq |- *; rewrite Hsq in Hq; exact Hq).
  destruct (schedule_next_quiet selectors INIT_FXSAVE_AREA s2 H2 Hq2 eq_refl)
    as (x & q & c' & s' & Hp & Hs & Hr & Hqu & Hbl & _ & _ & _ & _ & _ & Hi).
  exists x, c', s', inp. split; [exact Hs|]. split; [done|]. pose proof (rq_pop_all (queue s2)) as Hall. rewrite Hp, <-Hqu in Hall.
  split; [exact Hall|]. split; [rewrite Hbl; reflexivity|]. split; [rewrite Hi; reflexivity|done].
Qed.

(** A user fault at a physical address outside the framebuffer and the
    BARs, with no huge page there, makes exactly the touched page accessible:
    it keeps its frame and gets the flags PRESENT, WRITABLE and
    USER_ACCESSIBLE, every other translation of the process stays as it was,
    and the process is resumed where it was; it fails only without free frames. *)
Theorem physical_fault_grants (s : Sys L) (p : Process) (m : KMapping) (f : PageFaultContext) (cr2 : Z) (kc : ExecutionContext) :
  let addr := Address_new cr2 in
  let root := space_frame (address_space p) in
  let flags := Z.lor (Z.lor PRESENT WRITABLE) USER_ACCESSIBLE in
  quiet s -> user_fault s p f -> Address_domain addr = Physical -> section_for_addr (loader s) addr = None ->
  get_pci_bar (TRACKER (kernel s)) addr = None ->
  ~ (to_raw (KernelMapping_addr m) <= to_raw addr < to_raw (KernelMapping_addr m) ⊞ mapping_size m) ->
  pt_inv root (space_pt (kernel s) (address_space p)) -> 0 <= to_raw addr < 2 ^ 47 ->
  translate_page (k_mem (kernel s)) root (Address_page addr) <> Done (Err TranslationHugePage) ->
  exists s1 failed, unowned_fault (upd_current s (Some (save s p (fault_context f)))) (Some m) addr = Done (s1, failed) /\
    (failed = true -> free_set (bitmap (k_frames (kernel s1))) = ∅) /\
    (failed = false -> exists s', page_fault_handler s (Some m) f cr2 kc = Done (s', fault_context f) /\
       proc_id <$> current s' = Some (proc_id p) /\
       forall a, canonical a -> translate_addr (k_mem (kernel s')) root a =
         match translate_addr (k_mem (kernel s)) root a with
         | Done (Ok t) => Done (Ok (mkTranslation (tr_frame t) (tr_offset t)
             (if decide (Page_containing_addr a = Address_page addr) then flags else tr_flags t)))
         | r => r
         end).
Proof.
  intros addr root flags Hq Hf Hd Hsec Hbar Hfb Hpt Ha Hhuge. pose proof (page_fault_run s p (Some m) f cr2 kc Hf) as Hrun.
  fold addr in Hrun. rewrite Hd, Hsec in Hrun. specialize (Hrun ltac:(done) ltac:(done)). cbv zeta in Hrun.
  set (pv := save s p (fault_context f)) in *. set (n := to_raw addr / PAGE_SIZE).
  assert (Hn : 0 <= n < 2 ^ 35) by (unfold n; change PAGE_SIZE with 4096; split; [apply Z.div_pos|apply Z.div_lt_upper_bound]; lia).
  assert (Hpages : PageRange_from_start_len (Address_page addr) 1 = Done (mkRange (Page_new n) (Page_new (n + 1)))).
  { unfold PageRange_from_start_len, Page_add, checked_add. cbn [Address_page Page_containing_addr page_number]. fold n.
    rewrite (proj2 (Z.ltb_lt _ _)) by lia. reflexivity. }
  destruct (set_flags_range_spec root (space_pt (kernel s) (address_space p)) (mkRange (Page_new n) (Page_new (n + 1))) flags)
    as (t & r & k & Hset & _ & Hk & Hr & Htr); [done|exact user_flags|cbn; lia|cbn; lia| |].
  { intros [q] Hin. unfold pages_below in Hin. cbn in Hin. assert (q = n) as -> by lia. split; [|exact Hhuge].
    split; [|cbn; lia]. left. unfold Page_base_addr. cbn [to_raw Address_new_unchecked page_number Page_new]. change PAGE_SIZE with (2 ^ 12).
    rewrite wrap_small by (unfold uint_range; lia). lia. }
  set (sp := pt_space (address_space p) t). set (s1 := upd_current (upd_kernel (upd_current s (Some pv)) (pt_kernel (kernel s) t)) (Some (set_space pv sp))).
  assert (Hun : unowned_fault (upd_current s (Some pv)) (Some m) addr = Done (s1, result_is_err r)).
  { unfold unowned_fault. cbn [current upd_current unwrap mbind exec_bind kernel]. rewrite (outside_range _ _ _ Hfb), Hbar, decide_True by done.
    rewrite Hpages. cbn [mbind exec_bind]. unfold set_current_flags, AddressSpace_set_flags. cbn [address_space pv save set_fxsave set_context kernel upd_current].
    fold root flags. rewrite Hset. reflexivity. }
  exists s1, (result_is_err r). split; [exact Hun|]. split.
  { destruct r as [|e]; [done|]. intros _. by destruct Hr as [_ Hr]. }
  intros Hok. rewrite Hrun, Hun. cbn [mbind exec_bind fst snd]. rewrite Hok.
  destruct (poll_shell_quiet selectors INIT_FXSAVE_AREA s1 Hq) as (s2 & E & _ & C2 & _ & _ & _ & K2 & _).
  unfold schedule_next. rewrite E. cbn [mbind exec_bind]. unfold pick_next. rewrite C2.
  cbn [s1 current upd_current mbind exec_bind context set_space pv save set_fxsave set_context]. eexists. split; [reflexivity|]. split; [done|].
  intros a Hca. cbn [kernel upd_current upd_kernel enter set_cr3 k_mem]. rewrite K2.
  cbn [kernel s1 upd_current upd_kernel enter set_cr3 k_mem pt_kernel]. rewrite (Htr a Hca).
  change (pt_mem (space_pt (kernel s) (address_space p))) with (k_mem (kernel s)).
  destruct r as [[]|]; [|done]. cbn in Hr. subst k. cbn [range_start range_end page_number Page_new].
  destruct (translate_addr _ _ _) as [[tr|e]|]; [|done|done]. do 4 f_equal.
  assert (Hiff : pages_below n (n + 1) (Page_containing_addr a) <-> Page_containing_addr a = Address_page addr).
  { change (Address_page addr) with (mkPage n). unfold pages_below. destruct (Page_containing_addr a) as [q]. cbn [page_number].
    clear. split; [intros; f_equal; lia|intros [= ->]; lia]. }
  destruct (decide (pages_below _ _ _)), (decide (_ = Address_page addr)); tauto.
Qed.
End Idt.

(** ** Witnesses *)

(** A loader with one section, at every address. *)
Inductive OneModule : Type := one_module.

Definition example_section : LoadedSection :=
  mkSection (mkMapping "math.text" PAGE_SIZE (mkRange (Page_new 7) (Page_new 8)) PRESENT) "math::add" (Some "math").

#[export] Instance OneModule_loader : Loader OneModule := {|
  load_main l k space _ _ := Done (l, k, space, 0);
  section_for_addr _ _ := Some example_section
|}.

Definition example_fault : PageFaultContext := mkFault CpuRegisters_EMPTY 6 (mkAddress 4096) 27 INTERRUPT_FLAG (mkAddress 8192) 35.

Definition example_fb : KMapping := mkMapping "framebuffer" PAGE_SIZE (mkRange (Page_new 524288) (Page_new 524289)) (Z.lor PRESENT WRITABLE).

Lemma example_user_fault {L} (l : L) fa : user_fault (example_sys_of l fa) (example_process 1 PriorityNormal PolicyNormal None) example_fault.
Proof. by split. Qed.


Lemma section_fault_blocks_witness : exists x c' s' inp,
  page_fault_handler example_selectors [] (example_sys_of one_module FrameAllocator_new) (Some example_fb) example_fault 28672
    (example_context 7) = Done (s', c') /\ resumed s' x c' /\
  queue_repr SHELL_INPUT_QUEUE_SIZE inp [access_request (Address_new 28672) (example_process 1 PriorityNormal PolicyNormal None) example_section "math"].
Proof.
  destruct (example_inv_of one_module FrameAllocator_new) as (Hinv & _ & Hq).
  destruct (section_fault_blocks example_selectors [] (example_sys_of one_module FrameAllocator_new) _ (Some example_fb)
    example_fault 28672 (example_context 7) example_section "math" ShellQueue_new [] Hinv Hq (example_user_fault one_module FrameAllocator_new))
    as (x & c' & s' & inp & E & Hr & _ & _ & _ & Hin); [reflexivity|by vm_compute|by vm_compute|reflexivity|reflexivity|reflexivity| |reflexivity|].
  - apply queue_repr_new. unfold SHELL_INPUT_QUEUE_SIZE. lia.
  - exists x, c', s', inp. split; [exact E|]. split; [exact Hr|exact Hin].
Defined.

Lemma page_fault_invariant_witness : exists s' c',
  page_fault_handler example_selectors [] (example_sys_of one_module FrameAllocator_new) (Some example_fb) example_fault 28672
    (example_context 7) = Done (s', c') /\ sched_inv s' /\ running s'.
Proof.
  destruct (example_inv_of one_module FrameAllocator_new) as (Hinv & Hrun & _).
  destruct (page_fault_handler example_selectors [] (example_sys_of one_module FrameAllocator_new) (Some example_fb) example_fault 28672
    (example_context 7)) as [[s' c']|] eqn:E.
  - exists s', c'. split; [done|]. apply (page_fault_invariant example_selectors [] _ s' (Some example_fb) example_fault 28672 (example_context 7) c' Hinv Hrun);
      [reflexivity|exact E].
  - exfalso. cut (match page_fault_handler example_selectors [] (example_sys_of one_module FrameAllocator_new) (Some example_fb) example_fault 28672
      (example_context 7) with Done _ => true | Panic => false end = true); [by rewrite E|vm_compute; reflexivity].
Defined.

Lemma physical_fault_grants_witness : exists fa s1 failed,
  unowned_fault (upd_current (example_sys fa) (Some (save (example_sys fa) (example_process 1 PriorityNormal PolicyNormal None) (fault_context example_fault))))
    (Some example_fb) (Address_new 28672) = Done (s1, failed) /\
  (failed = true -> free_set (bitmap (k_frames (kernel s1))) = ∅).
Proof.
  destruct small_init as (fa & _ & Hfa & _ & Hs). exists fa. destruct (example_inv fa) as (_ & _ & Hq).
  destruct (small_kernel_ok fa Hfa Hs) as [_ Hwf].
  destruct (physical_fault_grants example_selectors [] (example_sys fa) _ example_fb example_fault 28672 (example_context 7) Hq
    (example_user_fault no_modules fa)) as (s1 & failed & E & Hfail & _).
  - by vm_compute.
  - reflexivity.
  - reflexivity.
  - vm_compute. intros [Hle _]. by apply Hle.
  - split; [exact Hfa|exact Hwf].
  - by vm_compute.
  - vm_compute. discriminate.
  - exists s1, failed. split; [exact E|exact Hfail].
Defined.
