(* ===== verification/Vectors.v ===== *)
(** * kernel/src/idt.rs: the interrupt descriptor table

    Models [init] of [idt.rs], the vector numbers of [scheduler.rs] and
    [apic.rs], and what reaches which handler on which stack of [gdt.rs].
    [set_general_handler!] of the x86_64 crate fills the table first; the
    gates it makes are an argument. That a software interrupt needs the
    privilege of its gate, and faults otherwise, is the processor's rule.
    Proved: the three system calls are the only software interrupts of a
    process that reach their handlers, and any other one stops the kernel;
    and which port accesses without permission end the process. *)

From Stdlib Require Import Lia.
From stdpp Require Import base numbers option strings tactics sets list.
From S2P Require Import Prelude MemoryTypes FrameAllocator Memory Process PortIo Acpi Scheduler Idt.

Local Open Scope Z_scope.

(** ** The table *)

Definition TIMER_INDEX : Z := 32.
Definition ERROR_INDEX : Z := 32 + 19.
Definition SPURIOUS_INDEX : Z := 32 + 31.
Definition DEFER_INTERRUPT_NUMBER : Z := 0x40.
Definition EXIT_INTERRUPT_NUMBER : Z := 0x41.
Definition TRANSLATE_ADDR_INTERRUPT_NUMBER : Z := 0x42.

(** The vectors that the architecture gives to the exceptions. *)
Definition DOUBLE_FAULT_VECTOR : Z := 8.
Definition GENERAL_PROTECTION_VECTOR : Z := 13.
Definition PAGE_FAULT_VECTOR : Z := 14.

Inductive GateHandler : Type :=
  | Unhandled | DoubleFault | PageFault | GeneralProtection | LocalTimer | DeferCall | ExitCall | TranslateAddrCall.

(** A gate: its handler, the privilege a software interrupt needs, and the
    entry of the interrupt stack table. *)
Record Gate : Type := mkGate { gate_handler : GateHandler; gate_privilege : Z; gate_stack : option nat }.

Definition IdtTable : Type := Z -> Gate.

Definition set_gate (vector : Z) (g : Gate) (t : IdtTable) : IdtTable := fun n => if n =? vector then g else t n.

(** [init]; [general] is the table that [set_general_handler!] makes. *)
Definition idt_init (general : IdtTable) : IdtTable :=
  let t := set_gate DOUBLE_FAULT_VECTOR (mkGate DoubleFault 0 (Some DOUBLE_FAULT_IST)) general in
  let t := set_gate PAGE_FAULT_VECTOR (mkGate PageFault 0 (Some PAGE_FAULT_IST)) t in
  let t := set_gate GENERAL_PROTECTION_VECTOR (mkGate GeneralProtection 0 (Some GENERAL_PROTECTION_FAULT_IST)) t in
  let t := set_gate TIMER_INDEX (mkGate LocalTimer 0 (Some LOCAL_APIC_TIMER_IST)) t in
  let t := set_gate DEFER_INTERRUPT_NUMBER (mkGate DeferCall 3 (Some USER_IST)) t in
  let t := set_gate EXIT_INTERRUPT_NUMBER (mkGate ExitCall 3 (Some USER_IST)) t in
  set_gate TRANSLATE_ADDR_INTERRUPT_NUMBER (mkGate TranslateAddrCall 3 (Some USER_IST)) t.

(** The vector that [int n] raises at a privilege level. *)
Definition int_vector (t : IdtTable) (cpl n : Z) : Z := if cpl <=? gate_privilege (t n) then n else GENERAL_PROTECTION_VECTOR.

(** The top of the stack on which a gate's handler runs, if it has its own. *)
Definition handler_stack (tss : Tss) (g : Gate) : option Z := i ← gate_stack g; interrupt_stack_table tss !! i.

(** [process::defer], [process::exit] and [process::translate_address]. *)
Definition process_defer : Z := 0x40.
Definition process_exit : Z := 0x41.
Definition process_translate_address : Z := 0x42.

(** ** The handlers *)

(** What an interrupt finds: the interrupted context, the byte at its
    instruction pointer, the words and the address of a page fault, and the
    handler's own context. *)
Record Trap : Type := mkTrap { trap_context : ExecutionContext; trap_opcode : Z; trap_fault : PageFaultContext; trap_cr2 : Z; trap_own : ExecutionContext }.

Section Vectors.
Context {L : Type} `{Loader L} (selectors : Selectors) (INIT_FXSAVE_AREA : FxSaveArea).
Implicit Types s : Sys L.

Definition timer_body (acpi : AcpiState) s : exec (Sys L) := _ ← end_of_interrupt acpi; preempt_current s.

(** [unhandled_interrupt] and [double_fault_handler] panic. *)
Definition run_handler (h : GateHandler) (acpi : AcpiState) (fb : option KMapping) s (t : Trap) : exec (Sys L * ExecutionContext) :=
  match h with
  | Unhandled | DoubleFault => Panic
  | PageFault => page_fault_handler selectors INIT_FXSAVE_AREA s fb (trap_fault t) (trap_cr2 t) (trap_own t)
  | GeneralProtection => general_protection_fault_handler selectors INIT_FXSAVE_AREA s (trap_opcode t) (trap_own t)
  | LocalTimer => interrupt selectors INIT_FXSAVE_AREA s (trap_context t) (timer_body acpi)
  | DeferCall => interrupt selectors INIT_FXSAVE_AREA s (trap_context t) defer_body
  | ExitCall => interrupt selectors INIT_FXSAVE_AREA s (trap_context t) exit_body
  | TranslateAddrCall => interrupt selectors INIT_FXSAVE_AREA s (trap_context t) translate_addr_body
  end.

(** ** Port accesses *)

(** The code of the instructions of [x86_port.rs], by their width in bytes. *)
Definition port_instruction (write : bool) (width : Z) : list Z :=
  let op := if width =? 1 then 0xEC else 0xED in
  (if width =? 2 then [0x66] else []) ++ [if write then op + 2 else op].

(** ** Properties *)

(** The gates that the macro makes are for the kernel only. *)
Context (general : IdtTable) (Hgeneral : forall n, gate_privilege (general n) = 0).

Lemma idt_lookup n : idt_init general n =
  if n =? TRANSLATE_ADDR_INTERRUPT_NUMBER then mkGate TranslateAddrCall 3 (Some USER_IST)
  else if n =? EXIT_INTERRUPT_NUMBER then mkGate ExitCall 3 (Some USER_IST)
  else if n =? DEFER_INTERRUPT_NUMBER then mkGate DeferCall 3 (Some USER_IST)
  else if n =? TIMER_INDEX then mkGate LocalTimer 0 (Some LOCAL_APIC_TIMER_IST)
  else if n =? GENERAL_PROTECTION_VECTOR then mkGate GeneralProtection 0 (Some GENERAL_PROTECTION_FAULT_IST)
  else if n =? PAGE_FAULT_VECTOR then mkGate PageFault 0 (Some PAGE_FAULT_IST)
  else if n =? DOUBLE_FAULT_VECTOR then mkGate DoubleFault 0 (Some DOUBLE_FAULT_IST) else general n.
Proof. reflexivity. Qed.

(** A process that executes [int n]: the numbers of the process library reach
    the scheduler with the context of the process; with any other number the
    processor refuses the gate, and the protection fault handler, which finds
    the byte CD, stops the kernel. *)
Theorem user_interrupts n acpi fb s t : trap_opcode t = 0xCD ->
  run_handler (gate_handler (idt_init general (int_vector (idt_init general) 3 n))) acpi fb s t =
    if n =? process_defer then interrupt selectors INIT_FXSAVE_AREA s (trap_context t) defer_body
    else if n =? process_exit then interrupt selectors INIT_FXSAVE_AREA s (trap_context t) exit_body
    else if n =? process_translate_address then interrupt selectors INIT_FXSAVE_AREA s (trap_context t) translate_addr_body
    else Panic.
Proof.
  intros Ho. assert (Hn : n = process_defer \/ n = process_exit \/ n = process_translate_address \/
    (n <> process_defer /\ n <> process_exit /\ n <> process_translate_address)) by (unfold process_defer, process_exit, process_translate_address; lia).
  destruct Hn as [->|[->|[->|(H1 & H2 & H3)]]]; [done..|].
  assert (Hp : gate_privilege (idt_init general n) = 0).
  { rewrite idt_lookup. unfold process_defer, process_exit, process_translate_address in *. unfold TRANSLATE_ADDR_INTERRUPT_NUMBER, EXIT_INTERRUPT_NUMBER, DEFER_INTERRUPT_NUMBER.
    rewrite !(proj2 (Z.eqb_neq _ _)) by done. repeat case_match; done. }
  unfold int_vector. rewrite Hp. cbn [Z.leb Z.compare]. change (gate_handler (idt_init general GENERAL_PROTECTION_VECTOR)) with GeneralProtection.
  rewrite !(proj2 (Z.eqb_neq _ _)) by done. cbn [run_handler]. unfold general_protection_fault_handler. by rewrite Ho.
Qed.

(** A port access without permission: with eight and 32 bits it ends the
    process; with 16 bits the handler finds the operand size prefix instead of
    the opcode, and stops the kernel. *)
Theorem port_access_refused write width acpi fb s t : width = 1 \/ width = 2 \/ width = 4 -> head (port_instruction write width) = Some (trap_opcode t) ->
  is_current (kernel s) (k_space (kernel s)) = false ->
  run_handler (gate_handler (idt_init general GENERAL_PROTECTION_VECTOR)) acpi fb s t =
    if width =? 2 then Panic else interrupt selectors INIT_FXSAVE_AREA s (trap_own t) exit_body.
Proof.
  clear Hgeneral. intros Hw Ho Hk. change (gate_handler (idt_init general GENERAL_PROTECTION_VECTOR)) with GeneralProtection. cbn [run_handler]. unfold general_protection_fault_handler.
  destruct Hw as [->|[->| ->]], write; injection Ho as <-; cbn [Z.eqb Pos.eqb]; try done; rewrite bool_decide_true by set_solver; by rewrite Hk.
Qed.

(** Every handler but the general one runs on a stack of its own table entry,
    and only the system calls share one. *)
Theorem handler_stacks stack n m tss : let t := idt_init general in
  n ∈ [DOUBLE_FAULT_VECTOR; PAGE_FAULT_VECTOR; GENERAL_PROTECTION_VECTOR; TIMER_INDEX; DEFER_INTERRUPT_NUMBER; EXIT_INTERRUPT_NUMBER; TRANSLATE_ADDR_INTERRUPT_NUMBER] ->
  m ∈ [DOUBLE_FAULT_VECTOR; PAGE_FAULT_VECTOR; GENERAL_PROTECTION_VECTOR; TIMER_INDEX; DEFER_INTERRUPT_NUMBER; EXIT_INTERRUPT_NUMBER; TRANSLATE_ADDR_INTERRUPT_NUMBER] ->
  tss = gdt_init stack Tss_new -> exists i j, handler_stack tss (t n) = Some (stack i + INTERRUPT_STACK_SIZE) /\ handler_stack tss (t m) = Some (stack j + INTERRUPT_STACK_SIZE) /\
    (i = j -> n = m \/ (DEFER_INTERRUPT_NUMBER <= n <= TRANSLATE_ADDR_INTERRUPT_NUMBER /\ DEFER_INTERRUPT_NUMBER <= m <= TRANSLATE_ADDR_INTERRUPT_NUMBER)).
Proof.
  clear Hgeneral. intros t Hn Hm ->. assert (Hone : forall n, n ∈ [DOUBLE_FAULT_VECTOR; PAGE_FAULT_VECTOR; GENERAL_PROTECTION_VECTOR; TIMER_INDEX; DEFER_INTERRUPT_NUMBER; EXIT_INTERRUPT_NUMBER; TRANSLATE_ADDR_INTERRUPT_NUMBER] ->
    exists i, gate_stack (t n) = Some i /\ handler_stack (gdt_init stack Tss_new) (t n) = Some (stack i + INTERRUPT_STACK_SIZE)).
  { intros x Hx. repeat (apply elem_of_cons in Hx as [->|Hx]; [eexists; split; reflexivity|]). by apply elem_of_nil in Hx. }
  destruct (Hone n Hn) as (i & Gi & Ei), (Hone m Hm) as (j & Gj & Ej). exists i, j. split; [exact Ei|]. split; [exact Ej|]. intros ->. clear Ei Ej Hone.
  repeat (apply elem_of_cons in Hn as [->|Hn]); try (by apply elem_of_nil in Hn);
    repeat (apply elem_of_cons in Hm as [->|Hm]); try (by apply elem_of_nil in Hm); rewrite <- Gj in Gi; try discriminate Gi; (by left) || (right; split; split; discriminate).
Qed.
End Vectors.

(** ** Witnesses *)

Definition kernel_gates : IdtTable := fun _ => mkGate Unhandled 0 None.

Definition example_trap (opcode : Z) : Trap := mkTrap (example_context 1) opcode example_fault 0 (example_context 0).

(** [int 0x80]. *)
Lemma user_interrupts_witness :
  run_handler example_selectors [] (gate_handler (idt_init kernel_gates (int_vector (idt_init kernel_gates) 3 0x80))) (mkAcpiState None None) None
    (example_sys FrameAllocator_new) (example_trap 0xCD) = Panic.
Proof. exact (user_interrupts example_selectors [] kernel_gates (fun _ => eq_refl) 0x80 (mkAcpiState None None) None (example_sys FrameAllocator_new) (example_trap 0xCD) eq_refl). Defined.

(** [out dx, ax], in the address space of the process. *)
Definition example_user_sys : Sys NoModules :=
  upd_kernel (example_sys FrameAllocator_new) (enter (kernel (example_sys FrameAllocator_new)) (mkSpace "p"%string (Frame_new 3) [])).

Lemma port_access_refused_witness : is_current (kernel example_user_sys) (k_space (kernel example_user_sys)) = false /\
  run_handler example_selectors [] (gate_handler (idt_init kernel_gates GENERAL_PROTECTION_VECTOR)) (mkAcpiState None None) None example_user_sys (example_trap 0x66) = Panic.
Proof.
  assert (Hk : is_current (kernel example_user_sys) (k_space (kernel example_user_sys)) = false) by reflexivity.
  split; [exact Hk|]. exact (port_access_refused example_selectors [] kernel_gates true 2 (mkAcpiState None None) None example_user_sys
    (example_trap 0x66) ltac:(by right; left) eq_refl Hk).
Defined.

Lemma handler_stacks_witness : exists i j, handler_stack (gdt_init (fun i => 0x10000 * Z.of_nat i) Tss_new) (idt_init kernel_gates TIMER_INDEX) = Some (0x10000 * Z.of_nat i + INTERRUPT_STACK_SIZE) /\
  handler_stack (gdt_init (fun i => 0x10000 * Z.of_nat i) Tss_new) (idt_init kernel_gates DEFER_INTERRUPT_NUMBER) = Some (0x10000 * Z.of_nat j + INTERRUPT_STACK_SIZE).
Proof.
  destruct (handler_stacks kernel_gates (fun i => 0x10000 * Z.of_nat i) TIMER_INDEX DEFER_INTERRUPT_NUMBER _ ltac:(do 3 right; by left) ltac:(do 4 right; by left) eq_refl)
    as (i & j & H1 & H2 & _). by exists i, j.
Defined.
