(* ===== verification/ContextSwitch.v ===== *)
(** * kernel/src/scheduler.rs and idt.rs: the assembly of the context switch

    The instructions by which an interrupt handler saves the interrupted
    context and by which [schedule] resumes one, on a machine with the general
    registers, the interrupt frame and memory as 64-bit words. The delivery of
    an interrupt and [iretq] follow the processor's manual: the frame is
    pushed on the aligned stack of the interrupt, and [iretq] faults unless
    the stack segment names a writable data segment of the new privilege
    level. What the scheduler does between saving and resuming is the subject
    of [Scheduler] and [Idt]. *)

From Stdlib Require Import Lia.
From stdpp Require Import base numbers option tactics gmap list.
From S2P Require Import Prelude Pod MemoryTypes FrameAllocator Memory Process Scheduler Idt.

Local Open Scope Z_scope.
Local Open Scope u64_scope.

(** ** The machine *)

Inductive Reg : Type := R15 | R14 | R13 | R12 | R11 | R10 | R9 | R8 | RSI | RDI | RBP | RDX | RCX | RBX | RAX.

Definition reg_get (r : Reg) (c : CpuRegisters) : Z :=
  match r with
  | R15 => r15 c | R14 => r14 c | R13 => r13 c | R12 => r12 c | R11 => r11 c | R10 => r10 c | R9 => r9 c | R8 => r8 c
  | RSI => rsi c | RDI => rdi c | RBP => rbp c | RDX => rdx c | RCX => rcx c | RBX => rbx c | RAX => rax c
  end.

Definition reg_set (r : Reg) (v : Z) (c : CpuRegisters) : CpuRegisters :=
  match c with
  | mkRegs a15 a14 a13 a12 a11 a10 a9 a8 asi adi abp adx acx abx aax =>
      match r with
      | R15 => mkRegs v a14 a13 a12 a11 a10 a9 a8 asi adi abp adx acx abx aax
      | R14 => mkRegs a15 v a13 a12 a11 a10 a9 a8 asi adi abp adx acx abx aax
      | R13 => mkRegs a15 a14 v a12 a11 a10 a9 a8 asi adi abp adx acx abx aax
      | R12 => mkRegs a15 a14 a13 v a11 a10 a9 a8 asi adi abp adx acx abx aax
      | R11 => mkRegs a15 a14 a13 a12 v a10 a9 a8 asi adi abp adx acx abx aax
      | R10 => mkRegs a15 a14 a13 a12 a11 v a9 a8 asi adi abp adx acx abx aax
      | R9 => mkRegs a15 a14 a13 a12 a11 a10 v a8 asi adi abp adx acx abx aax
      | R8 => mkRegs a15 a14 a13 a12 a11 a10 a9 v asi adi abp adx acx abx aax
      | RSI => mkRegs a15 a14 a13 a12 a11 a10 a9 a8 v adi abp adx acx abx aax
      | RDI => mkRegs a15 a14 a13 a12 a11 a10 a9 a8 asi v abp adx acx abx aax
      | RBP => mkRegs a15 a14 a13 a12 a11 a10 a9 a8 asi adi v adx acx abx aax
      | RDX => mkRegs a15 a14 a13 a12 a11 a10 a9 a8 asi adi abp v acx abx aax
      | RCX => mkRegs a15 a14 a13 a12 a11 a10 a9 a8 asi adi abp adx v abx aax
      | RBX => mkRegs a15 a14 a13 a12 a11 a10 a9 a8 asi adi abp adx acx v aax
      | RAX => mkRegs a15 a14 a13 a12 a11 a10 a9 a8 asi adi abp adx acx abx v
      end
  end.

(** A processor: the general registers, the registers of an interrupt frame,
    and the words of memory. *)
Record Cpu : Type := mkCpu { gprs : CpuRegisters; frame : StackFrame; words : gmap Z Z }.

Definition rsp (c : Cpu) : Z := stack_pointer (frame c).

Definition upd_rsp (c : Cpu) (v : Z) : Cpu :=
  mkCpu (gprs c) (mkFrameValue (instruction_pointer (frame c)) (code_segment (frame c)) (cpu_flags (frame c)) v (stack_segment (frame c))) (words c).

Definition push_word (v : Z) (c : Cpu) : Cpu :=
  let c := upd_rsp c (rsp c ⊟ 8) in mkCpu (gprs c) (frame c) (<[rsp c := v]> (words c)).

Definition pop_word (c : Cpu) : option (Z * Cpu) :=
  v ← words c !! rsp c; Some (v, upd_rsp c (rsp c ⊞ 8)).

Inductive SegmentKind : Type := CodeSegment | DataSegment | NoSegment.

(** ** Start-up of the floating-point unit *)

Definition CR0_EMULATE_COPROCESSOR : Z := 4.
Definition MSCSR_OFFSET : nat := 0x18.

(** [init]: the control registers and [INIT_FXSAVE_AREA]; [image] is what
    [fxsave64] stores after [fninit]. *)
Record FpuState : Type := mkFpu { cr0 : Z; cr4 : Z; init_fxsave_area : FxSaveArea }.

Definition scheduler_fpu_init (image : list Z) (s : FpuState) : FpuState :=
  let em := Z.land (cr0 s) CR0_EMULATE_COPROCESSOR =? CR0_EMULATE_COPROCESSOR in
  mkFpu (if em then Z.land (cr0 s) (wnot 64 CR0_EMULATE_COPROCESSOR) else cr0 s) (cr4 s)
    (<[S MSCSR_OFFSET := 0x1F]> (<[MSCSR_OFFSET := 0x80]> image)).

Section machine.
(** The descriptor that a selector names. *)
Context (segment : Z -> SegmentKind).

(** Whether [iretq] may load the stack segment along with the code segment. *)
Definition may_load (cs ss : Z) : bool :=
  match segment ss with
  | DataSegment => ss mod 4 =? cs mod 4
  | CodeSegment => false
  | NoSegment => (ss <? 4) && negb (cs mod 4 =? 3)
  end.

(** [iretq]; [None] is a fault. *)
Definition iretq (c : Cpu) : option Cpu :=
  '(ip, c) ← pop_word c;
  '(cs, c) ← pop_word c;
  '(flags, c) ← pop_word c;
  '(sp, c) ← pop_word c;
  '(ss, c) ← pop_word c;
  if may_load (wrap 16 cs) (wrap 16 ss) then Some (mkCpu (gprs c) (mkFrameValue ip (wrap 16 cs) flags sp (wrap 16 ss)) (words c)) else None.

Inductive Instr : Type := Push (r : Reg) | Pop (r : Reg) | MovRdiRsp | MovRsp (v : Z) | Iretq.

Definition exec_instr (i : Instr) (c : Cpu) : option Cpu :=
  match i with
  | Push r => Some (push_word (reg_get r (gprs c)) c)
  | Pop r => '(v, c) ← pop_word c; Some (mkCpu (reg_set r v (gprs c)) (frame c) (words c))
  | MovRdiRsp => Some (mkCpu (reg_set RDI (rsp c) (gprs c)) (frame c) (words c))
  | MovRsp v => Some (upd_rsp c v)
  | Iretq => iretq c
  end.

Fixpoint run (code : list Instr) (c : Cpu) : option Cpu :=
  match code with [] => Some c | i :: code => c ← exec_instr i c; run code c end.

(** Delivery of an interrupt on the stack that ends at [top], to the handler
    at [ip] in the segments [cs] and [ss], with interrupts disabled. *)
Definition deliver (top ip cs ss : Z) (error : option Z) (c : Cpu) : Cpu :=
  let f := frame c in
  let c1 := upd_rsp c (Z.land top (wnot 64 15)) in
  let c2 := push_word (instruction_pointer f) (push_word (code_segment f) (push_word (cpu_flags f)
    (push_word (stack_pointer f) (push_word (stack_segment f) c1)))) in
  let c3 := match error with Some e => push_word e c2 | None => c2 end in
  mkCpu (gprs c3) (mkFrameValue ip cs (Z.land (cpu_flags f) (wnot 64 INTERRUPT_FLAG)) (rsp c3) ss) (words c3).

(** ** The code *)

(** The registers in the order of [CpuRegisters]. *)
Definition saved : list Reg := [R15; R14; R13; R12; R11; R10; R9; R8; RSI; RDI; RBP; RDX; RCX; RBX; RAX].

(** [define_interrupt_handler_with_context] up to the call. *)
Definition handler_entry : list Instr :=
  [Push RAX; Push RBX; Push RCX; Push RDX; Push RBP; Push RDI; Push RSI; Push R8; Push R9; Push R10; Push R11; Push R12; Push R13; Push R14; Push R15;
   MovRdiRsp].

(** [page_fault_handler] has the same instructions. *)
Definition page_fault_entry : list Instr := handler_entry.

(** The end of [schedule], where [next_context] is at the address [a]. *)
Definition switch_to (a : Z) : list Instr :=
  [MovRsp a; Pop R15; Pop R14; Pop R13; Pop R12; Pop R11; Pop R10; Pop R9; Pop R8; Pop RSI; Pop RDI; Pop RBP; Pop RDX; Pop RCX; Pop RBX; Pop RAX; Iretq].

(** ** The layouts *)

Definition register_words (r : CpuRegisters) : list Z := (fun x => reg_get x r) <$> saved.

(** [ExecutionContext] in memory; the selectors have 16 bits and padding. *)
Definition context_words (x : ExecutionContext) : list Z :=
  register_words (registers x) ++
  [instruction_pointer (ctx_frame x); code_segment (ctx_frame x); cpu_flags (ctx_frame x); stack_pointer (ctx_frame x); stack_segment (ctx_frame x)].

Definition stack_words (m : gmap Z Z) (a : Z) (n : nat) : list Z := (fun i => default 0 (m !! (a + 8 * Z.of_nat i))) <$> seq 0 n.

Definition regs_of (ws : list Z) : CpuRegisters :=
  let w i := default 0 (ws !! i) in
  mkRegs (w 0%nat) (w 1%nat) (w 2%nat) (w 3%nat) (w 4%nat) (w 5%nat) (w 6%nat) (w 7%nat) (w 8%nat) (w 9%nat) (w 10%nat) (w 11%nat) (w 12%nat) (w 13%nat) (w 14%nat).

(** The argument of a handler: a structure of this size is passed by value on
    the stack, above the return address that the call pushes, so that it is
    what the entry code has pushed. *)
Definition context_argument (c : Cpu) : ExecutionContext :=
  let ws := stack_words (words c) (rsp c) 20 in let w i := default 0 (ws !! i) in
  mkContext (regs_of ws) (mkFrameValue (w 15%nat) (wrap 16 (w 16%nat)) (w 17%nat) (w 18%nat) (wrap 16 (w 19%nat))).

Definition fault_argument (c : Cpu) : PageFaultContext :=
  let ws := stack_words (words c) (rsp c) 21 in let w i := default 0 (ws !! i) in
  mkFault (regs_of ws) (w 15%nat) (mkAddress (w 16%nat)) (w 17%nat) (w 18%nat) (mkAddress (w 19%nat)) (w 20%nat).

(** ** Words on the stack *)

Definition stored (m : gmap Z Z) (a : Z) (ws : list Z) : Prop := forall i w, ws !! i = Some w -> m !! (a + 8 * Z.of_nat i) = Some w.

(** Nothing outside the [n] bytes below [top] differs. *)
Definition below (top n : Z) (m m' : gmap Z Z) : Prop := forall b, b < top - n \/ top <= b -> m' !! b = m !! b.

Lemma stored_push m a ws w : stored m a ws -> stored (<[a - 8 := w]> m) (a - 8) (w :: ws).
Proof.
  intros Hs [|i] x; cbn [lookup list_lookup].
  - intros [= ->]. rewrite Z.mul_0_r, Z.add_0_r. apply lookup_insert_eq.
  - intros Hi. rewrite lookup_insert_ne by lia. replace (a - 8 + 8 * Z.of_nat (S i)) with (a + 8 * Z.of_nat i) by lia. by apply Hs.
Qed.

Lemma stored_read m a ws : stored m a ws -> stack_words m a (length ws) = ws.
Proof.
  intros Hs. unfold stack_words. apply list_eq. intros i. rewrite list_lookup_fmap. destruct (decide (i < length ws)%nat) as [Hi|Hi].
  - rewrite lookup_seq_lt by done. destruct (lookup_lt_is_Some_2 ws i Hi) as [w Hw]. cbn [fmap option_fmap option_map].
    rewrite Nat.add_0_l, Hw, (Hs i w Hw). done.
  - rewrite lookup_seq_ge by lia. cbn. symmetry. apply lookup_ge_None_2. lia.
Qed.

Lemma stored_head m a w ws : stored m a (w :: ws) -> m !! a = Some w.
Proof. intros Hs. rewrite <- (Hs 0%nat w eq_refl). f_equal. lia. Qed.

Lemma stored_tail m a w ws : stored m a (w :: ws) -> stored m (a + 8) ws.
Proof. intros Hs i x Hi. rewrite <- (Hs (S i) x Hi). f_equal. lia. Qed.

(** ** Saving *)

(** A stack pointer below which [n] bytes are in the address space. *)
Definition room (c : Cpu) (n : Z) : Prop := n <= rsp c < 2 ^ 64.

Lemma push_word_spec v c ws : room c 8 -> stored (words c) (rsp c) ws ->
  gprs (push_word v c) = gprs c /\ rsp (push_word v c) = rsp c - 8 /\ stored (words (push_word v c)) (rsp c - 8) (v :: ws) /\
  below (rsp c) 8 (words c) (words (push_word v c)).
Proof.
  intros Hr Hs. assert (E : rsp c ⊟ 8 = rsp c - 8) by (apply wrap_small; unfold room in Hr; split; lia).
  change (rsp (push_word v c)) with (rsp c ⊟ 8). change (words (push_word v c)) with (<[rsp c ⊟ 8 := v]> (words c)). rewrite E.
  split; [done|]. split; [done|]. split; [by apply stored_push|]. intros b Hb. apply lookup_insert_ne. lia.
Qed.

Lemma run_pushes rs : forall c ws code, room c (8 * Z.of_nat (length rs)) -> stored (words c) (rsp c) ws ->
  exists c', run ((Push <$> rs) ++ code) c = run code c' /\ gprs c' = gprs c /\ rsp c' = rsp c - 8 * Z.of_nat (length rs) /\
    stored (words c') (rsp c') (rev ((fun r => reg_get r (gprs c)) <$> rs) ++ ws) /\
    below (rsp c) (8 * Z.of_nat (length rs)) (words c) (words c').
Proof.
  induction rs as [|r rs IH]; intros c ws code Hr Hs; cbn [length] in *.
  { exists c. rewrite Z.sub_0_r. split; [done|]. split; [done|]. split; [done|]. split; [exact Hs|]. by intros b _. }
  destruct (push_word_spec (reg_get r (gprs c)) c ws) as (G & R & S1 & B1); [unfold room in *; lia|done|].
  destruct (IH (push_word (reg_get r (gprs c)) c) (reg_get r (gprs c) :: ws) code) as (c' & E & G' & R' & S' & B'); [unfold room in *; rewrite R; lia|by rewrite R|].
  exists c'. split; [exact E|]. split; [by rewrite G', G|]. split; [rewrite R', R; lia|]. split.
  - rewrite G in S'. cbn [fmap list_fmap rev]. rewrite <- app_assoc. exact S'.
  - intros b Hb. rewrite B' by (rewrite R; lia). apply B1. lia.
Qed.

(** The stack of an interrupt. *)
Definition stack_ok (top : Z) : Prop := 256 <= top < 2 ^ 64.

Lemma align_16 top : 0 <= top < 2 ^ 64 -> Z.land top (wnot 64 15) = top - top mod 16.
Proof.
  intros Ht. replace (top - top mod 16) with (Z.shiftl (Z.shiftr top 4) 4)
    by (rewrite Z.shiftl_mul_pow2, Z.shiftr_div_pow2 by lia; change (2 ^ 4) with 16; pose proof (Z.div_mod top 16 ltac:(lia)); lia).
  apply Z.bits_inj'. intros i Hi. rewrite Z.land_spec, testbit_wnot, Z.shiftl_spec by lia.
  change 15 with (Z.ones 4). destruct (Z.ltb_spec i 64) as [Hlt|Hge].
  - destruct (Z.lt_ge_cases i 4) as [Hl|Hh]; [rewrite Z.ones_spec_low, (Z.testbit_neg_r _ (i - 4)) by lia; by rewrite andb_false_r|].
    rewrite Z.ones_spec_high, Z.shiftr_spec by lia. cbn [negb andb]. rewrite andb_true_r. f_equal. lia.
  - cbn [andb]. rewrite andb_false_r, Z.shiftr_spec by lia. symmetry. replace (i - 4 + 4) with i by lia. apply (testbit_high 64); [done|lia].
Qed.

(** What the delivery of an interrupt leaves on the stack. *)
Lemma deliver_spec top ip cs ss error c : stack_ok top -> let c' := deliver top ip cs ss error c in
  let f := frame c in let error_words := match error with Some e => [e] | None => [] end in
  gprs c' = gprs c /\ rsp c' = top - top mod 16 - 40 - 8 * Z.of_nat (length error_words) /\
  stored (words c') (rsp c') (error_words ++ [instruction_pointer f; code_segment f; cpu_flags f; stack_pointer f; stack_segment f]) /\
  below (top - top mod 16) 48 (words c) (words c').
Proof.
  intros Ht. cbv zeta. assert (Hm : 0 <= top mod 16 < 16) by (apply Z.mod_pos_bound; lia). unfold stack_ok in Ht. unfold deliver. cbv zeta. cbn [gprs words]. rewrite align_16 by lia.
  set (c1 := upd_rsp c (top - top mod 16)). assert (R1 : rsp c1 = top - top mod 16) by done.
  assert (S1 : stored (words c1) (rsp c1) []) by (intros i w Hi; by rewrite lookup_nil in Hi).
  destruct (push_word_spec (stack_segment (frame c)) c1 [] ltac:(unfold room; lia) S1) as (G2 & R2 & S2 & B2). set (c2 := push_word (stack_segment (frame c)) c1) in *.
  rewrite <- R2 in S2. destruct (push_word_spec (stack_pointer (frame c)) c2 _ ltac:(unfold room; lia) S2) as (G3 & R3 & S3 & B3). set (c3 := push_word (stack_pointer (frame c)) c2) in *.
  rewrite <- R3 in S3. destruct (push_word_spec (cpu_flags (frame c)) c3 _ ltac:(unfold room; lia) S3) as (G4 & R4 & S4 & B4). set (c4 := push_word (cpu_flags (frame c)) c3) in *.
  rewrite <- R4 in S4. destruct (push_word_spec (code_segment (frame c)) c4 _ ltac:(unfold room; lia) S4) as (G5 & R5 & S5 & B5). set (c5 := push_word (code_segment (frame c)) c4) in *.
  rewrite <- R5 in S5. destruct (push_word_spec (instruction_pointer (frame c)) c5 _ ltac:(unfold room; lia) S5) as (G6 & R6 & S6 & B6). set (c6 := push_word (instruction_pointer (frame c)) c5) in *.
  rewrite <- R6 in S6. assert (B : below (top - top mod 16) 40 (words c) (words c6)).
  { intros b Hb. rewrite B6, B5, B4, B3, B2 by lia. done. }
  assert (G : gprs c6 = gprs c) by (rewrite G6, G5, G4, G3, G2; done).
  destruct error as [e|].
  - destruct (push_word_spec e c6 _ ltac:(unfold room; lia) S6) as (G7 & R7 & S7 & B7). set (c7 := push_word e c6) in *. rewrite <- R7 in S7.
    unfold rsp at 1. cbn [frame stack_pointer length]. split; [by rewrite G7, G|]. split; [lia|]. split; [exact S7|]. intros b Hb. rewrite B7, B by lia. done.
  - unfold rsp at 1. cbn [frame stack_pointer length]. split; [done|]. split; [lia|]. split; [exact S6|]. intros b Hb. apply B. lia.
Qed.

(** The code pushes in the order in which the fields are read back. *)
Lemma handler_entry_pushes : handler_entry = (Push <$> rev saved) ++ [MovRdiRsp].
Proof. reflexivity. Qed.

Lemma regs_of_words g ws : regs_of (register_words g ++ ws) = g.
Proof. by destruct g. Qed.

(** The entry code of a handler, on the stack that the delivery has left. *)
Lemma entry_spec c ws : room c 120 -> stored (words c) (rsp c) ws -> exists c', run handler_entry c = Some c' /\ rsp c' = rsp c - 120 /\
  stored (words c') (rsp c') (register_words (gprs c) ++ ws) /\ below (rsp c) 120 (words c) (words c').
Proof.
  intros Hr Hs. rewrite handler_entry_pushes. destruct (run_pushes (rev saved) c ws [MovRdiRsp]) as (c' & E & G & R & S & B); [exact Hr|exact Hs|].
  exists (mkCpu (reg_set RDI (rsp c') (gprs c')) (frame c') (words c')). split; [by rewrite E|]. split; [exact R|]. split; [exact S|exact B].
Qed.

(** ** Resuming *)

Lemma pop_word_spec c w ws : 0 <= rsp c < 2 ^ 64 - 8 -> stored (words c) (rsp c) (w :: ws) ->
  pop_word c = Some (w, upd_rsp c (rsp c + 8)) /\ stored (words c) (rsp c + 8) ws.
Proof.
  intros Hr Hs. split; [|by apply stored_tail with w]. unfold pop_word. rewrite (stored_head _ _ _ _ Hs). cbn. by rewrite wrap_small by (split; lia).
Qed.

Definition set_all (rs : list Reg) (vs : list Z) (g : CpuRegisters) : CpuRegisters := foldl (fun g rv => reg_set rv.1 rv.2 g) g (zip rs vs).

Lemma run_pops rs : forall c vs ws code, 0 <= rsp c -> rsp c + 8 * Z.of_nat (length rs) < 2 ^ 64 -> length vs = length rs ->
  stored (words c) (rsp c) (vs ++ ws) -> exists c', run ((Pop <$> rs) ++ code) c = run code c' /\ gprs c' = set_all rs vs (gprs c) /\
    rsp c' = rsp c + 8 * Z.of_nat (length rs) /\ words c' = words c /\ stored (words c') (rsp c') ws.
Proof.
  induction rs as [|r rs IH]; intros c vs ws code H0 Hr Hl Hs; cbn [length] in *.
  { destruct vs; [|done]. exists c. rewrite Z.add_0_r. by repeat split. }
  destruct vs as [|v vs]; [done|]. destruct (pop_word_spec c v (vs ++ ws)) as [E Hs']; [lia|exact Hs|].
  set (c1 := mkCpu (reg_set r v (gprs c)) (frame (upd_rsp c (rsp c + 8))) (words c)).
  destruct (IH c1 vs ws code) as (c' & E' & G & R & W & S); [change (rsp c1) with (rsp c + 8); lia|change (rsp c1) with (rsp c + 8); lia|by injection Hl|exact Hs'|].
  exists c'. split; [|split; [exact G|split; [rewrite R; change (rsp c1) with (rsp c + 8); lia|split; [exact W|exact S]]]].
  cbn [fmap list_fmap app run exec_instr]. rewrite E. exact E'.
Qed.

Lemma set_all_saved g g' : set_all saved (register_words g) g' = g.
Proof. by destruct g, g'. Qed.

Definition selectors_fit (f : StackFrame) : Prop := uint_range 16 (code_segment f) /\ uint_range 16 (stack_segment f).

Lemma iretq_spec c f ws : 0 <= rsp c -> rsp c + 40 < 2 ^ 64 -> selectors_fit f ->
  stored (words c) (rsp c) ([instruction_pointer f; code_segment f; cpu_flags f; stack_pointer f; stack_segment f] ++ ws) ->
  iretq c = if may_load (code_segment f) (stack_segment f) then Some (mkCpu (gprs c) f (words c)) else None.
Proof.
  intros H0 Hr [Hc Hs] S0. destruct f as [ip cs flags sp ss]. cbn [instruction_pointer code_segment cpu_flags stack_pointer stack_segment app] in *.
  unfold iretq. destruct (pop_word_spec c ip _ ltac:(lia) S0) as [-> S1]. cbn [mbind option_bind]. set (c1 := upd_rsp c (rsp c + 8)).
  change (rsp c + 8) with (rsp c1) in S1. assert (R1 : rsp c1 = rsp c + 8) by done. destruct (pop_word_spec c1 cs _ ltac:(lia) S1) as [-> S2]. cbn [mbind option_bind]. set (c2 := upd_rsp c1 (rsp c1 + 8)).
  change (rsp c1 + 8) with (rsp c2) in S2. assert (R2 : rsp c2 = rsp c1 + 8) by done. destruct (pop_word_spec c2 flags _ ltac:(lia) S2) as [-> S3]. cbn [mbind option_bind]. set (c3 := upd_rsp c2 (rsp c2 + 8)).
  change (rsp c2 + 8) with (rsp c3) in S3. assert (R3 : rsp c3 = rsp c2 + 8) by done. destruct (pop_word_spec c3 sp _ ltac:(lia) S3) as [-> S4]. cbn [mbind option_bind]. set (c4 := upd_rsp c3 (rsp c3 + 8)).
  change (rsp c3 + 8) with (rsp c4) in S4. assert (R4 : rsp c4 = rsp c3 + 8) by done. destruct (pop_word_spec c4 ss _ ltac:(lia) S4) as [-> S5]. cbn [mbind option_bind].
  rewrite !wrap_small by done. done.
Qed.

(** Resuming a context that is stored at [a]. *)
Lemma switch_spec c a x : 0 <= a < 2 ^ 64 - 256 -> selectors_fit (ctx_frame x) -> stored (words c) a (context_words x) ->
  run (switch_to a) c = if may_load (code_segment (ctx_frame x)) (stack_segment (ctx_frame x)) then Some (mkCpu (registers x) (ctx_frame x) (words c)) else None.
Proof.
  intros Ha Hf Hs. change (switch_to a) with (MovRsp a :: (Pop <$> saved) ++ [Iretq]). cbn [run exec_instr mbind option_bind].
  destruct (run_pops saved (upd_rsp c a) (register_words (registers x)) [instruction_pointer (ctx_frame x); code_segment (ctx_frame x); cpu_flags (ctx_frame x); stack_pointer (ctx_frame x); stack_segment (ctx_frame x)] [Iretq])
    as (c' & E & G & R & W & S); [cbn; lia|cbn; lia|done|exact Hs|].
  transitivity (run [Iretq] c'); [exact E|]. cbn [run exec_instr]. change (rsp (upd_rsp c a)) with a in R. cbn [length saved] in R.
  rewrite (iretq_spec c' (ctx_frame x) []); [|lia|lia|done|by rewrite app_nil_r]. rewrite G, set_all_saved, W. by destruct (may_load _ _).
Qed.

(** The words of an interrupted processor. *)
Lemma saved_words c : context_words (mkContext (gprs c) (frame c)) =
  register_words (gprs c) ++ [instruction_pointer (frame c); code_segment (frame c); cpu_flags (frame c); stack_pointer (frame c); stack_segment (frame c)].
Proof. reflexivity. Qed.

Lemma context_of_words c x : selectors_fit (ctx_frame x) -> stored (words c) (rsp c) (context_words x) -> context_argument c = x.
Proof.
  intros [Hc Hs] S. unfold context_argument. pose proof (stored_read _ _ _ S) as E. change (length (context_words x)) with 20%nat in E. rewrite E.
  destruct x as [g [ip cs flags sp ss]]. unfold context_words at 1. rewrite regs_of_words. cbn [context_words registers ctx_frame] in *. destruct g.
  cbn in Hc, Hs |- *. by rewrite !wrap_small by done.
Qed.

(** From the delivery of an interrupt to the call of its handler. *)
Lemma entry_transparent top ip kcs kss c : stack_ok top -> selectors_fit (frame c) ->
  exists c1, run handler_entry (deliver top ip kcs kss None c) = Some c1 /\ context_argument c1 = mkContext (gprs c) (frame c) /\
    rsp c1 mod 16 = 0 /\ below (top - top mod 16) 160 (words c) (words c1).
Proof.
  intros Ht Hf. destruct (deliver_spec top ip kcs kss None c Ht) as (G & R & S & B). cbn [length app] in *. pose proof (Z.mod_pos_bound top 16 ltac:(lia)) as Hm. unfold stack_ok in Ht.
  destruct (entry_spec (deliver top ip kcs kss None c) _ ltac:(unfold room; lia) S) as (c1 & E & R1 & S1 & B1). rewrite G in S1.
  exists c1. split; [exact E|]. split; [apply context_of_words; [exact Hf|by rewrite saved_words]|]. split.
  - rewrite R1, R. pose proof (Z.div_mod top 16 ltac:(lia)). replace (top - top mod 16 - 40 - 8 * Z.of_nat 0 - 120) with ((top / 16 - 10) * 16) by lia. apply Z.mod_mul. lia.
  - intros b Hb. rewrite B1, B by lia. done.
Qed.

(** The same for a page fault. *)
Lemma fault_entry_exact top ip kcs kss error c : stack_ok top -> selectors_fit (frame c) ->
  exists c1, run page_fault_entry (deliver top ip kcs kss (Some error) c) = Some c1 /\ pf_error_code (fault_argument c1) = error /\
    fault_context (fault_argument c1) = mkContext (gprs c) (frame c) /\ rsp c1 mod 16 = 8.
Proof.
  intros Ht [Hc Hs]. destruct (deliver_spec top ip kcs kss (Some error) c Ht) as (G & R & S & _). cbn [length app] in *. pose proof (Z.mod_pos_bound top 16 ltac:(lia)) as Hm. unfold stack_ok in Ht.
  destruct (entry_spec (deliver top ip kcs kss (Some error) c) _ ltac:(unfold room; lia) S) as (c1 & E & R1 & S1 & _). rewrite G in S1.
  pose proof (stored_read _ _ _ S1) as Ew. change (length (register_words (gprs c) ++ _)) with 21%nat in Ew.
  exists c1. split; [exact E|]. unfold fault_argument. rewrite Ew. rewrite regs_of_words. clear Ew S1 S. destruct (gprs c), (frame c) as [fip fcs fl fsp fss] eqn:Ef.
  cbn [code_segment stack_segment] in Hc, Hs. split; [done|]. split.
  - unfold fault_context. cbn. by rewrite !wrap_small by done.
  - rewrite R1, R. pose proof (Z.div_mod top 16 ltac:(lia)). replace (top - top mod 16 - 40 - 8 * Z.of_nat 1 - 120) with (8 + (top / 16 - 11) * 16) by lia. rewrite Z.mod_add by lia. reflexivity.
Qed.
(** ** Properties *)

(** C14: An interrupt is transparent: its handler is called with exactly the
    context of the interrupted processor, on a stack aligned for the call, and
    has written only the 160 bytes below the top of its stack; and resuming a
    context continues with exactly its registers. So a processor that is
    interrupted and resumed with the context that the handler was given goes
    on as if nothing had happened. *)
Theorem interrupt_transparent top ip kcs kss c : stack_ok top -> selectors_fit (frame c) ->
  exists c1, run handler_entry (deliver top ip kcs kss None c) = Some c1 /\ context_argument c1 = mkContext (gprs c) (frame c) /\
    rsp c1 mod 16 = 0 /\ below (top - top mod 16) 160 (words c) (words c1) /\
    forall c2 a, 0 <= a < 2 ^ 64 - 256 -> stored (words c2) a (context_words (context_argument c1)) ->
      may_load (code_segment (frame c)) (stack_segment (frame c)) = true -> run (switch_to a) c2 = Some (mkCpu (gprs c) (frame c) (words c2)).
Proof.
  intros Ht Hf. destruct (entry_transparent top ip kcs kss c Ht Hf) as (c1 & E & Ec & Hal & B).
  exists c1. split; [exact E|]. split; [exact Ec|]. split; [exact Hal|]. split; [exact B|].
  intros c2 a Ha Hs Hl. rewrite Ec in Hs. rewrite (switch_spec c2 a (mkContext (gprs c) (frame c)) Ha Hf Hs). cbn [ctx_frame registers]. by rewrite Hl.
Qed.

(** The same for a page fault: the handler's argument is the interrupted
    context with the error code, so that the context which it saves is the
    interrupted one. Its stack is not aligned to 16 bytes at the call. *)
Theorem fault_context_exact top ip kcs kss error c : stack_ok top -> selectors_fit (frame c) ->
  exists c1, run page_fault_entry (deliver top ip kcs kss (Some error) c) = Some c1 /\ pf_error_code (fault_argument c1) = error /\
    fault_context (fault_argument c1) = mkContext (gprs c) (frame c) /\ rsp c1 mod 16 = 8.
Proof. apply fault_entry_exact. Qed.
End machine.

(** Start-up enables the floating-point unit, and every process starts with all
    floating-point exceptions masked (MXCSR is 0x1F80); CR4 is not changed. *)
Theorem fpu_init_masks (image : list Z) s : length image = 512%nat -> uint_range 64 (cr0 s) -> let s' := scheduler_fpu_init image s in
  (forall i, 0 <= i -> Z.testbit (cr0 s') i = negb (i =? 2) && Z.testbit (cr0 s) i) /\ cr4 s' = cr4 s /\
  le_combine (take 2 (drop 0x18 (init_fxsave_area s'))) = 0x1F80 /\
  forall i, i <> 24%nat -> i <> 25%nat -> (init_fxsave_area s' : list Z) !! i = image !! i.
Proof.
  intros Hl Hu. cbv zeta. unfold scheduler_fpu_init. cbn [cr0 cr4 init_fxsave_area]. split; [|split; [done|split]].
  - intros i Hi. change CR0_EMULATE_COPROCESSOR with (2 ^ 2). destruct (Z.eqb_spec (Z.land (cr0 s) (2 ^ 2)) (2 ^ 2)) as [E|E].
    + rewrite Z.land_spec, testbit_wnot, Z.pow2_bits_eqb by lia. rewrite (Z.eqb_sym 2 i). destruct (Z.ltb_spec i 64) as [Hlt|Hge].
      * cbn [andb]. apply andb_comm.
      * rewrite (testbit_high 64 (cr0 s) i Hu) by lia. by destruct (i =? 2).
    + destruct (Z.eqb_spec i 2) as [->|]; [|done]. cbn [negb andb]. destruct (Z.testbit (cr0 s) 2) eqn:Hb; [|done]. exfalso. apply E.
      apply Z.bits_inj'. intros j Hj. rewrite Z.land_spec, Z.pow2_bits_eqb by lia. destruct (Z.eqb_spec 2 j) as [<-|]; [by rewrite Hb|by rewrite andb_false_r].
  - unfold MSCSR_OFFSET. do 26 (destruct image as [|? image]; [discriminate Hl|]). reflexivity.
  - intros i H1 H2. unfold MSCSR_OFFSET. by rewrite !list_lookup_insert_ne by lia.
Qed.

(** The frame of the idle process names the kernel's code segment as its stack
    segment: wherever the context is stored, resuming it faults. *)
Theorem idle_cannot_resume `{Loader L} segment selectors idle_loop kernel_stack_top INIT_FXSAVE_AREA (s s' : Sys L) shell :
  Scheduler_init selectors idle_loop kernel_stack_top INIT_FXSAVE_AREA s shell = Done s' ->
  uint_range 16 (kernel_code selectors) -> segment (kernel_code selectors) = CodeSegment ->
  exists p x, p ∈ q_idle (queue s') /\ proc_id p = IDLE_PROCESS_ID /\ context p = Some x /\
    forall c a, 0 <= a < 2 ^ 64 - 256 -> stored (words c) a (context_words x) -> run segment (switch_to a) c = None.
Proof.
  intros E Hu Hk. unfold Scheduler_init in E. exec_cases E. injection E as <-. eexists _, _. split.
  - cbn [queue upd_shell add_to_queue upd_queue upd_kernel rq_push priority q_idle]. apply elem_of_app. right. apply list_elem_of_singleton. reflexivity.
  - split; [done|]. split; [reflexivity|]. intros c a' Ha Hs. erewrite switch_spec; [|exact Ha| |exact Hs]; [|by split].
    cbn [ctx_frame code_segment stack_segment]. unfold may_load. by rewrite Hk.
Qed.

(** ** Witnesses *)

(** The selectors 8 and 16 of the kernel, 27 and 35 of the user. *)
Definition example_segment (s : Z) : SegmentKind :=
  if (s =? 8) || (s =? 27) then CodeSegment else if (s =? 16) || (s =? 35) then DataSegment else NoSegment.

Definition example_cpu : Cpu := mkCpu (mkRegs 1 2 3 4 5 6 7 8 9 10 11 12 13 14 15) (mkFrameValue 0x401000 27 INTERRUPT_FLAG 0x7FF8 35) ∅.

Lemma fpu_init_masks_witness : cr4 (scheduler_fpu_init (replicate 512 0) (mkFpu 0x80000015 0x20 [])) = 0x20.
Proof. apply (fpu_init_masks (replicate 512 0) (mkFpu 0x80000015 0x20 [])); [reflexivity|by vm_compute]. Defined.

(** The context is copied to 0x10000 and resumed from there. *)
Lemma interrupt_transparent_witness : exists c1, run example_segment handler_entry (deliver 0x9004 0x100 8 0 None example_cpu) = Some c1 /\
  run example_segment (switch_to 0x10000) (mkCpu CpuRegisters_EMPTY (frame c1) (list_to_map (imap (fun i w => (0x10000 + 8 * Z.of_nat i, w)) (context_words (context_argument c1)))))
  = Some (mkCpu (gprs example_cpu) (frame example_cpu) (list_to_map (imap (fun i w => (0x10000 + 8 * Z.of_nat i, w)) (context_words (context_argument c1))))).
Proof.
  destruct (interrupt_transparent example_segment 0x9004 0x100 8 0 example_cpu) as (c1 & E & Ec & _ & _ & H); [split; lia|split; split; by vm_compute|].
  exists c1. split; [exact E|]. apply H; [lia| |reflexivity]. rewrite Ec. intros i w Hi. cbn [words].
  do 20 (destruct i as [|i]; [injection Hi as <-; reflexivity|]). discriminate Hi.
Defined.

Lemma fault_context_exact_witness : exists c1, run example_segment page_fault_entry (deliver 0x9000 0x200 8 0 (Some 6) example_cpu) = Some c1 /\
  fault_context (fault_argument c1) = mkContext (gprs example_cpu) (frame example_cpu).
Proof.
  destruct (fault_context_exact example_segment 0x9000 0x200 8 0 6 example_cpu) as (c1 & E & _ & Ec & _); [split; lia|split; split; by vm_compute|]. by exists c1.
Defined.

Lemma idle_cannot_resume_witness : exists fa s' p x,
  Scheduler_init example_selectors 4096 8192 [] (boot_sys fa) (Some ShellQueue_new) = Done s' /\ p ∈ q_idle (queue s') /\ context p = Some x /\
  forall c a, 0 <= a < 2 ^ 64 - 256 -> stored (words c) a (context_words x) -> run example_segment (switch_to a) c = None.
Proof.
  destruct (FrameAllocator_init small_map FrameAllocator_new) as [fa|] eqn:Ef.
  2:{ exfalso. destruct small_init as (fa & E & _). rewrite E in Ef. discriminate Ef. }
  destruct (Scheduler_init example_selectors 4096 8192 [] (boot_sys fa) (Some ShellQueue_new)) as [s'|] eqn:E.
  - exists fa, s'.
    destruct (idle_cannot_resume example_segment example_selectors 4096 8192 [] (boot_sys fa) s' (Some ShellQueue_new) E ltac:(split; reflexivity || discriminate) eq_refl)
      as (p & x & H1 & _ & H3 & H4).
    exists p, x. split; [exact E|]. split; [exact H1|]. split; [exact H3|exact H4].
  - exfalso. cut ((fa ← FrameAllocator_init small_map FrameAllocator_new;
      r ← Scheduler_init example_selectors 4096 8192 [] (boot_sys fa) (Some ShellQueue_new); Done true) = Done true).
    + rewrite Ef. cbn [mbind exec_bind]. rewrite E. discriminate.
    + vm_compute. reflexivity.
Defined.
