(* ===== verification/Preemption.v ===== *)
(** * A processor for every process

    Puts the assembly of the context switch ([ContextSwitch]), the scheduler
    ([Scheduler]) and the page fault handler ([Idt]) together: a processor on
    which the current process executes, and on which interrupts save it,
    schedule and resume another process. Proved here of the whole: every
    process executes as if it had a processor of its own, whatever interrupts
    come between its instructions. *)

From Stdlib Require Import Lia.
From stdpp Require Import base numbers option tactics gmap list relations.
From S2P Require Import Prelude MemoryTypes FrameAllocator Memory Process Scheduler Idt ContextSwitch.

Local Open Scope Z_scope.
Local Open Scope u64_scope.

(** ** The processor of a process *)

(** The registers, the interrupt frame's registers and the floating-point state. *)
Record VCpu : Type := mkVCpu { v_regs : CpuRegisters; v_frame : StackFrame; v_fpu : FxSaveArea }.

Definition vcpu_of (x : ExecutionContext) (f : FxSaveArea) : VCpu := mkVCpu (registers x) (ctx_frame x) f.

(** What an interrupt finds on the processor. *)
Definition live (c : Cpu) : ExecutionContext := mkContext (gprs c) (frame c).

Section preemption.
Context {L : Type} `{Loader L} (segment : Z -> SegmentKind) (selectors : Selectors) (idle_loop kernel_stack_top : Z) (INIT_FXSAVE_AREA : FxSaveArea).
(** What one instruction of a process may do to its processor. *)
Context (instr : Z -> VCpu -> VCpu -> Prop).

(** The processor of a waiting process is the one it was saved with, that of
    the current process the one that executes. *)
Definition waits_with (s : Sys L) (id : Z) (v : VCpu) : Prop :=
  exists p x, p ∈ waiting s /\ proc_id p = id /\ context p = Some x /\ v = vcpu_of x (fxsave_area p).

Definition has_cpu (s : Sys L) (x : ExecutionContext) (id : Z) (v : VCpu) : Prop :=
  (exists p, current s = Some p /\ proc_id p = id /\ v = vcpu_of x (fpu s)) \/ waits_with s id v.

(** The same inside a handler, where the current process is saved as well. *)
Definition saved_with (s : Sys L) (id : Z) (v : VCpu) : Prop :=
  (exists p x, current s = Some p /\ proc_id p = id /\ context p = Some x /\ v = vcpu_of x (fxsave_area p)) \/ waits_with s id v.

(** How a process starts. *)
Definition start_cpu (id : Z) (v : VCpu) : Prop :=
  v_regs v = CpuRegisters_EMPTY /\ v_fpu v = INIT_FXSAVE_AREA /\ cpu_flags (v_frame v) = INTERRUPT_FLAG /\
  ((code_segment (v_frame v) = user_code selectors /\ stack_segment (v_frame v) = user_data selectors) \/
   (id = IDLE_PROCESS_ID /\ code_segment (v_frame v) = kernel_code selectors /\ stack_segment (v_frame v) = kernel_code selectors)).

(** What happens to a process on a processor of its own: its instructions, and
    the results of its system calls. *)
Inductive own_step (id : Z) : VCpu -> VCpu -> Prop :=
  | own_instr v v' : instr id v v' -> own_step id v v'
  | own_result v a : own_step id v (mkVCpu (set_rax (v_regs v) a) (v_frame v) (v_fpu v)).

(** ** The shared processor *)

(** An instruction of the current process; an interrupt (the timer, a system
    call), delivered on the stack that ends at [top], whose handler returns
    the context [x] to resume; a page fault; and the shell's writes into the
    queues. What is stored in memory in between is arbitrary, but for the
    context that is resumed. *)
Inductive machine_step : Sys L * Cpu -> Sys L * Cpu -> Prop :=
  | step_instr s c p v m : current s = Some p -> instr (proc_id p) (vcpu_of (live c) (fpu s)) v ->
      machine_step (s, c) (upd_cpu s (v_fpu v) (io_allowed s), mkCpu (v_regs v) (v_frame v) m)
  | step_interrupted s c top ip kcs kss body c1 s' x c2 a c' : stack_ok top -> counter_ok s -> handler s body ->
      run segment handler_entry (deliver top ip kcs kss None c) = Some c1 ->
      interrupt selectors INIT_FXSAVE_AREA s (context_argument c1) body = Done (s', x) ->
      0 <= a < 2 ^ 64 - 256 -> stored (words c2) a (context_words x) -> run segment (switch_to a) c2 = Some c' -> machine_step (s, c) (s', c')
  | step_fault s c top ip kcs kss error fb cr2 kc c1 s' x c2 a c' : stack_ok top -> counter_ok s ->
      run segment page_fault_entry (deliver top ip kcs kss (Some error) c) = Some c1 ->
      page_fault_handler selectors INIT_FXSAVE_AREA s fb (fault_argument c1) cr2 kc = Done (s', x) ->
      0 <= a < 2 ^ 64 - 256 -> stored (words c2) a (context_words x) -> run segment (switch_to a) c2 = Some c' -> machine_step (s, c) (s', c')
  | step_queues s c q : machine_step (s, c) (upd_shell s q, c).

(** ** Scheduling leaves the processors alone *)

Lemma waits_incl s s' id v : (forall p, p ∈ waiting s' -> p ∈ waiting s) -> waits_with s' id v -> waits_with s id v.
Proof. intros Hi (p & x & Hp & E). exists p, x. split; [by apply Hi|exact E]. Qed.

Lemma waits_push s p id v : waits_with (add_to_queue s p) id v ->
  waits_with s id v \/ exists x, proc_id p = id /\ context p = Some x /\ v = vcpu_of x (fxsave_area p).
Proof.
  intros (p' & x & Hp & E). unfold waiting in Hp. cbn in Hp. rewrite rq_push_all in Hp.
  apply elem_of_cons in Hp as [->|Hp]; [right; by exists x|left; by exists p', x].
Qed.

Lemma run_user_process_cpu s name stack io policy s' id v : run_user_process selectors INIT_FXSAVE_AREA s name stack io policy = Done s' -> waits_with s' id v ->
  waits_with s id v \/ start_cpu id v.
Proof.
  unfold run_user_process. intros Hr Hw. cbn zeta in Hr. exec_cases Hr. injection Hr as <-.
  apply waits_push in Hw as [Hw|(x' & _ & Hx & ->)]; [by left|right]. cbn in Hx. injection Hx as <-.
  split; [done|]. split; [done|]. split; [done|]. by left.
Qed.

Lemma handle_output_cpu s o s' id v : handle_output selectors INIT_FXSAVE_AREA s o = Done s' -> waits_with s' id v -> waits_with s id v \/ start_cpu id v.
Proof.
  unfold handle_output. destruct o as [code|name|addr pid].
  - destruct (blocked s) as [|p rest] eqn:Hb; [done|]. intros (k & ->)%drop_process_inv Hw. left. eapply waits_incl; [|exact Hw].
    unfold waiting. cbn. rewrite Hb. intros y. rewrite !elem_of_app, elem_of_cons. tauto.
  - apply run_user_process_cpu.
  - destruct (blocked s) as [|p rest] eqn:Hb; [done|]. case_if; [|done]. cbn [loader upd_blocked].
    assert (Hrest : forall k, waits_with (upd_kernel (upd_blocked s rest) k) id v -> waits_with s id v).
    { intros k. apply waits_incl. unfold waiting. cbn. rewrite Hb. intros y. rewrite !elem_of_app, elem_of_cons. tauto. }
    destruct (section_for_addr _ _) as [sec|]; [|intros (k & ->)%drop_process_inv Hw; left; by eapply Hrest].
    intros Hr Hw. exec_inv Hr. destruct x as [[k sp] [u|e]].
    + injection Hr as <-. apply waits_push in Hw as [Hw|(x & Hid & Hx & ->)]; [left; by eapply Hrest|left]. exists p, x.
      split; [unfold waiting; rewrite Hb, elem_of_app, elem_of_cons; tauto|done].
    + apply drop_process_inv in Hr as (k' & ->). left. by eapply Hrest.
Qed.

Lemma poll_shell_cpu s s' id v : poll_shell selectors INIT_FXSAVE_AREA s = Done s' -> waits_with s' id v -> waits_with s id v \/ start_cpu id v.
Proof.
  unfold poll_shell. cbn [shell_queue upd_kernel]. destruct (shell_queue s) as [sq|]; [|intros [= <-]; by left].
  intros Hr Hw. exec_inv Hr. destruct x as [out [o|]]; [exact (handle_output_cpu _ _ _ _ _ Hr Hw)|]. injection Hr as <-. by left.
Qed.

(** Scheduling: a processor is one that was saved, or a new process starts. *)
Lemma schedule_next_cpu s s' x id v : sched_inv s -> counter_ok s -> (forall p, current s = Some p -> fxsave_area p = fpu s) ->
  schedule_next selectors INIT_FXSAVE_AREA s = Done (s', x) -> has_cpu s' x id v -> saved_with s id v \/ start_cpu id v.
Proof.
  intros Hinv Hk Hf. unfold schedule_next. intros Hr Hh. exec_inv Hr. rename x0 into s1.
  pose proof (poll_shell_inv _ _ _ _ Hinv Hk E) as [_ (Hc1 & Hf1 & _)].
  assert (Hw1 : waits_with s1 id v -> saved_with s id v \/ start_cpu id v) by (intros Hw; eapply poll_shell_cpu in Hw as [Hw|Hw]; [left; by right|by right|exact E]).
  unfold pick_next in Hr. destruct (current s1) as [p|] eqn:Hc.
  - cbn [mbind exec_bind] in Hr. destruct (context p) as [y|] eqn:Hp; [|done]. injection Hr as <- <-.
    destruct Hh as [(p' & Hp' & Hid & ->)|Hw]; [|by apply Hw1]. cbn in Hp', Hid. injection Hp' as <-. left. left. exists p, y.
    split; [by rewrite <- Hc1|]. split; [exact Hid|]. split; [done|]. cbn. by rewrite Hf1, (Hf p) by by rewrite <- Hc1.
  - destruct (rq_pop (queue s1)) as [[p q]|] eqn:Hq; [|done]. cbn [mbind exec_bind] in Hr.
    destruct (context p) as [y|] eqn:Hp; [|done]. injection Hr as <- <-. pose proof (rq_pop_all (queue s1)) as Hall. rewrite Hq in Hall. apply Hw1.
    destruct Hh as [(p' & Hp' & Hid & ->)|Hw].
    + cbn in Hp', Hid. injection Hp' as <-. exists p, y. split; [unfold waiting; rewrite Hall; left|done].
    + eapply waits_incl; [|exact Hw]. unfold waiting. cbn. rewrite Hall. intros z Hz. by right.
Qed.

(** A handler: the processors are those at the interrupt, with the result of a system call. *)
Lemma handler_cpu s p x body s1 id v : handler s body -> current s = Some p -> body (upd_current s (Some (save s p x))) = Done s1 -> saved_with s1 id v ->
  exists v0, has_cpu s x id v0 /\ rtc (own_step id) v0 v.
Proof.
  intros Hh Hc Hb Hs. assert (Hcur : forall a, a = vcpu_of x (fpu s) -> proc_id p = id -> exists v0, has_cpu s x id v0 /\ rtc (own_step id) v0 a).
  { intros a -> Hid. exists (vcpu_of x (fpu s)). split; [left; by exists p|apply rtc_refl]. }
  assert (Hwait : waits_with s id v -> exists v0, has_cpu s x id v0 /\ rtc (own_step id) v0 v) by (intros Hw; exists v; split; [by right|apply rtc_refl]).
  destruct Hh as [| |p' Hc' Hid|p' req Hc' Hpol].
  - injection Hb as <-. destruct Hs as [(? & ? & [=] & _)|Hw]. apply waits_push in Hw as [Hw|(y & Hid & Hy & ->)]; [by apply Hwait|].
    cbn in Hy. injection Hy as <-. by apply Hcur.
  - unfold translate_addr_body in Hb. cbn [current upd_current context save set_fxsave set_context] in Hb. exec_inv Hb. injection Hb as <-.
    destruct Hs as [(q & y & Hq & Hid & Hy & ->)|Hw]; [|by apply Hwait]. cbn in Hq. injection Hq as <-. cbn in Hy. injection Hy as <-.
    exists (vcpu_of x (fpu s)). split; [left; by exists p|]. apply rtc_once, (own_result _ (vcpu_of x (fpu s))).
  - unfold exit_body in Hb. cbn [current upd_current context save set_fxsave set_context] in Hb. apply drop_process_inv in Hb as (k & ->).
    destruct Hs as [(? & ? & [=] & _)|Hw]. by apply Hwait.
  - unfold block_current in Hb. cbn [current upd_current shell_queue upd_blocked upd_kernel] in Hb. destruct (shell_queue s) as [sq|]; [|done].
    exec_inv Hb. injection Hb as <-. destruct Hs as [(? & ? & [=] & _)|(q & y & Hq & Hid & Hy & ->)]. unfold waiting in Hq. cbn in Hq.
    rewrite app_assoc, elem_of_app, list_elem_of_singleton in Hq. destruct Hq as [Hq| ->]; [apply Hwait; by exists q, y|].
    cbn in Hy. injection Hy as <-. by apply Hcur.
Qed.

(** The current process of a handler's final state is saved with the live
    floating-point state. *)
Lemma handler_fpu (s : Sys L) p x body (s1 : Sys L) : handler s body -> current s = Some p -> body (upd_current s (Some (save s p x))) = Done s1 ->
  forall q, current s1 = Some q -> fxsave_area q = fpu s1.
Proof.
  intros Hh Hc Hb q Hq. destruct Hh as [| |p' Hc' Hid|p' req Hc' Hpol].
  - by injection Hb as <-.
  - unfold translate_addr_body in Hb. cbn [current upd_current context save set_fxsave set_context] in Hb. exec_inv Hb. injection Hb as <-. by injection Hq as <-.
  - unfold exit_body in Hb. cbn [current upd_current context save set_fxsave set_context] in Hb. by apply drop_process_inv in Hb as (k & ->).
  - unfold block_current in Hb. cbn [current upd_current shell_queue upd_blocked upd_kernel] in Hb. destruct (shell_queue s) as [sq|]; [|done].
    exec_inv Hb. by injection Hb as <-.
Qed.

(** An interrupt, from the saved context to the one that is resumed. *)
Lemma interrupt_cpu s p x body s' y id v : handler s body -> sched_inv s -> counter_ok s -> current s = Some p -> context p = None ->
  interrupt selectors INIT_FXSAVE_AREA s x body = Done (s', y) -> has_cpu s' y id v ->
  start_cpu id v \/ exists v0, has_cpu s x id v0 /\ rtc (own_step id) v0 v.
Proof.
  intros Hh Hinv Hk Hc Hn Hi Hcpu. apply (interrupt_split _ _ s p) in Hi as (s1 & Hb & Hs & H1 & Hp1 & _); [|done..].
  eapply schedule_next_cpu in Hcpu as [Hsv|Hst]; [right; by eapply handler_cpu|by left|done|by unfold counter_ok; rewrite Hp1|by eapply handler_fpu|exact Hs].
Qed.

Lemma page_fault_cpu s s' fb f cr2 kc y id v : sched_inv s -> counter_ok s -> page_fault_handler selectors INIT_FXSAVE_AREA s fb f cr2 kc = Done (s', y) ->
  has_cpu s' y id v -> start_cpu id v \/ has_cpu s (fault_context f) id v.
Proof.
  intros Hinv Hk Hr Hcpu. apply page_fault_inv in Hr as (p & s2 & Hc & Hn & (H2 & Hp2 & Hf2 & Hq2 & p' & (E1 & _ & _ & E4 & E5) & Hcase) & Hs); [|done].
  cbn [fst snd] in *. eapply schedule_next_cpu in Hcpu as [Hsv|Hst]; [|by left|done| | |exact Hs].
  - right. destruct Hcase as [[C2 B2]|(_ & C2 & B2)].
    + destruct Hsv as [(q & z & Hq & Hid & Hz & ->)|(q & z & Hq & R)].
      * rewrite C2 in Hq. injection Hq as <-. rewrite E4 in Hz. cbn in Hz. injection Hz as <-. left. exists p. split; [done|].
        rewrite E1 in Hid. split; [exact Hid|]. by rewrite E5.
      * right. exists q, z. split; [|exact R]. unfold waiting in *. by rewrite Hq2, B2 in Hq.
    + destruct Hsv as [(q & z & Hq & _)|(q & z & Hq & Hid & Hz & ->)]; [by rewrite C2 in Hq|].
      unfold waiting in Hq. rewrite Hq2, B2, app_assoc, elem_of_app, list_elem_of_singleton in Hq. destruct Hq as [Hq| ->]; [right; by exists q, z|].
      rewrite E4 in Hz. cbn in Hz. injection Hz as <-. left. exists p. split; [done|]. rewrite E1 in Hid. split; [exact Hid|]. by rewrite E5.
  - unfold counter_ok in *. cbn in Hp2. by rewrite Hp2.
  - intros q Hq. destruct Hcase as [[C2 _]|(_ & C2 & _)]; rewrite C2 in Hq; [|done]. injection Hq as <-. rewrite E5, Hf2. done.
Qed.
(** ** The invariant *)

(** An instruction leaves 16-bit selectors, as the configured ones are. *)
Context (Hinstr : forall id v v', instr id v v' -> selectors_fit (v_frame v) -> selectors_fit (v_frame v')).
Context (Hselectors : uint_range 16 (user_code selectors) /\ uint_range 16 (user_data selectors) /\ uint_range 16 (kernel_code selectors)).

(** A state of a process on its own processor. *)
Definition own_run (id : Z) (v : VCpu) : Prop := exists v0, start_cpu id v0 /\ rtc (own_step id) v0 v.

Lemma own_run_more id v v' : own_run id v -> rtc (own_step id) v v' -> own_run id v'.
Proof. intros (v0 & Hs & Hr) Hr'. exists v0. split; [exact Hs|by etrans]. Qed.

Lemma own_run_fits id v : own_run id v -> selectors_fit (v_frame v).
Proof.
  intros (v0 & Hs & Hr). assert (Hf : selectors_fit (v_frame v0)).
  { destruct Hselectors as (H1 & H2 & H3). destruct Hs as (_ & _ & _ & [[E1 E2]|(_ & E1 & E2)]); unfold selectors_fit; by rewrite E1, E2. }
  clear Hs. induction Hr as [|v1 v2 v3 Hst _ IH]; [exact Hf|]. apply IH. destruct Hst; [by eapply Hinstr|exact Hf].
Qed.

Definition private (s : Sys L) (x : ExecutionContext) : Prop := forall id v, has_cpu s x id v -> own_run id v.

Definition machine_inv (m : Sys L * Cpu) : Prop := sched_inv m.1 /\ running m.1 /\ private m.1 (live m.2).

(** The context of the current process. *)
Lemma private_fits s x : running s -> private s x -> selectors_fit (ctx_frame x).
Proof. intros (p & Hc & _) Hp. apply (own_run_fits (proc_id p) (vcpu_of x (fpu s))), Hp. left. by exists p. Qed.

(** Resuming what the scheduler has chosen. *)
Lemma resume_inv s x c2 a c' : sched_inv s -> running s -> private s x -> 0 <= a < 2 ^ 64 - 256 -> stored (words c2) a (context_words x) ->
  run segment (switch_to a) c2 = Some c' -> machine_inv (s, c').
Proof.
  intros Hinv Hr Hp Ha Hs E. rewrite (switch_spec segment c2 a x Ha (private_fits s x Hr Hp) Hs) in E. destruct (may_load _ _ _); [|done].
  injection E as <-. split; [done|]. split; [done|]. by destruct x.
Qed.

Lemma machine_step_inv m m' : machine_inv m -> machine_step m m' -> machine_inv m'.
Proof.
  intros (Hinv & Hr & Hp) Hst. destruct Hst as [s c p v w Hc Hi|s c top ip kcs kss body c1 s' x c2 a c' Ht Hk Hh E1 E2 Ha Hs E3|
    s c top ip kcs kss error fb cr2 kc c1 s' x c2 a c' Ht Hk E1 E2 Ha Hs E3|s c q]; cbn [fst snd] in *.
  - split; [by destruct Hinv; split|]. split; [exact Hr|]. intros id u [(p' & Hc' & Hid & ->)|Hw]; [|by apply Hp; right].
    cbn in Hc'. assert (p' = p) as -> by congruence. subst id. apply (own_run_more _ (vcpu_of (live c) (fpu s))); [apply Hp; left; by exists p|].
    apply rtc_once, own_instr. by destruct v.
  - destruct (entry_transparent segment top ip kcs kss c Ht (private_fits s (live c) Hr Hp)) as (c1' & E & Ec & _). rewrite E1 in E. injection E as <-.
    rewrite Ec in E2. destruct Hr as (p & Hc & Hn). destruct (sched_step_inv selectors INIT_FXSAVE_AREA s s') as [Hinv' Hr']; [by eapply step_interrupt|done|by exists p|].
    apply (resume_inv s' x c2 a c'); try done. intros id v Hv.
    destruct (interrupt_cpu s p (live c) body s' x id v Hh Hinv Hk Hc Hn E2 Hv) as [Hst|(v0 & Hv0 & Hrun)]; [exists v; split; [exact Hst|apply rtc_refl]|].
    eapply own_run_more; [by apply Hp|exact Hrun].
  - destruct (fault_entry_exact segment top ip kcs kss error c Ht (private_fits s (live c) Hr Hp)) as (c1' & E & _ & Ec & _). rewrite E1 in E. injection E as <-.
    pose proof E2 as E2'. apply page_fault_inv in E2' as (p & s2 & Hc & Hn & (H2 & Hp2 & _) & Hs2); [|done].
    apply schedule_next_inv in Hs2 as (Hinv' & Hr' & _); [|done|unfold counter_ok in Hk; cbn in Hp2; by rewrite Hp2].
    apply (resume_inv s' x c2 a c'); try done. intros id v Hv.
    destruct (page_fault_cpu s s' fb _ cr2 kc x id v Hinv Hk E2 Hv) as [Hst|Hv0]; [exists v; split; [exact Hst|apply rtc_refl]|].
    rewrite Ec in Hv0. by apply Hp.
  - split; [by apply sched_inv_shell|]. split; [exact Hr|]. exact Hp.
Qed.

(** ** Start-up *)

Lemma Scheduler_init_cpu s shell s' id v : Scheduler_init selectors idle_loop kernel_stack_top INIT_FXSAVE_AREA s shell = Done s' -> waits_with s' id v ->
  waits_with s id v \/ start_cpu id v.
Proof.
  unfold Scheduler_init. intros Hr Hw. exec_cases Hr. injection Hr as <-. apply (waits_push (upd_kernel s k)) in Hw as [Hw|(y & Hid & Hy & ->)]; [by left|right].
  cbn in Hy, Hid. injection Hy as <-. split; [done|]. split; [done|]. split; [done|]. by right.
Qed.

Lemma boot_machine_inv s0 shell s c : current s0 = None -> queue s0 = RunQueue_new -> blocked s0 = [] -> PROCESS_ID s0 = 1 ->
  boot selectors idle_loop kernel_stack_top INIT_FXSAVE_AREA s0 shell = Done (s, live c) -> machine_inv (s, c).
Proof.
  intros Hc Hq Hb Hi Hboot. unfold boot in Hboot. exec_inv Hboot. pose proof E as E0. apply run_user_process_inv in E as (p0 & k0 & l & -> & Hp0 & Hs0).
  exec_inv Hboot. pose proof E as E1. apply Scheduler_init_inv in E as (p & k & sh & -> & Hid & Hs). rewrite Hi in *.
  destruct (empty_boot_inv s0 p0 p k0 l k sh) as (Hinv & Hcur & Hcnt); [done..|].
  assert (Hk : counter_ok (upd_shell (add_to_queue (upd_kernel (add_to_queue (upd_loader (upd_kernel (upd_id s0 (1 ⊞ 1)) k0) l) p0) k) p) (Some sh))) by (unfold counter_ok; rewrite Hcnt; lia).
  pose proof Hboot as Hsched. apply schedule_next_inv in Hboot as (Hinv' & Hr' & _); [|exact Hinv|exact Hk].
  split; [exact Hinv'|]. split; [exact Hr'|]. intros id v Hv. exists v. split; [|apply rtc_refl].
  eapply schedule_next_cpu in Hv as [Hv|Hv]; [|exact Hv|exact Hinv|exact Hk| |exact Hsched]; [|intros q Hq'; by rewrite Hcur in Hq'].
  destruct Hv as [(q & ? & Hq' & _)|Hw]; [by rewrite Hcur in Hq'|].
  eapply Scheduler_init_cpu in E1 as [Hw1|]; [|done|exact Hw]. eapply run_user_process_cpu in E0 as [Hw0|]; [|done|exact Hw1].
  destruct Hw0 as (q & ? & Hq' & _). unfold waiting in Hq'. rewrite Hq, Hb in Hq'. by apply elem_of_nil in Hq'.
Qed.

(** No process has two processors. *)
Lemma has_cpu_unique s x id v v' : sched_inv s -> has_cpu s x id v -> has_cpu s x id v' -> v = v'.
Proof.
  intros Hinv H1 H2. pose proof (si_ids _ Hinv) as Hn. unfold ids, procs in Hn. fold (waiting s) in Hn. rewrite fmap_app in Hn. apply NoDup_app in Hn as (_ & Hd & Hn).
  assert (Hone : forall p q, p ∈ waiting s -> q ∈ waiting s -> proc_id p = proc_id q -> p = q).
  { intros p q Hp Hq E. clear -Hn Hp Hq E. induction (waiting s) as [|y l IH]; [by apply elem_of_nil in Hp|]. cbn in Hn. apply NoDup_cons in Hn as [Hni Hn].
    apply elem_of_cons in Hp as [->|Hp], Hq as [->|Hq]; [done| | |by apply IH]; destruct Hni; [rewrite E|rewrite <- E]; by apply list_elem_of_fmap_2. }
  assert (Hmix : forall p q, current s = Some p -> q ∈ waiting s -> proc_id p = proc_id q -> False).
  { intros p q Hp Hq E. apply (Hd (proc_id p)); [rewrite Hp; by left|rewrite E; by apply list_elem_of_fmap_2]. }
  destruct H1 as [(p & Hp & E & ->)|(p & y & Hp & E & Hy & ->)], H2 as [(q & Hq & E' & ->)|(q & z & Hq & E' & Hz & ->)].
  - done.
  - exfalso. by apply (Hmix p q Hp Hq); congruence.
  - exfalso. by apply (Hmix q p Hq Hp); congruence.
  - assert (p = q) as -> by by apply Hone; congruence. congruence.
Qed.

(** ** Properties *)

End preemption.

(** ** Witness *)

(** Processes whose only instruction loads 7 into [rax]. *)
Definition example_instr (id : Z) (v v' : VCpu) : Prop := v' = mkVCpu (set_rax (v_regs v) 7) (v_frame v) (v_fpu v).

